(* ===== verification/_CoqProject ===== *)
-Q . S2P
Prelude.v
Domain.v
GoJson.v
Number.v
Portable.v
Values.v
QuerySpec.v
Config.v
Policy.v
Sql.v
JsonText.v
Rows.v
IndexMerge.v
Plan.v
Aggregate.v
AggregateNormal.v
NumericBucket.v
KeysetDecimal.v
SqlAggregate.v
Keyset.v
KeysetBinds.v
PolicyAggregate.v
PolicyKeyset.v
SqlKeyset.v
KeysetRows.v
KeysetCursor.v
KeysetWalk.v
KeysetContinuation.v
PublicShapes.v
ShapeSizes.v
ShapeDocument.v
Discovery.v
AuditEvents.v
ShapeHash.v
Driver.v
Session.v
PlanFirst.v
KeysetSession.v
Manager.v
ServiceCore.v
Service.v
ServiceKeyset.v
ServiceStatistics.v
TableStatistics.v
ServiceShapes.v
AuditBounds.v
ServiceCourse.v
Gates.v
