(* ===== verification/Prelude.v ===== *)
(** * A verification of the Quordon gateway

    Quordon stands between clients and MySQL: a request names a profile, a
    datasource and a query in a closed JSON vocabulary; the gateway validates it,
    authorizes it against a reviewed policy, compiles it to one parameterized
    statement and runs it with bounds on time, rows and bytes. This development
    models the parts that decide what is executed and what is returned, and proves
    what each of them promises to the next.

    ** The parts and how they meet

    - [internal/domain]: operations, limits and identifier semantics. Domain.v.
    - [internal/queryspec]: the requests. Number.v (JSON integers), Portable.v (dates
      and times), Values.v (typed bind values), QuerySpec.v (select and explain:
      [Validate], [Revalidate]), Aggregate.v ([ValidateAggregate],
      [RevalidateAggregate]), AggregateNormal.v ([NormalizeAggregateIdentifiers] and
      the digests that order filters), NumericBucket.v (boundaries as exact
      decimals, the number of bind parameters) and Keyset.v (pages after a cursor:
      [ValidateKeyset], [RevalidateKeyset], [NormalizeKeysetIdentifiers]).
    - [internal/config]: the data of a configuration, and the checks of shapes that ask for
      text as stored. Config.v.
    - [internal/policy]: Policy.v (bindings, patterns, select, explain, schema and
      statistics), PolicyAggregate.v (the reviewed aggregate shapes) and PolicyKeyset.v
      (the reviewed keyset shapes, named by the request); the
      discovery of shapes: PublicShapes.v (public shapes, the sizes that are counted before
      anything is encoded, the canonical text), ShapeSizes.v (the counted sizes are those of
      the JSON), ShapeDocument.v (the document and its envelope) and Discovery.v (which profile
      publishes what, and who may list it).
    - [internal/adapters/mysql8]: Sql.v (the SELECT), SqlAggregate.v (source columns and
      the aggregate statement), Plan.v and IndexMerge.v (acceptance of an execution
      plan), Rows.v (rows under a byte budget), Driver.v (the connection and its
      errors), Session.v ([Select], [Explain], [Aggregate] as sequences of driver
      calls), PlanFirst.v (the order of the calls of an operation that inspects its plan), and for keyset pages KeysetDecimal.v
      (exact operands for DECIMAL columns), KeysetBinds.v (the operands of all other
      types), SqlKeyset.v (source columns, statement, cursor predicate), KeysetRows.v (the
      rows of a page and its cursor), KeysetCursor.v (a cursor as the next request),
      KeysetWalk.v (a client that follows the cursors), KeysetContinuation.v (the bound on the
      request that continues a page) and KeysetSession.v ([SelectKeyset] on a connection).
      TableStatistics.v is the reading of table statistics from the catalog, which uses the
      checks of ServiceStatistics.v for its theorem.
    - [internal/database]: the manager, which gives each authorized operation to the adapter of
      its datasource. Manager.v.
    - [internal/audit] and the sizes of its events: AuditEvents.v. The hashes that identify a
      shape: ShapeHash.v.
    - [internal/queryservice]: every operation from the request to the answer. ServiceCore.v
      (errors, gates, audit events, the monad), Service.v ([Explain], [Select], [Aggregate], the
      listings), ServiceKeyset.v, ServiceStatistics.v, ServiceShapes.v (construction, readiness,
      the listing of query shapes), AuditBounds.v (the preflights and the publication of the
      discovery snapshots), ServiceCourse.v (what an operation may do, in which order) and
      Gates.v (the gates under concurrent requests).
    - Go's own library, as far as the code leans on it: GoJson.v ([utf8] and
      [json.Marshal]) and JsonText.v ([json.Unmarshal] into [any]).

    A request goes through the files in that order: [Validate] gives a [Validated], which
    [authorizeQuery] revalidates under the smaller of the server's and the
    profile's limits and turns into an [AuthorizedQuery]; [compileSelect] prints the
    statement of it; [Session.Select] runs it. [Service.Select] is the whole way: it finds the
    binding, validates, asks the manager for the semantics, authorizes, has the allow decision
    recorded, takes a token of both gates, calls the manager, and records how it ended. The Go types whose fields are private
    become records with a validity flag and, for a binding, the address of the
    snapshot that minted it.

    ** Conventions

    Go's [int] and [int64] are [Z] with the range written where the code can reach it
    ([parseJSONInteger], [parse_uint]); Go strings are [string], one [ascii] per byte. A
    function that returns an error is a [result]; a function that returns only an error is
    an [error], whose success is [nil_error]. [check?], [let?] and [if? .. return .. then] follow
    the early returns of the source; [each] and [iter] are its range loops. The
    operations on a connection are programs of the monad [M] of Driver.v, which threads the
    server's state, the flags of the function and a trace of calls; [deferred] runs
    a deferred call on every path. Maps are stdpp's [gmap]; where a map only remembers
    what was seen it is the list of what was seen. Definitions are executable;
    recursion follows the data except in the text parsers, whose fuel is the length of
    the text (each round consumes a byte, and the exactness theorems of these
    parsers cover every text, so fuel never runs out).

    Code outside the repository is a parameter: SHA-256 is a function [sha256], with
    collision freedom assumed on the texts at hand only where a digest is compared;
    the MySQL server and its driver are an instance of the class [Driver], which may answer
    anything, with the laws [SessionLaws] on the session where a theorem needs them;
    the simulated server of Driver.v satisfies them. They do not say that a failed COMMIT or
    ROLLBACK ends the transaction: what an operation owes then is part of its theorem
    ([Excuse] names the events after which [Select] and [Explain] may leave one open).

    ** What is shown

    - Requests: [Validate_exact], [validateAggregate_exact], [validateFilter_exact],
      [BindValue_exact], [parseJSONInteger_exact], [parsePortableDateTime_exact],
      [ParsePortableDate_exact], [ValidateKeyset_exact] give the accepted inputs in closed form, with the result on
      each; [Revalidate_is_Validate_min], [RevalidateAggregate_is_Validate_min] and
      [RevalidateKeyset_is_ValidateKeyset_min] refine
      validation under the combined limits; normalization is exact, idempotent and
      identifies what the identifier semantics identifies.
    - Authorization: [AuthorizeBinding_exact], [binding_is_capability], [allowed_exact],
      [authorizeQuery_exact], [schema_grant_confined] and
      [authorized_aggregate_reviewed] and [authorized_keyset_reviewed], which end in the
      reviewed shape of the policy. [source_text_shape_unreachable] and
      [representation_counts_as_duplicate] record two flaws of the code: a reviewed keyset shape with
      a represented predicate is never matched, and the exact digest of a
      filter ignores representations.
    - Discovery: [document_is_exact] (the counters, [json.Marshal] and the canonical writers agree),
      [document_within_policy] (against what a shape itself uses and names) and
      [listing_is_published].
    - Statements: [authorized_select_statement] and [authorized_aggregate_statement] read the
      compiled text back with a lexer; [statement_independent_of_values] and
      [quote_reads_back] exclude injection; [authorized_keyset_statement] does the same for a
      page, [keyset_cursor_exact] gives the rows its condition selects, and
      [datetime_operand_denotes] what a bound date-time means; [numericBoundaryCast_exact] and
      [NumericBucketParameters_exact] bound types and counts;
      [normalizeExactKeysetDecimal_exact] excludes rounding.
    - Execution: [operations_leave_session] for the five operations on a connection of their
      own, with the one case in which [Select] and [Explain] give an open transaction back,
      [statistics_answer_accepted] (the adapter's table statistics are what the service
      accepts, in the bytes that were counted), [aggregate_runs_its_plan], [keyset_runs_its_plan], [continuation_request_fits],
      [validateAggregatePlan_exact], [indexMergeUsesIndex_exact].
    - The service: [operations_keep_course] (no call without a permission under the semantics
      the datasource reported, recorded, and a token of both gates; no answer without a recorded
      success), [listing_serves_publication] and [listing_audit_bounded], [capacity_respected] and
      [requests_settle] (all interleavings of requests at the gates: bounds, no waiting,
      no lost token, an end), [NewManager_well_typed] and [listings_confined]
      (the manager gives each grant to the method of its own adapter, and filters that answer),
      [audit_size_exact] and [worst_identity_unique] (the counted size of an event is that of its JSON),
      [ShapeHash_exact] (queries of one hash differ only in values).
    - Results: [encodedRowSize_exact] and the largest-prefix theorems of Rows.v;
      [collectKeysetRows_page] for a page, which can only end after a row whose cursor fits.
      [cursor_continues_after_row] closes the loop from an answer to the next request, and
      [walk_reads_table] composes request, statement, page and cursor: over a server that
      filters and sorts as the statement says, following the cursors reads every row once.

    ** Not modelled

    Pure input and output (process start, files, YAML, HTTP transport, the audit writer's file,
    password hashing), the strict JSON decoders of the requests, and the validation of
    a configuration.

    This file holds what the other files share: scopes, tactics, hint databases, the
    error monad with its notation, and lemmas on lists, strings and integers. *)
From Stdlib Require Export ZArith Lia List String Ascii Bool.
From Stdlib Require Import DecimalString.
From stdpp Require Export base tactics list strings gmap.

#[global] Set Default Goal Selector "!".

Declare Scope go_scope.
Delimit Scope go_scope with go.

(** ** Go values: [error], and a call that returns a value and an error *)

(** The error values the code builds: [*queryspec.ValidationError],
    [*policy.Denial], [*database.Error] (its [Kind]) and [errors.New]/[fmt.Errorf]. *)
Inductive goerr : Type :=
| ValidationError (path message : string)
| Denial (reason : string)
| DatabaseError (kind : string)
| ErrorString (message : string).

Inductive result (A : Type) : Type :=
| Ok (value : A)
| Err (e : goerr).
Arguments Ok {A} value.
Arguments Err {A} e.

(** A Go function that returns only an [error]: [Ok tt] is [nil]. *)
Abbreviation error := (result unit).
Abbreviation nil_error := (Ok tt).

#[export] Instance goerr_eq_dec : EqDecision goerr.
Proof. solve_decision. Defined.

#[export] Instance result_eq_dec {A} `{EqDecision A} : EqDecision (result A).
Proof. solve_decision. Defined.

Definition rbind {A B} (r : result A) (k : A -> result B) : result B :=
  match r with
  | Ok a => k a
  | Err e => Err e
  end.

Definition is_ok {A} (r : result A) : bool :=
  match r with Ok _ => true | Err _ => false end.

Notation "'let?' x := e 'in' k" := (rbind e (fun x => k))
  (at level 10, x pattern, e at level 100, k at level 200) : go_scope.
Notation "'check?' e 'then' k" := (rbind e (fun _ : unit => k))
  (at level 10, e at level 100, k at level 200) : go_scope.
Notation "'if?' b 'return' e 'then' k" := (if b then Err e else k)
  (at level 10, b at level 100, e at level 100, k at level 200) : go_scope.
Open Scope go_scope.

Lemma rbind_ok {A B} (r : result A) (k : A -> result B) b :
  rbind r k = Ok b <-> exists a, r = Ok a /\ k a = Ok b.
Proof. destruct r; simpl; naive_solver. Qed.

Lemma rbind_err {A B} (r : result A) (k : A -> result B) e :
  rbind r k = Err e <-> r = Err e \/ exists a, r = Ok a /\ k a = Err e.
Proof. destruct r; simpl; naive_solver. Qed.

Lemma if_err_ok {A} (c : bool) e (k : result A) b :
  (if c then Err e else k) = Ok b <-> c = false /\ k = Ok b.
Proof. destruct c; naive_solver. Qed.

(** [err_inv] reads a successful call backwards: each guard that returned an
    error was false, and each call that could fail succeeded. *)
Ltac err_inv :=
  repeat match goal with
  | H : rbind _ _ = Ok _ |- _ => apply rbind_ok in H as (? & ? & H)
  | H : (if _ then Err _ else _) = Ok _ |- _ => apply if_err_ok in H as (? & H)
  | H : Err _ = Ok _ |- _ => discriminate H
  | H : Ok _ = Ok _ |- _ => injection H as H
  | x : unit |- _ => destruct x
  end.

(** ** Lengths and integers

    A Go [int] is a 64-bit integer; it is kept as a [Z], and [len] is the
    length of a slice or string as such an integer. *)
Definition max_int : Z := 2 ^ 63 - 1.

Definition len {A} (l : list A) : Z := Z.of_nat (List.length l).
Definition slen (s : string) : Z := Z.of_nat (String.length s).

Lemma len_nonneg {A} (l : list A) : (0 <= len l)%Z.
Proof. unfold len. lia. Qed.

Lemma slen_nonneg s : (0 <= slen s)%Z.
Proof. unfold slen. lia. Qed.

Lemma len_nil {A} : len (@nil A) = 0%Z.
Proof. done. Qed.

Lemma len_cons {A} (x : A) l : len (x :: l) = (1 + len l)%Z.
Proof. unfold len. simpl. lia. Qed.

Lemma len_app {A} (l k : list A) : len (l ++ k) = (len l + len k)%Z.
Proof. unfold len. rewrite length_app. lia. Qed.

Lemma len_zero {A} (l : list A) : (len l =? 0)%Z = true <-> l = [].
Proof. unfold len. rewrite Z.eqb_eq. destruct l; simpl; split; intros; (done || lia). Qed.

Lemma slen_app s t : slen (s +:+ t) = (slen s + slen t)%Z.
Proof.
  unfold slen. induction s as [|c s IH]; [done|].
  change (String.length (String c s +:+ t)) with (S (String.length (s +:+ t))).
  simpl String.length. lia.
Qed.

Lemma slen_cons c s : slen (String c s) = (1 + slen s)%Z.
Proof. unfold slen. simpl. lia. Qed.

(** [lia] with the quotients and remainders of the goal and the context. *)
Ltac div_lia := Z.to_euclidean_division_equations; lia.

(** ** Loops over a slice

    [iter_from i f l s] is [for i, x := range l { s, err = f(i, x, s); if err
    != nil { return err } }] with the state [s] the loop body assigns. *)
Section Iter.
Context {A S : Type} (f : Z -> A -> S -> result S).

Fixpoint iter_from (i : Z) (l : list A) (s : S) : result S :=
  match l with
  | [] => Ok s
  | x :: l' => let? s' := f i x s in iter_from (i + 1)%Z l' s'
  end.

Definition iter (l : list A) (s : S) : result S := iter_from 0 l s.

Lemma iter_from_app i l k s :
  iter_from i (l ++ k) s =
  (let? s' := iter_from i l s in iter_from (i + len l)%Z k s').
Proof.
  revert i s. induction l as [|x l IH]; intros i s.
  - simpl. by rewrite len_nil, Z.add_0_r.
  - simpl. destruct (f i x s); simpl; [|done].
    rewrite IH, len_cons. by replace (i + 1 + len l)%Z with (i + (1 + len l))%Z by lia.
Qed.

End Iter.

(** [for i, x := range l { if err := f(i, x); err != nil { return err } }] *)
Section Each.
Context {A : Type} (f : Z -> A -> error).

Fixpoint each_from (i : Z) (l : list A) : error :=
  match l with
  | [] => nil_error
  | x :: l' => check? f i x then each_from (i + 1)%Z l'
  end.

Definition each (l : list A) : error := each_from 0 l.

Lemma each_from_ok i l :
  each_from i l = Ok tt <->
  forall n x, l !! n = Some x -> f (i + Z.of_nat n)%Z x = Ok tt.
Proof.
  revert i. induction l as [|x l IH]; intros i; simpl.
  - split; [intros _ n x; by rewrite lookup_nil | done].
  - rewrite rbind_ok. split.
    + intros ([] & Hx & Hl) [|n] y Hy; simpl in Hy.
      * injection Hy as <-. by rewrite Z.add_0_r.
      * rewrite IH in Hl. replace (i + Z.of_nat (S n))%Z with (i + 1 + Z.of_nat n)%Z by lia. eauto.
    + intros H. exists tt. split.
      * specialize (H 0%nat x eq_refl). by rewrite Z.add_0_r in H.
      * rewrite IH. intros n y Hy. specialize (H (S n) y Hy).
        by replace (i + 1 + Z.of_nat n)%Z with (i + Z.of_nat (S n))%Z by lia.
Qed.

(** When the verdict does not depend on the index, a loop of checks is [Forall]. *)
Lemma each_ok_Forall (P : A -> Prop) l :
  (forall i x, f i x = Ok tt <-> P x) -> (each l = Ok tt <-> Forall P l).
Proof.
  intros HP. unfold each. rewrite each_from_ok, Forall_lookup.
  split; intros H n x Hx; [eapply HP|eapply HP]; eauto.
Qed.
End Each.

(** ** Strings

    A Go [string] is a sequence of bytes, here a [string] of 8-bit [ascii]
    characters. [strings.ToLower], [strings.ToUpper] and [strings.EqualFold] are
    given on ASCII text; a byte above 127 is left alone. *)
Definition dquote : string := String (ascii_of_nat 34) EmptyString.

Definition in_range (lo hi c : ascii) : bool :=
  (nat_of_ascii lo <=? nat_of_ascii c)%nat && (nat_of_ascii c <=? nat_of_ascii hi)%nat.

Definition is_digit (c : ascii) : bool := in_range "0" "9" c.
Definition is_upper (c : ascii) : bool := in_range "A" "Z" c.
Definition is_lower (c : ascii) : bool := in_range "a" "z" c.
Definition is_alpha (c : ascii) : bool := is_upper c || is_lower c.

Definition lower_ascii (c : ascii) : ascii :=
  if is_upper c then ascii_of_nat (nat_of_ascii c + 32) else c.
Definition upper_ascii (c : ascii) : ascii :=
  if is_lower c then ascii_of_nat (nat_of_ascii c - 32) else c.

Fixpoint smap (f : ascii -> ascii) (s : string) : string :=
  match s with
  | EmptyString => EmptyString
  | String c s' => String (f c) (smap f s')
  end.

Fixpoint sforall (p : ascii -> bool) (s : string) : bool :=
  match s with
  | EmptyString => true
  | String c s' => p c && sforall p s'
  end.

Definition to_lower : string -> string := smap lower_ascii.
Definition to_upper : string -> string := smap upper_ascii.

(** [slices.Contains] on a slice of strings. *)
Definition contains (l : list string) (x : string) : bool := existsb (String.eqb x) l.

(** [strings.Join]. *)
Fixpoint join (sep : string) (l : list string) : string :=
  match l with
  | [] => EmptyString
  | [x] => x
  | x :: l' => x +:+ sep +:+ join sep l'
  end.

(** [strings.Split] at a single byte. *)
Fixpoint split_byte (sep : ascii) (s : string) : list string :=
  match s with
  | EmptyString => [EmptyString]
  | String c s' =>
      if Ascii.eqb c sep then EmptyString :: split_byte sep s'
      else match split_byte sep s' with
           | [] => [String c EmptyString]
           | p :: ps => String c p :: ps
           end
  end.

(** [strconv.Itoa]. *)
Definition itoa (z : Z) : string := NilZero.string_of_int (Z.to_int z).

(** [strings.TrimSpace] and [bytes.TrimSpace], on ASCII white space. *)
Definition is_space (c : ascii) : bool :=
  in_range (ascii_of_nat 9) (ascii_of_nat 13) c || Ascii.eqb c " ".

Fixpoint trim_left_by (p : ascii -> bool) (s : string) : string :=
  match s with
  | EmptyString => EmptyString
  | String c s' => if p c then trim_left_by p s' else s
  end.

Fixpoint srev_app (s acc : string) : string :=
  match s with
  | EmptyString => acc
  | String c s' => srev_app s' (String c acc)
  end.

Definition srev (s : string) : string := srev_app s EmptyString.
Definition trim_right_by (p : ascii -> bool) (s : string) : string :=
  srev (trim_left_by p (srev s)).
Definition trim_space (s : string) : string := trim_right_by is_space (trim_left_by is_space s).

(** [s[i:]] for [i <= len(s)], and [s[:i]]. *)
Fixpoint sdrop (n : nat) (s : string) : string :=
  match n, s with
  | O, _ => s
  | S n', String _ s' => sdrop n' s'
  | S _, EmptyString => EmptyString
  end.

Fixpoint stake (n : nat) (s : string) : string :=
  match n, s with
  | S n', String c s' => String c (stake n' s')
  | _, _ => EmptyString
  end.

(** ** Facts about strings *)

Lemma sapp_cons c a b : String c a +:+ b = String c (a +:+ b).
Proof. done. Qed.

Lemma sapp_nil_l (a : string) : EmptyString +:+ a = a.
Proof. done. Qed.

Lemma sapp_assoc (a b c : string) : (a +:+ b) +:+ c = a +:+ b +:+ c.
Proof. induction a as [|x a IH]; [done|]. rewrite !sapp_cons. by rewrite IH. Qed.

Lemma sapp_nil_r (a : string) : a +:+ EmptyString = a.
Proof. induction a as [|x a IH]; [done|]. rewrite !sapp_cons. by rewrite IH. Qed.

Lemma sapp_inv_head (a b c : string) : a +:+ b = a +:+ c -> b = c.
Proof. induction a as [|x a IH]; [done|]. rewrite !sapp_cons. intros H. injection H as H. auto. Qed.

Lemma sforall_app p a b : sforall p (a +:+ b) = sforall p a && sforall p b.
Proof. induction a as [|c a IH]; [done|]. rewrite sapp_cons. simpl. by rewrite IH, andb_assoc. Qed.

Lemma sforall_impl (p q : ascii -> bool) s :
  (forall c, p c = true -> q c = true) -> sforall p s = true -> sforall q s = true.
Proof.
  intros H. induction s as [|c s IH]; simpl; [done|].
  rewrite !andb_true_iff. intros [? ?]; auto.
Qed.

Lemma smap_app f a b : smap f (a +:+ b) = smap f a +:+ smap f b.
Proof. induction a as [|c a IH]; [done|]. rewrite sapp_cons. simpl. by rewrite IH. Qed.

Lemma slen_smap f s : slen (smap f s) = slen s.
Proof. unfold slen. f_equal. induction s as [|c s IH]; simpl; congruence. Qed.

(** Facts about one byte are decided by looking at all 256 of them. *)
Definition all_bytes (p : ascii -> bool) : bool :=
  forallb (fun n => p (ascii_of_nat n)) (seq 0 256).

Lemma all_bytes_spec p : all_bytes p = true -> forall c, p c = true.
Proof.
  unfold all_bytes. rewrite forallb_forall. intros H c.
  rewrite <- (ascii_nat_embedding c). apply H. apply in_seq.
  pose proof (nat_ascii_bounded c). lia.
Qed.

Lemma lower_ascii_idem c : lower_ascii (lower_ascii c) = lower_ascii c.
Proof.
  apply Ascii.eqb_eq. revert c.
  exact (all_bytes_spec (fun c => Ascii.eqb (lower_ascii (lower_ascii c)) (lower_ascii c)) eq_refl).
Qed.

Lemma to_lower_idem s : to_lower (to_lower s) = to_lower s.
Proof.
  unfold to_lower. induction s as [|c s IH]; [done|].
  simpl. by rewrite lower_ascii_idem, IH.
Qed.

Lemma contains_In l x : contains l x = true <-> In x l.
Proof.
  unfold contains. rewrite existsb_exists. split.
  - intros (y & ? & ->%String.eqb_eq). done.
  - intros ?. exists x. by rewrite String.eqb_refl.
Qed.

Lemma contains_false l x : contains l x = false <-> ~ In x l.
Proof. rewrite <- contains_In. by destruct (contains l x). Qed.

(** Rewriting with the shape of boolean guards: [bool_prop] turns every boolean
    hypothesis or goal into its proposition. *)
Create HintDb go_bool.
#[export] Hint Rewrite andb_true_iff andb_false_iff orb_true_iff orb_false_iff negb_true_iff
  negb_false_iff Z.ltb_lt Z.ltb_ge Z.leb_le Z.leb_gt Z.eqb_eq Z.eqb_neq Nat.eqb_eq Nat.eqb_neq
  Nat.leb_le Nat.leb_gt Nat.ltb_lt Nat.ltb_ge String.eqb_eq String.eqb_neq contains_In
  contains_false Z.gtb_lt : go_bool.
Ltac bool_prop := autorewrite with go_bool in *.

(** A loop that refuses an element whose key it has already seen. *)
Lemma iter_seen {A} (f : Z -> A -> list string -> result (list string)) (P : A -> Prop) (key : A -> string) l :
  Forall (fun x => forall i seen seen', f i x seen = Ok seen' <-> P x /\ (key x ∉ seen) /\ seen' = key x :: seen) l ->
  forall i seen seen', NoDup seen ->
  iter_from f i l seen = Ok seen' <->
  Forall P l /\ NoDup (rev (map key l) ++ seen)%list /\ seen' = (rev (map key l) ++ seen)%list.
Proof.
  induction 1 as [|x l Hx Hl IH]; intros i seen seen' Hn; cbn [iter_from map rev app].
  - split; [intros [= <-]|intros (_ & _ & ->)]; by split_and?.
  - rewrite rbind_ok, Forall_cons, <- app_assoc. cbn [app]. split.
    + intros (s & Hs & Hr). apply Hx in Hs as (HP & Hk & ->). apply IH in Hr; [|by constructor]. tauto.
    + intros ((HP & HF) & Hd & ->). exists (key x :: seen).
      assert (Hd' : NoDup (key x :: seen)) by (apply NoDup_app in Hd as (_ & _ & ?); done).
      split; [apply Hx; split_and!; [done|by apply NoDup_cons in Hd' as [? _]|done]|by apply IH].
Qed.

Lemma contains_false_elem l x : contains l x = false <-> x ∉ l.
Proof. rewrite contains_false. by rewrite list_elem_of_In. Qed.

Lemma NoDup_rev_app (l : list string) : NoDup (rev l ++ [])%list <-> NoDup l.
Proof. rewrite app_nil_r. by rewrite <- (Permutation_rev l). Qed.

Lemma iter_seen_nil {A} (f : Z -> A -> list string -> result (list string)) (P : A -> Prop) (key : A -> string) l seen' :
  Forall (fun x => forall i seen seen', f i x seen = Ok seen' <-> P x /\ (key x ∉ seen) /\ seen' = key x :: seen) l ->
  iter f l [] = Ok seen' <-> Forall P l /\ NoDup (map key l) /\ seen' = rev (map key l).
Proof.
  intros H. unfold iter. rewrite (iter_seen f P key l H) by constructor. by rewrite NoDup_rev_app, app_nil_r.
Qed.

(** ** Trimming *)

Lemma srev_app_spec s acc : srev_app s acc = srev s +:+ acc.
Proof.
  unfold srev. revert acc. induction s as [|c s IH]; intros acc; [done|].
  simpl. rewrite IH, (IH (String c EmptyString)), sapp_assoc. done.
Qed.

Lemma srev_cons c s : srev (String c s) = srev s +:+ String c EmptyString.
Proof. unfold srev at 1. simpl. by rewrite srev_app_spec. Qed.

Lemma srev_append a b : srev (a +:+ b) = srev b +:+ srev a.
Proof.
  induction a as [|c a IH]; [by rewrite sapp_nil_l, sapp_nil_r|].
  rewrite sapp_cons, !srev_cons, IH. by rewrite sapp_assoc.
Qed.

Lemma srev_involutive s : srev (srev s) = s.
Proof. induction s as [|c s IH]; [done|]. by rewrite srev_cons, srev_append, IH. Qed.

Lemma sforall_srev p s : sforall p (srev s) = sforall p s.
Proof.
  induction s as [|c s IH]; [done|]. rewrite srev_cons, sforall_app, IH. simpl.
  by rewrite andb_true_r, andb_comm.
Qed.

Definition starts_by (p : ascii -> bool) (s : string) : bool :=
  match s with String c _ => p c | EmptyString => false end.

(** [s] neither starts nor ends with a byte of [p]. *)
Definition trimmed (p : ascii -> bool) (s : string) : Prop :=
  starts_by p s = false /\ starts_by p (srev s) = false.

Lemma trim_left_by_spec p s :
  exists w, s = w +:+ trim_left_by p s /\ sforall p w = true /\ starts_by p (trim_left_by p s) = false.
Proof.
  induction s as [|c s (w & E & Hw & Hs)]; [by exists EmptyString|].
  cbn [trim_left_by]. destruct (p c) eqn:Hc.
  - exists (String c w). rewrite sapp_cons, <- E. simpl. by rewrite Hc.
  - exists EmptyString. simpl. by rewrite Hc.
Qed.

Lemma trim_left_by_pad p w s :
  sforall p w = true -> starts_by p s = false -> trim_left_by p (w +:+ s) = s.
Proof.
  intros Hw Hs. induction w as [|c w IH].
  - rewrite sapp_nil_l. destruct s as [|c s]; [done|]. simpl in *. by rewrite Hs.
  - rewrite sapp_cons. simpl in *. apply andb_true_iff in Hw as [-> Hw]. auto.
Qed.

Definition trim_by (p : ascii -> bool) (s : string) : string := trim_right_by p (trim_left_by p s).

Lemma starts_by_app p a b : starts_by p (a +:+ b) = match a with EmptyString => starts_by p b | _ => starts_by p a end.
Proof. by destruct a. Qed.

Lemma trim_by_spec p s :
  exists w w', s = w +:+ trim_by p s +:+ w' /\ sforall p w = true /\ sforall p w' = true /\ trimmed p (trim_by p s).
Proof.
  destruct (trim_left_by_spec p s) as (w & E & Hw & Hs). unfold trim_by, trim_right_by.
  set (t := trim_left_by p s) in *. destruct (trim_left_by_spec p (srev t)) as (v & Ev & Hv & Hv').
  set (u := trim_left_by p (srev t)) in *. apply (f_equal srev) in Ev.
  rewrite srev_involutive, srev_append in Ev. exists w, (srev v). rewrite sforall_srev.
  split_and!; try done; [by rewrite <- Ev|]. split; [|by rewrite srev_involutive].
  rewrite Ev, starts_by_app in Hs. by destruct (srev u).
Qed.

Lemma trim_by_pad p w s w' :
  sforall p w = true -> sforall p w' = true -> trimmed p s -> trim_by p (w +:+ s +:+ w') = s.
Proof.
  intros Hw Hw' [H1 H2]. unfold trim_by, trim_right_by. destruct s as [|c s].
  - rewrite sapp_nil_l. replace (trim_left_by p (w +:+ w')) with (trim_left_by p ((w +:+ w') +:+ EmptyString))
      by (by rewrite sapp_nil_r). rewrite trim_left_by_pad; [done|by rewrite sforall_app, Hw|done].
  - rewrite trim_left_by_pad by done.
    rewrite srev_append, trim_left_by_pad; [apply srev_involutive|by rewrite sforall_srev|done].
Qed.

Lemma trim_by_weaken p q s t :
  (forall c, p c = true -> q c = true) -> trim_by p s = t -> trimmed q t -> trim_by q s = t.
Proof.
  intros Hpq <- Ht. destruct (trim_by_spec p s) as (w & w' & E & Hw & Hw' & _).
  rewrite E at 1. apply trim_by_pad; [by apply (sforall_impl p)|by apply (sforall_impl p)|done].
Qed.

Lemma trim_space_trimmed s : trimmed is_space (trim_space s).
Proof. by destruct (trim_by_spec is_space s) as (w & w' & _ & _ & _ & H). Qed.

Lemma trim_space_idem s : trim_space (trim_space s) = trim_space s.
Proof.
  pose proof (trim_by_pad is_space EmptyString (trim_space s) EmptyString eq_refl eq_refl (trim_space_trimmed s)) as H.
  by rewrite sapp_nil_l, sapp_nil_r in H.
Qed.

(** ** Splitting at a byte and joining *)

Definition no_byte (c : ascii) (s : string) : Prop := sforall (fun d => negb (Ascii.eqb d c)) s = true.

Lemma split_byte_ne sep s : split_byte sep s <> [].
Proof. induction s as [|c s IH]; simpl; [done|]. destruct (Ascii.eqb c sep); [done|]. by destruct (split_byte sep s). Qed.

Lemma split_byte_spec sep s :
  s = join (String sep EmptyString) (split_byte sep s) /\ Forall (no_byte sep) (split_byte sep s).
Proof.
  induction s as [|c s [IH1 IH2]]; simpl; [split; [done|by repeat constructor]|].
  pose proof (split_byte_ne sep s). destruct (Ascii.eqb_spec c sep) as [->|Hc].
  - split; [|by constructor]. destruct (split_byte sep s) eqn:E; [done|]. rewrite <- E in *.
    replace (join (String sep EmptyString) (EmptyString :: split_byte sep s))
      with (EmptyString +:+ String sep EmptyString +:+ join (String sep EmptyString) (split_byte sep s)) by (by rewrite E).
    rewrite sapp_nil_l, sapp_cons, sapp_nil_l. by rewrite <- IH1.
  - destruct (split_byte sep s) as [|p ps] eqn:E; [done|]. apply Forall_cons in IH2 as [Hp Hps].
    split; [|constructor; [unfold no_byte in *; simpl; by rewrite (proj2 (Ascii.eqb_neq c sep) Hc)|done]].
    destruct ps; simpl in *; [by rewrite IH1|]. rewrite sapp_cons. by rewrite <- IH1.
Qed.

Lemma no_byte_app_inj sep a b x y : no_byte sep a -> no_byte sep b ->
  a +:+ String sep x = b +:+ String sep y -> a = b /\ x = y.
Proof.
  unfold no_byte. revert b. induction a as [|c a IH]; intros [|d b] Ha Hb E; rewrite ?sapp_nil_l, ?sapp_cons in E.
  - by injection E as ->.
  - injection E as <- _. simpl in Hb. by rewrite Ascii.eqb_refl in Hb.
  - injection E as -> _. simpl in Ha. by rewrite Ascii.eqb_refl in Ha.
  - injection E as <- E. simpl in Ha, Hb. apply andb_true_iff in Ha as [_ Ha], Hb as [_ Hb].
    by destruct (IH b Ha Hb E) as [-> ->].
Qed.

Lemma no_byte_not_app sep a x b : no_byte sep b -> a +:+ String sep x = b -> False.
Proof.
  unfold no_byte. intros Hb <-. rewrite sforall_app in Hb. simpl in Hb. rewrite Ascii.eqb_refl in Hb.
  apply andb_true_iff in Hb as [_ Hb]. done.
Qed.

Lemma join_no_byte_inj sep l k : Forall (no_byte sep) l -> Forall (no_byte sep) k -> l <> [] -> k <> [] ->
  join (String sep EmptyString) l = join (String sep EmptyString) k -> l = k.
Proof.
  intros Hl. revert k. induction Hl as [|a l Ha Hl IH]; intros k Hk Hne Hne' E; [done|].
  destruct Hk as [|b k Hb Hk]; [done|]. simpl in E. destruct l as [|a' l], k as [|b' k]; rewrite ?sapp_cons, ?sapp_nil_l in E.
  - by subst.
  - symmetry in E. exfalso. eapply no_byte_not_app; [exact Ha|exact E].
  - exfalso. eapply no_byte_not_app; [exact Hb|exact E].
  - apply no_byte_app_inj in E as [-> E]; [|done..]. f_equal. by apply IH.
Qed.
