(* ===== verification/Domain.v ===== *)
(** Operations, effective limits and identifier semantics
    (internal/domain/domain.go), and the greatest-lower-bound laws of
    [Limits.Min] that the authorization theorems use. *)
From S2P Require Import Prelude.
Local Open Scope string_scope.
Local Open Scope Z_scope.

Definition OperationListObjects : string := "list_objects".
Definition OperationDescribeObject : string := "describe_object".
Definition OperationExplainSelect : string := "explain_select".
Definition OperationSelect : string := "select".
Definition OperationSelectKeyset : string := "select_keyset".
Definition OperationAggregate : string := "aggregate".
Definition OperationListQueryShapes : string := "list_query_shapes".
Definition OperationDescribeObjectStatistics : string := "describe_object_statistics".

Definition AdapterMySQL8 : string := "mysql8".

Definition Operation_Valid (o : string) : bool :=
  contains [OperationListObjects; OperationDescribeObject; OperationExplainSelect; OperationSelect;
            OperationSelectKeyset; OperationAggregate; OperationListQueryShapes;
            OperationDescribeObjectStatistics] o.

Record IdentifierSemantics := {
  CaseInsensitiveSchemas : bool;
  CaseInsensitiveObjects : bool;
  CaseInsensitiveFields : bool;
}.

#[export] Instance IdentifierSemantics_eq_dec : EqDecision IdentifierSemantics.
Proof. solve_decision. Defined.

Record Limits := {
  DeadlineMS : Z;
  MaxRequestBytes : Z;
  MaxProjectionFields : Z;
  MaxGroupByFields : Z;
  MaxOrderByFields : Z;
  MaxPredicates : Z;
  MaxExpressionDepth : Z;
  MaxParameters : Z;
  MaxRows : Z;
  MaxResultBytes : Z;
  MaxOffset : Z;
  MaxConcurrency : Z;
}.

#[export] Instance Limits_eq_dec : EqDecision Limits.
Proof. solve_decision. Defined.

Definition Limits_Min (l other : Limits) : Limits := {|
  DeadlineMS := Z.min (DeadlineMS l) (DeadlineMS other);
  MaxRequestBytes := Z.min (MaxRequestBytes l) (MaxRequestBytes other);
  MaxProjectionFields := Z.min (MaxProjectionFields l) (MaxProjectionFields other);
  MaxGroupByFields := Z.min (MaxGroupByFields l) (MaxGroupByFields other);
  MaxOrderByFields := Z.min (MaxOrderByFields l) (MaxOrderByFields other);
  MaxPredicates := Z.min (MaxPredicates l) (MaxPredicates other);
  MaxExpressionDepth := Z.min (MaxExpressionDepth l) (MaxExpressionDepth other);
  MaxParameters := Z.min (MaxParameters l) (MaxParameters other);
  MaxRows := Z.min (MaxRows l) (MaxRows other);
  MaxResultBytes := Z.min (MaxResultBytes l) (MaxResultBytes other);
  MaxOffset := Z.min (MaxOffset l) (MaxOffset other);
  MaxConcurrency := Z.min (MaxConcurrency l) (MaxConcurrency other);
|}.

(** ** The order of limits: [l] is at least as strict as [k] in every dimension *)
Definition Limits_le (l k : Limits) : Prop :=
  DeadlineMS l <= DeadlineMS k /\ MaxRequestBytes l <= MaxRequestBytes k /\
  MaxProjectionFields l <= MaxProjectionFields k /\ MaxGroupByFields l <= MaxGroupByFields k /\
  MaxOrderByFields l <= MaxOrderByFields k /\ MaxPredicates l <= MaxPredicates k /\
  MaxExpressionDepth l <= MaxExpressionDepth k /\ MaxParameters l <= MaxParameters k /\
  MaxRows l <= MaxRows k /\ MaxResultBytes l <= MaxResultBytes k /\
  MaxOffset l <= MaxOffset k /\ MaxConcurrency l <= MaxConcurrency k.

#[export] Instance Limits_le_preorder : PreOrder Limits_le.
Proof.
  split; [intros l | intros l k m]; unfold Limits_le; intros; destruct_and?;
    repeat split; first [lia | etrans; eassumption].
Qed.

Lemma Limits_ext l k : Limits_le l k -> Limits_le k l -> l = k.
Proof.
  destruct l, k. unfold Limits_le; simpl. intros. destruct_and!.
  f_equal; apply Z.le_antisymm; assumption.
Qed.

#[export] Instance Limits_le_antisymm : AntiSymm (=) Limits_le.
Proof. intros l k. apply Limits_ext. Qed.

Lemma Limits_Min_glb l k m : Limits_le m (Limits_Min l k) <-> Limits_le m l /\ Limits_le m k.
Proof.
  unfold Limits_le, Limits_Min; simpl. rewrite !Z.min_glb_iff. tauto.
Qed.

Lemma Limits_Min_le_l l k : Limits_le (Limits_Min l k) l.
Proof. by apply (Limits_Min_glb l k (Limits_Min l k)). Qed.

Lemma Limits_Min_le_r l k : Limits_le (Limits_Min l k) k.
Proof. by apply (Limits_Min_glb l k (Limits_Min l k)). Qed.
