(* ===== verification/GoJson.v ===== *)
(** The part of Go's [unicode/utf8] and [encoding/json] that the program relies
    on: decoding runes, escaping a string the way [json.Marshal] does, and
    printing a JSON document. The size functions of the query-shape encoder
    (internal/policy/query_shapes.go) and of the MySQL adapter
    (internal/adapters/mysql8/mysql8.go) are proved against this printer. *)
From S2P Require Import Prelude.
Local Open Scope string_scope.
Local Open Scope Z_scope.

(** ** unicode/utf8 *)

Definition byte (c : ascii) : Z := Z.of_N (N_of_ascii c).
Definition between (lo x hi : Z) : bool := (lo <=? x) && (x <=? hi).

(** The continuation-byte range that the first byte of a sequence accepts, with
    the sequence's width: [None] for a byte that starts no sequence. *)
Definition lead (c : ascii) : option (nat * Z * Z) :=
  let b := byte c in
  if between 0xC2 b 0xDF then Some (2%nat, 0x80, 0xBF)
  else if b =? 0xE0 then Some (3%nat, 0xA0, 0xBF)
  else if b =? 0xED then Some (3%nat, 0x80, 0x9F)
  else if between 0xE1 b 0xEF then Some (3%nat, 0x80, 0xBF)
  else if b =? 0xF0 then Some (4%nat, 0x90, 0xBF)
  else if b =? 0xF4 then Some (4%nat, 0x80, 0x8F)
  else if between 0xF1 b 0xF3 then Some (4%nat, 0x80, 0xBF)
  else None.

Definition continuation (c : ascii) : bool := between 0x80 (byte c) 0xBF.
Definition low_bits (n : Z) (c : ascii) : Z := Z.land (byte c) (2 ^ n - 1).

(** What one call of [utf8.DecodeRune] consumed: a code point with its bytes, or
    one byte that is not valid UTF-8 ([RuneError] with width 1). *)
Inductive rune : Type :=
| Rune (code : Z) (bytes : string)
| BadByte (c : ascii).

(** The runes that successive calls of [utf8.DecodeRuneInString] read. *)
Fixpoint runes (s : string) : list rune :=
  match s with
  | EmptyString => []
  | String c0 r0 =>
      if byte c0 <? 0x80 then Rune (byte c0) (String c0 EmptyString) :: runes r0
      else
        match lead c0, r0 with
        | Some (w, lo, hi), String c1 r1 =>
            if negb (between lo (byte c1) hi) then BadByte c0 :: runes r0
            else if (w =? 2)%nat then
              Rune (low_bits 5 c0 * 64 + low_bits 6 c1)
                   (String c0 (String c1 EmptyString)) :: runes r1
            else
              match r1 with
              | String c2 r2 =>
                  if negb (continuation c2) then BadByte c0 :: runes r0
                  else if (w =? 3)%nat then
                    Rune ((low_bits 4 c0 * 64 + low_bits 6 c1) * 64 + low_bits 6 c2)
                         (String c0 (String c1 (String c2 EmptyString))) :: runes r2
                  else
                    match r2 with
                    | String c3 r3 =>
                        if negb (continuation c3) then BadByte c0 :: runes r0
                        else
                          Rune (((low_bits 3 c0 * 64 + low_bits 6 c1) * 64 + low_bits 6 c2) * 64
                                + low_bits 6 c3)
                               (String c0 (String c1 (String c2 (String c3 EmptyString))))
                            :: runes r3
                    | EmptyString => BadByte c0 :: runes r0
                    end
              | EmptyString => BadByte c0 :: runes r0
              end
        | _, _ => BadByte c0 :: runes r0
        end
  end.

Definition rune_valid (r : rune) : bool := match r with Rune _ _ => true | BadByte _ => false end.
Definition rune_bytes (r : rune) : string :=
  match r with Rune _ b => b | BadByte c => String c EmptyString end.

(** [utf8.ValidString] and [utf8.RuneCountInString]. *)
Definition valid_utf8 (s : string) : bool := forallb rune_valid (runes s).
Definition rune_count (s : string) : Z := len (runes s).

(** [strings.EqualFold]. Two texts are equal under simple folding when their
    runes have the same fold; a badly encoded byte is read as U+FFFD. The fold
    is written out for the letters that are equal to an ASCII letter (the Kelvin
    sign and the long s included): it decides the comparisons of the program,
    where one of the two texts is always an ASCII identifier of the request or
    of the configuration. *)
Definition fold_rune (r : rune) : Z :=
  match r with
  | BadByte _ => 0xFFFD
  | Rune c _ =>
      if between 65 c 90 then c + 32 else if c =? 0x212A then 107 else if c =? 0x17F then 115 else c
  end.
Definition fold (s : string) : list Z := map fold_rune (runes s).
Definition equal_fold (a b : string) : bool := bool_decide (fold a = fold b).

Lemma equal_fold_spec a b : equal_fold a b = true <-> fold a = fold b.
Proof. apply bool_decide_eq_true. Qed.

Definition is_ascii (c : ascii) : bool := byte c <? 0x80.
Definition ascii_string : string -> bool := sforall is_ascii.

(** ** encoding/json: strings *)

Definition hex_digit (n : Z) : ascii :=
  ascii_of_N (Z.to_N (if n <? 10 then 48 + n else 87 + n)).

Definition backslash : ascii := ascii_of_nat 92.

(** The escape of one ASCII byte, with HTML escaping on, as [json.Marshal] has it. *)
Definition escape_ascii (c : ascii) : string :=
  let b := byte c in
  if (b =? 92) || (b =? 34) then String backslash (String c EmptyString)
  else if b =? 8 then String backslash "b"
  else if b =? 12 then String backslash "f"
  else if b =? 10 then String backslash "n"
  else if b =? 13 then String backslash "r"
  else if b =? 9 then String backslash "t"
  else if (b <? 32) || (b =? 60) || (b =? 62) || (b =? 38) then
    String backslash
      (String "u" (String "0" (String "0"
        (String (hex_digit (b / 16)) (String (hex_digit (b mod 16)) EmptyString)))))
  else String c EmptyString.

Definition escape_rune (r : rune) : string :=
  match r with
  | BadByte _ => String backslash "ufffd"
  | Rune code bytes =>
      match bytes with
      | String c _ =>
          if byte c <? 0x80 then escape_ascii c
          else if code =? 0x2028 then String backslash "u2028"
          else if code =? 0x2029 then String backslash "u2029"
          else bytes
      | EmptyString => EmptyString
      end
  end.

Definition sconcat (l : list string) : string := fold_right String.append EmptyString l.
Definition escape (s : string) : string := sconcat (map escape_rune (runes s)).
Definition marshal_string (s : string) : string := dquote +:+ escape s +:+ dquote.

(** A literal of the source with its double quotes written as single quotes. *)
Definition lit (s : string) : string := smap (fun c => if Ascii.eqb c "'" then ascii_of_nat 34 else c) s.

Example lit_reads : lit "{'a':" = "{" +:+ dquote +:+ "a" +:+ dquote +:+ ":".
Proof. reflexivity. Qed.

(** ** encoding/json: documents

    A value that [json.Marshal] is given, as the tree of what it prints. A
    struct is a [JObj] whose members are its fields in declaration order, less
    the empty ones tagged [omitempty]. *)
Inductive json : Type :=
| JNull
| JBool (b : bool)
| JInt (z : Z)
| JStr (s : string)
| JArr (items : list json)
| JObj (members : list (string * json)).

Fixpoint marshal (j : json) : string :=
  match j with
  | JNull => "null"
  | JBool true => "true"
  | JBool false => "false"
  | JInt z => itoa z
  | JStr s => marshal_string s
  | JArr items => "[" +:+ join "," (map marshal items) +:+ "]"
  | JObj members =>
      "{" +:+ join "," (map (fun '(k, v) => marshal_string k +:+ ":" +:+ marshal v) members) +:+ "}"
  end.

(** A member tagged [omitempty]. *)
Definition omit_empty (k : string) (v : string) : list (string * json) :=
  if String.eqb v EmptyString then [] else [(k, JStr v)].

Section JsonInd.
Context (P : json -> Prop).
Context (Hnull : P JNull) (Hbool : forall b, P (JBool b)) (Hint : forall z, P (JInt z))
  (Hstr : forall s, P (JStr s)) (Harr : forall l, Forall P l -> P (JArr l))
  (Hobj : forall l, Forall (fun kv => P kv.2) l -> P (JObj l)).

Fixpoint json_ind' (j : json) : P j :=
  match j with
  | JNull => Hnull
  | JBool b => Hbool b
  | JInt z => Hint z
  | JStr s => Hstr s
  | JArr l =>
      Harr l ((fix go l := match l return Forall P l with
               | [] => Forall_nil_2 P
               | x :: l' => Forall_cons_2 P x l' (json_ind' x) (go l')
               end) l)
  | JObj l =>
      Hobj l ((fix go l := match l return Forall (fun kv => P kv.2) l with
               | [] => Forall_nil_2 _
               | x :: l' => Forall_cons_2 _ x l' (json_ind' x.2) (go l')
               end) l)
  end.
End JsonInd.

(** ** Escaped text is a prefix code on ASCII *)

Lemma ascii_string_cons c s : ascii_string (String c s) = is_ascii c && ascii_string s.
Proof. done. Qed.

Lemma sconcat_cons a l : sconcat (a :: l) = a +:+ sconcat l.
Proof. done. Qed.

Definition high_byte (c : ascii) : bool := negb (is_ascii c).

(** A rune is one ASCII byte, or none of its bytes is ASCII. *)
Definition rune_starts (r : rune) : Prop :=
  exists c rest, rune_bytes r = String c rest /\ (rest = EmptyString \/ is_ascii c = false) /\ sforall high_byte rest = true.

Lemma lead_low c w lo hi : lead c = Some (w, lo, hi) -> 0x80 <= lo.
Proof. unfold lead. repeat case_match; intros; simplify_eq; lia. Qed.

Lemma between_high c lo hi : 0x80 <= lo -> between lo (byte c) hi = true -> high_byte c = true.
Proof. unfold between, high_byte, is_ascii. rewrite andb_true_iff, negb_true_iff, Z.leb_le, Z.ltb_ge. lia. Qed.

Lemma runes_bytes s : sconcat (map rune_bytes (runes s)) = s /\ Forall rune_starts (runes s).
Proof.
  induction s as [s IH] using (induction_ltof1 _ String.length). unfold ltof in IH.
  assert (Hone : forall c t, s = String c t -> sconcat (map rune_bytes (BadByte c :: runes t)) = s /\ Forall rune_starts (BadByte c :: runes t)).
  { intros c t ->. destruct (IH t ltac:(simpl; lia)) as [H1 H2]. split; [cbn [map]; by rewrite sconcat_cons, H1|].
    constructor; [|done]. exists c, EmptyString. auto. }
  assert (Hmore : forall c code b t, s = String c b +:+ t -> b <> EmptyString \/ is_ascii c = true -> (b = EmptyString \/ is_ascii c = false) ->
    sforall high_byte b = true ->
    sconcat (map rune_bytes (Rune code (String c b) :: runes t)) = s /\ Forall rune_starts (Rune code (String c b) :: runes t)).
  { intros c code b t -> _ Hb Hh. destruct (IH t ltac:(rewrite sapp_cons; cbn [String.length]; pose proof (slen_app b t); unfold slen in *; lia)) as [H1 H2].
    split; [cbn [map]; by rewrite sconcat_cons, H1|]. constructor; [|done]. by exists c, b. }
  destruct s as [|c0 r0]; [by split; [|constructor]|]. cbn [runes].
  destruct (byte c0 <? 0x80) eqn:E0; [apply (Hmore c0 _ EmptyString); [done|by right|by left|done]|].
  assert (Hn : is_ascii c0 = false) by done.
  repeat match goal with
  | |- context [match ?x with _ => _ end] => destruct x eqn:?
  end; subst; try (by apply Hone); apply Hmore; try done; auto;
  repeat match goal with
  | H : negb _ = false |- _ => apply negb_false_iff in H
  | H : lead _ = Some _ |- _ => apply lead_low in H
  end; cbn [sforall]; rewrite ?andb_true_iff; split_and?; try done; first [eapply (between_high _ 0x80 0xBF); [lia|eassumption]|eapply between_high; [|eassumption]; lia].
Qed.

Lemma runes_ascii c s :
  is_ascii c = true -> runes (String c s) = Rune (byte c) (String c EmptyString) :: runes s.
Proof. intros H. simpl. unfold is_ascii in H. by rewrite H. Qed.

Lemma escape_cons c s : is_ascii c = true -> escape (String c s) = escape_ascii c +:+ escape s.
Proof.
  intros H. unfold escape. rewrite runes_ascii by done. simpl. unfold is_ascii in H. by rewrite H.
Qed.

Fixpoint sprefix (a b : string) : bool :=
  match a, b with
  | EmptyString, _ => true
  | String x a', String y b' => Ascii.eqb x y && sprefix a' b'
  | _, _ => false
  end.

Lemma app_eq_prefix a b x y : a +:+ x = b +:+ y -> sprefix a b = true \/ sprefix b a = true.
Proof.
  revert b. induction a as [|c a IH]; intros [|d b]; simpl; auto.
  rewrite !sapp_cons. intros H. injection H as -> H. rewrite Ascii.eqb_refl. simpl. auto.
Qed.

Definition ascii_bytes : list ascii := map ascii_of_nat (seq 0 128).

Lemma ascii_bytes_spec c : is_ascii c = true -> In c ascii_bytes.
Proof.
  intros H. apply in_map_iff. exists (nat_of_ascii c). split; [apply ascii_nat_embedding|].
  apply in_seq. unfold is_ascii, byte in H. apply Z.ltb_lt in H.
  unfold nat_of_ascii. lia.
Qed.

(** No escape is a prefix of the escape of another byte, and none starts with a quote. *)
Lemma escape_prefix_free c d :
  is_ascii c = true -> is_ascii d = true ->
  sprefix (escape_ascii c) (escape_ascii d) = true -> c = d.
Proof.
  intros Hc%ascii_bytes_spec Hd%ascii_bytes_spec Hp.
  assert (forallb (fun c => forallb (fun d =>
    implb (sprefix (escape_ascii c) (escape_ascii d)) (Ascii.eqb c d)) ascii_bytes) ascii_bytes = true)
    as H by (vm_compute; reflexivity).
  rewrite forallb_forall in H. specialize (H c Hc). rewrite forallb_forall in H.
  specialize (H d Hd). rewrite Hp in H. by apply Ascii.eqb_eq.
Qed.

Lemma escape_no_quote c x y :
  is_ascii c = true -> escape_ascii c +:+ x = dquote +:+ y -> False.
Proof.
  intros Hc%ascii_bytes_spec Hp.
  assert (forallb (fun c => match escape_ascii c with
    String e _ => negb (Ascii.eqb e (ascii_of_nat 34)) | EmptyString => false end) ascii_bytes = true)
    as H by (vm_compute; reflexivity).
  rewrite forallb_forall in H. specialize (H c Hc).
  destruct (escape_ascii c) as [|e r]; [done|]. rewrite sapp_cons in Hp.
  injection Hp as -> _. by rewrite Ascii.eqb_refl in H.
Qed.

(** What another rune prints is no prefix of, and does not start with, the escape
    of an ASCII byte: a text is read back from its escape when it is ASCII. *)
Lemma bad_byte_escape d x y :
  is_ascii d = true -> String backslash "ufffd" +:+ x = escape_ascii d +:+ y -> False.
Proof.
  intros Hd%ascii_bytes_spec H.
  assert (forallb (fun d => negb (sprefix (String backslash "ufffd") (escape_ascii d) ||
    sprefix (escape_ascii d) (String backslash "ufffd") ||
    sprefix (String backslash "u2028") (escape_ascii d) || sprefix (escape_ascii d) (String backslash "u2028"))) ascii_bytes = true)
    as Hb by (vm_compute; reflexivity).
  rewrite forallb_forall in Hb. specialize (Hb d Hd). bool_prop. destruct_and!.
  by destruct (app_eq_prefix _ _ _ _ H) as [Hp|Hp]; rewrite Hp in *.
Qed.

Lemma separator_escape e d x y : In e ["u2028"; "u2029"] ->
  is_ascii d = true -> String backslash e +:+ x = escape_ascii d +:+ y -> False.
Proof.
  intros He Hd%ascii_bytes_spec H.
  assert (forallb (fun d => forallb (fun e => negb (sprefix (String backslash e) (escape_ascii d) ||
    sprefix (escape_ascii d) (String backslash e))) ["u2028"; "u2029"]) ascii_bytes = true)
    as Hb by (vm_compute; reflexivity).
  rewrite forallb_forall in Hb. specialize (Hb d Hd). rewrite forallb_forall in Hb. specialize (Hb e He).
  bool_prop. destruct_and!. by destruct (app_eq_prefix _ _ _ _ H) as [Hp|Hp]; rewrite Hp in *.
Qed.

Lemma escape_ascii_head d : is_ascii d = true ->
  exists e r, escape_ascii d = String e r /\ is_ascii e = true.
Proof.
  intros Hd%ascii_bytes_spec.
  assert (forallb (fun d => match escape_ascii d with String e _ => is_ascii e | EmptyString => false end) ascii_bytes = true)
    as Hb by (vm_compute; reflexivity).
  rewrite forallb_forall in Hb. specialize (Hb d Hd). destruct (escape_ascii d) as [|e r]; [done|]. by exists e, r.
Qed.

(** What a rune prints starts with an ASCII byte only when it is one ASCII byte,
    badly encoded, or one of the two separators that [json.Marshal] escapes. *)
Lemma escape_rune_cases r : rune_starts r ->
  (exists c, is_ascii c = true /\ rune_bytes r = String c EmptyString /\ escape_rune r = escape_ascii c) \/
  escape_rune r = String backslash "ufffd" \/
  (exists e, In e ["u2028"; "u2029"] /\ escape_rune r = String backslash e) \/
  (exists c rest, is_ascii c = false /\ escape_rune r = String c rest).
Proof.
  intros (c & rest & E & H & _). destruct r as [code bytes|b]; [|by right; left].
  cbn [rune_bytes] in E. subst bytes. cbn [escape_rune rune_bytes].
  change (byte c <? 128) with (is_ascii c). destruct (is_ascii c) eqn:Hc.
  - left. exists c. destruct H as [->|H]; [done|congruence].
  - right. right. destruct (code =? 0x2028); [left; exists "u2028"; simpl; auto|].
    destruct (code =? 0x2029); [left; exists "u2029"; simpl; auto|]. right. by exists c, rest.
Qed.

Lemma escape_rune_inj r d x y : rune_starts r -> is_ascii d = true ->
  escape_rune r +:+ x = escape_ascii d +:+ y -> rune_bytes r = String d EmptyString /\ x = y.
Proof.
  intros Hr Hd H. destruct (escape_rune_cases r Hr) as [(c & Hc & Eb & Ee)|[Ee|[(e & He & Ee)|(c & rest & Hc & Ee)]]];
    rewrite Ee in H.
  - assert (c = d) as ->.
    { destruct (app_eq_prefix _ _ _ _ H) as [Hp|Hp].
      - by eapply escape_prefix_free in Hp.
      - symmetry. by eapply escape_prefix_free in Hp. }
    by apply sapp_inv_head in H.
  - by apply bad_byte_escape in H.
  - by apply separator_escape in H.
  - destruct (escape_ascii_head d Hd) as (e & r' & Er & He). rewrite Er, !sapp_cons in H.
    injection H as -> _. congruence.
Qed.

Lemma escape_rune_no_quote r x y : rune_starts r -> escape_rune r +:+ x = dquote +:+ y -> False.
Proof.
  intros Hr H. destruct (escape_rune_cases r Hr) as [(c & Hc & Eb & Ee)|[Ee|[(e & He & Ee)|(c & rest & Hc & Ee)]]];
    rewrite Ee in H; [by eapply escape_no_quote in H|done|done|].
  rewrite sapp_cons in H. injection H as -> _. done.
Qed.

Lemma escape_runes_inj rs b x y : Forall rune_starts rs -> ascii_string b = true ->
  sconcat (map escape_rune rs) +:+ dquote +:+ x = escape b +:+ dquote +:+ y ->
  sconcat (map rune_bytes rs) = b /\ x = y.
Proof.
  intros Hr. revert b. induction Hr as [|r rs Hr _ IH]; intros [|d b]; rewrite ?ascii_string_cons, ?andb_true_iff;
    cbn [map]; rewrite ?sconcat_cons, ?sapp_assoc.
  - intros _ H. split; [done|]. by apply (sapp_inv_head dquote).
  - intros [Hd _] H. exfalso. rewrite escape_cons, sapp_assoc in H by done.
    symmetry in H. by eapply escape_no_quote in H.
  - intros _ H. exfalso. by eapply escape_rune_no_quote in H.
  - intros [Hd Hb] H. rewrite escape_cons, sapp_assoc in H by done.
    apply escape_rune_inj in H as [-> H]; [|done..]. destruct (IH b Hb H) as [-> ->]. done.
Qed.

Lemma escape_inj_tail a b x y : ascii_string b = true ->
  escape a +:+ dquote +:+ x = escape b +:+ dquote +:+ y -> a = b /\ x = y.
Proof.
  intros Hb H. destruct (runes_bytes a) as [E Ha]. unfold escape at 1 in H.
  apply escape_runes_inj in H; [|done..]. by rewrite E in H.
Qed.

Lemma marshal_string_inj_tail a b x y : ascii_string b = true ->
  marshal_string a +:+ x = marshal_string b +:+ y -> a = b /\ x = y.
Proof.
  unfold marshal_string. rewrite !sapp_assoc. intros Hb H.
  apply sapp_inv_head in H. by apply escape_inj_tail.
Qed.

(** [starts_not c s]: [s] is not empty and does not begin with [c]. *)
Definition starts_not (c : ascii) (s : string) : Prop :=
  match s with EmptyString => False | String d _ => d <> c end.

Section JoinInj.
Context {A : Type} (enc : A -> string) (close : ascii).

Fixpoint join_tail (l : list A) : string :=
  match l with
  | [] => EmptyString
  | a :: l' => "," +:+ enc a +:+ join_tail l'
  end.

Lemma join_cons a l : join "," (map enc (a :: l)) = enc a +:+ join_tail l.
Proof.
  revert a. induction l as [|b l IH]; intros a; [simpl; by rewrite sapp_nil_r|].
  specialize (IH b). simpl in *. by rewrite IH.
Qed.

Definition inj_at (a b : A) : Prop :=
  forall x y, enc a +:+ x = enc b +:+ y -> a = b /\ x = y.

Hypothesis close_not_comma : close <> ","%char.

Lemma join_tail_inj l k x y :
  (forall a b, In a l -> In b k -> inj_at a b) ->
  join_tail l +:+ String close x = join_tail k +:+ String close y -> l = k /\ x = y.
Proof.
  revert k. induction l as [|a l IH]; intros [|b k] Hinj; simpl.
  - rewrite !sapp_nil_l. intros H. by injection H.
  - rewrite sapp_nil_l, !sapp_cons. intros H. injection H as H _. congruence.
  - rewrite sapp_nil_l, !sapp_cons. intros H. injection H as H _. congruence.
  - rewrite !sapp_assoc. intros H. apply sapp_inv_head in H.
    destruct (Hinj a b (or_introl eq_refl) (or_introl eq_refl) _ _ H) as [-> H'].
    destruct (IH k (fun a b Ha Hb => Hinj a b (or_intror Ha) (or_intror Hb)) H') as [-> ->].
    done.
Qed.

Lemma join_inj l k x y :
  (forall a b, In a l -> In b k -> inj_at a b) ->
  (forall a, In a l \/ In a k -> starts_not close (enc a)) ->
  join "," (map enc l) +:+ String close x = join "," (map enc k) +:+ String close y ->
  l = k /\ x = y.
Proof.
  intros Hinj Hhead. destruct l as [|a l], k as [|b k]; rewrite ?join_cons.
  - simpl. rewrite !sapp_nil_l. intros H. by injection H.
  - simpl. rewrite sapp_nil_l, !sapp_assoc. intros H. exfalso.
    specialize (Hhead b (or_intror (or_introl eq_refl))).
    destruct (enc b) as [|d s]; [done|]. rewrite sapp_cons in H. injection H as -> _. by apply Hhead.
  - simpl. rewrite sapp_nil_l, !sapp_assoc. intros H. exfalso.
    specialize (Hhead a (or_introl (or_introl eq_refl))).
    destruct (enc a) as [|d s]; [done|]. rewrite sapp_cons in H. injection H as -> _. by apply Hhead.
  - rewrite !sapp_assoc. intros H.
    destruct (Hinj a b (or_introl eq_refl) (or_introl eq_refl) _ _ H) as [-> H'].
    destruct (join_tail_inj l k x y (fun a b Ha Hb => Hinj a b (or_intror Ha) (or_intror Hb)) H')
      as [-> ->]. done.
Qed.
End JoinInj.

(** Documents without numbers, and those whose text is ASCII as well: a document
    is read back from its print when it is ASCII, against any other one. *)
Fixpoint json_text (j : json) : bool :=
  match j with
  | JNull | JBool _ | JStr _ => true
  | JInt _ => false
  | JArr l => forallb json_text l
  | JObj l => forallb (fun '(k, v) => json_text v) l
  end.

Fixpoint json_ascii (j : json) : bool :=
  match j with
  | JNull | JBool _ => true
  | JInt _ => false
  | JStr s => ascii_string s
  | JArr l => forallb json_ascii l
  | JObj l => forallb (fun '(k, v) => ascii_string k && json_ascii v) l
  end.

Lemma json_ascii_text j : json_ascii j = true -> json_text j = true.
Proof.
  induction j as [|[]|z|s|l IH|l IH] using json_ind'; simpl; try done; rewrite !forallb_forall, Forall_forall in *.
  - intros H x Hx. apply IH; [by apply list_elem_of_In|auto].
  - intros H [k v] Hx. specialize (H _ Hx). simpl in H. bool_prop. destruct H.
    apply (IH (k, v)); [by apply list_elem_of_In|done].
Qed.

Lemma marshal_head j c : In c ["]"%char; "}"%char] -> json_text j = true -> starts_not c (marshal j).
Proof.
  intros Hc Hj. destruct j as [|[]| |s| |]; simpl in *; try done;
    intuition (subst; discriminate).
Qed.

Lemma member_inj k v k' v' x y :
  ascii_string k' = true -> inj_at marshal v v' ->
  (marshal_string k +:+ ":" +:+ marshal v) +:+ x = (marshal_string k' +:+ ":" +:+ marshal v') +:+ y ->
  (k, v) = (k', v') /\ x = y.
Proof.
  intros Hk Hv H. rewrite !sapp_assoc in H.
  destruct (marshal_string_inj_tail _ _ _ _ Hk H) as [-> H1].
  apply sapp_inv_head in H1. by destruct (Hv _ _ H1) as [-> ->].
Qed.

Lemma marshal_inj_tail a b : json_text a = true -> json_ascii b = true -> inj_at marshal a b.
Proof.
  revert b. induction a as [|[]|z|s|l IH|l IH] using json_ind'; intros b Ha Hb x y H;
    destruct b as [|[]|z'|s'|l'|l']; try discriminate.
  1, 2, 3: by apply sapp_inv_head in H.
  - destruct (marshal_string_inj_tail s s' x y Hb H) as [-> ->]. done.
  - simpl in *. rewrite !sapp_assoc in H. apply sapp_inv_head in H.
    rewrite forallb_forall in Ha, Hb. rewrite Forall_forall in IH.
    destruct (join_inj marshal "]" ltac:(done) l l' x y) as [-> ->]; [..|done].
    + intros c d Hc Hd. apply IH; auto. by apply list_elem_of_In.
    + intros c [Hc|Hc]; apply marshal_head; simpl; auto. by apply json_ascii_text, Hb.
    + done.
  - simpl in *. rewrite !sapp_assoc in H. apply sapp_inv_head in H.
    rewrite forallb_forall in Ha, Hb. rewrite Forall_forall in IH.
    edestruct (join_inj (fun '(k, v) => marshal_string k +:+ ":" +:+ marshal v) "}"
      ltac:(done) l l' x y) as [-> ->]; [..|done].
    + intros [k v] [k' v'] Hc Hd u w Hu.
      specialize (Ha _ Hc). specialize (Hb _ Hd). simpl in Ha, Hb. bool_prop. destruct_and!.
      apply (member_inj k v k' v'); auto.
      apply (IH (k, v)); auto. by apply list_elem_of_In.
    + intros [k v] _. simpl. done.
    + done.
Qed.

Lemma marshal_inj_text a b :
  json_text a = true -> json_ascii b = true -> marshal a = marshal b -> a = b.
Proof.
  intros Ha Hb H. destruct (marshal_inj_tail a b Ha Hb EmptyString EmptyString) as [-> _]; [|done].
  by rewrite H.
Qed.

Lemma marshal_inj a b :
  json_ascii a = true -> json_ascii b = true -> marshal a = marshal b -> a = b.
Proof. intros Ha%json_ascii_text Hb. by apply marshal_inj_text. Qed.
