(* ===== verification/Number.v ===== *)
(** JSON numbers (internal/queryspec/types.go): the number patterns and
    [parseJSONInteger], which reads an integral JSON number exactly, and the
    proof that it accepts precisely the literals whose mathematical value is a
    signed 64-bit integer. *)
From Stdlib Require Import DecimalString DecimalZ DecimalFacts.
From S2P Require Import Prelude.
Local Open Scope string_scope.
Local Open Scope Z_scope.

(** ** Decimal digits *)

Definition digit (c : ascii) : Z := Z.of_N (N_of_ascii c) - 48.

(** The value of a digit string, read onto the accumulator [acc]. *)
Fixpoint digits_from (acc : Z) (s : string) : Z :=
  match s with
  | EmptyString => acc
  | String c s' => digits_from (acc * 10 + digit c) s'
  end.

Definition digits_value (s : string) : Z := digits_from 0 s.

Fixpoint span (p : ascii -> bool) (s : string) : string * string :=
  match s with
  | EmptyString => (EmptyString, EmptyString)
  | String c s' => if p c then let '(a, b) := span p s' in (String c a, b) else (EmptyString, s)
  end.

(** ** The number patterns *)

Definition is_nonzero_digit (c : ascii) : bool := in_range "1" "9" c.

Definition optional_minus (s : string) : string :=
  match s with String "-" r => r | _ => s end.

(** [0|[1-9][0-9]*], then the rest of the text. *)
Definition match_integer_part (s : string) : option string :=
  match s with
  | String "0" r => Some r
  | String c r => if is_nonzero_digit c then Some (span is_digit r).2 else None
  | EmptyString => None
  end.

(** [(\.[0-9]+)?] *)
Definition match_fraction (s : string) : option string :=
  match s with
  | String "." r =>
      match span is_digit r with
      | (EmptyString, _) => None
      | (_, rest) => Some rest
      end
  | _ => Some s
  end.

Definition is_exponent_mark (c : ascii) : bool := Ascii.eqb c "e" || Ascii.eqb c "E".
Definition is_sign (c : ascii) : bool := Ascii.eqb c "+" || Ascii.eqb c "-".

(** [([eE][+-]?[0-9]+)?] *)
Definition match_exponent (s : string) : option string :=
  match s with
  | String c r =>
      if is_exponent_mark c then
        let r' := match r with String d r1 => if is_sign d then r1 else r | EmptyString => r end in
        match span is_digit r' with
        | (EmptyString, _) => None
        | (_, rest) => Some rest
        end
      else Some s
  | EmptyString => Some s
  end.

Definition at_end (o : option string) : bool :=
  match o with Some EmptyString => true | _ => false end.

Definition decimalPattern (s : string) : bool :=
  at_end (o ← match_integer_part (optional_minus s); match_fraction o).

Definition jsonNumberPattern (s : string) : bool :=
  at_end (o ← match_integer_part (optional_minus s); p ← match_fraction o; match_exponent p).

(** ** parseSaturatedDecimalExponent and parseJSONInteger *)

(** The digits loop: the value saturates at [maximum] and the loop stops there. *)
Fixpoint saturated_digits (maximum value : Z) (raw : string) : Z :=
  match raw with
  | EmptyString => value
  | String c raw' =>
      if (maximum - digit c) / 10 <? value then maximum
      else saturated_digits maximum (value * 10 + digit c) raw'
  end.

Definition parseSaturatedDecimalExponent (raw : string) (maximum : Z) : Z :=
  let negative := match raw with String "-" _ => true | _ => false end in
  let raw' := match raw with String c r => if is_sign c then r else raw | EmptyString => raw end in
  let value := saturated_digits maximum 0 raw' in
  if negative then - value else value.

(** [bytes.IndexAny(raw, "eE")] and the two sides of it. *)
Fixpoint cut_exponent (raw : string) : string * string :=
  match raw with
  | EmptyString => (EmptyString, EmptyString)
  | String c r =>
      if is_exponent_mark c then (EmptyString, r)
      else let '(m, e) := cut_exponent r in (String c m, e)
  end.

(** The number of characters after the first dot; 0 when there is none. *)
Fixpoint fractional_digits (mantissa : string) : Z :=
  match mantissa with
  | EmptyString => 0
  | String c r => if Ascii.eqb c "." then slen r else fractional_digits r
  end.

Fixpoint without_dot (s : string) : string :=
  match s with
  | EmptyString => EmptyString
  | String c r => if Ascii.eqb c "." then without_dot r else String c (without_dot r)
  end.

(** [appendDigit] over a run of digits: [None] when the limit would be passed. *)
Fixpoint append_digits (limit magnitude : Z) (ds : string) : option Z :=
  match ds with
  | EmptyString => Some magnitude
  | String c ds' =>
      let value := digit c in
      if (limit - value) / 10 <? magnitude then None
      else append_digits limit (magnitude * 10 + value) ds'
  end.

Fixpoint zeros (n : nat) : string :=
  match n with O => EmptyString | S n' => String "0" (zeros n') end.

Definition not_integral : goerr := ErrorString "JSON number is not integral".
Definition out_of_range : goerr :=
  ErrorString "JSON integer is outside the signed 64-bit range".

(** The second half of [parseJSONInteger]: the digits, already without leading
    zeros, are scaled by [effectiveExponent] and accumulated under the limit. *)
Definition scaleJSONInteger (negative : bool) (digits : string) (effectiveExponent : Z) : result Z :=
  let? (digits, effectiveExponent) :=
    (if effectiveExponent <? 0 then
       let trailingZeros := - effectiveExponent in
       if? slen digits <? trailingZeros return not_integral then
       let keep := Z.to_nat (slen digits - trailingZeros) in
       if? negb (sforall (Ascii.eqb "0") (sdrop keep digits)) return not_integral then
       Ok (stake keep digits, 0)
     else Ok (digits, effectiveExponent)) in
  let limit := if negative then 2 ^ 63 else 2 ^ 63 - 1 in
  match append_digits limit 0 digits with
  | None => Err out_of_range
  | Some magnitude =>
      if? 19 <? effectiveExponent return out_of_range then
      match append_digits limit magnitude (zeros (Z.to_nat effectiveExponent)) with
      | None => Err out_of_range
      | Some magnitude => Ok (if negative then - magnitude else magnitude)
      end
  end.

Definition parseJSONInteger (raw0 : string) : result Z :=
  let raw := trim_space raw0 in
  if? negb (jsonNumberPattern raw) return ErrorString "value is not a JSON number" then
  let negative := match raw with String "-" _ => true | _ => false end in
  let raw := optional_minus raw in
  let '(mantissa, exponentBytes) := cut_exponent raw in
  let fractionalDigits := fractional_digits mantissa in
  let digits := trim_left_by (Ascii.eqb "0") (without_dot mantissa) in
  if String.eqb digits EmptyString then Ok 0
  else
  let exponent :=
    if String.eqb exponentBytes EmptyString then 0
    else parseSaturatedDecimalExponent exponentBytes (slen raw + 20) in
  scaleJSONInteger negative digits (exponent - fractionalDigits).

Example parse_forms :
  map parseJSONInteger ["1"; "1.0"; "1e0"; "-10e-1"; "0.5"; "9223372036854775807";
                        "9223372036854775808"; "-9223372036854775808"; "0e99999999999999999999"]
  = [Ok 1; Ok 1; Ok 1; Ok (-1); Err not_integral; Ok 9223372036854775807;
     Err out_of_range; Ok (-9223372036854775808); Ok 0].
Proof. vm_compute. reflexivity. Qed.

(** ** Lemmas on digit strings *)

Abbreviation all_digits := (sforall is_digit).

Lemma digit_bounds c : is_digit c = true -> 0 <= digit c <= 9.
Proof.
  unfold is_digit, in_range, digit, nat_of_ascii. rewrite andb_true_iff, !Nat.leb_le.
  change (N_of_ascii "0") with 48%N. change (N_of_ascii "9") with 57%N. lia.
Qed.

Lemma digits_from_app a s t : digits_from a (s +:+ t) = digits_from (digits_from a s) t.
Proof. revert a. induction s as [|c s IH]; intros a; [done|]. rewrite sapp_cons. apply IH. Qed.

Lemma digits_from_acc a s : digits_from a s = a * 10 ^ slen s + digits_value s.
Proof.
  unfold digits_value. revert a. induction s as [|c s IH]; intros a.
  - change (slen EmptyString) with 0. simpl. lia.
  - cbn [digits_from]. rewrite IH, (IH (0 * 10 + digit c)), slen_cons, Z.pow_add_r by (pose proof (slen_nonneg s); lia). lia.
Qed.

Lemma digits_value_app s t :
  digits_value (s +:+ t) = digits_value s * 10 ^ slen t + digits_value t.
Proof. unfold digits_value at 1. rewrite digits_from_app, digits_from_acc. done. Qed.

Lemma pow10_pos n : 0 <= n -> 0 < 10 ^ n.
Proof. intros. by apply Z.pow_pos_nonneg. Qed.

Lemma digits_value_bounds s : all_digits s = true -> 0 <= digits_value s < 10 ^ slen s.
Proof.
  induction s as [|c s IH]; simpl; [done|]. rewrite andb_true_iff. intros [Hc Hs].
  specialize (IH Hs). apply digit_bounds in Hc.
  unfold digits_value in *. simpl. rewrite digits_from_acc, slen_cons, Z.pow_add_r by
    (pose proof (slen_nonneg s); lia).
  unfold digits_value. nia.
Qed.

Lemma digits_zeros m n : digits_from m (zeros n) = m * 10 ^ Z.of_nat n.
Proof.
  revert m. induction n as [|n IH]; intros m; simpl; [lia|].
  rewrite IH, Nat2Z.inj_succ, Z.pow_succ_r by lia. change (digit "0") with 0. lia.
Qed.

Lemma zeros_digits n : all_digits (zeros n) = true.
Proof. induction n; simpl; auto. Qed.

Lemma digits_from_mono a s : all_digits s = true -> 0 <= a -> a <= digits_from a s.
Proof.
  revert a. induction s as [|c s IH]; intros a; simpl; [lia|]. rewrite andb_true_iff.
  intros [Hc Hs] Ha. apply digit_bounds in Hc. specialize (IH (a * 10 + digit c) Hs). lia.
Qed.

Lemma append_digits_spec limit m ds :
  all_digits ds = true -> 0 <= m <= limit ->
  append_digits limit m ds =
    if digits_from m ds <=? limit then Some (digits_from m ds) else None.
Proof.
  revert m. induction ds as [|c ds IH]; intros m; simpl.
  - intros _ H. by rewrite (proj2 (Z.leb_le m limit)) by lia.
  - rewrite andb_true_iff. intros [Hc Hs] Hm. apply digit_bounds in Hc.
    destruct (Z.ltb_spec ((limit - digit c) / 10) m) as [H|H].
    + assert (limit < m * 10 + digit c).
      { pose proof (Z.mul_succ_div_gt (limit - digit c) 10). lia. }
      pose proof (digits_from_mono (m * 10 + digit c) ds Hs). by rewrite (proj2 (Z.leb_gt _ _)) by lia.
    + assert (m * 10 + digit c <= limit) by (pose proof (Z.mul_div_le (limit - digit c) 10); lia).
      apply IH; [done|lia].
Qed.

Lemma saturated_digits_spec maximum v raw :
  all_digits raw = true -> 9 <= maximum -> 0 <= v <= maximum ->
  saturated_digits maximum v raw = Z.min maximum (digits_from v raw).
Proof.
  intros Hd Hmax. revert v Hd. induction raw as [|c raw IH]; intros v; simpl; [lia|].
  rewrite andb_true_iff. intros [Hc Hs] Hv. apply digit_bounds in Hc.
  destruct (Z.ltb_spec ((maximum - digit c) / 10) v) as [H|H].
  - pose proof (Z.mul_succ_div_gt (maximum - digit c) 10).
    pose proof (digits_from_mono (v * 10 + digit c) raw Hs). lia.
  - pose proof (Z.mul_div_le (maximum - digit c) 10). rewrite IH by (done || lia). done.
Qed.

Lemma trim_zeros_value s : digits_value (trim_left_by (Ascii.eqb "0") s) = digits_value s.
Proof.
  induction s as [|c s IH]; [done|]. cbn [trim_left_by].
  destruct (Ascii.eqb_spec "0" c) as [<-|]; [|done]. by rewrite IH.
Qed.

Lemma trim_zeros_digits s :
  all_digits s = true -> all_digits (trim_left_by (Ascii.eqb "0") s) = true.
Proof.
  induction s as [|c s IH]; [done|]. cbn [trim_left_by]. intros H.
  destruct (Ascii.eqb "0" c); [|done]. simpl in H. bool_prop. naive_solver.
Qed.

Lemma trim_zeros_length s : slen (trim_left_by (Ascii.eqb "0") s) <= slen s.
Proof.
  induction s as [|c s IH]; [done|]. cbn [trim_left_by].
  destruct (Ascii.eqb "0" c); rewrite ?slen_cons; lia.
Qed.

(** A digit string without leading zeros is positive unless it is empty. *)
Lemma trim_zeros_pos s :
  all_digits s = true -> trim_left_by (Ascii.eqb "0") s <> EmptyString -> 0 < digits_value s.
Proof.
  intros Hs Hne. rewrite <- trim_zeros_value. induction s as [|c s IH]; [done|].
  cbn [trim_left_by] in *. simpl in Hs. apply andb_true_iff in Hs as [Hc Hs].
  destruct (Ascii.eqb_spec "0" c) as [<-|Hn]; [by apply IH|].
  unfold digits_value. simpl. rewrite digits_from_acc.
  pose proof (digits_value_bounds s Hs). pose proof (digit_bounds c Hc).
  assert (digit c <> 0).
  { intros E. apply Hn. rewrite <- (ascii_N_embedding c). unfold digit in E.
    by replace (N_of_ascii c) with 48%N by lia. }
  pose proof (pow10_pos (slen s) (slen_nonneg s)). nia.
Qed.

Lemma stake_sdrop n s : s = stake n s +:+ sdrop n s.
Proof.
  revert n. induction s as [|c s IH]; intros [|n]; try done. simpl. rewrite sapp_cons. by f_equal.
Qed.

Lemma slen_sdrop n s : Z.of_nat n <= slen s -> slen (sdrop n s) = slen s - Z.of_nat n.
Proof.
  revert n. induction s as [|c s IH]; intros [|n]; cbn [sdrop]; rewrite ?slen_cons; intros H.
  all: try (rewrite IH by lia); try (change (slen EmptyString) with 0 in * ); lia.
Qed.

Lemma sforall_stake_sdrop p n s : sforall p s = true -> sforall p (stake n s) = true /\ sforall p (sdrop n s) = true.
Proof. rewrite (stake_sdrop n s) at 1. by rewrite sforall_app, andb_true_iff. Qed.

Lemma zero_digits_value s : all_digits s = true -> (sforall (Ascii.eqb "0") s = true <-> digits_value s = 0).
Proof.
  induction s as [|c s IH]; [done|]. cbn [sforall]. rewrite !andb_true_iff. intros [Hc Hs].
  unfold digits_value. cbn [digits_from]. rewrite digits_from_acc, IH by done.
  pose proof (digits_value_bounds s Hs). pose proof (digit_bounds c Hc).
  pose proof (pow10_pos (slen s) (slen_nonneg s)). split.
  - intros [<-%Ascii.eqb_eq E]. change (digit "0") with 0. lia.
  - intros E. assert (digit c = 0) by nia. split; [|nia].
    apply Ascii.eqb_eq. rewrite <- (ascii_N_embedding c). unfold digit in *.
    by replace (N_of_ascii c) with 48%N by lia.
Qed.

(** ** Scaling *)

(** [v] is [m * 10^e], without fractions. *)
Definition scaled (m e v : Z) : Prop := v * 10 ^ Z.max 0 (- e) = m * 10 ^ Z.max 0 e.

Definition in_int64 (v : Z) : Prop := - 2 ^ 63 <= v < 2 ^ 63.

Definition signed (negative : bool) (m : Z) : Z := if negative then - m else m.

Lemma limit_spec (negative : bool) m :
  0 <= m -> (m <= (if negative then 2 ^ 63 else 2 ^ 63 - 1) <-> in_int64 (signed negative m)).
Proof. unfold in_int64, signed. destruct negative; lia. Qed.

Lemma not_a_multiple (negative : bool) d p v : 0 < d < p -> v * p = signed negative d -> False.
Proof.
  intros Hd H. assert (v <= -1 \/ v = 0 \/ 1 <= v) as [?|[->|?]] by lia;
    destruct negative; unfold signed in *; nia.
Qed.

(** The accumulation of digits and then of zeros, with a non-negative exponent. *)
Lemma accumulate_spec (negative : bool) ds e v :
  all_digits ds = true -> 0 < digits_value ds -> 0 <= e ->
  (let limit := if negative then 2 ^ 63 else 2 ^ 63 - 1 in
   match append_digits limit 0 ds with
   | None => Err out_of_range
   | Some magnitude =>
       if? 19 <? e return out_of_range then
       match append_digits limit magnitude (zeros (Z.to_nat e)) with
       | None => Err out_of_range
       | Some magnitude => Ok (signed negative magnitude)
       end
   end) = Ok v <->
  v = signed negative (digits_value ds * 10 ^ e) /\ in_int64 v.
Proof.
  intros Hd Hpos He. set (limit := if negative then 2 ^ 63 else 2 ^ 63 - 1). cbv zeta.
  assert (Hlim : 0 <= limit < 10 ^ 19) by (subst limit; destruct negative; lia).
  rewrite append_digits_spec by (done || lia). fold (digits_value ds).
  assert (Hp : 1 <= 10 ^ e) by (pose proof (pow10_pos e He); lia).
  assert (Hbad : limit < digits_value ds * 10 ^ e ->
    v = signed negative (digits_value ds * 10 ^ e) /\ in_int64 v -> False).
  { intros H [-> H']. apply limit_spec in H'; [fold limit in H'; lia|nia]. }
  destruct (Z.leb_spec (digits_value ds) limit) as [Hm|Hm].
  2: { split; [done|]. intros H. exfalso. apply Hbad; [nia|done]. }
  destruct (Z.ltb_spec 19 e) as [He'|He'].
  { split; [done|]. intros H. exfalso. apply Hbad; [|done].
    pose proof (Z.pow_le_mono_r 10 19 e). nia. }
  rewrite append_digits_spec by (apply zeros_digits || lia).
  rewrite digits_zeros, Z2Nat.id by lia.
  destruct (Z.leb_spec (digits_value ds * 10 ^ e) limit) as [Hm'|Hm'].
  - apply (limit_spec negative) in Hm'; [|nia]. split; [intros [= <-]; done | intros [-> _]; done].
  - split; [done|]. intros H. exfalso. by apply Hbad.
Qed.

(** [scaleJSONInteger] is exact: it returns [v] just when [v] is the digits
    times the power of ten and a signed 64-bit integer. *)
Lemma scaleJSONInteger_spec negative ds e v :
  all_digits ds = true -> 0 < digits_value ds ->
  scaleJSONInteger negative ds e = Ok v <->
  scaled (signed negative (digits_value ds)) e v /\ in_int64 v.
Proof.
  intros Hd Hpos. unfold scaleJSONInteger, scaled. destruct (Z.ltb_spec e 0) as [He|He].
  2: { simpl rbind. cbv iota. rewrite accumulate_spec by done.
    rewrite Z.max_l, Z.max_r, Z.pow_0_r by lia. split; intros [H ?]; split; try done; destruct negative; unfold signed in *; lia. }
  rewrite Z.max_r, (Z.max_l 0 e), Z.pow_0_r by lia.
  destruct (Z.ltb_spec (slen ds) (- e)) as [Hlen|Hlen]; cbn [rbind].
  - split; [done|]. intros [H _]. pose proof (digits_value_bounds ds Hd).
    pose proof (Z.pow_le_mono_r 10 (slen ds) (- e) ltac:(lia) ltac:(lia)).
    exfalso. apply (not_a_multiple negative (digits_value ds) (10 ^ (- e)) v); lia.
  - set (keep := Z.to_nat (slen ds + e)).
    replace (slen ds - - e) with (slen ds + e) by lia. fold keep.
    destruct (sforall_stake_sdrop is_digit keep ds Hd) as [Ht Hr].
    assert (Hv : digits_value ds = digits_value (stake keep ds) * 10 ^ (- e) + digits_value (sdrop keep ds)).
    { rewrite (stake_sdrop keep ds) at 1. rewrite digits_value_app, slen_sdrop by lia. do 3 f_equal. lia. }
    pose proof (digits_value_bounds _ Hr) as Hb. rewrite slen_sdrop in Hb by lia.
    replace (slen ds - Z.of_nat keep) with (- e) in Hb by lia.
    pose proof (pow10_pos (- e) ltac:(lia)).
    destruct (sforall (Ascii.eqb "0") (sdrop keep ds)) eqn:Hz; cbn [negb].
    + apply zero_digits_value in Hz; [|done]. cbn [rbind].
      rewrite accumulate_spec by (done || nia).
      split; intros [H' ?]; split; try done; destruct negative; unfold signed in *; nia.
    + split; [done|]. intros [H' _]. exfalso.
      assert (digits_value (sdrop keep ds) <> 0) by (intros E; apply zero_digits_value in E; [congruence|done]).
      assert (exists k, digits_value (sdrop keep ds) = k * 10 ^ (- e)) as [k Hk].
      { destruct negative; unfold signed in *;
          [exists (- v - digits_value (stake keep ds)) | exists (v - digits_value (stake keep ds))]; nia. }
      apply (not_a_multiple false (digits_value (sdrop keep ds)) (10 ^ (- e)) k); [lia|]. by rewrite Hk.
Qed.

(** An exponent beyond the saturation bound decides the same way as the bound. *)
Lemma scale_saturates negative ds f M x v :
  all_digits ds = true -> 0 < digits_value ds -> 0 <= f -> f + 20 <= M -> slen ds < M ->
  scaled (signed negative (digits_value ds)) (Z.max (- M) (Z.min M x) - f) v /\ in_int64 v <->
  scaled (signed negative (digits_value ds)) (x - f) v /\ in_int64 v.
Proof.
  intros Hd Hpos Hf HM HM'. pose proof (slen_nonneg ds).
  assert (Hbig : forall e, 20 <= e -> scaled (signed negative (digits_value ds)) e v /\ in_int64 v -> False).
  { unfold scaled, in_int64. intros e He [H1 H2]. rewrite Z.max_l, Z.max_r, Z.pow_0_r in H1 by lia.
    pose proof (Z.pow_le_mono_r 10 20 e). destruct negative; unfold signed in *; nia. }
  assert (Hsmall : forall e, e < - slen ds -> scaled (signed negative (digits_value ds)) e v -> False).
  { unfold scaled. intros e He H1. rewrite Z.max_r, (Z.max_l 0), Z.pow_0_r in H1 by lia.
    pose proof (digits_value_bounds ds Hd).
    pose proof (Z.pow_le_mono_r 10 (slen ds) (- e) ltac:(lia) ltac:(lia)).
    apply (not_a_multiple negative (digits_value ds) (10 ^ (- e)) v); lia. }
  destruct (decide (- M <= x <= M)).
  { by replace (Z.max (- M) (Z.min M x)) with x by lia. }
  destruct (decide (M < x)).
  - replace (Z.max (- M) (Z.min M x)) with M by lia. split; intros Hs; exfalso; eapply Hbig; [|exact Hs| |exact Hs]; lia.
  - replace (Z.max (- M) (Z.min M x)) with (- M) by lia.
    split; intros [Hs _]; exfalso; eapply Hsmall; [|exact Hs| |exact Hs]; lia.
Qed.

(** ** JSON number literals, as the grammar writes them *)

Record number := {
  n_negative : bool;
  n_integer : string;
  n_fraction : option string;
  n_exponent : option (ascii * option ascii * string);
}.

Definition wf_digits (s : string) : bool := negb (String.eqb s EmptyString) && sforall is_digit s.

Definition wf_number (n : number) : bool :=
  (String.eqb (n_integer n) "0" ||
   match n_integer n with
   | String c r => is_nonzero_digit c && sforall is_digit r
   | EmptyString => false
   end) &&
  match n_fraction n with None => true | Some f => wf_digits f end &&
  match n_exponent n with
  | None => true
  | Some (mark, sign, ds) =>
      is_exponent_mark mark && match sign with None => true | Some c => is_sign c end && wf_digits ds
  end.

Definition print_fraction (f : option string) : string :=
  match f with None => EmptyString | Some f => String "." f end.

Definition print_signed (sign : option ascii) (ds : string) : string :=
  match sign with None => ds | Some c => String c ds end.

Definition print_exponent (e : option (ascii * option ascii * string)) : string :=
  match e with
  | None => EmptyString
  | Some (mark, sign, ds) => String mark (print_signed sign ds)
  end.

Definition print_number (n : number) : string :=
  (if n_negative n then String "-" EmptyString else EmptyString) +:+ n_integer n +:+
  print_fraction (n_fraction n) +:+ print_exponent (n_exponent n).

(** The value of a literal is its digits times ten to its exponent, less the
    number of fractional digits. *)
Definition exponent_value (e : option (ascii * option ascii * string)) : Z :=
  match e with
  | None => 0
  | Some (_, sign, ds) => signed (match sign with Some "-"%char => true | _ => false end) (digits_value ds)
  end.

Definition fraction_digits (n : number) : string := default EmptyString (n_fraction n).

(** [denotes n v]: the number that the literal [n] writes is the integer [v]. *)
Definition denotes (n : number) (v : Z) : Prop :=
  scaled (signed (n_negative n) (digits_value (n_integer n +:+ fraction_digits n)))
         (exponent_value (n_exponent n) - slen (fraction_digits n)) v.

(** ** The patterns recognise exactly the printed literals *)

Definition starts_with (p : ascii -> bool) (s : string) : bool :=
  match s with String c _ => p c | EmptyString => false end.

Lemma span_spec p s a b :
  span p s = (a, b) <-> s = a +:+ b /\ sforall p a = true /\ starts_with p b = false.
Proof.
  revert a b. induction s as [|c s IH]; intros a b; simpl.
  - split; [intros [= <- <-]; done|]. intros (E & _). destruct a; [|done]. by rewrite sapp_nil_l in E; subst.
  - destruct (p c) eqn:Hc.
    + destruct (span p s) as [a' b'] eqn:Hs. split.
      * intros [= <- <-]. destruct (proj1 (IH a' b') eq_refl) as (-> & Ha & Hb).
        rewrite sapp_cons. simpl. by rewrite Hc.
      * intros (E & Ha & Hb). destruct a as [|c' a].
        { rewrite sapp_nil_l in E. subst b. simpl in Hb. congruence. }
        rewrite sapp_cons in E. injection E as <- E. simpl in Ha. rewrite Hc in Ha.
        by injection (proj2 (IH a b) (conj E (conj Ha Hb))) as -> ->.
    + split; [intros [= <- <-]; simpl; done|]. intros (E & Ha & _). destruct a as [|c' a].
      * by rewrite sapp_nil_l in E; subst.
      * rewrite sapp_cons in E. injection E as <- _. simpl in Ha. by rewrite Hc in Ha.
Qed.

Lemma match_integer_part_spec s r :
  match_integer_part s = Some r ->
  exists i, s = i +:+ r /\ wf_number {| n_negative := false; n_integer := i; n_fraction := None; n_exponent := None |} = true.
Proof.
  destruct s as [|c s]; [done|]. destruct (Ascii.eqb_spec c "0") as [->|Hc].
  - intros [= <-]. by exists "0".
  - assert (E : match_integer_part (String c s) =
                if is_nonzero_digit c then Some (span is_digit s).2 else None)
      by (destruct c as [[] [] [] [] [] [] [] []]; done).
    rewrite E. destruct (is_nonzero_digit c) eqn:Hd; [|done].
    destruct (span is_digit s) as [a b] eqn:Hs. intros [= <-]. apply span_spec in Hs as (-> & Ha & _).
    exists (String c a). split; [done|]. unfold wf_number; simpl. by rewrite Hd, Ha, orb_true_r.
Qed.

Lemma match_integer_part_print i r :
  wf_number {| n_negative := false; n_integer := i; n_fraction := None; n_exponent := None |} = true ->
  starts_with is_digit r = false -> match_integer_part (i +:+ r) = Some r.
Proof.
  unfold wf_number; simpl. rewrite !andb_true_r, orb_true_iff. intros [->%String.eqb_eq|H] Hr; [done|].
  destruct i as [|c i]; [done|]. apply andb_true_iff in H as [Hc Hi]. rewrite sapp_cons.
  replace (match_integer_part (String c (i +:+ r))) with (Some (span is_digit (i +:+ r)).2).
  - by rewrite (proj2 (span_spec is_digit (i +:+ r) i r)).
  - unfold match_integer_part. rewrite Hc.
    destruct c as [[] [] [] [] [] [] [] []]; try reflexivity; discriminate Hc.
Qed.

Lemma match_fraction_spec s r :
  match_fraction s = Some r ->
  exists f, s = print_fraction f +:+ r /\ match f with None => true | Some f => wf_digits f end = true.
Proof.
  intros H. assert (match_fraction s = Some s \/ exists s', s = String "." s') as [E|[s' ->]].
  { destruct s as [|[[] [] [] [] [] [] [] []] s]; eauto. }
  - exists None. rewrite E in H. by injection H as <-.
  - simpl in H. destruct (span is_digit s') as [[|c a] b] eqn:Hs; [done|]. injection H as <-.
    apply span_spec in Hs as (-> & Ha & _). exists (Some (String c a)). done.
Qed.

Lemma match_fraction_print f r :
  match f with None => true | Some f => wf_digits f end = true ->
  starts_with (fun c => is_digit c || Ascii.eqb c ".") r = false ->
  match_fraction (print_fraction f +:+ r) = Some r.
Proof.
  intros Hf Hr. destruct f as [f|]; cbn [print_fraction].
  - rewrite sapp_cons. cbn [match_fraction]. apply andb_true_iff in Hf as [Hne Hf].
    rewrite (proj2 (span_spec is_digit (f +:+ r) f r)).
    + by destruct f.
    + split_and!; try done. destruct r; simpl in *; [done|]. by apply orb_false_iff in Hr as [? _].
  - rewrite sapp_nil_l. destruct r as [|[[] [] [] [] [] [] [] []] r]; try done.
Qed.

Definition wf_exponent (e : option (ascii * option ascii * string)) : bool :=
  match e with
  | None => true
  | Some (mark, sign, ds) =>
      is_exponent_mark mark && match sign with None => true | Some c => is_sign c end && wf_digits ds
  end.

Lemma match_exponent_spec s r :
  match_exponent s = Some r -> exists e, s = print_exponent e +:+ r /\ wf_exponent e = true.
Proof.
  destruct s as [|c s]; [intros [= <-]; by exists None|].
  cbn [match_exponent]. destruct (is_exponent_mark c) eqn:Hc; [|intros [= <-]; by exists None].
  set (s' := match s with String d r1 => if is_sign d then r1 else s | EmptyString => s end).
  destruct (span is_digit s') as [[|d a] b] eqn:Hs; [done|]. intros [= <-].
  apply span_spec in Hs as (E & Ha & _).
  assert (exists sign, s = match sign with None => s' | Some x => String x s' end /\
            match sign with None => true | Some c => is_sign c end = true) as (sign & Es & Hsign).
  { subst s'. destruct s as [|x s]; [by exists None|]. destruct (is_sign x) eqn:Hx; [by exists (Some x)|by exists None]. }
  exists (Some (c, sign, String d a)). simpl. rewrite Hc, Hsign. split; [|by unfold wf_digits].
  rewrite Es, E. by destruct sign.
Qed.

Lemma is_digit_not_sign c : is_digit c = true -> is_sign c = false.
Proof.
  intros H. destruct (is_sign c) eqn:E; [|done].
  unfold is_sign in E. apply orb_true_iff in E as [->%Ascii.eqb_eq | ->%Ascii.eqb_eq]; done.
Qed.

Lemma match_exponent_print e :
  wf_exponent e = true -> match_exponent (print_exponent e) = Some EmptyString.
Proof.
  destruct e as [[[mark sign] ds]|]; [|done]. cbn [wf_exponent]. rewrite !andb_true_iff. intros [[Hm Hs] Hd].
  unfold wf_digits in Hd. apply andb_true_iff in Hd as [Hne Hd]. cbn [print_exponent match_exponent].
  rewrite Hm. destruct ds as [|d ds]; [done|].
  set (r' := match print_signed sign (String d ds) with String _ _ => _ | EmptyString => _ end).
  replace r' with (String d ds).
  - by rewrite (proj2 (span_spec is_digit (String d ds) (String d ds) EmptyString)) by (by rewrite sapp_nil_r).
  - subst r'. destruct sign as [x|]; simpl; [by rewrite Hs|].
    rewrite is_digit_not_sign; [done|]. by apply andb_true_iff in Hd as [? _].
Qed.

Lemma exponent_start e : wf_exponent e = true ->
  starts_with (fun c => is_digit c || Ascii.eqb c ".") (print_exponent e) = false.
Proof.
  destruct e as [[[mark sign] ds]|]; [|done]. simpl. rewrite !andb_true_iff. intros [[Hm _] _].
  unfold is_exponent_mark in Hm. apply orb_true_iff in Hm as [->%Ascii.eqb_eq | ->%Ascii.eqb_eq]; done.
Qed.

Lemma fraction_start f e : wf_exponent e = true ->
  starts_with is_digit (print_fraction f +:+ print_exponent e) = false.
Proof.
  intros He. destruct f as [f|]; [done|]. rewrite sapp_nil_l. apply exponent_start in He.
  destruct (print_exponent e); simpl in *; [done|]. by apply orb_false_iff in He as [? _].
Qed.

Lemma wf_number_parts n :
  wf_number n = true <->
  wf_number {| n_negative := false; n_integer := n_integer n; n_fraction := None; n_exponent := None |} = true /\
  match n_fraction n with None => true | Some f => wf_digits f end = true /\ wf_exponent (n_exponent n) = true.
Proof. unfold wf_number; simpl. rewrite !andb_true_iff. unfold wf_exponent. naive_solver. Qed.

Lemma optional_minus_print n : wf_number n = true ->
  optional_minus (print_number n) = n_integer n +:+ print_fraction (n_fraction n) +:+ print_exponent (n_exponent n).
Proof.
  intros (Hi & _)%wf_number_parts. unfold print_number. destruct (n_negative n); [done|]. rewrite sapp_nil_l.
  unfold wf_number in Hi; simpl in Hi. rewrite !andb_true_r, orb_true_iff in Hi.
  destruct Hi as [->%String.eqb_eq|Hi]; [done|]. destruct (n_integer n) as [|c i]; [done|].
  apply andb_true_iff in Hi as [Hc _]. rewrite sapp_cons.
  destruct c as [[] [] [] [] [] [] [] []]; try reflexivity; discriminate Hc.
Qed.

Lemma jsonNumberPattern_spec s :
  jsonNumberPattern s = true <-> exists n, wf_number n = true /\ s = print_number n.
Proof.
  unfold jsonNumberPattern. split.
  - destruct (match_integer_part (optional_minus s)) as [r1|] eqn:H1; [|done].
    cbn [mbind option_bind]. destruct (match_fraction r1) as [r2|] eqn:H2; [|done].
    cbn [mbind option_bind]. destruct (match_exponent r2) as [r3|] eqn:H3; [|done].
    simpl. destruct r3; [|done]. intros _.
    apply match_integer_part_spec in H1 as (i & E1 & Hi). apply match_fraction_spec in H2 as (f & -> & Hf).
    apply match_exponent_spec in H3 as (e & -> & He). rewrite sapp_nil_r in E1.
    set (neg := match s with String "-" _ => true | _ => false end).
    exists {| n_negative := neg; n_integer := i; n_fraction := f; n_exponent := e |}.
    split; [by apply wf_number_parts|]. unfold print_number; simpl. rewrite <- E1. subst neg.
    destruct s as [|[[] [] [] [] [] [] [] []] s]; reflexivity.
  - intros (n & Hn & ->). rewrite optional_minus_print by done. apply wf_number_parts in Hn as (Hi & Hf & He).
    rewrite match_integer_part_print by (done || by apply fraction_start). cbn [mbind option_bind].
    rewrite match_fraction_print by (done || by apply exponent_start). cbn [mbind option_bind].
    by rewrite match_exponent_print.
Qed.

(** ** The parser reads the parts of a literal back *)

Lemma wf_integer_digits n : wf_number n = true -> all_digits (n_integer n) = true.
Proof.
  intros (H & _)%wf_number_parts. unfold wf_number in H; simpl in H. rewrite !andb_true_r, orb_true_iff in H.
  destruct H as [->%String.eqb_eq|H]; [done|]. destruct (n_integer n) as [|c i]; [done|].
  apply andb_true_iff in H as [Hc Hi]. cbn [sforall]. rewrite Hi, andb_true_r.
  revert Hc. unfold is_nonzero_digit, is_digit, in_range. rewrite !andb_true_iff, !Nat.leb_le.
  change (nat_of_ascii "1") with 49%nat. change (nat_of_ascii "0") with 48%nat. lia.
Qed.

Lemma wf_fraction_digits n : wf_number n = true -> all_digits (fraction_digits n) = true.
Proof.
  intros (_ & H & _)%wf_number_parts. unfold fraction_digits. destruct (n_fraction n); [|done].
  by apply andb_true_iff in H as [_ H].
Qed.

Lemma digit_not_mark c : is_digit c || Ascii.eqb c "." = true -> is_exponent_mark c = false.
Proof.
  intros H. apply not_true_is_false. unfold is_exponent_mark. intros E.
  apply orb_true_iff in E as [->%Ascii.eqb_eq | ->%Ascii.eqb_eq]; done.
Qed.

Lemma cut_exponent_app m e :
  sforall (fun c => is_digit c || Ascii.eqb c ".") m = true -> wf_exponent e = true ->
  cut_exponent (m +:+ print_exponent e) =
    (m, match e with None => EmptyString | Some (_, sign, ds) => print_signed sign ds end).
Proof.
  intros Hm He. induction m as [|c m IH].
  - rewrite sapp_nil_l. destruct e as [[[mark sign] ds]|]; [|done]. cbn [print_exponent cut_exponent].
    cbn [wf_exponent] in He. rewrite !andb_true_iff in He. destruct He as [[-> _] _]. done.
  - rewrite sapp_cons. cbn [cut_exponent]. cbn [sforall] in Hm. apply andb_true_iff in Hm as [Hc Hm].
    by rewrite (digit_not_mark c Hc), IH.
Qed.

Lemma mantissa_chars i f : all_digits i = true -> all_digits (default EmptyString f) = true ->
  sforall (fun c => is_digit c || Ascii.eqb c ".") (i +:+ print_fraction f) = true.
Proof.
  assert (Hw : forall s, all_digits s = true -> sforall (fun c => is_digit c || Ascii.eqb c ".") s = true)
    by (intros s; apply sforall_impl; intros c ->; done).
  intros Hi Hf. rewrite sforall_app, (Hw i Hi). destruct f as [f|]; [|done]. exact (Hw f Hf).
Qed.

Lemma digit_not_dot c : is_digit c = true -> Ascii.eqb c "." = false.
Proof. intros H. apply Ascii.eqb_neq. by intros ->. Qed.

Lemma fractional_digits_mantissa i f : all_digits i = true ->
  fractional_digits (i +:+ print_fraction f) = slen (default EmptyString f).
Proof.
  induction i as [|c i IH]; intros Hi.
  - rewrite sapp_nil_l. by destruct f.
  - rewrite sapp_cons. cbn [fractional_digits]. cbn [sforall] in Hi. apply andb_true_iff in Hi as [Hc Hi].
    rewrite digit_not_dot; auto.
Qed.

Lemma without_dot_digits s : all_digits s = true -> without_dot s = s.
Proof.
  induction s as [|c s IH]; [done|]. cbn [sforall without_dot]. intros [Hc Hs]%andb_true_iff.
  by rewrite digit_not_dot, IH.
Qed.

Lemma without_dot_mantissa i f : all_digits i = true -> all_digits (default EmptyString f) = true ->
  without_dot (i +:+ print_fraction f) = i +:+ default EmptyString f.
Proof.
  intros Hi Hf. induction i as [|c i IH].
  - rewrite !sapp_nil_l. destruct f as [f|]; [|done]. exact (without_dot_digits f Hf).
  - rewrite !sapp_cons. cbn [without_dot]. cbn [sforall] in Hi. apply andb_true_iff in Hi as [Hc Hi].
    by rewrite digit_not_dot, IH.
Qed.

Lemma parseSaturatedDecimalExponent_spec mark sign ds M :
  wf_exponent (Some (mark, sign, ds)) = true -> 9 <= M ->
  parseSaturatedDecimalExponent (print_signed sign ds) M =
    Z.max (- M) (Z.min M (exponent_value (Some (mark, sign, ds)))).
Proof.
  cbn [wf_exponent]. unfold wf_digits. rewrite !andb_true_iff. intros [[_ Hs] [Hne Hd]] HM.
  pose proof (digits_value_bounds ds Hd). unfold parseSaturatedDecimalExponent, exponent_value.
  assert (Hsat := saturated_digits_spec M 0 ds Hd HM ltac:(lia)). fold (digits_value ds) in Hsat.
  destruct sign as [c|].
  - cbn [print_signed]. rewrite Hs. rewrite Hsat. unfold is_sign in Hs.
    apply orb_true_iff in Hs as [->%Ascii.eqb_eq | ->%Ascii.eqb_eq]; unfold signed; lia.
  - cbn [print_signed]. destruct ds as [|c ds]; [done|].
    assert (Hc : is_digit c = true) by (cbn [sforall] in Hd; by apply andb_true_iff in Hd as [? _]).
    rewrite (is_digit_not_sign c Hc), Hsat.
    replace (match c with "-"%char => true | _ => false end) with false
      by (destruct c as [[] [] [] [] [] [] [] []]; try reflexivity; discriminate Hc).
    unfold signed; lia.
Qed.

Lemma negative_print n : wf_number n = true ->
  match print_number n with String "-" _ => true | _ => false end = n_negative n.
Proof.
  intros Hn. unfold print_number. destruct (n_negative n); [done|]. rewrite sapp_nil_l.
  pose proof (wf_integer_digits n Hn) as Hd. apply wf_number_parts in Hn as (Hi & _).
  destruct (n_integer n) as [|c i] eqn:E; [done|].
  rewrite sapp_cons. cbn [sforall] in Hd. apply andb_true_iff in Hd as [Hc _].
  destruct c as [[] [] [] [] [] [] [] []]; try reflexivity; discriminate Hc.
Qed.

Lemma scaled_zero e v : scaled 0 e v <-> v = 0.
Proof.
  unfold scaled. pose proof (pow10_pos (Z.max 0 (- e)) ltac:(lia)). rewrite Z.mul_0_l. split; [nia|by intros ->].
Qed.

(** What [parseJSONInteger] computes on a well-formed literal. *)
Lemma parseJSONInteger_literal raw n v :
  wf_number n = true -> trim_space raw = print_number n ->
  parseJSONInteger raw = Ok v <-> denotes n v /\ in_int64 v.
Proof.
  intros Hn E. unfold parseJSONInteger. rewrite E.
  rewrite (proj2 (jsonNumberPattern_spec _)) by eauto. cbn [negb].
  rewrite negative_print, optional_minus_print by done.
  pose proof (wf_integer_digits n Hn) as Hi. pose proof (wf_fraction_digits n Hn) as Hf.
  pose proof (proj1 (wf_number_parts n) Hn) as (_ & _ & He).
  rewrite <- sapp_assoc, cut_exponent_app by (try done; by apply mantissa_chars).
  rewrite fractional_digits_mantissa, without_dot_mantissa by done.
  fold (fraction_digits n). set (ds := n_integer n +:+ fraction_digits n).
  assert (Hds : all_digits ds = true) by (subst ds; rewrite sforall_app, Hi; done).
  unfold denotes. fold ds. destruct (String.eqb_spec (trim_left_by (Ascii.eqb "0") ds) EmptyString) as [Ez|Ez].
  { rewrite <- (trim_zeros_value ds), Ez. change (digits_value EmptyString) with 0.
    replace (signed (n_negative n) 0) with 0 by (by destruct (n_negative n)). rewrite scaled_zero.
    unfold in_int64. split; [intros [= <-]; lia | intros [-> _]; done]. }
  pose proof (trim_zeros_pos ds Hds Ez) as Hpos.
  rewrite scaleJSONInteger_spec, trim_zeros_value by
    (try rewrite trim_zeros_value; try done; by apply trim_zeros_digits).
  destruct (n_exponent n) as [[[mark sign] eds]|] eqn:Ee; [|done].
  set (M := slen _ + 20).
  assert (Hlen : slen (n_integer n) + slen (fraction_digits n) + 20 <= M).
  { subst M. rewrite !slen_app. unfold fraction_digits.
    pose proof (slen_nonneg (print_exponent (Some (mark, sign, eds)))).
    destruct (n_fraction n); cbn [print_fraction default]; rewrite ?slen_cons; unfold slen in *; simpl; lia. }
  rewrite (proj2 (String.eqb_neq _ _)).
  2: { cbn [wf_exponent] in He. unfold wf_digits in He. rewrite !andb_true_iff in He.
       destruct He as [_ [He _]]. destruct sign; [done|]. cbn [print_signed]. by destruct eds. }
  pose proof (slen_nonneg (fraction_digits n)). pose proof (slen_nonneg (n_integer n)).
  rewrite (parseSaturatedDecimalExponent_spec mark) by (done || lia).
  rewrite <- (trim_zeros_value ds). pose proof (trim_zeros_length ds). subst ds. rewrite slen_app in *.
  apply scale_saturates; [by apply trim_zeros_digits|by rewrite trim_zeros_value|lia..].
Qed.

Lemma parseJSONInteger_iff raw v :
  parseJSONInteger raw = Ok v <->
  exists n, wf_number n = true /\ trim_space raw = print_number n /\ denotes n v /\ in_int64 v.
Proof.
  split.
  - intros H. assert (Hp : jsonNumberPattern (trim_space raw) = true).
    { revert H. unfold parseJSONInteger. by destruct (jsonNumberPattern (trim_space raw)). }
    apply jsonNumberPattern_spec in Hp as (n & Hn & E). exists n.
    by destruct (proj1 (parseJSONInteger_literal raw n v Hn E) H).
  - intros (n & Hn & E & H1 & H2). by apply (parseJSONInteger_literal raw n v).
Qed.

(** [parseJSONInteger] is exact. It returns [v] just when its input, without
    surrounding white space, is a JSON number literal whose mathematical value,
    exponent and fraction included, is the integer [v] and [v] is a signed 64-bit
    integer; so no accepted text is rounded, wrapped or saturated. *)
Theorem parseJSONInteger_exact raw v :
  parseJSONInteger raw = Ok v <->
  exists n, wf_number n = true /\ trim_space raw = print_number n /\ denotes n v /\ in_int64 v.
Proof. apply parseJSONInteger_iff. Qed.

(** ** Printing integers *)

Definition canonical_digits (text : string) : Prop :=
  text <> EmptyString /\ all_digits text = true /\ (starts_with (Ascii.eqb "0") text = true -> text = "0").

Lemma uint_of_digits s : all_digits s = true -> exists u, NilEmpty.string_of_uint u = s.
Proof.
  induction s as [|c s IH]; [by exists Decimal.Nil|]. cbn [sforall]. intros [Hc Hs]%andb_true_iff.
  destruct (IH Hs) as [u <-].
  assert (Hb : all_bytes (fun c => implb (is_digit c) (existsb (Ascii.eqb c) (list_ascii_of_string "0123456789"))) = true)
    by (vm_compute; reflexivity).
  pose proof (all_bytes_spec _ Hb c) as H. cbv beta in H. rewrite Hc in H. cbn in H.
  rewrite !orb_true_iff, !Ascii.eqb_eq in H.
  destruct H as [->|[->|[->|[->|[->|[->|[->|[->|[->|[->|[=]]]]]]]]]]];
    [by exists (Decimal.D0 u)|by exists (Decimal.D1 u)|by exists (Decimal.D2 u)|by exists (Decimal.D3 u)
    |by exists (Decimal.D4 u)|by exists (Decimal.D5 u)|by exists (Decimal.D6 u)|by exists (Decimal.D7 u)
    |by exists (Decimal.D8 u)|by exists (Decimal.D9 u)].
Qed.

Lemma string_of_uint_digits d : all_digits (NilEmpty.string_of_uint d) = true.
Proof. by induction d. Qed.

Lemma digits_of_uint_acc u : forall p, digits_from (Zpos p) (NilEmpty.string_of_uint u) = Zpos (Pos.of_uint_acc u p).
Proof.
  assert (H : forall c p q, Zpos p * 10 + digit c = Zpos q -> forall s, digits_from (Zpos p) (String c s) = digits_from (Zpos q) s)
    by (intros c p q E s; cbn [digits_from]; by rewrite E).
  induction u as [|u IH|u IH|u IH|u IH|u IH|u IH|u IH|u IH|u IH|u IH]; intros p; [done|..];
    cbn [NilEmpty.string_of_uint Pos.of_uint_acc]; (erewrite H; [apply IH|]); match goal with |- context [digit ?c] => let d := eval vm_compute in (digit c) in change (digit c) with d end; lia.
Qed.

Lemma digits_of_uint u : digits_value (NilEmpty.string_of_uint u) = Z.of_uint u.
Proof.
  unfold digits_value, Z.of_uint.
  induction u as [|u IH|u _|u _|u _|u _|u _|u _|u _|u _|u _]; [done|exact IH|..]; apply digits_of_uint_acc.
Qed.

Lemma unorm_canonical u : Decimal.unorm u = u <-> canonical_digits (NilEmpty.string_of_uint u).
Proof.
  unfold canonical_digits. rewrite string_of_uint_digits. split.
  - intros H. destruct u as [|u|u|u|u|u|u|u|u|u|u]; (split; [by try discriminate|split; [done|]]); try done.
    cbn [NilEmpty.string_of_uint]. intros _. rewrite DecimalFacts.unorm_D0 in H.
    destruct (Decimal.nzhead u) as [|v|v|v|v|v|v|v|v|v|v] eqn:E; unfold Decimal.unorm in H; rewrite E in H; try discriminate.
    + by injection H as <-.
    + exfalso. clear H. induction u; simpl in E; try discriminate. by apply IHu.
  - intros (Hn & _ & Hz). destruct u as [|u|u|u|u|u|u|u|u|u|u]; try done.
    cbn [NilEmpty.string_of_uint] in Hz. specialize (Hz eq_refl). injection Hz as Hu. by destruct u.
Qed.

Lemma nil_zero_text u : u <> Decimal.Nil -> NilZero.string_of_uint u = NilEmpty.string_of_uint u.
Proof. by destruct u. Qed.

Lemma itoa_digits text : canonical_digits text -> itoa (digits_value text) = text.
Proof.
  intros H. destruct (uint_of_digits text) as [u <-]; [apply H|]. rewrite digits_of_uint.
  apply unorm_canonical in H. unfold itoa. change (Z.of_uint u) with (Z.of_int (Decimal.Pos u)).
  rewrite DecimalZ.to_of. cbn [Decimal.norm]. rewrite H. cbn [NilZero.string_of_int].
  apply nil_zero_text. intros ->. discriminate H.
Qed.

Lemma itoa_canonical n : 0 <= n -> canonical_digits (itoa n) /\ digits_value (itoa n) = n.
Proof.
  intros Hn. destruct (Z.to_int n) as [u|u] eqn:E; [|by destruct n].
  pose proof (DecimalZ.of_to n) as Hv. pose proof (DecimalZ.to_of (Decimal.Pos u)) as Hu.
  rewrite E in Hv. rewrite Hv, E in Hu. cbn [Decimal.norm] in Hu. injection Hu as Hu.
  assert (Hnil : u <> Decimal.Nil) by (intros ->; discriminate Hu).
  unfold itoa. rewrite E. cbn [NilZero.string_of_int]. rewrite (nil_zero_text u Hnil). split.
  - by apply unorm_canonical.
  - by rewrite digits_of_uint.
Qed.

Lemma itoa_opp n : 0 < n -> itoa (- n) = String "-" (itoa n).
Proof.
  intros Hn. destruct n as [|p|p]; try lia. unfold itoa. cbn. done.
Qed.

Lemma canonical_length text : canonical_digits text -> 0 < digits_value text -> 10 ^ (slen text - 1) <= digits_value text.
Proof.
  intros (Hn & Hd & Hz) Hv. destruct text as [|c r]; [done|]. rewrite slen_cons.
  cbn [sforall] in Hd. apply andb_true_iff in Hd as [Hc Hr]. pose proof (digit_bounds c Hc).
  pose proof (digits_value_bounds r Hr) as Hb. unfold digits_value in *. cbn [digits_from].
  rewrite digits_from_acc. unfold digits_value. replace (1 + slen r - 1) with (slen r) by lia.
  assert (digit c <> 0).
  { intros E. assert (c = "0"%char) as ->.
    { unfold digit in E. rewrite <- (ascii_N_embedding c). replace (N_of_ascii c) with 48%N by lia. done. }
    cbn [starts_with] in Hz. specialize (Hz eq_refl). injection Hz as ->. done. }
  pose proof (pow10_pos (slen r) (slen_nonneg r)). nia.
Qed.
