(* ===== verification/Portable.v ===== *)
(** Portable date, date-time, timestamp and time texts
    (internal/queryspec/portable_values.go), with the part of Go's [time.Parse]
    and [Time.Format] they call, and the RFC 3339 check of
    internal/queryspec/types.go. *)
From S2P Require Import Prelude Number.
Local Open Scope string_scope.
Local Open Scope Z_scope.

(** ** Civil times *)

Record Time := {
  Year : Z; Month : Z; Day : Z; Hour : Z; Minute : Z; Second : Z; Nanosecond : Z;
}.

#[export] Instance Time_eq_dec : EqDecision Time.
Proof. solve_decision. Defined.

Definition is_leap (year : Z) : bool :=
  (year mod 4 =? 0) && (negb (year mod 100 =? 0) || (year mod 400 =? 0)).

Definition days_in (month year : Z) : Z :=
  if month =? 2 then (if is_leap year then 29 else 28)
  else if (month =? 4) || (month =? 6) || (month =? 9) || (month =? 11) then 30 else 31.

Definition valid_civil (t : Time) : bool :=
  (0 <=? Year t) && (Year t <=? 9999) && (1 <=? Month t) && (Month t <=? 12) &&
  (1 <=? Day t) && (Day t <=? days_in (Month t) (Year t)) &&
  (0 <=? Hour t) && (Hour t <? 24) && (0 <=? Minute t) && (Minute t <? 60) &&
  (0 <=? Second t) && (Second t <? 60).

(** ** time.Parse on the layouts the program uses *)

(** [getnum]: two digits, or one when the layout does not fix the width. *)
Definition getnum (s : string) (fixed : bool) : option (Z * string) :=
  match s with
  | String a r =>
      if negb (is_digit a) then None
      else match r with
           | String b r' =>
               if is_digit b then Some (10 * digit a + digit b, r')
               else if fixed then None else Some (digit a, r)
           | EmptyString => if fixed then None else Some (digit a, r)
           end
  | EmptyString => None
  end.

(** [skip] of one separator byte that is not a space. *)
Definition skip_byte (c : ascii) (s : string) : option string :=
  match s with
  | String d r => if Ascii.eqb d c then Some r else None
  | EmptyString => None
  end.

(** [skip] of a space: any run of spaces, and nothing at the end of the text. *)
Definition skip_space (s : string) : option string :=
  match s with
  | String d _ => if Ascii.eqb d " " then Some (trim_left_by (Ascii.eqb " ") s) else None
  | EmptyString => Some EmptyString
  end.

(** The year: four characters that [atoi] reads. *)
Definition parse_year (s : string) : option (Z * string) :=
  match s with
  | String a (String b (String c (String d r))) =>
      let text := String a (String b (String c (String d EmptyString))) in
      if sforall is_digit text then Some (digits_value text, r) else None
  | _ => None
  end.

(** [2006-01-02]: the month is checked at once, the day after the whole text. *)
Definition parse_date (s : string) : option (Z * Z * Z * string) :=
  '(y, s) ← parse_year s;
  s ← skip_byte "-" s;
  '(m, s) ← getnum s true;
  s ← skip_byte "-" s;
  '(d, s) ← getnum s true;
  if (1 <=? m) && (m <=? 12) then Some (y, m, d, s) else None.

Definition comma_or_period (c : ascii) : bool := Ascii.eqb c "." || Ascii.eqb c ",".

(** The fraction of a second: [parseNanoseconds] keeps nine digits, and all
    digits are consumed. *)
Definition pad_right_zeros (n : nat) (s : string) : string := stake n (s +:+ zeros n).

Definition parse_fraction (s : string) : Z * string :=
  match s with
  | String c (String d _ as r) =>
      if comma_or_period c && is_digit d then
        let '(ds, rest) := span is_digit r in
        (digits_value (pad_right_zeros 9 ds), rest)
      else (0, s)
  | _ => (0, s)
  end.

(** [15:04:05], with the fraction that the seconds accept, in the layout or not. *)
Definition parse_clock (s : string) : option (Z * Z * Z * Z * string) :=
  '(hh, s) ← getnum s false;
  s ← skip_byte ":" s;
  '(mm, s) ← getnum s true;
  s ← skip_byte ":" s;
  '(ss, s) ← getnum s true;
  if (hh <? 24) && (mm <? 60) && (ss <? 60) then
    let '(ns, s) := parse_fraction s in Some (hh, mm, ss, ns, s)
  else None.

(** [Z07:00], in seconds; the offset bounds are [hr <= 24] and [mm <= 60]. *)
Definition parse_zone (s : string) : option (Z * string) :=
  match s with
  | String "Z" r => Some (0, r)
  | String sign (String h1 (String h2 (String ":" (String m1 (String m2 r))))) =>
      '(hr, _) ← getnum (String h1 (String h2 EmptyString)) true;
      '(mm, _) ← getnum (String m1 (String m2 EmptyString)) true;
      let offset := (hr * 60 + mm) * 60 in
      if (hr <=? 24) && (mm <=? 60) && is_sign sign
      then Some (if Ascii.eqb sign "-" then - offset else offset, r) else None
  | _ => None
  end.

Definition day_in_range (y m d : Z) : bool := (1 <=? d) && (d <=? days_in m y).

(** [time.Parse(time.DateOnly, s)] *)
Definition time_parse_date_only (s : string) : option Time :=
  '(y, m, d, s) ← parse_date s;
  if String.eqb s EmptyString && day_in_range y m d then
    Some {| Year := y; Month := m; Day := d; Hour := 0; Minute := 0; Second := 0; Nanosecond := 0 |}
  else None.

(** [time.Parse("2006-01-02 15:04:05", s)] *)
Definition time_parse_date_time (s : string) : option Time :=
  '(y, m, d, s) ← parse_date s;
  s ← skip_space s;
  '(hh, mm, ss, ns, s) ← parse_clock s;
  if String.eqb s EmptyString && day_in_range y m d then
    Some {| Year := y; Month := m; Day := d; Hour := hh; Minute := mm; Second := ss; Nanosecond := ns |}
  else None.

(** [time.Parse(time.RFC3339Nano, s)]: the fields of the text and its offset from
    UTC; the fast path of [Parse] accepts a part of what the general parser does. *)
Definition time_parse_rfc3339nano (s : string) : option (Time * Z) :=
  '(y, m, d, s) ← parse_date s;
  s ← skip_byte "T" s;
  '(hh, mm, ss, ns, s) ← parse_clock s;
  '(offset, s) ← parse_zone s;
  if String.eqb s EmptyString && day_in_range y m d then
    Some ({| Year := y; Month := m; Day := d; Hour := hh; Minute := mm; Second := ss; Nanosecond := ns |}, offset)
  else None.

(** ** Time.Format on the same layouts *)

Definition digit_char (n : Z) : ascii := ascii_of_N (Z.to_N (48 + n mod 10)).

Definition pad2 (n : Z) : string := String (digit_char (n / 10)) (String (digit_char n) EmptyString).
Definition pad4 (n : Z) : string :=
  String (digit_char (n / 1000)) (String (digit_char (n / 100)) (pad2 n)).

Definition format_date (t : Time) : string := pad4 (Year t) +:+ "-" +:+ pad2 (Month t) +:+ "-" +:+ pad2 (Day t).
Definition format_clock (t : Time) : string := pad2 (Hour t) +:+ ":" +:+ pad2 (Minute t) +:+ ":" +:+ pad2 (Second t).
Definition format_date_time (t : Time) : string := format_date t +:+ " " +:+ format_clock t.

(** ** portable_values.go *)

Definition ProtocolMaxTemporalFractionDigits : Z := 9.

Definition ParsePortableDate (value : string) : option Time :=
  if negb (slen value =? 10) then None
  else match time_parse_date_only value with
       | None => None
       | Some parsed =>
           if (Year parsed <? 1) || (9999 <? Year parsed) || negb (String.eqb (format_date parsed) value)
           then None else Some parsed
       end.

Definition decimalDigitsOnly (value : string) : bool :=
  negb (String.eqb value EmptyString) && sforall is_digit value.

Definition parseDecimalDigits (value : string) : option Z :=
  if decimalDigitsOnly value then Some (digits_value value) else None.

(** [s[i]] *)
Definition byte_at (i : nat) (s : string) : option ascii := String.get i s.

Definition last_byte (s : string) : option ascii :=
  match s with EmptyString => None | _ => byte_at (String.length s - 1) s end.

(** The fraction of a portable date-time: its digit count and its nanoseconds. *)
Definition portable_fraction (tail : string) : option (Z * Z) :=
  match tail with
  | EmptyString => Some (0, 0)
  | String c fraction =>
      if negb (Ascii.eqb c ".") then None
      else if (slen fraction =? 0) || (ProtocolMaxTemporalFractionDigits <? slen fraction) ||
              negb (decimalDigitsOnly fraction) then None
      else Some (slen fraction,
                 digits_from (digits_value fraction)
                   (zeros (Z.to_nat (ProtocolMaxTemporalFractionDigits - slen fraction))))
  end.

Definition parsePortableDateTime (value : string) (separator : ascii) (utcSuffix : bool)
  : option (Time * Z) :=
  let extra := if utcSuffix then 1 else 0 in
  let minimumLength := 19 + extra in
  let maximumLength := 19 + 1 + ProtocolMaxTemporalFractionDigits + extra in
  if utcSuffix && negb (bool_decide (last_byte value = Some "Z"%char)) then None
  else
  let text := if utcSuffix then stake (String.length value - 1) value else value in
  if (slen value <? minimumLength) || (maximumLength <? slen value) || (slen text <? 19) ||
     negb (bool_decide (byte_at 10 text = Some separator)) then None
  else
  let base := stake 19 text in
  let canonicalBase := stake 10 base +:+ " " +:+ sdrop 11 base in
  match time_parse_date_time canonicalBase with
  | None => None
  | Some parsed =>
      if (Year parsed <? 1) || (9999 <? Year parsed) ||
         negb (String.eqb (format_date_time parsed) canonicalBase) then None
      else
      match portable_fraction (sdrop 19 text) with
      | None => None
      | Some (fractionDigits, nanoseconds) =>
          Some ({| Year := Year parsed; Month := Month parsed; Day := Day parsed; Hour := Hour parsed;
                   Minute := Minute parsed; Second := Second parsed; Nanosecond := nanoseconds |},
                fractionDigits)
      end
  end.

Definition ParsePortableDateTime (value : string) := parsePortableDateTime value " " false.
Definition ParsePortableTimestamp (value : string) := parsePortableDateTime value "T" true.

(** [strings.IndexByte(text, '.')] and the two sides of it. *)
Fixpoint cut_dot (s : string) : string * option string :=
  match s with
  | EmptyString => (EmptyString, None)
  | String c r =>
      if Ascii.eqb c "." then (EmptyString, Some r)
      else let '(a, b) := cut_dot r in (String c a, b)
  end.

Definition starts_with_zero (s : string) : bool :=
  match s with String "0" _ => true | _ => false end.

Definition ValidPortableTime (value : string) : bool :=
  let text := match value with String "-" r => r | _ => value end in
  match text with
  | EmptyString | String "+" _ | String "-" _ => false
  | _ =>
      let '(base, fraction) := cut_dot text in
      if match fraction with
         | None => false
         | Some fraction =>
             (slen fraction <? 1) || (ProtocolMaxTemporalFractionDigits <? slen fraction) ||
             negb (decimalDigitsOnly fraction)
         end then false
      else
      match split_byte ":" base with
      | [h; m; s] =>
          if (slen h <? 2) || (3 <? slen h) || negb (slen m =? 2) || negb (slen s =? 2) then false
          else
          match parseDecimalDigits h, parseDecimalDigits m, parseDecimalDigits s with
          | Some hours, Some minutes, Some seconds =>
              if (slen h =? 3) && starts_with_zero h then false
              else (hours <=? 838) && (minutes <=? 59) && (seconds <=? 59)
          | _, _, _ => false
          end
      | _ => false
      end
  end.

(** ** validateRFC3339DateTime (types.go) *)

Definition set_byte (i : nat) (c : ascii) (s : string) : string := stake i s +:+ String c (sdrop (S i) s).

Definition validateRFC3339DateTime (value : string) : bool :=
  if (slen value <=? 11) || String.eqb (stake 4 value) "0000" then false
  else
  let separatorIsLower := bool_decide (byte_at 10 value = Some "t"%char) in
  let zoneIsLower := bool_decide (last_byte value = Some "z"%char) in
  let normalized := if separatorIsLower then set_byte 10 "T" value else value in
  let normalized :=
    if zoneIsLower then set_byte (String.length value - 1) "Z" normalized else normalized in
  bool_decide (is_Some (time_parse_rfc3339nano normalized)).

Example portable_forms :
  (map (fun o => bool_decide (is_Some o)) [ParsePortableDate "2024-02-29"; ParsePortableDate "2023-02-29"; ParsePortableDate "0000-01-01"],
   map snd (omap ParsePortableDateTime ["2024-02-29 01:02:03"; "2024-02-29 01:02:03.1200"; "2024-02-29T01:02:03"]),
   map (fun p => Nanosecond p.1) (omap ParsePortableTimestamp ["2024-02-29T01:02:03.12Z"]),
   map ValidPortableTime ["-838:59:59.1"; "839:00:00"; "001:00:00"; "01:00:00"; "--01:00:00"],
   map validateRFC3339DateTime ["2024-02-29t1:02:03,5z"; "2024-02-29T01:02:03+24:60"; "2024-02-30T01:02:03Z"; "0000-02-20T01:02:03Z"])
  = ([true; false; false], [0; 4], [120000000], [true; false; false; true; false], [true; true; false; false]).
Proof. vm_compute. reflexivity. Qed.

(** ** Reading back what Format writes *)

Arguments pad2 : simpl never.
Arguments pad4 : simpl never.
Arguments getnum : simpl never.
Arguments digits_value : simpl never.

Lemma digit_char_spec n : is_digit (digit_char n) = true /\ digit (digit_char n) = n mod 10.
Proof.
  unfold digit_char. pose proof (Z.mod_pos_bound n 10 ltac:(lia)) as H. revert H.
  generalize (n mod 10). intros m H.
  assert (m = 0 \/ m = 1 \/ m = 2 \/ m = 3 \/ m = 4 \/ m = 5 \/ m = 6 \/ m = 7 \/ m = 8 \/ m = 9) as E by lia.
  repeat (destruct E as [->|E]; [done|]). by subst.
Qed.

Lemma digit_char_digit n : is_digit (digit_char n) = true.
Proof. apply digit_char_spec. Qed.

Lemma digit_digit_char n : digit (digit_char n) = n mod 10.
Proof. apply digit_char_spec. Qed.

Create HintDb digits.
#[export] Hint Rewrite digit_char_digit digit_digit_char sapp_cons sapp_nil_l : digits.

Lemma getnum_pad2 n r fixed : 0 <= n < 100 -> getnum (pad2 n +:+ r) fixed = Some (n, r).
Proof.
  intros H. unfold pad2. autorewrite with digits. unfold getnum. rewrite !digit_char_digit, !digit_digit_char. simpl.
  do 2 f_equal. div_lia.
Qed.

Lemma parse_year_pad4 n r : 0 <= n < 10000 -> parse_year (pad4 n +:+ r) = Some (n, r).
Proof.
  intros H. unfold pad4, pad2. autorewrite with digits. cbn [parse_year sforall].
  rewrite !digit_char_digit. cbn [andb]. do 2 f_equal.
  unfold digits_value. cbn [digits_from]. rewrite !digit_digit_char.
  replace (n / 1000) with (n / 10 / 10 / 10) by (rewrite !Z.div_div by lia; done).
  replace (n / 100) with (n / 10 / 10) by (rewrite !Z.div_div by lia; done). div_lia.
Qed.

Lemma getnum_bounds s fixed n r : getnum s fixed = Some (n, r) -> 0 <= n <= 99.
Proof.
  destruct s as [|a s]; [done|]. unfold getnum.
  destruct (is_digit a) eqn:Ha; [|done]. apply digit_bounds in Ha. cbn [negb].
  destruct s as [|b s]; [destruct fixed; [done|intros [= <- _]; lia]|].
  destruct (is_digit b) eqn:Hb; [apply digit_bounds in Hb; intros [= <- _]; lia|].
  destruct fixed; [done|]. intros [= <- _]. lia.
Qed.

Lemma parse_year_bounds s n r : parse_year s = Some (n, r) -> 0 <= n <= 9999.
Proof.
  unfold parse_year. destruct s as [|a [|b [|c [|d s]]]]; try done. intros H.
  destruct (sforall is_digit _) eqn:Hd; [|done]. injection H as <- _.
  apply digits_value_bounds in Hd. revert Hd.
  change (slen (String a (String b (String c (String d EmptyString))))) with 4. lia.
Qed.

(** [opt_inv] reads a successful option computation backwards. *)
Ltac opt_inv :=
  repeat match goal with
  | H : mbind _ _ = Some _ |- _ => apply bind_Some in H as (? & ? & H)
  | H : (if ?b then _ else None) = Some _ |- _ => destruct b eqn:?; [|discriminate H]
  | H : (let '(_, _) := ?p in _) = Some _ |- _ => destruct p eqn:?
  | H : Some _ = Some _ |- _ => injection H as H
  | p : _ * _ |- _ => destruct p
  end; subst.

Lemma parse_date_bounds s y m d r :
  parse_date s = Some (y, m, d, r) -> 0 <= y <= 9999 /\ 1 <= m <= 12.
Proof.
  unfold parse_date. intros H. opt_inv. bool_prop.
  match goal with H : parse_year _ = _ |- _ => apply parse_year_bounds in H end. simplify_eq. lia.
Qed.

Lemma parse_date_format t r :
  valid_civil t = true -> parse_date (format_date t +:+ r) = Some (Year t, Month t, Day t, r).
Proof.
  unfold valid_civil. rewrite !andb_true_iff. intros H. destruct_and!. bool_prop.
  assert (days_in (Month t) (Year t) <= 31) by (unfold days_in; repeat case_match; lia).
  unfold parse_date, format_date. rewrite !sapp_assoc, parse_year_pad4 by lia. simpl.
  rewrite ?sapp_cons, ?sapp_nil_l. simpl. rewrite ?sapp_nil_l. rewrite getnum_pad2 by lia. simpl.
  rewrite ?sapp_cons, ?sapp_nil_l. simpl. rewrite ?sapp_nil_l. rewrite getnum_pad2 by lia. simpl.
  by rewrite (proj2 (Z.leb_le 1 _)), (proj2 (Z.leb_le _ 12)) by lia.
Qed.

Lemma parse_clock_bounds s hh mm ss ns r :
  parse_clock s = Some (hh, mm, ss, ns, r) -> 0 <= hh < 24 /\ 0 <= mm < 60 /\ 0 <= ss < 60.
Proof.
  unfold parse_clock. intros H. opt_inv. bool_prop.
  repeat match goal with H : getnum _ _ = _ |- _ => apply getnum_bounds in H end. simplify_eq. lia.
Qed.

(** The clock, with a fraction [f] behind it. *)
Lemma parse_clock_format t f : valid_civil t = true ->
  parse_clock (format_clock t +:+ f) =
    let '(ns, r) := parse_fraction f in Some (Hour t, Minute t, Second t, ns, r).
Proof.
  unfold valid_civil. rewrite !andb_true_iff. intros H. destruct_and!. bool_prop.
  unfold parse_clock, format_clock. rewrite !sapp_assoc. rewrite getnum_pad2 by lia. simpl.
  rewrite ?sapp_cons, ?sapp_nil_l. simpl. rewrite ?sapp_nil_l. rewrite getnum_pad2 by lia. simpl.
  rewrite ?sapp_cons, ?sapp_nil_l. simpl. rewrite ?sapp_nil_l. rewrite getnum_pad2 by lia. cbn [mbind option_bind].
  by rewrite (proj2 (Z.ltb_lt _ 24)), !(proj2 (Z.ltb_lt _ 60)) by lia.
Qed.

Lemma time_parse_date_only_valid s t :
  time_parse_date_only s = Some t ->
  valid_civil t = true /\ Hour t = 0 /\ Minute t = 0 /\ Second t = 0 /\ Nanosecond t = 0.
Proof.
  unfold time_parse_date_only. intros H. opt_inv. simpl.
  match goal with H : parse_date _ = _ |- _ => apply parse_date_bounds in H end.
  split; [|done]. unfold valid_civil, day_in_range in *; simpl. bool_prop. lia.
Qed.

Lemma time_parse_date_time_valid s t : time_parse_date_time s = Some t -> valid_civil t = true.
Proof.
  unfold time_parse_date_time. intros H. opt_inv.
  match goal with H : parse_date _ = _ |- _ => apply parse_date_bounds in H end.
  match goal with H : parse_clock _ = _ |- _ => apply parse_clock_bounds in H end.
  unfold valid_civil, day_in_range in *; simpl. bool_prop. lia.
Qed.

Lemma day_in_range_valid t : valid_civil t = true -> day_in_range (Year t) (Month t) (Day t) = true.
Proof. unfold valid_civil, day_in_range. bool_prop. tauto. Qed.

Lemma time_parse_date_only_format t : valid_civil t = true ->
  time_parse_date_only (format_date t) =
    Some {| Year := Year t; Month := Month t; Day := Day t; Hour := 0; Minute := 0; Second := 0; Nanosecond := 0 |}.
Proof.
  intros H. unfold time_parse_date_only. rewrite <- (sapp_nil_r (format_date t)), parse_date_format by done.
  simpl. by rewrite day_in_range_valid.
Qed.

Lemma skip_space_clock t f : skip_space (String " " (format_clock t +:+ f)) = Some (format_clock t +:+ f).
Proof.
  change (skip_space (String " " (format_clock t +:+ f))) with (Some (trim_left_by (Ascii.eqb " ") (format_clock t +:+ f))).
  f_equal. unfold format_clock, pad2. rewrite !sapp_cons. cbn [trim_left_by].
  pose proof (digit_char_digit (Hour t / 10)) as Hd.
  destruct (Ascii.eqb_spec " " (digit_char (Hour t / 10))) as [E|E]; [by rewrite <- E in Hd|done].
Qed.

Lemma time_parse_date_time_fraction t f ns : valid_civil t = true -> parse_fraction f = (ns, EmptyString) ->
  time_parse_date_time (format_date_time t +:+ f) =
    Some {| Year := Year t; Month := Month t; Day := Day t; Hour := Hour t; Minute := Minute t;
            Second := Second t; Nanosecond := ns |}.
Proof.
  intros H Hf. unfold time_parse_date_time, format_date_time. rewrite !sapp_assoc, parse_date_format by done.
  cbn [mbind option_bind]. rewrite sapp_cons, sapp_nil_l, skip_space_clock. cbn [mbind option_bind].
  rewrite parse_clock_format, Hf by done. simpl. by rewrite day_in_range_valid.
Qed.

Lemma time_parse_date_time_format t : valid_civil t = true ->
  time_parse_date_time (format_date_time t) =
    Some {| Year := Year t; Month := Month t; Day := Day t; Hour := Hour t; Minute := Minute t;
            Second := Second t; Nanosecond := 0 |}.
Proof. intros H. rewrite <- (sapp_nil_r (format_date_time t)). by apply time_parse_date_time_fraction. Qed.

Lemma ParsePortableDate_iff value t :
  ParsePortableDate value = Some t <->
  value = format_date t /\ valid_civil t = true /\ 1 <= Year t /\
  Hour t = 0 /\ Minute t = 0 /\ Second t = 0 /\ Nanosecond t = 0.
Proof.
  unfold ParsePortableDate. split.
  - intros H. destruct (slen value =? 10); [|done]. cbn [negb] in H.
    destruct (time_parse_date_only value) as [p|] eqn:Hp; [|done].
    destruct ((Year p <? 1) || (9999 <? Year p) || negb (String.eqb (format_date p) value)) eqn:E; [done|].
    injection H as <-. apply time_parse_date_only_valid in Hp. bool_prop. naive_solver lia.
  - intros (-> & Hv & Hy & Hh & Hm & Hs & Hn). rewrite time_parse_date_only_format by done.
    assert (E : {| Year := Year t; Month := Month t; Day := Day t; Hour := 0; Minute := 0;
                   Second := 0; Nanosecond := 0 |} = t) by (destruct t; simpl in *; congruence).
    rewrite E. change (slen (format_date t) =? 10) with true. cbn [negb].
    rewrite String.eqb_refl. unfold valid_civil in Hv. bool_prop.
    by rewrite (proj2 (Z.ltb_ge (Year t) 1)), (proj2 (Z.ltb_ge 9999 (Year t))) by lia.
Qed.

(** A portable date is accepted exactly when it is the [YYYY-MM-DD] text of
    a real Gregorian day of the years 1 to 9999, and it is read as that day, so
    parsing and formatting are inverse and no second spelling is accepted. *)
Theorem ParsePortableDate_exact value t :
  ParsePortableDate value = Some t <->
  value = format_date t /\ valid_civil t = true /\ 1 <= Year t /\
  Hour t = 0 /\ Minute t = 0 /\ Second t = 0 /\ Nanosecond t = 0.
Proof. apply ParsePortableDate_iff. Qed.

(** *** Date-times *)

Lemma stake_app n a b : String.length a = n -> stake n (a +:+ b) = a.
Proof. intros <-. induction a as [|c a IH]; [by destruct b|]. rewrite sapp_cons. simpl. by rewrite IH. Qed.

Lemma sdrop_app n a b : String.length a = n -> sdrop n (a +:+ b) = b.
Proof. intros <-. induction a as [|c a IH]; [done|]. rewrite sapp_cons. simpl. by rewrite IH. Qed.

Lemma byte_at_split i s c :
  byte_at i s = Some c -> s = stake i s +:+ String c (sdrop (S i) s).
Proof.
  unfold byte_at. revert i. induction s as [|d s IH]; intros i; [done|]. destruct i as [|i]; simpl.
  - intros [= ->]. done.
  - intros H. rewrite sapp_cons. f_equal. by apply IH.
Qed.

Lemma byte_at_app i a b : String.length a = i -> byte_at i (a +:+ b) = byte_at 0 b.
Proof. intros <-. unfold byte_at. induction a as [|c a IH]; [done|]. rewrite sapp_cons. simpl. done. Qed.

(** The text of a fraction of [k] digits. *)
Definition fraction_text (ds : string) : string :=
  if String.eqb ds EmptyString then EmptyString else String "." ds.

Lemma portable_fraction_spec tail k ns :
  portable_fraction tail = Some (k, ns) <->
  exists ds, tail = fraction_text ds /\ all_digits ds = true /\ k = slen ds /\ k <= 9 /\
             ns = digits_value ds * 10 ^ (9 - k).
Proof.
  unfold portable_fraction, ProtocolMaxTemporalFractionDigits, fraction_text. split.
  - destruct tail as [|c ds]; [intros [= <- <-]; by exists EmptyString|].
    destruct (Ascii.eqb_spec c ".") as [->|]; [|done]. cbn [negb].
    destruct ((slen ds =? 0) || (9 <? slen ds) || negb (decimalDigitsOnly ds)) eqn:E; [done|].
    intros [= <- <-]. exists ds. unfold decimalDigitsOnly in E.
    rewrite !orb_false_iff, negb_false_iff, andb_true_iff in E. destruct E as [[_ Hl] [Hne Hd]].
    apply negb_true_iff in Hne. apply Z.ltb_ge in Hl. rewrite Hne, digits_zeros, Z2Nat.id by lia. done.
  - intros (ds & -> & Hd & -> & Hk & ->). destruct (String.eqb_spec ds EmptyString) as [->|Hne]; [done|].
    cbn [Ascii.eqb Bool.eqb negb]. unfold decimalDigitsOnly. rewrite Hd, (proj2 (String.eqb_neq _ _) Hne).
    assert (slen ds <> 0) by (destruct ds; [done|rewrite slen_cons; pose proof (slen_nonneg ds); lia]).
    rewrite (proj2 (Z.eqb_neq _ _)), (proj2 (Z.ltb_ge _ _)) by lia. cbn [negb orb andb].
    rewrite digits_zeros, Z2Nat.id by lia. done.
Qed.

Lemma length_stake n s : (n <= String.length s)%nat -> String.length (stake n s) = n.
Proof. revert n. induction s as [|c s IH]; intros [|n]; simpl; try lia. intros. rewrite IH; lia. Qed.

Lemma byte_at_stake i n s : (i < n)%nat -> byte_at i (stake n s) = byte_at i s.
Proof.
  unfold byte_at. revert i n. induction s as [|c s IH]; intros [|i] [|n]; simpl; try done; try lia.
  intros. apply IH. lia.
Qed.

Lemma sdrop_all n s : (String.length s <= n)%nat -> sdrop n s = EmptyString.
Proof. revert n. induction s as [|c s IH]; intros [|n]; simpl; try done; try lia. intros. apply IH. lia. Qed.

Lemma last_byte_split s c :
  last_byte s = Some c <-> exists t, s = t +:+ String c EmptyString /\ t = stake (String.length s - 1) s.
Proof.
  split.
  - intros H. exists (stake (String.length s - 1) s). split; [|done].
    assert (Hb : byte_at (String.length s - 1) s = Some c) by (by destruct s).
    apply byte_at_split in Hb. rewrite (sdrop_all (S _)) in Hb by lia. done.
  - intros (t & -> & _). unfold last_byte.
    assert (Hl : String.length (t +:+ String c EmptyString) = S (String.length t)).
    { induction t as [|d t IH]; [done|]. rewrite sapp_cons. simpl. by rewrite IH. }
    destruct (t +:+ String c EmptyString) eqn:E; [done|]. rewrite <- E, Hl in *.
    rewrite byte_at_app by lia. done.
Qed.

Lemma length_app_s a b : String.length (a +:+ b) = (String.length a + String.length b)%nat.
Proof. induction a as [|c a IH]; [done|]. rewrite sapp_cons. simpl. by rewrite IH. Qed.

(** The text without its fraction and suffix. *)
Definition base_text (separator : ascii) (t : Time) : string :=
  format_date t +:+ String separator (format_clock t).

Lemma base_text_inv text separator t :
  (19 <= String.length text)%nat -> byte_at 10 text = Some separator ->
  format_date_time t = stake 10 (stake 19 text) +:+ " " +:+ sdrop 11 (stake 19 text) ->
  text = base_text separator t +:+ sdrop 19 text.
Proof.
  intros Hlen Hsep E. rewrite (stake_sdrop 19 text) at 1. f_equal.
  rewrite <- (byte_at_stake 10 19) in Hsep by lia. apply byte_at_split in Hsep.
  rewrite Hsep. unfold base_text, format_date_time in *.
  assert (Hl : String.length (stake 10 (stake 19 text)) = 10%nat) by (rewrite length_stake; [done|rewrite length_stake; lia]).
  assert (E1 := f_equal (stake 10) E). assert (E2 := f_equal (sdrop 10) E).
  rewrite !stake_app in E1 by done. rewrite !sdrop_app in E2 by done.
  rewrite sapp_cons, sapp_nil_l in E2. rewrite E1. f_equal. f_equal.
  rewrite sapp_cons, sapp_nil_l in E2. injection E2 as E2. done.
Qed.

Definition utc_suffix (utcSuffix : bool) : string := if utcSuffix then "Z" else EmptyString.

(** A portable date-time or timestamp is accepted exactly when it is the text of
    a civil time with a fraction of at most nine digits, which it is read as. *)
Lemma parsePortableDateTime_sound value separator utcSuffix t k :
  parsePortableDateTime value separator utcSuffix = Some (t, k) ->
  exists ds, value = base_text separator t +:+ fraction_text ds +:+ utc_suffix utcSuffix /\
    valid_civil t = true /\ 1 <= Year t /\ all_digits ds = true /\ k = slen ds /\ k <= 9 /\
    Nanosecond t = digits_value ds * 10 ^ (9 - k).
Proof.
  unfold parsePortableDateTime. intros H.
  destruct (utcSuffix && _) eqn:Hz; [done|].
  set (text := if utcSuffix then stake (String.length value - 1) value else value) in *.
  assert (Ev : value = text +:+ utc_suffix utcSuffix).
  { subst text. destruct utcSuffix; [|by rewrite sapp_nil_r]. simpl in Hz.
    apply negb_false_iff, bool_decide_eq_true, last_byte_split in Hz as (u & Hu & Hu'). by rewrite <- Hu'. }
  destruct (_ || _ || _ || _) eqn:Hg in H; [done|].
  rewrite !orb_false_iff, negb_false_iff, bool_decide_eq_true in Hg. destruct Hg as [[_ Hlen] Hsep].
  destruct (time_parse_date_time _) as [p|] eqn:Hp; [|done].
  destruct (_ || _ || _) eqn:Hf in H; [done|].
  rewrite !orb_false_iff, negb_false_iff, String.eqb_eq in Hf. destruct Hf as [[Hy _] Hf].
  destruct (portable_fraction (sdrop 19 text)) as [[k' ns]|] eqn:Hfr; [|done]. injection H as <- <-.
  apply portable_fraction_spec in Hfr as (ds & Etail & Hd & Hk & Hk9 & Hns).
  apply time_parse_date_time_valid in Hp. exists ds. simpl.
  apply Z.ltb_ge in Hlen, Hy. unfold slen in Hlen.
  pose proof (base_text_inv text separator p ltac:(lia) Hsep Hf) as Et.
  rewrite Ev at 1. rewrite Et, Etail, sapp_assoc. split_and!; try done.
Qed.

Lemma utc_suffix_guard body utcSuffix :
  utcSuffix && negb (bool_decide (last_byte (body +:+ utc_suffix utcSuffix) = Some "Z"%char)) = false.
Proof.
  destruct utcSuffix; [|done]. apply negb_false_iff, bool_decide_eq_true, last_byte_split.
  exists body. split; [done|]. cbn [utc_suffix]. rewrite length_app_s. simpl String.length.
  rewrite Nat.add_sub. by rewrite stake_app.
Qed.

Lemma utc_suffix_body body (utcSuffix : bool) :
  (if utcSuffix then stake (String.length (body +:+ utc_suffix utcSuffix) - 1) (body +:+ utc_suffix utcSuffix)
   else body +:+ utc_suffix utcSuffix) = body.
Proof.
  destruct utcSuffix; cbn [utc_suffix]; [|by rewrite sapp_nil_r].
  rewrite length_app_s. simpl String.length. rewrite Nat.add_sub. by rewrite stake_app.
Qed.

Lemma parsePortableDateTime_complete separator utcSuffix t ds :
  valid_civil t = true -> 1 <= Year t -> all_digits ds = true -> slen ds <= 9 ->
  Nanosecond t = digits_value ds * 10 ^ (9 - slen ds) ->
  parsePortableDateTime (base_text separator t +:+ fraction_text ds +:+ utc_suffix utcSuffix)
    separator utcSuffix = Some (t, slen ds).
Proof.
  intros Hv Hy Hd Hk Hns. unfold parsePortableDateTime.
  set (body := base_text separator t +:+ fraction_text ds).
  assert (Ev : base_text separator t +:+ fraction_text ds +:+ utc_suffix utcSuffix = body +:+ utc_suffix utcSuffix)
    by (subst body; by rewrite sapp_assoc).
  rewrite Ev. set (value := body +:+ utc_suffix utcSuffix).
  assert (Hbase : String.length (base_text separator t) = 19%nat) by done.
  assert (Hlast := utc_suffix_guard body utcSuffix). fold value in Hlast. rewrite Hlast.
  assert (Et := utc_suffix_body body utcSuffix). fold value in Et.
  rewrite Et. assert (Hf : slen (fraction_text ds) = if String.eqb ds EmptyString then 0 else 1 + slen ds).
  { unfold fraction_text. by destruct (String.eqb ds EmptyString); [|rewrite slen_cons]. }
  assert (Hbody : slen body = 19 + slen (fraction_text ds)).
  { subst body. rewrite slen_app. unfold slen at 1. rewrite Hbase. lia. }
  assert (Hval : slen value = slen body + (if utcSuffix then 1 else 0)).
  { subst value. rewrite slen_app. by destruct utcSuffix. }
  assert (H10 : byte_at 10 body = Some separator).
  { subst body. unfold base_text. rewrite sapp_assoc, byte_at_app by done. done. }
  destruct (_ || _ || _ || _) eqn:Hg.
  { exfalso. rewrite !orb_true_iff, negb_true_iff, bool_decide_eq_false, !Z.ltb_lt in Hg.
    unfold ProtocolMaxTemporalFractionDigits in Hg. pose proof (slen_nonneg ds).
    destruct (String.eqb ds EmptyString), utcSuffix; destruct Hg as [[[Hg|Hg]|Hg]|Hg]; try lia; by apply Hg. }
  assert (Eb : stake 19 body = base_text separator t) by (subst body; by rewrite stake_app).
  rewrite Eb. unfold base_text at 1 2. rewrite stake_app by done.
  assert (Ec : sdrop 11 (format_date t +:+ String separator (format_clock t)) = format_clock t) by done.
  rewrite Ec. fold (format_date_time t). rewrite time_parse_date_time_format by done.
  assert (Hyy : (Year t <? 1) || (9999 <? Year t) = false) by (unfold valid_civil in Hv; bool_prop; lia).
  cbn [Year]. rewrite Hyy.
  match goal with |- context [String.eqb ?a ?b] => assert (E : String.eqb a b = true) by apply String.eqb_refl end.
  rewrite E. cbn [negb orb].
  assert (Es : sdrop 19 body = fraction_text ds) by (subst body; by rewrite sdrop_app).
  rewrite Es, (proj2 (portable_fraction_spec _ (slen ds) (Nanosecond t))) by (by exists ds).
  by destruct t.
Qed.

(** A portable date-time or UTC timestamp is accepted exactly when it is the
    canonical text of a real civil time with a fraction of at most nine digits;
    the result carries that time, the number of digits written and the
    nanoseconds they denote. *)
Theorem parsePortableDateTime_exact value separator utcSuffix t k :
  parsePortableDateTime value separator utcSuffix = Some (t, k) <->
  exists ds, value = base_text separator t +:+ fraction_text ds +:+ utc_suffix utcSuffix /\
    valid_civil t = true /\ 1 <= Year t /\ all_digits ds = true /\ k = slen ds /\ k <= 9 /\
    Nanosecond t = digits_value ds * 10 ^ (9 - k).
Proof.
  split; [apply parsePortableDateTime_sound|].
  intros (ds & -> & Hv & Hy & Hd & -> & Hk & Hns). by apply parsePortableDateTime_complete.
Qed.
