(* ===== verification/Values.v ===== *)
(** Typed bind values (internal/queryspec/types.go, [TypedValue.BindValue]),
    with what they use of [encoding/json] ([json.Unmarshal] into a string and a
    boolean) and of [encoding/base64]. *)
From S2P Require Import Prelude GoJson Number Portable.
Local Open Scope string_scope.
Local Open Scope Z_scope.

(** ** json.Unmarshal of a string and of a boolean *)

Definition is_json_space (c : ascii) : bool :=
  let b := byte c in (b =? 32) || (b =? 9) || (b =? 10) || (b =? 13).

Definition json_trim (s : string) : string := trim_right_by is_json_space (trim_left_by is_json_space s).

Definition hex_value (code : Z) : option Z :=
  if between 48 code 57 then Some (code - 48)
  else if between 97 code 102 then Some (code - 87)
  else if between 65 code 70 then Some (code - 55)
  else None.

(** [getu4]: the four hexadecimal digits after [\u]. *)
Definition hex4 (a b c d : rune) : option Z :=
  match a, b, c, d with
  | Rune a _, Rune b _, Rune c _, Rune d _ =>
      a ← hex_value a; b ← hex_value b; c ← hex_value c; d ← hex_value d;
      Some (((a * 16 + b) * 16 + c) * 16 + d)
  | _, _, _, _ => None
  end.

Definition byte_of (z : Z) : ascii := ascii_of_N (Z.to_N z).

(** [utf8.EncodeRune] *)
Definition encode_rune (code : Z) : string :=
  if code <? 0x80 then String (byte_of code) EmptyString
  else if code <? 0x800 then
    String (byte_of (0xC0 + code / 64)) (String (byte_of (0x80 + code mod 64)) EmptyString)
  else if code <? 0x10000 then
    String (byte_of (0xE0 + code / 4096))
      (String (byte_of (0x80 + code / 64 mod 64)) (String (byte_of (0x80 + code mod 64)) EmptyString))
  else
    String (byte_of (0xF0 + code / 262144))
      (String (byte_of (0x80 + code / 4096 mod 64))
        (String (byte_of (0x80 + code / 64 mod 64)) (String (byte_of (0x80 + code mod 64)) EmptyString))).

Definition replacement_char : Z := 0xFFFD.
Definition is_surrogate (code : Z) : bool := between 0xD800 code 0xDFFF.

Definition simple_escape (code : Z) : option Z :=
  if (code =? 34) || (code =? 92) || (code =? 47) then Some code
  else if code =? 98 then Some 8 else if code =? 102 then Some 12
  else if code =? 110 then Some 10 else if code =? 114 then Some 13
  else if code =? 116 then Some 9 else None.

(** The rest of a string literal after its opening quote, up to the closing
    quote at the very end. *)
Fixpoint unquote (l : list rune) : option string :=
  match l with
  | [] => None
  | BadByte _ :: l' => append (encode_rune replacement_char) <$> unquote l'
  | Rune code bytes :: l' =>
      if code =? 34 then match l' with [] => Some EmptyString | _ => None end
      else if code <? 32 then None
      else if negb (code =? 92) then append bytes <$> unquote l'
      else
        match l' with
        | Rune code' _ :: l1 =>
            if negb (code' =? 117) then
              c ← simple_escape code'; append (encode_rune c) <$> unquote l1
            else
              match l1 with
              | a :: b :: c :: d :: l2 =>
                  rr ← hex4 a b c d;
                  if negb (is_surrogate rr) then append (encode_rune rr) <$> unquote l2
                  else
                    match l2 with
                    | Rune 92 _ :: Rune 117 _ :: a' :: b' :: c' :: d' :: l3 =>
                        match hex4 a' b' c' d' with
                        | Some rr1 =>
                            if (rr <? 0xDC00) && between 0xDC00 rr1 0xDFFF then
                              append (encode_rune ((rr - 0xD800) * 1024 + (rr1 - 0xDC00) + 0x10000)) <$> unquote l3
                            else append (encode_rune replacement_char) <$> unquote l2
                        | None => append (encode_rune replacement_char) <$> unquote l2
                        end
                    | _ => append (encode_rune replacement_char) <$> unquote l2
                    end
              | _ => None
              end
        | _ => None
        end
  end.

(** [json.Unmarshal(raw, &text)] with [text] a [string], and with a [bool];
    JSON null leaves the zero value. *)
Definition unmarshal_string (raw : string) : option string :=
  let text := json_trim raw in
  if String.eqb text "null" then Some EmptyString
  else match runes text with
       | Rune 34 _ :: l => unquote l
       | _ => None
       end.

Definition unmarshal_bool (raw : string) : option bool :=
  let text := json_trim raw in
  if String.eqb text "true" then Some true
  else if String.eqb text "false" || String.eqb text "null" then Some false
  else None.

(** ** encoding/base64: the standard alphabet *)

Definition base64_digit (n : Z) : ascii :=
  byte_of (if n <? 26 then 65 + n else if n <? 52 then 71 + n else if n <? 62 then n - 4
           else if n =? 62 then 43 else 47).

Definition base64_value (c : ascii) : option Z :=
  let b := byte c in
  if between 65 b 90 then Some (b - 65)
  else if between 97 b 122 then Some (b - 71)
  else if between 48 b 57 then Some (b + 4)
  else if b =? 43 then Some 62
  else if b =? 47 then Some 63
  else None.

(** [EncodeToString] *)
Fixpoint base64_encode (s : string) : string :=
  match s with
  | EmptyString => EmptyString
  | String a EmptyString =>
      let a := byte a in
      String (base64_digit (a / 4)) (String (base64_digit (a mod 4 * 16)) "==")
  | String a (String b EmptyString) =>
      let a := byte a in let b := byte b in
      String (base64_digit (a / 4)) (String (base64_digit (a mod 4 * 16 + b / 16))
        (String (base64_digit (b mod 16 * 4)) "="))
  | String a (String b (String c r)) =>
      let a := byte a in let b := byte b in let c := byte c in
      String (base64_digit (a / 4)) (String (base64_digit (a mod 4 * 16 + b / 16))
        (String (base64_digit (b mod 16 * 4 + c / 64)) (String (base64_digit (c mod 64)) (base64_encode r))))
  end.

Fixpoint without_newlines (s : string) : string :=
  match s with
  | EmptyString => EmptyString
  | String c r =>
      if (byte c =? 10) || (byte c =? 13) then without_newlines r else String c (without_newlines r)
  end.

(** [Strict().DecodeString] on the text without its line breaks: groups of four,
    padding only at the end, and the unused bits of the last digit zero. *)
Fixpoint base64_groups (s : string) : option string :=
  match s with
  | EmptyString => Some EmptyString
  | String w (String x (String y (String z r))) =>
      w ← base64_value w; x ← base64_value x;
      let first := byte_of (w * 4 + x / 16) in
      if Ascii.eqb y "=" then
        if Ascii.eqb z "=" && String.eqb r EmptyString && (x mod 16 =? 0) then Some (String first EmptyString)
        else None
      else
        y ← base64_value y;
        let second := byte_of (x mod 16 * 16 + y / 4) in
        if Ascii.eqb z "=" then
          if String.eqb r EmptyString && (y mod 4 =? 0) then Some (String first (String second EmptyString))
          else None
        else
          z ← base64_value z;
          String first ∘ String second ∘ String (byte_of (y mod 4 * 64 + z)) <$> base64_groups r
  | _ => None
  end.

Definition base64_decode (s : string) : option string := base64_groups (without_newlines s).

(** ** uuidPattern *)

Definition is_hex (c : ascii) : bool := is_digit c || in_range "a" "f" c || in_range "A" "F" c.

(** The pattern's character classes, one per position. *)
Definition uuid_classes : list (ascii -> bool) :=
  let h := is_hex in let d := Ascii.eqb "-" in
  [h; h; h; h; h; h; h; h; d; h; h; h; h; d; in_range "1" "8"; h; h; h; d;
   fun c => existsb (Ascii.eqb c) ["8"; "9"; "a"; "b"; "A"; "B"]%char; h; h; h; d;
   h; h; h; h; h; h; h; h; h; h; h; h].

Fixpoint match_classes (l : list (ascii -> bool)) (s : string) : bool :=
  match l, s with
  | [], EmptyString => true
  | p :: l', String c s' => p c && match_classes l' s'
  | _, _ => false
  end.

Definition uuidPattern (s : string) : bool := match_classes uuid_classes s.

(** ** TypedValue and BindValue *)

(** [tv_value] is [nil] when the JSON object had no value. *)
Record TypedValue := { tv_type : string; tv_value : option string }.

#[export] Instance TypedValue_eq_dec : EqDecision TypedValue.
Proof. solve_decision. Defined.

(** What is bound to a placeholder: the dynamic types of the returned [any]. *)
Inductive Bind : Type :=
| BindBool (b : bool)
| BindInt (z : Z)
| BindString (s : string)
| BindBytes (s : string).

#[export] Instance Bind_eq_dec : EqDecision Bind.
Proof. solve_decision. Defined.

Definition option_err {A} (o : option A) (message : string) : result A :=
  match o with Some a => Ok a | None => Err (ErrorString message) end.

Definition TypedValue_BindValue (v : TypedValue) : result Bind :=
  match tv_value v with
  | None => Err (ErrorString "value is required")
  | Some raw =>
      let rawValue := trim_space raw in
      if? String.eqb rawValue "null"
      return ErrorString "typed bind values do not accept JSON null; use is_null or is_not_null" then
      if String.eqb (tv_type v) "boolean" then
        let? value := option_err (unmarshal_bool raw) "boolean type requires a JSON boolean" in
        Ok (BindBool value)
      else if String.eqb (tv_type v) "integer" then
        match parseJSONInteger rawValue with
        | Ok value => Ok (BindInt value)
        | Err _ => Err (ErrorString "integer type requires an integral JSON number in the signed 64-bit range")
        end
      else if String.eqb (tv_type v) "decimal" then
        match unmarshal_string raw with
        | Some text =>
            if? negb (decimalPattern text)
            return ErrorString "decimal string requires a finite fixed-point base-10 number" then
            Ok (BindString text)
        | None =>
            if? negb (jsonNumberPattern rawValue)
            return ErrorString "decimal type requires a finite JSON number or fixed-point string" then
            Ok (BindString rawValue)
        end
      else if String.eqb (tv_type v) "string" then
        let? value := option_err (unmarshal_string raw) "string type requires a JSON string" in
        Ok (BindString value)
      else if String.eqb (tv_type v) "uuid" then
        match unmarshal_string raw with
        | Some value =>
            if? negb (uuidPattern value) return ErrorString "uuid type requires a canonical UUID string" then
            Ok (BindString value)
        | None => Err (ErrorString "uuid type requires a canonical UUID string")
        end
      else if String.eqb (tv_type v) "date" then
        let? value := option_err (unmarshal_string raw) "date type requires a JSON string" in
        match ParsePortableDate value with
        | None => Err (ErrorString "date must use YYYY-MM-DD")
        | Some _ => Ok (BindString value)
        end
      else if String.eqb (tv_type v) "datetime" then
        let? value := option_err (unmarshal_string raw) "datetime type requires a JSON string" in
        if? negb (validateRFC3339DateTime value) return ErrorString "datetime must use RFC 3339" then
        Ok (BindString value)
      else if String.eqb (tv_type v) "bytes" then
        let? value := option_err (unmarshal_string raw) "bytes type requires a base64 JSON string" in
        match base64_decode value with
        | Some decoded =>
            if? negb (String.eqb (base64_encode decoded) value)
            return ErrorString "bytes must use canonical standard base64 encoding" then
            Ok (BindBytes decoded)
        | None => Err (ErrorString "bytes must use canonical standard base64 encoding")
        end
      else Err (ErrorString "contains an unsupported type")
  end.

(** The JSON text of a string, for the examples and witnesses. *)
Definition quoted (s : string) : string := dquote +:+ s +:+ dquote.

Example bind_forms :
  map (fun '(t, v) => TypedValue_BindValue {| tv_type := t; tv_value := Some v |})
    [("boolean", " true"); ("integer", "1.50e1"); ("decimal", quoted "1.50"); ("decimal", "1e5");
     ("string", quoted (String backslash "u00e9")); ("date", quoted "2024-02-29"); ("bytes", quoted "Zm9v");
     ("uuid", quoted "123e4567-e89b-12d3-a456-426614174000"); ("string", " null ")]
  = [Ok (BindBool true); Ok (BindInt 15); Ok (BindString "1.50"); Ok (BindString "1e5");
     Ok (BindString (encode_rune 0xe9)); Ok (BindString "2024-02-29"); Ok (BindBytes "foo");
     Ok (BindString "123e4567-e89b-12d3-a456-426614174000");
     Err (ErrorString "typed bind values do not accept JSON null; use is_null or is_not_null")].
Proof. vm_compute. reflexivity. Qed.

(** ** base64: encoding is decoded back, and only it is accepted *)

Lemma base64_digit_spec n : 0 <= n < 64 ->
  base64_value (base64_digit n) = Some n /\ Ascii.eqb (base64_digit n) "=" = false /\
  (byte (base64_digit n) =? 10) || (byte (base64_digit n) =? 13) = false.
Proof.
  intros H.
  assert (Hall : forallb (fun k => let n := Z.of_nat k in
     bool_decide (base64_value (base64_digit n) = Some n) && negb (Ascii.eqb (base64_digit n) "=") &&
     negb ((byte (base64_digit n) =? 10) || (byte (base64_digit n) =? 13))) (seq 0 64) = true)
    by (vm_compute; reflexivity).
  rewrite forallb_forall in Hall. specialize (Hall (Z.to_nat n)). cbv zeta in Hall.
  rewrite Z2Nat.id in Hall by lia.
  rewrite !andb_true_iff, bool_decide_eq_true, !negb_true_iff in Hall.
  destruct Hall as [[H1 H2] H3]; [apply in_seq; lia|done].
Qed.

Lemma byte_bounds c : 0 <= byte c < 256.
Proof. unfold byte. pose proof (N_ascii_bounded c). lia. Qed.

Lemma byte_of_byte c : byte_of (byte c) = c.
Proof. unfold byte_of, byte. by rewrite N2Z.id, ascii_N_embedding. Qed.

Lemma byte_of_eq z c : z = byte c -> byte_of z = c.
Proof. intros ->. apply byte_of_byte. Qed.

(** Strings by groups of three bytes. *)
Lemma string_ind3 (P : string -> Prop) :
  P EmptyString -> (forall a, P (String a EmptyString)) ->
  (forall a b, P (String a (String b EmptyString))) ->
  (forall a b c r, P r -> P (String a (String b (String c r)))) -> forall s, P s.
Proof.
  intros H0 H1 H2 H3. fix IH 1. intros [|a [|b [|c r]]]; [done|apply H1|apply H2|apply H3, IH].
Qed.

Lemma base64_encode_3 a b c r :
  base64_encode (String a (String b (String c r))) =
  String (base64_digit (byte a / 4)) (String (base64_digit (byte a mod 4 * 16 + byte b / 16))
    (String (base64_digit (byte b mod 16 * 4 + byte c / 64)) (String (base64_digit (byte c mod 64)) (base64_encode r)))).
Proof. done. Qed.

Ltac base64_digit n :=
  let H1 := fresh in let H2 := fresh in let H3 := fresh in
  destruct (base64_digit_spec n) as (H1 & H2 & H3); [div_lia|].

Lemma base64_no_newlines s : without_newlines (base64_encode s) = base64_encode s.
Proof.
  induction s as [|a|a b|a b c r IH] using string_ind3; [done| | |];
    pose proof (byte_bounds a); try pose proof (byte_bounds b); try pose proof (byte_bounds c).
  - base64_digit (byte a / 4). base64_digit (byte a mod 4 * 16). cbn [base64_encode without_newlines].
    by repeat match goal with H : _ || _ = false |- _ => rewrite H; clear H end.
  - base64_digit (byte a / 4). base64_digit (byte a mod 4 * 16 + byte b / 16).
    base64_digit (byte b mod 16 * 4). cbn [base64_encode without_newlines].
    by repeat match goal with H : _ || _ = false |- _ => rewrite H; clear H end.
  - base64_digit (byte a / 4). base64_digit (byte a mod 4 * 16 + byte b / 16).
    base64_digit (byte b mod 16 * 4 + byte c / 64). base64_digit (byte c mod 64).
    rewrite base64_encode_3. cbn [without_newlines].
    repeat match goal with H : _ || _ = false |- _ => rewrite H; clear H end. by rewrite IH.
Qed.

Lemma base64_groups_encode s : base64_groups (base64_encode s) = Some s.
Proof.
  induction s as [|a|a b|a b c r IH] using string_ind3; [done| | |];
    pose proof (byte_bounds a); try pose proof (byte_bounds b); try pose proof (byte_bounds c).
  - base64_digit (byte a / 4). base64_digit (byte a mod 4 * 16). cbn [base64_encode base64_groups].
    repeat match goal with H : base64_value _ = _ |- _ => rewrite H; clear H; simpl end.
    rewrite (proj2 (Z.eqb_eq _ _)) by div_lia. simpl. do 2 f_equal. apply byte_of_eq. div_lia.
  - base64_digit (byte a / 4). base64_digit (byte a mod 4 * 16 + byte b / 16).
    base64_digit (byte b mod 16 * 4). cbn [base64_encode base64_groups].
    repeat match goal with H : Ascii.eqb _ "=" = _ |- _ => rewrite ?H; clear H end.
    repeat match goal with H : base64_value _ = _ |- _ => rewrite H; clear H; simpl end.
    rewrite (proj2 (Z.eqb_eq _ _)) by div_lia. simpl.
    f_equal. f_equal; [apply byte_of_eq; div_lia|]. f_equal. apply byte_of_eq. div_lia.
  - base64_digit (byte a / 4). base64_digit (byte a mod 4 * 16 + byte b / 16).
    base64_digit (byte b mod 16 * 4 + byte c / 64). base64_digit (byte c mod 64).
    rewrite base64_encode_3. cbn [base64_groups].
    repeat match goal with H : Ascii.eqb _ "=" = _ |- _ => rewrite ?H; clear H end.
    repeat match goal with H : base64_value _ = _ |- _ => rewrite H; clear H; cbn [mbind option_bind] end.
    rewrite IH. simpl. f_equal.
    f_equal; [apply byte_of_eq; div_lia|]. f_equal; [apply byte_of_eq; div_lia|]. f_equal. apply byte_of_eq. div_lia.
Qed.

Lemma base64_decode_encode s : base64_decode (base64_encode s) = Some s.
Proof. unfold base64_decode. by rewrite base64_no_newlines, base64_groups_encode. Qed.

(** ** What each type accepts *)

(** [binds ty raw b]: the JSON text [raw] writes a value of type [ty], and [b]
    is that value. *)
Inductive binds : string -> string -> Bind -> Prop :=
| binds_boolean raw (b : bool) :
    json_trim raw = (if b then "true" else "false") -> binds "boolean" raw (BindBool b)
| binds_integer raw n z :
    wf_number n = true -> trim_space raw = print_number n -> denotes n z -> in_int64 z ->
    binds "integer" raw (BindInt z)
| binds_decimal_text raw text :
    unmarshal_string raw = Some text -> decimalPattern text = true -> binds "decimal" raw (BindString text)
| binds_decimal_number raw n :
    unmarshal_string raw = None -> wf_number n = true -> trim_space raw = print_number n ->
    binds "decimal" raw (BindString (print_number n))
| binds_string raw text : unmarshal_string raw = Some text -> binds "string" raw (BindString text)
| binds_uuid raw text :
    unmarshal_string raw = Some text -> uuidPattern text = true -> binds "uuid" raw (BindString text)
| binds_date raw t :
    unmarshal_string raw = Some (format_date t) -> valid_civil t = true -> 1 <= Year t ->
    binds "date" raw (BindString (format_date t))
| binds_datetime raw text :
    unmarshal_string raw = Some text -> validateRFC3339DateTime text = true ->
    binds "datetime" raw (BindString text)
| binds_bytes raw bytes :
    unmarshal_string raw = Some (base64_encode bytes) -> binds "bytes" raw (BindBytes bytes).

Lemma is_json_space_is_space c : is_json_space c = true -> is_space c = true.
Proof.
  assert (H : all_bytes (fun c => implb (is_json_space c) (is_space c)) = true) by (vm_compute; reflexivity).
  intros Hc. pose proof (all_bytes_spec _ H c) as Hi. cbv beta in Hi. by rewrite Hc in Hi.
Qed.

Lemma json_trim_null raw : json_trim raw = "null" -> trim_space raw = "null".
Proof. intros H. by apply (trim_by_weaken is_json_space is_space raw "null" is_json_space_is_space H). Qed.

Lemma unmarshal_bool_spec raw b : trim_space raw <> "null" ->
  unmarshal_bool raw = Some b <-> json_trim raw = (if b then "true" else "false").
Proof.
  intros Hn. unfold unmarshal_bool. assert (json_trim raw <> "null") by eauto using json_trim_null.
  rewrite (proj2 (String.eqb_neq _ "null")), orb_false_r by done.
  destruct (String.eqb_spec (json_trim raw) "true") as [E|E].
  { rewrite E. destruct b; [done|]. split; intros ?; discriminate. }
  destruct (String.eqb_spec (json_trim raw) "false") as [E'|E'].
  { rewrite E'. destruct b; [|done]. split; intros ?; discriminate. }
  split; [done|]. destruct b; intros ?; contradiction.
Qed.

Lemma option_err_ok {A} (o : option A) m a : option_err o m = Ok a <-> o = Some a.
Proof. destruct o; simpl; naive_solver. Qed.

Lemma integer_value raw z :
  parseJSONInteger (trim_space raw) = Ok z <->
  exists n, wf_number n = true /\ trim_space raw = print_number n /\ denotes n z /\ in_int64 z.
Proof. by rewrite parseJSONInteger_iff, trim_space_idem. Qed.

(** [string_eqb_tac] decides the comparisons of a type name with the known types. *)
Ltac string_eqb_tac :=
  repeat match goal with
  | H : context [String.eqb ?a ?b] |- _ => destruct (String.eqb_spec a b)
  end.

Lemma BindValue_sound v b :
  TypedValue_BindValue v = Ok b ->
  exists raw, tv_value v = Some raw /\ trim_space raw <> "null" /\ binds (tv_type v) raw b.
Proof.
  destruct v as [ty [raw|]]; unfold TypedValue_BindValue; cbn [tv_type tv_value]; [|done].
  destruct (String.eqb_spec (trim_space raw) "null") as [|Hn]; [done|].
  intros H. exists raw. split_and!; [done..|].
  destruct (String.eqb_spec ty "boolean") as [->|].
  { err_inv. apply option_err_ok, unmarshal_bool_spec in H0; [|done]. subst. by constructor. }
  destruct (String.eqb_spec ty "integer") as [->|].
  { destruct (parseJSONInteger _) as [z|] eqn:E; [|done]. injection H as <-.
    apply integer_value in E as (m & ? & ? & ? & ?). by apply (binds_integer raw m). }
  destruct (String.eqb_spec ty "decimal") as [->|].
  { destruct (unmarshal_string raw) as [t|] eqn:E; err_inv; subst; apply negb_false_iff in H0.
    - by constructor.
    - apply jsonNumberPattern_spec in H0 as (m & ? & E'). rewrite E'. by apply binds_decimal_number. }
  destruct (String.eqb_spec ty "string") as [->|].
  { err_inv. apply option_err_ok in H0. subst. by constructor. }
  destruct (String.eqb_spec ty "uuid") as [->|].
  { destruct (unmarshal_string raw) as [t|] eqn:E; err_inv; subst. apply negb_false_iff in H0. by constructor. }
  destruct (String.eqb_spec ty "date") as [->|].
  { err_inv. apply option_err_ok in H0. destruct (ParsePortableDate _) as [t|] eqn:E; [|done].
    injection H as <-. apply ParsePortableDate_iff in E as (-> & ? & ? & _). by constructor. }
  destruct (String.eqb_spec ty "datetime") as [->|].
  { err_inv. apply option_err_ok in H0. apply negb_false_iff in H1. subst. by constructor. }
  destruct (String.eqb_spec ty "bytes") as [->|]; [|done].
  err_inv. apply option_err_ok in H0. destruct (base64_decode _) as [d|]; err_inv.
  apply negb_false_iff, String.eqb_eq in H1. subst. by constructor.
Qed.

Definition midnight (t : Time) : Time := {|
  Year := Year t; Month := Month t; Day := Day t; Hour := 0; Minute := 0; Second := 0; Nanosecond := 0 |}.

Lemma ParsePortableDate_format t : valid_civil t = true -> 1 <= Year t ->
  ParsePortableDate (format_date t) = Some (midnight t).
Proof.
  intros Hv Hy. apply ParsePortableDate_iff. split_and!; try done.
  unfold valid_civil in *; simpl. bool_prop. lia.
Qed.

Lemma BindValue_complete ty raw b :
  trim_space raw <> "null" -> binds ty raw b ->
  TypedValue_BindValue {| tv_type := ty; tv_value := Some raw |} = Ok b.
Proof.
  intros Hn H. unfold TypedValue_BindValue; cbn [tv_type tv_value].
  rewrite (proj2 (String.eqb_neq _ _) Hn).
  destruct H as [raw b H|raw n z Hw Hp Hd Hr|raw t H1 H2|raw n H1 H2 H3|raw t H|raw t H1 H2|raw t H1 H2 H3
                |raw t H1 H2|raw d H].
  - apply unmarshal_bool_spec in H; [|done]. by rewrite H.
  - change (String.eqb "integer" "boolean") with false. change (String.eqb "integer" "integer") with true.
    cbv iota. by rewrite (proj2 (integer_value raw z)) by eauto.
  - simpl. by rewrite H1, H2.
  - simpl. rewrite H1, H3, (proj2 (jsonNumberPattern_spec _)) by eauto. done.
  - simpl. by rewrite H.
  - simpl. by rewrite H1, H2.
  - simpl. by rewrite H1; simpl; rewrite ParsePortableDate_format.
  - simpl. by rewrite H1; simpl; rewrite H2.
  - simpl. by rewrite H; simpl; rewrite base64_decode_encode, String.eqb_refl.
Qed.

(** [BindValue] is exact for every type. It binds [b] just when the JSON text
    is a non-null value of the declared type, with [b] the value it denotes: an
    integer exactly in the signed 64-bit range, a date only in its canonical
    form, bytes only in canonical base64; every other text is refused. *)
Theorem BindValue_exact v b :
  TypedValue_BindValue v = Ok b <->
  exists raw, tv_value v = Some raw /\ trim_space raw <> "null" /\ binds (tv_type v) raw b.
Proof.
  split; [apply BindValue_sound|]. intros (raw & Hv & Hn & Hb).
  destruct v as [ty val]; cbn [tv_type tv_value] in *. subst. by apply BindValue_complete.
Qed.
