(* ===== verification/QuerySpec.v ===== *)
(** Query specifications (internal/queryspec/types.go, representation.go and
    shape.go): the data of a select request, [Validate] and [Revalidate], the
    limits they enforce, and what an accepted query satisfies. *)
From S2P Require Import Prelude Domain GoJson Number Portable Values.
Local Open Scope string_scope.
Local Open Scope Z_scope.

(** ** Protocol limits and data *)

Definition defaultLimit : Z := 100.
Definition ProtocolMaxIdentifierBytes : Z := 128.
Definition ProtocolMaxProjectionFields : Z := 100.
Definition ProtocolMaxGroupByFields : Z := 100.
Definition ProtocolMaxOrderByFields : Z := 100.
Definition ProtocolMaxFilterItems : Z := 200.
Definition ProtocolMaxRows : Z := 1000000.
Definition ProtocolMaxOffset : Z := 1000000000.

Record ResourceRef := { r_schema : string; r_name : string }.

Record Selection := {
  s_representation : string; s_kind : string; s_field : string; s_function : string; s_alias : string;
}.

(** [Values] is [None] when the slice is [nil]: [validateFilter] tells a missing
    list of values from an empty one. *)
Inductive Filter : Type := MkFilter {
  f_representation : string;
  f_kind : string;
  f_field : string;
  f_operator : string;
  f_values : option (list TypedValue);
  f_expressions : list Filter;
}.

Record Sort := { o_representation : string; o_field : string; o_direction : string }.

Record Spec := {
  q_source : ResourceRef;
  q_projection : list Selection;
  q_filter : option Filter;
  q_group_by : list string;
  q_order_by : list Sort;
  q_limit : option Z;
  q_offset : option Z;
}.

Record NormalizedSpec := {
  n_source : ResourceRef;
  n_projection : list Selection;
  n_filter : option Filter;
  n_group_by : list string;
  n_order_by : list Sort;
  n_limit : Z;
  n_offset : Z;
}.

Record Stats := { Predicates : Z; ExpressionDepth : Z; Parameters : Z }.

Record Validated := { v_spec : NormalizedSpec; v_stats : Stats; v_valid : bool }.

#[export] Instance ResourceRef_eq_dec : EqDecision ResourceRef.
Proof. solve_decision. Defined.
#[export] Instance Selection_eq_dec : EqDecision Selection.
Proof. solve_decision. Defined.
#[export] Instance Sort_eq_dec : EqDecision Sort.
Proof. solve_decision. Defined.

(** [len(filter.Values)]: a nil slice has length 0. *)
Definition values_of (f : Filter) : list TypedValue := default [] (f_values f).

(** ** Paths of validation errors *)

Definition indexed (path : string) (i : Z) : string := path +:+ "[" +:+ itoa i +:+ "]".
Definition validationError (path message : string) : goerr := ValidationError path message.

(** ** Identifiers and representations *)

Definition is_identifier_start (c : ascii) : bool := is_alpha c || Ascii.eqb c "_".
Definition is_identifier_char (c : ascii) : bool := is_identifier_start c || is_digit c.

Definition identifierPattern (s : string) : bool :=
  match s with
  | String c r => is_identifier_start c && sforall is_identifier_char r
  | EmptyString => false
  end.

Definition validateIdentifier (path value : string) : error :=
  if? String.eqb value EmptyString return validationError path "must not be empty" then
  if? ProtocolMaxIdentifierBytes <? slen value return validationError path "exceeds 128 bytes" then
  if? negb (identifierPattern value) return validationError path "must be a portable SQL identifier" then
  nil_error.

Definition IsIdentifier (value : string) : bool := is_ok (validateIdentifier "identifier" value).

Definition RepresentationSourceText : string := "source_text".
Definition Representation_Valid (r : string) : bool :=
  String.eqb r EmptyString || String.eqb r RepresentationSourceText.

Definition validateRepresentation (path r : string) : error :=
  if? negb (Representation_Valid r)
  return validationError (path +:+ ".representation") "must be source_text when present" then
  nil_error.

(** ** Selections *)

Definition nonempty (s : string) : bool := negb (String.eqb s EmptyString).

Definition validateSelection (path : string) (selection : Selection) : error :=
  check? validateRepresentation path (s_representation selection) then
  if? negb (String.eqb (s_kind selection) "field") && nonempty (s_representation selection)
  return validationError path "representation requires a field" then
  check?
    (if String.eqb (s_kind selection) "field" then
       if? nonempty (s_function selection)
       return validationError (path +:+ ".function") "is only valid for aggregate selections" then
       validateIdentifier (path +:+ ".field") (s_field selection)
     else if String.eqb (s_kind selection) "aggregate" then
       if String.eqb (s_function selection) "count" then
         if nonempty (s_field selection) then validateIdentifier (path +:+ ".field") (s_field selection)
         else nil_error
       else if contains ["min"; "max"; "sum"; "avg"] (s_function selection) then
         validateIdentifier (path +:+ ".field") (s_field selection)
       else Err (validationError (path +:+ ".function") "contains an unsupported aggregate")
     else Err (validationError (path +:+ ".kind") "must be field or aggregate"))
  then
  if nonempty (s_alias selection) then validateIdentifier (path +:+ ".alias") (s_alias selection)
  else nil_error.

(** ** Filters *)

Record filterValidationLimits := { maxPredicates : Z; maxDepth : Z; maxParameters : Z }.

(** How many values an operator takes: -1 for one or more. *)
Definition expected_values (operator : string) : option Z :=
  if contains ["eq"; "ne"; "lt"; "lte"; "gt"; "gte"; "like"] operator then Some 1
  else if contains ["in"; "not_in"] operator then Some (-1)
  else if contains ["is_null"; "is_not_null"] operator then Some 0
  else None.

(** [Error()] of the errors that [BindValue] returns. *)
Definition error_text (e : goerr) : string :=
  match e with ErrorString m => m | ValidationError p m => p +:+ ": " +:+ m | Denial r => r | DatabaseError k => k end.

Definition validateValue (path : string) (filter : Filter) (i : Z) (value : TypedValue) : error :=
  if? String.eqb (f_representation filter) RepresentationSourceText && negb (String.eqb (tv_type value) "string")
  return validationError (path +:+ ".values") "source_text requires string values" then
  match TypedValue_BindValue value with
  | Ok _ => nil_error
  | Err e => Err (validationError (indexed (path +:+ ".values") i) (error_text e))
  end.

(** [stats] is the struct that the Go code mutates through its pointer. *)
Fixpoint validateFilter (path : string) (filter : Filter) (depth : Z) (stats : Stats)
    (limits : filterValidationLimits) : result Stats :=
  check? validateRepresentation path (f_representation filter) then
  if? negb (String.eqb (f_kind filter) "predicate") && nonempty (f_representation filter)
  return validationError path "representation requires a predicate" then
  if? maxDepth limits <? depth
  return validationError path "exceeds the effective expression depth limit" then
  let stats := {| Predicates := Predicates stats; ExpressionDepth := Z.max (ExpressionDepth stats) depth;
                  Parameters := Parameters stats |} in
  if String.eqb (f_kind filter) "predicate" then
    if? negb (len (f_expressions filter) =? 0)
    return validationError (path +:+ ".expressions") "is only valid for filter groups" then
    if? ProtocolMaxFilterItems <? len (values_of filter)
    return validationError (path +:+ ".values") "exceeds the protocol array limit" then
    check? validateIdentifier (path +:+ ".field") (f_field filter) then
    match expected_values (f_operator filter) with
    | None => Err (validationError (path +:+ ".operator") "contains an unsupported operator")
    | Some expectedValues =>
        match f_values filter with
        | None => Err (validationError (path +:+ ".values") "is required")
        | Some values =>
            if? (0 <=? expectedValues) && negb (len values =? expectedValues)
            return validationError (path +:+ ".values") ("must contain " +:+ itoa expectedValues +:+ " values") then
            if? (expectedValues =? -1) && (len values =? 0)
            return validationError (path +:+ ".values") "must contain at least one value" then
            if? maxPredicates limits <=? Predicates stats
            return validationError path "exceeds the effective predicate limit" then
            if? maxParameters limits - len values <? Parameters stats
            return validationError (path +:+ ".values") "exceeds the effective parameter limit" then
            check? each (validateValue path filter) values then
            Ok {| Predicates := Predicates stats + 1; ExpressionDepth := ExpressionDepth stats;
                  Parameters := Parameters stats + len values |}
        end
    end
  else if String.eqb (f_kind filter) "group" then
    if? nonempty (f_field filter) || match f_values filter with None => false | Some _ => true end
    return validationError path "group must not contain field or values" then
    if? ProtocolMaxFilterItems <? len (f_expressions filter)
    return validationError (path +:+ ".expressions") "exceeds the protocol array limit" then
    if? negb (contains ["and"; "or"] (f_operator filter))
    return validationError (path +:+ ".operator") "must be and or or" then
    if? len (f_expressions filter) <? 2
    return validationError (path +:+ ".expressions") "must contain at least two expressions" then
    iter_from (fun i expression stats =>
      validateFilter (indexed (path +:+ ".expressions") i) expression (depth + 1) stats limits)
      0 (f_expressions filter) stats
  else Err (validationError (path +:+ ".kind") "must be predicate or group").

(** ** Grouping *)

Definition containsIdentifier (identifiers : list string) (value : string) : bool :=
  existsb (fun identifier => equal_fold identifier value) identifiers.

Definition is_aggregate (s : Selection) : bool := String.eqb (s_kind s) "aggregate".

Definition go_quote (s : string) : string := dquote +:+ s +:+ dquote.

Definition validateGroupedShape (projection : list Selection) (groupBy : list string) (orderBy : list Sort)
  : error :=
  let hasAggregate := existsb is_aggregate projection in
  let fields := map s_field (List.filter (fun s => negb (is_aggregate s)) projection) in
  if? hasAggregate && (len groupBy =? 0) && negb (len fields =? 0)
  return validationError "query.projection"
    "non-aggregate fields require query.group_by when aggregates are projected" then
  check?
    (if negb (len groupBy =? 0) || hasAggregate then
       each (fun _ selection =>
         if? nonempty (s_representation selection)
         return validationError "query.projection" "source_text is unsupported in legacy grouped EXPLAIN" then
         nil_error) projection
     else nil_error) then
  if (len groupBy =? 0) && negb hasAggregate then nil_error
  else
  check?
    each (fun _ field =>
      if? negb (existsb (fun groupField => equal_fold field groupField) groupBy)
      return validationError "query.projection" ("field " +:+ go_quote field +:+ " must be listed in query.group_by")
      then nil_error) fields then
  each (fun i sort =>
    if? negb (containsIdentifier groupBy (o_field sort))
    return validationError (indexed "query.order_by" i +:+ ".field")
      "must be listed in query.group_by for a grouped or aggregate query"
    then nil_error) orderBy.

(** ** Copies *)

(** [append(json.RawMessage(nil), value...)] of an empty value is [nil]. *)
Definition clone_raw (raw : option string) : option string :=
  match raw with Some EmptyString => None | _ => raw end.

Definition cloneTypedValues (values : option (list TypedValue)) : option (list TypedValue) :=
  map (fun v => {| tv_type := tv_type v; tv_value := clone_raw (tv_value v) |}) <$> values.

Fixpoint clone_filter (f : Filter) : Filter :=
  {| f_representation := f_representation f; f_kind := f_kind f; f_field := f_field f;
     f_operator := f_operator f; f_values := cloneTypedValues (f_values f);
     f_expressions := map clone_filter (f_expressions f) |}.

Definition cloneFilter (f : option Filter) : option Filter := clone_filter <$> f.

(** ** Validate *)

Definition validateSort (i : Z) (sort : Sort) : error :=
  let path := indexed "query.order_by" i in
  check? validateRepresentation path (o_representation sort) then
  check? validateIdentifier (path +:+ ".field") (o_field sort) then
  if? negb (String.eqb (o_direction sort) "asc") && negb (String.eqb (o_direction sort) "desc")
  return validationError (path +:+ ".direction") "must be asc or desc" then
  nil_error.

(** The limits that [Validate] and [Revalidate] take, in their order. *)
Record query_limits := {
  l_projection : Z; l_group_by : Z; l_order_by : Z; l_predicates : Z;
  l_depth : Z; l_parameters : Z; l_rows : Z; l_offset : Z;
}.

Definition validate_limit (limit : option Z) (maxRows : Z) : result Z :=
  let? limit :=
    match limit with
    | None => Ok defaultLimit
    | Some limit =>
        if? limit <? 1 return validationError "query.limit" "must be at least 1" then
        if? ProtocolMaxRows <? limit return validationError "query.limit" "exceeds the protocol row limit" then
        Ok limit
    end in
  Ok (if maxRows <? limit then maxRows else limit).

Definition validate_offset (offset : option Z) (maxOffset : Z) : result Z :=
  let? offset :=
    match offset with
    | None => Ok 0
    | Some offset =>
        if? offset <? 0 return validationError "query.offset" "must not be negative" then
        if? ProtocolMaxOffset <? offset return validationError "query.offset" "exceeds the protocol offset limit" then
        Ok offset
    end in
  if? maxOffset <? offset return validationError "query.offset" "exceeds the effective offset limit" then
  Ok offset.

Definition Validate (spec : Spec) (l : query_limits) : result Validated :=
  check? validateIdentifier "query.source.schema" (r_schema (q_source spec)) then
  check? validateIdentifier "query.source.name" (r_name (q_source spec)) then
  if? len (q_projection spec) =? 0
  return validationError "query.projection" "must contain at least one selection" then
  if? ProtocolMaxProjectionFields <? len (q_projection spec)
  return validationError "query.projection" "exceeds the protocol projection limit" then
  if? l_projection l <? len (q_projection spec)
  return validationError "query.projection" "exceeds the effective projection limit" then
  check? each (fun i selection => validateSelection (indexed "query.projection" i) selection) (q_projection spec) then
  let stats := {| Predicates := 0; ExpressionDepth := 0; Parameters := 2 |} in
  if? l_parameters l <? Parameters stats
  return validationError "query" "exceeds the effective parameter limit" then
  let? stats :=
    match q_filter spec with
    | None => Ok stats
    | Some filter =>
        validateFilter "query.filter" filter 1 stats
          {| maxPredicates := l_predicates l; maxDepth := l_depth l; maxParameters := l_parameters l |}
    end in
  if? ProtocolMaxGroupByFields <? len (q_group_by spec)
  return validationError "query.group_by" "exceeds the protocol group-by limit" then
  if? l_group_by l <? len (q_group_by spec)
  return validationError "query.group_by" "exceeds the effective group-by limit" then
  check? each (fun i field => validateIdentifier (indexed "query.group_by" i) field) (q_group_by spec) then
  if? ProtocolMaxOrderByFields <? len (q_order_by spec)
  return validationError "query.order_by" "exceeds the protocol order-by limit" then
  if? l_order_by l <? len (q_order_by spec)
  return validationError "query.order_by" "exceeds the effective order-by limit" then
  check? each validateSort (q_order_by spec) then
  check? validateGroupedShape (q_projection spec) (q_group_by spec) (q_order_by spec) then
  let? limit := validate_limit (q_limit spec) (l_rows l) in
  let? offset := validate_offset (q_offset spec) (l_offset l) in
  Ok {| v_spec := {| n_source := q_source spec; n_projection := q_projection spec;
                     n_filter := cloneFilter (q_filter spec); n_group_by := q_group_by spec;
                     n_order_by := q_order_by spec; n_limit := limit; n_offset := offset |};
        v_stats := stats; v_valid := true |}.

Definition with_limit (spec : NormalizedSpec) (limit : Z) : NormalizedSpec := {|
  n_source := n_source spec; n_projection := n_projection spec; n_filter := n_filter spec;
  n_group_by := n_group_by spec; n_order_by := n_order_by spec; n_limit := limit; n_offset := n_offset spec |}.

Definition Revalidate (query : Validated) (l : query_limits) : result Validated :=
  let spec := v_spec query in
  let stats := v_stats query in
  if? negb (v_valid query) return validationError "query" "has not been validated" then
  if? l_projection l <? len (n_projection spec)
  return validationError "query.projection" "exceeds the effective projection limit" then
  if? l_group_by l <? len (n_group_by spec)
  return validationError "query.group_by" "exceeds the effective group-by limit" then
  if? l_order_by l <? len (n_order_by spec)
  return validationError "query.order_by" "exceeds the effective order-by limit" then
  if? l_predicates l <? Predicates stats
  return validationError "query.filter" "exceeds the effective predicate limit" then
  if? l_depth l <? ExpressionDepth stats
  return validationError "query.filter" "exceeds the effective expression depth limit" then
  if? l_parameters l <? Parameters stats
  return validationError "query.filter" "exceeds the effective parameter limit" then
  if? l_offset l <? n_offset spec
  return validationError "query.offset" "exceeds the effective offset limit" then
  if? l_rows l <? 1 return validationError "query.limit" "effective row limit must be at least 1" then
  Ok {| v_spec := with_limit spec (if l_rows l <? n_limit spec then l_rows l else n_limit spec);
        v_stats := stats; v_valid := true |}.

Definition ValidateSimpleSelect (query : Validated) : error :=
  if? negb (v_valid query) return validationError "query" "has not been validated" then
  if? negb (len (n_group_by (v_spec query)) =? 0)
  return validationError "query.group_by" "is not supported for executable select" then
  each (fun i selection =>
    if? negb (String.eqb (s_kind selection) "field")
    return validationError (indexed "query.projection" i)
      "only field projections are supported for executable select"
    then nil_error) (n_projection (v_spec query)).

(** ** Representations in use (representation.go) *)

Fixpoint filter_uses_source_text (f : Filter) : bool :=
  String.eqb (f_representation f) RepresentationSourceText ||
  existsb filter_uses_source_text (f_expressions f).

Definition FilterUsesSourceText (f : option Filter) : bool :=
  match f with None => false | Some f => filter_uses_source_text f end.

Definition UsesSourceText (spec : NormalizedSpec) : bool :=
  existsb (fun s => String.eqb (s_representation s) RepresentationSourceText) (n_projection spec) ||
  existsb (fun s => String.eqb (o_representation s) RepresentationSourceText) (n_order_by spec) ||
  FilterUsesSourceText (n_filter spec).

(** ** What an accepted query satisfies *)

Definition is_identifier (s : string) : bool :=
  nonempty s && (slen s <=? ProtocolMaxIdentifierBytes) && identifierPattern s.

Definition representation_ok (r : string) : Prop := r = EmptyString \/ r = RepresentationSourceText.

Definition selection_ok (s : Selection) : Prop :=
  representation_ok (s_representation s) /\
  (s_alias s = EmptyString \/ is_identifier (s_alias s) = true) /\
  (s_kind s = "field" /\ s_function s = EmptyString /\ is_identifier (s_field s) = true \/
   s_kind s = "aggregate" /\ s_representation s = EmptyString /\
     (s_function s = "count" /\ (s_field s = EmptyString \/ is_identifier (s_field s) = true) \/
      In (s_function s) ["min"; "max"; "sum"; "avg"] /\ is_identifier (s_field s) = true)).

(** The number of values each operator takes. *)
Definition arity (operator : string) (n : Z) : Prop :=
  In operator ["eq"; "ne"; "lt"; "lte"; "gt"; "gte"; "like"] /\ n = 1 \/
  In operator ["in"; "not_in"] /\ 1 <= n \/
  In operator ["is_null"; "is_not_null"] /\ n = 0.

Definition value_ok (representation : string) (v : TypedValue) : Prop :=
  (representation = RepresentationSourceText -> tv_type v = "string") /\
  exists b raw, tv_value v = Some raw /\ trim_space raw <> "null" /\ binds (tv_type v) raw b.

Inductive filter_ok : Filter -> Prop :=
| predicate_ok representation field operator values :
    representation_ok representation -> is_identifier field = true ->
    len values <= ProtocolMaxFilterItems -> arity operator (len values) ->
    Forall (value_ok representation) values ->
    filter_ok (MkFilter representation "predicate" field operator (Some values) [])
| group_ok operator expressions :
    In operator ["and"; "or"] -> 2 <= len expressions <= ProtocolMaxFilterItems ->
    Forall filter_ok expressions ->
    filter_ok (MkFilter EmptyString "group" EmptyString operator None expressions).

(** The size of a filter: its predicates, its depth and its values. *)
Definition sum_of {A} (f : A -> Z) (l : list A) : Z := foldr (fun a acc => f a + acc) 0 l.
Definition max_of {A} (f : A -> Z) (l : list A) : Z := foldr (fun a acc => Z.max (f a) acc) 0 l.

Fixpoint predicates_of (f : Filter) : Z :=
  if String.eqb (f_kind f) "predicate" then 1 else sum_of predicates_of (f_expressions f).
Fixpoint depth_of (f : Filter) : Z := 1 + max_of depth_of (f_expressions f).
Fixpoint parameters_of (f : Filter) : Z := len (values_of f) + sum_of parameters_of (f_expressions f).

Definition add_filter_stats (stats : Stats) (depth : Z) (f : Filter) : Stats := {|
  Predicates := Predicates stats + predicates_of f;
  ExpressionDepth := Z.max (ExpressionDepth stats) (depth + depth_of f - 1);
  Parameters := Parameters stats + parameters_of f |}.

Section FilterInd.
Context (P : Filter -> Prop).
Context (H : forall r k f o vs es, Forall P es -> P (MkFilter r k f o vs es)).

Fixpoint Filter_ind' (f : Filter) : P f :=
  match f with
  | MkFilter r k fl o vs es =>
      H r k fl o vs es ((fix go l := match l return Forall P l with
                         | [] => Forall_nil_2 P
                         | x :: l' => Forall_cons_2 P x l' (Filter_ind' x) (go l')
                         end) es)
  end.
End FilterInd.

(** ** Lemmas: the checks one by one *)

Lemma nonempty_true s : nonempty s = true <-> s <> EmptyString.
Proof. unfold nonempty. by rewrite negb_true_iff, String.eqb_neq. Qed.
Lemma nonempty_false s : nonempty s = false <-> s = EmptyString.
Proof. unfold nonempty. by rewrite negb_false_iff, String.eqb_eq. Qed.
#[export] Hint Rewrite nonempty_true nonempty_false : go_bool.

Lemma validateIdentifier_ok path v : validateIdentifier path v = Ok tt <-> is_identifier v = true.
Proof.
  unfold validateIdentifier, is_identifier, nonempty. rewrite !if_err_ok, !andb_true_iff.
  rewrite negb_true_iff, negb_false_iff, Z.ltb_ge, Z.leb_le. tauto.
Qed.

Lemma validateRepresentation_ok path r : validateRepresentation path r = Ok tt <-> representation_ok r.
Proof.
  unfold validateRepresentation, Representation_Valid, representation_ok.
  rewrite if_err_ok, negb_false_iff, orb_true_iff, !String.eqb_eq. tauto.
Qed.

Lemma check_ok (e : error) (k : error) : (check? e then k) = Ok tt <-> e = Ok tt /\ k = Ok tt.
Proof. rewrite rbind_ok. split; [intros ([] & ? & ?)|intros [? ?]; exists tt]; done. Qed.

Lemma check_ok' {A} (e : error) (k : result A) a : (check? e then k) = Ok a <-> e = Ok tt /\ k = Ok a.
Proof. rewrite rbind_ok. split; [intros ([] & ? & ?)|intros [? ?]; exists tt]; done. Qed.

Lemma if_nil_ok (b : bool) (e : error) : (if b then e else nil_error) = Ok tt <-> (b = true -> e = Ok tt).
Proof. destruct b; naive_solver. Qed.

Lemma guard_ok (b : bool) e : (if b then Err e else nil_error) = Ok tt <-> b = false.
Proof. destruct b; naive_solver. Qed.

(** [str_cases s] splits on whether [s] is one of the literals it is compared with. *)
Ltac str_cases :=
  repeat match goal with
  | |- context [String.eqb ?a ?b] => destruct (String.eqb_spec a b); subst; cbn [negb andb orb] in *
  end.

Lemma validateSelection_ok path s : validateSelection path s = Ok tt <-> selection_ok s.
Proof.
  unfold validateSelection, selection_ok. rewrite check_ok, validateRepresentation_ok, if_err_ok, check_ok.
  rewrite if_nil_ok, nonempty_true, validateIdentifier_ok.
  assert (Halias : (s_alias s <> EmptyString -> is_identifier (s_alias s) = true) <->
          (s_alias s = EmptyString \/ is_identifier (s_alias s) = true)).
  { destruct (String.eqb_spec (s_alias s) EmptyString); tauto. }
  rewrite Halias. destruct (String.eqb_spec (s_kind s) "field") as [Ek|Ek].
  { rewrite Ek, if_err_ok, nonempty_false, validateIdentifier_ok. cbn [negb andb].
    split; [intuition|]. intros (? & ? & [?|(? & ?)]); [intuition|discriminate]. }
  cbn [negb andb]. rewrite nonempty_false. destruct (String.eqb_spec (s_kind s) "aggregate") as [Ea|Ea].
  2: { split; [intros (? & ? & ? & ?); discriminate|intuition]. }
  destruct (String.eqb_spec (s_function s) "count") as [Ec|Ec].
  - rewrite Ec, if_nil_ok, nonempty_true, validateIdentifier_ok.
    assert (Hnc : ~ In "count" ["min"; "max"; "sum"; "avg"]) by (simpl; intuition discriminate).
    destruct (String.eqb_spec (s_field s) EmptyString) as [E|E]; naive_solver.
  - destruct (contains _ _) eqn:Hc.
    + apply contains_In in Hc. rewrite validateIdentifier_ok. intuition.
    + apply contains_false in Hc. split; [intuition; discriminate|intuition].
Qed.

Lemma BindValue_iff v b :
  TypedValue_BindValue v = Ok b <->
  exists raw, tv_value v = Some raw /\ trim_space raw <> "null" /\ binds (tv_type v) raw b.
Proof.
  split; [apply BindValue_sound|]. intros (raw & Hv & Hn & Hb).
  destruct v as [ty val]; cbn [tv_type tv_value] in *. subst. by apply BindValue_complete.
Qed.

Lemma validateValue_ok path f i v : validateValue path f i v = Ok tt <-> value_ok (f_representation f) v.
Proof.
  unfold validateValue, value_ok. rewrite if_err_ok, andb_false_iff, negb_false_iff, String.eqb_neq, String.eqb_eq.
  assert (Hb : (match TypedValue_BindValue v with Ok _ => nil_error
                | Err e => Err (validationError (indexed (path +:+ ".values") i) (error_text e)) end) = Ok tt <->
               exists b, TypedValue_BindValue v = Ok b).
  { destruct (TypedValue_BindValue v); split; naive_solver. }
  rewrite Hb. setoid_rewrite BindValue_iff.
  destruct (String.eqb_spec (f_representation f) RepresentationSourceText); intuition.
Qed.

Lemma expected_values_arity op n : 0 <= n ->
  arity op n <-> exists e, expected_values op = Some e /\
    (0 <=? e) && negb (n =? e) = false /\ (e =? -1) && (n =? 0) = false.
Proof.
  intros Hn. unfold arity, expected_values.
  destruct (contains ["eq"; "ne"; "lt"; "lte"; "gt"; "gte"; "like"] op) eqn:E1.
  { apply contains_In in E1. simpl in E1. split.
    - intros H. exists 1. split; [done|]. simpl in *. destruct H as [[_ ->]|[[H _]|[H _]]]; [done| |];
        exfalso; intuition congruence.
    - intros (e & [= <-] & H & _). left. split; [done|]. simpl in H. bool_prop. done. }
  destruct (contains ["in"; "not_in"] op) eqn:E2.
  { apply contains_In in E2. apply contains_false in E1. split.
    - intros H. exists (-1). split; [done|]. simpl. rewrite Z.eqb_neq.
      destruct H as [[H _]|[[_ H]|[H _]]]; [done|lia|]. simpl in *. exfalso. intuition congruence.
    - intros (e & [= <-] & _ & H). right; left. simpl in H. bool_prop. split; [done|lia]. }
  apply contains_false in E1, E2. destruct (contains ["is_null"; "is_not_null"] op) eqn:E3.
  { apply contains_In in E3. split.
    - intros H. exists 0. split; [done|]. destruct H as [[H _]|[[H _]|[_ ->]]]; done.
    - intros (e & [= <-] & H & _). right; right. simpl in H. bool_prop. done. }
  apply contains_false in E3. split; [tauto|naive_solver].
Qed.

(** The counters after a filter, and the limits it has to stay under. *)
Definition within (limits : filterValidationLimits) (stats : Stats) (depth : Z) (f : Filter) : Prop :=
  depth + depth_of f - 1 <= maxDepth limits /\
  Predicates stats + predicates_of f <= maxPredicates limits /\
  Parameters stats + parameters_of f <= maxParameters limits.

Lemma sum_nonneg {A} (f : A -> Z) l : Forall (fun a => 0 <= f a) l -> 0 <= sum_of f l.
Proof. unfold sum_of. induction 1; simpl; lia. Qed.

Lemma max_nonneg {A} (f : A -> Z) l : 0 <= max_of f l.
Proof. unfold max_of. induction l; simpl; lia. Qed.

Lemma parameters_of_nonneg f : 0 <= parameters_of f.
Proof.
  induction f as [r k fl o vs es IH] using Filter_ind'. simpl. pose proof (sum_nonneg parameters_of es IH).
  pose proof (len_nonneg (values_of (MkFilter r k fl o vs es))). lia.
Qed.

Lemma predicates_of_nonneg f : 0 <= predicates_of f.
Proof.
  induction f as [r k fl o vs es IH] using Filter_ind'. simpl.
  destruct (String.eqb k "predicate"); [lia|]. apply (sum_nonneg predicates_of es IH).
Qed.

Lemma filter_list_iff path depth limits es :
  Forall (fun f => forall path depth stats stats',
    validateFilter path f depth stats limits = Ok stats' <->
    filter_ok f /\ within limits stats depth f /\ stats' = add_filter_stats stats depth f) es ->
  forall i stats stats',
  iter_from (fun i e s => validateFilter (indexed path i) e depth s limits) i es stats = Ok stats' <->
  Forall filter_ok es /\
  (es <> [] -> depth + max_of depth_of es - 1 <= maxDepth limits /\
               Predicates stats + sum_of predicates_of es <= maxPredicates limits /\
               Parameters stats + sum_of parameters_of es <= maxParameters limits) /\
  stats' = {| Predicates := Predicates stats + sum_of predicates_of es;
              ExpressionDepth := match es with [] => ExpressionDepth stats
                                 | _ => Z.max (ExpressionDepth stats) (depth + max_of depth_of es - 1) end;
              Parameters := Parameters stats + sum_of parameters_of es |}.
Proof.
  intros Hes. induction Hes as [|f es Hf Hes IH]; intros i stats stats'.
  - simpl. rewrite !Z.add_0_r. destruct stats; simpl. naive_solver.
  - cbn [iter_from]. rewrite rbind_ok. setoid_rewrite Hf. setoid_rewrite IH. clear IH.
    rewrite Forall_cons. pose proof (max_nonneg depth_of es). unfold within, add_filter_stats.
    assert (Hd : 1 <= depth_of f) by (destruct f; simpl; pose proof (max_nonneg depth_of f_expressions0); lia).
    unfold sum_of, max_of in *. cbn [foldr]. split.
    + intros (s & (Hok & Hw & ->) & Hoks & Hws & ->). simpl in *. split_and!; try done.
      * intros _. destruct es; [simpl in *; lia|]. specialize (Hws ltac:(done)). lia.
      * f_equal; [lia| |lia]. destruct es; simpl; lia.
    + intros ((Hok & Hoks) & Hw & ->). specialize (Hw ltac:(done)).
      pose proof (sum_nonneg predicates_of es ltac:(apply Forall_forall; intros; apply predicates_of_nonneg)) as Hp.
      pose proof (sum_nonneg parameters_of es ltac:(apply Forall_forall; intros; apply parameters_of_nonneg)) as Hq.
      unfold sum_of in *. eexists. split_and!; try done; simpl; try lia.
      f_equal; [lia| |lia]. destruct es; simpl; lia.
Qed.

(** The checks of a predicate after its operator is known. *)
Lemma predicate_values_ok path f op vs limits stats stats' :
  match expected_values op with
  | None => Err (validationError (path +:+ ".operator") "contains an unsupported operator")
  | Some expectedValues =>
      match vs with
      | None => Err (validationError (path +:+ ".values") "is required")
      | Some values =>
          if? (0 <=? expectedValues) && negb (len values =? expectedValues)
          return validationError (path +:+ ".values") ("must contain " +:+ itoa expectedValues +:+ " values") then
          if? (expectedValues =? -1) && (len values =? 0)
          return validationError (path +:+ ".values") "must contain at least one value" then
          if? maxPredicates limits <=? Predicates stats
          return validationError path "exceeds the effective predicate limit" then
          if? maxParameters limits - len values <? Parameters stats
          return validationError (path +:+ ".values") "exceeds the effective parameter limit" then
          check? each (validateValue path f) values then
          Ok {| Predicates := Predicates stats + 1; ExpressionDepth := ExpressionDepth stats;
                Parameters := Parameters stats + len values |}
      end
  end = Ok stats' <->
  exists values, vs = Some values /\ arity op (len values) /\ Forall (value_ok (f_representation f)) values /\
    Predicates stats + 1 <= maxPredicates limits /\ Parameters stats + len values <= maxParameters limits /\
    stats' = {| Predicates := Predicates stats + 1; ExpressionDepth := ExpressionDepth stats;
                Parameters := Parameters stats + len values |}.
Proof.
  destruct vs as [values|].
  2: { destruct (expected_values op); split; intros H; naive_solver. }
  assert (Ha := expected_values_arity op (len values) (len_nonneg values)).
  destruct (expected_values op) as [e|]; [|split; [done|intros (? & [= <-] & H & _); apply Ha in H; naive_solver]].
  rewrite !if_err_ok, check_ok', Z.leb_gt, Z.ltb_ge.
  rewrite (each_ok_Forall _ _ values (fun i v => validateValue_ok path f i v)).
  split.
  - intros (H1 & H2 & H3 & H4 & H5 & [= <-]). exists values. split_and!; try done; try lia. apply Ha. eauto.
  - intros (? & [= <-] & (e' & [= <-] & H1 & H2)%Ha & H3 & H4 & H5 & ->). split_and!; try done; lia.
Qed.

Lemma validateFilter_iff f : forall limits path depth stats stats',
  validateFilter path f depth stats limits = Ok stats' <->
  filter_ok f /\ within limits stats depth f /\ stats' = add_filter_stats stats depth f.
Proof.
  induction f as [r k fl o vs es IH] using Filter_ind'. intros limits path depth stats stats'.
  cbn [validateFilter f_representation f_kind f_field f_operator f_values f_expressions].
  rewrite check_ok', validateRepresentation_ok, !if_err_ok, Z.ltb_ge.
  destruct (String.eqb_spec k "predicate") as [->|Hk].
  - rewrite !if_err_ok, check_ok', validateIdentifier_ok, negb_false_iff, len_zero, Z.ltb_ge.
    rewrite (predicate_values_ok path (MkFilter r "predicate" fl o vs es)).
    cbn [Predicates Parameters ExpressionDepth f_representation values_of f_values]. unfold within, add_filter_stats.
    split.
    + intros (Hr & _ & Hd & -> & Hl & Hi & values & -> & Ha & Hv & Hp & Hq & ->).
      simpl in *. unfold values_of, sum_of, max_of in *. simpl in *. split_and!; try lia; [by apply predicate_ok|]. f_equal; lia.
    + intros (Hok & (H1 & H2 & H3) & ->). inversion Hok; subst. simpl in *. unfold values_of, sum_of, max_of in *. simpl in *.
      split_and!; try done; [lia|].
      exists values. split_and!; try done; try lia. f_equal; lia.
  - cbn [negb andb]. rewrite nonempty_false. destruct (String.eqb_spec k "group") as [->|Hg].
    2: { split; [intros (_ & _ & _ & H); discriminate|]. intros (Hok & _). by inversion Hok; subst. }
    rewrite !if_err_ok, orb_false_iff, nonempty_false, negb_false_iff, contains_In, !Z.ltb_ge.
    assert (IH' : Forall (fun f => forall path depth stats stats',
      validateFilter path f depth stats limits = Ok stats' <->
      filter_ok f /\ within limits stats depth f /\ stats' = add_filter_stats stats depth f) es)
      by (eapply Forall_impl; [exact IH|]; simpl; intros; apply H).
    rewrite (filter_list_iff (path +:+ ".expressions") (depth + 1) limits es IH').
    pose proof (max_nonneg depth_of es). unfold within, add_filter_stats. cbn [Predicates Parameters ExpressionDepth].
    split.
    + intros (Hr & -> & Hd & (-> & Hv) & Hl & Ho & H2 & Hok & Hw & ->). destruct vs; [done|].
      assert (Hne : es <> []) by (intros ->; done). specialize (Hw Hne). simpl. unfold values_of; simpl. rewrite len_nil.
      split_and!; try lia; [by apply group_ok|]. f_equal; try lia. destruct es; [done|lia].
    + intros (Hok & (H1 & H2 & H3) & ->). inversion Hok; subst. simpl in *. unfold values_of in *. simpl in *. rewrite len_nil in *.
      assert (Hne : es <> []) by (intros ->; rewrite len_nil in *; lia).
      split_and!; try done; try lia; [by left|].
      f_equal; try lia. destruct es; [done|lia].
Qed.

(** ** Copies of accepted filters are equal to them *)

Lemma binds_nonempty ty raw b : binds ty raw b -> raw <> EmptyString.
Proof.
  assert (Hnum : forall n, wf_number n = true -> trim_space EmptyString = print_number n -> False).
  { intros n Hn E. assert (jsonNumberPattern EmptyString = true) by (apply jsonNumberPattern_spec; eauto). done. }
  assert (Htext : unmarshal_string EmptyString = None) by reflexivity.
  intros [raw' b' H|raw' n z H H'|raw' t H|raw' n _ H H'|raw' t H|raw' t H|raw' t H|raw' t H|raw' d H] ->;
    try congruence; try (by eapply Hnum).
  by destruct b'.
Qed.

Lemma clone_values_ok r values :
  Forall (value_ok r) values ->
  map (fun v => {| tv_type := tv_type v; tv_value := clone_raw (tv_value v) |}) values = values.
Proof.
  induction 1 as [|[ty val] l [_ (b & raw & Hv & _ & Hb)] _ IH]; [done|]. cbn [map tv_type tv_value] in *.
  subst. rewrite IH. apply binds_nonempty in Hb. by destruct raw.
Qed.

Lemma clone_filter_ok f : filter_ok f -> clone_filter f = f.
Proof.
  induction f as [r k fl o vs es IH] using Filter_ind'. intros H. inversion H; subst; simpl.
  - by erewrite clone_values_ok by done.
  - f_equal. rewrite Forall_forall in *. rewrite <- (map_id es) at 2. apply map_ext_in.
    intros e He%list_elem_of_In. auto.
Qed.

(** ** Well-formed queries *)

Definition has_aggregate (projection : list Selection) : Prop := Exists (fun s => s_kind s = "aggregate") projection.

(** A query without grouping and aggregates, or one whose plain fields and sort
    fields are all grouped. *)
Definition grouped_ok (projection : list Selection) (groupBy : list string) (orderBy : list Sort) : Prop :=
  (groupBy = [] /\ ~ has_aggregate projection) \/
  ((groupBy <> [] \/ has_aggregate projection) /\
   Forall (fun s => s_representation s = EmptyString) projection /\
   Forall (fun s => s_kind s = "aggregate" \/
                    Exists (fun g => equal_fold (s_field s) g = true) groupBy) projection /\
   Forall (fun s => Exists (fun g => equal_fold g (o_field s) = true) groupBy) orderBy).

Definition sort_ok (s : Sort) : Prop :=
  representation_ok (o_representation s) /\ is_identifier (o_field s) = true /\
  (o_direction s = "asc" \/ o_direction s = "desc").

Definition filter_predicates (f : option Filter) : Z := from_option predicates_of 0 f.
Definition filter_depth (f : option Filter) : Z := from_option depth_of 0 f.
Definition filter_parameters (f : option Filter) : Z := from_option parameters_of 0 f.

Record query_ok (spec : Spec) (l : query_limits) : Prop := {
  ok_schema : is_identifier (r_schema (q_source spec)) = true;
  ok_name : is_identifier (r_name (q_source spec)) = true;
  ok_projection : 1 <= len (q_projection spec) <= Z.min ProtocolMaxProjectionFields (l_projection l);
  ok_selections : Forall selection_ok (q_projection spec);
  ok_filter : from_option filter_ok True (q_filter spec);
  ok_filter_size : q_filter spec <> None ->
    filter_depth (q_filter spec) <= l_depth l /\ filter_predicates (q_filter spec) <= l_predicates l;
  ok_parameters : 2 + filter_parameters (q_filter spec) <= l_parameters l;
  ok_group_by : len (q_group_by spec) <= Z.min ProtocolMaxGroupByFields (l_group_by l);
  ok_group_fields : Forall (fun g => is_identifier g = true) (q_group_by spec);
  ok_order_by : len (q_order_by spec) <= Z.min ProtocolMaxOrderByFields (l_order_by l);
  ok_sorts : Forall sort_ok (q_order_by spec);
  ok_grouped : grouped_ok (q_projection spec) (q_group_by spec) (q_order_by spec);
  ok_limit : from_option (fun n => 1 <= n <= ProtocolMaxRows) True (q_limit spec);
  ok_offset : 0 <= default 0 (q_offset spec) <= Z.min ProtocolMaxOffset (l_offset l);
}.

(** The stored form of an accepted query: the defaults filled in, the row limit
    clamped, and the counters of its filter. *)
Definition normalize (spec : Spec) (l : query_limits) : Validated := {|
  v_spec := {| n_source := q_source spec; n_projection := q_projection spec; n_filter := q_filter spec;
               n_group_by := q_group_by spec; n_order_by := q_order_by spec;
               n_limit := Z.min (default defaultLimit (q_limit spec)) (l_rows l);
               n_offset := default 0 (q_offset spec) |};
  v_stats := {| Predicates := filter_predicates (q_filter spec);
                ExpressionDepth := filter_depth (q_filter spec);
                Parameters := 2 + filter_parameters (q_filter spec) |};
  v_valid := true |}.

Lemma existsb_Exists {A} (p : A -> bool) l : existsb p l = true <-> Exists (fun a => p a = true) l.
Proof. rewrite existsb_exists, Exists_exists. setoid_rewrite <- list_elem_of_In. done. Qed.

Lemma is_aggregate_true s : is_aggregate s = true <-> s_kind s = "aggregate".
Proof. apply String.eqb_eq. Qed.

Lemma has_aggregate_spec projection : existsb is_aggregate projection = true <-> has_aggregate projection.
Proof. rewrite existsb_Exists. unfold has_aggregate. by setoid_rewrite is_aggregate_true. Qed.

Lemma each_const_ok {A} (p : A -> bool) e l :
  each (fun _ x => if p x then Err e else nil_error) l = Ok tt <-> Forall (fun x => p x = false) l.
Proof. apply each_ok_Forall. intros _ x. apply guard_ok. Qed.

Lemma Forall_fields (p : string -> Prop) projection :
  Forall p (map s_field (List.filter (fun s => negb (is_aggregate s)) projection)) <->
  Forall (fun s => s_kind s = "aggregate" \/ p (s_field s)) projection.
Proof.
  induction projection as [|s l IH]; [split; constructor|]. simpl.
  pose proof (is_aggregate_true s) as Hs.
  destruct (is_aggregate s); cbn [negb map]; rewrite ?Forall_cons, IH; [intuition|].
  assert (s_kind s <> "aggregate") by (intros E; apply Hs in E; done). intuition.
Qed.

Lemma Forall_nil_fields projection :
  map s_field (List.filter (fun s => negb (is_aggregate s)) projection) = [] <->
  Forall (fun s => s_kind s = "aggregate" \/ False) projection.
Proof.
  rewrite <- (Forall_fields (fun _ => False)). split; [by intros ->|].
  intros H. destruct (map _ _); [done|]. by apply Forall_cons in H as [? _].
Qed.

Lemma validateGroupedShape_ok projection groupBy orderBy :
  validateGroupedShape projection groupBy orderBy = Ok tt <-> grouped_ok projection groupBy orderBy.
Proof.
  unfold validateGroupedShape, grouped_ok. rewrite if_err_ok, check_ok, <- has_aggregate_spec.
  set (agg := existsb is_aggregate projection). destruct (decide (groupBy = [])) as [->|Hg].
  - rewrite len_nil. change (0 =? 0) with true. cbn [negb orb]. destruct agg; cbn [andb negb].
    + rewrite check_ok, negb_false_iff, len_zero, Forall_nil_fields.
      rewrite (each_const_ok (fun s => nonempty (s_representation s))).
      setoid_rewrite nonempty_false.
      rewrite (each_ok_Forall _ (fun _ => False)) by (intros; rewrite guard_ok; simpl; split; done).
      rewrite (each_ok_Forall _ (fun _ => False)) by (intros; rewrite guard_ok; simpl; split; done).
      setoid_rewrite Exists_nil. rewrite <- (Forall_fields (fun _ => False)). naive_solver.
    + naive_solver.
  - assert (Hz : (len groupBy =? 0) = false).
    { apply not_true_is_false. by rewrite len_zero. }
    rewrite Hz, !andb_false_r. cbn [negb orb andb]. rewrite check_ok.
    rewrite (each_const_ok (fun s => nonempty (s_representation s))). setoid_rewrite nonempty_false.
    rewrite (each_ok_Forall _ (fun f => Exists (fun g => equal_fold f g = true) groupBy)), Forall_fields
      by (intros; by rewrite guard_ok, negb_false_iff, existsb_Exists).
    rewrite (each_ok_Forall _ (fun s => Exists (fun g => equal_fold g (o_field s) = true) groupBy))
      by (intros; unfold containsIdentifier; by rewrite guard_ok, negb_false_iff, existsb_Exists).
    naive_solver.
Qed.

Lemma validateSort_ok i s : validateSort i s = Ok tt <-> sort_ok s.
Proof.
  unfold validateSort, sort_ok. rewrite !check_ok, validateRepresentation_ok, validateIdentifier_ok, guard_ok.
  rewrite andb_false_iff, !negb_false_iff, !String.eqb_eq. tauto.
Qed.

Lemma min_if m n : (if m <? n then m else n) = Z.min n m.
Proof. destruct (Z.ltb_spec m n); lia. Qed.

Lemma validate_limit_ok limit rows n :
  validate_limit limit rows = Ok n <->
  from_option (fun n => 1 <= n <= ProtocolMaxRows) True limit /\ n = Z.min (default defaultLimit limit) rows.
Proof.
  unfold validate_limit. rewrite rbind_ok. setoid_rewrite min_if. destruct limit as [m|]; simpl.
  - repeat setoid_rewrite if_err_ok. setoid_rewrite Z.ltb_ge. naive_solver.
  - naive_solver.
Qed.

Lemma validate_offset_ok offset maximum n :
  validate_offset offset maximum = Ok n <->
  0 <= default 0 offset <= Z.min ProtocolMaxOffset maximum /\ n = default 0 offset.
Proof.
  unfold validate_offset. rewrite rbind_ok. destruct offset as [m|]; simpl.
  - repeat setoid_rewrite if_err_ok. setoid_rewrite Z.ltb_ge.
    split; [intros (? & (? & ? & [= <-]) & ? & [= <-]); split; [lia|done]|].
    intros [H ->]. exists m. split_and!; try done; lia.
  - setoid_rewrite if_err_ok. setoid_rewrite Z.ltb_ge. change ProtocolMaxOffset with 1000000000.
    split; [intros (? & [= <-] & ? & [= <-]); split; [lia|done]|].
    intros [H ->]. exists 0. split_and!; try done; lia.
Qed.

Lemma filter_stats_ok f l stats' :
  match f with
  | None => Ok {| Predicates := 0; ExpressionDepth := 0; Parameters := 2 |}
  | Some f => validateFilter "query.filter" f 1 {| Predicates := 0; ExpressionDepth := 0; Parameters := 2 |}
                {| maxPredicates := l_predicates l; maxDepth := l_depth l; maxParameters := l_parameters l |}
  end = Ok stats' <->
  from_option filter_ok True f /\
  (f <> None -> filter_depth f <= l_depth l /\ filter_predicates f <= l_predicates l) /\
  (f <> None -> 2 + filter_parameters f <= l_parameters l) /\
  stats' = {| Predicates := filter_predicates f; ExpressionDepth := filter_depth f;
              Parameters := 2 + filter_parameters f |}.
Proof.
  destruct f as [f|]; simpl.
  - rewrite validateFilter_iff. unfold within, add_filter_stats; simpl.
    assert (0 <= depth_of f) by (destruct f; simpl; pose proof (max_nonneg depth_of f_expressions0); lia).
    split.
    + intros (Hok & (H1 & H2 & H3) & ->). split_and!; try done; try (intros _; lia). f_equal; lia.
    + intros (Hok & H1 & H2 & ->). specialize (H1 ltac:(done)). specialize (H2 ltac:(done)).
      split_and!; try done; try lia. f_equal; lia.
  - naive_solver.
Qed.

Lemma Validate_sound spec l v : Validate spec l = Ok v -> query_ok spec l /\ v = normalize spec l.
Proof.
  unfold Validate. rewrite !check_ok', !if_err_ok, check_ok', if_err_ok. cbn [Parameters].
  setoid_rewrite validateIdentifier_ok. rewrite !Z.ltb_ge.
  rewrite (each_ok_Forall _ selection_ok) by (intros; apply validateSelection_ok).
  intros (Hs & Hn & Hp0 & Hp1 & Hp2 & Hsel & Hparam & H). rewrite rbind_ok in H. destruct H as (stats & Hf & H).
  apply filter_stats_ok in Hf as (Hf1 & Hf2 & Hf3 & ->).
  rewrite !if_err_ok, check_ok', !if_err_ok, !check_ok', !Z.ltb_ge in H.
  destruct H as (Hg1 & Hg2 & Hg3 & Ho1 & Ho2 & Ho3 & Hgr & H).
  rewrite (each_ok_Forall _ (fun g => is_identifier g = true)) in Hg3 by (intros; apply validateIdentifier_ok).
  rewrite (each_ok_Forall _ sort_ok) in Ho3 by (intros; apply validateSort_ok).
  apply validateGroupedShape_ok in Hgr.
  rewrite rbind_ok in H. destruct H as (limit & Hl & H). apply validate_limit_ok in Hl as [Hl ->].
  rewrite rbind_ok in H. destruct H as (offset & Hoff & H). apply validate_offset_ok in Hoff as [Hoff ->].
  injection H as <-. assert (Hpos : len (q_projection spec) <> 0) by (by apply Z.eqb_neq).
  pose proof (len_nonneg (q_projection spec)). split.
  - constructor; try done; try lia. destruct (q_filter spec); [by apply Hf3|]. simpl. lia.
  - unfold normalize. do 2 f_equal. destruct (q_filter spec); [|done]. simpl in *. by rewrite clone_filter_ok.
Qed.

Lemma Validate_complete spec l : query_ok spec l -> Validate spec l = Ok (normalize spec l).
Proof.
  intros []. unfold Validate. rewrite !check_ok', !if_err_ok, check_ok', if_err_ok. cbn [Parameters].
  setoid_rewrite validateIdentifier_ok. rewrite !Z.ltb_ge, Z.eqb_neq.
  rewrite (each_ok_Forall _ selection_ok) by (intros; apply validateSelection_ok).
  assert (0 <= filter_parameters (q_filter spec)).
  { destruct (q_filter spec); simpl; [apply parameters_of_nonneg|lia]. }
  do 7 (split; [done || lia|]). rewrite rbind_ok. eexists. split; [apply filter_stats_ok; done|].
  rewrite !if_err_ok, check_ok', !if_err_ok, !check_ok', !Z.ltb_ge.
  rewrite (each_ok_Forall _ (fun g => is_identifier g = true)) by (intros; apply validateIdentifier_ok).
  rewrite (each_ok_Forall _ sort_ok) by (intros; apply validateSort_ok). rewrite validateGroupedShape_ok.
  do 7 (split; [done || lia|]).
  rewrite rbind_ok. eexists. split; [apply validate_limit_ok; done|].
  rewrite rbind_ok. eexists. split; [apply validate_offset_ok; done|].
  unfold normalize. do 3 f_equal. destruct (q_filter spec); [|done]. simpl in *. by rewrite clone_filter_ok.
Qed.

(** C25: [Validate] is exact. It accepts a query just when every part of it is
    well formed (identifiers, operators with their number of values, bind values
    of their declared types, grouping) and within the protocol's and the given
    limits, and then returns it with the defaults filled in, the row limit
    clamped and the exact number of its predicates, levels and parameters. *)
Theorem Validate_exact spec l v : Validate spec l = Ok v <-> query_ok spec l /\ v = normalize spec l.
Proof. split; [apply Validate_sound|]. intros [? ->]. by apply Validate_complete. Qed.

(** [validateFilter] returns exact counters: on success the three counters
    grow by the number of predicates, the depth reached and the number of
    values of the whole filter tree, and a filter over any limit is refused. *)
Theorem validateFilter_exact f path depth stats limits stats' :
  validateFilter path f depth stats limits = Ok stats' <->
  filter_ok f /\ within limits stats depth f /\ stats' = add_filter_stats stats depth f.
Proof. apply validateFilter_iff. Qed.

(** ** Revalidation *)

Definition min_limits (a b : query_limits) : query_limits := {|
  l_projection := Z.min (l_projection a) (l_projection b);
  l_group_by := Z.min (l_group_by a) (l_group_by b);
  l_order_by := Z.min (l_order_by a) (l_order_by b);
  l_predicates := Z.min (l_predicates a) (l_predicates b);
  l_depth := Z.min (l_depth a) (l_depth b);
  l_parameters := Z.min (l_parameters a) (l_parameters b);
  l_rows := Z.min (l_rows a) (l_rows b);
  l_offset := Z.min (l_offset a) (l_offset b) |}.

Lemma Revalidate_ok q l v :
  Revalidate q l = Ok v <->
  v_valid q = true /\ len (n_projection (v_spec q)) <= l_projection l /\
  len (n_group_by (v_spec q)) <= l_group_by l /\ len (n_order_by (v_spec q)) <= l_order_by l /\
  Predicates (v_stats q) <= l_predicates l /\ ExpressionDepth (v_stats q) <= l_depth l /\
  Parameters (v_stats q) <= l_parameters l /\ n_offset (v_spec q) <= l_offset l /\ 1 <= l_rows l /\
  v = {| v_spec := with_limit (v_spec q) (Z.min (n_limit (v_spec q)) (l_rows l));
         v_stats := v_stats q; v_valid := true |}.
Proof.
  unfold Revalidate. rewrite !if_err_ok, negb_false_iff, !Z.ltb_ge, min_if. naive_solver.
Qed.

Lemma query_ok_min spec a b : 0 <= l_predicates b -> 0 <= l_depth b ->
  query_ok spec (min_limits a b) <->
  query_ok spec a /\ len (q_projection spec) <= l_projection b /\ len (q_group_by spec) <= l_group_by b /\
  len (q_order_by spec) <= l_order_by b /\ filter_predicates (q_filter spec) <= l_predicates b /\
  filter_depth (q_filter spec) <= l_depth b /\ 2 + filter_parameters (q_filter spec) <= l_parameters b /\
  default 0 (q_offset spec) <= l_offset b.
Proof.
  intros Hp Hd. split.
  - intros []; simpl in *. split_and!; try lia.
    + constructor; try done; try lia. intros H. specialize (ok_filter_size0 H). lia.
    + destruct (q_filter spec); simpl in *; [|done]. specialize (ok_filter_size0 ltac:(done)). lia.
    + destruct (q_filter spec); simpl in *; [|done]. specialize (ok_filter_size0 ltac:(done)). lia.
  - intros ([] & ?). destruct_and!. constructor; simpl; try done; try lia.
    intros H'. specialize (ok_filter_size0 H'). lia.
Qed.

(** C37: Revalidating an accepted query under new limits is the same as validating
    the original request under the smaller of both limits in every dimension, so
    no normalization done under looser limits survives an authorization. *)
Theorem Revalidate_is_Validate_min spec a b v :
  Validate spec a = Ok v -> 1 <= l_rows b -> 0 <= l_predicates b -> 0 <= l_depth b ->
  forall v', Revalidate v b = Ok v' <-> Validate spec (min_limits a b) = Ok v'.
Proof.
  intros Hv Hrows Hp Hd v'. apply Validate_sound in Hv as [Hok ->].
  assert (HV : Validate spec (min_limits a b) = Ok v' <->
               query_ok spec (min_limits a b) /\ v' = normalize spec (min_limits a b)).
  { split; [apply Validate_sound|]. intros [? ->]. by apply Validate_complete. }
  rewrite HV, query_ok_min, Revalidate_ok by done. unfold normalize, with_limit; simpl.
  rewrite Z.min_assoc. split; intros H; destruct_and!; subst; split_and!; done.
Qed.

Definition example_limits : query_limits := {|
  l_projection := 10; l_group_by := 10; l_order_by := 10; l_predicates := 10; l_depth := 3;
  l_parameters := 10; l_rows := 50; l_offset := 100 |}.

Definition example_field (f : string) : Selection :=
  {| s_representation := EmptyString; s_kind := "field"; s_field := f; s_function := EmptyString; s_alias := EmptyString |}.

Definition example_predicate (f op ty v : string) : Filter :=
  {| f_representation := EmptyString; f_kind := "predicate"; f_field := f; f_operator := op;
     f_values := Some [{| tv_type := ty; tv_value := Some v |}]; f_expressions := [] |}.

Definition example_spec : Spec := {|
  q_source := {| r_schema := "shop"; r_name := "orders" |};
  q_projection := [example_field "id"; example_field "total"];
  q_filter := Some {| f_representation := EmptyString; f_kind := "group"; f_field := EmptyString; f_operator := "and";
                      f_values := None;
                      f_expressions := [example_predicate "id" "gt" "integer" "1e1";
                                        example_predicate "state" "eq" "string" (quoted "open")] |};
  q_group_by := []; q_order_by := [{| o_representation := EmptyString; o_field := "id"; o_direction := "asc" |}];
  q_limit := None; q_offset := None |}.

Example example_spec_valid :
  v_stats <$> match Validate example_spec example_limits with Ok v => Some v | Err _ => None end =
  Some {| Predicates := 2; ExpressionDepth := 2; Parameters := 4 |}.
Proof. vm_compute. reflexivity. Qed.

Definition strict_limits : query_limits := {|
  l_projection := 2; l_group_by := 0; l_order_by := 1; l_predicates := 2; l_depth := 2;
  l_parameters := 4; l_rows := 7; l_offset := 0 |}.

Lemma Revalidate_is_Validate_min_witness :
  is_ok (Revalidate (normalize example_spec example_limits) strict_limits) = true /\
  (Revalidate (normalize example_spec example_limits) strict_limits =
     Ok (normalize example_spec strict_limits) <->
   Validate example_spec (min_limits example_limits strict_limits) = Ok (normalize example_spec strict_limits)).
Proof.
  split; [vm_compute; reflexivity|].
  apply (Revalidate_is_Validate_min example_spec example_limits strict_limits); [vm_compute; reflexivity|..];
    simpl; lia.
Defined.
