(* ===== verification/Config.v ===== *)
(** The data of a configuration (internal/config/config.go): users, principals,
    datasources, profiles, resource patterns, query policies and the reviewed aggregate
    and keyset shapes, as the policy snapshot stores them; and the checks of shapes that
    ask for text as stored (internal/config/source_text.go). *)
From S2P Require Import Prelude Domain QuerySpec.

Record Principal := { p_profiles : list string; p_datasources : list string }.

Record PatternPolicy := { Allow : list string; Deny : list string }.

Record ResourcePolicy := { Schemas : PatternPolicy; Objects : PatternPolicy; Fields : PatternPolicy }.

(** The filter of a reviewed shape; [ValueTypes] is [None] for a nil pointer. *)
Inductive ShapeFilter : Type := MkShapeFilter {
  sf_representation : string;
  sf_kind : string;
  sf_field : string;
  sf_operator : string;
  sf_value_types : option (list string);
  sf_expressions : list ShapeFilter;
}.

Record AggregateShapeOutput := {
  so_boundaries : list string; so_representation : string; so_kind : string; so_field : string;
  so_function : string; so_alias : string; so_unit : string; so_timezone : string;
}.

Record AggregateShapeOrder := {
  sd_representation : string; sd_kind : string; sd_field : string; sd_alias : string; sd_direction : string;
}.

Record AggregateShape := {
  sh_name : string;
  sh_public_description : option string;
  sh_mode : string;
  sh_source : ResourceRef;
  sh_projection : list AggregateShapeOutput;
  sh_filter : option ShapeFilter;
  sh_order_by : option (list AggregateShapeOrder);
  sh_maximum_limit : Z;
  sh_required_index : string;
  sh_maximum_rows : Z;
  sh_allow_temporary_table : option bool;
  sh_allow_filesort : option bool;
}.

Record KeysetShapeProjection := {
  kp_representation : string; kp_kind : string; kp_field : string; kp_alias : string;
}.

Record KeysetShapeOrder := { ko_representation : string; ko_field : string; ko_direction : string }.

Record KeysetSelectShape := {
  ks_name : string;
  ks_public_description : option string;
  ks_source : ResourceRef;
  ks_projection : list KeysetShapeProjection;
  ks_filter : option ShapeFilter;
  ks_order_by : list KeysetShapeOrder;
  ks_maximum_limit : Z;
  ks_required_index : string;
  ks_maximum_rows : Z;
  ks_allow_temporary_table : option bool;
  ks_allow_filesort : option bool;
}.

Record QueryPolicy := {
  AllowSourceText : bool;
  AllowFiltering : bool;
  AllowGroupBy : bool;
  AllowSorting : bool;
  AllowedFilterOperators : list string;
  AllowedAggregates : list string;
  AggregateShapes : list AggregateShape;
  KeysetSelectShapes : list KeysetSelectShape;
}.

Record Profile := {
  pf_datasources : list string;
  pf_operations : list string;
  pf_resources : ResourcePolicy;
  pf_query : QueryPolicy;
  pf_limits : Limits;
}.

Section ShapeFilterInd.
Context (P : ShapeFilter -> Prop).
Context (H : forall r k f o vs es, Forall P es -> P (MkShapeFilter r k f o vs es)).

Fixpoint ShapeFilter_ind' (f : ShapeFilter) : P f :=
  match f with
  | MkShapeFilter r k fl o vs es =>
      H r k fl o vs es ((fix go l := match l return Forall P l with
                         | [] => Forall_nil_2 P
                         | x :: l' => Forall_cons_2 P x l' (ShapeFilter_ind' x) (go l')
                         end) es)
  end.
End ShapeFilterInd.

(** ** The configuration as the gateway starts with it *)

Record PoolConfig := {
  pc_maxOpenConnections : Z; pc_maxIdleConnections : Z; pc_maxConnectionLifetimeSeconds : Z;
}.

(** [ds_tlsRequired] is [None] for a nil pointer. *)
Record Datasource := {
  ds_adapter : string; ds_dsn : string; ds_dsnSecretRef : string; ds_tlsRequired : option bool;
  ds_requiredForReadiness : bool; ds_pool : PoolConfig;
}.

Record BasicUser := { bu_principal : string; bu_passwordHash : string; bu_passwordHashSecretRef : string }.

Record BasicAuth := { ba_realm : string; ba_users : gmap string BasicUser }.

(** [cfg_listen] is [Server.Listen] and [cfg_basic] is [Authentication.Basic]. *)
Record Config := {
  cfg_version : Z;
  cfg_listen : string;
  cfg_hardLimits : Limits;
  cfg_basic : BasicAuth;
  cfg_principals : gmap string Principal;
  cfg_datasources : gmap string Datasource;
  cfg_profiles : gmap string Profile;
  cfg_policyHash : string;
}.

(** *** Shapes and texts as stored (internal/config/source_text.go) *)

Fixpoint filter_uses_text (f : ShapeFilter) : bool :=
  String.eqb (sf_representation f) RepresentationSourceText || existsb filter_uses_text (sf_expressions f).

Definition is_text (representation : string) : bool := String.eqb representation RepresentationSourceText.

Definition aggregate_shape_uses_text (shape : AggregateShape) : bool :=
  existsb (fun out => is_text (so_representation out)) (sh_projection shape) ||
  existsb (fun out => is_text (sd_representation out)) (default [] (sh_order_by shape)) ||
  from_option filter_uses_text false (sh_filter shape).

Definition keyset_shape_uses_text (shape : KeysetSelectShape) : bool :=
  existsb (fun out => is_text (kp_representation out)) (ks_projection shape) ||
  existsb (fun out => is_text (ko_representation out)) (ks_order_by shape) ||
  from_option filter_uses_text false (ks_filter shape).

Definition QueryPolicyUsesSourceText (policy : QueryPolicy) : bool :=
  existsb aggregate_shape_uses_text (AggregateShapes policy) || existsb keyset_shape_uses_text (KeysetSelectShapes policy).

Definition source_text_refused : goerr :=
  ErrorString "source_text requires allow_source_text and a field, predicate, or dimension".

Section SourceTextShapes.
Context (policy : QueryPolicy).

(** The closures [check] and [filterCheck]. *)
Definition check_text (representation : string) (allowed : bool) : error :=
  if? negb (Representation_Valid representation) || nonempty representation && (negb allowed || negb (AllowSourceText policy))
  return source_text_refused then nil_error.

Fixpoint check_text_filter (f : ShapeFilter) : error :=
  check? check_text (sf_representation f) (String.eqb (sf_kind f) "predicate") then
  if? is_text (sf_representation f) && negb (forallb (String.eqb "string") (default [] (sf_value_types f)))
  return ErrorString "source_text requires string value_types" then
  each (fun _ => check_text_filter) (sf_expressions f).

Definition check_optional_filter (f : option ShapeFilter) : error := from_option check_text_filter nil_error f.

Definition check_aggregate_shape (shape : AggregateShape) : error :=
  check? each (fun _ out => check_text (so_representation out) (String.eqb (so_kind out) "dimension")) (sh_projection shape) then
  check? each (fun _ out => check_text (sd_representation out) (String.eqb (sd_kind out) "dimension")) (default [] (sh_order_by shape)) then
  check_optional_filter (sh_filter shape).

Definition check_keyset_shape (shape : KeysetSelectShape) : error :=
  check? each (fun _ out => check_text (kp_representation out) (String.eqb (kp_kind out) "field")) (ks_projection shape) then
  check? each (fun _ out => check_text (ko_representation out) true) (ks_order_by shape) then
  check_optional_filter (ks_filter shape).

Definition validateSourceTextShapes : error :=
  check? each (fun _ => check_aggregate_shape) (AggregateShapes policy) then
  each (fun _ => check_keyset_shape) (KeysetSelectShapes policy).
End SourceTextShapes.
