(* ===== verification/Policy.v ===== *)
(** The policy snapshot (internal/policy/policy.go): bindings of principals,
    profiles and datasources, resource patterns, and the authorization of select
    and explain queries, of schema operations and of object statistics. *)
From S2P Require Import Prelude Domain GoJson Number Portable Values QuerySpec Config.
Local Open Scope string_scope.
Local Open Scope Z_scope.

Definition ReasonDeniedOperation : string := "DENIED_OPERATION".
Definition ReasonDeniedResource : string := "DENIED_RESOURCE".
Definition ReasonDeniedField : string := "DENIED_FIELD".
Definition ReasonDeniedQueryFeature : string := "DENIED_QUERY_FEATURE".

(** A snapshot is used through a pointer: [sn_address] is that pointer, which a
    binding stores to remember the snapshot that minted it. *)
Record Snapshot := {
  sn_address : positive;
  sn_version : string;
  sn_hash : string;
  sn_hardLimits : Limits;
  sn_principals : gmap string Principal;
  sn_profiles : gmap string Profile;
}.

Record BindingKey := { k_profile : string; k_datasource : string }.

#[export] Instance BindingKey_eq_dec : EqDecision BindingKey.
Proof. solve_decision. Defined.

(** [ab_owner] is [None] for the zero value. *)
Record AuthorizedBinding := {
  ab_owner : option positive;
  ab_principal : string;
  ab_key : BindingKey;
  ab_operation : string;
  ab_limits : Limits;
  ab_policyHash : string;
}.

Definition PrincipalProfiles (s : Snapshot) (principal : string) : list string :=
  from_option p_profiles [] (sn_principals s !! principal).

Definition PrincipalDatasources (s : Snapshot) (principal : string) : list string :=
  from_option p_datasources [] (sn_principals s !! principal).

Definition ProfileBinding (s : Snapshot) (name : string) : option (list string * list string * Limits) :=
  profile ← sn_profiles s !! name;
  Some (pf_datasources profile, pf_operations profile, pf_limits profile).

Definition denied (reason : string) : goerr := Denial reason.

Definition AuthorizeBinding (s : Snapshot) (principal profileName datasource operation : string)
  : result AuthorizedBinding :=
  match sn_principals s !! principal with
  | None => Err (denied ReasonDeniedOperation)
  | Some principalConfig =>
      if? negb (contains (p_profiles principalConfig) profileName) ||
          negb (contains (p_datasources principalConfig) datasource)
      return denied ReasonDeniedOperation then
      match sn_profiles s !! profileName with
      | None => Err (denied ReasonDeniedOperation)
      | Some profile =>
          if? negb (contains (pf_datasources profile) datasource) ||
              negb (contains (pf_operations profile) operation)
          return denied ReasonDeniedOperation then
          Ok {| ab_owner := Some (sn_address s); ab_principal := principal;
                ab_key := {| k_profile := profileName; k_datasource := datasource |};
                ab_operation := operation; ab_limits := Limits_Min (sn_hardLimits s) (pf_limits profile);
                ab_policyHash := sn_hash s |}
      end
  end.

Definition profileForBinding (s : Snapshot) (binding : AuthorizedBinding) (operation : string) : result Profile :=
  let key := ab_key binding in
  if? negb (bool_decide (ab_owner binding = Some (sn_address s))) ||
      negb (String.eqb (ab_policyHash binding) (sn_hash s)) ||
      String.eqb (ab_principal binding) EmptyString || String.eqb (k_profile key) EmptyString ||
      String.eqb (k_datasource key) EmptyString || negb (String.eqb (ab_operation binding) operation)
  return denied ReasonDeniedOperation then
  match sn_principals s !! ab_principal binding with
  | None => Err (denied ReasonDeniedOperation)
  | Some principal =>
      if? negb (contains (p_profiles principal) (k_profile key)) ||
          negb (contains (p_datasources principal) (k_datasource key))
      return denied ReasonDeniedOperation then
      match sn_profiles s !! k_profile key with
      | None => Err (denied ReasonDeniedOperation)
      | Some profile =>
          if? negb (contains (pf_datasources profile) (k_datasource key)) ||
              negb (contains (pf_operations profile) operation)
          return denied ReasonDeniedOperation then
          Ok profile
      end
  end.

(** ** Resource patterns *)

Fixpoint match_parts (parts value : list string) (caseInsensitive : list bool) : bool :=
  match parts, value with
  | [], [] => true
  | part :: parts', v :: value' =>
      (String.eqb part "*" ||
       (if head caseInsensitive is Some true then equal_fold part v else String.eqb part v)) &&
      match_parts parts' value' (tail caseInsensitive)
  | _, _ => false
  end.

Definition pattern_match (pattern : string) (value : list string) (caseInsensitive : list bool) : bool :=
  let parts := split_byte "." pattern in
  if negb (len parts =? len value) then false else match_parts parts value caseInsensitive.

Definition allowed (policy : PatternPolicy) (value : list string) (caseInsensitive : list bool) : bool :=
  if existsb (fun pattern => pattern_match pattern value caseInsensitive) (Deny policy) then false
  else if len (Allow policy) =? 0 then true
  else existsb (fun pattern => pattern_match pattern value caseInsensitive) (Allow policy).

Definition schema_semantics (m : IdentifierSemantics) : list bool := [CaseInsensitiveSchemas m].
Definition object_semantics (m : IdentifierSemantics) : list bool :=
  [CaseInsensitiveSchemas m; CaseInsensitiveObjects m].
Definition field_semantics (m : IdentifierSemantics) : list bool :=
  [CaseInsensitiveSchemas m; CaseInsensitiveObjects m; CaseInsensitiveFields m].

(** The two resource checks that every operation on an object makes, and the
    check of its fields. *)
Definition authorize_resource (r : ResourcePolicy) (source : ResourceRef) (m : IdentifierSemantics) : error :=
  if? negb (allowed (Schemas r) [r_schema source] (schema_semantics m)) ||
      negb (allowed (Objects r) [r_schema source; r_name source] (object_semantics m))
  return denied ReasonDeniedResource then nil_error.

Definition authorize_fields (r : ResourcePolicy) (source : ResourceRef) (fields : list string)
    (m : IdentifierSemantics) : error :=
  each (fun _ field =>
    if? negb (allowed (Fields r) [r_schema source; r_name source; field] (field_semantics m))
    return denied ReasonDeniedField then nil_error) fields.

(** ** Fields and operators of a query *)

Fixpoint collectFields (filter : Filter) : list string :=
  if String.eqb (f_kind filter) "predicate" then [f_field filter]
  else flat_map collectFields (f_expressions filter).

Fixpoint collectOperators (filter : Filter) : list string :=
  if String.eqb (f_kind filter) "predicate" then [f_operator filter]
  else flat_map collectOperators (f_expressions filter).

(** The keys of the [seen] map in order: [slices.Sort] of a set of strings. *)
Fixpoint insert_field (field : string) (l : list string) : list string :=
  match l with
  | [] => [field]
  | x :: l' =>
      match String.compare field x with
      | Lt => field :: l
      | Eq => l
      | Gt => x :: insert_field field l'
      end
  end.

Definition sorted_set (l : list string) : list string :=
  fold_left (fun acc field => if nonempty field then insert_field field acc else acc) l [].

Definition mentioned_fields (spec : NormalizedSpec) : list string :=
  map s_field (n_projection spec) ++
  match n_filter spec with None => [] | Some f => collectFields f end ++
  n_group_by spec ++ map o_field (n_order_by spec).

Definition referencedFields (spec : NormalizedSpec) : list string := sorted_set (mentioned_fields spec).

Definition authorize_operators (policy : QueryPolicy) (filter : option Filter) : error :=
  match filter with
  | None => nil_error
  | Some f =>
      if? negb (AllowFiltering policy) return denied ReasonDeniedQueryFeature then
      each (fun _ operator =>
        if? negb (contains (AllowedFilterOperators policy) operator)
        return denied ReasonDeniedQueryFeature then nil_error) (collectOperators f)
  end.

Definition authorizeFeatures (policy : QueryPolicy) (spec : NormalizedSpec) : error :=
  if? UsesSourceText spec && negb (AllowSourceText policy) return denied ReasonDeniedQueryFeature then
  check? authorize_operators policy (n_filter spec) then
  if? (0 <? len (n_group_by spec)) && negb (AllowGroupBy policy) return denied ReasonDeniedQueryFeature then
  if? (0 <? len (n_order_by spec)) && negb (AllowSorting policy) return denied ReasonDeniedQueryFeature then
  each (fun _ selection =>
    if? String.eqb (s_kind selection) "aggregate" && negb (contains (AllowedAggregates policy) (s_function selection))
    return denied ReasonDeniedQueryFeature then nil_error) (n_projection spec).

(** ** Authorization of a select or explain query *)

Record AuthorizedQuery := {
  aq_principal : string; aq_profile : string; aq_datasource : string; aq_operation : string;
  aq_limits : Limits; aq_query : Validated;
}.

Definition select_limits (l : Limits) : query_limits := {|
  l_projection := MaxProjectionFields l; l_group_by := MaxGroupByFields l; l_order_by := MaxOrderByFields l;
  l_predicates := MaxPredicates l; l_depth := MaxExpressionDepth l; l_parameters := MaxParameters l;
  l_rows := MaxRows l; l_offset := MaxOffset l |}.

Definition authorizeQuery (s : Snapshot) (binding : AuthorizedBinding) (operation : string) (query : Validated)
    (semantics : IdentifierSemantics) : result AuthorizedQuery :=
  match profileForBinding s binding operation with
  | Err _ => Err (denied ReasonDeniedOperation)
  | Ok profile =>
      let effectiveLimits := Limits_Min (sn_hardLimits s) (pf_limits profile) in
      let? revalidated := Revalidate query (select_limits effectiveLimits) in
      check? (if String.eqb operation OperationSelect then ValidateSimpleSelect revalidated else nil_error) then
      let spec := v_spec revalidated in
      check? authorize_resource (pf_resources profile) (n_source spec) semantics then
      check? authorize_fields (pf_resources profile) (n_source spec) (referencedFields spec) semantics then
      check? authorizeFeatures (pf_query profile) spec then
      Ok {| aq_principal := ab_principal binding; aq_profile := k_profile (ab_key binding);
            aq_datasource := k_datasource (ab_key binding); aq_operation := operation;
            aq_limits := effectiveLimits; aq_query := revalidated |}
  end.

Definition AuthorizeExplain (s : Snapshot) (binding : AuthorizedBinding) (query : Validated)
    (semantics : IdentifierSemantics) : result AuthorizedQuery :=
  authorizeQuery s binding OperationExplainSelect query semantics.

Definition AuthorizeSelect (s : Snapshot) (binding : AuthorizedBinding) (query : Validated)
    (semantics : IdentifierSemantics) : result AuthorizedQuery :=
  authorizeQuery s binding OperationSelect query semantics.

(** ** Schema operations *)

Record AuthorizedSchema := {
  sc_principal : string; sc_profile : string; sc_datasource : string; sc_operation : string;
  sc_schema : string; sc_object : string; sc_limits : Limits; sc_resources : ResourcePolicy;
  sc_semantics : IdentifierSemantics;
}.

Definition authorizeSchema (s : Snapshot) (binding : AuthorizedBinding) (operation : string)
    (resource : ResourceRef) (semantics : IdentifierSemantics) : result AuthorizedSchema :=
  check?
    (if String.eqb operation OperationListObjects then
       if? negb (IsIdentifier (r_schema resource)) || nonempty (r_name resource)
       return denied ReasonDeniedResource then nil_error
     else if String.eqb operation OperationDescribeObject then
       if? negb (IsIdentifier (r_schema resource)) || negb (IsIdentifier (r_name resource))
       return denied ReasonDeniedResource then nil_error
     else Err (denied ReasonDeniedOperation)) then
  match profileForBinding s binding operation with
  | Err _ => Err (denied ReasonDeniedOperation)
  | Ok profile =>
      let resources := pf_resources profile in
      if? negb (allowed (Schemas resources) [r_schema resource] (schema_semantics semantics))
      return denied ReasonDeniedResource then
      if? nonempty (r_name resource) &&
          negb (allowed (Objects resources) [r_schema resource; r_name resource] (object_semantics semantics))
      return denied ReasonDeniedResource then
      Ok {| sc_principal := ab_principal binding; sc_profile := k_profile (ab_key binding);
            sc_datasource := k_datasource (ab_key binding); sc_operation := operation;
            sc_schema := r_schema resource; sc_object := r_name resource;
            sc_limits := Limits_Min (sn_hardLimits s) (pf_limits profile);
            sc_resources := resources; sc_semantics := semantics |}
  end.

Definition AuthorizeListObjects (s : Snapshot) (binding : AuthorizedBinding) (schema : string)
    (semantics : IdentifierSemantics) : result AuthorizedSchema :=
  authorizeSchema s binding OperationListObjects {| r_schema := schema; r_name := EmptyString |} semantics.

Definition AuthorizeDescribeObject (s : Snapshot) (binding : AuthorizedBinding) (object : ResourceRef)
    (semantics : IdentifierSemantics) : result AuthorizedSchema :=
  authorizeSchema s binding OperationDescribeObject object semantics.

Definition AllowsObject (a : AuthorizedSchema) (object : string) : bool :=
  if negb (String.eqb (sc_operation a) OperationListObjects) || nonempty (sc_object a) then false
  else allowed (Objects (sc_resources a)) [sc_schema a; object] (object_semantics (sc_semantics a)).

Definition AllowsField (a : AuthorizedSchema) (field : string) : bool :=
  if negb (String.eqb (sc_operation a) OperationDescribeObject) || negb (nonempty (sc_object a)) then false
  else allowed (Fields (sc_resources a)) [sc_schema a; sc_object a; field] (field_semantics (sc_semantics a)).

(** ** Object statistics *)

Definition canonicalPolicyIdentifier (value : string) (insensitive : bool) : string :=
  if insensitive then to_lower value else value.

Record AuthorizedObjectStatistics := {
  os_principal : string; os_credentialIdentifier : string; os_profile : string;
  os_policyVersion : string; os_policyHash : string; os_datasource : string; os_adapter : string;
  os_operation : string; os_schema : string; os_object : string; os_limits : Limits;
  os_semantics : IdentifierSemantics; os_semanticsGeneration : string;
}.

Definition format_bool (b : bool) : string := if b then "true" else "false".
Definition nul : string := String Ascii.zero EmptyString.

Definition generation_input (s : Snapshot) (binding : AuthorizedBinding) (adapterName : string)
    (m : IdentifierSemantics) : string :=
  sn_hash s +:+ nul +:+ k_profile (ab_key binding) +:+ nul +:+ k_datasource (ab_key binding) +:+ nul +:+
  adapterName +:+ nul +:+ format_bool (CaseInsensitiveSchemas m) +:+ format_bool (CaseInsensitiveObjects m) +:+
  format_bool (CaseInsensitiveFields m).

Section ObjectStatistics.
(** [hex.EncodeToString] of the SHA-256 digest of a text. *)
Context (sha256_hex : string -> string).

Definition AuthorizeObjectStatistics (s : Snapshot) (binding : AuthorizedBinding)
    (credentialIdentifier adapterName : string) (resource : ResourceRef) (semantics : IdentifierSemantics)
  : result AuthorizedObjectStatistics :=
  if? negb (nonempty (ab_principal binding)) || negb (nonempty credentialIdentifier) ||
      negb (nonempty (k_profile (ab_key binding))) || negb (nonempty adapterName)
  return denied ReasonDeniedOperation then
  if? negb (IsIdentifier (r_schema resource)) || negb (IsIdentifier (r_name resource))
  return denied ReasonDeniedResource then
  match profileForBinding s binding OperationDescribeObjectStatistics with
  | Err _ => Err (denied ReasonDeniedOperation)
  | Ok profile =>
      check? authorize_resource (pf_resources profile) resource semantics then
      Ok {| os_principal := ab_principal binding; os_credentialIdentifier := credentialIdentifier;
            os_profile := k_profile (ab_key binding); os_policyVersion := sn_version s;
            os_policyHash := sn_hash s; os_datasource := k_datasource (ab_key binding);
            os_adapter := adapterName; os_operation := OperationDescribeObjectStatistics;
            os_schema := canonicalPolicyIdentifier (r_schema resource) (CaseInsensitiveSchemas semantics);
            os_object := canonicalPolicyIdentifier (r_name resource) (CaseInsensitiveObjects semantics);
            os_limits := Limits_Min (sn_hardLimits s) (pf_limits profile); os_semantics := semantics;
            os_semanticsGeneration := sha256_hex (generation_input s binding adapterName semantics) |}
  end.
End ObjectStatistics.

(** ** Assignments and bindings *)

(** The three assignments behind a binding, and the operation. *)
Definition assigned (s : Snapshot) (principal profileName datasource operation : string) (profile : Profile) : Prop :=
  exists p, sn_principals s !! principal = Some p /\ In profileName (p_profiles p) /\ In datasource (p_datasources p) /\
    sn_profiles s !! profileName = Some profile /\ In datasource (pf_datasources profile) /\
    In operation (pf_operations profile).

Definition minted (s : Snapshot) (principal profileName datasource operation : string) (profile : Profile)
  : AuthorizedBinding := {|
  ab_owner := Some (sn_address s); ab_principal := principal;
  ab_key := {| k_profile := profileName; k_datasource := datasource |};
  ab_operation := operation; ab_limits := Limits_Min (sn_hardLimits s) (pf_limits profile);
  ab_policyHash := sn_hash s |}.

Lemma two_contains l k x y :
  negb (contains l x) || negb (contains k y) = false <-> In x l /\ In y k.
Proof. by rewrite orb_false_iff, !negb_false_iff, !contains_In. Qed.

Lemma AuthorizeBinding_iff s principal profileName datasource operation b :
  AuthorizeBinding s principal profileName datasource operation = Ok b <->
  exists profile, assigned s principal profileName datasource operation profile /\
                  b = minted s principal profileName datasource operation profile.
Proof.
  unfold AuthorizeBinding, assigned, minted.
  destruct (sn_principals s !! principal) as [p|]; [|naive_solver]. rewrite if_err_ok, two_contains.
  destruct (sn_profiles s !! profileName) as [q|]; [|naive_solver]. rewrite if_err_ok, two_contains. naive_solver.
Qed.

Lemma profileForBinding_iff s b operation profile :
  profileForBinding s b operation = Ok profile <->
  ab_owner b = Some (sn_address s) /\ ab_policyHash b = sn_hash s /\ ab_principal b <> EmptyString /\
  k_profile (ab_key b) <> EmptyString /\ k_datasource (ab_key b) <> EmptyString /\ ab_operation b = operation /\
  assigned s (ab_principal b) (k_profile (ab_key b)) (k_datasource (ab_key b)) operation profile.
Proof.
  unfold profileForBinding, assigned.
  rewrite if_err_ok, !orb_false_iff, !negb_false_iff, bool_decide_eq_true, !String.eqb_eq, !String.eqb_neq.
  destruct (sn_principals s !! ab_principal b) as [p|]; [|naive_solver]. rewrite if_err_ok, two_contains.
  destruct (sn_profiles s !! k_profile (ab_key b)) as [q|]; [|naive_solver]. rewrite if_err_ok, two_contains.
  naive_solver.
Qed.

(** A binding is minted exactly when the principal holds the profile and the
    datasource, the profile covers the datasource and allows the operation; its
    limits are the smaller of the hard limits and the profile's in every
    dimension, and hence never above either. *)
Theorem AuthorizeBinding_exact s principal profileName datasource operation b :
  AuthorizeBinding s principal profileName datasource operation = Ok b <->
  exists profile, assigned s principal profileName datasource operation profile /\
    b = minted s principal profileName datasource operation profile /\
    (forall l, Limits_le l (ab_limits b) <-> Limits_le l (sn_hardLimits s) /\ Limits_le l (pf_limits profile)).
Proof.
  rewrite AuthorizeBinding_iff. split; intros (profile & Ha & H); exists profile.
  - subst. split_and!; [done..|]. intros l. apply Limits_Min_glb.
  - by destruct H.
Qed.

(** C27: A binding is an unforgeable capability: the binding that a snapshot minted
    is accepted by a snapshot for an operation only when it is that snapshot and
    that operation, and it then selects the profile it was minted for. *)
Theorem binding_is_capability s principal profileName datasource operation b :
  AuthorizeBinding s principal profileName datasource operation = Ok b ->
  principal <> EmptyString -> profileName <> EmptyString -> datasource <> EmptyString ->
  forall s', (sn_address s' = sn_address s -> s' = s) ->
  forall operation' profile,
  profileForBinding s' b operation' = Ok profile <->
  s' = s /\ operation' = operation /\ sn_profiles s !! profileName = Some profile.
Proof.
  intros (q & Ha & ->)%AuthorizeBinding_iff H1 H2 H3 s' Hid operation' profile.
  rewrite profileForBinding_iff. unfold minted; simpl. split.
  - intros ([= E] & _ & _ & _ & _ & <- & Ha'). rewrite (Hid (eq_sym E)) in *.
    destruct Ha' as (p & ? & ? & ? & ? & _). done.
  - intros (-> & -> & Hp). split_and!; try done. destruct Ha as (p & ? & ? & ? & Hq & ?). exists p.
    by replace profile with q by congruence.
Qed.

(** ** Patterns *)

(** [part_matches ci part v]: one segment of a pattern covers one part of a name. *)
Definition part_matches (ci : bool) (part v : string) : Prop :=
  part = "*" \/ if ci then fold part = fold v else part = v.

Fixpoint parts_match (parts value : list string) (ci : list bool) : Prop :=
  match parts, value with
  | [], [] => True
  | part :: parts', v :: value' =>
      part_matches (default false (head ci)) part v /\ parts_match parts' value' (tail ci)
  | _, _ => False
  end.

(** A pattern covers a name when it is written with as many dot-separated
    segments as the name has parts, each covering its part. *)
Definition pattern_covers (pattern : string) (value : list string) (ci : list bool) : Prop :=
  exists parts, pattern = join "." parts /\ parts <> [] /\ Forall (no_byte ".") parts /\ parts_match parts value ci.

Lemma match_parts_iff parts value ci : match_parts parts value ci = true <-> parts_match parts value ci.
Proof.
  revert value ci. induction parts as [|p parts IH]; intros [|v value] ci; simpl; try done.
  rewrite andb_true_iff, IH, orb_true_iff, String.eqb_eq. unfold part_matches.
  destruct (head ci) as [[]|]; simpl; rewrite ?equal_fold_spec, ?String.eqb_eq; done.
Qed.

Lemma parts_match_length parts value ci : parts_match parts value ci -> len parts = len value.
Proof.
  revert value ci. induction parts as [|p parts IH]; intros [|v value] ci; simpl; try done.
  intros [_ H]. rewrite !len_cons. by rewrite (IH _ _ H).
Qed.

Lemma pattern_match_iff pattern value ci : pattern_match pattern value ci = true <-> pattern_covers pattern value ci.
Proof.
  unfold pattern_match, pattern_covers. destruct (split_byte_spec "." pattern) as [E Hf]. split.
  - destruct (Z.eqb_spec (len (split_byte "." pattern)) (len value)); [|done]. simpl. intros H%match_parts_iff.
    exists (split_byte "." pattern). split_and!; try done. apply split_byte_ne.
  - intros (parts & Ep & Hne & Hp & Hm).
    assert (Hs : split_byte "." pattern = parts).
    { apply (join_no_byte_inj "."); try done; [apply split_byte_ne|congruence]. }
    rewrite Hs, (parts_match_length parts value ci Hm), Z.eqb_refl. by apply match_parts_iff.
Qed.

(** [permits p v ci]: no deny pattern covers the name, and an allow pattern does
    unless there are none. *)
Definition permits (policy : PatternPolicy) (value : list string) (ci : list bool) : Prop :=
  (forall d, In d (Deny policy) -> ~ pattern_covers d value ci) /\
  (Allow policy = [] \/ exists a, In a (Allow policy) /\ pattern_covers a value ci).

Lemma allowed_iff policy value ci : allowed policy value ci = true <-> permits policy value ci.
Proof.
  unfold allowed, permits. setoid_rewrite <- pattern_match_iff.
  destruct (existsb _ (Deny policy)) eqn:Ed.
  - apply existsb_exists in Ed as (d & ? & ?). split; [done|]. intros [Hn _]. exfalso. by eapply Hn.
  - assert (Hd : forall d, In d (Deny policy) -> pattern_match d value ci <> true).
    { intros d Hin Hm. assert (existsb (fun p => pattern_match p value ci) (Deny policy) = true)
        by (apply existsb_exists; eauto). congruence. }
    destruct (len (Allow policy) =? 0) eqn:El.
    + apply len_zero in El. split; [auto|done].
    + rewrite existsb_exists. assert (Allow policy <> []) by (intros E; apply len_zero in E; congruence).
      split; [auto|]. intros [_ [?|?]]; done.
Qed.

(** Resource patterns: a name is allowed exactly when no deny pattern covers
    it and, if there are allow patterns, one of them does; a pattern covers a
    name segment by segment, [*] covering any segment and case ignored just in
    the segments the datasource treats so. Deny always wins. *)
Theorem allowed_exact policy value ci : allowed policy value ci = true <-> permits policy value ci.
Proof. apply allowed_iff. Qed.

(** ** What a query mentions *)

(** [filter_mentions f p]: [p] is one of the predicates of the filter tree. *)
Inductive filter_has (f : Filter) : Filter -> Prop :=
| has_itself : f_kind f = "predicate" -> filter_has f f
| has_below e p : f_kind f <> "predicate" -> In e (f_expressions f) -> filter_has e p -> filter_has f p.

Definition spec_filter_has (spec : NormalizedSpec) (p : Filter) : Prop :=
  exists f, n_filter spec = Some f /\ filter_has f p.

(** A field of the query, wherever it is written. *)
Definition query_mentions (spec : NormalizedSpec) (field : string) : Prop :=
  field <> EmptyString /\
  ((exists s, In s (n_projection spec) /\ s_field s = field) \/
   (exists p, spec_filter_has spec p /\ f_field p = field) \/
   In field (n_group_by spec) \/
   (exists o, In o (n_order_by spec) /\ o_field o = field)).

Lemma collect_spec (g : Filter -> string) (collect : Filter -> list string) f x :
  (forall f, collect f = if String.eqb (f_kind f) "predicate" then [g f] else flat_map collect (f_expressions f)) ->
  In x (collect f) <-> exists p, filter_has f p /\ g p = x.
Proof.
  intros Hc. induction f as [r k fl o vs es IH] using Filter_ind'. rewrite Hc.
  cbn [f_kind f_expressions]. rewrite Forall_forall in IH. destruct (String.eqb_spec k "predicate") as [E|E].
  - simpl. split.
    + intros [<-|[]]. eexists. split; [by apply has_itself|done].
    + intros (p & Hp & <-). left. inversion Hp; subst; [done|]. contradiction.
  - rewrite in_flat_map. split.
    + intros (e & He & Hx). apply IH in Hx as (p & Hp & <-); [|by apply list_elem_of_In].
      exists p. split; [|done]. by eapply has_below.
    + intros (p & Hp & <-). inversion Hp as [|e p' _ He Hp']; subst; [contradiction|]. exists e. split; [done|].
      apply IH; [by apply list_elem_of_In|]. eauto.
Qed.

Lemma collectFields_spec f x : In x (collectFields f) <-> exists p, filter_has f p /\ f_field p = x.
Proof. apply collect_spec. by intros []. Qed.

Lemma collectOperators_spec f x : In x (collectOperators f) <-> exists p, filter_has f p /\ f_operator p = x.
Proof. apply collect_spec. by intros []. Qed.

Lemma string_compare_eq a b : String.compare a b = Eq -> a = b.
Proof. apply String.compare_eq_iff. Qed.

Lemma insert_field_In x f l : In x (insert_field f l) <-> x = f \/ In x l.
Proof.
  induction l as [|y l IH]; simpl; [intuition|].
  destruct (String.compare f y) eqn:E; simpl; [|intuition|rewrite IH; intuition].
  apply string_compare_eq in E as ->. intuition.
Qed.

Lemma sorted_set_In x l : In x (sorted_set l) <-> x <> EmptyString /\ In x l.
Proof.
  unfold sorted_set. assert (H : forall acc, In x (fold_left (fun acc field =>
      if nonempty field then insert_field field acc else acc) l acc) <-> In x acc \/ (x <> EmptyString /\ In x l)).
  { induction l as [|y l IH]; intros acc; simpl; [intuition|]. rewrite IH.
    destruct (nonempty y) eqn:Hy.
    - apply nonempty_true in Hy. rewrite insert_field_In. intuition congruence.
    - apply nonempty_false in Hy as ->. intuition congruence. }
  rewrite H. simpl. intuition.
Qed.

Lemma referencedFields_iff spec x : In x (referencedFields spec) <-> query_mentions spec x.
Proof.
  unfold referencedFields, query_mentions, mentioned_fields. rewrite sorted_set_In, !in_app_iff, !in_map_iff.
  assert (Hf : In x match n_filter spec with None => [] | Some f => collectFields f end <->
               exists p, spec_filter_has spec p /\ f_field p = x).
  { unfold spec_filter_has. destruct (n_filter spec) as [f|]; [rewrite collectFields_spec|]; naive_solver. }
  rewrite Hf. naive_solver.
Qed.

(** ** What a profile permits *)

Definition features_permitted (policy : QueryPolicy) (spec : NormalizedSpec) : Prop :=
  (UsesSourceText spec = true -> AllowSourceText policy = true) /\
  (n_filter spec <> None -> AllowFiltering policy = true) /\
  (forall p, spec_filter_has spec p -> In (f_operator p) (AllowedFilterOperators policy)) /\
  (n_group_by spec <> [] -> AllowGroupBy policy = true) /\
  (n_order_by spec <> [] -> AllowSorting policy = true) /\
  (forall s, In s (n_projection spec) -> s_kind s = "aggregate" -> In (s_function s) (AllowedAggregates policy)).

Record query_permitted (profile : Profile) (m : IdentifierSemantics) (spec : NormalizedSpec) : Prop := {
  permits_schema : permits (Schemas (pf_resources profile)) [r_schema (n_source spec)] (schema_semantics m);
  permits_object : permits (Objects (pf_resources profile)) [r_schema (n_source spec); r_name (n_source spec)]
                           (object_semantics m);
  permits_fields : forall field, query_mentions spec field ->
    permits (Fields (pf_resources profile)) [r_schema (n_source spec); r_name (n_source spec); field]
            (field_semantics m);
  permits_features : features_permitted (pf_query profile) spec;
}.

Lemma authorize_resource_ok r source m :
  authorize_resource r source m = Ok tt <->
  permits (Schemas r) [r_schema source] (schema_semantics m) /\
  permits (Objects r) [r_schema source; r_name source] (object_semantics m).
Proof. unfold authorize_resource. by rewrite guard_ok, orb_false_iff, !negb_false_iff, !allowed_iff. Qed.

Lemma authorize_fields_ok r source fields m :
  authorize_fields r source fields m = Ok tt <->
  forall field, In field fields ->
    permits (Fields r) [r_schema source; r_name source; field] (field_semantics m).
Proof.
  unfold authorize_fields. rewrite each_const_ok, Forall_forall.
  setoid_rewrite negb_false_iff. setoid_rewrite allowed_iff. by setoid_rewrite list_elem_of_In.
Qed.

Lemma authorize_operators_ok policy filter :
  authorize_operators policy filter = Ok tt <->
  (filter <> None -> AllowFiltering policy = true) /\
  (forall f p, filter = Some f -> filter_has f p -> In (f_operator p) (AllowedFilterOperators policy)).
Proof.
  unfold authorize_operators. destruct filter as [f|]; [|naive_solver].
  rewrite if_err_ok, negb_false_iff, each_const_ok, Forall_forall.
  setoid_rewrite negb_false_iff. setoid_rewrite contains_In. setoid_rewrite list_elem_of_In.
  setoid_rewrite collectOperators_spec. naive_solver.
Qed.

Lemma positive_len {A} (l : list A) : (0 <? len l) = true <-> l <> [].
Proof. rewrite Z.ltb_lt, <- len_zero, Z.eqb_eq. pose proof (len_nonneg l). lia. Qed.

Lemma guarded (b c : bool) : b && negb c = false <-> (b = true -> c = true).
Proof. destruct b, c; naive_solver. Qed.

Lemma authorizeFeatures_ok policy spec :
  authorizeFeatures policy spec = Ok tt <-> features_permitted policy spec.
Proof.
  unfold authorizeFeatures, features_permitted, spec_filter_has.
  rewrite if_err_ok, check_ok, !if_err_ok, authorize_operators_ok, !guarded, !positive_len, each_const_ok, Forall_forall.
  setoid_rewrite guarded. setoid_rewrite String.eqb_eq. setoid_rewrite contains_In.
  setoid_rewrite list_elem_of_In. naive_solver.
Qed.

Lemma ValidateSimpleSelect_ok q :
  ValidateSimpleSelect q = Ok tt <->
  v_valid q = true /\ n_group_by (v_spec q) = [] /\ Forall (fun s => s_kind s = "field") (n_projection (v_spec q)).
Proof.
  unfold ValidateSimpleSelect. rewrite !if_err_ok, !negb_false_iff, len_zero.
  rewrite (each_ok_Forall _ (fun s => s_kind s = "field")); [done|].
  intros i s. by rewrite guard_ok, negb_false_iff, String.eqb_eq.
Qed.

(** What an authorized query carries. *)
Definition granted (s : Snapshot) (b : AuthorizedBinding) (operation : string) (profile : Profile) (v : Validated)
  : AuthorizedQuery := {|
  aq_principal := ab_principal b; aq_profile := k_profile (ab_key b); aq_datasource := k_datasource (ab_key b);
  aq_operation := operation; aq_limits := Limits_Min (sn_hardLimits s) (pf_limits profile); aq_query := v |}.

Lemma authorizeQuery_iff s b operation q m aq :
  authorizeQuery s b operation q m = Ok aq <->
  exists profile v,
    profileForBinding s b operation = Ok profile /\
    Revalidate q (select_limits (Limits_Min (sn_hardLimits s) (pf_limits profile))) = Ok v /\
    (operation = OperationSelect ->
       n_group_by (v_spec v) = [] /\ Forall (fun s => s_kind s = "field") (n_projection (v_spec v))) /\
    query_permitted profile m (v_spec v) /\
    aq = granted s b operation profile v.
Proof.
  unfold authorizeQuery. destruct (profileForBinding s b operation) as [profile|e]; [|naive_solver].
  rewrite rbind_ok. setoid_rewrite check_ok'. setoid_rewrite check_ok'. setoid_rewrite check_ok'. setoid_rewrite check_ok'.
  assert (Hsel : forall v, Revalidate q (select_limits (Limits_Min (sn_hardLimits s) (pf_limits profile))) = Ok v ->
    (if String.eqb operation OperationSelect then ValidateSimpleSelect v else nil_error) = Ok tt <->
    (operation = OperationSelect ->
       n_group_by (v_spec v) = [] /\ Forall (fun s => s_kind s = "field") (n_projection (v_spec v)))).
  { intros v Hv. rewrite if_nil_ok, String.eqb_eq, ValidateSimpleSelect_ok. apply Revalidate_ok in Hv.
    assert (v_valid v = true) by (by destruct_and!; subst). naive_solver. }
  setoid_rewrite authorize_resource_ok. setoid_rewrite authorize_fields_ok. setoid_rewrite authorizeFeatures_ok.
  setoid_rewrite referencedFields_iff. split.
  - intros (v & Hv & Hs & [H1 H2] & H3 & H4 & [= <-]). exists profile, v. rewrite Hsel in Hs by done.
    split_and!; done.
  - intros (p & v & [= <-] & Hv & Hs & [H1 H2 H3 H4] & ->). exists v. rewrite Hsel by done. split_and!; done.
Qed.

(** C26: A select or explain query is authorized exactly when the binding is valid
    for the operation, the query stays within the effective limits, and the
    profile permits its schema, its object, every field it mentions anywhere in
    projection, filter, grouping and order, and every feature it uses. What is
    executed is the revalidated query under the effective limits. *)
Theorem authorizeQuery_exact s b operation q m aq :
  authorizeQuery s b operation q m = Ok aq <->
  exists profile v,
    profileForBinding s b operation = Ok profile /\
    Revalidate q (select_limits (Limits_Min (sn_hardLimits s) (pf_limits profile))) = Ok v /\
    (operation = OperationSelect ->
       n_group_by (v_spec v) = [] /\ Forall (fun s => s_kind s = "field") (n_projection (v_spec v))) /\
    query_permitted profile m (v_spec v) /\
    aq = granted s b operation profile v.
Proof. apply authorizeQuery_iff. Qed.

(** ** Schema operations *)

Lemma IsIdentifier_iff v : IsIdentifier v = true <-> is_identifier v = true.
Proof.
  unfold IsIdentifier. rewrite <- (validateIdentifier_ok "identifier").
  destruct (validateIdentifier "identifier" v) as [[]|]; naive_solver.
Qed.

(** A schema grant discloses only what the profile permits: a grant to list
    objects admits exactly the permitted objects of its schema and no field, a
    grant to describe an object admits exactly the permitted fields of that
    permitted object and no object, and no other operation gets a grant. *)
Theorem schema_grant_confined s b operation resource m a :
  authorizeSchema s b operation resource m = Ok a ->
  exists profile, profileForBinding s b operation = Ok profile /\
    permits (Schemas (pf_resources profile)) [r_schema resource] (schema_semantics m) /\
    sc_limits a = Limits_Min (sn_hardLimits s) (pf_limits profile) /\
    (operation = OperationListObjects /\ (forall field, AllowsField a field = false) /\
       (forall object, AllowsObject a object = true <->
          permits (Objects (pf_resources profile)) [r_schema resource; object] (object_semantics m))
     \/
     operation = OperationDescribeObject /\ (forall object, AllowsObject a object = false) /\
       permits (Objects (pf_resources profile)) [r_schema resource; r_name resource] (object_semantics m) /\
       (forall field, AllowsField a field = true <->
          permits (Fields (pf_resources profile)) [r_schema resource; r_name resource; field] (field_semantics m))).
Proof.
  unfold authorizeSchema. rewrite check_ok'. intros [Hop H].
  destruct (profileForBinding s b operation) as [profile|] eqn:Hp; [|done]. exists profile.
  rewrite !if_err_ok, negb_false_iff, allowed_iff in H. destruct H as (Hs & Ho & [= <-]).
  split_and!; try done. unfold AllowsField, AllowsObject; cbn [sc_operation sc_object sc_resources sc_schema sc_semantics].
  destruct (String.eqb_spec operation OperationListObjects) as [->|H1].
  - apply guard_ok in Hop. rewrite orb_false_iff, nonempty_false in Hop. destruct Hop as [_ Hn]. left.
    rewrite Hn. setoid_rewrite <- allowed_iff. done.
  - destruct (String.eqb_spec operation OperationDescribeObject) as [->|H2]; [|done].
    apply guard_ok in Hop. rewrite orb_false_iff, !negb_false_iff, !IsIdentifier_iff in Hop. destruct Hop as [_ Hn].
    assert (Hne : nonempty (r_name resource) = true).
    { unfold is_identifier in Hn. by destruct (nonempty (r_name resource)). }
    rewrite Hne in Ho. cbn [andb] in Ho. apply negb_false_iff, allowed_iff in Ho. right.
    rewrite Hne. split_and!; [done..|]. intros field. by rewrite <- allowed_iff.
Qed.

(** ** A small snapshot *)

Definition some_limits : Limits := {|
  DeadlineMS := 1000; MaxRequestBytes := 65536; MaxProjectionFields := 20; MaxGroupByFields := 5;
  MaxOrderByFields := 5; MaxPredicates := 20; MaxExpressionDepth := 5; MaxParameters := 50; MaxRows := 100;
  MaxResultBytes := 65536; MaxOffset := 1000; MaxConcurrency := 2 |}.

Definition example_profile : Profile := {|
  pf_datasources := ["main"];
  pf_operations := [OperationSelect; OperationDescribeObject];
  pf_resources := {| Schemas := {| Allow := ["shop"]; Deny := [] |};
                     Objects := {| Allow := ["shop.*"]; Deny := ["shop.secrets"] |};
                     Fields := {| Allow := []; Deny := ["*.*.password"] |} |};
  pf_query := {| AllowSourceText := false; AllowFiltering := true; AllowGroupBy := false; AllowSorting := true;
                 AllowedFilterOperators := ["gt"; "eq"]; AllowedAggregates := []; AggregateShapes := [];
                 KeysetSelectShapes := [] |};
  pf_limits := some_limits |}.

Definition example_snapshot : Snapshot := {|
  sn_address := 1; sn_version := "v1"; sn_hash := "h1"; sn_hardLimits := some_limits;
  sn_principals := {[ "alice" := {| p_profiles := ["reader"]; p_datasources := ["main"] |} ]};
  sn_profiles := {[ "reader" := example_profile ]} |}.

Definition sensitive : IdentifierSemantics := {|
  CaseInsensitiveSchemas := false; CaseInsensitiveObjects := false; CaseInsensitiveFields := true |}.

Definition example_binding (operation : string) : AuthorizedBinding :=
  minted example_snapshot "alice" "reader" "main" operation example_profile.

Example example_authorization :
  (is_ok (AuthorizeSelect example_snapshot (example_binding OperationSelect)
            (normalize example_spec example_limits) sensitive),
   is_ok (AuthorizeExplain example_snapshot (example_binding OperationSelect)
            (normalize example_spec example_limits) sensitive),
   map (fun v => allowed (Fields (pf_resources example_profile)) v (field_semantics sensitive))
     [["shop"; "users"; "Password"]; ["shop"; "users"; "name"]])
  = (true, false, [false; true]).
Proof. vm_compute. reflexivity. Qed.

Lemma binding_is_capability_witness :
  profileForBinding example_snapshot (example_binding OperationSelect) OperationSelect = Ok example_profile <->
  example_snapshot = example_snapshot /\ OperationSelect = OperationSelect /\
  sn_profiles example_snapshot !! "reader" = Some example_profile.
Proof.
  apply (binding_is_capability example_snapshot "alice" "reader" "main" OperationSelect (example_binding OperationSelect));
    [vm_compute; reflexivity|discriminate|discriminate|discriminate|reflexivity].
Defined.

Definition example_grant : AuthorizedSchema := {|
  sc_principal := "alice"; sc_profile := "reader"; sc_datasource := "main"; sc_operation := OperationDescribeObject;
  sc_schema := "shop"; sc_object := "users"; sc_limits := Limits_Min some_limits some_limits;
  sc_resources := pf_resources example_profile; sc_semantics := sensitive |}.

Lemma schema_grant_confined_witness :
  exists profile,
    profileForBinding example_snapshot (example_binding OperationDescribeObject) OperationDescribeObject = Ok profile /\
    permits (Schemas (pf_resources profile)) ["shop"] (schema_semantics sensitive) /\
    sc_limits example_grant = Limits_Min (sn_hardLimits example_snapshot) (pf_limits profile) /\
    (OperationDescribeObject = OperationListObjects /\ (forall field, AllowsField example_grant field = false) /\
       (forall object, AllowsObject example_grant object = true <->
          permits (Objects (pf_resources profile)) ["shop"; object] (object_semantics sensitive))
     \/
     OperationDescribeObject = OperationDescribeObject /\ (forall object, AllowsObject example_grant object = false) /\
       permits (Objects (pf_resources profile)) ["shop"; "users"] (object_semantics sensitive) /\
       (forall field, AllowsField example_grant field = true <->
          permits (Fields (pf_resources profile)) ["shop"; "users"; field] (field_semantics sensitive))).
Proof.
  apply (schema_grant_confined example_snapshot (example_binding OperationDescribeObject) OperationDescribeObject
    {| r_schema := "shop"; r_name := "users" |} sensitive example_grant).
  vm_compute. reflexivity.
Defined.
