(* ===== verification/Sql.v ===== *)
(** The SQL compiler of the MySQL adapter (internal/adapters/mysql8/mysql8.go and
    source_text.go): the SELECT and EXPLAIN statements with their bind
    arguments. The theorems read the statement back with a small lexer: which
    identifiers it quotes, how many placeholders it has, and that the values
    of the request never reach its text. *)
From S2P Require Import Prelude Domain GoJson Number Portable Values QuerySpec Config Policy.
Local Open Scope string_scope.
Local Open Scope Z_scope.

(** ** Quoting *)

Definition backtick : ascii := "`".

(** [strings.ReplaceAll(identifier, "`", "``")] *)
Fixpoint double_backticks (s : string) : string :=
  match s with
  | EmptyString => EmptyString
  | String c r =>
      if Ascii.eqb c backtick then String c (String c (double_backticks r)) else String c (double_backticks r)
  end.

Definition quote (identifier : string) : string := "`" +:+ double_backticks identifier +:+ "`".

Definition qualifySourceField (source : ResourceRef) (field : string) : string :=
  quote (r_schema source) +:+ "." +:+ quote (r_name source) +:+ "." +:+ quote field.

(** ** Source text *)

Definition sourceTextExpression (field : string) (binary : bool) : string :=
  let expression := "CAST(" +:+ field +:+ " AS CHAR CHARACTER SET utf8mb4)" in
  if binary then "CAST(" +:+ expression +:+ " AS BINARY)" else expression.

Definition representedField (field r : string) (binary : bool) : string :=
  if String.eqb r RepresentationSourceText then sourceTextExpression field binary else field.

Definition validateSourceTextType (dataType : string) : error :=
  if? negb (contains ["DATE"; "DATETIME"; "TIMESTAMP"] (to_upper (trim_space dataType)))
  return DatabaseError "invalid" then nil_error.

(** ** Filters *)

Definition operators : list (string * string) :=
  [("eq", "="); ("ne", "<>"); ("lt", "<"); ("lte", "<="); ("gt", ">"); ("gte", ">="); ("like", "LIKE");
   ("in", "IN"); ("not_in", "NOT IN"); ("is_null", "IS NULL"); ("is_not_null", "IS NOT NULL")].

Fixpoint assoc (l : list (string * string)) (k : string) : option string :=
  match l with
  | [] => None
  | (x, v) :: l' => if String.eqb k x then Some v else assoc l' k
  end.

Definition is_null_test (operator : string) : bool := contains ["is_null"; "is_not_null"] operator.
Definition is_membership (operator : string) : bool := contains ["in"; "not_in"] operator.

(** The loop over the values of a predicate: their binds, in order. *)
Fixpoint bind_values (values : list TypedValue) : result (list Bind) :=
  match values with
  | [] => Ok []
  | v :: values' =>
      let? bound := TypedValue_BindValue v in
      let? bounds := bind_values values' in
      Ok (bound :: bounds)
  end.

(** The same loop in a source-text predicate, which takes strings only. *)
Fixpoint bind_texts (values : list TypedValue) : result (list Bind) :=
  match values with
  | [] => Ok []
  | v :: values' =>
      if? negb (String.eqb (tv_type v) "string") return ErrorString "source_text requires string operands" then
      let? bound := TypedValue_BindValue v in
      let? bounds := bind_texts values' in
      Ok (bound :: bounds)
  end.

Definition compileSourceTextFilter (filter : Filter) (field : string) : result (string * list Bind) :=
  match assoc operators (f_operator filter) with
  | None => Err (ErrorString "unsupported source_text operator")
  | Some op =>
      let field := sourceTextExpression field true in
      if is_null_test (f_operator filter) then Ok (field +:+ " " +:+ op, [])
      else
        let? args := bind_texts (values_of filter) in
        let placeholders := map (fun _ => "CAST(? AS BINARY)") args in
        if is_membership (f_operator filter) then
          Ok (field +:+ " " +:+ op +:+ " (" +:+ join ", " placeholders +:+ ")", args)
        else
          if? negb (len args =? 1) return ErrorString "invalid source_text operand arity" then
          Ok (field +:+ " " +:+ op +:+ " " +:+ default EmptyString (head placeholders), args)
  end.

(** The loop over the expressions of a group: their texts and all their binds. *)
Section CompileAll.
Context {A : Type} (f : A -> result (string * list Bind)).

Fixpoint compile_all (l : list A) : result (list string * list Bind) :=
  match l with
  | [] => Ok ([], [])
  | x :: l' =>
      let? (part, childArgs) := f x in
      let? (parts, args) := compile_all l' in
      Ok (part :: parts, (childArgs ++ args)%list)
  end.
End CompileAll.

(** [compileFilter] and [compileAggregateFilter] differ only in the text of a
    field: [qualify]. *)
Section FilterText.
Context (qualify : string -> string).

Fixpoint compile_filter (filter : Filter) : result (string * list Bind) :=
  if String.eqb (f_representation filter) RepresentationSourceText then
    compileSourceTextFilter filter (qualify (f_field filter))
  else if String.eqb (f_kind filter) "group" then
    let? (parts, args) := compile_all compile_filter (f_expressions filter) in
    Ok ("(" +:+ join (" " +:+ to_upper (f_operator filter) +:+ " ") parts +:+ ")", args)
  else
    match assoc operators (f_operator filter) with
    | None => Err (ErrorString "unsupported filter operator")
    | Some operator =>
        let field := qualify (f_field filter) in
        if is_null_test (f_operator filter) then Ok (field +:+ " " +:+ operator, [])
        else
          let? args := bind_values (values_of filter) in
          if is_membership (f_operator filter) then
            Ok (field +:+ " " +:+ operator +:+ " (" +:+ join ", " (map (fun _ => "?") args) +:+ ")", args)
          else Ok (field +:+ " " +:+ operator +:+ " ?", args)
    end.
End FilterText.

Definition compileFilter : Filter -> result (string * list Bind) := compile_filter quote.

(** ** Statements *)

Definition alias_clause (selection : Selection) : string :=
  if nonempty (s_alias selection) then " AS " +:+ quote (s_alias selection)
  else if String.eqb (s_representation selection) RepresentationSourceText then
    " AS " +:+ quote (s_field selection)
  else EmptyString.

Definition select_expression (source : ResourceRef) (selection : Selection) : string :=
  representedField (qualifySourceField source (s_field selection)) (s_representation selection) false +:+
  alias_clause selection.

Definition explain_expression (selection : Selection) : string :=
  (if String.eqb (s_kind selection) "field" then
     representedField (quote (s_field selection)) (s_representation selection) false
   else
     to_upper (s_function selection) +:+ "(" +:+
     (if nonempty (s_field selection) then quote (s_field selection) else "*") +:+ ")") +:+
  alias_clause selection.

Definition where_clause (filter : option Filter) : result (string * list Bind) :=
  match filter with
  | None => Ok (EmptyString, [])
  | Some f => let? (text, args) := compileFilter f in Ok (" WHERE " +:+ text, args)
  end.

Definition group_clause (source : ResourceRef) (groupBy : list string) : string :=
  if 0 <? len groupBy then " GROUP BY " +:+ join ", " (map (qualifySourceField source) groupBy) else EmptyString.

Definition sort_expression (source : ResourceRef) (sort : Sort) : string :=
  representedField (qualifySourceField source (o_field sort)) (o_representation sort) true +:+ " " +:+
  to_upper (o_direction sort).

Definition order_clause (source : ResourceRef) (orderBy : list Sort) : string :=
  if 0 <? len orderBy then " ORDER BY " +:+ join ", " (map (sort_expression source) orderBy) else EmptyString.

Definition select_head (deadlineMS : Z) : string := "SELECT /*+ MAX_EXECUTION_TIME(" +:+ itoa deadlineMS +:+ ") */ ".

Definition compile (spec : NormalizedSpec) (deadlineMS : Z) : result (string * list Bind) :=
  let? (where_text, args) := where_clause (n_filter spec) in
  Ok ("EXPLAIN FORMAT=JSON " +:+ select_head deadlineMS +:+
      join ", " (map explain_expression (n_projection spec)) +:+ " FROM " +:+
      quote (r_schema (n_source spec)) +:+ "." +:+ quote (r_name (n_source spec)) +:+ where_text +:+
      group_clause (n_source spec) (n_group_by spec) +:+ order_clause (n_source spec) (n_order_by spec) +:+
      " LIMIT ? OFFSET ?",
      (args ++ [BindInt (n_limit spec); BindInt (n_offset spec)])%list).

Definition compileSelect (spec : NormalizedSpec) (deadlineMS rowLimit : Z) : result (string * list Bind) :=
  let? (where_text, args) := where_clause (n_filter spec) in
  Ok (select_head deadlineMS +:+
      join ", " (map (select_expression (n_source spec)) (n_projection spec)) +:+ " FROM " +:+
      quote (r_schema (n_source spec)) +:+ "." +:+ quote (r_name (n_source spec)) +:+ where_text +:+
      order_clause (n_source spec) (n_order_by spec) +:+ " LIMIT ? OFFSET ?",
      (args ++ [BindInt rowLimit; BindInt (n_offset spec)])%list).

Example compile_example :
  compileSelect (v_spec (normalize example_spec example_limits)) 1000 51 =
  Ok ("SELECT /*+ MAX_EXECUTION_TIME(1000) */ `shop`.`orders`.`id`, `shop`.`orders`.`total` FROM `shop`.`orders` WHERE (`id` > ? AND `state` = ?) ORDER BY `shop`.`orders`.`id` ASC LIMIT ? OFFSET ?",
      [BindInt 10; BindString "open"; BindInt 51; BindInt 0]).
Proof. vm_compute. reflexivity. Qed.

(** ** Reading a statement back *)

Inductive lexmode : Type :=
| Outside
| Inside (current : string)
| Literal (current : string)
| Rejected.

(** The identifiers quoted so far and the number of placeholders. *)
Record lexed := Lexed { lx_mode : lexmode; lx_names : list string; lx_marks : Z }.

(** Outside identifiers a statement has no separator, comment to the end of the
    line, escape, nor any byte that is not printable ASCII; and no string literal
    but the formats of the time buckets. *)
Definition date_formats : list string :=
  ["%Y-%m-%dT%H:00:00Z"; "%Y-%m-%dT00:00:00Z"; "%Y-%m-01T00:00:00Z"].

Definition forbidden (c : ascii) : bool :=
  existsb (Ascii.eqb c) ["'"%char; ";"%char; "#"%char; ascii_of_nat 34; ascii_of_nat 92] ||
  (byte c <? 32) || (126 <? byte c).

Definition lex_step (st : lexed) (c : ascii) : lexed :=
  match lx_mode st with
  | Outside =>
      if Ascii.eqb c backtick then Lexed (Inside EmptyString) (lx_names st) (lx_marks st)
      else if Ascii.eqb c "'" then Lexed (Literal EmptyString) (lx_names st) (lx_marks st)
      else if forbidden c then Lexed Rejected (lx_names st) (lx_marks st)
      else if Ascii.eqb c "?" then Lexed Outside (lx_names st) (lx_marks st + 1)
      else st
  | Inside current =>
      if Ascii.eqb c backtick then Lexed Outside (lx_names st ++ [current])%list (lx_marks st)
      else Lexed (Inside (current +:+ String c EmptyString)) (lx_names st) (lx_marks st)
  | Literal current =>
      if Ascii.eqb c "'" then
        Lexed (if contains date_formats current then Outside else Rejected) (lx_names st) (lx_marks st)
      else Lexed (Literal (current +:+ String c EmptyString)) (lx_names st) (lx_marks st)
  | Rejected => st
  end.

Fixpoint lex (st : lexed) (s : string) : lexed :=
  match s with
  | EmptyString => st
  | String c s' => lex (lex_step st c) s'
  end.

(** [piece s names marks]: the text [s] stands outside identifiers, quotes
    exactly [names], in order, and has [marks] placeholders. *)
Definition piece (s : string) (names : list string) (marks : Z) : Prop :=
  forall ns k, lex (Lexed Outside ns k) s = Lexed Outside (ns ++ names)%list (k + marks).

Definition plain_char (c : ascii) : bool := negb (Ascii.eqb c backtick) && negb (forbidden c).

Fixpoint count_marks (s : string) : Z :=
  match s with
  | EmptyString => 0
  | String c s' => (if Ascii.eqb c "?" then 1 else 0) + count_marks s'
  end.

Lemma lex_app st a b : lex st (a +:+ b) = lex (lex st a) b.
Proof. revert st. induction a as [|c a IH]; intros st; [done|]. rewrite sapp_cons. apply IH. Qed.

Lemma piece_nil : piece EmptyString [] 0.
Proof. intros ns k. simpl. by rewrite app_nil_r, Z.add_0_r. Qed.

Lemma piece_app a b na nb ka kb : piece a na ka -> piece b nb kb -> piece (a +:+ b) (na ++ nb)%list (ka + kb).
Proof. intros Ha Hb ns k. by rewrite lex_app, Ha, Hb, app_assoc, Z.add_assoc. Qed.

Lemma piece_plain s : sforall plain_char s = true -> piece s [] (count_marks s).
Proof.
  induction s as [|c s IH]; [intros _; apply piece_nil|]. cbn [sforall]. rewrite andb_true_iff. intros [Hc Hs] ns k.
  unfold plain_char in Hc. rewrite andb_true_iff, !negb_true_iff in Hc. destruct Hc as [H1 H2].
  cbn [lex count_marks]. unfold lex_step; cbn [lx_mode lx_names lx_marks].
  destruct (Ascii.eqb_spec c "'") as [->|_]; [discriminate H2|]. rewrite H1, H2.
  destruct (Ascii.eqb c "?"); rewrite (IH Hs); f_equal; lia.
Qed.

Lemma piece_eq s names marks names' marks' :
  piece s names marks -> names = names' -> marks = marks' -> piece s names' marks'.
Proof. by intros ? <- <-. Qed.

Lemma lex_inside cur x ns k : no_byte backtick x ->
  lex (Lexed (Inside cur) ns k) x = Lexed (Inside (cur +:+ x)) ns k.
Proof.
  revert cur. induction x as [|c x IH]; intros cur Hx; [by rewrite sapp_nil_r|].
  unfold no_byte in Hx. cbn [sforall] in Hx. apply andb_true_iff in Hx as [Hc Hx].
  cbn [lex]. unfold lex_step; cbn [lx_mode lx_names lx_marks]. apply negb_true_iff in Hc. rewrite Hc, IH by done.
  do 2 f_equal. by rewrite sapp_assoc.
Qed.

Lemma double_backticks_none x : no_byte backtick x -> double_backticks x = x.
Proof.
  unfold no_byte. induction x as [|c x IH]; [done|]. cbn [sforall double_backticks].
  intros [Hc Hx]%andb_true_iff. apply negb_true_iff in Hc. by rewrite Hc, IH.
Qed.

Lemma piece_quote x : no_byte backtick x -> piece (quote x) [x] 0.
Proof.
  intros Hx ns k. unfold quote. rewrite double_backticks_none by done.
  change (lex (Lexed (Inside EmptyString) ns k) (x +:+ "`") = Lexed Outside (ns ++ [x])%list (k + 0)).
  rewrite lex_app, lex_inside, sapp_nil_l by done. simpl. by rewrite Z.add_0_r.
Qed.

Lemma identifier_no_backtick x : is_identifier x = true -> no_byte backtick x.
Proof.
  unfold is_identifier, no_byte. rewrite !andb_true_iff. intros [_ H]. destruct x as [|c x]; [done|].
  cbn [identifierPattern] in H. apply andb_true_iff in H as [H1 H2].
  assert (Hall : forall d, is_identifier_char d = true -> negb (Ascii.eqb d backtick) = true)
    by (intros d; destruct (Ascii.eqb_spec d backtick) as [->|]; done).
  cbn [sforall]. rewrite (Hall c) by (unfold is_identifier_char; by rewrite H1).
  by apply (sforall_impl is_identifier_char).
Qed.

(** ** Pieces of a list *)
Section PieceJoin.
Context {A : Type} (sep : string) (f : A -> string) (names : A -> list string) (marks : A -> Z).
Context (Hsep : piece sep [] 0).

Lemma piece_join l : (forall x, In x l -> piece (f x) (names x) (marks x)) ->
  piece (join sep (map f l)) (flat_map names l) (sum_of marks l).
Proof.
  induction l as [|x l IH]; intros H; [apply piece_nil|].
  assert (Hx := H x (or_introl eq_refl)). assert (Hl := IH (fun y Hy => H y (or_intror Hy))).
  destruct l as [|y l].
  - simpl in *. eapply piece_eq; [exact Hx|by rewrite app_nil_r|lia].
  - change (join sep (map f (x :: y :: l))) with (f x +:+ sep +:+ join sep (map f (y :: l))).
    eapply piece_eq; [apply piece_app; [exact Hx|apply piece_app; [exact Hsep|exact Hl]]|done|].
    change (sum_of marks (x :: y :: l)) with (marks x + sum_of marks (y :: l)). lia.
Qed.
End PieceJoin.

(** [itoa] writes digits and a sign. *)
Lemma itoa_plain z : sforall (fun c => is_digit c || Ascii.eqb c "-") (itoa z) = true.
Proof.
  assert (Hu : forall d, sforall (fun c => is_digit c || Ascii.eqb c "-") (DecimalString.NilZero.string_of_uint d) = true).
  { intros d. unfold DecimalString.NilZero.string_of_uint.
    assert (forall s, sforall is_digit s = true -> sforall (fun c => is_digit c || Ascii.eqb c "-") s = true)
      by (intros s; apply sforall_impl; by intros c ->).
    destruct d; [done|..]; apply H, string_of_uint_digits. }
  unfold itoa, DecimalString.NilZero.string_of_int. destruct (Z.to_int z); [apply Hu|]. cbn [sforall]. apply Hu.
Qed.

Lemma piece_itoa z : piece (itoa z) [] 0.
Proof.
  assert (Hp : sforall (fun c => plain_char c && negb (Ascii.eqb c "?")) (itoa z) = true).
  { eapply sforall_impl; [|apply itoa_plain]. intros c Hc.
    assert (Hb : all_bytes (fun c => implb (is_digit c || Ascii.eqb c "-") (plain_char c && negb (Ascii.eqb c "?"))) = true)
      by (vm_compute; reflexivity).
    pose proof (all_bytes_spec _ Hb c) as H. cbv beta in H. by rewrite Hc in H. }
  eapply piece_eq; [apply piece_plain; eapply sforall_impl; [|exact Hp]; intros c; rewrite andb_true_iff; tauto|done|].
  revert Hp. generalize (itoa z). intros s. induction s as [|c s IH]; [done|]. cbn [sforall count_marks].
  rewrite !andb_true_iff, negb_true_iff. intros [[_ ->] Hs]. rewrite IH by done. lia.
Qed.

(** [piece_lit] proves [piece] of a literal by evaluation. *)
Ltac piece_lit := eapply piece_eq; [apply piece_plain; vm_compute; reflexivity|reflexivity|reflexivity].

(** ** The pieces of a statement *)

Lemma piece_qualified source field :
  is_identifier (r_schema source) = true -> is_identifier (r_name source) = true -> is_identifier field = true ->
  piece (qualifySourceField source field) [r_schema source; r_name source; field] 0.
Proof.
  intros Hs Hn Hf. unfold qualifySourceField.
  assert (Hdot : piece "." [] 0) by piece_lit.
  eapply piece_eq;
    [apply piece_app; [apply piece_quote|apply piece_app; [exact Hdot|apply piece_app; [apply piece_quote|
      apply piece_app; [exact Hdot|apply piece_quote]]]]|reflexivity|reflexivity];
    by apply identifier_no_backtick.
Qed.

Lemma piece_wrap pre post s names marks : piece pre [] 0 -> piece post [] 0 ->
  piece s names marks -> piece (pre +:+ s +:+ post) names marks.
Proof.
  intros H1 H2 H. eapply piece_eq; [apply piece_app; [exact H1|apply piece_app; [exact H|exact H2]]| |lia].
  simpl. by rewrite app_nil_r.
Qed.

Lemma piece_pre pre s names marks : piece pre [] 0 -> piece s names marks -> piece (pre +:+ s) names marks.
Proof. intros H1 H. eapply piece_eq; [apply piece_app; [exact H1|exact H]|done|lia]. Qed.

Lemma piece_post post s names marks : piece post [] 0 -> piece s names marks -> piece (s +:+ post) names marks.
Proof.
  intros H1 H. eapply piece_eq; [apply piece_app; [exact H|exact H1]| |lia]. by rewrite app_nil_r.
Qed.

Lemma piece_represented field r binary names :
  piece field names 0 -> piece (representedField field r binary) names 0.
Proof.
  intros H. unfold representedField, sourceTextExpression. destruct (String.eqb r RepresentationSourceText); [|done].
  assert (Hc : piece ("CAST(" +:+ field +:+ " AS CHAR CHARACTER SET utf8mb4)") names 0)
    by (apply piece_wrap; [piece_lit|piece_lit|done]).
  destruct binary; [|done]. apply piece_wrap; [piece_lit|piece_lit|done].
Qed.

(** The values of a filter, in the order of the text. *)
Fixpoint filter_values (f : Filter) : list TypedValue :=
  (values_of f ++ flat_map filter_values (f_expressions f))%list.

Definition binds_of (values : list TypedValue) (args : list Bind) : Prop :=
  Forall2 (fun v b => TypedValue_BindValue v = Ok b) values args.

Lemma values_of_some r k f o vs es : values_of (MkFilter r k f o (Some vs) es) = vs.
Proof. done. Qed.

Lemma bind_values_ok r values : Forall (value_ok r) values ->
  exists args, bind_values values = Ok args /\ binds_of values args.
Proof.
  induction 1 as [|v l [_ (b & raw & H)] _ (args & E & IH)]; [by exists []; split; [|constructor]|].
  assert (Hb : TypedValue_BindValue v = Ok b) by (apply BindValue_iff; eauto).
  exists (b :: args). simpl. rewrite Hb. simpl. rewrite E. by repeat constructor.
Qed.

Lemma bind_texts_ok values : Forall (value_ok RepresentationSourceText) values ->
  bind_texts values = bind_values values.
Proof.
  induction 1 as [|v l [Ht _] _ IH]; [done|]. simpl. rewrite Ht by done. simpl. by rewrite IH.
Qed.

Lemma sum_flat_map {A B} (f : A -> list B) l : len (flat_map f l) = sum_of (fun a => len (f a)) l.
Proof. induction l as [|a l IH]; [done|]. simpl. by rewrite len_app, IH. Qed.

Lemma filter_values_len f : len (filter_values f) = parameters_of f.
Proof.
  induction f as [r k fl o vs es IH] using Filter_ind'. simpl. rewrite len_app, sum_flat_map. f_equal.
  induction IH as [|e es He _ IHes]; [done|]. simpl. by rewrite He, IHes.
Qed.

Lemma piece_placeholders (p : string) (args : list Bind) : piece p [] 1 ->
  piece (join ", " (map (fun _ => p) args)) [] (len args).
Proof.
  intros Hp. eapply piece_eq; [apply (piece_join ", " (fun _ : Bind => p) (fun _ => []) (fun _ => 1)); [piece_lit|intros; exact Hp]| |].
  - induction args; simpl; auto.
  - induction args as [|a l IH]; [done|]. rewrite len_cons, <- IH. done.
Qed.

(** A comparison: the operator's text after the field, for each kind of operator. *)
Lemma operator_text op n : arity op n ->
  exists t, assoc operators op = Some t /\ piece t [] 0 /\
    (is_null_test op = true /\ n = 0 \/
     is_null_test op = false /\ is_membership op = true /\ 1 <= n \/
     is_null_test op = false /\ is_membership op = false /\ n = 1).
Proof.
  intros [[H ->]|[[H Hn]|[H ->]]]; simpl in H.
  - repeat (destruct H as [<-|H]; [eexists; split; [reflexivity|split; [piece_lit|right; right; done]]|]); done.
  - repeat (destruct H as [<-|H]; [eexists; split; [reflexivity|split; [piece_lit|right; left; done]]|]); done.
  - repeat (destruct H as [<-|H]; [eexists; split; [reflexivity|split; [piece_lit|left; done]]|]); done.
Qed.

Lemma null_values op (values : list TypedValue) : arity op (len values) -> is_null_test op = true -> values = [].
Proof.
  intros H Hn. destruct (operator_text op (len values) H) as (_ & _ & _ & [[_ E]|[[E _]|[E _]]]); try congruence.
  apply len_zero. lia.
Qed.

Section FilterPieces.
Context (qualify : string -> string) (qualified_names : string -> list string).
Context (Hqualify : forall x, is_identifier x = true -> piece (qualify x) (qualified_names x) 0).

Definition filter_names (f : Filter) : list string := flat_map qualified_names (collectFields f).

(** What the compiler promises of one accepted filter. *)
Definition filter_compiled (f : Filter) : Prop :=
  exists text args, compile_filter qualify f = Ok (text, args) /\ piece text (filter_names f) (parameters_of f) /\
    binds_of (filter_values f) args.

Lemma predicate_text field op values (args : list Bind) p t :
  binds_of values args -> is_identifier field = true -> arity op (len values) ->
  assoc operators op = Some t -> piece t [] 0 -> piece p [] 1 -> is_null_test op = false ->
  forall q names, piece q names 0 ->
  (is_membership op = true ->
     piece (q +:+ " " +:+ t +:+ " (" +:+ join ", " (map (fun _ => p) args) +:+ ")") names (len values)) /\
  (is_membership op = false -> len args = 1 /\ piece (q +:+ " " +:+ t +:+ " " +:+ p) names (len values)).
Proof.
  intros Hb Hf Ha Ht Hpt Hp Hnull q names Hq.
  assert (Hlen : len args = len values) by (unfold len; by rewrite (Forall2_length _ _ _ Hb)).
  assert (Hpre : forall x m, piece x [] m -> piece (q +:+ " " +:+ t +:+ x) names m).
  { intros x m Hx. assert (H0 : piece (" " +:+ t +:+ x) [] m) by (apply piece_pre; [piece_lit|by apply piece_pre]).
    eapply piece_eq; [apply (piece_app _ _ _ _ _ _ Hq H0)|apply app_nil_r|lia]. }
  split; intros Hm.
  - apply Hpre. apply piece_wrap; [piece_lit|piece_lit|]. rewrite <- Hlen. by apply piece_placeholders.
  - destruct (operator_text op _ Ha) as (t' & E & _ & [[E' _]|[[_ [E' _]]|[_ [_ Hn]]]]); try congruence.
    rewrite Hn in *. split; [done|]. apply Hpre. apply piece_pre; [piece_lit|done].
Qed.

Lemma compile_predicate r field op values :
  representation_ok r -> is_identifier field = true -> arity op (len values) -> Forall (value_ok r) values ->
  filter_compiled (MkFilter r "predicate" field op (Some values) []).
Proof.
  intros Hr Hf Ha Hv. unfold filter_compiled.
  destruct (operator_text op (len values) Ha) as (t & Et & Ht & _).
  assert (Hq := Hqualify field Hf).
  destruct (bind_values_ok r values Hv) as (args & Eargs & Hbinds).
  assert (Hpm : parameters_of (MkFilter r "predicate" field op (Some values) []) = len values).
  { simpl. unfold values_of; simpl. lia. }
  assert (Hfv : filter_values (MkFilter r "predicate" field op (Some values) []) = values)
    by (simpl; unfold values_of; simpl; apply app_nil_r).
  assert (Hcf : filter_names (MkFilter r "predicate" field op (Some values) []) = qualified_names field)
    by (unfold filter_names; simpl; by rewrite app_nil_r).
  rewrite Hpm, Hfv, Hcf.
  destruct (is_null_test op) eqn:Hnull.
  { assert (values = []) as -> by (by apply (null_values op)).
    destruct Hr as [->| ->]; cbn [compile_filter f_representation f_kind f_field f_operator f_values];
      simpl String.eqb; cbv iota.
    - rewrite Et, Hnull. eexists _, []. split; [done|]. split; [|constructor].
      eapply piece_eq; [apply piece_app; [exact Hq|apply piece_pre; [piece_lit|exact Ht]]|done|done].
    - unfold compileSourceTextFilter; cbn [f_operator]. rewrite Et, Hnull. eexists _, []. split; [done|]. split; [|constructor].
      assert (Hs := piece_represented (qualify field) RepresentationSourceText true (qualified_names field) Hq).
      eapply piece_eq; [apply piece_app; [exact Hs|apply piece_pre; [piece_lit|exact Ht]]|done|done]. }
  destruct Hr as [->| ->].
  - destruct (predicate_text field op values args "?" t Hbinds Hf Ha Et Ht ltac:(piece_lit) Hnull _ _ Hq) as [Hm Hs].
    cbn [compile_filter f_representation f_kind f_field f_operator f_values]. simpl String.eqb. cbv iota.
    rewrite Et, Hnull, values_of_some, Eargs. cbn [rbind].
    destruct (is_membership op); [by eexists _, args; split; [done|]; split; [apply Hm|]|].
    destruct (Hs eq_refl) as [_ H]. by eexists _, args.
  - assert (Hq' := piece_represented (qualify field) RepresentationSourceText true (qualified_names field) Hq).
    destruct (predicate_text field op values args "CAST(? AS BINARY)" t Hbinds Hf Ha Et Ht ltac:(piece_lit) Hnull _ _ Hq')
      as [Hm Hs].
    cbn [compile_filter f_representation f_kind f_field f_operator f_values]. simpl String.eqb. cbv iota.
    unfold compileSourceTextFilter; cbn [f_operator]. rewrite Et, Hnull, values_of_some, bind_texts_ok, Eargs by done. cbn [rbind].
    destruct (is_membership op); [by eexists _, args; split; [done|]; split; [apply Hm|]|].
    destruct (Hs eq_refl) as [Hl H]. rewrite Hl. simpl. eexists _, args. split; [done|]. split; [|done].
    destruct args; [done|]. exact H.
Qed.

Lemma compile_all_ok es : Forall filter_compiled es ->
  exists parts args, compile_all (compile_filter qualify) es = Ok (parts, args) /\
    binds_of (flat_map filter_values es) args /\
    forall sep, piece sep [] 0 -> piece (join sep parts) (flat_map filter_names es) (sum_of parameters_of es).
Proof.
  induction 1 as [|e es (t & a & He & Hp & Hb) _ (parts & args & Es & Hbs & Hps)].
  { exists [], []. split_and!; [done|constructor|intros; apply piece_nil]. }
  exists (t :: parts), (a ++ args)%list. split_and!.
  - simpl. rewrite He. simpl. by rewrite Es.
  - simpl. by apply Forall2_app.
  - intros sep Hsep. specialize (Hps sep Hsep). destruct parts as [|p parts].
    + assert (es = []) as ->.
      { destruct es as [|e' es]; [done|]. simpl in Es. err_inv. destruct x. err_inv. destruct x. by err_inv. }
      simpl. eapply piece_eq; [exact Hp|by rewrite app_nil_r|simpl; lia].
    + change (join sep (t :: p :: parts)) with (t +:+ sep +:+ join sep (p :: parts)).
      eapply piece_eq; [apply piece_app; [exact Hp|apply piece_app; [exact Hsep|exact Hps]]|done|].
      change (sum_of parameters_of (e :: es)) with (parameters_of e + sum_of parameters_of es). lia.
Qed.

Lemma filter_names_group r o vs es : filter_names (MkFilter r "group" "" o vs es) = flat_map filter_names es.
Proof.
  unfold filter_names. change (collectFields (MkFilter r "group" "" o vs es)) with (flat_map collectFields es).
  induction es as [|e es IH]; [done|]. simpl. by rewrite flat_map_app, IH.
Qed.

Lemma compile_filter_ok f : filter_ok f -> filter_compiled f.
Proof.
  induction f as [r k fl o vs es IH] using Filter_ind'. intros Hok. inversion Hok; subst; [by apply compile_predicate|].
  assert (Hes : Forall filter_compiled es).
  { rewrite Forall_forall in *. intros e He. auto. }
  destruct (compile_all_ok es Hes) as (parts & args & E & Hb & Hp). unfold filter_compiled.
  eexists _, args. split; [|split; [|done]].
  - cbn [compile_filter f_representation f_kind f_expressions f_operator]. simpl String.eqb. cbv iota. by rewrite E.
  - change (parameters_of (MkFilter "" "group" "" o None es)) with (0 + sum_of parameters_of es).
    rewrite filter_names_group.
    apply piece_wrap; [piece_lit|piece_lit|]. apply Hp.
    simpl in *. match goal with H : _ \/ _ |- _ => destruct H as [<-|[<-|[]]] end; piece_lit.
Qed.
End FilterPieces.

Lemma compileFilter_ok f : filter_ok f ->
  exists text args, compileFilter f = Ok (text, args) /\ piece text (collectFields f) (parameters_of f) /\
    binds_of (filter_values f) args.
Proof.
  intros H. destruct (compile_filter_ok quote (fun x => [x]) (fun x Hx => piece_quote x (identifier_no_backtick x Hx)) f H)
    as (text & args & E & Hp & Hb).
  exists text, args. split_and!; [done| |done]. unfold filter_names in Hp.
  revert Hp. generalize (collectFields f). intros l. by replace (flat_map (fun x => [x]) l) with l by (by induction l; simpl; f_equal).
Qed.

(** The identifiers of the clauses. *)
Definition alias_names (s : Selection) : list string :=
  if nonempty (s_alias s) then [s_alias s]
  else if String.eqb (s_representation s) RepresentationSourceText then [s_field s] else [].

Definition qualified (source : ResourceRef) (field : string) : list string := [r_schema source; r_name source; field].

Definition select_names (spec : NormalizedSpec) : list string :=
  (flat_map (fun s => qualified (n_source spec) (s_field s) ++ alias_names s) (n_projection spec) ++
   [r_schema (n_source spec); r_name (n_source spec)] ++
   from_option collectFields [] (n_filter spec) ++
   flat_map (fun o => qualified (n_source spec) (o_field o)) (n_order_by spec))%list.

Lemma piece_alias s : selection_ok s -> (s_kind s = "field" \/ s_representation s = EmptyString) ->
  piece (alias_clause s) (alias_names s) 0.
Proof.
  intros (Hr & Ha & Hk) Hkind. unfold alias_clause, alias_names. destruct (nonempty (s_alias s)) eqn:E.
  - apply nonempty_true in E. destruct Ha as [?|Ha]; [done|]. apply piece_pre; [piece_lit|].
    by apply piece_quote, identifier_no_backtick.
  - destruct (String.eqb_spec (s_representation s) RepresentationSourceText) as [Es|Es]; [|apply piece_nil].
    apply piece_pre; [piece_lit|]. apply piece_quote, identifier_no_backtick.
    destruct Hk as [(_ & _ & H)|(Hagg & Hrep & _)]; [done|]. rewrite Hrep in Es. done.
Qed.

Lemma piece_select_expression source s :
  is_identifier (r_schema source) = true -> is_identifier (r_name source) = true -> selection_ok s -> s_kind s = "field" ->
  piece (select_expression source s) (qualified source (s_field s) ++ alias_names s)%list 0.
Proof.
  intros Hs Hn Hok Hk. unfold select_expression.
  assert (Hf : is_identifier (s_field s) = true) by (destruct Hok as (_ & _ & [(_ & _ & H)|(H & _)]); [done|congruence]).
  eapply piece_eq; [apply piece_app; [apply piece_represented, piece_qualified; done|apply piece_alias; auto]|done|done].
Qed.

Lemma piece_direction o : sort_ok o -> piece (" " +:+ to_upper (o_direction o)) [] 0.
Proof. intros (_ & _ & [->| ->]); piece_lit. Qed.

Lemma piece_sort source o :
  is_identifier (r_schema source) = true -> is_identifier (r_name source) = true -> sort_ok o ->
  piece (sort_expression source o) (qualified source (o_field o)) 0.
Proof.
  intros Hs Hn Hok. unfold sort_expression. apply piece_post; [by apply piece_direction|].
  destruct Hok as (_ & Hf & _). by apply piece_represented, piece_qualified.
Qed.

Lemma sum_zero {A} (l : list A) : sum_of (fun _ => 0) l = 0.
Proof. induction l; simpl; auto. Qed.

Lemma piece_order source orderBy :
  is_identifier (r_schema source) = true -> is_identifier (r_name source) = true -> Forall sort_ok orderBy ->
  piece (order_clause source orderBy) (flat_map (fun o => qualified source (o_field o)) orderBy) 0.
Proof.
  intros Hs Hn Hok. unfold order_clause. destruct orderBy as [|o os]; [apply piece_nil|].
  replace (0 <? len (o :: os)) with true by (symmetry; rewrite Z.ltb_lt, len_cons; pose proof (len_nonneg os); lia).
  apply piece_pre; [piece_lit|]. eapply piece_eq; [apply piece_join with (marks := fun _ => 0); [piece_lit|]|reflexivity|apply sum_zero].
  intros x Hx. apply piece_sort; try done. rewrite Forall_forall in Hok. apply Hok. by apply list_elem_of_In.
Qed.

Lemma where_clause_ok filter : from_option filter_ok True filter ->
  exists text args, where_clause filter = Ok (text, args) /\
    piece text (from_option collectFields [] filter) (filter_parameters filter) /\
    binds_of (from_option filter_values [] filter) args.
Proof.
  destruct filter as [f|]; simpl; intros H.
  - destruct (compileFilter_ok f H) as (t & a & E & Hp & Hb). rewrite E. simpl. eexists _, a. split; [done|].
    split; [|done]. apply piece_pre; [piece_lit|done].
  - exists EmptyString, []. split; [done|]. split; [apply piece_nil|constructor].
Qed.

Lemma piece_source source : is_identifier (r_schema source) = true -> is_identifier (r_name source) = true ->
  piece (quote (r_schema source) +:+ "." +:+ quote (r_name source)) [r_schema source; r_name source] 0.
Proof.
  intros Hs Hn.
  eapply piece_eq; [apply piece_app; [apply piece_quote|apply piece_pre; [piece_lit|apply piece_quote]]|done|done];
    by apply identifier_no_backtick.
Qed.

Lemma piece_head deadlineMS : piece (select_head deadlineMS) [] 0.
Proof. apply piece_wrap; [piece_lit|piece_lit|apply piece_itoa]. Qed.

(** The parts of an accepted query that the statement is made of. *)
Record select_ok (spec : NormalizedSpec) : Prop := {
  so_schema : is_identifier (r_schema (n_source spec)) = true;
  so_name : is_identifier (r_name (n_source spec)) = true;
  so_selections : Forall selection_ok (n_projection spec);
  so_fields : Forall (fun s => s_kind s = "field") (n_projection spec);
  so_filter : from_option filter_ok True (n_filter spec);
  so_sorts : Forall sort_ok (n_order_by spec);
}.

Lemma compileSelect_ok spec deadlineMS rowLimit : select_ok spec ->
  exists text args, compileSelect spec deadlineMS rowLimit = Ok (text, (args ++ [BindInt rowLimit; BindInt (n_offset spec)])%list) /\
    piece text (select_names spec) (2 + filter_parameters (n_filter spec)) /\
    binds_of (from_option filter_values [] (n_filter spec)) args.
Proof.
  intros [Hs Hn Hsel Hf Hfil Hsort]. destruct (where_clause_ok _ Hfil) as (w & args & E & Hw & Hb).
  unfold compileSelect. rewrite E. simpl rbind. eexists _, args. split; [reflexivity|]. split; [|done].
  assert (Hproj : piece (join ", " (map (select_expression (n_source spec)) (n_projection spec)))
    (flat_map (fun s => qualified (n_source spec) (s_field s) ++ alias_names s)%list (n_projection spec)) 0).
  { eapply piece_eq; [apply piece_join with (marks := fun _ => 0); [piece_lit|]|reflexivity|apply sum_zero].
    intros x Hx%list_elem_of_In. rewrite Forall_forall in Hsel, Hf.
    apply piece_select_expression; [exact Hs|exact Hn|exact (Hsel x Hx)|exact (Hf x Hx)]. }
  assert (Horder := piece_order (n_source spec) (n_order_by spec) Hs Hn Hsort).
  assert (Hlimit : piece " LIMIT ? OFFSET ?" [] 2) by piece_lit.
  assert (Hsrc := piece_source (n_source spec) Hs Hn).
  apply piece_pre; [apply piece_head|]. unfold select_names.
  assert (Hrest : piece ((quote (r_schema (n_source spec)) +:+ "." +:+ quote (r_name (n_source spec))) +:+ w +:+
      order_clause (n_source spec) (n_order_by spec) +:+ " LIMIT ? OFFSET ?")
    ([r_schema (n_source spec); r_name (n_source spec)] ++ from_option collectFields [] (n_filter spec) ++
     flat_map (fun o => qualified (n_source spec) (o_field o)) (n_order_by spec))%list
    (2 + filter_parameters (n_filter spec))).
  { eapply piece_eq; [apply piece_app; [exact Hsrc|apply piece_app; [exact Hw|apply piece_app; [exact Horder|exact Hlimit]]]| |lia].
    by rewrite app_nil_r. }
  rewrite !sapp_assoc in Hrest.
  eapply piece_eq; [apply piece_app; [exact Hproj|apply piece_pre; [piece_lit|exact Hrest]]|done|lia].
Qed.

(** *** EXPLAIN *)

Definition explain_names (spec : NormalizedSpec) : list string :=
  (flat_map (fun s => (if nonempty (s_field s) then [s_field s] else []) ++ alias_names s) (n_projection spec) ++
   [r_schema (n_source spec); r_name (n_source spec)] ++
   from_option collectFields [] (n_filter spec) ++
   flat_map (qualified (n_source spec)) (n_group_by spec) ++
   flat_map (fun o => qualified (n_source spec) (o_field o)) (n_order_by spec))%list.

Lemma piece_function s : selection_ok s -> s_kind s <> "field" -> piece (to_upper (s_function s)) [] 0.
Proof.
  intros (_ & _ & [(H & _)|(_ & _ & [[-> _]|[H _]])]) Hk; [done|piece_lit|].
  simpl in H. repeat (destruct H as [<-|H]; [piece_lit|]). done.
Qed.

Lemma is_identifier_nonempty x : is_identifier x = true -> nonempty x = true.
Proof. unfold is_identifier. by destruct (nonempty x). Qed.

Lemma piece_explain_expression s : selection_ok s ->
  piece (explain_expression s) ((if nonempty (s_field s) then [s_field s] else []) ++ alias_names s)%list 0.
Proof.
  intros Hok. unfold explain_expression. assert (Hok' := Hok). destruct Hok' as (_ & _ & Hk).
  assert (Halias : piece (alias_clause s) (alias_names s) 0).
  { apply piece_alias; [done|]. destruct Hk as [(H & _)|(_ & H & _)]; auto. }
  apply (piece_app _ _ _ _ 0 0); [|exact Halias].
  destruct (String.eqb_spec (s_kind s) "field") as [E|E].
  - destruct Hk as [(_ & _ & H)|(H & _)]; [|congruence]. rewrite (is_identifier_nonempty _ H).
    by apply piece_represented, piece_quote, identifier_no_backtick.
  - apply piece_pre; [by apply piece_function|]. apply piece_wrap; [piece_lit|piece_lit|].
    destruct Hk as [(H & _)|(_ & _ & [[_ [->|H]]|[_ H]])]; [done|piece_lit|..];
      rewrite (is_identifier_nonempty _ H); by apply piece_quote, identifier_no_backtick.
Qed.

Lemma piece_group source groupBy :
  is_identifier (r_schema source) = true -> is_identifier (r_name source) = true ->
  Forall (fun g => is_identifier g = true) groupBy ->
  piece (group_clause source groupBy) (flat_map (qualified source) groupBy) 0.
Proof.
  intros Hs Hn Hok. unfold group_clause. destruct groupBy as [|g gs]; [apply piece_nil|].
  replace (0 <? len (g :: gs)) with true by (symmetry; rewrite Z.ltb_lt, len_cons; pose proof (len_nonneg gs); lia).
  apply piece_pre; [piece_lit|]. eapply piece_eq; [apply piece_join with (marks := fun _ => 0); [piece_lit|]|reflexivity|apply sum_zero].
  intros x Hx%list_elem_of_In. rewrite Forall_forall in Hok. apply piece_qualified; [done|done|exact (Hok x Hx)].
Qed.

Record explain_ok (spec : NormalizedSpec) : Prop := {
  eo_schema : is_identifier (r_schema (n_source spec)) = true;
  eo_name : is_identifier (r_name (n_source spec)) = true;
  eo_selections : Forall selection_ok (n_projection spec);
  eo_filter : from_option filter_ok True (n_filter spec);
  eo_groups : Forall (fun g => is_identifier g = true) (n_group_by spec);
  eo_sorts : Forall sort_ok (n_order_by spec);
}.

Lemma compile_ok spec deadlineMS : explain_ok spec ->
  exists text args, compile spec deadlineMS = Ok (text, (args ++ [BindInt (n_limit spec); BindInt (n_offset spec)])%list) /\
    piece text (explain_names spec) (2 + filter_parameters (n_filter spec)) /\
    binds_of (from_option filter_values [] (n_filter spec)) args.
Proof.
  intros [Hs Hn Hsel Hfil Hg Hsort]. destruct (where_clause_ok _ Hfil) as (w & args & E & Hw & Hb).
  unfold compile. rewrite E. simpl rbind. eexists _, args. split; [reflexivity|]. split; [|done].
  assert (Hproj : piece (join ", " (map explain_expression (n_projection spec)))
    (flat_map (fun s => (if nonempty (s_field s) then [s_field s] else []) ++ alias_names s)%list (n_projection spec)) 0).
  { eapply piece_eq; [apply piece_join with (marks := fun _ => 0); [piece_lit|]|reflexivity|apply sum_zero].
    intros x Hx%list_elem_of_In. rewrite Forall_forall in Hsel. apply piece_explain_expression, (Hsel x Hx). }
  assert (Hlimit : piece " LIMIT ? OFFSET ?" [] 2) by piece_lit.
  assert (Hsrc := piece_source (n_source spec) Hs Hn).
  apply piece_pre; [piece_lit|]. apply piece_pre; [apply piece_head|]. unfold explain_names.
  assert (Hrest : piece ((quote (r_schema (n_source spec)) +:+ "." +:+ quote (r_name (n_source spec))) +:+ w +:+
      group_clause (n_source spec) (n_group_by spec) +:+ order_clause (n_source spec) (n_order_by spec) +:+ " LIMIT ? OFFSET ?")
    ([r_schema (n_source spec); r_name (n_source spec)] ++ from_option collectFields [] (n_filter spec) ++
     flat_map (qualified (n_source spec)) (n_group_by spec) ++
     flat_map (fun o => qualified (n_source spec) (o_field o)) (n_order_by spec))%list
    (2 + filter_parameters (n_filter spec))).
  { eapply piece_eq; [apply piece_app; [exact Hsrc|apply piece_app; [exact Hw|apply piece_app; [by apply piece_group|
      apply piece_app; [by apply piece_order|exact Hlimit]]]]| |lia]. by rewrite app_nil_r. }
  rewrite !sapp_assoc in Hrest.
  eapply piece_eq; [apply piece_app; [exact Hproj|apply piece_pre; [piece_lit|exact Hrest]]|done|lia].
Qed.

(** ** From authorization to the statement *)

(** A name that a statement may quote: the source, an alias, or a field that the
    profile permits. *)
Definition name_permitted (profile : Profile) (m : IdentifierSemantics) (spec : NormalizedSpec) (x : string) : Prop :=
  x = r_schema (n_source spec) \/ x = r_name (n_source spec) \/
  (exists s, In s (n_projection spec) /\ s_alias s = x) \/
  permits (Fields (pf_resources profile)) [r_schema (n_source spec); r_name (n_source spec); x] (field_semantics m).

Lemma Revalidate_keeps q l v : Revalidate q l = Ok v ->
  n_source (v_spec v) = n_source (v_spec q) /\ n_projection (v_spec v) = n_projection (v_spec q) /\
  n_filter (v_spec v) = n_filter (v_spec q) /\ n_group_by (v_spec v) = n_group_by (v_spec q) /\
  n_order_by (v_spec v) = n_order_by (v_spec q) /\ n_offset (v_spec v) = n_offset (v_spec q) /\
  v_stats v = v_stats q.
Proof. rewrite Revalidate_ok. intros H. destruct_and!. by subst. Qed.

Lemma explain_ok_of_query spec l q : query_ok spec l ->
  n_source q = q_source spec -> n_projection q = q_projection spec -> n_filter q = q_filter spec ->
  n_group_by q = q_group_by spec -> n_order_by q = q_order_by spec -> explain_ok q.
Proof. intros [] H1 H2 H3 H4 H5. by constructor; rewrite ?H1, ?H2, ?H3, ?H4, ?H5. Qed.

Lemma alias_names_permitted s x : In x (alias_names s) -> x = s_alias s \/ x = s_field s.
Proof.
  unfold alias_names. destruct (nonempty (s_alias s)); [intros [<-|[]]; auto|].
  destruct (String.eqb _ _); [intros [<-|[]]; auto|done].
Qed.

Lemma field_permitted profile m spec x :
  query_permitted profile m spec -> query_mentions spec x -> name_permitted profile m spec x.
Proof. intros [_ _ H _] Hx. right; right; right. auto. Qed.

Lemma mentioned_identifier x : is_identifier x = true -> x <> EmptyString.
Proof. by intros H ->. Qed.

Lemma selection_names_permitted profile m spec s x :
  query_permitted profile m spec -> In s (n_projection spec) -> s_field s <> EmptyString ->
  x = s_field s \/ In x (alias_names s) -> name_permitted profile m spec x.
Proof.
  intros Hp Hs Hne [->|[->| ->]%alias_names_permitted].
  - apply field_permitted; [done|]. split; [done|]. left. eauto.
  - right; right; left. eauto.
  - apply field_permitted; [done|]. split; [done|]. left. eauto.
Qed.

Lemma filter_fields_identifiers f x : filter_ok f -> In x (collectFields f) -> is_identifier x = true.
Proof.
  induction f as [r k fl o vs es IH] using Filter_ind'. intros Hok. inversion Hok; subst; simpl; [intros [<-|[]]; done|].
  rewrite in_flat_map. intros (e & He%list_elem_of_In & Hx). rewrite Forall_forall in *. eauto.
Qed.

Lemma select_names_permitted profile m spec x : select_ok spec -> query_permitted profile m spec ->
  In x (select_names spec) -> name_permitted profile m spec x.
Proof.
  intros [Hs Hn Hsel Hf Hfil Hsort] Hp Hx. rewrite Forall_forall in Hsel. rewrite Forall_forall in Hf. rewrite Forall_forall in Hsort.
  assert (Hq : forall field, In x (qualified (n_source spec) field) -> (x = field -> name_permitted profile m spec x) ->
                        name_permitted profile m spec x).
  { intros field [<-|[<-|[<-|[]]]] H; [by left|by right; left|by apply H]. }
  unfold select_names in Hx. rewrite !in_app_iff, !in_flat_map in Hx.
  destruct Hx as [(s & Hin & Hx)|[[<-|[<-|[]]]|[Hx|(o & Hin & Hx)]]]; [|by left|by right; left|..].
  - assert (Hne : s_field s <> EmptyString).
    { apply list_elem_of_In in Hin. destruct (Hsel s Hin) as (_ & _ & [(_ & _ & H)|(H & _)]);
        [by apply mentioned_identifier|]. by rewrite (Hf s Hin) in H. }
    apply in_app_iff in Hx as [Hx|Hx]; [apply (Hq (s_field s)); [done|]; intros ->|];
      eapply selection_names_permitted; eauto.
  - apply field_permitted; [done|]. destruct (n_filter spec) as [f|] eqn:E; [|done]. simpl in *. split.
    + eapply mentioned_identifier, filter_fields_identifiers; eauto.
    + right; left. apply collectFields_spec in Hx as (p & Hpf & <-). exists p. split; [|done]. by exists f.
  - apply (Hq (o_field o)); [done|]. intros ->. apply field_permitted; [done|]. split.
    + apply list_elem_of_In in Hin. destruct (Hsort o Hin) as (_ & H & _). by apply mentioned_identifier.
    + right; right; right. eauto.
Qed.

(** C10: The statement of an authorized select. A validated and authorized query
    always compiles; read back, its statement is made of keywords, quoted
    identifiers and placeholders only (no string literal but the fixed date
    formats); each identifier is the source, an alias
    or a field that the profile permits; and the placeholders are as many as the
    arguments and as the parameters that validation counted, with the values of
    the filter bound in order before the row limit and the offset. *)
Theorem authorized_select_statement spec l v s b m aq deadlineMS rowLimit :
  Validate spec l = Ok v -> authorizeQuery s b OperationSelect v m = Ok aq ->
  exists profile text args names,
    profileForBinding s b OperationSelect = Ok profile /\
    compileSelect (v_spec (aq_query aq)) deadlineMS rowLimit =
      Ok (text, (args ++ [BindInt rowLimit; BindInt (default 0 (q_offset spec))])%list) /\
    lex (Lexed Outside [] 0) text = Lexed Outside names (2 + len args) /\
    Forall (name_permitted profile m (v_spec (aq_query aq))) names /\
    binds_of (from_option filter_values [] (q_filter spec)) args /\
    2 + len args = Parameters (v_stats (aq_query aq)).
Proof.
  intros [Hok ->]%Validate_sound (profile & w & Hb & Hr & Hsel & Hp & ->)%authorizeQuery_iff.
  destruct (Hsel eq_refl) as [Hg Hf]. exists profile. simpl aq_query.
  apply Revalidate_keeps in Hr as (E1 & E2 & E3 & E4 & E5 & E6 & E7); simpl in *.
  assert (Hso : select_ok (v_spec w)).
  { destruct Hok. constructor; rewrite ?E1, ?E2, ?E3, ?E5; try done. by rewrite <- E2. }
  destruct (compileSelect_ok (v_spec w) deadlineMS rowLimit Hso) as (text & args & Hc & Hpiece & Hbinds).
  rewrite E3 in Hbinds, Hpiece. rewrite E6 in Hc. exists text, args, (select_names (v_spec w)).
  assert (Hlen : len args = filter_parameters (q_filter spec)).
  { unfold len. rewrite <- (Forall2_length _ _ _ Hbinds). destruct (q_filter spec); [|done]. apply filter_values_len. }
  split_and!; [done|done| |by apply Forall_forall; intros x Hx%list_elem_of_In; apply select_names_permitted|done|].
  - rewrite Hlen. apply Hpiece.
  - by rewrite E7, Hlen.
Qed.

Definition example_text : string :=
  "SELECT /*+ MAX_EXECUTION_TIME(1000) */ `shop`.`orders`.`id`, `shop`.`orders`.`total` FROM `shop`.`orders` WHERE (`id` > ? AND `state` = ?) ORDER BY `shop`.`orders`.`id` ASC LIMIT ? OFFSET ?".

Definition example_explain : string :=
  "EXPLAIN FORMAT=JSON SELECT /*+ MAX_EXECUTION_TIME(1000) */ `id`, `total` FROM `shop`.`orders` WHERE (`id` > ? AND `state` = ?) ORDER BY `shop`.`orders`.`id` ASC LIMIT ? OFFSET ?".

Definition example_query : Validated := normalize example_spec example_limits.

Definition example_authorized : AuthorizedQuery := granted example_snapshot (example_binding OperationSelect)
  OperationSelect example_profile {| v_spec := with_limit (v_spec example_query) 50; v_stats := v_stats example_query; v_valid := true |}.

Lemma authorized_select_statement_witness :
  exists profile text args names,
    profileForBinding example_snapshot (example_binding OperationSelect) OperationSelect = Ok profile /\
    compileSelect (v_spec (aq_query example_authorized)) 1000 51 =
      Ok (text, (args ++ [BindInt 51; BindInt (default 0 (q_offset example_spec))])%list) /\
    lex (Lexed Outside [] 0) text = Lexed Outside names (2 + len args) /\
    Forall (name_permitted profile sensitive (v_spec (aq_query example_authorized))) names /\
    binds_of (from_option filter_values [] (q_filter example_spec)) args /\
    2 + len args = Parameters (v_stats (aq_query example_authorized)).
Proof.
  apply (authorized_select_statement example_spec example_limits example_query example_snapshot
    (example_binding OperationSelect) sensitive example_authorized 1000 51); vm_compute; reflexivity.
Defined.

(** ** Values do not reach the text *)

(** A filter with the values of its predicates forgotten, their types and number kept. *)
Fixpoint erase_values (f : Filter) : Filter := {|
  f_representation := f_representation f; f_kind := f_kind f; f_field := f_field f; f_operator := f_operator f;
  f_values := map (fun v => {| tv_type := tv_type v; tv_value := None |}) <$> f_values f;
  f_expressions := map erase_values (f_expressions f) |}.

Definition erase_spec (spec : NormalizedSpec) : NormalizedSpec := {|
  n_source := n_source spec; n_projection := n_projection spec; n_filter := erase_values <$> n_filter spec;
  n_group_by := n_group_by spec; n_order_by := n_order_by spec; n_limit := 0; n_offset := 0 |}.

Lemma bind_values_len values args : bind_values values = Ok args -> len args = len values.
Proof.
  revert args. induction values as [|v l IH]; intros args; simpl; intros H; err_inv; subst; [done|].
  by rewrite !len_cons, (IH _ H1).
Qed.

Lemma bind_texts_len values args : bind_texts values = Ok args -> len args = len values.
Proof.
  revert args. induction values as [|v l IH]; intros args; simpl; intros H; err_inv; subst; [done|].
  rewrite !len_cons. f_equal. by apply IH.
Qed.

Lemma map_const_len {A B C} (p : C) (l : list A) (k : list B) : len l = len k ->
  map (fun _ => p) l = map (fun _ => p) k.
Proof.
  revert k. induction l as [|a l IH]; intros [|b k]; rewrite ?len_cons, ?len_nil;
    try (pose proof (len_nonneg l)); try (pose proof (len_nonneg k)); try lia; [done|].
  intros H'. simpl. f_equal. apply IH. lia.
Qed.

Lemma erased_len f g : erase_values f = erase_values g -> len (values_of f) = len (values_of g).
Proof.
  destruct f as [? ? ? ? vs ?], g as [? ? ? ? vs' ?]. simpl. intros [= _ _ _ _ E _]. unfold values_of; simpl.
  destruct vs, vs'; try done. simpl in *. injection E as E. apply (f_equal List.length) in E.
  rewrite !length_map in E. unfold len. by rewrite E.
Qed.

Lemma compileSourceTextFilter_text f g q t1 a1 t2 a2 : erase_values f = erase_values g ->
  compileSourceTextFilter f q = Ok (t1, a1) -> compileSourceTextFilter g q = Ok (t2, a2) -> t1 = t2.
Proof.
  intros E. assert (Hop : f_operator f = f_operator g) by (by destruct f, g; injection E).
  unfold compileSourceTextFilter. rewrite <- Hop. apply erased_len in E.
  destruct (assoc operators (f_operator f)); [|done]. destruct (is_null_test _); [by intros [= <- _] [= <- _]|].
  intros H1 H2. err_inv.
  match goal with H : bind_texts _ = Ok ?a, H' : bind_texts _ = Ok ?b |- _ =>
    apply bind_texts_len in H; apply bind_texts_len in H';
    assert (Hm : map (fun _ => "CAST(? AS BINARY)") a = map (fun _ => "CAST(? AS BINARY)") b)
      by (apply map_const_len; congruence); rewrite Hm in * end.
  destruct (is_membership _); err_inv; congruence.
Qed.

Section FilterTexts.
Context (qualify : string -> string).

Lemma compile_all_texts es :
  Forall (fun f => forall g t1 a1 t2 a2, erase_values f = erase_values g ->
    compile_filter qualify f = Ok (t1, a1) -> compile_filter qualify g = Ok (t2, a2) -> t1 = t2) es ->
  forall es' p1 x1 p2 x2, map erase_values es = map erase_values es' ->
  compile_all (compile_filter qualify) es = Ok (p1, x1) -> compile_all (compile_filter qualify) es' = Ok (p2, x2) -> p1 = p2.
Proof.
  induction 1 as [|e es He _ IHes]; intros [|e' es'] p1 x1 p2 x2 Ees; try done.
  - simpl. congruence.
  - simpl in Ees. injection Ees as Ee Ees. simpl. rewrite !rbind_ok.
    intros ([t b] & H1 & H2) ([t' b'] & H3 & H4). rewrite rbind_ok in H2. rewrite rbind_ok in H4.
    destruct H2 as ([ps c] & H2 & [= <- <-]), H4 as ([ps' c'] & H4 & [= <- <-]).
    f_equal; [by eapply He|by eapply IHes].
Qed.

Lemma compile_filter_text f : forall g t1 a1 t2 a2, erase_values f = erase_values g ->
  compile_filter qualify f = Ok (t1, a1) -> compile_filter qualify g = Ok (t2, a2) -> t1 = t2.
Proof.
  induction f as [r k fl o vs es IH] using Filter_ind'. intros [r' k' fl' o' vs' es'] t1 a1 t2 a2 E.
  assert (E' := E). simpl in E'. injection E' as <- <- <- <- Evs Ees.
  cbn [compile_filter f_representation f_kind f_field f_operator f_expressions].
  destruct (String.eqb r RepresentationSourceText); [by apply compileSourceTextFilter_text|].
  destruct (String.eqb k "group").
  - rewrite !rbind_ok. intros ([p1 x1] & H1 & [= <- <-]) ([p2 x2] & H2 & [= <- <-]).
    by rewrite (compile_all_texts es IH es' p1 x1 p2 x2 Ees H1 H2).
  - destruct (assoc operators o); [|done]. destruct (is_null_test o); [by intros [= <- _] [= <- _]|].
    intros H1 H2. err_inv. apply erased_len in E.
    match goal with H : bind_values _ = Ok ?a, H' : bind_values _ = Ok ?b |- _ =>
      apply bind_values_len in H; apply bind_values_len in H';
      assert (Hm : map (fun _ => "?") a = map (fun _ => "?") b) by (apply map_const_len; congruence); rewrite Hm in * end.
    destruct (is_membership o); err_inv; congruence.
Qed.
End FilterTexts.

Lemma where_clause_text f g t1 a1 t2 a2 : erase_values <$> f = erase_values <$> g ->
  where_clause f = Ok (t1, a1) -> where_clause g = Ok (t2, a2) -> t1 = t2.
Proof.
  destruct f as [f|], g as [g|]; try done; simpl; [|by intros _ [= <- _] [= <- _]].
  rewrite !rbind_ok. intros [= E] ([p1 x1] & H1 & [= <- <-]) ([p2 x2] & H2 & [= <- <-]).
  f_equal. by eapply compile_filter_text.
Qed.

(** C36: No bind value can influence a statement: two queries that differ only in
    the values of their predicates, in their row limits and in their offsets compile to the same
    SELECT text and to the same EXPLAIN text. *)
Theorem statement_independent_of_values spec spec' deadlineMS rows rows' t1 a1 t2 a2 t3 a3 t4 a4 :
  erase_spec spec = erase_spec spec' ->
  compileSelect spec deadlineMS rows = Ok (t1, a1) -> compileSelect spec' deadlineMS rows' = Ok (t2, a2) ->
  compile spec deadlineMS = Ok (t3, a3) -> compile spec' deadlineMS = Ok (t4, a4) ->
  t1 = t2 /\ t3 = t4.
Proof.
  intros E. unfold erase_spec in E. injection E as E1 E2 E3 E4 E5. unfold compileSelect, compile.
  rewrite E1, E2, E4, E5, !rbind_ok.
  intros ([w b] & G1 & [= <- _]) ([w' b'] & G2 & [= <- _]) ([u c] & G3 & [= <- _]) ([u' c'] & G4 & [= <- _]).
  rewrite (where_clause_text _ _ _ _ _ _ E3 G1 G2), (where_clause_text _ _ _ _ _ _ E3 G3 G4). done.
Qed.

Definition other_spec : NormalizedSpec := v_spec (normalize {|
  q_source := q_source example_spec; q_projection := q_projection example_spec;
  q_filter := Some {| f_representation := EmptyString; f_kind := "group"; f_field := EmptyString; f_operator := "and";
                      f_values := None;
                      f_expressions := [example_predicate "id" "gt" "integer" "7";
                                        example_predicate "state" "eq" "string" (quoted "' OR 1=1; -- `")] |};
  q_group_by := []; q_order_by := q_order_by example_spec; q_limit := None; q_offset := None |} example_limits).

Lemma statement_independent_of_values_witness :
  example_text = example_text /\ example_explain = example_explain.
Proof.
  apply (statement_independent_of_values (v_spec example_query) other_spec 1000 1 2
    example_text [BindInt 10; BindString "open"; BindInt 1; BindInt 0]
    example_text [BindInt 7; BindString "' OR 1=1; -- `"; BindInt 2; BindInt 0]
    example_explain [BindInt 10; BindString "open"; BindInt 50; BindInt 0]
    example_explain [BindInt 7; BindString "' OR 1=1; -- `"; BindInt 50; BindInt 0]);
    vm_compute; reflexivity.
Defined.

(** ** Quoting any identifier *)

(** How MySQL reads a quoted identifier: a doubled backtick is one character of
    it, a single one ends it. *)
Fixpoint read_quoted (s : string) : option (string * string) :=
  match s with
  | EmptyString => None
  | String c r =>
      if Ascii.eqb c backtick then
        match r with
        | String d r' =>
            if Ascii.eqb d backtick then '(x, rest) ← read_quoted r'; Some (String c x, rest)
            else Some (EmptyString, r)
        | EmptyString => Some (EmptyString, EmptyString)
        end
      else '(x, rest) ← read_quoted r; Some (String c x, rest)
  end.

(** [quote] is safe for every identifier, backticks included: the server reads
    the quoted text back as one identifier with exactly those bytes, and goes
    on right after it. *)
Theorem quote_reads_back x rest :
  starts_with (Ascii.eqb backtick) rest = false ->
  exists body, quote x +:+ rest = String backtick body /\ read_quoted body = Some (x, rest).
Proof.
  intros Hrest. exists (double_backticks x +:+ "`" +:+ rest). split; [unfold quote; by rewrite !sapp_assoc|].
  induction x as [|c x IH].
  - rewrite sapp_nil_l, sapp_cons, sapp_nil_l. cbn [read_quoted]. change (Ascii.eqb "`" backtick) with true. cbv iota.
    destruct rest as [|d r]; [done|]. cbn [starts_with] in Hrest. rewrite Ascii.eqb_sym in Hrest. by rewrite Hrest.
  - revert IH. generalize ("`" +:+ rest). intros tail IH.
    cbn [double_backticks]. destruct (Ascii.eqb_spec c backtick) as [->|Hc]; rewrite !sapp_cons; cbn [read_quoted].
    + change (Ascii.eqb backtick backtick) with true. cbv iota. by rewrite IH.
    + rewrite (proj2 (Ascii.eqb_neq _ _) Hc), IH. done.
Qed.

Lemma quote_reads_back_witness :
  exists body, quote "a`b" +:+ " WHERE 1" = String backtick body /\ read_quoted body = Some ("a`b", " WHERE 1").
Proof. apply (quote_reads_back "a`b" " WHERE 1"). reflexivity. Defined.
