(* ===== verification/JsonText.v ===== *)
(** Reading JSON texts, as [encoding/json] does for the values that the program
    keeps as [any] and [json.RawMessage]: the value tree with the text of every
    value, and the map semantics of objects. *)
From S2P Require Import Prelude GoJson Number Portable Values.
Local Open Scope string_scope.
Local Open Scope Z_scope.

(** A decoded value. A number keeps its literal ([UseNumber]); strings, arrays
    and objects keep their text, which is what a [json.RawMessage] holds. *)
Inductive jvalue : Type :=
| VNull
| VBool (b : bool)
| VNumber (text : string)
| VString (raw value : string)
| VArray (raw : string) (elements : list jvalue)
| VObject (raw : string) (members : list (string * jvalue)).

Definition raw_of (v : jvalue) : string :=
  match v with
  | VNull => "null"
  | VBool true => "true"
  | VBool false => "false"
  | VNumber text => text
  | VString raw _ | VArray raw _ | VObject raw _ => raw
  end.

Definition skip_spaces (s : string) : string := trim_left_by is_json_space s.

Fixpoint skip_literal (literal s : string) : option string :=
  match literal, s with
  | EmptyString, _ => Some s
  | String c literal', String d s' => if Ascii.eqb c d then skip_literal literal' s' else None
  | _, _ => None
  end.

(** The text between the opening quote and the first quote that is not escaped. *)
Fixpoint scan_string (s : string) : option (string * string) :=
  match s with
  | EmptyString => None
  | String c s' =>
      if byte c =? 34 then Some (EmptyString, s')
      else if byte c =? 92 then
        match s' with
        | String d s'' => '(body, rest) ← scan_string s''; Some (String c (String d body), rest)
        | EmptyString => None
        end
      else '(body, rest) ← scan_string s'; Some (String c body, rest)
  end.

Definition parse_string (s : string) : option (string * string * string) :=
  '(body, rest) ← scan_string s;
  value ← unquote (runes (body +:+ dquote));
  Some (dquote +:+ body +:+ dquote, value, rest).

(** A number literal at the head of the text. *)
Definition parse_number (s : string) : option (string * string) :=
  r ← match_integer_part (optional_minus s);
  r ← match_fraction r;
  rest ← match_exponent r;
  Some (stake (String.length s - String.length rest) s, rest).

Definition consumed (s rest : string) : string := stake (String.length s - String.length rest) s.

(** The decoder nests at most 10,000 arrays and objects. *)
Definition max_nesting : Z := 10000.

(** Every call consumes a character: the length of the text is fuel enough. *)
Fixpoint parse_value (fuel : nat) (depth : Z) (s0 : string) : option (jvalue * string) :=
  match fuel with
  | O => None
  | S fuel' =>
      let s := skip_spaces s0 in
      match s with
      | EmptyString => None
      | String c s' =>
          if byte c =? 34 then '(raw, value, rest) ← parse_string s'; Some (VString raw value, rest)
          else if Ascii.eqb c "n" then rest ← skip_literal "null" s; Some (VNull, rest)
          else if Ascii.eqb c "t" then rest ← skip_literal "true" s; Some (VBool true, rest)
          else if Ascii.eqb c "f" then rest ← skip_literal "false" s; Some (VBool false, rest)
          else if Ascii.eqb c "[" then
            if max_nesting <? depth + 1 then None else
            let r := skip_spaces s' in
            '(elements, rest) ← match skip_literal "]" r with
                                | Some rest => Some ([], rest)
                                | None => parse_elements fuel' (depth + 1) r
                                end;
            Some (VArray (consumed s rest) elements, rest)
          else if Ascii.eqb c "{" then
            if max_nesting <? depth + 1 then None else
            let r := skip_spaces s' in
            '(members, rest) ← match skip_literal "}" r with
                               | Some rest => Some ([], rest)
                               | None => parse_members fuel' (depth + 1) r
                               end;
            Some (VObject (consumed s rest) members, rest)
          else '(text, rest) ← parse_number s; Some (VNumber text, rest)
      end
  end
with parse_elements (fuel : nat) (depth : Z) (s : string) : option (list jvalue * string) :=
  match fuel with
  | O => None
  | S fuel' =>
      '(v, r) ← parse_value fuel' depth s;
      match skip_spaces r with
      | String "," r' => '(vs, rest) ← parse_elements fuel' depth r'; Some (v :: vs, rest)
      | String "]" rest => Some ([v], rest)
      | _ => None
      end
  end
with parse_members (fuel : nat) (depth : Z) (s : string) : option (list (string * jvalue) * string) :=
  match fuel with
  | O => None
  | S fuel' =>
      match skip_spaces s with
      | EmptyString => None
      | String c r =>
          if negb (byte c =? 34) then None else
          '(_, key, r) ← parse_string r;
          r ← skip_literal ":" (skip_spaces r);
          '(v, r) ← parse_value fuel' depth r;
          match skip_spaces r with
          | String "," r' => '(ms, rest) ← parse_members fuel' depth r'; Some ((key, v) :: ms, rest)
          | String "}" rest => Some ([(key, v)], rest)
          | _ => None
          end
      end
  end.

(** A whole text: one value and nothing but spaces after it. *)
Definition parse_json (s : string) : option jvalue :=
  '(v, rest) ← parse_value (2 * String.length s + 2) 0 s;
  if String.eqb (skip_spaces rest) EmptyString then Some v else None.


(** ** Objects as maps

    Decoding into [map[string]any] keeps the last member of every name. *)

Section Members.
Context {A : Type}.
Fixpoint member (members : list (string * A)) (key : string) : option A :=
  match members with
  | [] => None
  | (k, v) :: members' =>
      match member members' key with Some w => Some w | None => if String.eqb k key then Some v else None end
  end.

Definition has_member (members : list (string * A)) (key : string) : bool :=
  existsb (fun m => String.eqb m.1 key) members.

Fixpoint last_members (members : list (string * A)) : list (string * A) :=
  match members with
  | [] => []
  | (k, v) :: members' => if has_member members' k then last_members members' else (k, v) :: last_members members'
  end.
End Members.

Fixpoint to_any (v : jvalue) : jvalue :=
  match v with
  | VArray raw elements => VArray raw (map to_any elements)
  | VObject raw members => VObject raw (last_members (map (fun m => (m.1, to_any m.2)) members))
  | _ => v
  end.

(** [json.Decoder.Decode] into an [any], with [UseNumber], of a valid text. *)
Definition decode_any (s : string) : option jvalue := to_any <$> parse_json s.

Section ValueInd.
Context (P : jvalue -> Prop).
Context (HN : P VNull) (HB : forall b, P (VBool b)) (HT : forall t, P (VNumber t)) (HS : forall r s, P (VString r s)).
Context (HA : forall r l, Forall P l -> P (VArray r l)).
Context (HO : forall r m, Forall (fun kv => P kv.2) m -> P (VObject r m)).
Fixpoint jvalue_ind' (v : jvalue) : P v :=
  match v with
  | VNull => HN
  | VBool b => HB b
  | VNumber t => HT t
  | VString r s => HS r s
  | VArray r l => HA r l ((fix go l := match l return Forall P l with
                           | [] => Forall_nil_2 P
                           | x :: l' => Forall_cons_2 P x l' (jvalue_ind' x) (go l')
                           end) l)
  | VObject r m => HO r m ((fix go m := match m return Forall (fun kv => P kv.2) m with
                            | [] => Forall_nil_2 _
                            | x :: m' => Forall_cons_2 _ x m' (jvalue_ind' x.2) (go m')
                            end) m)
  end.
End ValueInd.

Example decode_examples :
  decode_any ("{ " +:+ quoted "a" +:+ " : [1, -2.5e3 ,true], " +:+ quoted "b" +:+ ":null," +:+ quoted "a" +:+ ":{}}")
  = Some (VObject ("{ " +:+ quoted "a" +:+ " : [1, -2.5e3 ,true], " +:+ quoted "b" +:+ ":null," +:+ quoted "a" +:+ ":{}}")
            [("b", VNull); ("a", VObject "{}" [])]) /\
  map decode_any ["[1,]"; "01"; "[1] 2"; " -0.5 "; "{"; "tru"] = [None; None; None; Some (VNumber "-0.5"); None; None].
Proof. split; vm_compute; reflexivity. Qed.

Lemma member_has (A : Type) (l : list (string * A)) k : (exists v, member l k = Some v) <-> has_member l k = true.
Proof.
  induction l as [|[k' v'] l IH]; simpl; [split; [by intros [? ?]|done]|].
  rewrite orb_true_iff, <- IH. destruct (member l k) as [w|].
  - split; eauto.
  - destruct (String.eqb k' k); [split; eauto|]. split; [by intros [? ?]|by intros [?|[? ?]]].
Qed.

Lemma member_in (A : Type) (l : list (string * A)) k v : NoDup l.*1 -> member l k = Some v <-> In (k, v) l.
Proof.
  revert v. induction l as [|[k' v'] l IH]; simpl; intros v Hnd; [done|]. inversion Hnd as [|? ? Hn Hnd']; subst.
  assert (IH' := fun v => IH v Hnd'). clear IH. rename IH' into IH. destruct (member l k) as [w|] eqn:E.
  - rewrite <- IH. split; [auto|]. intros [[= -> ->]|?]; [|done]. contradict Hn.
    apply list_elem_of_fmap. exists (k, w). split; [done|]. apply list_elem_of_In. by apply IH.
  - destruct (String.eqb_spec k' k) as [->|Hk].
    + split; [intros [= ->]; auto|]. intros [[= ->]|H]; [done|]. by apply IH in H.
    + split; [done|]. intros [[= ? ?]|H]; [done|]. by apply IH in H.
Qed.

Lemma has_member_in (A : Type) (l : list (string * A)) k : has_member l k = true <-> k ∈ l.*1.
Proof.
  unfold has_member. rewrite existsb_exists, list_elem_of_fmap. split.
  - intros ([k' v] & Hin & E). apply String.eqb_eq in E. simpl in E. subst. exists (k, v). split; [done|]. by apply list_elem_of_In.
  - intros ([k' v] & -> & Hin). exists (k', v). apply list_elem_of_In in Hin. split; [done|apply String.eqb_refl].
Qed.

Lemma last_members_keys (A : Type) (l : list (string * A)) k : has_member (last_members l) k = has_member l k.
Proof.
  induction l as [|[k' v] l IH]; [done|]. simpl. destruct (has_member l k') eqn:E; [rewrite IH|simpl; by rewrite IH].
  destruct (String.eqb_spec k' k) as [->|]; [by rewrite E|done].
Qed.

Lemma last_members_nodup (A : Type) (l : list (string * A)) : NoDup (last_members l).*1.
Proof.
  induction l as [|[k v] l IH]; simpl; [constructor|]. destruct (has_member l k) eqn:E; [done|].
  simpl. constructor; [|done]. rewrite <- has_member_in, last_members_keys, E. done.
Qed.

Lemma member_last (A : Type) (l : list (string * A)) k : member (last_members l) k = member l k.
Proof.
  induction l as [|[k' v] l IH]; [done|]. simpl. destruct (has_member l k') eqn:E.
  - rewrite IH. destruct (member l k) eqn:Ek; [done|]. destruct (String.eqb_spec k' k) as [->|]; [|done].
    apply member_has in E as [w Hw]. congruence.
  - simpl. by rewrite IH.
Qed.

(** ** Fuel

    Every parser consumes at least a character, so that the fuel of
    [parse_json] is enough: any larger fuel gives the same result. *)

Ltac opt_inv H := let x := fresh "x" in let E := fresh "E" in
  apply bind_Some in H as (x & E & H).

Lemma length_skip_spaces s : (String.length (skip_spaces s) <= String.length s)%nat.
Proof. unfold skip_spaces. induction s as [|c s IH]; simpl; [lia|]. destruct (is_json_space c); simpl; lia. Qed.

Lemma length_skip_literal l s r : skip_literal l s = Some r -> (String.length r + String.length l = String.length s)%nat.
Proof.
  revert s. induction l as [|c l IH]; intros s; [simpl; intros H; injection H as ->; lia|].
  destruct s as [|d s]; simpl; [done|]. destruct (Ascii.eqb c d); [|done]. intros H. apply IH in H. lia.
Qed.

Lemma length_scan_string n s body rest : (String.length s < n)%nat -> scan_string s = Some (body, rest) -> (String.length rest < String.length s)%nat.
Proof.
  revert s body rest. induction n as [|n IH]; intros s body rest Hn; [lia|]. destruct s as [|c s]; [discriminate|].
  cbn [scan_string String.length] in *. destruct (byte c =? 34); [intros [= <- <-]; lia|]. destruct (byte c =? 92).
  - destruct s as [|d s]; [done|]. intros H. opt_inv H. destruct x as [b r]. injection H as <- <-.
    simpl in *. apply IH in E; lia.
  - intros H. opt_inv H. destruct x as [b r]. injection H as <- <-. simpl in *. apply IH in E; lia.
Qed.

Lemma length_parse_string s raw value rest : parse_string s = Some (raw, value, rest) -> (String.length rest < String.length s)%nat.
Proof.
  unfold parse_string. intros H. opt_inv H. destruct x as [body r]. opt_inv H. injection H as _ _ <-.
  by eapply (length_scan_string (S (String.length s))); [lia|].
Qed.

Lemma length_app_string a b : String.length (a +:+ b) = (String.length a + String.length b)%nat.
Proof. induction a as [|c a IH]; [by rewrite sapp_nil_l|]. rewrite sapp_cons. simpl. lia. Qed.

Lemma length_span p s a b : span p s = (a, b) -> String.length s = (String.length a + String.length b)%nat.
Proof. intros H. apply span_spec in H as (-> & _). apply length_app_string. Qed.

Lemma length_parse_number s text rest : parse_number s = Some (text, rest) -> (String.length rest < String.length s)%nat.
Proof.
  unfold parse_number. intros H. apply bind_Some in H as (r1 & E1 & H). apply bind_Some in H as (r2 & E2 & H).
  apply bind_Some in H as (r3 & E3 & H). injection H as _ <-.
  assert (H1 : (String.length r1 < String.length s)%nat).
  { apply match_integer_part_spec in E1 as (i & E & H).
    assert (String.length (optional_minus s) <= String.length s)%nat.
    { unfold optional_minus. destruct s as [|[[] [] [] [] [] [] [] []] s]; simpl; lia. }
    rewrite E, length_app_string in H0. destruct i as [|c i]; [done|]. simpl in H0. lia. }
  assert (H2 : (String.length r2 <= String.length r1)%nat).
  { apply match_fraction_spec in E2 as (f & -> & _). rewrite length_app_string. lia. }
  assert (H3 : (String.length r3 <= String.length r2)%nat).
  { apply match_exponent_spec in E3 as (f & -> & _). rewrite length_app_string. lia. }
  lia.
Qed.

Definition shorter {A} (s : string) (r : option (A * string)) : Prop :=
  forall v rest, r = Some (v, rest) -> (String.length rest < String.length s)%nat.

Lemma parse_shorter fuel :
  (forall depth s, shorter s (parse_value fuel depth s)) /\
  (forall depth s, shorter s (parse_elements fuel depth s)) /\
  (forall depth s, shorter s (parse_members fuel depth s)).
Proof.
  induction fuel as [|fuel (IHv & IHe & IHm)]; [done|]. split; [|split]; intros depth s v rest H; cbn [parse_value parse_elements parse_members] in H.
  - pose proof (length_skip_spaces s) as Hs. destruct (skip_spaces s) as [|c s']; [done|]. simpl in Hs.
    pose proof (length_skip_spaces s') as Hs'.
    destruct (byte c =? 34).
    { opt_inv H. destruct x as [[raw w] r]. injection H as _ <-. apply length_parse_string in E. lia. }
    do 3 (destruct (Ascii.eqb c _); [opt_inv H; injection H as _ <-; apply length_skip_literal in E; simpl in E; lia|]).
    do 2 (destruct (Ascii.eqb c _); [destruct (max_nesting <? depth + 1); [done|]; opt_inv H; destruct x as [l r]; injection H as _ <-;
      destruct (skip_literal _ (skip_spaces s')) as [r0|] eqn:E0;
        [injection E as _ <-; apply length_skip_literal in E0; simpl in E0; lia|first [apply IHe in E|apply IHm in E]; lia]|]).
    opt_inv H. destruct x as [t r]. injection H as _ <-. apply length_parse_number in E. simpl in E. lia.
  - opt_inv H. destruct x as [w r]. apply IHv in E. pose proof (length_skip_spaces r).
    destruct (skip_spaces r) as [|c r']; [done|]. simpl in *.
    destruct c as [[] [] [] [] [] [] [] []]; try done; [injection H as _ <-; lia|].
    opt_inv H. destruct x as [ws r2]. injection H as _ <-. apply IHe in E0. lia.
  - pose proof (length_skip_spaces s) as Hs. destruct (skip_spaces s) as [|c s']; [done|]. simpl in Hs.
    destruct (negb (byte c =? 34)); [done|]. opt_inv H. destruct x as [[raw key] r]. apply length_parse_string in E.
    opt_inv H. apply length_skip_literal in E0. simpl in E0. pose proof (length_skip_spaces r).
    opt_inv H. destruct x0 as [w r2]. apply IHv in E1. pose proof (length_skip_spaces r2).
    destruct (skip_spaces r2) as [|d r']; [done|]. simpl in *.
    destruct d as [[] [] [] [] [] [] [] []]; try done; [injection H as _ <-; lia|].
    opt_inv H. destruct x0 as [ws r3]. injection H as _ <-. apply IHm in E2. lia.
Qed.

Lemma option_bind_ext {A B} (o : option A) (f g : A -> option B) :
  (forall x, o = Some x -> f x = g x) -> (x ← o; f x) = (x ← o; g x).
Proof. intros H. destruct o; [by apply H|done]. Qed.

Lemma parse_fuel fuel :
  (forall fuel' depth s, (2 * String.length s < fuel)%nat -> (2 * String.length s < fuel')%nat ->
     parse_value fuel depth s = parse_value fuel' depth s) /\
  (forall fuel' depth s, (2 * String.length s + 1 < fuel)%nat -> (2 * String.length s + 1 < fuel')%nat ->
     parse_elements fuel depth s = parse_elements fuel' depth s) /\
  (forall fuel' depth s, (2 * String.length s + 1 < fuel)%nat -> (2 * String.length s + 1 < fuel')%nat ->
     parse_members fuel depth s = parse_members fuel' depth s).
Proof.
  induction fuel as [|fuel (IHv & IHe & IHm)]; [split_and!; intros; lia|].
  split; [|split]; intros [|fuel'] depth s Hf Hf'; try lia; cbn [parse_value parse_elements parse_members].
  - pose proof (length_skip_spaces s) as Hs. destruct (skip_spaces s) as [|c s']; [done|]. cbn [String.length] in Hs.
    pose proof (length_skip_spaces s') as Hs'.
    rewrite (IHe fuel') by lia. rewrite (IHm fuel') by lia. done.
  - rewrite (IHv fuel') by lia. apply option_bind_ext. intros [v r] E.
    apply parse_shorter in E. pose proof (length_skip_spaces r).
    destruct (skip_spaces r) as [|c r']; [done|]. cbn [String.length] in *.
    destruct c as [[] [] [] [] [] [] [] []]; try done. by rewrite (IHe fuel') by lia.
  - pose proof (length_skip_spaces s) as Hs. destruct (skip_spaces s) as [|c s']; [done|]. cbn [String.length] in Hs.
    destruct (negb (byte c =? 34)); [done|]. apply option_bind_ext. intros [[raw key] r] E. apply length_parse_string in E.
    apply option_bind_ext. intros r' E'. apply length_skip_literal in E'. pose proof (length_skip_spaces r).
    rewrite (IHv fuel') by lia. apply option_bind_ext. intros [v r2] E2. apply parse_shorter in E2.
    pose proof (length_skip_spaces r2). destruct (skip_spaces r2) as [|d r3]; [done|]. cbn [String.length] in *.
    destruct d as [[] [] [] [] [] [] [] []]; try done. by rewrite (IHm fuel') by lia.
Qed.

(** The parser with any fuel above that of [parse_json] reads the same value. *)
Lemma parse_json_fuel fuel s : (2 * String.length s + 2 <= fuel)%nat ->
  parse_json s = (x ← parse_value fuel 0 s;
                  if String.eqb (skip_spaces x.2) EmptyString then Some x.1 else None).
Proof.
  intros Hf. unfold parse_json. rewrite (proj1 (parse_fuel (2 * String.length s + 2)) fuel) by lia.
  apply option_bind_ext. by intros [v rest] _.
Qed.
