(* ===== verification/Rows.v ===== *)
(** Bounded results of the MySQL adapter (internal/adapters/mysql8/mysql8.go and
    aggregate.go): the encoded-size functions, the metadata listings, and the
    loops that collect the rows of a select and of an aggregate under a byte
    budget. *)
From S2P Require Import Prelude Domain GoJson Number Portable Values QuerySpec Config Policy Sql.
Local Open Scope string_scope.
Local Open Scope Z_scope.

(** ** Encoded sizes

    [None] is the Go pair [(0, false)]. *)
Definition addEncodedSize (current increment maxBytes : Z) : option Z :=
  if (current <? 0) || (increment <? 0) || (maxBytes <? current) || (maxBytes - current <? increment) then None
  else Some (current + increment).

(** The bytes that one rune takes in a JSON string. *)
Definition rune_encoded_bytes (r : rune) : Z :=
  match r with
  | BadByte _ => 6
  | Rune code bytes =>
      match bytes with
      | EmptyString => 0
      | String c _ =>
          let character := byte c in
          if character <? 0x80 then
            if existsb (Z.eqb character) [92; 34; 8; 12; 10; 13; 9] then 2
            else if existsb (Z.eqb character) [60; 62; 38] then 6
            else if character <? 0x20 then 6 else 1
          else if (code =? 0x2028) || (code =? 0x2029) then 6
          else slen bytes
      end
  end.

Fixpoint add_rune_sizes (size maxBytes : Z) (l : list rune) : option Z :=
  match l with
  | [] => Some size
  | r :: l' => size' ← addEncodedSize size (rune_encoded_bytes r) maxBytes; add_rune_sizes size' maxBytes l'
  end.

Definition encodedJSONStringSize (value : string) (maxBytes : Z) : option Z :=
  if maxBytes <? 2 then None else add_rune_sizes 2 maxBytes (runes value).

Definition encodedMetadataJSONStringSize (value : string) (maxBytes : Z) : option Z :=
  if maxBytes <? 2 then None else add_rune_sizes 2 maxBytes (runes value).

Fixpoint add_metadata_values (size maxBytes : Z) (values : list string) : option Z :=
  match values with
  | [] => Some size
  | v :: values' =>
      valueBytes ← encodedMetadataJSONStringSize v (maxBytes - size);
      size' ← addEncodedSize size valueBytes maxBytes;
      add_metadata_values size' maxBytes values'
  end.

Definition encodedMetadataObjectSize (baseSize maxBytes : Z) (values : list string) : option Z :=
  size ← addEncodedSize 0 baseSize maxBytes; add_metadata_values size maxBytes values.

(** The length of an object's text without its values: [len(`{"a":,"b":}`)]. *)
Definition frame (keys : list string) : string :=
  "{" +:+ join "," (map (fun k => marshal_string k +:+ ":") keys) +:+ "}".
Definition frame_size (keys : list string) : Z := slen (frame keys).

Record ColumnDescription := {
  cd_name : string; cd_type : string; cd_native_type : string;
  cd_nullable : bool; cd_primary_key : bool; cd_indexed : bool;
}.

Definition bool_bytes (b : bool) : Z := if b then 4 else 5.

Definition encodedSchemaObjectSize (name : string) (maxBytes : Z) : option Z :=
  encodedMetadataObjectSize (frame_size ["name"]) maxBytes [name].

Definition encodedObjectDescriptionBaseSize (schema name : string) (maxBytes : Z) : option Z :=
  encodedMetadataObjectSize (frame_size ["schema"; "name"; "columns"] + 2) maxBytes [schema; name].

Definition encodedColumnDescriptionSize (column : ColumnDescription) (maxBytes : Z) : option Z :=
  size ← encodedMetadataObjectSize
    (frame_size ["name"; "type"; "native_type"; "nullable"; "primary_key"; "indexed"]) maxBytes
    [cd_name column; cd_type column; cd_native_type column];
  size ← addEncodedSize size (bool_bytes (cd_nullable column)) maxBytes;
  size ← addEncodedSize size (bool_bytes (cd_primary_key column)) maxBytes;
  addEncodedSize size (bool_bytes (cd_indexed column)) maxBytes.

Record ResultColumn := { rc_name : string; rc_type : string; rc_encoding : string; rc_nullable : bool }.

Definition encodedAggregateResultColumnSize (column : ResultColumn) (maximum : Z) : option Z :=
  size ← encodedMetadataObjectSize (frame_size ["name"; "type"; "encoding"; "nullable"]) maximum
    [rc_name column; rc_type column; rc_encoding column];
  addEncodedSize size (bool_bytes (rc_nullable column)) maximum.

Definition result_too_large : goerr := DatabaseError "result_too_large".
Definition upstream_error : goerr := DatabaseError "upstream".
Definition invalid_error : goerr := DatabaseError "invalid".

Definition addAggregateColumnsSize (base : Z) (columns : list ResultColumn) (maximum : Z) : result Z :=
  iter (fun index column current =>
    match encodedAggregateResultColumnSize column (maximum - current) with
    | None => Err result_too_large
    | Some columnSize =>
        let columnSize := if index =? 0 then columnSize else columnSize + 1 in
        match addEncodedSize current columnSize maximum with
        | None => Err result_too_large
        | Some current => Ok current
        end
    end) columns base.

(** [base64.StdEncoding.EncodedLen] *)
Definition base64_encoded_len (n : Z) : Z := (n + 2) / 3 * 4.

(** A row as it was scanned: [None] is a nil [sql.RawBytes], SQL NULL. *)
Definition raw_row := list (option string).

Definition cell_size (encoding : string) (raw : option string) (remaining : Z) : option Z :=
  match raw with
  | None => Some 4
  | Some raw =>
      if String.eqb encoding "base64" then Some (2 + base64_encoded_len (slen raw))
      else encodedJSONStringSize raw remaining
  end.

Fixpoint add_cells (size maxBytes : Z) (first : bool) (rawValues : raw_row) (columns : list ResultColumn) : option Z :=
  match rawValues, columns with
  | raw :: rawValues', column :: columns' =>
      size ← (if first then Some size else addEncodedSize size 1 maxBytes);
      valueBytes ← cell_size (rc_encoding column) raw (maxBytes - size);
      size ← addEncodedSize size valueBytes maxBytes;
      add_cells size maxBytes false rawValues' columns'
  | _, _ => Some size
  end.

Definition encodedRowSize (rawValues : raw_row) (columns : list ResultColumn) (maxBytes : Z) : option Z :=
  if negb (len rawValues =? len columns) || (maxBytes <? 2) then None
  else add_cells 2 maxBytes true rawValues columns.

(** ** Column types *)

Definition strip_prefix (p s : string) : string :=
  if String.prefix p s then sdrop (String.length p) s else s.

Definition portableColumnType (databaseType : string) : string :=
  let normalized := strip_prefix "UNSIGNED " (trim_space (to_upper databaseType)) in
  if contains ["TINYINT"; "SMALLINT"; "MEDIUMINT"; "INT"; "INTEGER"; "BIGINT"; "YEAR"] normalized then "integer"
  else if contains ["DECIMAL"; "NUMERIC"; "FLOAT"; "DOUBLE"; "REAL"] normalized then "decimal"
  else if contains ["DATE"] normalized then "date"
  else if contains ["DATETIME"; "TIMESTAMP"] normalized then "datetime"
  else if contains ["TIME"] normalized then "time"
  else if contains ["BINARY"; "VARBINARY"; "TINYBLOB"; "BLOB"; "MEDIUMBLOB"; "LONGBLOB"; "BIT"; "GEOMETRY"; "POINT";
                    "LINESTRING"; "POLYGON"; "MULTIPOINT"; "MULTILINESTRING"; "MULTIPOLYGON";
                    "GEOMETRYCOLLECTION"; "GEOMCOLLECTION"] normalized then "bytes"
  else if contains ["JSON"] normalized then "json"
  else "string".

Definition resultEncoding (databaseType : string) : string :=
  if String.eqb (portableColumnType databaseType) "bytes" then "base64" else "string".

(** The columns of a select: what the driver reports, overridden for the fields
    projected as source text. *)
Definition driver_column (name databaseType : string) (nullable : option bool) : ResultColumn := {|
  rc_name := name; rc_type := portableColumnType databaseType; rc_encoding := resultEncoding databaseType;
  rc_nullable := default true nullable |}.

Fixpoint source_text_columns (projection : list Selection) (columns : list ResultColumn) : list ResultColumn :=
  match projection, columns with
  | s :: projection', c :: columns' =>
      (if String.eqb (s_representation s) RepresentationSourceText
       then {| rc_name := rc_name c; rc_type := "string"; rc_encoding := "string"; rc_nullable := rc_nullable c |}
       else c) :: source_text_columns projection' columns'
  | _, _ => columns
  end.

(** ** Rows

    What the driver yields: for each [Next] the row that [Scan] would give, or
    its error, and the error of [Err] after the last row. *)
Record row_stream := { st_rows : list (result raw_row); st_err : error }.

Record SelectResult := { sr_rows : list raw_row; sr_bytes : Z; sr_truncated : bool }.

(** The value of a cell: bytes are encoded in base64. *)
Definition encode_cell (column : ResultColumn) (raw : option string) : option string :=
  match raw with
  | None => None
  | Some raw => Some (if String.eqb (rc_encoding column) "base64" then base64_encode raw else raw)
  end.

Fixpoint encode_cells (columns : list ResultColumn) (raw : raw_row) : raw_row :=
  match columns, raw with
  | c :: columns', v :: raw' => encode_cell c v :: encode_cells columns' raw'
  | _, _ => []
  end.

Definition truncate_result (r : SelectResult) : SelectResult :=
  {| sr_rows := sr_rows r; sr_bytes := sr_bytes r; sr_truncated := true |}.

Definition separator {A} (rows : list A) : Z := if len rows =? 0 then 0 else 1.

(** One turn of the loop of [collectSelectRows]. *)
Definition select_step (columns : list ResultColumn) (limit maxResultBytes : Z) (r : SelectResult)
    (scan : result raw_row) : result SelectResult :=
  if sr_truncated r then Ok r
  else if len (sr_rows r) =? limit then Ok (truncate_result r)
  else
    let? rawValues := scan in
    let separatorBytes := separator (sr_rows r) in
    let remainingBytes := maxResultBytes - sr_bytes r in
    if remainingBytes <? separatorBytes then Ok (truncate_result r)
    else
      match encodedRowSize rawValues columns (remainingBytes - separatorBytes) with
      | None => Ok (truncate_result r)
      | Some rowBytes =>
          Ok {| sr_rows := (sr_rows r ++ [encode_cells columns rawValues])%list;
                sr_bytes := sr_bytes r + (separatorBytes + rowBytes); sr_truncated := false |}
      end.

Definition collectSelectRows (rows : row_stream) (columns : list ResultColumn) (limit maxResultBytes : Z)
    (r : SelectResult) : result SelectResult :=
  let? r := iter (fun _ scan r => select_step columns limit maxResultBytes r scan) (st_rows rows) r in
  check? st_err rows then Ok r.

Example frame_sizes :
  map frame_size [["name"]; ["schema"; "name"; "columns"];
                  ["name"; "type"; "native_type"; "nullable"; "primary_key"; "indexed"]] = [9; 30; 70].
Proof. vm_compute. reflexivity. Qed.

(** ** The loops of an aggregate *)

Record AggregateResult := {
  ar_rows : list raw_row; ar_bytes : Z; ar_truncated : bool;
  ar_provisional : option Z; (* the bytes before a row that is kept only if a later row exists *)
}.

(** The division loop; a Go [int] has at most 19 digits. *)
Fixpoint digits_loop (fuel : nat) (value : Z) : Z :=
  match fuel with
  | O => 0
  | S fuel' => if 0 <? value then 1 + digits_loop fuel' (value / 10) else 0
  end.

Definition decimalDigits (value : Z) : Z := if value =? 0 then 1 else digits_loop 20 value.

(** [validCanonicalTimeBucket]: [time.Parse] of the UTC layout and the boundary
    of the unit. The weekday is counted from a known Monday, 2001-01-01. *)
Definition days_before_year (y : Z) : Z :=
  let y' := y - 1 in 365 * y' + y' / 4 - y' / 100 + y' / 400.

Definition day_number (t : Time) : Z :=
  days_before_year (Year t) +
  fold_left (fun acc m => acc + days_in m (Year t)) (map Z.of_nat (seq 1 (Z.to_nat (Month t - 1)))) 0 + Day t.

Definition is_monday (t : Time) : bool :=
  (day_number t - day_number {| Year := 2001; Month := 1; Day := 1; Hour := 0; Minute := 0; Second := 0; Nanosecond := 0 |})
    mod 7 =? 0.

(** [time.Parse("2006-01-02T15:04:05Z", s)] *)
Definition time_parse_utc (s : string) : option Time :=
  '(y, m, d, s) ← parse_date s;
  s ← skip_byte "T" s;
  '(hh, mm, ss, ns, s) ← parse_clock s;
  s ← skip_byte "Z" s;
  if String.eqb s EmptyString && day_in_range y m d then
    Some {| Year := y; Month := m; Day := d; Hour := hh; Minute := mm; Second := ss; Nanosecond := ns |}
  else None.

Definition validCanonicalTimeBucket (raw unit : string) : bool :=
  if negb (slen raw =? 20) || negb (bool_decide (byte_at 10 raw = Some "T"%char)) ||
     negb (bool_decide (byte_at 19 raw = Some "Z"%char)) then false
  else
    match time_parse_utc raw with
    | None => false
    | Some parsed =>
        if negb (Minute parsed =? 0) || negb (Second parsed =? 0) || negb (Nanosecond parsed =? 0) then false
        else if String.eqb unit "hour" then true
        else if String.eqb unit "day" then Hour parsed =? 0
        else if String.eqb unit "week" then (Hour parsed =? 0) && is_monday parsed
        else if String.eqb unit "month" then (Hour parsed =? 0) && (Day parsed =? 1)
        else false
    end.

Fixpoint validate_bucket_cells (rawValues : raw_row) (bucketUnits : list string) : error :=
  match rawValues, bucketUnits with
  | raw :: rawValues', unit :: bucketUnits' =>
      check?
        match raw with
        | None => nil_error
        | Some value =>
            if String.eqb unit EmptyString then nil_error
            else if? negb (validCanonicalTimeBucket value unit) return upstream_error then nil_error
        end then
      validate_bucket_cells rawValues' bucketUnits'
  | _, _ => nil_error
  end.

Definition validateTimeBucketRow (rawValues : raw_row) (bucketUnits : list string) : error :=
  if? negb (len rawValues =? len bucketUnits + 1) return upstream_error then
  if? negb (bool_decide (rawValues !! List.length bucketUnits = Some (Some "0"))) return upstream_error then
  validate_bucket_cells rawValues bucketUnits.

Example time_buckets :
  map (fun '(s, u) => validCanonicalTimeBucket s u)
    [("2024-02-29T00:00:00Z", "day"); ("2024-02-26T00:00:00Z", "week"); ("2024-02-27T00:00:00Z", "week");
     ("2024-02-01T00:00:00Z", "month"); ("2024-02-29T05:00:00Z", "hour"); ("2024-02-30T00:00:00Z", "day")]
  = [true; true; false; true; true; false].
Proof. vm_compute. reflexivity. Qed.

Section AggregateLoop.
(** [grouped], [limit]: the mode and row limit of the query; [validateBuckets]
    the check of a scanned row when the query projects buckets. *)
Context (grouped : bool) (limit : Z) (columns : list ResultColumn) (maxResultBytes : Z).
Context (hasBuckets : bool) (validateBuckets : raw_row -> error).

Definition check_buckets (scan : result raw_row) : error :=
  if hasBuckets then let? raw := scan in validateBuckets raw else nil_error.

(** JSON [true] is one byte shorter than [false]. *)
Definition shorten (bytes : Z) : Z := if 0 <? bytes then bytes - 1 else bytes.

Definition visible (raw : raw_row) : raw_row := take (List.length columns) raw.

Definition aggregate_step (r : AggregateResult) (scan : result raw_row) : result AggregateResult :=
  match ar_provisional r with
  | Some _ =>
      check? check_buckets scan then
      Ok {| ar_rows := ar_rows r; ar_bytes := ar_bytes r; ar_truncated := ar_truncated r; ar_provisional := None |}
  | None =>
      if ar_truncated r then check? check_buckets scan then Ok r
      else if grouped && (len (ar_rows r) =? limit) then
        check? check_buckets scan then
        Ok {| ar_rows := ar_rows r; ar_bytes := shorten (ar_bytes r); ar_truncated := true; ar_provisional := None |}
      else
        let? raw := scan in
        check? (if hasBuckets then validateBuckets raw else nil_error) then
        let visibleValues := visible raw in
        let separatorBytes := separator (ar_rows r) in
        let rowCountGrowth := decimalDigits (len (ar_rows r) + 1) - decimalDigits (len (ar_rows r)) in
        let remaining := maxResultBytes - ar_bytes r - separatorBytes - rowCountGrowth in
        let row := encode_cells columns visibleValues in
        match encodedRowSize visibleValues columns remaining with
        | None =>
            if negb grouped then Err result_too_large
            else
              match encodedRowSize visibleValues columns (remaining + 1) with
              | Some rowBytesWithTruncation =>
                  Ok {| ar_rows := (ar_rows r ++ [row])%list;
                        ar_bytes := ar_bytes r - 1 + (separatorBytes + rowCountGrowth + rowBytesWithTruncation);
                        ar_truncated := true; ar_provisional := Some (ar_bytes r) |}
              | None =>
                  Ok {| ar_rows := ar_rows r; ar_bytes := shorten (ar_bytes r); ar_truncated := true;
                        ar_provisional := None |}
              end
        | Some rowBytes =>
            Ok {| ar_rows := (ar_rows r ++ [row])%list;
                  ar_bytes := ar_bytes r + (separatorBytes + rowCountGrowth + rowBytes);
                  ar_truncated := false; ar_provisional := None |}
        end
  end.

(** After the last row: a row kept provisionally is dropped again. *)
Definition aggregate_finish (r : AggregateResult) : result AggregateResult :=
  let r :=
    match ar_provisional r with
    | Some previous => {| ar_rows := removelast (ar_rows r); ar_bytes := previous - 1;
                          ar_truncated := ar_truncated r; ar_provisional := None |}
    | None => r
    end in
  if negb grouped then
    if? negb (len (ar_rows r) =? 1) return upstream_error then
    Ok {| ar_rows := ar_rows r; ar_bytes := ar_bytes r; ar_truncated := false; ar_provisional := None |}
  else Ok r.

Definition collect_aggregate (rows : row_stream) (r : AggregateResult) : result AggregateResult :=
  let? r := iter (fun _ scan r => aggregate_step r scan) (st_rows rows) r in
  check? st_err rows then aggregate_finish r.
End AggregateLoop.

(** ** Metadata listings *)

(** The loop [for index := range actual] stops at the first byte of each rune. *)
Fixpoint token_runes (actual : list rune) (requested : string) : bool :=
  match actual with
  | [] => true
  | r :: actual' =>
      match rune_bytes r, requested with
      | String actualByte _, String requestedByte _ =>
          Ascii.eqb (lower_ascii actualByte) (lower_ascii requestedByte) &&
          token_runes actual' (sdrop (String.length (rune_bytes r)) requested)
      | _, _ => false
      end
  end.

Definition tokenIdentifierMatches (actual requested : string) (caseInsensitive : bool) : bool :=
  if negb caseInsensitive then String.eqb actual requested
  else if negb (slen actual =? slen requested) then false
  else token_runes (runes actual) requested.

Definition metadata_mismatch : goerr := upstream_error.
Definition MaxSupportedResultBytes : Z := 16777216.

(** The loop of [ListObjects]: the scanned schema and name of each row. *)
Definition list_objects_step (schema : string) (caseInsensitive : bool) (state : list string * Z)
    (scan : result (string * string)) : result (list string * Z) :=
  let '(objects, encodedBytes) := state in
  let? (actualSchema, name) := scan in
  if? negb (tokenIdentifierMatches actualSchema schema caseInsensitive) return metadata_mismatch then
  match encodedSchemaObjectSize name MaxSupportedResultBytes with
  | None => Err result_too_large
  | Some objectBytes =>
      let increment := objectBytes + separator objects in
      match addEncodedSize encodedBytes increment MaxSupportedResultBytes with
      | None => Err result_too_large
      | Some encodedBytes => Ok ((objects ++ [name])%list, encodedBytes)
      end
  end.

Definition list_objects (schema : string) (caseInsensitive : bool) (rows : list (result (string * string)))
    (err : error) : result (list string) :=
  let? (objects, _) := iter (fun _ scan state => list_objects_step schema caseInsensitive state scan) rows ([], frame_size ["objects"] + 2) in
  check? err then Ok objects.

(** The loop of [DescribeObject]: the scanned schema, name and column of each row. *)
Record describe_state := { ds_schema : string; ds_name : string; ds_columns : list ColumnDescription; ds_bytes : Z }.

Definition describe_step (object : ResourceRef) (caseInsensitive : bool) (st : describe_state)
    (scan : result (string * string * ColumnDescription)) : result describe_state :=
  let? (actual, column) := scan in
  let '(actualSchema, actualName) := actual in
  if? negb (tokenIdentifierMatches actualSchema (r_schema object) caseInsensitive) ||
      negb (tokenIdentifierMatches actualName (r_name object) caseInsensitive)
  return metadata_mismatch then
  match encodedObjectDescriptionBaseSize actualSchema actualName MaxSupportedResultBytes with
  | None => Err result_too_large
  | Some baseBytes =>
      match encodedColumnDescriptionSize column MaxSupportedResultBytes with
      | None => Err result_too_large
      | Some columnBytes =>
          let increment := columnBytes + separator (ds_columns st) in
          match addEncodedSize (ds_bytes st) increment MaxSupportedResultBytes with
          | None => Err result_too_large
          | Some nextColumnsBytes =>
              match addEncodedSize baseBytes nextColumnsBytes MaxSupportedResultBytes with
              | None => Err result_too_large
              | Some _ => Ok {| ds_schema := actualSchema; ds_name := actualName;
                                ds_columns := (ds_columns st ++ [column])%list; ds_bytes := nextColumnsBytes |}
              end
          end
      end
  end.

Definition describe_object (object : ResourceRef) (caseInsensitive : bool)
    (rows : list (result (string * string * ColumnDescription))) (err : error) : result describe_state :=
  match encodedObjectDescriptionBaseSize (r_schema object) (r_name object) MaxSupportedResultBytes with
  | None => Err result_too_large
  | Some _ =>
      let? st := iter (fun _ scan st => describe_step object caseInsensitive st scan) rows
        {| ds_schema := r_schema object; ds_name := r_name object; ds_columns := []; ds_bytes := 0 |} in
      check? err then
      if? len (ds_columns st) =? 0 return invalid_error then Ok st
  end.

(** ** Names of the catalog *)

Lemma lower_ascii_class c d : is_ascii c = false -> is_ascii d = true -> Ascii.eqb (lower_ascii c) (lower_ascii d) = false.
Proof.
  intros Hc Hd. apply Ascii.eqb_neq. intros E.
  assert (Hb : all_bytes (fun x => Bool.eqb (is_ascii (lower_ascii x)) (is_ascii x)) = true) by (vm_compute; reflexivity).
  pose proof (all_bytes_spec _ Hb c) as H1. pose proof (all_bytes_spec _ Hb d) as H2. cbv beta in *.
  apply Bool.eqb_prop in H1, H2. congruence.
Qed.

Lemma token_runes_lower l requested : Forall rune_starts l -> ascii_string requested = true ->
  slen (sconcat (map rune_bytes l)) = slen requested ->
  token_runes l requested = true <-> to_lower (sconcat (map rune_bytes l)) = to_lower requested.
Proof.
  intros Hl. revert requested. induction Hl as [|r l (c & rest & Er & Hr & _) _ IH]; intros requested Ha Hlen.
  - destruct requested; [done|]. rewrite slen_cons in Hlen. pose proof (slen_nonneg requested).
    change (slen (sconcat (map rune_bytes []))) with 0 in Hlen. lia.
  - cbn [map token_runes] in *. rewrite sconcat_cons in *. rewrite Er in *. destruct requested as [|d requested].
    { rewrite sapp_cons, slen_cons in Hlen. pose proof (slen_nonneg (rest +:+ sconcat (map rune_bytes l))).
      change (slen EmptyString) with 0 in Hlen. lia. }
    unfold ascii_string in Ha. cbn [sforall] in Ha. apply andb_true_iff in Ha as [Hd Ha]. rewrite sapp_cons in *.
    unfold to_lower. cbn [smap]. destruct Hr as [->|Hr].
    + rewrite sapp_nil_l in *. rewrite !slen_cons in Hlen. specialize (IH requested Ha ltac:(lia)).
      change (sdrop (String.length (String c EmptyString)) (String d requested)) with requested.
      rewrite andb_true_iff, Ascii.eqb_eq, IH. unfold to_lower. split; [intros [-> ->]; done|by intros [= -> ->]].
    + rewrite lower_ascii_class by done. split; [done|]. intros [= E _].
      pose proof (lower_ascii_class c d Hr Hd) as H. rewrite E, Ascii.eqb_refl in H. done.
Qed.

(** Against an ASCII name, as every requested name is, the comparison is of the
    whole text. *)
Lemma tokenIdentifierMatches_iff actual requested caseInsensitive : ascii_string requested = true ->
  tokenIdentifierMatches actual requested caseInsensitive = true <->
  if caseInsensitive then to_lower actual = to_lower requested else actual = requested.
Proof.
  intros Ha. unfold tokenIdentifierMatches. destruct caseInsensitive; cbn [negb]; [|apply String.eqb_eq].
  destruct (runes_bytes actual) as [E H]. destruct (Z.eqb_spec (slen actual) (slen requested)) as [El|El]; cbn [negb].
  - rewrite token_runes_lower by (try done; by rewrite E). by rewrite E.
  - split; [done|]. intros Hlo. destruct El. apply (f_equal slen) in Hlo. unfold to_lower in Hlo.
    by rewrite !slen_smap in Hlo.
Qed.

(** ** The size functions are exact *)

Lemma addEncodedSize_iff c i m n :
  addEncodedSize c i m = Some n <-> 0 <= c /\ 0 <= i /\ n = c + i /\ n <= m.
Proof.
  unfold addEncodedSize. destruct (_ || _ || _ || _) eqn:E; bool_prop.
  - split; [done|lia].
  - split; [intros [= <-]; lia|intros (? & ? & -> & ?); done].
Qed.

Lemma rune_encoded_bytes_spec r : rune_encoded_bytes r = slen (escape_rune r).
Proof.
  destruct r as [code [|c bytes]|c]; try done. cbn [rune_encoded_bytes escape_rune].
  destruct (Z.ltb_spec (byte c) 0x80) as [H|H].
  - assert (Hb : all_bytes (fun c => implb (byte c <? 0x80)
      ((if existsb (Z.eqb (byte c)) [92; 34; 8; 12; 10; 13; 9] then 2
        else if existsb (Z.eqb (byte c)) [60; 62; 38] then 6 else if byte c <? 0x20 then 6 else 1)
       =? slen (escape_ascii c))) = true) by (vm_compute; reflexivity).
    pose proof (all_bytes_spec _ Hb c) as Hc. cbv beta in Hc.
    rewrite (proj2 (Z.ltb_lt _ _) H) in Hc. by apply Z.eqb_eq in Hc.
  - destruct (code =? 0x2028) eqn:E1; [done|]. by destruct (code =? 0x2029).
Qed.

Lemma rune_encoded_bytes_nonneg r : 0 <= rune_encoded_bytes r.
Proof. rewrite rune_encoded_bytes_spec. apply slen_nonneg. Qed.

Lemma add_rune_sizes_iff l : forall size maxBytes n, 0 <= size <= maxBytes ->
  add_rune_sizes size maxBytes l = Some n <-> n = size + sum_of rune_encoded_bytes l /\ n <= maxBytes.
Proof.
  induction l as [|r l IH]; intros size maxBytes n Hs; cbn [add_rune_sizes].
  - simpl. rewrite Z.add_0_r. split; [intros [= <-]; lia|intros [-> _]; done].
  - rewrite bind_Some. setoid_rewrite addEncodedSize_iff.
    change (sum_of rune_encoded_bytes (r :: l)) with (rune_encoded_bytes r + sum_of rune_encoded_bytes l).
    pose proof (rune_encoded_bytes_nonneg r).
    assert (0 <= sum_of rune_encoded_bytes l)
      by (apply sum_nonneg, Forall_forall; intros; apply rune_encoded_bytes_nonneg).
    split.
    + intros (s & (? & ? & -> & ?) & Hl). apply IH in Hl; lia.
    + intros [-> Hn]. exists (size + rune_encoded_bytes r). split; [lia|]. apply IH; lia.
Qed.

Lemma escape_len v : slen (escape v) = sum_of rune_encoded_bytes (runes v).
Proof.
  unfold escape. induction (runes v) as [|r l IH]; [done|]. simpl. rewrite slen_app, IH.
  by rewrite rune_encoded_bytes_spec.
Qed.

Lemma marshal_string_len v : slen (marshal_string v) = 2 + slen (escape v).
Proof. unfold marshal_string. rewrite !slen_app. change (slen dquote) with 1. lia. Qed.

Lemma encodedJSONStringSize_iff v maxBytes n :
  encodedJSONStringSize v maxBytes = Some n <-> n = slen (marshal_string v) /\ n <= maxBytes.
Proof.
  unfold encodedJSONStringSize. rewrite marshal_string_len, escape_len.
  assert (0 <= sum_of rune_encoded_bytes (runes v))
    by (apply sum_nonneg, Forall_forall; intros; apply rune_encoded_bytes_nonneg).
  destruct (Z.ltb_spec maxBytes 2); [split; [done|lia]|]. apply add_rune_sizes_iff. lia.
Qed.

Lemma encodedMetadataJSONStringSize_iff v maxBytes n :
  encodedMetadataJSONStringSize v maxBytes = Some n <-> n = slen (marshal_string v) /\ n <= maxBytes.
Proof. apply encodedJSONStringSize_iff. Qed.

Lemma encodedMetadataObjectSize_iff base maxBytes values n : 0 <= base ->
  encodedMetadataObjectSize base maxBytes values = Some n <->
  n = base + sum_of (fun v => slen (marshal_string v)) values /\ n <= maxBytes.
Proof.
  intros Hbase. unfold encodedMetadataObjectSize.
  assert (Hv : forall values size n, 0 <= size <= maxBytes -> add_metadata_values size maxBytes values = Some n <->
    n = size + sum_of (fun v => slen (marshal_string v)) values /\ n <= maxBytes).
  { clear. intros values. induction values as [|v l IH]; intros size n Hs; cbn [add_metadata_values].
    - simpl. rewrite Z.add_0_r. split; [intros [= <-]; lia|intros [-> _]; done].
    - change (sum_of (fun v => slen (marshal_string v)) (v :: l))
        with (slen (marshal_string v) + sum_of (fun v => slen (marshal_string v)) l).
      pose proof (slen_nonneg (marshal_string v)).
      assert (0 <= sum_of (fun v => slen (marshal_string v)) l)
        by (apply sum_nonneg, Forall_forall; intros; apply slen_nonneg).
      rewrite bind_Some. setoid_rewrite encodedMetadataJSONStringSize_iff. split.
      + intros (x & (-> & ?) & Hx). apply bind_Some in Hx as (y & (? & ? & -> & ?)%addEncodedSize_iff & Hy).
        apply IH in Hy; lia.
      + intros [-> Hn]. eexists. split; [split; [reflexivity|lia]|]. apply bind_Some.
        exists (size + slen (marshal_string v)). split; [apply addEncodedSize_iff; lia|apply IH; lia]. }
  assert (0 <= sum_of (fun v => slen (marshal_string v)) values)
    by (apply sum_nonneg, Forall_forall; intros; apply slen_nonneg).
  rewrite bind_Some. setoid_rewrite addEncodedSize_iff. split.
  - intros (x & (? & ? & -> & ?) & Hx). apply Hv in Hx; lia.
  - intros [-> Hn]. exists base. split; [lia|]. apply Hv; lia.
Qed.

(** *** base64 text needs no escapes *)

Definition json_plain (c : ascii) : bool := is_ascii c && (slen (escape_ascii c) =? 1).

Lemma escape_plain_len s : sforall json_plain s = true -> slen (escape s) = slen s.
Proof.
  induction s as [|c s IH]; [done|]. cbn [sforall]. rewrite andb_true_iff. intros [Hc Hs].
  unfold json_plain in Hc. apply andb_true_iff in Hc as [Ha Hl%Z.eqb_eq].
  rewrite escape_cons, slen_app, slen_cons, Hl, IH by done. lia.
Qed.

Lemma base64_digit_plain n : 0 <= n < 64 -> json_plain (base64_digit n) = true.
Proof.
  intros H. assert (Hall : forallb (fun k => json_plain (base64_digit (Z.of_nat k))) (seq 0 64) = true)
    by (vm_compute; reflexivity).
  rewrite forallb_forall in Hall. specialize (Hall (Z.to_nat n)). rewrite Z2Nat.id in Hall by lia.
  apply Hall, in_seq. lia.
Qed.

Lemma base64_encode_plain s : sforall json_plain (base64_encode s) = true.
Proof.
  induction s as [|a|a b|a b c r IH] using string_ind3; [done| | |];
    pose proof (byte_bounds a); try pose proof (byte_bounds b); try pose proof (byte_bounds c);
    rewrite ?base64_encode_3; cbn [base64_encode sforall]; rewrite ?base64_digit_plain by div_lia; try done.
Qed.

Lemma base64_encode_len s : slen (base64_encode s) = base64_encoded_len (slen s).
Proof.
  unfold base64_encoded_len. induction s as [|a|a b|a b c r IH] using string_ind3; [done|done|done|].
  rewrite base64_encode_3, !slen_cons, IH. div_lia.
Qed.

(** *** Rows *)

Definition cell_json (cell : option string) : json := match cell with None => JNull | Some s => JStr s end.
Definition row_json (row : raw_row) : json := JArr (map cell_json row).

Lemma cell_size_iff column raw remaining n :
  cell_size (rc_encoding column) raw remaining = Some n ->
  n = slen (marshal (cell_json (encode_cell column raw))).
Proof.
  destruct raw as [raw|]; [|by intros [= <-]]. unfold cell_size, encode_cell. cbn [cell_json marshal].
  destruct (String.eqb (rc_encoding column) "base64").
  - intros [= <-]. by rewrite marshal_string_len, escape_plain_len, base64_encode_len by apply base64_encode_plain.
  - by intros [-> _]%encodedJSONStringSize_iff.
Qed.

Lemma cell_size_some column raw remaining :
  slen (marshal (cell_json (encode_cell column raw))) <= remaining ->
  cell_size (rc_encoding column) raw remaining = Some (slen (marshal (cell_json (encode_cell column raw)))).
Proof.
  destruct raw as [raw|]; [|done]. unfold cell_size, encode_cell. cbn [cell_json marshal].
  destruct (String.eqb (rc_encoding column) "base64"); intros H.
  - by rewrite marshal_string_len, escape_plain_len, base64_encode_len by apply base64_encode_plain.
  - by apply encodedJSONStringSize_iff.
Qed.

(** The bytes of the cells with the commas before all but the first one. *)
Definition cells_size (first : bool) (cells : raw_row) : Z :=
  sum_of (fun c => slen (marshal (cell_json c))) cells + (if first then Z.max 0 (len cells - 1) else len cells).

Lemma row_json_size cells : slen (marshal (row_json cells)) = 2 + cells_size true cells.
Proof.
  unfold row_json. cbn [marshal]. rewrite !slen_app. change (slen "[") with 1. change (slen "]") with 1.
  rewrite map_map. enough (slen (join "," (map (fun c => marshal (cell_json c)) cells)) = cells_size true cells) by lia.
  unfold cells_size. induction cells as [|c l IH]; [done|]. destruct l as [|d l]; [unfold sum_of, len; simpl; lia|].
  change (join "," (map (fun c => marshal (cell_json c)) (c :: d :: l)))
    with (marshal (cell_json c) +:+ "," +:+ join "," (map (fun c => marshal (cell_json c)) (d :: l))).
  rewrite !slen_app, IH. change (slen ",") with 1.
  change (sum_of (fun c => slen (marshal (cell_json c))) (c :: d :: l))
    with (slen (marshal (cell_json c)) + sum_of (fun c => slen (marshal (cell_json c))) (d :: l)).
  rewrite !len_cons. pose proof (len_nonneg l). lia.
Qed.

Lemma cells_size_cons first c l :
  cells_size first (c :: l) = (if first then 0 else 1) + slen (marshal (cell_json c)) + cells_size false l.
Proof.
  unfold cells_size. rewrite len_cons. change (sum_of (fun c => slen (marshal (cell_json c))) (c :: l))
    with (slen (marshal (cell_json c)) + sum_of (fun c => slen (marshal (cell_json c))) l).
  pose proof (len_nonneg l). destruct first; lia.
Qed.

Lemma cells_size_nonneg first l : 0 <= cells_size first l.
Proof.
  unfold cells_size. pose proof (len_nonneg l).
  assert (0 <= sum_of (fun c => slen (marshal (cell_json c))) l)
    by (apply sum_nonneg, Forall_forall; intros; apply slen_nonneg).
  destruct first; lia.
Qed.

Lemma add_cells_iff columns : forall raws size maxBytes first n,
  0 <= size <= maxBytes -> List.length raws = List.length columns ->
  add_cells size maxBytes first raws columns = Some n <->
  n = size + cells_size first (encode_cells columns raws) /\ n <= maxBytes.
Proof.
  induction columns as [|c cs IH]; intros [|raw raws] size maxBytes first n Hs Hl; try done; cbn [add_cells encode_cells].
  - replace (cells_size first []) with 0 by (by destruct first).
    rewrite Z.add_0_r. split; [intros [= <-]; lia|intros [-> _]; done].
  - injection Hl as Hl. rewrite cells_size_cons. set (cell := slen (marshal (cell_json (encode_cell c raw)))).
    assert (0 <= cell) by apply slen_nonneg. pose proof (cells_size_nonneg false (encode_cells cs raws)).
    assert (Hsep : forall m, (if first then Some size else addEncodedSize size 1 maxBytes) = Some m <->
                             m = size + (if first then 0 else 1) /\ m <= maxBytes).
    { intros m. destruct first; [split; [intros [= <-]; lia|intros [-> _]; by rewrite Z.add_0_r]|].
      rewrite addEncodedSize_iff. lia. }
    rewrite bind_Some. setoid_rewrite Hsep. split.
    + intros (s1 & (-> & ?) & H2). apply bind_Some in H2 as (v & Hv & H2).
      apply cell_size_iff in Hv. fold cell in Hv. subst v.
      apply bind_Some in H2 as (s2 & (? & ? & -> & ?)%addEncodedSize_iff & Hrest). apply IH in Hrest; [lia|lia|done].
    + intros [-> Hn]. eexists. split; [split; [reflexivity|lia]|]. apply bind_Some.
      exists cell. split; [apply cell_size_some; fold cell; lia|]. apply bind_Some.
      eexists. split; [apply addEncodedSize_iff; split_and!; [| |reflexivity|]; destruct first; lia|].
      apply IH; [destruct first; lia|done|lia].
Qed.

Lemma encodedRowSize_iff raws columns maxBytes n :
  encodedRowSize raws columns maxBytes = Some n <->
  List.length raws = List.length columns /\ n = slen (marshal (row_json (encode_cells columns raws))) /\ n <= maxBytes.
Proof.
  unfold encodedRowSize. rewrite row_json_size. pose proof (cells_size_nonneg true (encode_cells columns raws)).
  destruct (negb _ || _) eqn:E; bool_prop.
  - split; [done|]. unfold len in E. lia.
  - destruct E as [E1 E2]. unfold len in E1. apply Nat2Z.inj in E1. rewrite add_cells_iff by (done || lia). tauto.
Qed.

(** [encodedRowSize] is exact: it is the length of the JSON array that
    [json.Marshal] prints for the row, escapes, invalid UTF-8 and base64
    included, and it answers just when that array fits the budget. *)
Theorem encodedRowSize_exact raws columns maxBytes n :
  encodedRowSize raws columns maxBytes = Some n <->
  List.length raws = List.length columns /\ n = slen (marshal (row_json (encode_cells columns raws))) /\ n <= maxBytes.
Proof. apply encodedRowSize_iff. Qed.

(** ** A select returns the largest prefix that fits *)

(** The text of a list of rows inside the JSON array of rows. *)
Definition rows_text (rows : list raw_row) : string := join "," (map (fun r => marshal (row_json r)) rows).
Definition rows_size (rows : list raw_row) : Z := slen (rows_text rows).

Lemma join_snoc sep l x :
  join sep (l ++ [x])%list = (if len l =? 0 then x else join sep l +:+ sep +:+ x).
Proof.
  induction l as [|a l IH]; [done|]. rewrite <- app_comm_cons.
  replace (len (a :: l) =? 0) with false by (symmetry; apply Z.eqb_neq; rewrite len_cons; pose proof (len_nonneg l); lia).
  destruct l as [|b l]; [done|].
  replace (len (b :: l) =? 0) with false in IH by (symmetry; apply Z.eqb_neq; rewrite len_cons; pose proof (len_nonneg l); lia).
  change (join sep (a :: ((b :: l) ++ [x]))) with (a +:+ sep +:+ join sep ((b :: l) ++ [x])%list).
  change (join sep (a :: b :: l)) with (a +:+ sep +:+ join sep (b :: l)). by rewrite IH, !sapp_assoc.
Qed.

Lemma len_map {A B} (f : A -> B) l : len (map f l) = len l.
Proof. unfold len. by rewrite length_map. Qed.

Lemma rows_size_snoc rows r :
  rows_size (rows ++ [r])%list = rows_size rows + separator rows + slen (marshal (row_json r)).
Proof.
  unfold rows_size, rows_text, separator. rewrite map_app. cbn [map]. rewrite join_snoc, len_map.
  destruct (len rows =? 0) eqn:E; [apply len_zero in E as ->; done|].
  rewrite !slen_app. change (slen ",") with 1. lia.
Qed.

Lemma rows_size_nonneg rows : 0 <= rows_size rows.
Proof. apply slen_nonneg. Qed.

Lemma row_json_len row : 2 <= slen (marshal (row_json row)).
Proof. rewrite row_json_size. pose proof (cells_size_nonneg true row). lia. Qed.

Lemma rows_size_app rows rest : rows_size rows <= rows_size (rows ++ rest)%list.
Proof.
  induction rest as [|r rest IH] using rev_ind; [by rewrite app_nil_r|].
  rewrite app_assoc, rows_size_snoc. pose proof (row_json_len r).
  unfold separator. destruct (len (rows ++ rest) =? 0); lia.
Qed.

Lemma separator_map {A B} (f : A -> B) l : separator (map f l) = separator l.
Proof. unfold separator. by rewrite len_map. Qed.

Section SelectLoop.
Context (columns : list ResultColumn) (limit maxResultBytes base : Z).

Definition encoded (raws : list raw_row) : list raw_row := map (encode_cells columns) raws.

(** The rows of a prefix and its bytes: the given base and the text of the rows. *)
Definition prefix_result (raws : list raw_row) (truncated : bool) : SelectResult := {|
  sr_rows := encoded raws; sr_bytes := base + rows_size (encoded raws); sr_truncated := truncated |}.

(** [fits raws]: the prefix may be returned. *)
Definition fits (raws : list raw_row) : Prop :=
  len raws <= limit /\ base + rows_size (encoded raws) <= maxResultBytes.

Lemma encoded_snoc raws raw : encoded (raws ++ [raw])%list = (encoded raws ++ [encode_cells columns raw])%list.
Proof. unfold encoded. by rewrite map_app. Qed.

Lemma fits_prefix raws rest : fits (raws ++ rest)%list -> fits raws.
Proof.
  unfold fits, encoded. rewrite map_app, len_app. intros [H1 H2].
  pose proof (rows_size_app (map (encode_cells columns) raws) (map (encode_cells columns) rest)).
  pose proof (len_nonneg rest). lia.
Qed.

(** After the rows [done]: all of them were kept, or the largest prefix of them. *)
Definition select_inv (done : list raw_row) (r : SelectResult) : Prop :=
  (r = prefix_result done false /\ fits done) \/
  (exists kept next rest, done = (kept ++ next :: rest)%list /\ r = prefix_result kept true /\ fits kept /\
     ~ fits (kept ++ [next])%list).

Lemma select_step_inv done r raw :
  select_inv done r -> List.length raw = List.length columns ->
  exists r', select_step columns limit maxResultBytes r (Ok raw) = Ok r' /\ select_inv (done ++ [raw])%list r'.
Proof.
  intros [[-> Hf]|(kept & next & rest & -> & -> & Hf & Hn)] Hw; unfold select_step; cbn [prefix_result sr_truncated].
  2: { eexists. split; [done|]. right. exists kept, next, (rest ++ [raw])%list. by rewrite <- app_assoc. }
  cbn [prefix_result sr_rows sr_bytes rbind]. assert (Hlen : len (encoded done) = len done) by apply len_map. rewrite Hlen.
  assert (Hstop : ~ fits (done ++ [raw])%list -> select_inv (done ++ [raw])%list (truncate_result (prefix_result done false))).
  { intros H. right. exists done, raw, []. done. }
  assert (Hfits : fits (done ++ [raw])%list <-> len done < limit /\
    base + rows_size (encoded done) + separator (encoded done) + slen (marshal (row_json (encode_cells columns raw))) <= maxResultBytes).
  { unfold fits. rewrite encoded_snoc, rows_size_snoc, len_app, len_cons, len_nil. lia. }
  destruct Hf as [Hf1 Hf2].
  destruct (Z.eqb_spec (len done) limit) as [Hl|Hl]; [eexists; split; [done|]; apply Hstop; rewrite Hfits; lia|].
  pose proof (row_json_len (encode_cells columns raw)).
  destruct (Z.ltb_spec (maxResultBytes - (base + rows_size (encoded done))) (separator (encoded done)));
    [eexists; split; [done|]; apply Hstop; rewrite Hfits; lia|].
  destruct (encodedRowSize raw columns _) as [n|] eqn:E.
  - apply encodedRowSize_iff in E as (_ & -> & Hn). eexists. split; [done|]. left.
    split; [|apply Hfits; lia]. unfold prefix_result. rewrite encoded_snoc, rows_size_snoc. f_equal. lia.
  - eexists. split; [done|]. apply Hstop. rewrite Hfits. intros [_ Hfit].
    assert (Hsome := proj2 (encodedRowSize_iff raw columns
      (maxResultBytes - (base + rows_size (encoded done)) - separator (encoded done))
      (slen (marshal (row_json (encode_cells columns raw)))))). rewrite E in Hsome.
    by discriminate Hsome; split_and!; [done|done|lia].
Qed.

Lemma select_loop_inv raws : forall i done r,
  select_inv done r -> Forall (fun raw => List.length raw = List.length columns) raws ->
  exists r', iter_from (fun _ scan r => select_step columns limit maxResultBytes r scan) i (map Ok raws) r = Ok r' /\
             select_inv (done ++ raws)%list r'.
Proof.
  induction raws as [|raw raws IH]; intros i done r Hr Hw.
  - exists r. by rewrite app_nil_r.
  - apply Forall_cons in Hw as [Hw Hws]. destruct (select_step_inv done r raw Hr Hw) as (r1 & E & H1).
    destruct (IH (i + 1) _ _ H1 Hws) as (r2 & E2 & H2). exists r2. cbn [map iter_from]. rewrite E. simpl.
    by rewrite <- app_assoc in H2.
Qed.

End SelectLoop.

(** C34: A select returns the largest prefix of the database's rows that respects
    the row limit and the byte budget: it always succeeds, its byte count is
    exactly the base plus the length of the JSON text of the returned rows and
    never above the budget, every longer prefix would break a limit, and the
    result is marked truncated just when a row was left out. *)
Theorem collectSelectRows_largest_prefix columns limit maxResultBytes base raws :
  Forall (fun raw => List.length raw = List.length columns) raws ->
  0 <= limit -> base <= maxResultBytes ->
  exists kept rest,
    raws = (kept ++ rest)%list /\
    collectSelectRows {| st_rows := map Ok raws; st_err := nil_error |} columns limit maxResultBytes
      {| sr_rows := []; sr_bytes := base; sr_truncated := false |} =
      Ok (prefix_result columns base kept (negb (len rest =? 0))) /\
    len kept <= limit /\ base + rows_size (encoded columns kept) <= maxResultBytes /\
    forall more, more <> [] -> more `prefix_of` rest ->
      limit < len (kept ++ more)%list \/ maxResultBytes < base + rows_size (encoded columns (kept ++ more)%list).
Proof.
  intros Hw Hl Hb. unfold collectSelectRows, iter. cbn [st_rows st_err].
  assert (H0 : select_inv columns limit maxResultBytes base [] {| sr_rows := []; sr_bytes := base; sr_truncated := false |}).
  { left. unfold prefix_result, fits. simpl. change (rows_size (encoded columns [])) with 0. change (len (@nil raw_row)) with 0. rewrite Z.add_0_r. done. }
  destruct (select_loop_inv columns limit maxResultBytes base raws 0 [] _ H0 Hw) as (r & E & H). rewrite E. simpl in H |- *.
  destruct H as [[-> [H1 H2]]|(kept & next & rest & -> & -> & [H1 H2] & Hn)].
  - exists raws, []. rewrite app_nil_r. split_and!; try done. intros more Hne Hp. by apply prefix_nil_inv in Hp.
  - exists kept, (next :: rest). split_and!; try done.
    intros more Hne Hp. destruct more as [|m more]; [done|]. destruct Hp as [k Hk]. injection Hk as <- _.
      change (next :: more) with ([next] ++ more)%list. rewrite app_assoc.
      destruct (decide (len ((kept ++ [next]) ++ more)%list <= limit)) as [Hd|Hd]; [right|left; apply Z.lt_nge; exact Hd].
      apply Z.lt_nge. intros Hfit. apply Hn. apply (fits_prefix columns limit maxResultBytes base _ more). done.
Qed.

Definition text_column : ResultColumn := {| rc_name := "a"; rc_type := "string"; rc_encoding := "string"; rc_nullable := true |}.

Lemma collectSelectRows_largest_prefix_witness :
  exists kept rest,
    [[Some "x"]; [None]; [Some "yy"]] = (kept ++ rest)%list /\
    collectSelectRows {| st_rows := map Ok [[Some "x"]; [None]; [Some "yy"]]; st_err := nil_error |} [text_column] 5 24
      {| sr_rows := []; sr_bytes := 12; sr_truncated := false |} =
      Ok (prefix_result [text_column] 12 kept (negb (len rest =? 0))) /\
    len kept <= 5 /\ 12 + rows_size (encoded [text_column] kept) <= 24 /\
    forall more, more <> [] -> more `prefix_of` rest ->
      5 < len (kept ++ more)%list \/ 24 < 12 + rows_size (encoded [text_column] (kept ++ more)%list).
Proof.
  apply (collectSelectRows_largest_prefix [text_column] 5 24 12 [[Some "x"]; [None]; [Some "yy"]]);
    [repeat constructor|lia|lia].
Defined.

Example collect_truncates :
  collectSelectRows {| st_rows := map Ok [[Some "x"]; [None]; [Some "yy"]]; st_err := nil_error |} [text_column] 5 24
    {| sr_rows := []; sr_bytes := 12; sr_truncated := false |} =
  Ok {| sr_rows := [[Some "x"]; [None]]; sr_bytes := 24; sr_truncated := true |}.
Proof. vm_compute. reflexivity. Qed.

(** ** An aggregate returns the largest prefix that fits *)

Lemma decimalDigits_step n : 0 <= n -> decimalDigits n <= decimalDigits (n + 1).
Proof.
  unfold decimalDigits.
  assert (Hmono : forall fuel a b, a <= b -> digits_loop fuel a <= digits_loop fuel b).
  { assert (Hpos : forall fuel a, 0 <= digits_loop fuel a).
    { intros fuel. induction fuel as [|fuel IH]; intros a; simpl; [lia|]. destruct (0 <? a); [specialize (IH (a / 10)); lia|lia]. }
    intros fuel. induction fuel as [|fuel IH]; intros a b Hab; simpl; [lia|].
    destruct (Z.ltb_spec 0 a), (Z.ltb_spec 0 b); try lia.
    - apply Z.add_le_mono_l, IH. apply Z.div_le_mono; lia.
    - specialize (Hpos fuel (b / 10)). lia. }
  intros Hn. rewrite (proj2 (Z.eqb_neq (n + 1) 0)) by lia. destruct (Z.eqb_spec n 0) as [->|]; [done|].
  apply Hmono. lia.
Qed.

Lemma rows_size_app_strict rows rest : rest <> [] -> rows_size rows + 2 <= rows_size (rows ++ rest)%list.
Proof.
  intros Hne. destruct rest as [|r rest]; [done|]. change (r :: rest) with ([r] ++ rest)%list. rewrite app_assoc.
  pose proof (rows_size_app (rows ++ [r])%list rest) as H. rewrite rows_size_snoc in H.
  pose proof (row_json_len r). unfold separator in H. destruct (len rows =? 0); lia.
Qed.

Section AggregatePrefix.
Context (limit : Z) (columns : list ResultColumn) (maxResultBytes base : Z).
Context (hasBuckets : bool) (validateBuckets : raw_row -> error).

Definition aggregate_encoded (raws : list raw_row) : list raw_row :=
  map (fun raw => encode_cells columns (visible columns raw)) raws.

(** The bytes of an envelope with these rows: the base counts an empty array, a
    row count of one digit and [false]. *)
Definition envelope_bytes (raws : list raw_row) (truncated : bool) : Z :=
  base + rows_size (aggregate_encoded raws) + (decimalDigits (len raws) - 1) - (if truncated then 1 else 0).

Definition aggregate_prefix (raws : list raw_row) (truncated : bool) : AggregateResult := {|
  ar_rows := aggregate_encoded raws; ar_bytes := envelope_bytes raws truncated; ar_truncated := truncated;
  ar_provisional := None |}.

Definition row_accepted (raw : raw_row) : Prop :=
  List.length (visible columns raw) = List.length columns /\ (hasBuckets = true -> validateBuckets raw = Ok tt).

Lemma aggregate_encoded_snoc raws raw :
  aggregate_encoded (raws ++ [raw])%list =
  (aggregate_encoded raws ++ [encode_cells columns (visible columns raw)])%list.
Proof. unfold aggregate_encoded. by rewrite map_app. Qed.

Lemma aggregate_encoded_len raws : len (aggregate_encoded raws) = len raws.
Proof. apply len_map. Qed.

Lemma envelope_snoc raws raw truncated :
  envelope_bytes (raws ++ [raw])%list truncated =
  base + rows_size (aggregate_encoded raws) + separator (aggregate_encoded raws) +
  slen (marshal (row_json (encode_cells columns (visible columns raw)))) +
  (decimalDigits (len raws + 1) - 1) - (if truncated then 1 else 0).
Proof.
  unfold envelope_bytes. rewrite aggregate_encoded_snoc, rows_size_snoc, len_app.
  change (len [raw]) with 1. lia.
Qed.

Lemma digits_app (raws more : list raw_row) : decimalDigits (len raws) <= decimalDigits (len (raws ++ more)%list).
Proof.
  induction more as [|m more IH] using rev_ind; [by rewrite app_nil_r|].
  rewrite app_assoc, (len_app (raws ++ more)%list). change (len [m]) with 1.
  pose proof (decimalDigits_step (len (raws ++ more)%list) (len_nonneg _)). lia.
Qed.

Lemma envelope_app raws more flag : envelope_bytes raws true <= envelope_bytes (raws ++ more)%list flag.
Proof.
  unfold envelope_bytes. pose proof (digits_app raws more). destruct more as [|m more].
  - rewrite app_nil_r. destruct flag; lia.
  - assert (Hs := rows_size_app_strict (aggregate_encoded raws) (aggregate_encoded (m :: more)) ltac:(done)).
    unfold aggregate_encoded in *. rewrite map_app. destruct flag; lia.
Qed.

Lemma envelope_app_strict raws more flag : more <> [] ->
  envelope_bytes raws false < envelope_bytes (raws ++ more)%list flag.
Proof.
  intros Hne. unfold envelope_bytes. pose proof (digits_app raws more).
  assert (Hs := rows_size_app_strict (aggregate_encoded raws) (aggregate_encoded more)).
  unfold aggregate_encoded in *. rewrite map_app. destruct more as [|m more]; [done|].
  specialize (Hs ltac:(done)). destruct flag; lia.
Qed.

Lemma envelope_nil : envelope_bytes [] false = base.
Proof.
  unfold envelope_bytes. change (rows_size (aggregate_encoded [])) with 0.
  change (decimalDigits (len (@nil raw_row))) with 1. lia.
Qed.

(** What the loop knows after the rows [done]. *)
Inductive aggregate_inv (done : list raw_row) : AggregateResult -> Prop :=
| inv_all : len done <= limit -> envelope_bytes done false <= maxResultBytes ->
    aggregate_inv done (aggregate_prefix done false)
| inv_provisional kept last : done = (kept ++ [last])%list -> len done <= limit ->
    envelope_bytes kept false <= maxResultBytes -> envelope_bytes done true <= maxResultBytes ->
    maxResultBytes < envelope_bytes done false ->
    aggregate_inv done {| ar_rows := aggregate_encoded done; ar_bytes := envelope_bytes done true;
                          ar_truncated := true; ar_provisional := Some (envelope_bytes kept false) |}
| inv_truncated kept next rest : done = (kept ++ next :: rest)%list -> len kept <= limit ->
    envelope_bytes kept true <= maxResultBytes ->
    limit < len (kept ++ [next])%list \/ maxResultBytes < envelope_bytes (kept ++ [next])%list true ->
    aggregate_inv done (aggregate_prefix kept true).

Context (Hbase : 1 <= base).

Lemma envelope_positive raws : 1 <= envelope_bytes raws false.
Proof.
  unfold envelope_bytes. pose proof (rows_size_nonneg (aggregate_encoded raws)).
  pose proof (digits_app [] raws) as H1. simpl app in H1. change (decimalDigits (len [])) with 1 in H1. lia.
Qed.

Lemma shorten_envelope raws : shorten (envelope_bytes raws false) = envelope_bytes raws true.
Proof.
  unfold shorten. rewrite (proj2 (Z.ltb_lt _ _)) by (pose proof (envelope_positive raws); lia).
  unfold envelope_bytes. lia.
Qed.

Lemma check_buckets_ok raw : row_accepted raw -> check_buckets hasBuckets validateBuckets (Ok raw) = Ok tt.
Proof. intros [_ H]. unfold check_buckets. destruct hasBuckets; simpl; auto. Qed.

Abbreviation step := (aggregate_step true limit columns maxResultBytes hasBuckets validateBuckets).

Lemma aggregate_step_all done raw : row_accepted raw -> len done <= limit -> envelope_bytes done false <= maxResultBytes ->
  exists r', step (aggregate_prefix done false) (Ok raw) = Ok r' /\ aggregate_inv (done ++ [raw])%list r'.
Proof.
  intros Hr Hl Hb. unfold aggregate_step; cbn [aggregate_prefix ar_provisional ar_truncated ar_rows ar_bytes andb].
  rewrite aggregate_encoded_len, (check_buckets_ok raw Hr). destruct (Z.eqb_spec (len done) limit) as [E|E].
  { eexists. split; [reflexivity|]. rewrite shorten_envelope. apply (inv_truncated _ done raw []); try done.
    - pose proof (envelope_app done [] false). rewrite app_nil_r in *. lia.
    - left. rewrite len_app. change (len [raw]) with 1. lia. }
  cbn [rbind]. destruct Hr as [Hw Hbk].
  assert (Hv : (if hasBuckets then validateBuckets raw else nil_error) = Ok tt) by (destruct hasBuckets; auto).
  rewrite Hv. cbn [rbind negb]. set (sep := separator (aggregate_encoded done)).
  set (remaining := maxResultBytes - envelope_bytes done false - sep - (decimalDigits (len done + 1) - decimalDigits (len done))).
  set (size := slen (marshal (row_json (encode_cells columns (visible columns raw))))).
  assert (Hlen : len (done ++ [raw])%list = len done + 1) by (by rewrite len_app).
  assert (Hsnoc : forall flag, envelope_bytes (done ++ [raw])%list flag =
            maxResultBytes - remaining + size - (if flag : bool then 1 else 0)).
  { intros flag. rewrite envelope_snoc. unfold remaining. fold sep size. unfold envelope_bytes. lia. }
  assert (Hsome : forall m, size <= m -> encodedRowSize (visible columns raw) columns m = Some size)
    by (intros m Hm; by apply encodedRowSize_iff).
  assert (Hnone : forall m, m < size -> encodedRowSize (visible columns raw) columns m = None).
  { intros m Hm. destruct (encodedRowSize _ _ m) eqn:En; [|done]. apply encodedRowSize_iff in En. fold size in En. lia. }
  destruct (decide (size <= remaining)) as [Hd|Hd].
  - rewrite Hsome by done. eexists. split; [reflexivity|].
    replace (envelope_bytes done false + (sep + (decimalDigits (len done + 1) - decimalDigits (len done)) + size))
      with (envelope_bytes (done ++ [raw])%list false) by (rewrite Hsnoc; unfold remaining; lia).
    rewrite <- aggregate_encoded_snoc. apply inv_all; [lia|]. rewrite Hsnoc. lia.
  - rewrite (Hnone remaining) by lia. destruct (decide (size <= remaining + 1)) as [Hd'|Hd'].
    + rewrite Hsome by done. eexists. split; [reflexivity|].
      replace (envelope_bytes done false - 1 + (sep + (decimalDigits (len done + 1) - decimalDigits (len done)) + size))
        with (envelope_bytes (done ++ [raw])%list true) by (rewrite Hsnoc; unfold remaining; lia).
      rewrite <- aggregate_encoded_snoc. apply (inv_provisional _ done raw); rewrite ?Hsnoc; try done; lia.
    + rewrite (Hnone (remaining + 1)) by lia. eexists. split; [reflexivity|]. rewrite shorten_envelope.
      apply (inv_truncated _ done raw []); try done.
      * pose proof (envelope_app done [] false). rewrite app_nil_r in *. lia.
      * right. rewrite Hsnoc. lia.
Qed.

Lemma aggregate_step_inv done r raw : row_accepted raw -> aggregate_inv done r ->
  exists r', step r (Ok raw) = Ok r' /\ aggregate_inv (done ++ [raw])%list r'.
Proof.
  intros Hr [Hl Hb|kept last -> Hl Hk Hb Hn|kept next rest -> Hl Hb Hn]; [by apply aggregate_step_all|..];
    unfold aggregate_step; cbn [aggregate_prefix ar_provisional ar_truncated]; rewrite (check_buckets_ok raw Hr);
    eexists; (split; [reflexivity|]).
  - apply (inv_truncated _ (kept ++ [last])%list raw []); try done. right.
    pose proof (envelope_app_strict (kept ++ [last])%list [raw] true ltac:(done)). lia.
  - apply (inv_truncated _ kept next (rest ++ [raw])%list); [by rewrite <- app_assoc|done..].
Qed.

Lemma aggregate_loop_inv raws : forall i done r, aggregate_inv done r -> Forall row_accepted raws ->
  exists r', iter_from (fun _ scan r => step r scan) i (map Ok raws) r = Ok r' /\ aggregate_inv (done ++ raws)%list r'.
Proof.
  induction raws as [|raw raws IH]; intros i done r Hr Hw; [exists r; by rewrite app_nil_r|].
  apply Forall_cons in Hw as [Hw Hws]. destruct (aggregate_step_inv done r raw Hw Hr) as (r1 & E & H1).
  destruct (IH (i + 1) _ _ H1 Hws) as (r2 & E2 & H2). exists r2. cbn [map iter_from]. rewrite E. simpl.
  by rewrite <- app_assoc in H2.
Qed.
End AggregatePrefix.

(** A grouped aggregate returns the largest prefix of the groups that respects
    the limit and the byte budget of the whole envelope, in which the row count
    grows by digits and [true] is a byte shorter than [false]: the byte count is
    exact and within the budget, the result is marked truncated just when a
    group was left out, and every longer prefix, marked as it would have to be,
    breaks the limit or the budget. *)
Theorem grouped_aggregate_largest_prefix limit columns maxResultBytes base hasBuckets validateBuckets raws :
  Forall (row_accepted columns hasBuckets validateBuckets) raws ->
  0 <= limit -> 1 <= base <= maxResultBytes ->
  exists kept rest,
    raws = (kept ++ rest)%list /\
    collect_aggregate true limit columns maxResultBytes hasBuckets validateBuckets
      {| st_rows := map Ok raws; st_err := nil_error |}
      {| ar_rows := []; ar_bytes := base; ar_truncated := false; ar_provisional := None |} =
      Ok (aggregate_prefix columns base kept (negb (len rest =? 0))) /\
    len kept <= limit /\ envelope_bytes columns base kept (negb (len rest =? 0)) <= maxResultBytes /\
    forall more rest', more <> [] -> rest = (more ++ rest')%list ->
      limit < len (kept ++ more)%list \/
      maxResultBytes < envelope_bytes columns base (kept ++ more)%list (negb (len rest' =? 0)).
Proof.
  intros Hw Hl Hb. unfold collect_aggregate, iter. cbn [st_rows st_err].
  assert (H0 : aggregate_inv limit columns maxResultBytes base [] (aggregate_prefix columns base [] false)).
  { apply inv_all; [done|]. rewrite envelope_nil. lia. }
  assert (E0 : {| ar_rows := []; ar_bytes := base; ar_truncated := false; ar_provisional := None |} =
               aggregate_prefix columns base [] false).
  { unfold aggregate_prefix. by rewrite envelope_nil. }
  rewrite E0. destruct (aggregate_loop_inv limit columns maxResultBytes base hasBuckets validateBuckets ltac:(lia)
    raws 0 [] _ H0 Hw) as (r & E & H). rewrite E. cbn [rbind]. simpl in H.
  destruct H as [Hk He|kept last -> Hk Hp He Hn|kept next rest -> Hk He Hn].
  - exists raws, []. rewrite app_nil_r. split_and!; try done. intros more rest' Hne Hr.
    symmetry in Hr. apply app_eq_nil in Hr as [-> _]. done.
  - exists kept, [last]. rewrite len_app in Hk. change (len [last]) with 1 in Hk. split_and!; try done; [|lia|..].
    + unfold aggregate_finish. cbn [ar_provisional ar_rows negb]. unfold aggregate_prefix. do 2 f_equal.
      * rewrite aggregate_encoded_snoc. apply removelast_last.
      * unfold envelope_bytes. simpl. lia.
    + pose proof (envelope_app columns base kept [] false). rewrite app_nil_r in *. simpl. lia.
    + intros more rest' Hne Hr. right. destruct more as [|m [|m' more]]; [done| |done].
      injection Hr as <- <-. simpl. done.
  - exists kept, (next :: rest). split_and!; try done. intros more rest' Hne Hr.
    destruct more as [|m more]; [done|]. injection Hr as <- ->. change (next :: more) with ([next] ++ more)%list.
    rewrite app_assoc. destruct Hn as [Hn|Hn].
    + left. rewrite len_app. pose proof (len_nonneg more). lia.
    + right. pose proof (envelope_app columns base (kept ++ [next])%list more (negb (len rest' =? 0))). lia.
Qed.

Lemma grouped_aggregate_largest_prefix_witness :
  exists kept rest,
    [[Some "x"]; [None]; [Some "yy"]] = (kept ++ rest)%list /\
    collect_aggregate true 5 [text_column] 61 false (fun _ => nil_error)
      {| st_rows := map Ok [[Some "x"]; [None]; [Some "yy"]]; st_err := nil_error |}
      {| ar_rows := []; ar_bytes := 43; ar_truncated := false; ar_provisional := None |} =
      Ok (aggregate_prefix [text_column] 43 kept (negb (len rest =? 0))) /\
    len kept <= 5 /\ envelope_bytes [text_column] 43 kept (negb (len rest =? 0)) <= 61 /\
    forall more rest', more <> [] -> rest = (more ++ rest')%list ->
      5 < len (kept ++ more)%list \/
      61 < envelope_bytes [text_column] 43 (kept ++ more)%list (negb (len rest' =? 0)).
Proof.
  apply (grouped_aggregate_largest_prefix 5 [text_column] 61 43 false (fun _ => nil_error) [[Some "x"]; [None]; [Some "yy"]]);
    [repeat constructor; simpl; congruence|lia|lia].
Defined.

(** A row that fits only beside [true] is kept when a later row exists and
    dropped again when it was the last one. *)
Example aggregate_provisional :
  (collect_aggregate true 5 [text_column] 60 false (fun _ => nil_error)
     {| st_rows := map Ok [[Some "x"]; [Some "yyyy"]]; st_err := nil_error |}
     {| ar_rows := []; ar_bytes := 47; ar_truncated := false; ar_provisional := None |},
   collect_aggregate true 5 [text_column] 60 false (fun _ => nil_error)
     {| st_rows := map Ok [[Some "x"]; [Some "yyyy"]; [None]]; st_err := nil_error |}
     {| ar_rows := []; ar_bytes := 47; ar_truncated := false; ar_provisional := None |})
  = (Ok {| ar_rows := [[Some "x"]]; ar_bytes := 51; ar_truncated := true; ar_provisional := None |},
     Ok {| ar_rows := [[Some "x"]; [Some "yyyy"]]; ar_bytes := 60; ar_truncated := true; ar_provisional := None |}).
Proof. vm_compute. reflexivity. Qed.
