(* ===== verification/IndexMerge.v ===== *)
(** Index-merge expressions of a MySQL plan (internal/adapters/mysql8/plan_indexes.go):
    the stack parser [indexMergeUsesIndex], and the grammar that it accepts. *)
From S2P Require Import Prelude Domain GoJson Number Portable Values QuerySpec Rows.
Local Open Scope string_scope.
Local Open Scope Z_scope.

Definition errMalformedIndexMergePlan : goerr := ErrorString "aggregate plan index merge is malformed".

Definition is_punctuation (c : ascii) : bool := Ascii.eqb c "(" || Ascii.eqb c ")" || Ascii.eqb c ",".
Definition has_punctuation (s : string) : bool := negb (sforall (fun c => negb (is_punctuation c)) s).

(** The names of [possible_keys]: [None] for an element that is not a string. *)
Fixpoint native_indexes (possibleKeys : list (option string)) : result (list string) :=
  match possibleKeys with
  | [] => Ok []
  | None :: _ => Err errMalformedIndexMergePlan
  | Some name :: possibleKeys' =>
      if? negb (nonempty name) || has_punctuation name return errMalformedIndexMergePlan then
      let? names := native_indexes possibleKeys' in Ok (name :: names)
  end.

(** [strconv.ParseUint(text, 10, 64)] *)
Definition parse_uint (text : string) : option Z :=
  if nonempty text && sforall is_digit text && (digits_value text <? 2 ^ 64) then Some (digits_value text) else None.

Definition valid_length (length : string) : bool :=
  nonempty length && negb (match length with String "0" _ => true | _ => false end) &&
  sforall is_digit length && match parse_uint length with Some _ => true | None => false end.

(** The loop over [strings.Cut(rest, ",")]. *)
Definition count_lengths (keyLengths : string) : result Z :=
  let parts := split_byte "," keyLengths in
  if? negb (forallb valid_length parts) return errMalformedIndexMergePlan then Ok (len parts).

(** The parser's variables; the top of [arguments] is its head. *)
Record merge_state := {
  m_arguments : list Z; m_expectIndex : bool; m_rootExpression : bool; m_usesIndex : bool; m_leaves : Z;
}.

Definition merge_operators : list string := ["union"; "intersect"; "sort_union"].

Definition bump (arguments : list Z) : list Z :=
  match arguments with [] => [] | a :: rest => a + 1 :: rest end.

Section Merge.
Context (nativeIndexes : list string) (requiredIndex : string).

(** One turn of the parsing loop on the rest of the key: the new state and what
    is left of the key. *)
Definition merge_step (st : merge_state) (key : string) : result (merge_state * string) :=
  if m_expectIndex st then
    let '(name, rest) := span (fun c => negb (is_punctuation c)) key in
    if? negb (nonempty name) return errMalformedIndexMergePlan then
    match rest with
    | String "(" rest' =>
        if? negb (contains merge_operators name) return errMalformedIndexMergePlan then
        let? root :=
          match m_arguments st with
          | [a] => if? negb (a =? 0) return errMalformedIndexMergePlan then Ok true
          | _ => Ok (m_rootExpression st)
          end in
        Ok ({| m_arguments := 0 :: m_arguments st; m_expectIndex := true; m_rootExpression := root;
               m_usesIndex := m_usesIndex st; m_leaves := m_leaves st |}, rest')
    | _ =>
        if? negb (contains nativeIndexes name) return errMalformedIndexMergePlan then
        Ok ({| m_arguments := bump (m_arguments st); m_expectIndex := false; m_rootExpression := m_rootExpression st;
               m_usesIndex := m_usesIndex st || equal_fold name requiredIndex; m_leaves := m_leaves st + 1 |}, rest)
    end
  else
    match key with
    | String "," rest =>
        if? (len (m_arguments st) =? 1) && m_rootExpression st return errMalformedIndexMergePlan then
        Ok ({| m_arguments := m_arguments st; m_expectIndex := true; m_rootExpression := m_rootExpression st;
               m_usesIndex := m_usesIndex st; m_leaves := m_leaves st |}, rest)
    | String ")" rest =>
        match m_arguments st with
        | a :: ((_ :: _) as below) =>
            if? a <? 2 return errMalformedIndexMergePlan then
            Ok ({| m_arguments := bump below; m_expectIndex := false; m_rootExpression := m_rootExpression st;
                   m_usesIndex := m_usesIndex st; m_leaves := m_leaves st |}, rest)
        | _ => Err errMalformedIndexMergePlan
        end
    | _ => Err errMalformedIndexMergePlan
    end.

(** [for position < len(key)]: every turn consumes at least one character. *)
Fixpoint merge_loop (fuel : nat) (st : merge_state) (key : string) : result merge_state :=
  match fuel with
  | O => Err errMalformedIndexMergePlan
  | S fuel' =>
      match key with
      | EmptyString => Ok st
      | _ => let? (st', key') := merge_step st key in merge_loop fuel' st' key'
      end
  end.
End Merge.

Definition initial_state : merge_state := {|
  m_arguments := [0]; m_expectIndex := true; m_rootExpression := false; m_usesIndex := false; m_leaves := 0 |}.

Definition indexMergeUsesIndex (key keyLengths requiredIndex : string) (possibleKeys : list (option string))
  : result bool :=
  if? len possibleKeys =? 0 return errMalformedIndexMergePlan then
  let? nativeIndexes := native_indexes possibleKeys in
  let? indexCount := count_lengths keyLengths in
  let? st := merge_loop nativeIndexes requiredIndex (S (String.length key)) initial_state key in
  if? m_expectIndex st || negb (len (m_arguments st) =? 1) || negb (m_leaves st =? indexCount)
  return errMalformedIndexMergePlan then
  Ok (m_usesIndex st).

Example index_merges :
  map (fun k => indexMergeUsesIndex k "4,5,4" "B" [Some "a"; Some "b"; Some "c"])
    ["union(a,intersect(b,c))"; "a,b,c"; "union(a,a,c)"; "union(a,b),c"; "intersect(a)"; "sort_union(a,b,c))"]
  = [Ok true; Ok true; Ok false; Err errMalformedIndexMergePlan; Err errMalformedIndexMergePlan;
     Err errMalformedIndexMergePlan].
Proof. vm_compute. reflexivity. Qed.

(** ** The grammar *)

Inductive merge_tree : Type :=
| Leaf (name : string)
| Node (operator : string) (children : list merge_tree).

Fixpoint print_tree (t : merge_tree) : string :=
  match t with
  | Leaf name => name
  | Node operator children => operator +:+ "(" +:+ join "," (map print_tree children) +:+ ")"
  end.

Fixpoint leaves_of (t : merge_tree) : list string :=
  match t with
  | Leaf name => [name]
  | Node _ children => flat_map leaves_of children
  end.

Inductive wf_tree (indexes : list string) : merge_tree -> Prop :=
| wf_leaf name : In name indexes -> wf_tree indexes (Leaf name)
| wf_node operator children :
    In operator merge_operators -> 2 <= len children -> Forall (wf_tree indexes) children ->
    wf_tree indexes (Node operator children).

(** A key is one merge expression or a comma-separated list of indexes. *)
Definition wf_key (indexes : list string) (trees : list merge_tree) : Prop :=
  Forall (wf_tree indexes) trees /\
  ((exists operator children, trees = [Node operator children]) \/
   (trees <> [] /\ Forall (fun t => exists name, t = Leaf name) trees)).

(** What the caller passes: index names and one length for each of [count] indexes. *)
Definition wf_names (possibleKeys : list (option string)) (indexes : list string) : Prop :=
  indexes <> [] /\ possibleKeys = map Some indexes /\
  Forall (fun n => n <> EmptyString /\ has_punctuation n = false) indexes.

Definition wf_length (length : string) : Prop :=
  length <> EmptyString /\ sforall is_digit length = true /\ starts_with (Ascii.eqb "0") length = false /\
  digits_value length < 2 ^ 64.

Definition wf_lengths (keyLengths : string) (count : Z) : Prop :=
  exists lengths, keyLengths = join "," lengths /\ len lengths = count /\ lengths <> [] /\ Forall wf_length lengths.

Section TreeInd.
Context (P : merge_tree -> Prop) (HL : forall n, P (Leaf n)) (HN : forall o cs, Forall P cs -> P (Node o cs)).
Fixpoint merge_tree_ind' (t : merge_tree) : P t :=
  match t with
  | Leaf n => HL n
  | Node o cs => HN o cs ((fix go l := match l return Forall P l with
                           | [] => Forall_nil_2 P
                           | x :: l' => Forall_cons_2 P x l' (merge_tree_ind' x) (go l')
                           end) cs)
  end.
End TreeInd.

(** ** The loop as a step relation *)

Section Grammar.
Context (indexes : list string) (required : string).
Context (Hnames : Forall (fun n => n <> EmptyString /\ has_punctuation n = false) indexes).

Definition turn (s s' : merge_state * string) : Prop :=
  s.2 <> EmptyString /\ merge_step indexes required s.1 s.2 = Ok s'.

Definition is_name (n : string) : Prop := n <> EmptyString /\ has_punctuation n = false.

Lemma merge_step_shorter st key st' key' :
  merge_step indexes required st key = Ok (st', key') -> (String.length key' < String.length key)%nat.
Proof.
  unfold merge_step. destruct (m_expectIndex st).
  - destruct (span _ key) as [name rest] eqn:E. apply span_spec in E as (-> & _ & _).
    destruct name as [|c name]; [done|]. simpl.
    assert (Hl : (String.length rest <= String.length (name +:+ rest))%nat)
      by (clear; induction name; rewrite ?sapp_cons; simpl; [by rewrite sapp_nil_l|lia]).
    intros H. enough (String.length key' <= String.length rest)%nat by lia. clear Hl.
    destruct rest as [|d rest']; [err_inv; intros; subst; simpl; lia|].
    destruct d as [[] [] [] [] [] [] [] []]; err_inv; intros; subst; simpl; lia.
  - destruct key as [|c key]; [done|]. intros H.
    destruct c as [[] [] [] [] [] [] [] []]; err_inv; intros; subst; simpl; try lia.
    destruct (m_arguments st) as [|a [|b l]]; err_inv; intros; subst; lia.
Qed.

Lemma merge_loop_iff fuel st key st' : (String.length key < fuel)%nat ->
  merge_loop indexes required fuel st key = Ok st' <-> rtc turn (st, key) (st', EmptyString).
Proof.
  revert st key. induction fuel as [|fuel IH]; intros st key Hf; [lia|]. simpl. destruct key as [|c key].
  - split; [intros [= ->]; done|]. intros H. inversion H as [|? ? ? [Hn _] _]; [done|by contradict Hn].
  - destruct (merge_step indexes required st (String c key)) as [[st1 key1]|e] eqn:E; simpl.
    + pose proof (merge_step_shorter _ _ _ _ E). rewrite IH by (simpl in *; lia). split; intros H'.
      * by eapply rtc_l; [split; [done|exact E]|].
      * inversion H' as [|? y ? [_ Hy] Hr]; subst. simpl in Hy. rewrite E in Hy. by injection Hy as <-.
    + split; [done|]. intros H'. inversion H' as [|? y ? [_ Hy] Hr]; subst. simpl in Hy. by rewrite E in Hy.
Qed.

(** ** A printed key is accepted *)

Definition ends (rest : string) : Prop :=
  match rest with EmptyString => True | String c _ => c = ","%char \/ c = ")"%char end.

Definition is_node (t : merge_tree) : bool := match t with Leaf _ => false | Node _ _ => true end.
Definition uses (names : list string) : bool := existsb (fun n => equal_fold n required) names.

Definition state (arguments : list Z) (expectIndex root usesIndex : bool) (leaves : Z) : merge_state := {|
  m_arguments := arguments; m_expectIndex := expectIndex; m_rootExpression := root; m_usesIndex := usesIndex;
  m_leaves := leaves |}.

Lemma span_name n rest : is_name n -> starts_with (fun c => negb (is_punctuation c)) rest = false ->
  span (fun c => negb (is_punctuation c)) (n +:+ rest) = (n, rest).
Proof.
  intros [_ Hn] Hr. apply span_spec. split_and!; try done. unfold has_punctuation in Hn. by apply negb_false_iff in Hn.
Qed.

Lemma index_name n : In n indexes -> is_name n.
Proof. intros H. rewrite List.Forall_forall in Hnames. by apply Hnames. Qed.

Lemma nonempty_name n rest : is_name n -> nonempty n = true /\ n +:+ rest <> EmptyString.
Proof. intros [Hn _]. by destruct n. Qed.

Lemma leaf_turn n a args root u l rest : In n indexes -> ends rest ->
  turn (state (a :: args) true root u l, n +:+ rest)
       (state (a + 1 :: args) false root (u || equal_fold n required) (l + 1), rest).
Proof.
  intros Hn Hr. pose proof (index_name n Hn) as Hname. destruct (nonempty_name n rest Hname) as [Hne Hnn].
  split; [done|]. unfold merge_step. cbn [fst snd state m_expectIndex m_arguments m_rootExpression m_usesIndex m_leaves].
  rewrite span_name; [|done|by destruct rest; [|destruct Hr as [-> | ->]]].
  rewrite Hne. cbn [negb]. rewrite (proj2 (contains_In indexes n) Hn). cbn [negb].
  destruct rest as [|c rest]; [done|]. by destruct Hr as [-> | ->].
Qed.

Lemma operator_turn o a args root u l rest : In o merge_operators -> (args = [] -> a = 0) ->
  turn (state (a :: args) true root u l, o +:+ String "(" rest)
       (state (0 :: a :: args) true (match args with [] => true | _ => root end) u l, rest).
Proof.
  intros Ho Ha. assert (Hname : is_name o) by (destruct Ho as [<-|[<-|[<-|[]]]]; done).
  destruct (nonempty_name o (String "(" rest) Hname) as [Hne Hnn]. split; [done|].
  unfold merge_step. cbn [fst snd state m_expectIndex m_arguments m_rootExpression m_usesIndex m_leaves].
  rewrite span_name by done. rewrite Hne. cbn [negb]. rewrite (proj2 (contains_In merge_operators o) Ho). cbn [negb].
  destruct args as [|b args]; [|done]. by rewrite (Ha eq_refl).
Qed.

Lemma comma_turn args root u l rest : (len args =? 1) && root = false ->
  turn (state args false root u l, String "," rest) (state args true root u l, rest).
Proof. intros H. split; [done|]. unfold merge_step. cbn [fst snd state m_expectIndex m_arguments m_rootExpression]. by rewrite H. Qed.

Lemma close_turn a b args root u l rest : 2 <= a ->
  turn (state (a :: b :: args) false root u l, String ")" rest) (state (b + 1 :: args) false root u l, rest).
Proof.
  intros H. split; [done|]. unfold merge_step. cbn [fst snd state m_expectIndex m_arguments].
  by rewrite (proj2 (Z.ltb_ge a 2) H).
Qed.

Definition runs (t : merge_tree) : Prop := forall a args root u l rest, ends rest ->
  (args = [] -> is_node t = true -> a = 0) ->
  rtc turn (state (a :: args) true root u l, print_tree t +:+ rest)
    (state (a + 1 :: args) false (match args with [] => root || is_node t | _ => root end)
       (u || uses (leaves_of t)) (l + len (leaves_of t)), rest).

Lemma uses_app xs ys : uses (xs ++ ys) = uses xs || uses ys.
Proof. apply existsb_app. Qed.

Lemma trees_run ts : ts <> [] -> Forall runs ts -> forall a args root u l rest, ends rest ->
  (args = [] -> root = false /\ Forall (fun t => is_node t = false) ts) ->
  rtc turn (state (a :: args) true root u l, join "," (map print_tree ts) +:+ rest)
    (state (a + len ts :: args) false root (u || uses (flat_map leaves_of ts)) (l + len (flat_map leaves_of ts)), rest).
Proof.
  intros Hne Hts. induction Hts as [|t ts Ht Hts IH]; [done|]. intros a args root u l rest Hr Hargs.
  assert (Hroot : match args with [] => root || is_node t | _ => root end = root).
  { destruct args; [|done]. destruct (Hargs eq_refl) as [-> Hl]. inversion Hl as [|? ? E]. by rewrite E. }
  destruct ts as [|t' ts].
  - cbn [map join flat_map]. specialize (Ht a args root u l rest Hr).
    rewrite Hroot in Ht. rewrite app_nil_r. apply Ht. intros E Hn. destruct (Hargs E) as [_ Hl].
    inversion Hl. congruence.
  - cbn [map]. change (join "," (print_tree t :: ?k :: ?r)) with (print_tree t +:+ "," +:+ join "," (k :: r)).
    rewrite !sapp_assoc, sapp_cons, sapp_nil_l. etransitivity; [apply Ht; [by left|]|].
    { intros E Hn. destruct (Hargs E) as [_ Hl]. inversion Hl. congruence. }
    rewrite Hroot. eapply rtc_l; [apply comma_turn|].
    { destruct args; [|rewrite !len_cons; pose proof (len_nonneg args); apply andb_false_iff; left; lia].
      destruct (Hargs eq_refl) as [-> _]. apply andb_false_r. }
    cbn [flat_map map] in *. rewrite uses_app, len_app, orb_assoc, Z.add_assoc, (len_cons t).
    replace (a + (1 + len (t' :: ts))) with (a + 1 + len (t' :: ts)) by lia.
    apply IH; [done|done|]. intros E. destruct (Hargs E) as [? Hl]. split; [done|]. by inversion Hl.
Qed.

Lemma tree_runs t : wf_tree indexes t -> runs t.
Proof.
  induction t as [n|o cs IH] using merge_tree_ind'; intros Hwf a args root u l rest Hr Ha; inversion Hwf; subst.
  - cbn [print_tree leaves_of is_node]. rewrite orb_false_r. unfold uses. cbn [existsb]. rewrite orb_false_r.
    replace (match args with [] => root | _ => root end) with root by (by destruct args).
    by apply rtc_once, leaf_turn.
  - cbn [print_tree leaves_of is_node]. rewrite !sapp_assoc, sapp_cons, sapp_nil_l.
    eapply rtc_l; [apply operator_turn; [done|auto]|].
    etransitivity; [apply (trees_run cs)|].
    + intros ->. by cbv in H2.
    + apply List.Forall_forall. intros t Ht. rewrite List.Forall_forall in IH, H3. auto.
    + by right.
    + done.
    + rewrite sapp_cons, sapp_nil_l. eapply rtc_l; [apply close_turn; lia|].
      destruct args; [rewrite orb_true_r|]; done.
Qed.

(** ** An accepted key is printed

    A partially read key is a stack of unfinished lists: [below] holds the lists
    around the innermost one [top], each with the operator opened after it. *)

Definition items (ts : list merge_tree) : string := sconcat (map (fun t => print_tree t +:+ ",") ts).

Fixpoint below_text (below : list (list merge_tree * string)) : string :=
  match below with
  | [] => EmptyString
  | (ts, operator) :: below' => below_text below' +:+ items ts +:+ operator +:+ "("
  end.

Fixpoint forest (below : list (list merge_tree * string)) (top : list merge_tree) : list string :=
  match below with
  | [] => flat_map leaves_of top
  | (ts, _) :: below' => (forest below' ts ++ flat_map leaves_of top)%list
  end.

Fixpoint bottom (below : list (list merge_tree * string)) (top : list merge_tree) : list merge_tree :=
  match below with [] => top | (ts, _) :: below' => bottom below' ts end.

Definition root_state (below : list (list merge_tree * string)) (top : list merge_tree) (expect root : bool) : Prop :=
  match below, root with
  | [], false => Forall (fun t => exists n, t = Leaf n) top
  | [], true => expect = false /\ exists operator ts, top = [Node operator ts]
  | _ :: _, false => False
  | _ :: _, true => bottom below top = []
  end.

Definition text_read (below : list (list merge_tree * string)) (top : list merge_tree) (expect : bool) : string :=
  below_text below +:+ if expect then items top else join "," (map print_tree top).

Record reads (st : merge_state) (below : list (list merge_tree * string)) (top : list merge_tree) : Prop := {
  rd_arguments : m_arguments st = len top :: map (fun f => len f.1) below;
  rd_top : m_expectIndex st = false -> top <> [];
  rd_uses : m_usesIndex st = uses (forest below top);
  rd_leaves : m_leaves st = len (forest below top);
  rd_trees : Forall (wf_tree indexes) top;
  rd_below : Forall (fun f => In f.2 merge_operators /\ Forall (wf_tree indexes) f.1) below;
  rd_root : root_state below top (m_expectIndex st) (m_rootExpression st);
}.

Lemma forest_app below ts us : forest below (ts ++ us) = (forest below ts ++ flat_map leaves_of us)%list.
Proof. destruct below as [|[vs o] below]; simpl; rewrite flat_map_app; [done|]. by rewrite app_assoc. Qed.

Lemma sconcat_app a b : sconcat (a ++ b)%list = sconcat a +:+ sconcat b.
Proof. unfold sconcat. induction a as [|x a IH]; [by rewrite sapp_nil_l|]. cbn [app fold_right]. by rewrite IH, sapp_assoc. Qed.

Lemma items_snoc ts t : items (ts ++ [t])%list = items ts +:+ print_tree t +:+ ",".
Proof. unfold items. rewrite map_app, sconcat_app. cbn [map sconcat fold_right]. by rewrite sapp_nil_r. Qed.

Lemma join_items ts t : join "," (map print_tree (ts ++ [t])%list) = items ts +:+ print_tree t.
Proof.
  rewrite map_app. cbn [map]. induction ts as [|u ts IH]; [by rewrite sapp_nil_l|].
  cbn [map app]. destruct (map print_tree ts ++ [print_tree t])%list as [|k r] eqn:E; [by destruct ts|].
  change (join "," (print_tree u :: k :: r)) with (print_tree u +:+ "," +:+ join "," (k :: r)).
  rewrite IH. unfold items. cbn [map sconcat fold_right]. by rewrite !sapp_assoc.
Qed.

Lemma join_comma ts : ts <> [] -> join "," (map print_tree ts) +:+ "," = items ts.
Proof.
  destruct ts as [|u ts] using rev_ind; [done|]. intros _. by rewrite join_items, items_snoc, sapp_assoc.
Qed.

Lemma bump_snoc (below : list (list merge_tree * string)) (top : list merge_tree) t :
  bump (len top :: map (fun f => len f.1) below) = len (top ++ [t])%list :: map (fun f => len f.1) below.
Proof. simpl. rewrite len_app. change (len [t]) with 1. done. Qed.

Definition read_to (whole : string) (s : merge_state * string) : Prop :=
  exists below top, reads s.1 below top /\ whole = text_read below top (m_expectIndex s.1) +:+ s.2.

Lemma read_leaf whole st below top n rest : reads st below top -> m_expectIndex st = true ->
  whole = text_read below top true +:+ n +:+ rest -> In n indexes ->
  read_to whole (state (bump (m_arguments st)) false (m_rootExpression st) (m_usesIndex st || equal_fold n required)
                   (m_leaves st + 1), rest).
Proof.
  intros [Ha _ Hu Hl Ht Hb Hr] He -> Hn. exists below, (top ++ [Leaf n])%list. split; [constructor; cbn [fst state m_arguments
    m_expectIndex m_rootExpression m_usesIndex m_leaves]|].
  - rewrite Ha. apply bump_snoc.
  - by destruct top.
  - rewrite forest_app, uses_app, Hu. unfold uses. simpl. by rewrite orb_false_r.
  - rewrite forest_app, len_app, Hl. done.
  - apply Forall_app. split; [done|]. repeat constructor. done.
  - done.
  - rewrite He in Hr. destruct below as [|[us o] below]; simpl in *.
    + destruct (m_rootExpression st); [by destruct Hr|]. apply Forall_app. split; [done|]. repeat constructor. by exists n.
    + by destruct (m_rootExpression st).
  - cbn [fst snd state m_expectIndex]. unfold text_read. rewrite join_items. by rewrite !sapp_assoc.
Qed.

Lemma read_open whole st below top o rest : reads st below top -> m_expectIndex st = true ->
  whole = text_read below top true +:+ o +:+ "(" +:+ rest -> In o merge_operators ->
  (below = [] -> top = []) ->
  read_to whole (state (0 :: m_arguments st) true true (m_usesIndex st) (m_leaves st), rest).
Proof.
  intros [Ha _ Hu Hl Ht Hb Hr] He -> Ho Hroot. exists ((top, o) :: below), []. split; [constructor; cbn [fst state m_arguments
    m_expectIndex m_rootExpression m_usesIndex m_leaves map]|]; try done.
  - by rewrite Ha.
  - simpl. by rewrite app_nil_r.
  - simpl. by rewrite app_nil_r.
  - by constructor.
  - rewrite He in Hr. destruct below as [|[us o'] below]; simpl in *; [auto|]. by destruct (m_rootExpression st).
  - cbn [fst snd state m_expectIndex]. unfold text_read. cbn [below_text]. by rewrite !sapp_assoc.
Qed.

Lemma read_close whole st a us o below top rest : reads st ((us, o) :: below) top -> m_expectIndex st = false ->
  whole = text_read ((us, o) :: below) top false +:+ ")" +:+ rest -> m_arguments st = a :: len us :: map (fun f => len f.1) below ->
  2 <= a -> read_to whole (state (bump (len us :: map (fun f => len f.1) below)) false (m_rootExpression st) (m_usesIndex st)
                   (m_leaves st), rest).
Proof.
  intros [Ha _ Hu Hl Ht Hb Hr] He -> Ha' Hge. rewrite Ha in Ha'. injection Ha' as Ea. inversion Hb as [|? ? [Ho Hus] Hb']; subst.
  exists below, (us ++ [Node o top])%list. split; [constructor; cbn [fst state m_arguments
    m_expectIndex m_rootExpression m_usesIndex m_leaves]|].
  - apply bump_snoc.
  - by destruct us.
  - rewrite Hu, forest_app. simpl. by rewrite app_nil_r.
  - rewrite Hl, forest_app. simpl. by rewrite app_nil_r.
  - apply Forall_app. split; [done|]. constructor; by constructor.
  - done.
  - simpl in Hr. destruct (m_rootExpression st); [|done]. destruct below as [|[vs o'] below]; simpl in *; [|done].
    subst us. split; [done|]. by exists o, top.
  - cbn [fst snd state m_expectIndex]. unfold text_read. cbn [below_text]. rewrite join_items. cbn [print_tree].
    by rewrite !sapp_assoc.
Qed.

Lemma read_turn whole s s' : turn s s' -> read_to whole s -> read_to whole s'.
Proof.
  destruct s as [st key], s' as [st' key']. intros [_ Hstep] (below & top & Hst & Hw). cbn [fst snd] in *.
  unfold merge_step in Hstep. destruct (m_expectIndex st) eqn:He.
  - destruct (span _ key) as [name rest] eqn:E. apply span_spec in E as (-> & _ & _). cbn [fst snd] in Hw.
    apply if_err_ok in Hstep as [_ Hstep].
    assert (Hopen : forall rest', rest = String "(" rest' -> contains merge_operators name = true ->
      (below = [] -> top = []) -> read_to whole (state (0 :: m_arguments st) true true (m_usesIndex st) (m_leaves st), rest')).
    { intros rest' -> Hc. apply (read_open whole st below top name); try done. by apply contains_In. }
    assert (Hleaf : contains indexes name = true ->
      read_to whole (state (bump (m_arguments st)) false (m_rootExpression st) (m_usesIndex st || equal_fold name required)
                   (m_leaves st + 1), rest)).
    { intros Hc. apply (read_leaf whole st below top); try done. by apply contains_In. }
    destruct rest as [|[[] [] [] [] [] [] [] []] rest];
      try (apply if_err_ok in Hstep as [Hc [= <- <-]]; apply Hleaf; by destruct (contains indexes name)).
    apply if_err_ok in Hstep as [Hc Hstep]. apply rbind_ok in Hstep as (root & Hroot & [= <- <-]).
    pose proof (rd_arguments _ _ _ Hst) as Ha. pose proof (rd_root _ _ _ Hst) as Hr. rewrite He in Hr.
    assert (Hop : contains merge_operators name = true) by (by destruct (contains merge_operators name)).
    replace root with true; [apply Hopen; [done|done|]|]; rewrite Ha in Hroot.
    + intros ->. cbn [map] in Hroot. apply if_err_ok in Hroot as [Hz _]. apply negb_false_iff in Hz. by apply len_zero.
    + destruct below as [|[us o] below]; cbn [map] in Hroot; [by apply if_err_ok in Hroot as [_ [= <-]]|].
      injection Hroot as <-. simpl in Hr. by destruct (m_rootExpression st).
  - destruct key as [|c rest]; [done|]. destruct Hst as [Ha Htop Hu Hl Ht Hb Hr]. specialize (Htop He).
    destruct c as [[] [] [] [] [] [] [] []]; try done.
    + destruct (m_arguments st) as [|a [|b l]] eqn:Em; try done. apply if_err_ok in Hstep as [Hge [= <- <-]].
      destruct below as [|[us o] below]; [done|]. cbn [map fst] in Ha. injection Ha as -> -> ->.
      apply Z.ltb_ge in Hge. eapply (read_close whole st (len top) us o below top); [constructor; try done|done|done..].
    + apply if_err_ok in Hstep as [Hroot [= <- <-]]. exists below, top. split; [constructor; try done|].
      * cbn [m_expectIndex m_rootExpression]. destruct below as [|f below]; [|done]. rewrite Ha in Hroot. simpl in Hroot.
        rewrite He in Hr. simpl in Hr. by destruct (m_rootExpression st).
      * cbn [fst snd m_expectIndex] in *. rewrite Hw. unfold text_read. rewrite <- join_comma by done.
        by rewrite !sapp_assoc.
Qed.

Lemma read_all whole s s' : rtc turn s s' -> read_to whole s -> read_to whole s'.
Proof. induction 1; eauto using read_turn. Qed.
End Grammar.

(** ** The plan's index merge *)

Lemma native_indexes_iff possibleKeys names :
  native_indexes possibleKeys = Ok names <->
  possibleKeys = map Some names /\ Forall (fun n => n <> EmptyString /\ has_punctuation n = false) names.
Proof.
  revert names. induction possibleKeys as [|[k|] ks IH]; intros names; simpl.
  - split; [intros [= <-]; done|]. intros [E _]. by destruct names.
  - rewrite if_err_ok, rbind_ok, orb_false_iff, negb_false_iff. split.
    + intros [[Hk Hp] (ns & Hns & [= <-])]. apply IH in Hns as [-> Hns]. split; [done|]. constructor; [|done]. by destruct k.
    + intros [E Hn]. destruct names as [|n ns]; [done|]. injection E as -> E. inversion Hn as [|? ? [Hk Hp] Hns]; subst.
      split; [by destruct n|]. exists ns. split; [by apply IH|done].
  - split; [done|]. intros [E _]. by destruct names.
Qed.

Lemma valid_length_iff l : valid_length l = true <-> wf_length l.
Proof.
  unfold valid_length, wf_length, parse_uint. rewrite !andb_true_iff, negb_true_iff.
  assert (Hz : (match l with String "0" _ => true | _ => false end) = starts_with (Ascii.eqb "0") l).
  { destruct l as [|[[] [] [] [] [] [] [] []] l]; done. }
  rewrite Hz. destruct (nonempty l) eqn:En, (sforall is_digit l) eqn:Ed; simpl.
  - destruct (digits_value l <? 2 ^ 64) eqn:E; [apply Z.ltb_lt in E|apply Z.ltb_ge in E]; split; try (by intros ?; split_and!; try tauto; by destruct l).
    + intros [_ Hf]. done.
    + intros (_ & _ & _ & Hf). lia.
  - split; [by intros [[[_ _] ?] _]|by intros (_ & ? & _)].
  - split; [by intros [[[? _] _] _]|]. intros (? & _). by destruct l.
  - split; [by intros [[[? _] _] _]|]. intros (? & _). by destruct l.
Qed.

Lemma digits_no_comma l : sforall is_digit l = true -> no_byte "," l.
Proof. apply sforall_impl. intros c Hc. by destruct (Ascii.eqb_spec c ",") as [->|]. Qed.

Lemma count_lengths_iff keyLengths n : count_lengths keyLengths = Ok n <-> wf_lengths keyLengths n.
Proof.
  unfold count_lengths, wf_lengths. rewrite if_err_ok, negb_false_iff, forallb_forall.
  destruct (split_byte_spec "," keyLengths) as [Hj Hnb]. pose proof (split_byte_ne "," keyLengths) as Hne. split.
  - intros [Hv [= <-]]. exists (split_byte "," keyLengths). split_and!; try done.
    apply List.Forall_forall. intros l Hl. by apply valid_length_iff, Hv.
  - intros (ls & E & <- & Hls & Hw).
    assert (Heq : split_byte "," keyLengths = ls).
    { apply (join_no_byte_inj ","); try done.
      - eapply List.Forall_impl; [|exact Hw]. intros l (_ & Hd & _). by apply digits_no_comma.
      - by rewrite <- Hj, E. }
    rewrite Heq. split; [|done]. intros l Hl. rewrite List.Forall_forall in Hw. by apply valid_length_iff, Hw.
Qed.

Definition printed (key : string) (trees : list merge_tree) : Prop := key = join "," (map print_tree trees).

Lemma merge_key_iff indexes required key st : Forall is_name indexes ->
  merge_loop indexes required (S (String.length key)) initial_state key = Ok st /\
    m_expectIndex st = false /\ len (m_arguments st) = 1 <->
  exists trees, wf_key indexes trees /\ printed key trees /\
    st = state [len trees] false (existsb is_node trees) (uses required (flat_map leaves_of trees))
           (len (flat_map leaves_of trees)).
Proof.
  intros Hn. rewrite merge_loop_iff by lia. split.
  - intros (Hrun & He & Hl). apply (read_all _ _ key) in Hrun as (below & top & [Ha Htop Hu Hlv Ht Hb Hr] & Hw).
    + cbn [fst snd] in *. rewrite Ha, len_cons in Hl. destruct below as [|f below];
        [|cbn [map] in Hl; rewrite len_cons in Hl; pose proof (len_nonneg (map (fun f => len f.1) below)); lia].
      rewrite He in *. unfold text_read in Hw. simpl in Hw. rewrite sapp_nil_l, sapp_nil_r in Hw.
      exists top. split; [|split; [done|]].
      * split; [done|]. simpl in Hr. destruct (m_rootExpression st); [left|right]; destruct Hr; [naive_solver|auto|auto].
      * destruct st as [sa se sr su sl]. simpl in *. subst. f_equal. destruct sr.
        { destruct Hr as [_ (o & ts & ->)]. done. }
        clear -Hr. induction Hr as [|t ts [n ->] Hr IH]; [done|]. done.
    + exists [], []. split; [constructor; try done|by rewrite sapp_nil_l]. constructor.
  - intros (trees & [Hf Hw] & -> & ->). split; [|done].
    replace (join "," (map print_tree trees)) with (join "," (map print_tree trees) +:+ EmptyString) by (by rewrite sapp_nil_r).
    assert (Hruns : Forall (runs indexes required) trees).
    { eapply List.Forall_impl; [|exact Hf]. intros t. by apply tree_runs. }
    destruct Hw as [(o & cs & ->)|[Hne Hl]].
    + cbn [map join]. inversion Hruns as [|? ? Hr _]; subst. specialize (Hr 0 [] false false 0 EmptyString I ltac:(done)).
      cbn [orb is_node] in Hr. cbn [flat_map existsb is_node orb]. rewrite app_nil_r. exact Hr.
    + assert (Hnode : Forall (fun t => is_node t = false) trees)
        by (eapply List.Forall_impl; [|exact Hl]; by intros t [n ->]).
      assert (Hex : existsb is_node trees = false) by (clear -Hnode; induction Hnode as [|t ts E _ IH]; [done|simpl; by rewrite E]).
      rewrite Hex. apply (trees_run indexes required trees Hne Hruns 0 [] false false 0 EmptyString I). done.
Qed.

(** C33: An index-merge key of an EXPLAIN plan is read exactly by its grammar:
    the call succeeds exactly when the possible keys are plain names, the key is
    the text of one merge expression (every operator over at least two
    children) or of a list of indexes, all of them possible keys, and the key
    lengths are as many positive 64-bit decimals as the key has leaves; the
    answer is then whether some leaf is the required index, letter case aside. *)
Theorem indexMergeUsesIndex_exact key keyLengths requiredIndex possibleKeys (b : bool) :
  indexMergeUsesIndex key keyLengths requiredIndex possibleKeys = Ok b <->
  exists indexes trees,
    wf_names possibleKeys indexes /\ wf_key indexes trees /\ key = join "," (map print_tree trees) /\
    wf_lengths keyLengths (len (flat_map leaves_of trees)) /\
    b = existsb (fun n => equal_fold n requiredIndex) (flat_map leaves_of trees).
Proof.
  unfold indexMergeUsesIndex, wf_names. rewrite if_err_ok, rbind_ok. split.
  - intros (Hk & names & Hn & H). apply rbind_ok in H as (n & Hl & H). apply rbind_ok in H as (st & Hrun & H).
    apply if_err_ok in H as [Hend [= <-]]. rewrite !orb_false_iff, !negb_false_iff, !Z.eqb_eq in Hend.
    destruct Hend as [[He Ha] Hlv]. apply native_indexes_iff in Hn as [-> Hn]. apply count_lengths_iff in Hl.
    destruct (proj1 (merge_key_iff names requiredIndex key st Hn) (conj Hrun (conj He Ha))) as (trees & Hw & Hp & ->).
    exists names, trees. simpl in Hlv. rewrite Hlv. split_and!; try done. by intros ->.
  - intros (names & trees & (Hne & -> & Hn) & Hw & Hp & Hl & ->). apply count_lengths_iff in Hl.
    split; [by destruct names|]. exists names. split; [by apply native_indexes_iff|]. rewrite Hl. cbn [rbind].
    destruct (proj2 (merge_key_iff names requiredIndex key _ Hn) (ex_intro _ trees (conj Hw (conj Hp eq_refl))))
      as (Hrun & _ & _). rewrite Hrun. cbn [rbind state m_expectIndex m_arguments m_leaves m_usesIndex].
    by rewrite !Z.eqb_refl.
Qed.
