(* ===== verification/Plan.v ===== *)
(** Acceptance of an aggregate's execution plan (internal/adapters/mysql8/aggregate.go,
    [validateAggregatePlan]): what the gateway demands of MySQL's JSON EXPLAIN
    before it runs an aggregate or keyset statement. *)
From S2P Require Import Prelude Domain GoJson Number Portable Values JsonText QuerySpec Rows IndexMerge.
Local Open Scope string_scope.
Local Open Scope Z_scope.

Definition objects := list (string * jvalue).

Definition is_object (v : jvalue) : bool := match v with VObject _ _ => true | _ => false end.

Definition validPlanAccessType (value : string) : bool :=
  contains ["system"; "const"; "eq_ref"; "ref"; "fulltext"; "ref_or_null"; "index_merge"; "unique_subquery";
            "index_subquery"; "range"; "index"; "ALL"] value.

Definition isSafelyEmptyAggregatePlan (document : jvalue) : bool :=
  match document with
  | VObject _ root =>
      if negb (len root =? 1) then false else
      match member root "query_block" with
      | Some (VObject _ queryBlock) =>
          if negb (len queryBlock =? 2) then false else
          match member queryBlock "select_id" with
          | Some (VNumber selectID) =>
              if negb (String.eqb selectID "1") then false else
              match member queryBlock "message" with
              | Some (VString _ message) =>
                  String.eqb message "Impossible WHERE" || String.eqb message "no matching row in const table"
              | _ => false
              end
          | _ => false
          end
      | _ => false
      end
  | _ => false
  end.

Section PlanControls.
Context (allowTemporaryTable allowFilesort : bool).

(** What [visit] finds wrong with one member of an object. *)
Definition invalid_member (key : string) (child : jvalue) : bool :=
  if String.eqb key "materialized_from_subquery" then negb (is_object child) || negb allowTemporaryTable
  else if String.eqb key "sharing_temporary_table_with" then
    match child with
    | VObject _ shared =>
        match member shared "select_id" with
        | Some (VNumber selectID) =>
            match parse_uint selectID with
            | Some id => (id =? 0) || negb allowTemporaryTable
            | None => true
            end
        | _ => true
        end
    | _ => true
    end
  else if String.eqb key "using_temporary_table" then
    match child with VBool enabled => enabled && negb allowTemporaryTable | _ => true end
  else if String.eqb key "using_filesort" then
    match child with VBool enabled => enabled && negb allowFilesort | _ => true end
  else if String.eqb key "table" then negb (is_object child)
  else false.

(** [visit]: the read nodes of the plan and whether a node is invalid. *)
Fixpoint visit (value : jvalue) : list objects * bool :=
  match value with
  | VObject _ members =>
      fold_right
        (fun '(key, child) '(tables, invalidNode) =>
           let '(tables', invalidNode') := visit child in
           let own := if String.eqb key "table" then match child with VObject _ table => [table] | _ => [] end else [] in
           ((own ++ tables' ++ tables)%list, invalid_member key child || invalidNode' || invalidNode))
        ([], false) members
  | VArray _ elements =>
      fold_right
        (fun child '(tables, invalidNode) =>
           let '(tables', invalidNode') := visit child in ((tables' ++ tables)%list, invalidNode' || invalidNode))
        ([], false) elements
  | _ => ([], false)
  end.
End PlanControls.

(** The row estimate of a read node. *)
Definition starts_byte (c : ascii) (s : string) : bool := starts_with (Ascii.eqb c) s.
Definition contains_any (chars s : string) : bool :=
  negb (sforall (fun c => negb (existsb (Ascii.eqb c) (list_ascii_of_string chars))) s).

Definition row_estimate (rowsText : string) (maximumRows : Z) : result Z :=
  if? negb (nonempty rowsText) || starts_byte "-" rowsText || contains_any ".eE+" rowsText ||
      ((1 <? slen rowsText) && starts_byte "0" rowsText)
  return invalid_error then
  match parse_uint rowsText with
  | None => Err invalid_error
  | Some rowsExamined => if? maximumRows <? rowsExamined return invalid_error then Ok rowsExamined
  end.

(** The elements of [possible_keys]: what is not a string stays one. *)
Definition key_names (possibleKeys : list jvalue) : list (option string) :=
  map (fun v => match v with VString _ name => Some name | _ => None end) possibleKeys.

(** The key of a read node: whether it is the required index. *)
Definition plan_key (table : objects) (accessType requiredIndex : string) : result bool :=
  match member table "key" with
  | None => if? String.eqb accessType "index_merge" return invalid_error then Ok false
  | Some (VString _ key) =>
      if? negb (nonempty key) return invalid_error then
      if String.eqb accessType "index_merge" then
        match member table "key_length", member table "possible_keys" with
        | Some (VString _ keyLengths), Some (VArray _ possibleKeys) =>
            match indexMergeUsesIndex key keyLengths requiredIndex (key_names possibleKeys) with
            | Ok usesIndex => Ok usesIndex
            | Err _ => Err invalid_error
            end
        | _, _ => Err invalid_error
        end
      else Ok (equal_fold key requiredIndex)
  | Some _ => Err invalid_error
  end.

(** One turn of the loop over the read nodes: whether the node reads the
    required index from a physical table. *)
Definition plan_table (requiredIndex : string) (maximumRows : Z) (table : objects) : result bool :=
  match member table "table_name", member table "access_type", member table "rows_examined_per_scan" with
  | Some (VString _ name), Some (VString _ accessType), Some (VNumber rowsText) =>
      if? negb (nonempty name) || negb (validPlanAccessType accessType) return invalid_error then
      let? _ := row_estimate rowsText maximumRows in
      let materialized := has_member table "materialized_from_subquery" in
      let sharedMaterialization := has_member table "sharing_temporary_table_with" in
      let? usesIndex := plan_key table accessType requiredIndex in
      Ok (negb materialized && negb sharedMaterialization && negb (String.eqb accessType "ALL") && usesIndex)
  | _, _, _ => Err invalid_error
  end.

Definition validateAggregatePlan (plan requiredIndex : string) (maximumRows : Z)
    (allowTemporaryTable allowFilesort : bool) : error :=
  if? maximumRows =? 0 return invalid_error then
  match decode_any plan with
  | None => Err invalid_error
  | Some document =>
      if? negb (is_object document) return invalid_error then
      let '(tables, invalidNode) := visit allowTemporaryTable allowFilesort document in
      if? invalidNode return invalid_error then
      if (len tables =? 0) && isSafelyEmptyAggregatePlan document then nil_error
      else
        if? len tables =? 0 return invalid_error then
        let? usesRequiredIndex :=
          iter (fun _ table uses => let? b := plan_table requiredIndex maximumRows table in Ok (uses || b)) tables
            (String.eqb requiredIndex EmptyString) in
        if? negb usesRequiredIndex return invalid_error then nil_error
  end.

(** ** What an accepted plan is *)

Inductive node_of : jvalue -> objects -> Prop :=
| node_here raw members : node_of (VObject raw members) members
| node_member raw members key child node :
    In (key, child) members -> node_of child node -> node_of (VObject raw members) node
| node_element raw elements child node :
    In child elements -> node_of child node -> node_of (VArray raw elements) node.

(** What the policy's work controls permit of a member of a plan object. *)
Definition member_permitted (temporary filesort : bool) (key : string) (child : jvalue) : Prop :=
  (key = "materialized_from_subquery" -> temporary = true /\ exists raw o, child = VObject raw o) /\
  (key = "sharing_temporary_table_with" -> temporary = true /\ exists raw o text id,
     child = VObject raw o /\ member o "select_id" = Some (VNumber text) /\ parse_uint text = Some id /\ id <> 0) /\
  (key = "using_temporary_table" -> exists b, child = VBool b /\ (b = true -> temporary = true)) /\
  (key = "using_filesort" -> exists b, child = VBool b /\ (b = true -> filesort = true)) /\
  (key = "table" -> exists raw t, child = VObject raw t).

Definition nodes_permitted (temporary filesort : bool) (document : jvalue) : Prop :=
  forall node key child, node_of document node -> In (key, child) node -> member_permitted temporary filesort key child.

(** The read nodes: the value of every [table] member, at any depth. *)
Definition read_node (document : jvalue) (table : objects) : Prop :=
  exists node raw, node_of document node /\ In ("table", VObject raw table) node.

Definition canonical_decimal (text : string) : Prop :=
  text <> EmptyString /\ sforall is_digit text = true /\ (starts_byte "0" text = true -> text = "0").

Definition key_well_formed (table : objects) (accessType requiredIndex : string) (usesIndex : bool) : Prop :=
  (member table "key" = None /\ accessType <> "index_merge" /\ usesIndex = false) \/
  exists raw key, member table "key" = Some (VString raw key) /\ key <> EmptyString /\
    if String.eqb accessType "index_merge" then
      exists raw1 keyLengths raw2 possibleKeys,
        member table "key_length" = Some (VString raw1 keyLengths) /\
        member table "possible_keys" = Some (VArray raw2 possibleKeys) /\
        indexMergeUsesIndex key keyLengths requiredIndex (key_names possibleKeys) = Ok usesIndex
    else usesIndex = equal_fold key requiredIndex.

(** A read node within the estimate; [reads] says that it reads the required
    index of a physical table. *)
Definition table_within (requiredIndex : string) (maximumRows : Z) (table : objects) (reads : bool) : Prop :=
  exists raw1 name raw2 accessType rowsText rows usesIndex,
    member table "table_name" = Some (VString raw1 name) /\ name <> EmptyString /\
    member table "access_type" = Some (VString raw2 accessType) /\ validPlanAccessType accessType = true /\
    member table "rows_examined_per_scan" = Some (VNumber rowsText) /\ canonical_decimal rowsText /\
    parse_uint rowsText = Some rows /\ rows <= maximumRows /\
    key_well_formed table accessType requiredIndex usesIndex /\
    reads = negb (has_member table "materialized_from_subquery") &&
            negb (has_member table "sharing_temporary_table_with") &&
            negb (String.eqb accessType "ALL") && usesIndex.

Lemma is_object_iff v : is_object v = true <-> exists raw o, v = VObject raw o.
Proof. destruct v; simpl; split; try done; try (by intros (? & ? & ?)); eauto. Qed.

Lemma invalid_member_iff temporary filesort key child :
  invalid_member temporary filesort key child = false <-> member_permitted temporary filesort key child.
Proof.
  unfold invalid_member, member_permitted.
  destruct (String.eqb_spec key "materialized_from_subquery") as [->|H1].
  { rewrite orb_false_iff, !negb_false_iff, is_object_iff. naive_solver. }
  destruct (String.eqb_spec key "sharing_temporary_table_with") as [->|H2].
  { split.
    - destruct child; try done. destruct (member members "select_id") as [[]|] eqn:E; try done.
      destruct (parse_uint text) as [id|] eqn:Ei; [|done]. rewrite orb_false_iff, negb_false_iff, Z.eqb_neq.
      intros [? ->]. split_and!; try done. intros _. split; [done|]. by exists raw, members, text, id.
    - intros (_ & H & _). destruct (H eq_refl) as (-> & raw & o & text & id & -> & -> & -> & Hid). simpl.
      by rewrite orb_false_r, Z.eqb_neq. }
  destruct (String.eqb_spec key "using_temporary_table") as [->|H3].
  { split; [|intros (_ & _ & H & _); destruct (H eq_refl) as (b & -> & Hb); destruct b; [by rewrite Hb|done]].
    destruct child; try done. intros Hb. split_and!; try done. intros _. exists b. split; [done|].
    intros ->. by destruct temporary. }
  destruct (String.eqb_spec key "using_filesort") as [->|H4].
  { split; [|intros (_ & _ & _ & H & _); destruct (H eq_refl) as (b & -> & Hb); destruct b; [by rewrite Hb|done]].
    destruct child; try done. intros Hb. split_and!; try done. intros _. exists b. split; [done|].
    intros ->. by destruct filesort. }
  destruct (String.eqb_spec key "table") as [->|H5].
  { rewrite negb_false_iff, is_object_iff. naive_solver. }
  split; [|done]. intros _. by split_and!.
Qed.

Definition visit_spec (temporary filesort : bool) (value : jvalue) : Prop :=
  forall tables invalidNode, visit temporary filesort value = (tables, invalidNode) ->
  (invalidNode = false <-> nodes_permitted temporary filesort value) /\
  (forall t, In t tables <-> read_node value t).

Lemma visit_members temporary filesort raw members :
  Forall (fun kv => visit_spec temporary filesort kv.2) members ->
  visit_spec temporary filesort (VObject raw members).
Proof.
  intros Hall tables invalidNode Hv.
  enough (H : (invalidNode = false <->
             Forall (fun kv => member_permitted temporary filesort kv.1 kv.2 /\ nodes_permitted temporary filesort kv.2) members) /\
          (forall t, In t tables <-> Exists (fun kv => (exists raw, kv = ("table", VObject raw t)) \/ read_node kv.2 t) members)).
  { destruct H as [H1 H2]. split.
    - rewrite H1, List.Forall_forall. split.
      + intros H node key child Hn Hin. inversion Hn as [|? ? k c ? Hkc Hc|]; subst.
        * by apply (H (key, child)).
        * destruct (H _ Hkc) as [_ Hp]. by apply (Hp node).
      + intros H [k c] Hin. split; [apply (H members); [constructor|done]|].
        intros node key child Hn. apply H. by eapply node_member.
    - intros t. rewrite H2, List.Exists_exists. split.
      + intros ([k c] & Hin & [[raw' [= -> ->]]|(node & raw' & Hn & Ht)]).
        * exists members, raw'. split; [constructor|done].
        * exists node, raw'. split; [by eapply node_member|done].
      + intros (node & raw' & Hn & Ht). inversion Hn as [|? ? k c ? Hkc Hc|]; subst.
        * exists ("table", VObject raw' t). split; [done|]. left. by exists raw'.
        * exists (k, c). split; [done|]. right. by exists node, raw'. }
  revert tables invalidNode Hv. induction Hall as [|[k c] l Hc Hl IH]; intros tables bad Hv.
  - injection Hv as <- <-. split; [by split|]. intros t. rewrite Exists_nil. done.
  - cbn [visit fold_right] in Hv. destruct (visit temporary filesort (VObject raw l)) as [ts b] eqn:El.
    change (fold_right _ ([], false) l) with (visit temporary filesort (VObject raw l)) in Hv. rewrite El in Hv.
    destruct (visit temporary filesort c) as [ts' b'] eqn:Ec. injection Hv as <- <-.
    destruct (IH ts b eq_refl) as [IH1 IH2]. destruct (Hc ts' b' Ec) as [Hc1 Hc2]. cbn [snd] in *. split.
    + rewrite !orb_false_iff, Forall_cons, invalid_member_iff, Hc1, IH1. cbn [fst snd]. tauto.
    + intros t. rewrite !in_app_iff, Hc2, IH2, Exists_cons. cbn [fst snd].
      enough (Hown : In t (if String.eqb k "table" then match c with VObject _ table => [table] | _ => [] end else [])
                     <-> exists raw, (k, c) = ("table", VObject raw t)) by (rewrite Hown; tauto).
      destruct (String.eqb_spec k "table") as [->|]; [|split; [done|by intros [? [= ]]]].
      destruct c; simpl; split; try done; try (by intros [? [=]]).
      * intros [->|[]]. eauto.
      * intros [? [= -> ->]]. by left.
Qed.

Lemma visit_elements temporary filesort raw elements :
  Forall (visit_spec temporary filesort) elements -> visit_spec temporary filesort (VArray raw elements).
Proof.
  intros Hall tables invalidNode Hv.
  enough (H : (invalidNode = false <-> Forall (nodes_permitted temporary filesort) elements) /\
              (forall t, In t tables <-> Exists (fun v => read_node v t) elements)).
  { destruct H as [H1 H2]. split.
    - rewrite H1, List.Forall_forall. split.
      + intros H node key child Hn. inversion Hn as [| |? ? c ? Hin Hc]; subst. by apply (H c).
      + intros H v Hin node key child Hn. apply H. by eapply node_element.
    - intros t. rewrite H2, List.Exists_exists. split.
      + intros (v & Hin & node & raw' & Hn & Ht). exists node, raw'. split; [by eapply node_element|done].
      + intros (node & raw' & Hn & Ht). inversion Hn as [| |? ? c ? Hin Hc]; subst. exists c. split; [done|]. by exists node, raw'. }
  revert tables invalidNode Hv. induction Hall as [|c l Hc Hl IH]; intros tables bad Hv.
  - injection Hv as <- <-. split; [by split|]. intros t. rewrite Exists_nil. done.
  - cbn [visit fold_right] in Hv. destruct (visit temporary filesort (VArray raw l)) as [ts b] eqn:El.
    change (fold_right _ ([], false) l) with (visit temporary filesort (VArray raw l)) in Hv. rewrite El in Hv.
    destruct (visit temporary filesort c) as [ts' b'] eqn:Ec. injection Hv as <- <-.
    destruct (IH ts b eq_refl) as [IH1 IH2]. destruct (Hc ts' b' Ec) as [Hc1 Hc2]. split.
    + rewrite !orb_false_iff, Forall_cons, Hc1, IH1. done.
    + intros t. rewrite !in_app_iff, Hc2, IH2, Exists_cons. done.
Qed.

Lemma visit_exact temporary filesort value : visit_spec temporary filesort value.
Proof.
  induction value as [|b|t|raw s|raw l IH|raw l IH] using jvalue_ind'; try (
    intros tables bad [= <- <-]; split; [split; [|done]; intros _ node key child Hn; inversion Hn|];
    intros t'; split; [done|]; intros (node & r & Hn & _); inversion Hn).
  - by apply visit_elements.
  - by apply visit_members.
Qed.

Lemma parse_uint_digits text n : parse_uint text = Some n ->
  text <> EmptyString /\ sforall is_digit text = true.
Proof.
  unfold parse_uint. destruct (nonempty text && sforall is_digit text) eqn:E; [|done].
  apply andb_true_iff in E as [? ?]. by destruct text.
Qed.

Lemma digits_contain_none text : sforall is_digit text = true -> contains_any ".eE+" text = false.
Proof.
  intros H. unfold contains_any. apply negb_false_iff. eapply sforall_impl; [|exact H]. intros c Hc.
  apply negb_true_iff. cbn [list_ascii_of_string existsb]. rewrite !orb_false_iff, !Ascii.eqb_neq.
  split_and!; try done; intros ->; done.
Qed.

Lemma row_estimate_iff text maximum n :
  row_estimate text maximum = Ok n <-> canonical_decimal text /\ parse_uint text = Some n /\ n <= maximum.
Proof.
  unfold row_estimate, canonical_decimal. rewrite if_err_ok, !orb_false_iff, negb_false_iff. split.
  - intros [[[[Hne _] _] Hz] H]. destruct (parse_uint text) as [m|] eqn:E; [|done].
    apply if_err_ok in H as [Hm [= ->]]. destruct (parse_uint_digits _ _ E) as [Ht Hd]. split_and!; try done; [|lia].
    intros H0. rewrite H0, andb_true_r in Hz. destruct text as [|c text]; [done|].
    rewrite slen_cons in Hz. pose proof (slen_nonneg text). destruct text; [|rewrite slen_cons in *; pose proof (slen_nonneg text); lia].
    cbn [starts_byte starts_with] in H0. apply Ascii.eqb_eq in H0 as <-. done.
  - intros ((Hne & Hd & Hz) & -> & Hm). split; [|by rewrite (proj2 (Z.ltb_ge maximum n) Hm)].
    split; [split; [split|]|].
    + by destruct text.
    + destruct text as [|c text]; [done|]. cbn [sforall] in Hd. apply andb_true_iff in Hd as [Hc _].
      cbn [starts_byte starts_with]. apply Ascii.eqb_neq. by intros <-.
    + by apply digits_contain_none.
    + destruct (starts_byte "0" text) eqn:E; [|by rewrite andb_false_r]. by rewrite (Hz eq_refl).
Qed.

Lemma plan_key_iff table accessType required b :
  plan_key table accessType required = Ok b <-> key_well_formed table accessType required b.
Proof.
  unfold plan_key, key_well_formed. destruct (member table "key") as [v|].
  - transitivity (exists raw key, v = VString raw key /\ key <> EmptyString /\
      if String.eqb accessType "index_merge" then
      exists raw1 keyLengths raw2 possibleKeys,
        member table "key_length" = Some (VString raw1 keyLengths) /\
        member table "possible_keys" = Some (VArray raw2 possibleKeys) /\
        indexMergeUsesIndex key keyLengths required (key_names possibleKeys) = Ok b
      else b = equal_fold key required); [|naive_solver].
    destruct v; try (split; [done|by intros (? & ? & ? & ?)]).
    rewrite if_err_ok, negb_false_iff. destruct (String.eqb accessType "index_merge").
    + split.
      * intros [Hne H]. exists raw, value. split; [done|]. split; [by destruct value|].
        destruct (member table "key_length") as [[]|]; try done.
        destruct (member table "possible_keys") as [[]|]; try done.
        destruct (indexMergeUsesIndex _ _ _ _) as [u|] eqn:E; [|done]. injection H as ->. by do 4 eexists.
      * intros (? & ? & [= <- <-] & Hne & raw1 & kl & raw2 & pk & -> & -> & ->). split; [by destruct value|done].
    + split.
      * intros [Hne [= <-]]. exists raw, value. split_and!; try done. by destruct value.
      * intros (? & ? & [= <- <-] & Hne & ->). split; [by destruct value|done].
  - rewrite if_err_ok, String.eqb_neq. split; [intros [? [= <-]]; by left|]. intros [(_ & ? & ->)|(? & ? & [=] & _)]. done.
Qed.

Lemma plan_table_iff required maximum table b :
  plan_table required maximum table = Ok b <-> table_within required maximum table b.
Proof.
  unfold plan_table, table_within. split.
  - destruct (member table "table_name") as [[]|]; try done. destruct (member table "access_type") as [[]|]; try done.
    destruct (member table "rows_examined_per_scan") as [[]|]; try done.
    rewrite if_err_ok, orb_false_iff, !negb_false_iff. intros [[Hne Ha] H].
    apply rbind_ok in H as (n & Hn & H). apply row_estimate_iff in Hn as (Hc & Hp & Hm).
    apply rbind_ok in H as (u & Hk & [= <-]). apply plan_key_iff in Hk.
    exists raw, value, raw0, value0, text, n, u. split_and!; try done. by destruct value.
  - intros (raw1 & name & raw2 & access & text & n & u & -> & Hne & -> & Ha & -> & Hc & Hp & Hm & Hk & ->).
    rewrite Ha. apply plan_key_iff in Hk.
    assert (E : row_estimate text maximum = Ok n) by (by apply row_estimate_iff).
    rewrite E, Hk. by destruct name.
Qed.

Lemma plan_tables_iff required maximum tables start b :
  iter (fun _ table uses => let? b := plan_table required maximum table in Ok (uses || b)) tables start = Ok b <->
  exists reads, Forall2 (table_within required maximum) tables reads /\ b = start || existsb id reads.
Proof.
  unfold iter. generalize 0. revert start. induction tables as [|t ts IH]; intros start i; cbn [iter_from].
  - split; [intros [= <-]; exists []; split; [constructor|by rewrite orb_false_r]|].
    intros (reads & H & ->). inversion H; subst. by rewrite orb_false_r.
  - rewrite rbind_ok. split.
    + intros (s & H & Hr). apply rbind_ok in H as (b' & Hb & [= <-]). apply plan_table_iff in Hb.
      apply IH in Hr as (reads & Hf & ->). exists (b' :: reads). split; [by constructor|]. simpl. by rewrite orb_assoc.
    + intros (reads & H & ->). inversion H as [|? b' ? reads' Hb Hf]; subst.
      exists (start || b'). apply plan_table_iff in Hb. rewrite Hb. split; [done|]. apply IH. exists reads'.
      split; [done|]. simpl. by rewrite orb_assoc.
Qed.

Lemma tables_within_iff required maximum tables (uses : bool) :
  (exists reads, Forall2 (table_within required maximum) tables reads /\ uses || existsb id reads = true) <->
  (forall t, In t tables -> exists b, table_within required maximum t b) /\
  (uses = true \/ exists t, In t tables /\ table_within required maximum t true).
Proof.
  split.
  - intros (reads & Hf & Hu). split.
    + clear Hu. intros t Ht. induction Hf as [|x b l bs Hx Hf IH]; [done|]. destruct Ht as [<-|Ht]; [by exists b|auto].
    + apply orb_true_iff in Hu as [Hu|Hu]; [by left|right].
      induction Hf as [|x b l bs Hx Hf IH]; [done|]. simpl in Hu. apply orb_true_iff in Hu as [Hb|Hu].
      * unfold id in Hb. subst b. exists x. split; [by left|done].
      * destruct (IH Hu) as (t & Hin & Ht). exists t. split; [by right|done].
  - intros [Hall Hu]. exists (map (fun t => match plan_table required maximum t with Ok b => b | Err _ => false end) tables).
    split.
    + clear Hu. induction tables as [|t ts IH]; [constructor|]. simpl. constructor; [|by apply IH; intros; apply Hall; right].
      destruct (Hall t) as [b Hb]; [by left|]. apply plan_table_iff in Hb. rewrite Hb. by apply plan_table_iff.
    + destruct Hu as [->|(t & Hin & Ht)]; [done|]. apply orb_true_iff. right. apply existsb_exists. exists true.
      split; [|done]. apply in_map_iff. exists t. apply plan_table_iff in Ht. by rewrite Ht.
Qed.

(** C32: An EXPLAIN plan is accepted exactly when it is a JSON object in which
    every member that announces a temporary table, a file sort or a read node
    has the right form and is permitted by the policy's work controls, and
    either nothing is read and the plan is one of the two that MySQL reports for
    a provably empty result, or every read node, at any depth, has a known
    access type, a canonical row estimate within the authorized maximum and a
    well-formed key, and when an index is required some physical table is read
    through it. *)
Theorem validateAggregatePlan_exact plan requiredIndex maximumRows temporary filesort :
  validateAggregatePlan plan requiredIndex maximumRows temporary filesort = Ok tt <->
  maximumRows <> 0 /\
  exists raw root,
    decode_any plan = Some (VObject raw root) /\
    nodes_permitted temporary filesort (VObject raw root) /\
    ((~ (exists t, read_node (VObject raw root) t) /\ isSafelyEmptyAggregatePlan (VObject raw root) = true) \/
     ((exists t, read_node (VObject raw root) t) /\
      (forall t, read_node (VObject raw root) t -> exists reads, table_within requiredIndex maximumRows t reads) /\
      (requiredIndex = EmptyString \/
       exists t, read_node (VObject raw root) t /\ table_within requiredIndex maximumRows t true))).
Proof.
  unfold validateAggregatePlan. rewrite if_err_ok, Z.eqb_neq.
  destruct (decode_any plan) as [document|]; [|split; [by intros [_ ?]|by intros (_ & ? & ? & ? & _)]].
  rewrite if_err_ok, negb_false_iff, is_object_iff.
  destruct (visit temporary filesort document) as [tables bad] eqn:Ev.
  destruct (visit_exact _ _ _ _ _ Ev) as [Hbad Htab]. rewrite if_err_ok, Hbad.
  assert (Hsome : tables <> [] <-> exists t, read_node document t).
  { split.
    - destruct tables as [|t ts]; [done|]. intros _. exists t. apply Htab. by left.
    - intros [t Ht]. apply Htab in Ht. by intros ->. }
  transitivity (maximumRows <> 0 /\ (exists raw o, document = VObject raw o) /\ nodes_permitted temporary filesort document /\
    ((~ (exists t, read_node document t) /\ isSafelyEmptyAggregatePlan document = true) \/
     ((exists t, read_node document t) /\
      (forall t, read_node document t -> exists reads, table_within requiredIndex maximumRows t reads) /\
      (requiredIndex = EmptyString \/
       exists t, read_node document t /\ table_within requiredIndex maximumRows t true)))); [|naive_solver].
  do 3 (apply and_iff_compat_l). rewrite <- Hsome.
  setoid_rewrite <- Htab. destruct (len tables =? 0) eqn:El.
  - apply len_zero in El as ->. destruct (isSafelyEmptyAggregatePlan document); cbn [andb].
    + split; [intros _; left; by split; [intros ?|]|done].
    + split; [done|]. intros [[_ [=]]|[[] _]]. done.
  - assert (Hne : tables <> []) by (by intros ->). cbn [andb].
    pose proof (tables_within_iff requiredIndex maximumRows tables (String.eqb requiredIndex EmptyString)) as Ht.
    rewrite String.eqb_eq in Ht. rewrite rbind_ok. split.
    + intros (b & Hi & H). apply plan_tables_iff in Hi as (reads & Hf & ->). apply if_err_ok in H as [H _].
      apply negb_false_iff in H. right. split; [done|]. apply Ht. by exists reads.
    + intros [[[] _]|[_ H]]; [done|]. apply Ht in H as (reads & Hf & Hu). exists true. split; [|done].
      apply plan_tables_iff. by exists reads.
Qed.
