(* ===== verification/Aggregate.v ===== *)
(** Aggregate specifications (internal/queryspec/aggregate.go): the data of an
    aggregate request, [ValidateAggregate] and [RevalidateAggregate], and what an
    accepted aggregate satisfies. *)
From S2P Require Import Prelude Domain GoJson Number Portable Values QuerySpec.
Local Open Scope string_scope.
Local Open Scope Z_scope.

Definition AggregateModeScalar : string := "scalar".
Definition AggregateModeGrouped : string := "grouped".

Record AggregateOutput := {
  ao_representation : string; ao_kind : string; ao_field : string; ao_function : string;
  ao_alias : string; ao_unit : string; ao_timezone : string;
}.

Record AggregateSort := {
  as_representation : string; as_kind : string; as_field : string; as_alias : string; as_direction : string;
}.

(** [OrderBy] is [None] when the slice is [nil]: scalar mode tells a missing
    list from an empty one. *)
Record AggregateSpec := {
  g_mode : string; g_source : ResourceRef; g_projection : list AggregateOutput; g_filter : option Filter;
  g_order_by : option (list AggregateSort); g_limit : option Z;
}.

Record NormalizedAggregateSpec := {
  a_mode : string; a_source : ResourceRef; a_projection : list AggregateOutput; a_filter : option Filter;
  a_order_by : list AggregateSort; a_limit : Z;
}.

Record ValidatedAggregate := { va_spec : NormalizedAggregateSpec; va_stats : Stats; va_valid : bool }.

#[export] Instance AggregateOutput_eq_dec : EqDecision AggregateOutput.
Proof. solve_decision. Defined.
#[export] Instance AggregateSort_eq_dec : EqDecision AggregateSort.
Proof. solve_decision. Defined.

(** ** Outputs *)

Definition validateAggregateOutput (path mode : string) (output : AggregateOutput) : error :=
  check? validateRepresentation path (ao_representation output) then
  if? negb (String.eqb (ao_kind output) "dimension") && nonempty (ao_representation output)
  return validationError path "representation requires a dimension" then
  if String.eqb (ao_kind output) "dimension" then
    if? negb (String.eqb mode AggregateModeGrouped)
    return validationError (path +:+ ".kind") "dimension is supported only in grouped mode" then
    if? nonempty (ao_function output) || nonempty (ao_alias output) || nonempty (ao_unit output) ||
        nonempty (ao_timezone output)
    return validationError path "dimension accepts only kind and field" then
    validateIdentifier (path +:+ ".field") (ao_field output)
  else if String.eqb (ao_kind output) "numeric_bucket" then
    if? negb (String.eqb mode AggregateModeGrouped) || nonempty (ao_function output) ||
        nonempty (ao_unit output) || nonempty (ao_timezone output)
    return validationError path "numeric_bucket requires grouped mode, field, and alias only" then
    check? validateIdentifier (path +:+ ".field") (ao_field output) then
    validateIdentifier (path +:+ ".alias") (ao_alias output)
  else if String.eqb (ao_kind output) "time_bucket" then
    if? negb (String.eqb mode AggregateModeGrouped)
    return validationError (path +:+ ".kind") "time_bucket is supported only in grouped mode" then
    if? nonempty (ao_function output)
    return validationError (path +:+ ".function") "is not valid for time_bucket" then
    check? validateIdentifier (path +:+ ".field") (ao_field output) then
    check? validateIdentifier (path +:+ ".alias") (ao_alias output) then
    if? negb (contains ["hour"; "day"; "week"; "month"] (ao_unit output))
    return validationError (path +:+ ".unit") "must be hour, day, week, or month" then
    if? negb (String.eqb (ao_timezone output) "UTC")
    return validationError (path +:+ ".timezone") "must be UTC" then
    nil_error
  else if String.eqb (ao_kind output) "measure" then
    if? nonempty (ao_unit output) || nonempty (ao_timezone output)
    return validationError path "measure does not accept unit or timezone" then
    check? validateIdentifier (path +:+ ".alias") (ao_alias output) then
    if String.eqb (ao_function output) "count_all" then
      if? nonempty (ao_field output)
      return validationError (path +:+ ".field") "count_all must not contain field" then nil_error
    else if contains ["count"; "count_distinct"; "min"; "max"; "sum"; "avg"] (ao_function output) then
      validateIdentifier (path +:+ ".field") (ao_field output)
    else Err (validationError (path +:+ ".function") "contains an unsupported aggregate")
  else Err (validationError (path +:+ ".kind") "must be dimension, time_bucket, numeric_bucket, or measure").

Definition is_grouping (output : AggregateOutput) : bool :=
  String.eqb (ao_kind output) "dimension" || String.eqb (ao_kind output) "time_bucket" ||
  String.eqb (ao_kind output) "numeric_bucket".

Definition is_kind (kind : string) (output : AggregateOutput) : bool := String.eqb (ao_kind output) kind.

(** The name under which an output is returned. *)
Definition output_name (output : AggregateOutput) : string :=
  to_lower
    (if is_kind "measure" output || is_kind "time_bucket" output || is_kind "numeric_bucket" output
     then ao_alias output else ao_field output).

(** The counters and the two sets of the loop over the projection. *)
Record projection_state := {
  ps_dimensions : Z; ps_measures : Z; ps_outputNames : list string; ps_timeBucketFields : list string }.

Definition projection_step (checkOutputSemantics : bool) (mode : string) (index : Z) (output : AggregateOutput)
    (st : projection_state) : result projection_state :=
  check? validateAggregateOutput (indexed "query.projection" index) mode output then
  let dimensions := if is_grouping output then ps_dimensions st + 1 else ps_dimensions st in
  let measures := if is_grouping output then ps_measures st else ps_measures st + 1 in
  let? timeBucketFields :=
    if checkOutputSemantics && is_kind "time_bucket" output then
      if? contains (ps_timeBucketFields st) (ao_field output)
      return validationError "query.projection" "contains repeated time-bucket source fields" then
      Ok (ao_field output :: ps_timeBucketFields st)
    else Ok (ps_timeBucketFields st) in
  let? outputNames :=
    if checkOutputSemantics then
      if? contains (ps_outputNames st) (output_name output)
      return validationError "query.projection" "contains colliding output names" then
      Ok (output_name output :: ps_outputNames st)
    else Ok (ps_outputNames st) in
  Ok {| ps_dimensions := dimensions; ps_measures := measures; ps_outputNames := outputNames;
        ps_timeBucketFields := timeBucketFields |}.

(** ** Order terms *)

(** Some dimension may match the order's field, and none of them has its
    representation. *)
Definition mismatched_representation (projection : list AggregateOutput) (order : AggregateSort) : bool :=
  let potential := List.filter (fun output => is_kind "dimension" output && equal_fold (ao_field output) (as_field order)) projection in
  negb (len potential =? 0) &&
  negb (existsb (fun output => String.eqb (ao_representation output) (as_representation order)) potential).

Definition order_step (checkOutputSemantics : bool) (projection : list AggregateOutput) (index : Z)
    (order : AggregateSort) (seenNumericOrder : list string) : result (list string) :=
  let path := indexed "query.order_by" index in
  check? validateRepresentation path (as_representation order) then
  if? negb (String.eqb (as_kind order) "dimension") && nonempty (as_representation order)
  return validationError path "representation requires dimension order" then
  if? negb (String.eqb (as_direction order) "asc") && negb (String.eqb (as_direction order) "desc")
  return validationError (path +:+ ".direction") "must be asc or desc" then
  if String.eqb (as_kind order) "dimension" then
    if? nonempty (as_alias order) return validationError (path +:+ ".alias") "is not valid for dimension order" then
    check? validateIdentifier (path +:+ ".field") (as_field order) then
    if? checkOutputSemantics && mismatched_representation projection order
    return validationError (path +:+ ".representation") "must match the projected dimension" then
    Ok seenNumericOrder
  else if String.eqb (as_kind order) "measure" then
    if? nonempty (as_field order) return validationError (path +:+ ".field") "is not valid for measure order" then
    check? validateIdentifier (path +:+ ".alias") (as_alias order) then
    Ok seenNumericOrder
  else if String.eqb (as_kind order) "time_bucket" || String.eqb (as_kind order) "numeric_bucket" then
    if? nonempty (as_field order) return validationError (path +:+ ".field") "is not valid for bucket order" then
    check? validateIdentifier (path +:+ ".alias") (as_alias order) then
    if checkOutputSemantics && String.eqb (as_kind order) "numeric_bucket" then
      if? negb (existsb (fun output => is_kind "numeric_bucket" output && equal_fold (ao_alias output) (as_alias order)) projection)
      return validationError (path +:+ ".alias") "must reference one projected numeric bucket" then
      let alias := to_lower (as_alias order) in
      if? contains seenNumericOrder alias
      return validationError "query.order_by" "contains repeated numeric bucket targets" then
      Ok (alias :: seenNumericOrder)
    else Ok seenNumericOrder
  else Err (validationError (path +:+ ".kind") "must be dimension, time_bucket, numeric_bucket, or measure").

(** ** ValidateAggregate *)

Record aggregate_limits := {
  al_projection : Z; al_group_by : Z; al_order_by : Z; al_predicates : Z; al_depth : Z; al_parameters : Z; al_rows : Z;
}.

Definition aggregate_row_limit (mode : string) (limit : option Z) (maxRows : Z) : result Z :=
  if String.eqb mode AggregateModeScalar then
    match limit with
    | Some _ => Err (validationError "query.limit" "is not supported in scalar mode")
    | None => Ok 0
    end
  else
    match limit with
    | None => Err (validationError "query.limit" "is required in grouped mode")
    | Some limit =>
        if? (limit <? 1) || (ProtocolMaxRows <? limit)
        return validationError "query.limit" "must be between 1 and 1000000" then
        if? maxRows <? limit return validationError "query.limit" "exceeds the effective row limit" then
        Ok limit
    end.

Definition no_stats : projection_state :=
  {| ps_dimensions := 0; ps_measures := 0; ps_outputNames := []; ps_timeBucketFields := [] |}.

Definition order_list (spec : AggregateSpec) : list AggregateSort := default [] (g_order_by spec).

Definition validateAggregate (spec : AggregateSpec) (l : aggregate_limits) (checkOutputSemantics : bool)
  : result ValidatedAggregate :=
  check? validateIdentifier "query.source.schema" (r_schema (g_source spec)) then
  check? validateIdentifier "query.source.name" (r_name (g_source spec)) then
  if? negb (String.eqb (g_mode spec) AggregateModeScalar) && negb (String.eqb (g_mode spec) AggregateModeGrouped)
  return validationError "query.mode" "must be scalar or grouped" then
  if? len (g_projection spec) =? 0
  return validationError "query.projection" "must contain at least one output" then
  if? ProtocolMaxProjectionFields <? len (g_projection spec)
  return validationError "query.projection" "exceeds the protocol projection limit" then
  if? al_projection l <? len (g_projection spec)
  return validationError "query.projection" "exceeds the effective projection limit" then
  let? st := iter (projection_step checkOutputSemantics (g_mode spec)) (g_projection spec) no_stats in
  if? String.eqb (g_mode spec) AggregateModeScalar && negb (ps_dimensions st =? 0)
  return validationError "query.projection" "scalar mode accepts only measures" then
  if? String.eqb (g_mode spec) AggregateModeGrouped && ((ps_dimensions st =? 0) || (ps_measures st =? 0))
  return validationError "query.projection" "grouped mode requires at least one dimension and one measure" then
  if? al_group_by l <? ps_dimensions st
  return validationError "query.projection" "exceeds the effective group-by limit" then
  let stats := {| Predicates := 0; ExpressionDepth := 0;
                  Parameters := if String.eqb (g_mode spec) AggregateModeGrouped then 1 else 0 |} in
  if? al_parameters l <? Parameters stats
  return validationError "query" "exceeds the effective parameter limit" then
  let? stats :=
    match g_filter spec with
    | None => Ok stats
    | Some filter =>
        validateFilter "query.filter" filter 1 stats
          {| maxPredicates := al_predicates l; maxDepth := al_depth l; maxParameters := al_parameters l |}
    end in
  if? ProtocolMaxOrderByFields <? len (order_list spec)
  return validationError "query.order_by" "exceeds the protocol order-by limit" then
  if? al_order_by l <? len (order_list spec)
  return validationError "query.order_by" "exceeds the effective order-by limit" then
  if? String.eqb (g_mode spec) AggregateModeScalar && match g_order_by spec with Some _ => true | None => false end
  return validationError "query.order_by" "is not supported in scalar mode" then
  let? _ := iter (order_step checkOutputSemantics (g_projection spec)) (order_list spec) [] in
  let? limit := aggregate_row_limit (g_mode spec) (g_limit spec) (al_rows l) in
  Ok {| va_spec := {| a_mode := g_mode spec; a_source := g_source spec; a_projection := g_projection spec;
                      a_filter := cloneFilter (g_filter spec); a_order_by := order_list spec; a_limit := limit |};
        va_stats := stats; va_valid := true |}.

Definition ValidateAggregate (spec : AggregateSpec) (l : aggregate_limits) : result ValidatedAggregate :=
  validateAggregate spec l true.

Definition count_if {A} (p : A -> bool) (l : list A) : Z := len (List.filter p l).

Definition cloneNormalizedAggregate (spec : NormalizedAggregateSpec) : NormalizedAggregateSpec := {|
  a_mode := a_mode spec; a_source := a_source spec; a_projection := a_projection spec;
  a_filter := cloneFilter (a_filter spec); a_order_by := a_order_by spec; a_limit := a_limit spec |}.

Definition RevalidateAggregate (query : ValidatedAggregate) (l : aggregate_limits) : result ValidatedAggregate :=
  let spec := va_spec query in
  if? negb (va_valid query) return validationError "query" "has not been validated" then
  if? al_projection l <? len (a_projection spec)
  return validationError "query.projection" "exceeds the effective projection limit" then
  if? al_order_by l <? len (a_order_by spec)
  return validationError "query.order_by" "exceeds the effective order-by limit" then
  if? al_group_by l <? count_if is_grouping (a_projection spec)
  return validationError "query.projection" "exceeds the effective group-by limit" then
  if? al_predicates l <? Predicates (va_stats query)
  return validationError "query.filter" "exceeds the effective predicate limit" then
  if? al_depth l <? ExpressionDepth (va_stats query)
  return validationError "query.filter" "exceeds the effective expression depth limit" then
  if? al_parameters l <? Parameters (va_stats query)
  return validationError "query.filter" "exceeds the effective parameter limit" then
  if? String.eqb (a_mode spec) AggregateModeGrouped && (al_rows l <? a_limit spec)
  return validationError "query.limit" "exceeds the effective row limit" then
  Ok {| va_spec := cloneNormalizedAggregate spec; va_stats := va_stats query; va_valid := true |}.

(** ** What an accepted aggregate satisfies *)

Definition output_ok (mode : string) (o : AggregateOutput) : Prop :=
  representation_ok (ao_representation o) /\
  (ao_kind o = "dimension" /\ mode = AggregateModeGrouped /\ ao_function o = EmptyString /\
     ao_alias o = EmptyString /\ ao_unit o = EmptyString /\ ao_timezone o = EmptyString /\
     is_identifier (ao_field o) = true \/
   ao_kind o = "numeric_bucket" /\ ao_representation o = EmptyString /\ mode = AggregateModeGrouped /\
     ao_function o = EmptyString /\ ao_unit o = EmptyString /\ ao_timezone o = EmptyString /\
     is_identifier (ao_field o) = true /\ is_identifier (ao_alias o) = true \/
   ao_kind o = "time_bucket" /\ ao_representation o = EmptyString /\ mode = AggregateModeGrouped /\
     ao_function o = EmptyString /\ In (ao_unit o) ["hour"; "day"; "week"; "month"] /\ ao_timezone o = "UTC" /\
     is_identifier (ao_field o) = true /\ is_identifier (ao_alias o) = true \/
   ao_kind o = "measure" /\ ao_representation o = EmptyString /\ ao_unit o = EmptyString /\
     ao_timezone o = EmptyString /\ is_identifier (ao_alias o) = true /\
     (ao_function o = "count_all" /\ ao_field o = EmptyString \/
      In (ao_function o) ["count"; "count_distinct"; "min"; "max"; "sum"; "avg"] /\ is_identifier (ao_field o) = true)).

Definition bucket_fields (projection : list AggregateOutput) : list string :=
  map ao_field (List.filter (is_kind "time_bucket") projection).

(** A field order may not contradict the representation of the dimensions that
    it may name, and a numeric bucket order names a projected bucket. *)
Definition order_matches (projection : list AggregateOutput) (o : AggregateSort) : Prop :=
  (as_kind o = "dimension" -> mismatched_representation projection o = false) /\
  (as_kind o = "numeric_bucket" ->
   Exists (fun output => ao_kind output = "numeric_bucket" /\ equal_fold (ao_alias output) (as_alias o) = true) projection).

Definition order_ok (o : AggregateSort) : Prop :=
  representation_ok (as_representation o) /\ (as_direction o = "asc" \/ as_direction o = "desc") /\
  (as_kind o = "dimension" /\ as_alias o = EmptyString /\ is_identifier (as_field o) = true \/
   In (as_kind o) ["measure"; "time_bucket"; "numeric_bucket"] /\ as_representation o = EmptyString /\
     as_field o = EmptyString /\ is_identifier (as_alias o) = true).

Definition numeric_aliases (orders : list AggregateSort) : list string :=
  map (fun o => to_lower (as_alias o)) (List.filter (fun o => String.eqb (as_kind o) "numeric_bucket") orders).

Definition base_parameters (mode : string) : Z := if String.eqb mode AggregateModeGrouped then 1 else 0.

Record aggregate_ok (spec : AggregateSpec) (l : aggregate_limits) (semantics : bool) : Prop := {
  ag_schema : is_identifier (r_schema (g_source spec)) = true;
  ag_name : is_identifier (r_name (g_source spec)) = true;
  ag_mode : g_mode spec = AggregateModeScalar \/ g_mode spec = AggregateModeGrouped;
  ag_projection : 1 <= len (g_projection spec) <= Z.min ProtocolMaxProjectionFields (al_projection l);
  ag_outputs : Forall (output_ok (g_mode spec)) (g_projection spec);
  ag_shape : g_mode spec = AggregateModeGrouped ->
    Exists (fun o => is_grouping o = true) (g_projection spec) /\
    Exists (fun o => ao_kind o = "measure") (g_projection spec);
  ag_group_by : count_if is_grouping (g_projection spec) <= al_group_by l;
  ag_names : semantics = true ->
    NoDup (map output_name (g_projection spec)) /\ NoDup (bucket_fields (g_projection spec));
  ag_filter : from_option filter_ok True (g_filter spec);
  ag_filter_size : g_filter spec <> None ->
    filter_depth (g_filter spec) <= al_depth l /\ filter_predicates (g_filter spec) <= al_predicates l;
  ag_parameters : base_parameters (g_mode spec) + filter_parameters (g_filter spec) <= al_parameters l;
  ag_order_by : len (order_list spec) <= Z.min ProtocolMaxOrderByFields (al_order_by l);
  ag_orders : Forall order_ok (order_list spec);
  ag_order_semantics : semantics = true ->
    Forall (order_matches (g_projection spec)) (order_list spec) /\ NoDup (numeric_aliases (order_list spec));
  ag_limit :
    (g_mode spec = AggregateModeScalar /\ g_order_by spec = None /\ g_limit spec = None) \/
    (g_mode spec = AggregateModeGrouped /\ exists n, g_limit spec = Some n /\ 1 <= n <= Z.min ProtocolMaxRows (al_rows l));
}.

(** The stored form of an accepted aggregate. *)
Definition aggregate_stored (spec : AggregateSpec) : ValidatedAggregate := {|
  va_spec := {| a_mode := g_mode spec; a_source := g_source spec; a_projection := g_projection spec;
                a_filter := g_filter spec; a_order_by := order_list spec; a_limit := default 0 (g_limit spec) |};
  va_stats := {| Predicates := filter_predicates (g_filter spec);
                 ExpressionDepth := filter_depth (g_filter spec);
                 Parameters := base_parameters (g_mode spec) + filter_parameters (g_filter spec) |};
  va_valid := true |}.

(** ** Lemmas: the checks one by one *)

Lemma output_ok_iff path mode o : validateAggregateOutput path mode o = Ok tt <-> output_ok mode o.
Proof.
  unfold validateAggregateOutput, output_ok. rewrite check_ok, validateRepresentation_ok, if_err_ok.
  destruct (String.eqb_spec (ao_kind o) "dimension") as [E|E].
  { cbn [negb andb]. rewrite !if_err_ok, !orb_false_iff, !nonempty_false, negb_false_iff, String.eqb_eq, validateIdentifier_ok.
    rewrite E. split; [intuition|]. intros (? & [H|[(H & _)|[(H & _)|(H & _)]]]); [intuition|discriminate..]. }
  cbn [negb andb]. rewrite nonempty_false.
  destruct (String.eqb_spec (ao_kind o) "numeric_bucket") as [E1|E1].
  { rewrite if_err_ok, check_ok, !orb_false_iff, !nonempty_false, negb_false_iff, String.eqb_eq, !validateIdentifier_ok.
    rewrite E1. split; [intuition|]. intros (? & [(H & _)|[H|[(H & _)|(H & _)]]]); [discriminate|intuition|discriminate..]. }
  destruct (String.eqb_spec (ao_kind o) "time_bucket") as [E2|E2].
  { rewrite !if_err_ok, !check_ok, !if_err_ok, !negb_false_iff, nonempty_false, !String.eqb_eq, !validateIdentifier_ok, contains_In.
    rewrite E2. split; [intuition|]. intros (? & [(H & _)|[(H & _)|[H|(H & _)]]]); [discriminate..|intuition|discriminate]. }
  destruct (String.eqb_spec (ao_kind o) "measure") as [E3|E3].
  2: { split; [intros (? & ? & ?); discriminate|intuition]. }
  rewrite E3, if_err_ok, check_ok, !orb_false_iff, !nonempty_false, validateIdentifier_ok.
  assert (Hf : (if String.eqb (ao_function o) "count_all"
                then if? nonempty (ao_field o) return validationError (path +:+ ".field") "count_all must not contain field" then nil_error
                else if contains ["count"; "count_distinct"; "min"; "max"; "sum"; "avg"] (ao_function o)
                then validateIdentifier (path +:+ ".field") (ao_field o)
                else Err (validationError (path +:+ ".function") "contains an unsupported aggregate")) = Ok tt <->
               ao_function o = "count_all" /\ ao_field o = EmptyString \/
               In (ao_function o) ["count"; "count_distinct"; "min"; "max"; "sum"; "avg"] /\ is_identifier (ao_field o) = true).
  { destruct (String.eqb_spec (ao_function o) "count_all") as [Ec|Ec].
    - rewrite guard_ok, nonempty_false, Ec.
      assert (Hn : ~ In "count_all" ["count"; "count_distinct"; "min"; "max"; "sum"; "avg"]) by (simpl; intuition discriminate).
      tauto.
    - destruct (contains _ _) eqn:Hc.
      + apply contains_In in Hc. rewrite validateIdentifier_ok. tauto.
      + apply contains_false in Hc. split; [discriminate|tauto]. }
  rewrite Hf. split; [tauto|]. intros (? & [(H & _)|[(H & _)|[(H & _)|H]]]); [discriminate..|tauto].
Qed.

Definition projection_after (semantics : bool) (ps : list AggregateOutput) (st : projection_state) : projection_state := {|
  ps_dimensions := ps_dimensions st + count_if is_grouping ps;
  ps_measures := ps_measures st + count_if (fun o => negb (is_grouping o)) ps;
  ps_outputNames := if semantics then (rev (map output_name ps) ++ ps_outputNames st)%list else ps_outputNames st;
  ps_timeBucketFields := if semantics then (rev (bucket_fields ps) ++ ps_timeBucketFields st)%list else ps_timeBucketFields st |}.

Lemma projection_step_iff semantics mode i o st st' :
  NoDup (ps_outputNames st) -> NoDup (ps_timeBucketFields st) ->
  projection_step semantics mode i o st = Ok st' <->
  output_ok mode o /\
  (semantics = true -> NoDup (output_name o :: ps_outputNames st) /\ NoDup (rev (bucket_fields [o]) ++ ps_timeBucketFields st)%list) /\
  st' = projection_after semantics [o] st.
Proof.
  intros Hn Hf. unfold projection_step. rewrite check_ok', output_ok_iff, rbind_ok.
  unfold projection_after, bucket_fields, count_if. cbn [map List.filter rev app].
  destruct semantics; cbn [andb].
  - setoid_rewrite rbind_ok. setoid_rewrite if_err_ok. setoid_rewrite contains_false_elem.
    rewrite NoDup_cons. destruct (is_kind "time_bucket" o); cbn [map rev app].
    + setoid_rewrite if_err_ok. setoid_rewrite contains_false_elem. rewrite NoDup_cons.
      destruct (is_grouping o); cbn [negb]; rewrite ?len_cons, ?len_nil, ?Z.add_0_r; naive_solver.
    + destruct (is_grouping o); cbn [negb]; rewrite ?len_cons, ?len_nil, ?Z.add_0_r; naive_solver.
  - setoid_rewrite rbind_ok. destruct (is_grouping o); cbn [negb]; rewrite ?len_cons, ?len_nil, ?Z.add_0_r; naive_solver.
Qed.

Lemma projection_after_app semantics ps qs st :
  projection_after semantics qs (projection_after semantics ps st) = projection_after semantics (ps ++ qs) st.
Proof.
  unfold projection_after, count_if, bucket_fields. cbn [ps_dimensions ps_measures ps_outputNames ps_timeBucketFields].
  rewrite !List.filter_app, !map_app, !rev_app_distr, !len_app, !Z.add_assoc, <- !app_assoc. by destruct semantics.
Qed.

Lemma projection_loop_iff semantics mode ps : forall i st st',
  NoDup (ps_outputNames st) -> NoDup (ps_timeBucketFields st) ->
  iter_from (projection_step semantics mode) i ps st = Ok st' <->
  Forall (output_ok mode) ps /\
  (semantics = true -> NoDup (rev (map output_name ps) ++ ps_outputNames st)%list /\
                       NoDup (rev (bucket_fields ps) ++ ps_timeBucketFields st)%list) /\
  st' = projection_after semantics ps st.
Proof.
  induction ps as [|o ps IH]; intros i st st' Hn Hf.
  - cbn [iter_from]. unfold projection_after, count_if. cbn. rewrite !len_nil, !Z.add_0_r.
    destruct st, semantics; simpl in *; (split; [intros [= <-]; split_and!; [constructor|done|done]|by intros (_ & _ & ->)]).
  - cbn [iter_from]. rewrite rbind_ok, Forall_cons.
    assert (Happ : (semantics = true -> NoDup (rev (map output_name (o :: ps)) ++ ps_outputNames st)%list /\
                     NoDup (rev (bucket_fields (o :: ps)) ++ ps_timeBucketFields st)%list) ->
                   semantics = true -> NoDup (output_name o :: ps_outputNames st) /\
                     NoDup (rev (bucket_fields [o]) ++ ps_timeBucketFields st)%list).
    { intros H E. destruct (H E) as [H1 H2]. change (o :: ps) with ([o] ++ ps)%list in H1, H2. unfold bucket_fields in H2.
      rewrite map_app, rev_app_distr, <- app_assoc in H1.
      rewrite List.filter_app, map_app, rev_app_distr, <- app_assoc in H2.
      apply NoDup_app in H1 as (_ & _ & H1), H2 as (_ & _ & H2). by split. }
    assert (Hrest : (semantics = true -> NoDup (rev (map output_name (o :: ps)) ++ ps_outputNames st)%list /\
                      NoDup (rev (bucket_fields (o :: ps)) ++ ps_timeBucketFields st)%list) <->
                    (semantics = true -> NoDup (rev (map output_name ps) ++ ps_outputNames (projection_after semantics [o] st))%list /\
                      NoDup (rev (bucket_fields ps) ++ ps_timeBucketFields (projection_after semantics [o] st))%list)).
    { change (o :: ps) with ([o] ++ ps)%list. unfold projection_after, bucket_fields. cbn [ps_outputNames ps_timeBucketFields].
      rewrite map_app, List.filter_app, map_app, !rev_app_distr, <- !app_assoc. by destruct semantics. }
    split.
    + intros (s & Hs & Hr). apply projection_step_iff in Hs as (Ho & Hu & ->); [|done..].
      apply IH in Hr as (Hos & Hus & ->).
      * split_and!; try done; [by apply Hrest|]. apply projection_after_app.
      * unfold projection_after. simpl. destruct semantics; [by apply Hu|done].
      * unfold projection_after. simpl. destruct semantics; [by apply Hu|done].
    + intros ((Ho & Hos) & Hu & ->). exists (projection_after semantics [o] st). split.
      * apply projection_step_iff; try done. split_and!; [done|by apply Happ|done].
      * apply IH.
        -- unfold projection_after. simpl. destruct semantics; [by apply Happ|done].
        -- unfold projection_after. simpl. destruct semantics; [by apply Happ|done].
        -- split_and!; [done|by apply Hrest|]. symmetry. apply (projection_after_app semantics [o] ps).
Qed.

Ltac order_done :=
  first [ done | by left | right; split_and!; first [done | simpl; auto; fail]
        | match goal with |- context [if ?b then _ else _] => by destruct b end
        | intros _; split; [split; [discriminate|done]|done] ].

Lemma order_step_iff semantics projection i o seen seen' : NoDup seen ->
  order_step semantics projection i o seen = Ok seen' <->
  order_ok o /\
  (semantics = true -> order_matches projection o /\ NoDup (rev (numeric_aliases [o]) ++ seen)%list) /\
  seen' = if semantics then (rev (numeric_aliases [o]) ++ seen)%list else seen.
Proof.
  intros Hs. unfold order_step, order_ok, order_matches, numeric_aliases.
  rewrite check_ok', validateRepresentation_ok, !if_err_ok. cbn [List.filter].
  rewrite (andb_false_iff (negb _) (negb (String.eqb (as_direction o) "desc"))), !negb_false_iff, !String.eqb_eq.
  destruct (String.eqb_spec (as_kind o) "dimension") as [E|E].
  { rewrite E. cbn [negb andb String.eqb Ascii.eqb Bool.eqb map rev app].
    change (String.eqb "dimension" "numeric_bucket") with false. cbn [map rev app].
    rewrite if_err_ok, check_ok', if_err_ok, nonempty_false, validateIdentifier_ok.
    split.
    - intros (Hr & _ & Hd & Ha & Hf & Hm & [= <-]). split_and!; try done; [by left| |by destruct semantics].
      intros ->. split; [split; [done|discriminate]|done].
    - intros ((Hr & Hd & [(_ & Ha & Hf)|([H|[H|[H|[]]]] & _)]) & Hu & ->); [|discriminate..].
      split_and!; try done; [|by destruct semantics]. destruct semantics; [|done]. destruct (Hu eq_refl) as [[H _] _]. by rewrite H. }
  cbn [negb andb]. rewrite nonempty_false. destruct (String.eqb_spec (as_kind o) "measure") as [E1|E1].
  { rewrite E1. change (String.eqb "measure" "numeric_bucket") with false. cbn [map rev app].
    rewrite if_err_ok, check_ok', nonempty_false, validateIdentifier_ok. split.
    - intros (Hr & He & Hd & Ha & Hf & [= <-]). split_and!; order_done.
    - intros ((Hr & Hd & [(? & _)|(_ & He & Ha & Hf)]) & Hu & ->); [discriminate|]. split_and!; try done. by destruct semantics. }
  destruct (String.eqb_spec (as_kind o) "numeric_bucket") as [E2|E2].
  - rewrite E2. rewrite orb_true_r. cbn [map rev app]. rewrite if_err_ok, check_ok', nonempty_false, validateIdentifier_ok.
    assert (Hex : existsb (fun output => is_kind "numeric_bucket" output && equal_fold (ao_alias output) (as_alias o)) projection = true <->
             Exists (fun output => ao_kind output = "numeric_bucket" /\ equal_fold (ao_alias output) (as_alias o) = true) projection).
    { rewrite existsb_Exists, !Exists_exists. unfold is_kind. by setoid_rewrite andb_true_iff; setoid_rewrite String.eqb_eq. }
    destruct semantics; cbn [andb].
    + rewrite !if_err_ok, negb_false_iff, Hex, contains_false_elem, NoDup_cons. split.
      * intros (Hr & He & Hd & Ha & Hf & Hx & Hc & [= <-]). split_and!; order_done.
      * intros ((Hr & Hd & [(? & _)|(_ & He & Ha & Hf)]) & Hu & ->); [discriminate|].
        destruct (Hu eq_refl) as [[_ Hx] [Hc _]]. split_and!; try done. by apply Hx.
    + split.
      * intros (Hr & He & Hd & Ha & Hf & [= <-]). split_and!; order_done.
      * intros ((Hr & Hd & [(? & _)|(_ & He & Ha & Hf)]) & Hu & ->); [discriminate|]. by split_and!.
  - rewrite orb_false_r, andb_false_r. cbn [map rev app].
    destruct (String.eqb_spec (as_kind o) "time_bucket") as [E3|E3].
    2: { split; [intros (_ & _ & _ & H); discriminate|]. intros ((_ & _ & [(? & _)|([H|[H|[H|[]]]] & _)]) & _); congruence. }
    rewrite E3, if_err_ok, check_ok', nonempty_false, validateIdentifier_ok. split.
    + intros (Hr & He & Hd & Ha & Hf & [= <-]). split_and!; order_done.
    + intros ((Hr & Hd & [(? & _)|(_ & He & Ha & Hf)]) & Hu & ->); [discriminate|]. split_and!; try done. by destruct semantics.
Qed.

Lemma order_loop_iff semantics projection os : forall i seen seen', NoDup seen ->
  iter_from (order_step semantics projection) i os seen = Ok seen' <->
  Forall order_ok os /\
  (semantics = true -> Forall (order_matches projection) os /\ NoDup (rev (numeric_aliases os) ++ seen)%list) /\
  seen' = if semantics then (rev (numeric_aliases os) ++ seen)%list else seen.
Proof.
  induction os as [|o os IH]; intros i seen seen' Hs.
  - cbn [iter_from]. split; [intros [= <-]|intros (_ & _ & ->); by destruct semantics].
    split_and!; [constructor|intros _; split; [constructor|done]|by destruct semantics].
  - cbn [iter_from]. rewrite rbind_ok, !Forall_cons.
    assert (Hall : rev (numeric_aliases (o :: os)) = (rev (numeric_aliases os) ++ rev (numeric_aliases [o]))%list).
    { change (o :: os) with ([o] ++ os)%list. unfold numeric_aliases. by rewrite List.filter_app, map_app, rev_app_distr. }
    rewrite Hall, <- app_assoc. split.
    + intros (s & Ho & Hr). apply order_step_iff in Ho as (Ho & Hu & ->); [|done].
      apply IH in Hr as (Hos & Hus & ->); [|destruct semantics; [by apply Hu|done]].
      split_and!; try done; [|by destruct semantics].
      intros ->. destruct (Hu eq_refl) as [? _], (Hus eq_refl). done.
    + intros ((Ho & Hos) & Hu & ->).
      assert (Hn : semantics = true -> NoDup (rev (numeric_aliases [o]) ++ seen)%list)
        by (intros E; destruct (Hu E) as [_ H]; by apply NoDup_app in H as (_ & _ & H)).
      exists (if semantics then (rev (numeric_aliases [o]) ++ seen)%list else seen). split.
      * apply order_step_iff; [done|]. split_and!; [done| |done]. intros E. destruct (Hu E) as [[? _] _]. auto.
      * apply IH; [destruct semantics; auto|]. split_and!; [done| |by destruct semantics].
        intros ->. destruct (Hu eq_refl) as [[_ ?] ?]. done.
Qed.

Lemma row_limit_iff mode limit rows n : mode = AggregateModeScalar \/ mode = AggregateModeGrouped ->
  aggregate_row_limit mode limit rows = Ok n <->
  (mode = AggregateModeScalar /\ limit = None \/
   mode = AggregateModeGrouped /\ exists m, limit = Some m /\ 1 <= m <= Z.min ProtocolMaxRows rows) /\
  n = default 0 limit.
Proof.
  intros Hm. unfold aggregate_row_limit. destruct Hm as [-> | ->]; cbn [String.eqb].
  - rewrite String.eqb_refl. destruct limit; split; try done; try naive_solver.
  - change (String.eqb AggregateModeGrouped AggregateModeScalar) with false. destruct limit as [m|].
    + rewrite !if_err_ok, orb_false_iff, !Z.ltb_ge. split.
      * intros ((H1 & H2) & H3 & [= <-]). split; [|done]. right. split; [done|]. exists m. split; [done|lia].
      * intros [[[? _]|(_ & ? & [= <-] & H)] ->]; [discriminate|]. split_and!; [lia..|done].
    + split; [done|]. intros [[[? _]|(_ & ? & ? & _)] _]; discriminate.
Qed.

Lemma count_if_zero {A} (p : A -> bool) l : count_if p l = 0 <-> ~ Exists (fun x => p x = true) l.
Proof.
  unfold count_if. induction l as [|x l IH]; simpl; [rewrite Exists_nil; split; [by intros _ []|done]|]. rewrite Exists_cons.
  pose proof (len_nonneg (List.filter p l)). destruct (p x); rewrite ?len_cons.
  - split; [lia|]. intros H'. exfalso. apply H'. by left.
  - rewrite IH. split; [by intros H' [?|?]|]. intros H' Hx. apply H'. by right.
Qed.

Lemma count_if_nonneg {A} (p : A -> bool) l : 0 <= count_if p l.
Proof. apply len_nonneg. Qed.

Lemma output_kind mode o : output_ok mode o ->
  (is_grouping o = true /\ mode = AggregateModeGrouped /\ ao_kind o <> "measure") \/ (is_grouping o = false /\ ao_kind o = "measure").
Proof.
  intros (_ & [(E & ? & _)|[(E & _ & ? & _)|[(E & _ & ? & _)|(E & _)]]]); unfold is_grouping; rewrite E; auto;
    left; (split; [done|split; [done|discriminate]]).
Qed.

Lemma shape_iff mode ps : Forall (output_ok mode) ps -> mode = AggregateModeScalar \/ mode = AggregateModeGrouped ->
  String.eqb mode AggregateModeScalar && negb (count_if is_grouping ps =? 0) = false /\
  String.eqb mode AggregateModeGrouped && ((count_if is_grouping ps =? 0) || (count_if (fun o => negb (is_grouping o)) ps =? 0)) = false <->
  (mode = AggregateModeGrouped -> Exists (fun o => is_grouping o = true) ps /\ Exists (fun o => ao_kind o = "measure") ps).
Proof.
  intros Hok Hm.
  assert (Hmeasure : Exists (fun o => negb (is_grouping o) = true) ps <-> Exists (fun o => ao_kind o = "measure") ps).
  { rewrite !Exists_exists. rewrite Forall_forall in Hok. split; intros (o & Hin & H); exists o; (split; [done|]);
      destruct (output_kind _ _ (Hok o Hin)) as [(E & _ & ?)|(E & ?)]; rewrite E in *; try done; naive_solver. }
  destruct Hm as [-> | ->].
  - change (String.eqb AggregateModeScalar AggregateModeScalar) with true.
    change (String.eqb AggregateModeScalar AggregateModeGrouped) with false. cbn [andb].
    rewrite negb_false_iff, Z.eqb_eq, count_if_zero. split; [by intros _ ?|]. intros _. split; [|done].
    rewrite Exists_exists. intros (o & Hin & H). rewrite Forall_forall in Hok.
    destruct (output_kind _ _ (Hok o Hin)) as [(_ & E & _)|(E & _)]; [discriminate|congruence].
  - change (String.eqb AggregateModeGrouped AggregateModeScalar) with false.
    change (String.eqb AggregateModeGrouped AggregateModeGrouped) with true. cbn [andb].
    rewrite orb_false_iff, !Z.eqb_neq, !count_if_zero, Hmeasure.
    assert (Hd : forall P : Prop, Decision P -> (~ ~ P) <-> P) by (intros P [?|?]; tauto).
    rewrite (Hd (Exists (fun o => is_grouping o = true) ps)), (Hd (Exists (fun o => ao_kind o = "measure") ps)) by apply _.
    tauto.
Qed.

Lemma aggregate_filter_iff f l base stats' :
  match f with
  | None => Ok {| Predicates := 0; ExpressionDepth := 0; Parameters := base |}
  | Some f => validateFilter "query.filter" f 1 {| Predicates := 0; ExpressionDepth := 0; Parameters := base |}
                {| maxPredicates := al_predicates l; maxDepth := al_depth l; maxParameters := al_parameters l |}
  end = Ok stats' <->
  from_option filter_ok True f /\
  (f <> None -> filter_depth f <= al_depth l /\ filter_predicates f <= al_predicates l) /\
  (f <> None -> base + filter_parameters f <= al_parameters l) /\
  stats' = {| Predicates := filter_predicates f; ExpressionDepth := filter_depth f;
              Parameters := base + filter_parameters f |}.
Proof.
  destruct f as [f|]; simpl.
  - rewrite validateFilter_iff. unfold within, add_filter_stats; simpl.
    assert (0 <= depth_of f) by (destruct f as [? ? ? ? ? es]; simpl; pose proof (max_nonneg depth_of es); lia).
    split.
    + intros (Hok & (H1 & H2 & H3) & ->). split_and!; try done; try (intros _; lia). f_equal; lia.
    + intros (Hok & H1 & H2 & ->). specialize (H1 ltac:(done)). specialize (H2 ltac:(done)).
      split_and!; try done; try lia. f_equal; lia.
  - rewrite Z.add_0_r. naive_solver.
Qed.

Lemma filter_size_nonneg f : 0 <= filter_parameters f.
Proof. destruct f; simpl; [apply parameters_of_nonneg|lia]. Qed.

Lemma cloneFilter_ok f : from_option filter_ok True f -> cloneFilter f = f.
Proof. destruct f as [f|]; simpl; [|done]. intros H. by rewrite clone_filter_ok. Qed.

Lemma validateAggregate_iff spec l semantics v :
  validateAggregate spec l semantics = Ok v <-> aggregate_ok spec l semantics /\ v = aggregate_stored spec.
Proof.
  unfold validateAggregate, iter. rewrite !check_ok', !validateIdentifier_ok, !if_err_ok, !Z.ltb_ge, Z.eqb_neq.
  rewrite andb_false_iff, !negb_false_iff, !String.eqb_eq.
  pose proof (len_nonneg (g_projection spec)). pose proof (filter_size_nonneg (g_filter spec)).
  setoid_rewrite rbind_ok.
  assert (Hproj : forall st, iter_from (projection_step semantics (g_mode spec)) 0 (g_projection spec) no_stats = Ok st <->
    Forall (output_ok (g_mode spec)) (g_projection spec) /\
    (semantics = true -> NoDup (map output_name (g_projection spec)) /\ NoDup (bucket_fields (g_projection spec))) /\
    st = projection_after semantics (g_projection spec) no_stats).
  { intros st. rewrite projection_loop_iff by constructor. cbn [no_stats ps_outputNames ps_timeBucketFields].
    by rewrite !NoDup_rev_app. }
  setoid_rewrite Hproj. clear Hproj.
  repeat setoid_rewrite if_err_ok. setoid_rewrite Z.ltb_ge. setoid_rewrite rbind_ok.
  setoid_rewrite aggregate_filter_iff. cbn [Parameters].
  repeat setoid_rewrite if_err_ok. setoid_rewrite Z.ltb_ge. setoid_rewrite rbind_ok.
  assert (Hord : forall seen, iter_from (order_step semantics (g_projection spec)) 0 (order_list spec) [] = Ok seen <->
    Forall order_ok (order_list spec) /\
    (semantics = true -> Forall (order_matches (g_projection spec)) (order_list spec) /\ NoDup (numeric_aliases (order_list spec))) /\
    seen = if semantics then (rev (numeric_aliases (order_list spec)) ++ [])%list else []).
  { intros seen. rewrite order_loop_iff by constructor. by rewrite NoDup_rev_app. }
  setoid_rewrite Hord. clear Hord. setoid_rewrite rbind_ok. split.
  - intros (Hs & Hn & Hm & Hp0 & Hp1 & Hp2 & st & (Hout & Hnames & ->) & Hsh1 & Hsh2 & Hg & Hpar & stats &
      (Hf1 & Hf2 & Hf3 & ->) & Ho1 & Ho2 & Ho3 & seen & (Ho4 & Ho5 & _) & lim & Hlim & [= <-]).
    apply row_limit_iff in Hlim as [Hlim ->]; [|done]. cbn in Hg, Hsh1, Hsh2. rewrite Z.add_0_l in Hg.
    split; [constructor; try done; try lia|].
    + apply shape_iff; [done..|]. by rewrite !Z.add_0_l in Hsh1, Hsh2.
    + unfold base_parameters in *. destruct (g_filter spec) as [f|]; [by apply Hf3|]. simpl in *. lia.
    + destruct Hlim as [[E ->]|H']; [left|by right]. split_and!; try done.
      rewrite E in Ho3. change (String.eqb AggregateModeScalar AggregateModeScalar) with true in Ho3.
      by destruct (g_order_by spec).
    + unfold aggregate_stored. do 2 f_equal. by apply cloneFilter_ok.
  - intros [[] ->]. split_and!; try done; try lia.
    eexists. split; [split_and!; done|]. cbn [projection_after no_stats ps_dimensions ps_measures]. rewrite !Z.add_0_l.
    destruct (proj2 (shape_iff (g_mode spec) (g_projection spec) ag_outputs0 ag_mode0) ag_shape0) as [Hs1 Hs2].
    split_and!; try done; [unfold base_parameters in *; lia|].
    eexists. split; [split_and!; try done; intros _; unfold base_parameters in *; lia|].
    split_and!; try done; try lia.
    + destruct ag_limit0 as [(-> & -> & _)|(-> & _)]; done.
    + eexists. split; [split_and!; done|]. exists (default 0 (g_limit spec)). split.
      * apply row_limit_iff; [done|]. split; [|done]. destruct ag_limit0 as [(? & ? & ?)|?]; [left|right]; done.
      * unfold aggregate_stored. do 3 f_equal. by apply cloneFilter_ok.
Qed.

(** C28: Validation of an aggregate is exact. It accepts a request just when its
    outputs, filter and order terms are well formed and within the protocol's
    and the given limits, the mode, grouping outputs, order and row limit agree,
    and (when output semantics are checked, as [ValidateAggregate] does) no two
    outputs share a name whatever the letter case, no field is bucketed twice and
    every numeric bucket order names a projected bucket once; it then returns the
    request unchanged with the exact number of predicates, levels and parameters,
    the server's own row limit included. *)
Theorem validateAggregate_exact spec l semantics v :
  validateAggregate spec l semantics = Ok v <-> aggregate_ok spec l semantics /\ v = aggregate_stored spec.
Proof. apply validateAggregate_iff. Qed.

(** ** Revalidation *)

Definition min_aggregate_limits (a b : aggregate_limits) : aggregate_limits := {|
  al_projection := Z.min (al_projection a) (al_projection b);
  al_group_by := Z.min (al_group_by a) (al_group_by b);
  al_order_by := Z.min (al_order_by a) (al_order_by b);
  al_predicates := Z.min (al_predicates a) (al_predicates b);
  al_depth := Z.min (al_depth a) (al_depth b);
  al_parameters := Z.min (al_parameters a) (al_parameters b);
  al_rows := Z.min (al_rows a) (al_rows b) |}.

Lemma RevalidateAggregate_ok q l v :
  RevalidateAggregate q l = Ok v <->
  va_valid q = true /\ len (a_projection (va_spec q)) <= al_projection l /\
  len (a_order_by (va_spec q)) <= al_order_by l /\ count_if is_grouping (a_projection (va_spec q)) <= al_group_by l /\
  Predicates (va_stats q) <= al_predicates l /\ ExpressionDepth (va_stats q) <= al_depth l /\
  Parameters (va_stats q) <= al_parameters l /\
  (a_mode (va_spec q) = AggregateModeGrouped -> a_limit (va_spec q) <= al_rows l) /\
  v = {| va_spec := cloneNormalizedAggregate (va_spec q); va_stats := va_stats q; va_valid := true |}.
Proof.
  unfold RevalidateAggregate. rewrite !if_err_ok, negb_false_iff, !Z.ltb_ge, andb_false_iff, String.eqb_neq, Z.ltb_ge.
  destruct (String.eqb_spec (a_mode (va_spec q)) AggregateModeGrouped); naive_solver.
Qed.

(** Revalidating an accepted aggregate under other limits succeeds exactly
    when the request itself would be accepted under the smaller of both limits in
    every dimension, and it returns the same stored aggregate. *)
Theorem RevalidateAggregate_is_Validate_min spec a b v :
  ValidateAggregate spec a = Ok v -> 0 <= al_predicates b -> 0 <= al_depth b ->
  forall v', RevalidateAggregate v b = Ok v' <-> ValidateAggregate spec (min_aggregate_limits a b) = Ok v'.
Proof.
  intros Hv Hp Hd v'. unfold ValidateAggregate in *. apply validateAggregate_iff in Hv as [Hok ->].
  rewrite validateAggregate_iff, RevalidateAggregate_ok. unfold aggregate_stored, cloneNormalizedAggregate. cbn [va_spec va_stats va_valid a_mode a_source a_projection a_filter a_order_by a_limit Predicates ExpressionDepth Parameters].
  rewrite (cloneFilter_ok (g_filter spec)) by apply Hok. split.
  - intros (_ & H1 & H2 & H3 & H4 & H5 & H6 & H7 & ->). split; [|done]. destruct Hok.
    constructor; try done; cbn; try lia.
    + intros Hf. specialize (ag_filter_size0 Hf). lia.
    + destruct ag_limit0 as [?|(E & n & En & ?)]; [by left|right]. split; [done|]. exists n. split; [done|].
      specialize (H7 E). rewrite En in H7. simpl in H7. lia.
  - intros [[] ->]. cbn in *. split_and!; try done; try lia.
    + destruct (g_filter spec); simpl in *; [|done]. specialize (ag_filter_size0 ltac:(done)). lia.
    + destruct (g_filter spec); simpl in *; [|done]. specialize (ag_filter_size0 ltac:(done)). lia.
    + intros E. destruct ag_limit0 as [(E' & _)|(_ & n & -> & ?)]; [by rewrite E in E'|]. simpl. lia.
Qed.

Definition example_measure (fn field alias : string) : AggregateOutput := {|
  ao_representation := EmptyString; ao_kind := "measure"; ao_field := field; ao_function := fn; ao_alias := alias;
  ao_unit := EmptyString; ao_timezone := EmptyString |}.

Definition example_dimension (field : string) : AggregateOutput := {|
  ao_representation := EmptyString; ao_kind := "dimension"; ao_field := field; ao_function := EmptyString;
  ao_alias := EmptyString; ao_unit := EmptyString; ao_timezone := EmptyString |}.

Definition example_aggregate : AggregateSpec := {|
  g_mode := "grouped"; g_source := {| r_schema := "shop"; r_name := "Orders" |};
  g_projection := [example_dimension "State"; example_measure "sum" "total" "Revenue"; example_measure "count_all" EmptyString "n"];
  g_filter := q_filter example_spec;
  g_order_by := Some [{| as_representation := EmptyString; as_kind := "measure"; as_field := EmptyString; as_alias := "revenue"; as_direction := "desc" |}];
  g_limit := Some 10 |}.

Definition example_aggregate_limits (n : Z) : aggregate_limits := {|
  al_projection := n; al_group_by := n; al_order_by := n; al_predicates := n; al_depth := n; al_parameters := n; al_rows := 10 * n |}.

Example example_aggregate_valid :
  ValidateAggregate example_aggregate (example_aggregate_limits 3) = Ok (aggregate_stored example_aggregate) /\
  is_ok (ValidateAggregate example_aggregate (example_aggregate_limits 2)) = false.
Proof. split; vm_compute; reflexivity. Qed.

Lemma RevalidateAggregate_is_Validate_min_witness :
  RevalidateAggregate (aggregate_stored example_aggregate) (example_aggregate_limits 3) = Ok (aggregate_stored example_aggregate) <->
  ValidateAggregate example_aggregate (min_aggregate_limits (example_aggregate_limits 9) (example_aggregate_limits 3))
    = Ok (aggregate_stored example_aggregate).
Proof.
  apply (RevalidateAggregate_is_Validate_min example_aggregate (example_aggregate_limits 9));
    [vm_compute; reflexivity|vm_compute; discriminate|vm_compute; discriminate].
Defined.
