(* ===== verification/AggregateNormal.v ===== *)
(** Identifier normalization of aggregates (internal/queryspec/aggregate.go):
    [NormalizeAggregateIdentifiers] and the canonical order of filter groups by
    the digests of their members. *)
From stdpp Require Import sorting.
From S2P Require Import Prelude Domain GoJson Number Portable Values QuerySpec Aggregate.
Local Open Scope string_scope.
Local Open Scope Z_scope.

Definition canonicalIdentifier (value : string) (insensitive : bool) : string :=
  if insensitive then to_lower value else value.

(** ** Calls over a slice, and sorting *)

Section Results.
Context {A B : Type} (f : A -> result B).
Fixpoint results (l : list A) : result (list B) :=
  match l with
  | [] => Ok []
  | x :: l' => let? y := f x in let? ys := results l' in Ok (y :: ys)
  end.
End Results.

Section Sorting.
Context {A : Type} (before : A -> A -> bool).
Fixpoint insert_sorted (x : A) (l : list A) : list A :=
  match l with
  | [] => [x]
  | y :: l' => if before x y then x :: l else y :: insert_sorted x l'
  end.
(** [slices.SortFunc]; the lists it is used on are either free of equal
    elements, which fixes the result, or refused. *)
Definition sort_func (l : list A) : list A := fold_right insert_sorted [] l.
End Sorting.

(** [bytes.Compare(a, b) <= 0] *)
Definition bytes_le (a b : string) : bool := String.leb a b.

(** [slices.Compact]; [slices.Sort] on strings is [sort_func bytes_le]. *)
Fixpoint compact (l : list string) : list string :=
  match l with
  | a :: ((b :: _) as l') => if String.eqb a b then compact l' else a :: compact l'
  | _ => l
  end.

(** ** Digests *)

(** [binary.BigEndian.PutUint64] *)
Definition be64 (n : Z) : string :=
  let n := n mod 2 ^ 64 in
  String (byte_of (n / 2 ^ 56 mod 256)) (String (byte_of (n / 2 ^ 48 mod 256)) (String (byte_of (n / 2 ^ 40 mod 256))
    (String (byte_of (n / 2 ^ 32 mod 256)) (String (byte_of (n / 2 ^ 24 mod 256)) (String (byte_of (n / 2 ^ 16 mod 256))
      (String (byte_of (n / 2 ^ 8 mod 256)) (String (byte_of (n mod 256)) EmptyString))))))).

(** [writeFilterDigestString] and [writeFilterDigestBytes]: what they append to
    the text that is hashed. *)
Definition digest_string (value : string) : string := be64 (slen value) +:+ value.

Definition bound_value_digest (value : Bind) : string :=
  match value with
  | BindBool b => digest_string "boolean" +:+ digest_string (String (byte_of (if b then 1 else 0)) EmptyString)
  | BindInt z => digest_string "integer" +:+ digest_string (be64 z)
  | BindString s => digest_string "string" +:+ digest_string s
  | BindBytes s => digest_string "bytes" +:+ digest_string s
  end.

Definition shape_domain : string := "quordon/aggregate-filter-shape/v1".
Definition value_domain : string := "quordon/aggregate-filter-value/v1".

Section Digests.
(** [crypto/sha256], as a function from the written bytes to the 32 bytes of the sum. *)
Context (sha256 : string -> string).

Definition aggregateGroupDigest (domain kind operator : string) (children : list string) : string :=
  sha256 (digest_string domain +:+ digest_string kind +:+ digest_string operator +:+ be64 (len children) +:+
          sconcat (map digest_string children)).

Definition predicate_shape_digest (filter : Filter) : string :=
  sha256 (digest_string shape_domain +:+ digest_string (f_kind filter) +:+ digest_string (f_field filter) +:+
          digest_string (f_representation filter) +:+ digest_string (f_operator filter) +:+
          be64 (len (values_of filter)) +:+ sconcat (map (fun v => digest_string (tv_type v)) (values_of filter))).

Fixpoint AggregateFilterShapeDigest (filter : Filter) : string :=
  if String.eqb (f_kind filter) "predicate" then predicate_shape_digest filter
  else aggregateGroupDigest shape_domain (f_kind filter) (f_operator filter)
         (sort_func bytes_le (map AggregateFilterShapeDigest (f_expressions filter))).

Definition aggregatePredicateDigests (filter : Filter) : result (string * string) :=
  let shapeKey := predicate_shape_digest filter in
  let? bound :=
    results (fun item => match TypedValue_BindValue item with
                         | Ok b => Ok b
                         | Err e => Err (validationError "query.filter" (error_text e))
                         end) (values_of filter) in
  Ok (shapeKey, sha256 (digest_string value_domain +:+ digest_string shapeKey +:+ sconcat (map bound_value_digest bound))).

(** ** Filters *)

Record normalizedExpression := { ne_filter : Filter; ne_shapeKey : string; ne_valueKey : string }.

Definition before_expression (a b : normalizedExpression) : bool :=
  match String.compare (ne_shapeKey a) (ne_shapeKey b) with
  | Lt => true
  | Gt => false
  | Eq => bytes_le (ne_valueKey a) (ne_valueKey b)
  end.

(** Two neighbours of the sorted members with the same value key. *)
Fixpoint adjacent_duplicate (previous : option string) (l : list normalizedExpression) : bool :=
  match l with
  | [] => false
  | e :: l' =>
      match previous with Some p => String.eqb (ne_valueKey e) p | None => false end ||
      adjacent_duplicate (Some (ne_valueKey e)) l'
  end.

Definition with_field (filter : Filter) (field : string) : Filter := {|
  f_representation := f_representation filter; f_kind := f_kind filter; f_field := field;
  f_operator := f_operator filter; f_values := cloneTypedValues (f_values filter); f_expressions := [] |}.

Definition with_expressions (filter : Filter) (expressions : list Filter) : Filter := {|
  f_representation := f_representation filter; f_kind := f_kind filter; f_field := f_field filter;
  f_operator := f_operator filter; f_values := cloneTypedValues (f_values filter); f_expressions := expressions |}.

Definition normalize_group (filter : Filter) (expressions : list normalizedExpression) : result normalizedExpression :=
  let sorted := sort_func before_expression expressions in
  if? adjacent_duplicate None sorted
  return validationError "query.filter" "contains duplicate normalized expressions" then
  Ok {| ne_filter := with_expressions filter (map ne_filter sorted);
        ne_shapeKey := aggregateGroupDigest shape_domain (f_kind filter) (f_operator filter) (map ne_shapeKey sorted);
        ne_valueKey := aggregateGroupDigest value_domain (f_kind filter) (f_operator filter) (map ne_valueKey sorted) |}.

Fixpoint normalizeAggregateFilterNode (caseInsensitiveFields : bool) (filter : Filter) : result normalizedExpression :=
  if String.eqb (f_kind filter) "predicate" then
    let result := with_field filter (canonicalIdentifier (f_field filter) caseInsensitiveFields) in
    let? (shapeKey, valueKey) := aggregatePredicateDigests result in
    Ok {| ne_filter := result; ne_shapeKey := shapeKey; ne_valueKey := valueKey |}
  else
    let? expressions := results (normalizeAggregateFilterNode caseInsensitiveFields) (f_expressions filter) in
    normalize_group filter expressions.

Definition normalizeAggregateFilter (filter : Filter) (caseInsensitiveFields : bool) : result Filter :=
  let? e := normalizeAggregateFilterNode caseInsensitiveFields filter in Ok (ne_filter e).

(** ** Identifiers *)

Definition canonical_output (m : IdentifierSemantics) (o : AggregateOutput) : AggregateOutput := {|
  ao_representation := ao_representation o; ao_kind := ao_kind o;
  ao_field := canonicalIdentifier (ao_field o) (CaseInsensitiveFields m); ao_function := ao_function o;
  ao_alias := canonicalIdentifier (ao_alias o) true; ao_unit := ao_unit o; ao_timezone := ao_timezone o |}.

(** The sets of the loop over the projection. *)
Record names_state := {
  ns_outputNames : list string; ns_dimensions : list (string * string); ns_measures : list string;
  ns_timeBuckets : list string; ns_numericBuckets : list string; ns_timeBucketFields : list string;
}.

Definition no_names : names_state := {|
  ns_outputNames := []; ns_dimensions := []; ns_measures := []; ns_timeBuckets := []; ns_numericBuckets := [];
  ns_timeBucketFields := [] |}.

(** One turn on an output that is already canonical. *)
Definition name_step (output : AggregateOutput) (st : names_state) : result names_state :=
  let? (name, st) :=
    if is_kind "measure" output then
      Ok (ao_alias output,
          {| ns_outputNames := ns_outputNames st; ns_dimensions := ns_dimensions st;
             ns_measures := ao_alias output :: ns_measures st; ns_timeBuckets := ns_timeBuckets st;
             ns_numericBuckets := ns_numericBuckets st; ns_timeBucketFields := ns_timeBucketFields st |})
    else if is_kind "numeric_bucket" output then
      Ok (ao_alias output,
          {| ns_outputNames := ns_outputNames st; ns_dimensions := ns_dimensions st;
             ns_measures := ns_measures st; ns_timeBuckets := ns_timeBuckets st;
             ns_numericBuckets := ao_alias output :: ns_numericBuckets st; ns_timeBucketFields := ns_timeBucketFields st |})
    else if is_kind "time_bucket" output then
      if? contains (ns_timeBucketFields st) (ao_field output)
      return validationError "query.projection" "contains repeated normalized time-bucket source fields" then
      Ok (ao_alias output,
          {| ns_outputNames := ns_outputNames st; ns_dimensions := ns_dimensions st;
             ns_measures := ns_measures st; ns_timeBuckets := ao_alias output :: ns_timeBuckets st;
             ns_numericBuckets := ns_numericBuckets st;
             ns_timeBucketFields := ao_field output :: ns_timeBucketFields st |})
    else
      Ok (ao_field output,
          {| ns_outputNames := ns_outputNames st; ns_dimensions := (ao_field output, ao_representation output) :: ns_dimensions st;
             ns_measures := ns_measures st; ns_timeBuckets := ns_timeBuckets st;
             ns_numericBuckets := ns_numericBuckets st; ns_timeBucketFields := ns_timeBucketFields st |}) in
  if? contains (ns_outputNames st) name
  return validationError "query.projection" "contains colliding output names" then
  Ok {| ns_outputNames := name :: ns_outputNames st; ns_dimensions := ns_dimensions st; ns_measures := ns_measures st;
        ns_timeBuckets := ns_timeBuckets st; ns_numericBuckets := ns_numericBuckets st;
        ns_timeBucketFields := ns_timeBucketFields st |}.

Definition lookup_dimension (dimensions : list (string * string)) (field : string) : option string :=
  snd <$> List.find (fun d => String.eqb d.1 field) dimensions.

Definition canonical_order (m : IdentifierSemantics) (o : AggregateSort) : AggregateSort :=
  if String.eqb (as_kind o) "dimension" then
    {| as_representation := as_representation o; as_kind := as_kind o;
       as_field := canonicalIdentifier (as_field o) (CaseInsensitiveFields m); as_alias := as_alias o;
       as_direction := as_direction o |}
  else
    {| as_representation := as_representation o; as_kind := as_kind o; as_field := as_field o;
       as_alias := canonicalIdentifier (as_alias o) true; as_direction := as_direction o |}.

(** The projected output that an order term names, and the term's target. *)
Definition order_target (st : names_state) (index : Z) (order : AggregateSort) : result string :=
  let path := indexed "query.order_by" index in
  if String.eqb (as_kind order) "dimension" then
    if? negb (bool_decide (lookup_dimension (ns_dimensions st) (as_field order) = Some (as_representation order)))
    return validationError (path +:+ ".field") "must reference one projected dimension" then
    Ok ("dimension:" +:+ as_field order)
  else if String.eqb (as_kind order) "measure" then
    if? negb (contains (ns_measures st) (as_alias order))
    return validationError (path +:+ ".alias") "must reference one projected measure" then
    Ok ("measure:" +:+ as_alias order)
  else if String.eqb (as_kind order) "numeric_bucket" then
    if? negb (contains (ns_numericBuckets st) (as_alias order))
    return validationError (path +:+ ".alias") "must reference one projected numeric bucket" then
    Ok ("numeric_bucket:" +:+ as_alias order)
  else
    if? negb (contains (ns_timeBuckets st) (as_alias order))
    return validationError (path +:+ ".alias") "must reference one projected time bucket" then
    Ok ("time_bucket:" +:+ as_alias order).

Definition target_step (st : names_state) (index : Z) (order : AggregateSort) (seenOrder : list string) : result (list string) :=
  let? target := order_target st index order in
  if? contains seenOrder target
  return validationError "query.order_by" "contains repeated normalized targets" then
  Ok (target :: seenOrder).

Definition NormalizeAggregateIdentifiers (query : ValidatedAggregate) (m : IdentifierSemantics) : result ValidatedAggregate :=
  if? negb (va_valid query) return validationError "query" "has not been validated" then
  let spec := cloneNormalizedAggregate (va_spec query) in
  let source := {| r_schema := canonicalIdentifier (r_schema (a_source spec)) (CaseInsensitiveSchemas m);
                   r_name := canonicalIdentifier (r_name (a_source spec)) (CaseInsensitiveObjects m) |} in
  let projection := map (canonical_output m) (a_projection spec) in
  let? st := iter (fun _ output st => name_step output st) projection no_names in
  let? filter :=
    match a_filter spec with
    | None => Ok None
    | Some f => let? f := normalizeAggregateFilter f (CaseInsensitiveFields m) in Ok (Some f)
    end in
  let orderBy := map (canonical_order m) (a_order_by spec) in
  let? _ := iter (target_step st) orderBy [] in
  Ok {| va_spec := {| a_mode := a_mode spec; a_source := source; a_projection := projection; a_filter := filter;
                      a_order_by := orderBy; a_limit := a_limit spec |};
        va_stats := va_stats query; va_valid := true |}.
End Digests.

Definition insensitive : IdentifierSemantics := {|
  CaseInsensitiveSchemas := true; CaseInsensitiveObjects := true; CaseInsensitiveFields := true |}.

Example normalized_example :
  (fun v => (r_name (a_source (va_spec v)), map ao_field (a_projection (va_spec v)),
             map f_field (match a_filter (va_spec v) with Some f => f_expressions f | None => [] end))) <$>
  (match NormalizeAggregateIdentifiers srev (aggregate_stored example_aggregate) insensitive with Ok v => Some v | Err _ => None end)
  = Some ("orders", ["state"; "total"; ""], ["state"; "id"]).
Proof. vm_compute. reflexivity. Qed.

(** ** Sorting *)

Lemma insert_sorted_perm {A} (before : A -> A -> bool) x l : insert_sorted before x l ≡ₚ x :: l.
Proof.
  induction l as [|y l IH]; [done|]. simpl. destruct (before x y); [done|]. rewrite IH. by constructor.
Qed.

Lemma sort_func_perm {A} (before : A -> A -> bool) l : sort_func before l ≡ₚ l.
Proof. induction l as [|x l IH]; [done|]. simpl. by rewrite insert_sorted_perm, IH. Qed.

Section Sorted.
Context {A : Type} (before : A -> A -> bool).
Context (Htotal : forall a b, before a b = true \/ before b a = true).
Context (Htrans : forall a b c, before a b = true -> before b c = true -> before a c = true).

Lemma insert_sorted_sorted x l : StronglySorted (fun a b => before a b = true) l -> StronglySorted (fun a b => before a b = true) (insert_sorted before x l).
Proof.
  induction 1 as [|y l Hl IH Hy]; simpl; [by repeat constructor|]. destruct (before x y) eqn:E.
  - constructor; [by constructor|]. constructor; [done|]. eapply List.Forall_impl; [|exact Hy]. simpl. eauto.
  - constructor; [done|]. rewrite insert_sorted_perm. constructor; [|done]. destruct (Htotal y x); congruence.
Qed.

Lemma sort_func_sorted l : StronglySorted (fun a b => before a b = true) (sort_func before l).
Proof. induction l; simpl; [constructor|by apply insert_sorted_sorted]. Qed.

Lemma sort_func_id l : StronglySorted (fun a b => before a b = true) l -> sort_func before l = l.
Proof.
  induction 1 as [|x l Hl IH Hx]; [done|]. simpl. rewrite IH. destruct l as [|y l]; [done|]. simpl.
  inversion Hx as [|? ? E]. by rewrite E.
Qed.
End Sorted.

Lemma leb_trans a b c : String.leb a b = true -> String.leb b c = true -> String.leb a c = true.
Proof.
  intros H1 H2. apply Is_true_eq_true. change (String.le a c). etransitivity; [apply Is_true_eq_left, H1|].
  apply Is_true_eq_left, H2.
Qed.

Definition key_of (e : normalizedExpression) : string * string := (ne_shapeKey e, ne_valueKey e).

Lemma before_iff a b : before_expression a b = true <->
  String.compare (ne_shapeKey a) (ne_shapeKey b) = Lt \/
  ne_shapeKey a = ne_shapeKey b /\ String.leb (ne_valueKey a) (ne_valueKey b) = true.
Proof.
  unfold before_expression. destruct (String.compare _ _) eqn:E.
  - apply String.compare_eq_iff in E. rewrite E. unfold bytes_le. naive_solver.
  - naive_solver.
  - split; [done|]. intros [?|[E' _]]; [done|]. rewrite E' in E.
    pose proof (String.compare_antisym (ne_shapeKey b) (ne_shapeKey b)) as H. by rewrite E in H.
Qed.

Lemma compare_refl a : String.compare a a = Eq.
Proof. pose proof (String.compare_antisym a a). by destruct (String.compare a a). Qed.

Lemma compare_lt_trans a b c : String.compare a b = Lt -> String.compare b c = Lt -> String.compare a c = Lt.
Proof.
  intros H1 H2. assert (H : String.leb a c = true).
  { apply (leb_trans a b); unfold String.leb; [by rewrite H1|by rewrite H2]. }
  unfold String.leb in H. destruct (String.compare a c) eqn:E; try done.
  apply String.compare_eq_iff in E as ->. rewrite String.compare_antisym, H1 in H2. done.
Qed.

Lemma before_total a b : before_expression a b = true \/ before_expression b a = true.
Proof.
  rewrite !before_iff. destruct (String.compare (ne_shapeKey a) (ne_shapeKey b)) eqn:E.
  - apply String.compare_eq_iff in E. rewrite E. destruct (String.leb_total (ne_valueKey a) (ne_valueKey b)); auto.
  - auto.
  - right. left. rewrite String.compare_antisym, E. done.
Qed.

Lemma before_trans a b c : before_expression a b = true -> before_expression b c = true -> before_expression a c = true.
Proof.
  rewrite !before_iff. intros [H1|[H1 H1']] [H2|[H2 H2']].
  - left. by eapply compare_lt_trans.
  - left. by rewrite <- H2.
  - left. by rewrite H1.
  - right. split; [congruence|]. by eapply leb_trans.
Qed.

Lemma before_antisym a b : before_expression a b = true -> before_expression b a = true -> key_of a = key_of b.
Proof.
  rewrite !before_iff. unfold key_of. intros [H1|[H1 H1']] [H2|[H2 H2']].
  - rewrite String.compare_antisym, H1 in H2. done.
  - by rewrite H2, compare_refl in H1.
  - by rewrite H1, compare_refl in H2.
  - f_equal; [done|]. by apply String.leb_antisym.
Qed.

Definition in_order : list normalizedExpression -> Prop := StronglySorted (fun a b => before_expression a b = true).

Lemma no_duplicate_keys l : in_order l -> forall previous, adjacent_duplicate previous l = false -> NoDup (map key_of l).
Proof.
  induction 1 as [|x l Hl IH Hx]; intros previous Ha; [constructor|]. simpl in Ha. apply orb_false_iff in Ha as [_ Ha].
  cbn [map]. constructor; [|by eapply IH]. intros Hin.
  destruct l as [|y l]; [by inversion Hin|]. simpl in Ha. apply orb_false_iff in Ha as [Hxy _]. apply String.eqb_neq in Hxy.
  rewrite list_elem_of_In in Hin. apply in_map_iff in Hin as (z & Hz & Hin).
  inversion Hx as [|? ? Exy Hxl]; subst. inversion Hl as [|? ? Hl' Hyl]; subst.
  assert (Eyz : before_expression y z = true).
  { destruct Hin as [<-|Hin]; [rewrite before_iff; right; split; [done|]; unfold String.leb; by rewrite compare_refl|].
    rewrite List.Forall_forall in Hyl. auto. }
  assert (Exz : before_expression z x = true).
  { rewrite before_iff. right. injection Hz as -> ->. split; [done|]. unfold String.leb. by rewrite compare_refl. }
  pose proof (before_antisym x y Exy (before_trans _ _ _ Eyz Exz)) as E. injection E as _ E. congruence.
Qed.

Lemma normalize_group_perm sha256 f l k e : l ≡ₚ k -> normalize_group sha256 f l = Ok e -> normalize_group sha256 f k = Ok e.
Proof.
  intros Hp. unfold normalize_group. rewrite !if_err_ok. intros [Hd E].
  assert (Heq : sort_func before_expression l = sort_func before_expression k).
  { pose proof (sort_func_sorted before_expression before_total before_trans l) as Hl.
    pose proof (sort_func_sorted before_expression before_total before_trans k) as Hk.
    assert (Hlk : sort_func before_expression l ≡ₚ sort_func before_expression k) by (by rewrite !sort_func_perm).
    eapply StronglySorted_unique_strong; [|exact Hl|exact Hk|exact Hlk].
    intros x y Hx Hy H1 H2. pose proof (no_duplicate_keys _ Hl _ Hd) as Hnd. rewrite <- Hlk in Hy.
    apply list_elem_of_lookup in Hx as [i Hi], Hy as [j Hj].
    assert (i = j); [|congruence]. eapply NoDup_lookup; [exact Hnd|..].
    - rewrite list_lookup_fmap, Hi. done.
    - rewrite list_lookup_fmap, Hj. simpl. f_equal. symmetry. by apply before_antisym. }
  by rewrite <- Heq.
Qed.

(** ** Equivalent filters and aggregates *)

(** Filters equal up to the letter case of their fields (where fields are case
    insensitive) and the order of the members of their groups, at any depth. *)
Inductive same_filter (ci : bool) : Filter -> Filter -> Prop :=
| same_predicate r o vs f f' es es' :
    canonicalIdentifier f ci = canonicalIdentifier f' ci ->
    same_filter ci (MkFilter r "predicate" f o vs es) (MkFilter r "predicate" f' o vs es')
| same_group r k f o vs es es1 es' :
    k <> "predicate" -> Forall2 (same_filter ci) es es1 -> Permutation es1 es' ->
    same_filter ci (MkFilter r k f o vs es) (MkFilter r k f o vs es').

Lemma results_iff {A B} (f : A -> result B) l ys : results f l = Ok ys <-> Forall2 (fun x y => f x = Ok y) l ys.
Proof.
  revert ys. induction l as [|x l IH]; intros ys; cbn [results].
  - split; [intros [= <-]; constructor|]. by inversion 1.
  - rewrite rbind_ok. setoid_rewrite rbind_ok. split.
    + intros (y & Hy & zs & Hz & [= <-]). constructor; [done|]. by apply IH.
    + intros H. inversion H as [|? y ? zs Hy Hz]; subst. exists y. split; [done|]. exists zs. split; [by apply IH|done].
Qed.

Lemma clone_raw_idem v : clone_raw (clone_raw v) = clone_raw v.
Proof. by destruct v as [[]|]. Qed.

Lemma cloneTypedValues_idem vs : cloneTypedValues (cloneTypedValues vs) = cloneTypedValues vs.
Proof.
  destruct vs as [vs|]; [|done]. cbn [cloneTypedValues fmap option_fmap option_map]. f_equal. rewrite map_map.
  apply map_ext. intros v. cbn [tv_type tv_value]. by rewrite clone_raw_idem.
Qed.

Lemma canonicalIdentifier_idem v ci : canonicalIdentifier (canonicalIdentifier v ci) ci = canonicalIdentifier v ci.
Proof. destruct ci; [apply to_lower_idem|done]. Qed.

Lemma Forall2_perm_results {A B} (f : A -> result B) l l' ys :
  Permutation l l' -> Forall2 (fun x y => f x = Ok y) l ys ->
  exists ys', Permutation ys ys' /\ Forall2 (fun x y => f x = Ok y) l' ys'.
Proof. intros Hp Hf. by apply (Permutation_Forall2 Hp). Qed.

Section Canonical.
Context (sha256 : string -> string).
Notation node := (normalizeAggregateFilterNode sha256).

Lemma node_predicate ci r f o vs es : node ci (MkFilter r "predicate" f o vs es) =
  let result := with_field (MkFilter r "predicate" f o vs es) (canonicalIdentifier f ci) in
  let? (shapeKey, valueKey) := aggregatePredicateDigests sha256 result in
  Ok {| ne_filter := result; ne_shapeKey := shapeKey; ne_valueKey := valueKey |}.
Proof. done. Qed.

Lemma node_group ci r k f o vs es : k <> "predicate" -> node ci (MkFilter r k f o vs es) =
  let? expressions := results (node ci) es in normalize_group sha256 (MkFilter r k f o vs []) expressions.
Proof. intros Hk. cbn [normalizeAggregateFilterNode f_kind f_expressions]. apply String.eqb_neq in Hk. by rewrite Hk. Qed.

Lemma results_same ci es es1 :
  Forall (fun f => forall g, same_filter ci f g -> forall e, node ci f = Ok e <-> node ci g = Ok e) es ->
  Forall2 (same_filter ci) es es1 -> forall ys, results (node ci) es = Ok ys <-> results (node ci) es1 = Ok ys.
Proof.
  intros Hall Hs. induction Hs as [|f g es es1 Hfg Hs IH]; intros ys; [done|]. inversion Hall as [|? ? Hf Hall']; subst.
  rewrite !results_iff. split; intros H; inversion H as [|? y ? zs Hy Hz]; subst; constructor.
  - by apply (Hf g Hfg).
  - apply results_iff, IH, results_iff; done.
  - by apply (Hf g Hfg).
  - apply results_iff, IH, results_iff; done.
Qed.

Lemma node_same ci f : forall g, same_filter ci f g -> forall e, node ci f = Ok e <-> node ci g = Ok e.
Proof.
  induction f as [r k fl o vs es IH] using Filter_ind'. intros g Hs e. inversion Hs as [|? ? ? ? ? ? es1 es' Hk Hf Hp]; subst.
  - rewrite !node_predicate. unfold with_field. cbn [f_representation f_kind f_operator f_values].
    match goal with H : canonicalIdentifier _ _ = _ |- _ => by rewrite H end.
  - rewrite !node_group, !rbind_ok by done. setoid_rewrite (results_same ci es es1 IH Hf). split.
    + intros (ys & Hy & Hg). apply results_iff in Hy. destruct (Forall2_perm_results _ _ _ _ Hp Hy) as (ys' & Hperm & Hy').
      exists ys'. split; [by apply results_iff|]. by eapply normalize_group_perm.
    + intros (ys & Hy & Hg). apply results_iff in Hy.
      destruct (Forall2_perm_results _ _ _ _ (Permutation_sym Hp) Hy) as (ys' & Hperm & Hy').
      exists ys'. split; [by apply results_iff|]. by eapply normalize_group_perm.
Qed.

Lemma node_clone ci f : node ci (clone_filter f) = node ci f.
Proof.
  induction f as [r k fl o vs es IH] using Filter_ind'. cbn [clone_filter f_representation f_kind f_field f_operator f_values f_expressions].
  destruct (String.eqb_spec k "predicate") as [->|Hk].
  - rewrite !node_predicate. unfold with_field. cbn [f_representation f_kind f_operator f_values]. by rewrite cloneTypedValues_idem.
  - rewrite !node_group by done.
    assert (Hr : results (node ci) (map clone_filter es) = results (node ci) es).
    { induction IH as [|x l Hx _ IHl]; [done|]. cbn [map results]. by rewrite Hx, IHl. }
    rewrite Hr. destruct (results (node ci) es); [|done]. cbn [rbind]. unfold normalize_group, with_expressions.
    cbn [f_representation f_kind f_field f_operator f_values]. by rewrite cloneTypedValues_idem.
Qed.

Lemma predicate_digests_field f e : 
  aggregatePredicateDigests sha256 (with_field f (f_field (with_field f e))) = aggregatePredicateDigests sha256 (with_field f e).
Proof. done. Qed.

(** Normalizing a normalized filter changes nothing. *)
Lemma node_idem ci f e : node ci f = Ok e -> node ci (ne_filter e) = Ok e.
Proof.
  revert e. induction f as [r k fl o vs es IH] using Filter_ind'. intros e He.
  destruct (String.eqb_spec k "predicate") as [->|Hk].
  - rewrite node_predicate in He. apply rbind_ok in He as ([s v] & Hd & [= <-]). cbn [ne_filter].
    unfold with_field at 1. cbn [f_representation f_kind f_operator f_values]. rewrite node_predicate.
    unfold with_field in *. cbn [f_representation f_kind f_operator f_values] in *.
    by rewrite cloneTypedValues_idem, canonicalIdentifier_idem, Hd.
  - rewrite node_group in He by done. apply rbind_ok in He as (ys & Hy & Hg).
    unfold normalize_group in Hg. apply if_err_ok in Hg as [Hd [= <-]]. cbn [ne_filter]. unfold with_expressions at 1.
    cbn [f_representation f_kind f_field f_operator f_values]. rewrite node_group by done.
    set (sorted := sort_func before_expression ys) in *.
    assert (Hr : results (node ci) (map ne_filter sorted) = Ok sorted).
    { apply results_iff. apply results_iff in Hy.
      assert (Hall : Forall (fun y => node ci (ne_filter y) = Ok y) ys).
      { clear Hd sorted. induction Hy as [|x y l l' Hx Hl IHl]; [constructor|]. inversion IH; subst. constructor; auto. }
      assert (Hsorted : Forall (fun y => node ci (ne_filter y) = Ok y) sorted) by (unfold sorted; by rewrite sort_func_perm).
      clear -Hsorted. induction Hsorted; simpl; constructor; done. }
    rewrite Hr. cbn [rbind]. unfold normalize_group. cbn [f_kind f_operator f_values].
    rewrite (sort_func_id before_expression sorted) by apply (sort_func_sorted _ before_total before_trans).
    rewrite Hd. unfold with_expressions. cbn [f_representation f_kind f_field f_operator f_values].
    by rewrite cloneTypedValues_idem.
Qed.
End Canonical.

(** ** Names and targets *)

(** What stands as a dimension: any output of another kind. *)
Definition is_plain (o : AggregateOutput) : bool :=
  negb (is_kind "measure" o) && negb (is_kind "numeric_bucket" o) && negb (is_kind "time_bucket" o).

Definition canonical_name (o : AggregateOutput) : string := if is_plain o then ao_field o else ao_alias o.

Definition names_after (ps : list AggregateOutput) (st : names_state) : names_state := {|
  ns_outputNames := (rev (map canonical_name ps) ++ ns_outputNames st)%list;
  ns_dimensions := (rev (map (fun o => (ao_field o, ao_representation o)) (List.filter is_plain ps)) ++ ns_dimensions st)%list;
  ns_measures := (rev (map ao_alias (List.filter (is_kind "measure") ps)) ++ ns_measures st)%list;
  ns_timeBuckets := (rev (map ao_alias (List.filter (is_kind "time_bucket") ps)) ++ ns_timeBuckets st)%list;
  ns_numericBuckets := (rev (map ao_alias (List.filter (is_kind "numeric_bucket") ps)) ++ ns_numericBuckets st)%list;
  ns_timeBucketFields := (rev (bucket_fields ps) ++ ns_timeBucketFields st)%list |}.

Lemma kinds_disjoint o k k' : is_kind k o = true -> k <> k' -> is_kind k' o = false.
Proof. unfold is_kind. rewrite String.eqb_eq, String.eqb_neq. congruence. Qed.

Lemma name_step_iff o st st' :
  NoDup (ns_outputNames st) -> NoDup (ns_timeBucketFields st) ->
  name_step o st = Ok st' <->
  NoDup (canonical_name o :: ns_outputNames st) /\ NoDup (rev (bucket_fields [o]) ++ ns_timeBucketFields st)%list /\
  st' = names_after [o] st.
Proof.
  intros Hn Hf. unfold name_step, canonical_name, names_after, bucket_fields, is_plain. cbn [List.filter map rev app].
  rewrite NoDup_cons, <- contains_false_elem.
  destruct (is_kind "measure" o) eqn:E1.
  { rewrite (kinds_disjoint o _ "numeric_bucket" E1), (kinds_disjoint o _ "time_bucket" E1) by done. cbn [negb andb map rev app rbind].
    rewrite if_err_ok. unfold canonical_name, is_plain. rewrite E1. cbn [negb andb]. naive_solver. }
  destruct (is_kind "numeric_bucket" o) eqn:E2.
  { rewrite (kinds_disjoint o _ "time_bucket" E2) by done. cbn [negb andb map rev app rbind].
    rewrite if_err_ok. unfold canonical_name, is_plain. rewrite E1, E2. cbn [negb andb]. naive_solver. }
  destruct (is_kind "time_bucket" o) eqn:E3.
  { cbn [negb andb map rev app]. destruct (contains (ns_timeBucketFields st) (ao_field o)) eqn:Ec; cbn [rbind].
    - split; [done|]. intros (_ & H & _). apply NoDup_cons in H as [H _]. apply contains_false_elem in H. congruence.
    - rewrite if_err_ok, NoDup_cons, <- (contains_false_elem (ns_timeBucketFields st)). rewrite Ec.
      unfold canonical_name, is_plain. rewrite E1, E2, E3. cbn [negb andb]. naive_solver. }
  cbn [negb andb map rev app rbind]. rewrite if_err_ok. unfold canonical_name, is_plain. rewrite E1, E2, E3. cbn [negb andb]. naive_solver.
Qed.

Lemma names_after_app ps qs st : names_after qs (names_after ps st) = names_after (ps ++ qs) st.
Proof.
  unfold names_after, bucket_fields. cbn [ns_outputNames ns_dimensions ns_measures ns_timeBuckets ns_numericBuckets ns_timeBucketFields].
  by rewrite !List.filter_app, !map_app, !rev_app_distr, <- !app_assoc.
Qed.

Lemma name_loop_iff ps : forall i st st',
  NoDup (ns_outputNames st) -> NoDup (ns_timeBucketFields st) ->
  iter_from (fun _ output st => name_step output st) i ps st = Ok st' <->
  NoDup (rev (map canonical_name ps) ++ ns_outputNames st)%list /\
  NoDup (rev (bucket_fields ps) ++ ns_timeBucketFields st)%list /\ st' = names_after ps st.
Proof.
  induction ps as [|o ps IH]; intros i st st' Hn Hf.
  - cbn [iter_from]. destruct st; cbn. naive_solver.
  - cbn [iter_from]. rewrite rbind_ok.
    assert (H1 : (rev (map canonical_name (o :: ps)) ++ ns_outputNames st)%list =
                 (rev (map canonical_name ps) ++ ns_outputNames (names_after [o] st))%list)
      by (cbn [map rev names_after ns_outputNames app]; by rewrite <- app_assoc).
    assert (H2 : (rev (bucket_fields (o :: ps)) ++ ns_timeBucketFields st)%list =
                 (rev (bucket_fields ps) ++ ns_timeBucketFields (names_after [o] st))%list).
    { cbn [names_after ns_timeBucketFields]. change (o :: ps) with ([o] ++ ps)%list. unfold bucket_fields.
      by rewrite List.filter_app, map_app, rev_app_distr, <- app_assoc. }
    rewrite H1, H2. split.
    + intros (s & Hs & Hr). apply name_step_iff in Hs as (Ho & Hb & ->); [|done..].
      apply IH in Hr as (Hps & Hbs & ->); [|done..]. split_and!; try done. apply (names_after_app [o] ps).
    + intros (Hps & Hbs & ->). exists (names_after [o] st).
      assert (Ho : NoDup (ns_outputNames (names_after [o] st))) by (by apply NoDup_app in Hps as (_ & _ & ?)).
      assert (Hb : NoDup (ns_timeBucketFields (names_after [o] st))) by (by apply NoDup_app in Hbs as (_ & _ & ?)).
      split; [by apply name_step_iff|]. apply IH; [done..|]. split_and!; try done. symmetry. apply (names_after_app [o] ps).
Qed.

(** The projected output that a canonical order term names. *)
Definition targets (projection : list AggregateOutput) (order : AggregateSort) : Prop :=
  if String.eqb (as_kind order) "dimension" then
    exists o, In o projection /\ is_plain o = true /\ ao_field o = as_field order /\
              ao_representation o = as_representation order
  else if String.eqb (as_kind order) "measure" then
    exists o, In o projection /\ ao_kind o = "measure" /\ ao_alias o = as_alias order
  else if String.eqb (as_kind order) "numeric_bucket" then
    exists o, In o projection /\ ao_kind o = "numeric_bucket" /\ ao_alias o = as_alias order
  else exists o, In o projection /\ ao_kind o = "time_bucket" /\ ao_alias o = as_alias order.

Definition target_name (order : AggregateSort) : string :=
  if String.eqb (as_kind order) "dimension" then "dimension:" +:+ as_field order
  else if String.eqb (as_kind order) "measure" then "measure:" +:+ as_alias order
  else if String.eqb (as_kind order) "numeric_bucket" then "numeric_bucket:" +:+ as_alias order
  else "time_bucket:" +:+ as_alias order.

Lemma find_first {A} (p : A -> bool) l x : List.find p l = Some x -> In x l /\ p x = true.
Proof. apply find_some. Qed.

Lemma dimension_lookup ps field representation : NoDup (map canonical_name ps) ->
  lookup_dimension (rev (map (fun o => (ao_field o, ao_representation o)) (List.filter is_plain ps)) ++ []) field = Some representation <->
  exists o, In o ps /\ is_plain o = true /\ ao_field o = field /\ ao_representation o = representation.
Proof.
  intros Hnd. unfold lookup_dimension. rewrite app_nil_r.
  set (l := rev _). assert (Hl : forall d, In d l <-> exists o, In o ps /\ is_plain o = true /\ d = (ao_field o, ao_representation o)).
  { intros d. unfold l. rewrite <- in_rev, in_map_iff. setoid_rewrite filter_In. naive_solver. }
  split.
  - destruct (List.find _ l) as [d|] eqn:E; [|done]. intros [= <-]. apply find_some in E as [Hin Hd].
    apply Hl in Hin as (o & Hin & Hp & ->). apply String.eqb_eq in Hd. exists o. by split_and!.
  - intros (o & Hin & Hp & <- & <-). destruct (List.find _ l) as [d|] eqn:E.
    + apply find_some in E as [Hd He]. apply Hl in Hd as (o' & Hin' & Hp' & ->). apply String.eqb_eq in He. simpl in He.
      simpl. f_equal. assert (o = o'); [|by subst].
      apply list_elem_of_In, list_elem_of_lookup in Hin as [i Hi].
      apply list_elem_of_In, list_elem_of_lookup in Hin' as [j Hj].
      assert (i = j); [|congruence]. eapply NoDup_lookup; [exact Hnd|..].
      * rewrite list_lookup_fmap, Hi. done.
      * rewrite list_lookup_fmap, Hj. simpl. unfold canonical_name. by rewrite Hp, Hp', He.
    + exfalso. eapply find_none in E; [|apply Hl; by exists o]. simpl in E. by rewrite String.eqb_refl in E.
Qed.

Lemma alias_contains kind ps alias :
  contains (rev (map ao_alias (List.filter (is_kind kind) ps)) ++ []) alias = true <->
  exists o, In o ps /\ ao_kind o = kind /\ ao_alias o = alias.
Proof.
  rewrite app_nil_r, contains_In, <- in_rev, in_map_iff. setoid_rewrite filter_In. unfold is_kind.
  setoid_rewrite String.eqb_eq. naive_solver.
Qed.

Lemma order_target_iff ps i o t : NoDup (map canonical_name ps) ->
  order_target (names_after ps no_names) i o = Ok t <-> targets ps o /\ t = target_name o.
Proof.
  intros Hnd. unfold order_target, targets, target_name, names_after, no_names.
  cbn [ns_outputNames ns_dimensions ns_measures ns_timeBuckets ns_numericBuckets ns_timeBucketFields].
  destruct (String.eqb (as_kind o) "dimension").
  { rewrite if_err_ok, negb_false_iff, bool_decide_eq_true, dimension_lookup by done. naive_solver. }
  destruct (String.eqb (as_kind o) "measure"); [rewrite if_err_ok, negb_false_iff, alias_contains; naive_solver|].
  destruct (String.eqb (as_kind o) "numeric_bucket"); rewrite if_err_ok, negb_false_iff, alias_contains; naive_solver.
Qed.

Lemma target_loop_iff ps os : NoDup (map canonical_name ps) -> forall i seen seen', NoDup seen ->
  iter_from (target_step (names_after ps no_names)) i os seen = Ok seen' <->
  Forall (targets ps) os /\ NoDup (rev (map target_name os) ++ seen)%list /\ seen' = (rev (map target_name os) ++ seen)%list.
Proof.
  intros Hnd. induction os as [|o os IH]; intros i seen seen' Hs.
  - cbn [iter_from map rev app]. split; [intros [= <-]; split_and!; [constructor|done|done]|by intros (_ & _ & ->)].
  - cbn [iter_from map rev]. rewrite rbind_ok, Forall_cons, <- app_assoc. cbn [app]. unfold target_step at 1.
    setoid_rewrite rbind_ok. setoid_rewrite if_err_ok. setoid_rewrite contains_false_elem. split.
    + intros (s & (t & Ht & Hc & [= <-]) & Hr). apply order_target_iff in Ht as [Ht ->]; [|done].
      apply IH in Hr as (Hos & Hn & ->); [|by constructor]. by split_and!.
    + intros ((Ho & Hos) & Hn & ->). exists (target_name o :: seen).
      assert (Hn' : NoDup (target_name o :: seen)) by (by apply NoDup_app in Hn as (_ & _ & ?)). split.
      * exists (target_name o). split; [by apply order_target_iff|]. apply NoDup_cons in Hn' as [? _]. done.
      * by apply IH.
Qed.

(** ** The theorems *)

(** The normal form of an aggregate whose filter normalizes to [filter]. *)
Definition canonical_aggregate (spec : NormalizedAggregateSpec) (filter : option Filter) (m : IdentifierSemantics)
  : NormalizedAggregateSpec := {|
  a_mode := a_mode spec;
  a_source := {| r_schema := canonicalIdentifier (r_schema (a_source spec)) (CaseInsensitiveSchemas m);
                 r_name := canonicalIdentifier (r_name (a_source spec)) (CaseInsensitiveObjects m) |};
  a_projection := map (canonical_output m) (a_projection spec); a_filter := filter;
  a_order_by := map (canonical_order m) (a_order_by spec); a_limit := a_limit spec |}.

Definition filter_normalizes (sha256 : string -> string) (m : IdentifierSemantics) (f g : option Filter) : Prop :=
  match f with
  | None => g = None
  | Some f => exists e, normalizeAggregateFilterNode sha256 (CaseInsensitiveFields m) f = Ok e /\ g = Some (ne_filter e)
  end.

Lemma NormalizeAggregateIdentifiers_iff sha256 q m v :
  NormalizeAggregateIdentifiers sha256 q m = Ok v <->
  va_valid q = true /\
  exists filter,
    let c := canonical_aggregate (va_spec q) filter m in
    NoDup (map canonical_name (a_projection c)) /\ NoDup (bucket_fields (a_projection c)) /\
    filter_normalizes sha256 m (a_filter (va_spec q)) filter /\
    Forall (targets (a_projection c)) (a_order_by c) /\ NoDup (map target_name (a_order_by c)) /\
    v = {| va_spec := c; va_stats := va_stats q; va_valid := true |}.
Proof.
  unfold NormalizeAggregateIdentifiers, iter. rewrite if_err_ok, negb_false_iff, rbind_ok.
  unfold cloneNormalizedAggregate. cbn [a_mode a_source a_projection a_filter a_order_by a_limit].
  unfold canonical_aggregate. cbn [a_mode a_source a_projection a_filter a_order_by a_limit].
  assert (Hf : forall g, match cloneFilter (a_filter (va_spec q)) with
                         | None => Ok None
                         | Some f => let? f := normalizeAggregateFilter sha256 f (CaseInsensitiveFields m) in Ok (Some f)
                         end = Ok g <-> filter_normalizes sha256 m (a_filter (va_spec q)) g).
  { intros g. unfold filter_normalizes. destruct (a_filter (va_spec q)) as [f|]; simpl; [|naive_solver].
    rewrite rbind_ok. unfold normalizeAggregateFilter. rewrite node_clone. setoid_rewrite rbind_ok. naive_solver. }
  setoid_rewrite rbind_ok. setoid_rewrite Hf. setoid_rewrite rbind_ok. clear Hf.
  setoid_rewrite name_loop_iff; [|constructor..]. cbn [no_names ns_outputNames ns_timeBucketFields].
  setoid_rewrite NoDup_rev_app. split.
  - intros (Hv & st & (Hn & Hb & ->) & g & Hg & seen & Ho & [= <-]). apply target_loop_iff in Ho as (Ht & Hu & _); [|done|constructor].
    rewrite NoDup_rev_app in Hu. split; [done|]. exists g. by split_and!.
  - intros (Hv & g & Hn & Hb & Hg & Ht & Hu & ->). split; [done|]. eexists. split; [split_and!; done|]. exists g. split; [done|].
    eexists. split; [|done]. apply target_loop_iff; [done|constructor|]. split_and!; [done|by rewrite NoDup_rev_app|done].
Qed.

(** C30: Identifier normalization of an aggregate is exact: with its identifiers
    brought to their canonical case, it is accepted just when no two outputs share
    a name, no field is bucketed twice, the filter has a canonical form, every
    order term names a projected output of its kind (a dimension with the same
    representation) and no two terms name the same one; the result is then the
    aggregate with canonical identifiers and the canonical filter. *)
Theorem NormalizeAggregateIdentifiers_exact sha256 q m v :
  NormalizeAggregateIdentifiers sha256 q m = Ok v <->
  va_valid q = true /\
  exists filter,
    let c := canonical_aggregate (va_spec q) filter m in
    NoDup (map canonical_name (a_projection c)) /\ NoDup (bucket_fields (a_projection c)) /\
    filter_normalizes sha256 m (a_filter (va_spec q)) filter /\
    Forall (targets (a_projection c)) (a_order_by c) /\ NoDup (map target_name (a_order_by c)) /\
    v = {| va_spec := c; va_stats := va_stats q; va_valid := true |}.
Proof. apply NormalizeAggregateIdentifiers_iff. Qed.

(** Requests that differ only in letter case, where the adapter ignores it, and
    in the order of the members of their filter groups. *)
Record same_aggregate (m : IdentifierSemantics) (p q : ValidatedAggregate) : Prop := {
  sa_valid : va_valid p = va_valid q;
  sa_stats : va_stats p = va_stats q;
  sa_mode : a_mode (va_spec p) = a_mode (va_spec q);
  sa_limit : a_limit (va_spec p) = a_limit (va_spec q);
  sa_schema : canonicalIdentifier (r_schema (a_source (va_spec p))) (CaseInsensitiveSchemas m) =
              canonicalIdentifier (r_schema (a_source (va_spec q))) (CaseInsensitiveSchemas m);
  sa_name : canonicalIdentifier (r_name (a_source (va_spec p))) (CaseInsensitiveObjects m) =
            canonicalIdentifier (r_name (a_source (va_spec q))) (CaseInsensitiveObjects m);
  sa_projection : map (canonical_output m) (a_projection (va_spec p)) = map (canonical_output m) (a_projection (va_spec q));
  sa_orders : map (canonical_order m) (a_order_by (va_spec p)) = map (canonical_order m) (a_order_by (va_spec q));
  sa_filter : option_Forall2 (same_filter (CaseInsensitiveFields m)) (a_filter (va_spec p)) (a_filter (va_spec q));
}.

(** C31: Equivalent requests have the same normal form: letter case that the
    adapter ignores and the order in which the members of a filter group were
    written, at any depth, make no difference to it, whatever digest is used. *)
Theorem equivalent_aggregates_normalize_alike sha256 m p q v : same_aggregate m p q ->
  NormalizeAggregateIdentifiers sha256 p m = Ok v <-> NormalizeAggregateIdentifiers sha256 q m = Ok v.
Proof.
  intros [Hv Hs Hm Hl Hsc Hn Hp Ho Hf]. rewrite !NormalizeAggregateIdentifiers_iff. unfold canonical_aggregate.
  cbn [a_mode a_source a_projection a_filter a_order_by a_limit]. rewrite Hv, Hs, Hm, Hl, Hsc, Hn, Hp, Ho.
  assert (Hff : forall g, filter_normalizes sha256 m (a_filter (va_spec p)) g <-> filter_normalizes sha256 m (a_filter (va_spec q)) g).
  { intros g. unfold filter_normalizes. inversion Hf as [f f' Hff|]; [|done]. by setoid_rewrite (node_same sha256 _ f f' Hff). }
  by setoid_rewrite Hff.
Qed.

Lemma canonical_output_idem m o : canonical_output m (canonical_output m o) = canonical_output m o.
Proof. unfold canonical_output. cbn. by rewrite canonicalIdentifier_idem, to_lower_idem. Qed.

Lemma canonical_order_idem m o : canonical_order m (canonical_order m o) = canonical_order m o.
Proof.
  unfold canonical_order. destruct (String.eqb (as_kind o) "dimension") eqn:E; cbn [as_kind]; rewrite E;
    cbn [as_field as_alias as_kind as_representation as_direction]; by rewrite ?canonicalIdentifier_idem.
Qed.

(** Normalization is idempotent: a normalized aggregate is its own normal
    form, its filter groups in their canonical order included. *)
Theorem NormalizeAggregateIdentifiers_idempotent sha256 m q v :
  NormalizeAggregateIdentifiers sha256 q m = Ok v -> NormalizeAggregateIdentifiers sha256 v m = Ok v.
Proof.
  rewrite !NormalizeAggregateIdentifiers_iff. intros (_ & f & Hn & Hb & Hf & Ht & Hu & ->). split; [done|]. exists f.
  unfold canonical_aggregate in *. cbn [va_spec va_stats a_mode a_source a_projection a_filter a_order_by a_limit r_schema r_name] in *.
  assert (Ho : forall l, map (canonical_output m) (map (canonical_output m) l) = map (canonical_output m) l)
    by (intros l; rewrite map_map; apply map_ext, canonical_output_idem).
  assert (Hr : forall l, map (canonical_order m) (map (canonical_order m) l) = map (canonical_order m) l)
    by (intros l; rewrite map_map; apply map_ext, canonical_order_idem).
  rewrite Ho, Hr, !canonicalIdentifier_idem. split_and!; try done.
  unfold filter_normalizes in *. destruct (a_filter (va_spec q)) as [g|]; [|by subst].
  destruct Hf as (e & He & ->). exists e. split; [|done]. by eapply node_idem.
Qed.

Definition shuffled_aggregate : AggregateSpec := {|
  g_mode := "grouped"; g_source := {| r_schema := "shop"; r_name := "ORDERS" |};
  g_projection := [example_dimension "state"; example_measure "sum" "Total" "revenue"; example_measure "count_all" EmptyString "N"];
  g_filter := (fun f => with_expressions f (rev (f_expressions f))) <$> q_filter example_spec;
  g_order_by := Some [{| as_representation := EmptyString; as_kind := "measure"; as_field := EmptyString; as_alias := "REVENUE"; as_direction := "desc" |}];
  g_limit := Some 10 |}.

Lemma equivalent_aggregates_normalize_alike_witness :
  is_ok (NormalizeAggregateIdentifiers srev (aggregate_stored example_aggregate) insensitive) = true /\
  (NormalizeAggregateIdentifiers srev (aggregate_stored example_aggregate) insensitive
     = NormalizeAggregateIdentifiers srev (aggregate_stored shuffled_aggregate) insensitive).
Proof.
  split; [vm_compute; reflexivity|].
  destruct (NormalizeAggregateIdentifiers srev (aggregate_stored example_aggregate) insensitive) as [v|e] eqn:E; [|discriminate E].
  symmetry. apply (equivalent_aggregates_normalize_alike srev insensitive (aggregate_stored example_aggregate)); [|exact E].
  constructor; try (vm_compute; reflexivity). constructor.
  eapply same_group; [discriminate| |apply (Permutation_rev [_; _])].
  constructor; [|constructor; [|constructor]]; constructor; reflexivity.
Defined.

Lemma NormalizeAggregateIdentifiers_idempotent_witness :
  match NormalizeAggregateIdentifiers srev (aggregate_stored example_aggregate) insensitive with
  | Ok v => NormalizeAggregateIdentifiers srev v insensitive = Ok v
  | Err _ => False
  end.
Proof.
  destruct (NormalizeAggregateIdentifiers srev (aggregate_stored example_aggregate) insensitive) as [v|e] eqn:E; [|discriminate E].
  exact (NormalizeAggregateIdentifiers_idempotent srev insensitive _ v E).
Defined.
