(* ===== verification/NumericBucket.v ===== *)
(** Numeric buckets (internal/queryspec/numeric_bucket.go and
    internal/adapters/mysql8/numeric_bucket.go): the canonical text of decimal
    boundaries, their exact SQL types, the count of their bind parameters and the
    check of returned bucket indexes. *)
From stdpp Require Import sorting.
From S2P Require Import Prelude Domain GoJson Number Portable Values QuerySpec Rows Aggregate AggregateNormal.
Local Open Scope string_scope.
Local Open Scope Z_scope.

Definition NumericBucketMaxBoundaries : Z := 64.
Definition NumericBucketMaxBoundaryBytes : Z := 128.

(** ** Decimals as exact rationals *)

(** [strings.Cut(text, sep)] without the flag. *)
Fixpoint cut (sep : ascii) (s : string) : string * string :=
  match s with
  | EmptyString => (EmptyString, EmptyString)
  | String c s' => if Ascii.eqb c sep then (EmptyString, s') else let '(a, b) := cut sep s' in (String c a, b)
  end.

Definition is_negative (text : string) : bool := starts_with (Ascii.eqb "-") text.

(** [big.Rat] of a decimal literal: a numerator over a power of ten. *)
Record rat := { numerator : Z; denominator : Z }.

Definition rat_of (text : string) : rat :=
  let '(integer, fraction) := cut "." (optional_minus text) in
  let n := digits_value (integer +:+ fraction) in
  {| numerator := if is_negative text then - n else n; denominator := 10 ^ slen fraction |}.

Definition rat_lt (a b : rat) : bool := numerator a * denominator b <? numerator b * denominator a.
Definition rat_eq (a b : rat) : Prop := numerator a * denominator b = numerator b * denominator a.

Definition has_dot (text : string) : bool := negb (sforall (fun c => negb (Ascii.eqb c ".")) text).

Definition canonical_boundary (text : string) : string :=
  let trimmed :=
    if has_dot text then trim_right_by (Ascii.eqb ".") (trim_right_by (Ascii.eqb "0") text) else text in
  if numerator (rat_of text) =? 0 then "0" else trimmed.

Fixpoint normalize_boundaries (previous : option rat) (boundaries : list string) : result (list string) :=
  match boundaries with
  | [] => Ok []
  | text :: boundaries' =>
      if? (NumericBucketMaxBoundaryBytes <? slen text) || negb (decimalPattern text)
      return ErrorString "numeric bucket boundary requires bounded fixed-point decimal text" then
      let value := rat_of text in
      if? match previous with Some p => negb (rat_lt p value) | None => false end
      return ErrorString "numeric bucket boundaries must be strictly increasing" then
      let? rest := normalize_boundaries (Some value) boundaries' in
      Ok (canonical_boundary text :: rest)
  end.

Definition NormalizeNumericBoundaries (boundaries : list string) : result (list string) :=
  if? (len boundaries <? 1) || (NumericBucketMaxBoundaries <? len boundaries)
  return ErrorString "numeric bucket requires 1 to 64 boundaries" then
  normalize_boundaries None boundaries.

Example boundaries_example :
  NormalizeNumericBoundaries ["-1.50"; "-0.0"; "0.10"; "100"; "100.01000"] = Ok ["-1.5"; "0"; "0.1"; "100"; "100.01"] /\
  is_ok (NormalizeNumericBoundaries ["1"; "1.0"]) = false /\ is_ok (NormalizeNumericBoundaries ["01"]) = false.
Proof. vm_compute. done. Qed.

(** ** Parameters *)

Definition AggregateUsesNumericBucket (spec : NormalizedAggregateSpec) : bool :=
  existsb (is_kind "numeric_bucket") (a_projection spec).

(** How often the boundaries of a bucket are bound: in the projection, in GROUP
    BY and in each order term. *)
Definition bucket_repeats (orders : list AggregateSort) (alias : string) : Z :=
  2 + count_if (fun order => String.eqb (as_kind order) "numeric_bucket" && equal_fold (as_alias order) alias) orders.

(** [counts] gives the number of boundaries by lower-case alias. *)
Definition parameters_step (orders : list AggregateSort) (counts : string -> Z) (maximum : Z) (output : AggregateOutput)
    (total : Z) : result Z :=
  if negb (is_kind "numeric_bucket" output) then Ok total
  else
    let count := counts (to_lower (ao_alias output)) in
    if? (count <? 1) || (NumericBucketMaxBoundaries <? count)
    return ErrorString "numeric bucket boundaries are missing" then
    let repeats := bucket_repeats orders (ao_alias output) in
    if? Z.quot (maximum - total) repeats <? count
    return ErrorString "aggregate exceeds the effective parameter limit" then
    Ok (total + count * repeats).

Definition NumericBucketParameters (spec : NormalizedAggregateSpec) (counts : string -> Z) (base maximum : Z) : result Z :=
  if? maximum <? base return ErrorString "aggregate exceeds the effective parameter limit" then
  iter (fun _ output total => parameters_step (a_order_by spec) counts maximum output total) (a_projection spec) base.

(** ** The adapter *)

Definition numericBucketSourceType (dataType : string) : bool :=
  contains ["TINYINT"; "SMALLINT"; "MEDIUMINT"; "INT"; "INTEGER"; "BIGINT"; "DECIMAL"; "NUMERIC"]
    (to_upper (trim_space dataType)).

(** The precision and scale of a boundary, and the cast to its DECIMAL type. *)
Definition boundary_scale (boundary : string) : Z := slen (cut "." (optional_minus boundary)).2.
Definition boundary_precision (boundary : string) : Z :=
  Z.max 1 (slen (trim_left_by (Ascii.eqb "0") (cut "." (optional_minus boundary)).1) + boundary_scale boundary).

Definition numericBoundaryCast (boundary : string) : result string :=
  match NormalizeNumericBoundaries [boundary] with
  | Ok [canonical] =>
      if? negb (String.eqb canonical boundary) return invalid_error then
      if? (65 <? boundary_precision boundary) || (30 <? boundary_scale boundary) return invalid_error then
      Ok ("CAST(? AS DECIMAL(" +:+ itoa (boundary_precision boundary) +:+ "," +:+ itoa (boundary_scale boundary) +:+ "))")
  | _ => Err invalid_error
  end.

(** [strconv.Atoi] of a text short enough not to overflow. *)
Definition atoi (text : string) : option Z :=
  let unsigned s := if nonempty s && sforall is_digit s then Some (digits_value s) else None in
  match text with
  | String "-" s => Z.opp <$> unsigned s
  | String "+" s => unsigned s
  | _ => unsigned text
  end.

(** The check of one cell of a numeric bucket. *)
Definition bucket_cell (boundaries : Z) (nullable : bool) (raw : option string) : error :=
  match raw with
  | None => if? negb nullable return upstream_error then nil_error
  | Some text =>
      if? (slen text <? 1) || (2 <? slen text) return upstream_error then
      match atoi text with
      | None => Err upstream_error
      | Some value =>
          if? (value <? 0) || (boundaries <? value) || negb (String.eqb (itoa value) text) return upstream_error then
          nil_error
      end
  end.

(** [raw] and [columns] are indexed by the position of the output; a missing
    position is an error. *)
Fixpoint validateNumericBucketRow (raw : raw_row) (projection : list AggregateOutput) (columns : list ResultColumn)
    (boundaries : string -> list string) : error :=
  match projection with
  | [] => nil_error
  | output :: projection' =>
      check?
        (if negb (is_kind "numeric_bucket" output) then nil_error
         else
           match raw, columns with
           | cell :: _, column :: _ => bucket_cell (len (boundaries (ao_alias output))) (rc_nullable column) cell
           | _, _ => Err upstream_error
           end) then
      validateNumericBucketRow (tail raw) projection' (tail columns) boundaries
  end.

Example bucket_cells :
  map (fun t => is_ok (bucket_cell 12 false (Some t))) ["0"; "7"; "12"; "13"; "07"; "+7"; "-0"; ""; "007"; "a"]
  = [true; true; true; false; false; false; false; false; false; false].
Proof. vm_compute. reflexivity. Qed.

(** ** Decimal literals *)

(** A fixed-point literal: a sign, digits without leading zeros, and perhaps a
    fraction. *)
Record decimal := { d_negative : bool; d_integer : string; d_fraction : option string }.

Definition wf_integer (i : string) : bool :=
  String.eqb i "0" || match i with String c r => is_nonzero_digit c && sforall is_digit r | EmptyString => false end.

Definition wf_decimal (d : decimal) : bool :=
  wf_integer (d_integer d) && match d_fraction d with None => true | Some f => wf_digits f end.

Definition sign_text (negative : bool) : string := if negative then "-" else EmptyString.

Definition print_decimal (d : decimal) : string :=
  sign_text (d_negative d) +:+ d_integer d +:+ print_fraction (d_fraction d).

Definition fraction_text (d : decimal) : string := default EmptyString (d_fraction d).

Definition as_number (d : decimal) : number :=
  {| n_negative := d_negative d; n_integer := d_integer d; n_fraction := d_fraction d; n_exponent := None |}.

Lemma wf_as_number d : wf_number (as_number d) = wf_decimal d.
Proof. unfold wf_number, wf_decimal, wf_integer, as_number; simpl. by rewrite andb_true_r. Qed.

Lemma print_as_number d : print_number (as_number d) = print_decimal d.
Proof. unfold print_number, print_decimal, as_number; simpl. by rewrite sapp_nil_r. Qed.

Lemma decimalPattern_spec s : decimalPattern s = true <-> exists d, wf_decimal d = true /\ s = print_decimal d.
Proof.
  unfold decimalPattern. split.
  - destruct (match_integer_part (optional_minus s)) as [r1|] eqn:H1; [|done].
    cbn [mbind option_bind]. destruct (match_fraction r1) as [r2|] eqn:H2; [|done]. simpl. destruct r2; [|done]. intros _.
    apply match_integer_part_spec in H1 as (i & E1 & Hi). apply match_fraction_spec in H2 as (f & -> & Hf).
    rewrite sapp_nil_r in E1. set (neg := match s with String "-" _ => true | _ => false end).
    exists {| d_negative := neg; d_integer := i; d_fraction := f |}.
    split; [rewrite <- wf_as_number; apply wf_number_parts; split; [exact Hi|by destruct f]|].
    unfold print_decimal; cbn [d_negative d_integer d_fraction]. rewrite <- E1. subst neg.
    destruct s as [|[[] [] [] [] [] [] [] []] s]; reflexivity.
  - intros (d & Hd & ->). rewrite <- print_as_number. rewrite <- wf_as_number in Hd. rewrite optional_minus_print by done.
    apply wf_number_parts in Hd as (Hi & Hf & He). cbn [as_number n_exponent print_exponent n_integer n_fraction] in *.
    rewrite sapp_nil_r in *.
    assert (Hs : starts_with is_digit (print_fraction (d_fraction d)) = false) by (by destruct (d_fraction d)).
    rewrite match_integer_part_print by done. cbn [mbind option_bind].
    replace (print_fraction (d_fraction d)) with (print_fraction (d_fraction d) +:+ EmptyString) by apply sapp_nil_r.
    by rewrite match_fraction_print.
Qed.

Lemma cut_none sep s : no_byte sep s -> cut sep s = (s, EmptyString).
Proof.
  unfold no_byte. induction s as [|c s IH]; [done|]. cbn [sforall cut]. rewrite andb_true_iff, negb_true_iff.
  intros [-> Hs]. by rewrite IH.
Qed.

Lemma cut_at sep a b : no_byte sep a -> cut sep (a +:+ String sep b) = (a, b).
Proof.
  unfold no_byte. induction a as [|c a IH]; rewrite ?sapp_nil_l, ?sapp_cons; cbn [sforall cut]; [by rewrite Ascii.eqb_refl|].
  rewrite andb_true_iff, negb_true_iff. intros [-> Ha]. by rewrite IH.
Qed.

Lemma digits_no_byte c s : is_digit c = false -> all_digits s = true -> no_byte c s.
Proof. intros Hc. apply sforall_impl. intros d Hd. destruct (Ascii.eqb_spec d c) as [->|]; [congruence|done]. Qed.

Lemma wf_integer_all i : wf_integer i = true -> all_digits i = true.
Proof.
  intros H. apply (wf_integer_digits (as_number {| d_negative := false; d_integer := i; d_fraction := None |})).
  rewrite wf_as_number. unfold wf_decimal. simpl. by rewrite H.
Qed.

Lemma wf_decimal_parts d : wf_decimal d = true -> wf_integer (d_integer d) = true /\ all_digits (fraction_text d) = true.
Proof.
  unfold wf_decimal, fraction_text, wf_digits. rewrite andb_true_iff. intros [Hi Hf]. split; [done|].
  destruct (d_fraction d); [|done]. by apply andb_true_iff in Hf as [_ Hf].
Qed.

Lemma integer_head i : wf_integer i = true -> exists c r, i = String c r /\ is_digit c = true.
Proof.
  intros H. pose proof (wf_integer_all i H) as Hd. destruct i as [|c r]; [done|]. simpl in Hd. apply andb_true_iff in Hd as [Hc _].
  by exists c, r.
Qed.

Lemma optional_minus_decimal d : wf_decimal d = true ->
  optional_minus (print_decimal d) = d_integer d +:+ print_fraction (d_fraction d) /\
  is_negative (print_decimal d) = d_negative d.
Proof.
  intros H. apply wf_decimal_parts in H as [Hi _]. destruct (integer_head _ Hi) as (c & r & E & Hc).
  unfold print_decimal. rewrite E. destruct (d_negative d); [done|]. cbn [sign_text]. rewrite sapp_nil_l, sapp_cons.
  destruct c as [[] [] [] [] [] [] [] []]; try done; discriminate Hc.
Qed.

Lemma cut_decimal d : wf_decimal d = true ->
  cut "." (optional_minus (print_decimal d)) = (d_integer d, fraction_text d).
Proof.
  intros H. rewrite (proj1 (optional_minus_decimal d H)). apply wf_decimal_parts in H as [Hi Hf].
  assert (Hn : no_byte "." (d_integer d)) by (by apply digits_no_byte, wf_integer_all).
  unfold fraction_text, print_fraction in *. destruct (d_fraction d) as [f|]; simpl; [by apply cut_at|].
  rewrite sapp_nil_r. by apply cut_none.
Qed.

Definition magnitude (d : decimal) : Z := digits_value (d_integer d +:+ fraction_text d).

Lemma rat_of_decimal d : wf_decimal d = true ->
  rat_of (print_decimal d) = {| numerator := signed (d_negative d) (magnitude d); denominator := 10 ^ slen (fraction_text d) |}.
Proof. intros H. unfold rat_of. rewrite cut_decimal, (proj2 (optional_minus_decimal d H)) by done. done. Qed.

(** ** Trimming on the right *)

Lemma trim_left_app p a b :
  trim_left_by p (a +:+ b) = if sforall p a then trim_left_by p b else trim_left_by p a +:+ b.
Proof.
  induction a as [|c a IH]; rewrite ?sapp_nil_l, ?sapp_cons; [done|]. cbn [sforall trim_left_by].
  destruct (p c); [|done]. apply IH.
Qed.

Lemma trim_right_app p a b :
  trim_right_by p (a +:+ b) = if sforall p b then trim_right_by p a else a +:+ trim_right_by p b.
Proof.
  unfold trim_right_by. rewrite srev_append, trim_left_app, sforall_srev. destruct (sforall p b); [done|].
  by rewrite srev_append, srev_involutive.
Qed.

Lemma trim_right_snoc p a c : trim_right_by p (a +:+ String c EmptyString) = if p c then trim_right_by p a else a +:+ String c EmptyString.
Proof.
  rewrite trim_right_app. cbn [sforall]. rewrite andb_true_r. destruct (p c) eqn:E; [done|].
  unfold trim_right_by. cbn. by rewrite E.
Qed.

Lemma string_snoc s : s = EmptyString \/ exists a c, s = a +:+ String c EmptyString.
Proof.
  induction s as [|c s [->|(a & d & ->)]]; [by left|right; by exists EmptyString, c|].
  right. exists (String c a), d. by rewrite sapp_cons.
Qed.

Lemma trim_right_zeros s : all_digits s = true ->
  let t := trim_right_by (Ascii.eqb "0") s in
  all_digits t = true /\ (t = EmptyString \/ exists a c, t = a +:+ String c EmptyString /\ is_nonzero_digit c = true) /\
  slen t <= slen s /\ digits_value s = digits_value t * 10 ^ (slen s - slen t).
Proof.
  remember (String.length s) as n eqn:Hn. revert s Hn. induction n as [|n IH]; intros s Hn Hs.
  { destruct s; [|done]. split_and!; [done|by left|done|done]. }
  destruct (string_snoc s) as [->|(a & c & ->)]; [done|]. rewrite trim_right_snoc.
  rewrite sforall_app in Hs. apply andb_true_iff in Hs as [Ha Hc]. simpl in Hc. rewrite andb_true_r in Hc.
  destruct (Ascii.eqb_spec "0" c) as [<-|Hz].
  - assert (Hl : n = String.length a).
    { assert (H1 : String.length (a +:+ "0") = S (String.length a)); [|lia].
      clear. induction a as [|c a IHa]; [done|]. rewrite sapp_cons. simpl. by rewrite IHa. }
    destruct (IH a Hl Ha) as (H1 & H2 & H3 & H4). rewrite slen_app. change (slen "0") with 1. split_and!; [done|done|lia|].
    rewrite digits_value_app, H4. change (slen "0") with 1. change (digits_value "0") with 0.
    replace (slen a + 1 - slen (trim_right_by (Ascii.eqb "0") a)) with (slen a - slen (trim_right_by (Ascii.eqb "0") a) + 1) by lia.
    rewrite Z.pow_add_r by lia. lia.
  - cbv zeta. rewrite Z.sub_diag, Z.mul_1_r. split_and!; [|right|lia|done].
    + rewrite sforall_app, Ha. simpl. by rewrite Hc.
    + exists a, c. split; [done|]. revert Hc Hz. unfold is_nonzero_digit, is_digit, in_range. rewrite !andb_true_iff, !Nat.leb_le.
      change (nat_of_ascii "0") with 48%nat. change (nat_of_ascii "1") with 49%nat. intros [H1 H2] Hz. split; [|done].
      assert (nat_of_ascii c <> 48%nat); [|lia]. intros E. apply Hz. rewrite <- (ascii_nat_embedding c), E. done.
Qed.

(** ** The canonical form *)

Definition fraction_of (t : string) : option string := match t with EmptyString => None | _ => Some t end.

(** The canonical literal: no zeros at the end of the fraction, no empty
    fraction, and zero without a sign. *)
Definition canonical (d : decimal) : decimal :=
  if magnitude d =? 0 then {| d_negative := false; d_integer := "0"; d_fraction := None |}
  else {| d_negative := d_negative d; d_integer := d_integer d;
          d_fraction := fraction_of (trim_right_by (Ascii.eqb "0") (fraction_text d)) |}.

Lemma fraction_text_of t : default EmptyString (fraction_of t) = t.
Proof. by destruct t. Qed.

Lemma trim_right_digits p s : (forall c, is_digit c = true -> p c = false) -> all_digits s = true -> trim_right_by p s = s.
Proof.
  intros Hp Hs. destruct (string_snoc s) as [->|(a & c & ->)]; [done|]. rewrite trim_right_snoc.
  rewrite sforall_app in Hs. apply andb_true_iff in Hs as [_ Hc]. simpl in Hc. rewrite andb_true_r in Hc. by rewrite Hp.
Qed.

Lemma digit_not_point c : is_digit c = true -> Ascii.eqb "." c = false.
Proof. intros H. by destruct (Ascii.eqb_spec "." c) as [<-|]. Qed.

Lemma trim_zeros_empty f : all_digits f = true ->
  sforall (Ascii.eqb "0") f = String.eqb (trim_right_by (Ascii.eqb "0") f) EmptyString.
Proof.
  intros Hf. destruct (trim_right_zeros f Hf) as (_ & Ht & _ & Hv). destruct (String.eqb_spec (trim_right_by (Ascii.eqb "0") f) EmptyString) as [E|E].
  - apply zero_digits_value; [done|]. by rewrite Hv, E.
  - apply not_true_is_false. intros Hz. apply E. unfold trim_right_by. rewrite <- sforall_srev in Hz.
    assert (Hl : trim_left_by (Ascii.eqb "0") (srev f) = EmptyString); [|by rewrite Hl].
    generalize dependent (srev f). intros s Hz. induction s as [|c s IH]; [done|]. simpl in *.
    apply andb_true_iff in Hz as [-> Hz]. auto.
Qed.

Lemma trimmed_text d : wf_decimal d = true ->
  (if has_dot (print_decimal d) then trim_right_by (Ascii.eqb ".") (trim_right_by (Ascii.eqb "0") (print_decimal d)) else print_decimal d)
  = sign_text (d_negative d) +:+ d_integer d +:+ print_fraction (fraction_of (trim_right_by (Ascii.eqb "0") (fraction_text d))).
Proof.
  intros H. destruct (wf_decimal_parts d H) as [Hi Hf]. pose proof (wf_integer_all _ Hi) as Hid.
  unfold print_decimal, fraction_text in *. destruct (d_fraction d) as [f|]; unfold id in *; cbn [print_fraction from_option] in *.
  - assert (Hdot : has_dot (sign_text (d_negative d) +:+ d_integer d +:+ String "." f) = true).
    { unfold has_dot. rewrite !sforall_app. cbn [sforall]. rewrite Ascii.eqb_refl. cbn [negb andb].
      by rewrite !andb_false_r. }
    rewrite Hdot. change (String "." f) with ("." +:+ f). rewrite <- !sapp_assoc, trim_right_app, (trim_zeros_empty f Hf).
    destruct (trim_right_zeros f Hf) as (Ht & He & _ & _).
    destruct (String.eqb_spec (trim_right_by (Ascii.eqb "0") f) EmptyString) as [E|E].
    + rewrite E. cbn [fraction_of print_fraction]. rewrite sapp_nil_r, trim_right_snoc.
      change (Ascii.eqb "0" ".") with false. cbv iota. rewrite trim_right_snoc, Ascii.eqb_refl.
      rewrite trim_right_app. rewrite (trim_right_digits (Ascii.eqb ".") (d_integer d)) by (auto using digit_not_point).
      destruct (integer_head _ Hi) as (c & r & Ei & Hc). rewrite Ei at 1. cbn [sforall]. by rewrite digit_not_point.
    + destruct He as [?|(a & c & Ea & Hc)]; [done|]. set (t := trim_right_by (Ascii.eqb "0") f) in *.
      rewrite trim_right_app, (trim_right_digits (Ascii.eqb ".") t) by (auto using digit_not_point).
      replace (sforall (Ascii.eqb ".") t) with false; [destruct t; [done|cbn [fraction_of print_fraction]; by rewrite !sapp_assoc]|].
      symmetry. rewrite Ea, sforall_app. cbn [sforall]. rewrite Ea, sforall_app in Ht. cbn [sforall] in Ht.
      rewrite !andb_true_iff in Ht. destruct Ht as (_ & Hd & _). rewrite digit_not_point by done. by rewrite andb_false_r.
  - cbn [fraction_of print_fraction trim_right_by srev srev_app trim_left_by]. change (trim_right_by (Ascii.eqb "0") EmptyString) with EmptyString.
    cbn [fraction_of print_fraction].
    assert (Hdot : has_dot (sign_text (d_negative d) +:+ d_integer d +:+ EmptyString) = false); [|by rewrite Hdot].
    unfold has_dot. rewrite sapp_nil_r, sforall_app. apply negb_false_iff, andb_true_iff. split; [by destruct (d_negative d)|].
    by apply (digits_no_byte ".").
Qed.

Lemma canonical_boundary_print d : wf_decimal d = true ->
  canonical_boundary (print_decimal d) = print_decimal (canonical d).
Proof.
  intros H. unfold canonical_boundary. rewrite trimmed_text, rat_of_decimal by done. cbn [numerator].
  unfold canonical. replace (signed (d_negative d) (magnitude d) =? 0) with (magnitude d =? 0).
  - by destruct (magnitude d =? 0).
  - destruct (d_negative d); simpl; [|done]. destruct (Z.eqb_spec (magnitude d) 0), (Z.eqb_spec (- magnitude d) 0); lia.
Qed.

Lemma wf_canonical d : wf_decimal d = true -> wf_decimal (canonical d) = true.
Proof.
  intros H. unfold canonical. destruct (magnitude d =? 0); [done|]. destruct (wf_decimal_parts d H) as [Hi Hf].
  unfold wf_decimal; cbn [d_integer d_fraction]. rewrite Hi. destruct (trim_right_zeros _ Hf) as (Ht & _).
  destruct (trim_right_by _ _) eqn:E; [done|]. cbn [fraction_of]. unfold wf_digits. by rewrite Ht.
Qed.

Lemma magnitude_nonneg d : wf_decimal d = true -> 0 <= magnitude d.
Proof.
  intros H. destruct (wf_decimal_parts d H) as [Hi%wf_integer_all Hf]. unfold magnitude.
  apply digits_value_bounds. by rewrite sforall_app, Hi.
Qed.

Lemma canonical_parts d : magnitude d <> 0 ->
  d_negative (canonical d) = d_negative d /\ d_integer (canonical d) = d_integer d /\
  fraction_text (canonical d) = trim_right_by (Ascii.eqb "0") (fraction_text d).
Proof.
  intros Hm. unfold canonical. apply Z.eqb_neq in Hm. rewrite Hm. split_and!; try done.
  unfold fraction_text at 1. cbn [d_fraction]. apply fraction_text_of.
Qed.

(** Trimming the fraction divides the magnitude and the denominator alike. *)
Lemma canonical_magnitude d : wf_decimal d = true -> magnitude d <> 0 ->
  magnitude d = magnitude (canonical d) * 10 ^ (slen (fraction_text d) - slen (fraction_text (canonical d))) /\
  slen (fraction_text (canonical d)) <= slen (fraction_text d).
Proof.
  intros H Hm. destruct (wf_decimal_parts d H) as [Hi Hf].
  destruct (canonical_parts d Hm) as (_ & Hci & Hcf). unfold magnitude at 1 2. rewrite Hci, Hcf.
  destruct (trim_right_zeros _ Hf) as (_ & _ & Hl & Hv). split; [|done]. rewrite !digits_value_app, Hv.
  replace (slen (fraction_text d)) with (slen (trim_right_by (Ascii.eqb "0") (fraction_text d)) +
    (slen (fraction_text d) - slen (trim_right_by (Ascii.eqb "0") (fraction_text d)))) at 1 by lia.
  rewrite Z.pow_add_r by (try apply slen_nonneg; try lia). lia.
Qed.

Lemma canonical_rat d : wf_decimal d = true ->
  rat_eq (rat_of (print_decimal (canonical d))) (rat_of (print_decimal d)).
Proof.
  intros H. rewrite !rat_of_decimal by (done || by apply wf_canonical). unfold rat_eq. cbn [numerator denominator].
  destruct (Z.eq_dec (magnitude d) 0) as [E|E].
  - unfold canonical. rewrite E. simpl. by destruct (d_negative d).
  - destruct (canonical_magnitude d H E) as [Hm Hl]. rewrite Hm.
    rewrite (proj1 (canonical_parts d E)). pose proof (slen_nonneg (fraction_text (canonical d))).
    replace (slen (fraction_text d)) with ((slen (fraction_text d) - slen (fraction_text (canonical d))) + slen (fraction_text (canonical d))) at 1 by lia.
    rewrite Z.pow_add_r by lia. destruct (d_negative d); simpl; ring.
Qed.

(** ** Canonical literals are unique *)

Definition ends_nonzero (f : string) : Prop := exists a c, f = a +:+ String c EmptyString /\ is_nonzero_digit c = true.

(** Zero is written 0, and a fraction is absent or does not end in zero. *)
Definition reduced (d : decimal) : Prop :=
  (magnitude d = 0 -> d = {| d_negative := false; d_integer := "0"; d_fraction := None |}) /\
  (d_fraction d = None \/ exists f, d_fraction d = Some f /\ ends_nonzero f).

Definition canonical_text (o : string) : Prop := exists d, wf_decimal d = true /\ o = print_decimal d /\ reduced d.

Lemma nonzero_digit c : is_nonzero_digit c = true -> 1 <= digit c <= 9 /\ is_digit c = true.
Proof.
  intros H. assert (Hd : is_digit c = true).
  { revert H. unfold is_nonzero_digit, is_digit, in_range. rewrite !andb_true_iff, !Nat.leb_le.
    change (nat_of_ascii "1") with 49%nat. change (nat_of_ascii "0") with 48%nat. lia. }
  split; [|done]. apply digit_bounds in Hd. revert H. unfold is_nonzero_digit, in_range, digit, nat_of_ascii in *.
  rewrite andb_true_iff, !Nat.leb_le. change (N_of_ascii "1") with 49%N. lia.
Qed.

Lemma digit_inj c d : digit c = digit d -> c = d.
Proof.
  unfold digit. intros H. rewrite <- (ascii_N_embedding c), <- (ascii_N_embedding d). f_equal. lia.
Qed.

Lemma digits_value_cons c s : digits_value (String c s) = digit c * 10 ^ slen s + digits_value s.
Proof. unfold digits_value at 1. cbn [digits_from]. rewrite digits_from_acc. lia. Qed.

Lemma digits_inj s t : all_digits s = true -> all_digits t = true -> slen s = slen t ->
  digits_value s = digits_value t -> s = t.
Proof.
  revert t. induction s as [|c s IH]; intros [|d t] Hs Ht Hl Hv; rewrite ?slen_cons in Hl;
    try (pose proof (slen_nonneg s)); try (pose proof (slen_nonneg t)); try (change (slen EmptyString) with 0 in Hl); try lia; [done|].
  simpl in Hs, Ht. apply andb_true_iff in Hs as [Hc Hs], Ht as [Hd Ht]. rewrite !digits_value_cons in Hv.
  pose proof (digits_value_bounds s Hs). pose proof (digits_value_bounds t Ht).
  assert (El : slen s = slen t) by lia. rewrite El in *.
  pose proof (pow10_pos (slen t) (slen_nonneg t)).
  assert (digit c = digit d) by nia. assert (Ev : digits_value s = digits_value t) by nia.
  f_equal; [by apply digit_inj|]. by apply IH.
Qed.

Lemma integer_bounds i : wf_integer i = true -> i <> "0" -> 10 ^ (slen i - 1) <= digits_value i < 10 ^ slen i.
Proof.
  intros Hi Hz. pose proof (digits_value_bounds i (wf_integer_all i Hi)). split; [|lia].
  unfold wf_integer in Hi. apply orb_true_iff in Hi as [Hi|Hi]; [by apply String.eqb_eq in Hi|].
  destruct i as [|c r]; [done|]. apply andb_true_iff in Hi as [Hc Hr]. apply nonzero_digit in Hc as [Hc _].
  rewrite digits_value_cons, slen_cons. replace (1 + slen r - 1) with (slen r) by lia.
  pose proof (digits_value_bounds r Hr). pose proof (pow10_pos (slen r) (slen_nonneg r)). nia.
Qed.

Lemma integer_inj i j : wf_integer i = true -> wf_integer j = true -> digits_value i = digits_value j -> i = j.
Proof.
  intros Hi Hj Hv.
  assert (Hpos : forall k, wf_integer k = true -> k <> "0" -> 1 <= digits_value k).
  { intros k Hk Hz. pose proof (integer_bounds k Hk Hz). destruct (integer_head k Hk) as (c & r & -> & _).
    rewrite slen_cons in *. pose proof (slen_nonneg r). pose proof (pow10_pos (1 + slen r - 1)). lia. }
  destruct (String.eqb_spec i "0") as [->|Hni], (String.eqb_spec j "0") as [->|Hnj]; [done|..].
  - specialize (Hpos j Hj Hnj). change (digits_value "0") with 0 in Hv. lia.
  - specialize (Hpos i Hi Hni). change (digits_value "0") with 0 in Hv. lia.
  - apply digits_inj; [by apply wf_integer_all..| |done].
    pose proof (integer_bounds i Hi Hni). pose proof (integer_bounds j Hj Hnj). rewrite Hv in *.
    pose proof (slen_nonneg i). pose proof (slen_nonneg j).
    destruct (Z.lt_trichotomy (slen i) (slen j)) as [Hlt|[?|Hlt]]; [exfalso|done|exfalso].
    + assert (10 ^ slen i <= 10 ^ (slen j - 1)) by (apply Z.pow_le_mono_r; lia). lia.
    + assert (10 ^ slen j <= 10 ^ (slen i - 1)) by (apply Z.pow_le_mono_r; lia). lia.
Qed.

(** The last digit of a reduced literal with a fraction is not zero. *)
Lemma reduced_mod d : wf_decimal d = true -> reduced d -> 0 < slen (fraction_text d) -> magnitude d mod 10 <> 0.
Proof.
  intros Hwf [_ Hf] Hl. unfold magnitude, fraction_text in *. destruct Hf as [E|(f & E & a & c & -> & Hc)]; rewrite E in *; [done|].
  simpl. rewrite <- sapp_assoc, digits_value_app. change (slen (String c EmptyString)) with 1.
  rewrite digits_value_cons. change (digits_value EmptyString) with 0. change (10 ^ slen EmptyString) with 1.
  apply nonzero_digit in Hc as [Hc _]. rewrite Z.mul_1_r, Z.add_0_r, Z.add_comm, Z.pow_1_r, Z.mod_add by lia. rewrite Z.mod_small; lia.
Qed.

Lemma reduced_scale a b : wf_decimal b = true -> reduced b ->
  magnitude a * 10 ^ slen (fraction_text b) = magnitude b * 10 ^ slen (fraction_text a) ->
  slen (fraction_text b) <= slen (fraction_text a).
Proof.
  intros Hb Hr E. destruct (Z.le_gt_cases (slen (fraction_text b)) (slen (fraction_text a))) as [?|Hlt]; [done|exfalso].
  pose proof (slen_nonneg (fraction_text a)) as H0.
  replace (slen (fraction_text b)) with (slen (fraction_text a) + 1 + (slen (fraction_text b) - slen (fraction_text a) - 1)) in E by lia.
  rewrite !Z.pow_add_r in E by lia. pose proof (pow10_pos (slen (fraction_text a)) H0).
  assert (Em : magnitude b = magnitude a * 10 ^ (slen (fraction_text b) - slen (fraction_text a) - 1) * 10) by nia.
  apply (reduced_mod b Hb Hr); [lia|]. rewrite Em. apply Z.mod_mul. lia.
Qed.

Lemma fraction_text_inj a b : reduced a -> reduced b -> fraction_text a = fraction_text b -> d_fraction a = d_fraction b.
Proof.
  intros [_ Ha] [_ Hb]. unfold fraction_text.
  assert (Hne : forall x c, x +:+ String c EmptyString <> EmptyString) by (intros [|? ?] ?; rewrite ?sapp_nil_l, ?sapp_cons; done).
  destruct Ha as [->|(f & -> & x & c & -> & _)], Hb as [->|(g & -> & y & d & -> & _)]; simpl; try done.
  - intros E. by destruct (Hne y d).
  - intros E. by destruct (Hne x c).
  - by intros ->.
Qed.

Lemma signed_eq n1 n2 x y : 0 < x -> 0 < y -> signed n1 x = signed n2 y -> n1 = n2 /\ x = y.
Proof. destruct n1, n2; simpl; intros; split; try done; lia. Qed.

Lemma signed_mul n x y : signed n x * y = signed n (x * y).
Proof. destruct n; simpl; ring. Qed.

Lemma reduced_unique a b : wf_decimal a = true -> wf_decimal b = true -> reduced a -> reduced b ->
  rat_eq (rat_of (print_decimal a)) (rat_of (print_decimal b)) -> a = b.
Proof.
  intros Ha Hb Hra Hrb. rewrite !rat_of_decimal by done. unfold rat_eq. cbn [numerator denominator]. rewrite !signed_mul. intros E.
  pose proof (magnitude_nonneg a Ha). pose proof (magnitude_nonneg b Hb).
  pose proof (pow10_pos _ (slen_nonneg (fraction_text a))). pose proof (pow10_pos _ (slen_nonneg (fraction_text b))).
  destruct (Z.eq_dec (magnitude a) 0) as [Ea|Ea].
  { assert (Eb : magnitude b = 0) by (rewrite Ea in E; destruct (d_negative a), (d_negative b); simpl in E; nia).
    by rewrite (proj1 Hra Ea), (proj1 Hrb Eb). }
  assert (Eb : magnitude b <> 0) by (intros Eb; rewrite Eb in E; destruct (d_negative a), (d_negative b); simpl in E; nia).
  apply signed_eq in E as [Hs E]; [|nia..].
  assert (Hl : slen (fraction_text a) = slen (fraction_text b)).
  { pose proof (reduced_scale a b Hb Hrb E). pose proof (reduced_scale b a Ha Hra (eq_sym E)). lia. }
  rewrite Hl in E. assert (Em : magnitude a = magnitude b) by nia.
  destruct (wf_decimal_parts a Ha) as [Hia Hfa], (wf_decimal_parts b Hb) as [Hib Hfb].
  unfold magnitude in Em. rewrite !digits_value_app, Hl in Em.
  pose proof (digits_value_bounds _ Hfa). pose proof (digits_value_bounds _ Hfb). rewrite Hl in *.
  assert (Ei : digits_value (d_integer a) = digits_value (d_integer b)) by nia.
  assert (Ef : digits_value (fraction_text a) = digits_value (fraction_text b)) by nia.
  apply integer_inj in Ei; [|done..]. apply digits_inj in Ef; [|done..]. apply fraction_text_inj in Ef; [|done..].
  destruct a, b; simpl in *; congruence.
Qed.

Lemma canonical_reduced d : wf_decimal d = true -> reduced (canonical d).
Proof.
  intros H. destruct (wf_decimal_parts d H) as [Hi Hf]. destruct (Z.eq_dec (magnitude d) 0) as [E|E].
  - unfold canonical. rewrite E. split; [done|by left].
  - split.
    + intros Ez. destruct (canonical_magnitude d H E) as [Hm _]. rewrite Ez in Hm. lia.
    + unfold canonical. apply Z.eqb_neq in E. rewrite E. cbn [d_fraction].
      destruct (trim_right_zeros _ Hf) as (_ & [->|Hn] & _ & _); [by left|].
      right. destruct Hn as (a & c & Ht & Hc). exists (a +:+ String c EmptyString). rewrite Ht. split; [|by exists a, c].
      destruct a; [done|]. by rewrite sapp_cons.
Qed.

Lemma canonical_boundary_text t : decimalPattern t = true ->
  canonical_text (canonical_boundary t) /\ rat_eq (rat_of (canonical_boundary t)) (rat_of t).
Proof.
  intros (d & Hd & ->)%decimalPattern_spec. rewrite canonical_boundary_print by done. split; [|by apply canonical_rat].
  exists (canonical d). split_and!; [by apply wf_canonical|done|by apply canonical_reduced].
Qed.

Lemma rat_eq_trans a b c : 0 < denominator b -> rat_eq a b -> rat_eq b c -> rat_eq a c.
Proof.
  unfold rat_eq. intros Hb H1 H2. apply (Z.mul_reg_r _ _ (denominator b)); [lia|].
  transitivity (numerator a * denominator b * denominator c); [ring|]. rewrite H1.
  transitivity (numerator b * denominator c * denominator a); [ring|]. rewrite H2. ring.
Qed.

Lemma rat_of_positive t : 0 < denominator (rat_of t).
Proof. unfold rat_of. destruct (cut _ _) as [i f]. simpl. apply pow10_pos, slen_nonneg. Qed.

Lemma canonical_text_unique o p : canonical_text o -> canonical_text p -> rat_eq (rat_of o) (rat_of p) -> o = p.
Proof.
  intros (a & Ha & -> & Hra) (b & Hb & -> & Hrb) H. by rewrite (reduced_unique a b Ha Hb Hra Hrb H).
Qed.

(** ** The theorems *)

Definition boundary_ok (t : string) : Prop := slen t <= NumericBucketMaxBoundaryBytes /\ decimalPattern t = true.
Definition below (s t : string) : Prop := rat_lt (rat_of s) (rat_of t) = true.

Lemma normalize_boundaries_iff l : forall previous out,
  normalize_boundaries previous l = Ok out <->
  Forall boundary_ok l /\ Sorted below l /\
  match previous, l with Some p, t :: _ => rat_lt p (rat_of t) = true | _, _ => True end /\
  out = map canonical_boundary l.
Proof.
  induction l as [|t l IH]; intros previous out; cbn [normalize_boundaries].
  - split; [intros [= <-]; split_and!; try constructor; by destruct previous|by intros (_ & _ & _ & ->)].
  - rewrite !if_err_ok, orb_false_iff, negb_false_iff, Z.ltb_ge, rbind_ok. setoid_rewrite IH. split.
    + intros ([Hl Hd] & Hp & rest & (Hf & Hs & Hh & ->) & [= <-]). split_and!.
      * constructor; [by split|done].
      * constructor; [done|]. destruct l; constructor. exact Hh.
      * destruct previous; [by apply negb_false_iff in Hp|done].
      * done.
    + intros (Hf & Hs & Hp & ->). inversion Hf as [|? ? [Hl Hd] Hf']; subst. inversion Hs as [|? ? Hs' Hh]; subst.
      split_and!; [done|done|destruct previous; [by rewrite Hp|done]|].
      exists (map canonical_boundary l). split; [|done]. split_and!; try done. destruct l; [done|]. by inversion Hh.
Qed.

(** C39: The boundaries of a numeric bucket. A list is accepted exactly when it
    has 1 to 64 decimal literals of at most 128 bytes whose exact values strictly
    increase; each is returned as the one canonical literal of its value (no
    redundant zeros, no sign on zero), so that equal values have equal texts. *)
Theorem NormalizeNumericBoundaries_exact boundaries out :
  NormalizeNumericBoundaries boundaries = Ok out <->
  1 <= len boundaries <= NumericBucketMaxBoundaries /\ Forall boundary_ok boundaries /\ Sorted below boundaries /\
  Forall2 (fun t o => canonical_text o /\ rat_eq (rat_of o) (rat_of t)) boundaries out.
Proof.
  unfold NormalizeNumericBoundaries. rewrite if_err_ok, orb_false_iff, !Z.ltb_ge, normalize_boundaries_iff.
  assert (Hout : Forall boundary_ok boundaries ->
    (out = map canonical_boundary boundaries <->
     Forall2 (fun t o => canonical_text o /\ rat_eq (rat_of o) (rat_of t)) boundaries out)).
  { intros Hok. split.
    - intros ->. induction Hok as [|t l [_ Ht] _ IH]; [constructor|]. simpl. constructor; [by apply canonical_boundary_text|done].
    - intros H2. induction H2 as [|t o l out' [Hc He] Hr IH]; [done|]. inversion Hok as [|? ? [_ Ht] Hok']; subst.
      simpl. f_equal; [|by apply IH]. destruct (canonical_boundary_text t Ht) as [Hc' He'].
      apply canonical_text_unique; [done..|]. eapply rat_eq_trans; [apply rat_of_positive|exact He|]. by unfold rat_eq in *. }
  split.
  - intros ((H1 & H2) & Hf & Hs & _ & Ho). split_and!; try done. by apply Hout.
  - intros ((H1 & H2) & Hf & Hs & Ho). split_and!; try done. by apply Hout.
Qed.

Definition bucket_parameters (spec : NormalizedAggregateSpec) (counts : string -> Z) (output : AggregateOutput) : Z :=
  if is_kind "numeric_bucket" output
  then counts (to_lower (ao_alias output)) * bucket_repeats (a_order_by spec) (ao_alias output) else 0.

Definition bucket_counted (counts : string -> Z) (output : AggregateOutput) : Prop :=
  ao_kind output = "numeric_bucket" -> 1 <= counts (to_lower (ao_alias output)) <= NumericBucketMaxBoundaries.

Lemma bucket_repeats_pos orders alias : 2 <= bucket_repeats orders alias.
Proof. unfold bucket_repeats. pose proof (count_if_nonneg (fun order => String.eqb (as_kind order) "numeric_bucket" && equal_fold (as_alias order) alias) orders). lia. Qed.

Lemma parameters_step_iff spec counts maximum o total total' : total <= maximum ->
  parameters_step (a_order_by spec) counts maximum o total = Ok total' <->
  bucket_counted counts o /\ total' = total + bucket_parameters spec counts o /\ total' <= maximum.
Proof.
  intros Ht. unfold parameters_step, bucket_counted, bucket_parameters, is_kind.
  destruct (String.eqb_spec (ao_kind o) "numeric_bucket") as [E|E]; cbn [negb].
  - rewrite !if_err_ok, orb_false_iff, !Z.ltb_ge.
    set (count := counts (to_lower (ao_alias o))). pose proof (bucket_repeats_pos (a_order_by spec) (ao_alias o)) as Hr.
    set (repeats := bucket_repeats (a_order_by spec) (ao_alias o)) in *.
    rewrite Z.quot_div_nonneg by lia. split.
    + intros ((H1 & H2) & H3 & [= <-]). split_and!; [done|done|].
      pose proof (Z.mul_div_le (maximum - total) repeats ltac:(lia)). nia.
    + intros (H1 & -> & H2). specialize (H1 E). split_and!; [lia..| |done]. apply Z.div_le_lower_bound; lia.
  - split; [intros [= <-]; split_and!; [done|lia|lia]|]. intros (_ & -> & _). f_equal. lia.
Qed.

Lemma bucket_parameters_nonneg spec counts o : bucket_counted counts o -> 0 <= bucket_parameters spec counts o.
Proof.
  unfold bucket_counted, bucket_parameters, is_kind. destruct (String.eqb_spec (ao_kind o) "numeric_bucket"); [|done].
  intros H. specialize (H e). pose proof (bucket_repeats_pos (a_order_by spec) (ao_alias o)). nia.
Qed.

Lemma parameters_loop_iff spec counts maximum os : forall i total total', total <= maximum ->
  iter_from (fun _ output total => parameters_step (a_order_by spec) counts maximum output total) i os total = Ok total' <->
  Forall (bucket_counted counts) os /\ total' = total + sum_of (bucket_parameters spec counts) os /\ total' <= maximum.
Proof.
  induction os as [|o os IH]; intros i total total' Ht; cbn [iter_from].
  - change (sum_of (bucket_parameters spec counts) []) with 0. split.
    + intros [= <-]. split_and!; [constructor|lia|done].
    + intros (_ & -> & _). f_equal. lia.
  - change (sum_of (bucket_parameters spec counts) (o :: os)) with (bucket_parameters spec counts o + sum_of (bucket_parameters spec counts) os).
    rewrite rbind_ok, Forall_cons. split.
    + intros (t & Hs & Hr). apply parameters_step_iff in Hs as (Ho & -> & Hm); [|done].
      apply IH in Hr as (Hos & -> & Hm'); [|done]. split_and!; [done|done|lia|lia].
    + intros ((Ho & Hos) & -> & Hm).
      assert (0 <= sum_of (bucket_parameters spec counts) os).
      { apply sum_nonneg. eapply List.Forall_impl; [|exact Hos]. intros x. apply bucket_parameters_nonneg. }
      exists (total + bucket_parameters spec counts o). split.
      * apply parameters_step_iff; [done|]. split_and!; [done|done|lia].
      * apply IH; [lia|]. split_and!; [done|lia|lia].
Qed.

(** The count of numeric bucket parameters is exact: it succeeds just when
    every projected bucket has 1 to 64 boundaries and the total, in which each
    bucket's boundaries count once for the projection, once for the grouping and
    once for each order term that names the bucket, stays within the limit. *)
Theorem NumericBucketParameters_exact spec counts base maximum total :
  NumericBucketParameters spec counts base maximum = Ok total <->
  Forall (bucket_counted counts) (a_projection spec) /\ base <= maximum /\
  total = base + sum_of (bucket_parameters spec counts) (a_projection spec) /\ total <= maximum.
Proof.
  unfold NumericBucketParameters, iter. rewrite if_err_ok, Z.ltb_ge. split.
  - intros [Hb H]. apply parameters_loop_iff in H; [|done]. naive_solver.
  - intros (Hf & Hb & He & Hm). split; [done|]. by apply parameters_loop_iff.
Qed.

(** ** The SQL type of a boundary *)

Lemma trim_zeros_wf i : wf_integer i = true -> digits_value i < 10 ^ slen (trim_left_by (Ascii.eqb "0") i).
Proof.
  intros H. rewrite <- trim_zeros_value. apply digits_value_bounds, trim_zeros_digits. by apply wf_integer_all.
Qed.

Lemma NormalizeNumericBoundaries_one b : (exists c, NormalizeNumericBoundaries [b] = Ok [c]) <-> boundary_ok b.
Proof.
  unfold NormalizeNumericBoundaries. split.
  - intros [c H]. apply if_err_ok in H as [_ H]. apply normalize_boundaries_iff in H as (Hf & _). by inversion Hf.
  - intros Hb. exists (canonical_boundary b). cbn [len List.length]. apply if_err_ok. split; [done|].
    apply normalize_boundaries_iff. split_and!; [by constructor|repeat constructor|done|done].
Qed.

Lemma canonical_boundary_fixed b : decimalPattern b = true -> canonical_boundary b = b <-> canonical_text b.
Proof.
  intros H. destruct (canonical_boundary_text b H) as [Hc He]. split; [by intros <-|]. intros Hb.
  by apply canonical_text_unique.
Qed.

(** The cast of a boundary. A boundary is cast exactly when it is canonical
    and fits MySQL's largest DECIMAL; the type named in the text then has the
    boundary's scale and a precision within which its exact value fits, so that
    no rounding separates the comparison from the policy's value. *)
Theorem numericBoundaryCast_exact b text :
  numericBoundaryCast b = Ok text <->
  slen b <= NumericBucketMaxBoundaryBytes /\ canonical_text b /\
  exists precision scale,
    precision = boundary_precision b /\ scale = boundary_scale b /\
    text = "CAST(? AS DECIMAL(" +:+ itoa precision +:+ "," +:+ itoa scale +:+ "))" /\
    1 <= precision <= 65 /\ 0 <= scale <= Z.min 30 precision /\
    denominator (rat_of b) = 10 ^ scale /\ Z.abs (numerator (rat_of b)) < 10 ^ precision.
Proof.
  assert (Hcall : numericBoundaryCast b = Ok text <->
    boundary_ok b /\ canonical_boundary b = b /\ boundary_precision b <= 65 /\ boundary_scale b <= 30 /\
    text = "CAST(? AS DECIMAL(" +:+ itoa (boundary_precision b) +:+ "," +:+ itoa (boundary_scale b) +:+ "))").
  { unfold numericBoundaryCast. destruct (NormalizeNumericBoundaries [b]) as [l|e] eqn:E.
    - assert (E' := E). unfold NormalizeNumericBoundaries in E'. apply if_err_ok in E' as [_ E'].
      apply normalize_boundaries_iff in E' as (Hf & _ & _ & ->). inversion Hf as [|? ? Hb _]; subst. cbn [map].
      rewrite !if_err_ok, negb_false_iff, String.eqb_eq, orb_false_iff, !Z.ltb_ge. split.
      + intros (H1 & [H2 H3] & [= <-]). by split_and!.
      + intros (_ & H1 & H2 & H3 & ->). by split_and!.
    - split; [done|]. intros (Hb & _). apply NormalizeNumericBoundaries_one in Hb as [c Hc]. congruence. }
  rewrite Hcall. unfold boundary_ok.
  assert (Hbounds : canonical_text b ->
    denominator (rat_of b) = 10 ^ boundary_scale b /\ Z.abs (numerator (rat_of b)) < 10 ^ boundary_precision b /\
    0 <= boundary_scale b <= boundary_precision b /\ 1 <= boundary_precision b).
  { intros (d & Hd & -> & _). unfold boundary_precision, boundary_scale. rewrite rat_of_decimal, cut_decimal by done.
    cbn [numerator denominator fst snd]. destruct (wf_decimal_parts d Hd) as [Hi Hf].
    pose proof (slen_nonneg (fraction_text d)). pose proof (slen_nonneg (trim_left_by (Ascii.eqb "0") (d_integer d))).
    split_and!; try done; try lia.
    pose proof (magnitude_nonneg d Hd). replace (Z.abs (signed (d_negative d) (magnitude d))) with (magnitude d)
      by (destruct (d_negative d); simpl; lia).
    unfold magnitude in *. rewrite digits_value_app in *. pose proof (trim_zeros_wf _ Hi). pose proof (digits_value_bounds _ Hf).
    pose proof (digits_value_bounds _ (wf_integer_all _ Hi)).
    eapply Z.lt_le_trans; [|apply Z.pow_le_mono_r; [lia|apply Z.le_max_r]]. rewrite Z.pow_add_r by lia. nia. }
  split.
  - intros ((Hl & Hd) & Hc & Hp & Hs & ->). apply canonical_boundary_fixed in Hc; [|done].
    destruct (Hbounds Hc) as (H1 & H2 & H3 & H4). split_and!; try done.
    exists (boundary_precision b), (boundary_scale b). split_and!; try done; lia.
  - intros (Hl & Hc & p & s & -> & -> & -> & Hp & Hs & _).
    assert (Hd : decimalPattern b = true) by (destruct Hc as (d & Hd & -> & _); apply decimalPattern_spec; by exists d).
    split_and!; try done; try lia. by apply canonical_boundary_fixed.
Qed.
