(* ===== verification/KeysetDecimal.v ===== *)
(** Exact decimal operands (internal/adapters/mysql8/keyset.go): the text that is
    bound for a decimal value of a filter, which must denote the value exactly in the
    DECIMAL type of its column. *)
From S2P Require Import Prelude GoJson Number Portable Values NumericBucket.
Local Open Scope string_scope.
Local Open Scope Z_scope.

(** ** normalizeExactKeysetDecimal *)

(** The digits loop of the exponent: [value = maximum; continue] when the next digit
    would pass the maximum. *)
Fixpoint bounded_exponent (maximum value : Z) (text : string) : option Z :=
  match text with
  | EmptyString => Some value
  | String c text' =>
      if negb (is_digit c) then None
      else if Z.quot (maximum - digit c) 10 <? value then bounded_exponent maximum maximum text'
      else bounded_exponent maximum (value * 10 + digit c) text'
  end.

Definition parseBoundedKeysetDecimalExponent (text : string) (maximum : Z) : option Z :=
  match text with
  | EmptyString => None
  | String c rest =>
      let negative := Ascii.eqb c "-" in
      let digits := if is_sign c then rest else text in
      if String.eqb digits EmptyString then None
      else
        value ← bounded_exponent maximum 0 digits;
        Some (if negative then - value else value)
  end.

(** The variables of the mantissa loop. *)
Record decimal_scan := {
  ds_coefficient : string; ds_pendingZeros : nat; ds_fractionalDigits : Z; ds_digitsBeforePoint : Z; ds_digitsAfterPoint : Z;
  ds_decimalPoint : bool; ds_nonzero : bool;
}.

Definition decimal_error (message : string) : goerr := ErrorString message.
Definition bad_mantissa : goerr := decimal_error "decimal mantissa is invalid".

Definition scan_step (precision : Z) (character : ascii) (st : decimal_scan) : result decimal_scan :=
  if Ascii.eqb character "." then
    if? ds_decimalPoint st || (ds_digitsBeforePoint st =? 0) return bad_mantissa then
    Ok {| ds_coefficient := ds_coefficient st; ds_pendingZeros := ds_pendingZeros st;
          ds_fractionalDigits := ds_fractionalDigits st; ds_digitsBeforePoint := ds_digitsBeforePoint st;
          ds_digitsAfterPoint := ds_digitsAfterPoint st; ds_decimalPoint := true; ds_nonzero := ds_nonzero st |}
  else
    if? negb (is_digit character) return bad_mantissa then
    let point := ds_decimalPoint st in
    let st := {| ds_coefficient := ds_coefficient st; ds_pendingZeros := ds_pendingZeros st;
                 ds_fractionalDigits := ds_fractionalDigits st + (if point then 1 else 0);
                 ds_digitsBeforePoint := ds_digitsBeforePoint st + (if point then 0 else 1);
                 ds_digitsAfterPoint := ds_digitsAfterPoint st + (if point then 1 else 0);
                 ds_decimalPoint := point; ds_nonzero := ds_nonzero st |} in
    if Ascii.eqb character "0" then
      Ok {| ds_coefficient := ds_coefficient st;
            ds_pendingZeros := if ds_nonzero st then S (ds_pendingZeros st) else ds_pendingZeros st;
            ds_fractionalDigits := ds_fractionalDigits st; ds_digitsBeforePoint := ds_digitsBeforePoint st;
            ds_digitsAfterPoint := ds_digitsAfterPoint st; ds_decimalPoint := ds_decimalPoint st; ds_nonzero := ds_nonzero st |}
    else
      if? precision <? slen (ds_coefficient st) + Z.of_nat (ds_pendingZeros st) + 1
      return decimal_error "decimal value exceeds the source precision" then
      Ok {| ds_coefficient := ds_coefficient st +:+ zeros (ds_pendingZeros st) +:+ String character EmptyString;
            ds_pendingZeros := O; ds_fractionalDigits := ds_fractionalDigits st;
            ds_digitsBeforePoint := ds_digitsBeforePoint st; ds_digitsAfterPoint := ds_digitsAfterPoint st;
            ds_decimalPoint := ds_decimalPoint st; ds_nonzero := true |}.

Fixpoint scan_mantissa (precision : Z) (mantissa : string) (st : decimal_scan) : result decimal_scan :=
  match mantissa with
  | EmptyString => Ok st
  | String c rest => let? st := scan_step precision c st in scan_mantissa precision rest st
  end.

Definition scan_start : decimal_scan := {|
  ds_coefficient := EmptyString; ds_pendingZeros := O; ds_fractionalDigits := 0; ds_digitsBeforePoint := 0;
  ds_digitsAfterPoint := 0; ds_decimalPoint := false; ds_nonzero := false |}.

(** The text of a nonzero value: [coefficient * 10 ^ - scalePower]. *)
Definition decimal_builder (negative : bool) (coefficient : string) (scalePower : Z) : string :=
  let requiredScale := Z.max 0 scalePower in
  sign_text negative +:+
  (if requiredScale =? 0 then coefficient +:+ zeros (Z.to_nat (- scalePower))
   else if slen coefficient <=? requiredScale then
     "0." +:+ zeros (Z.to_nat (requiredScale - slen coefficient)) +:+ coefficient
   else
     let split := Z.to_nat (slen coefficient - requiredScale) in
     stake split coefficient +:+ "." +:+ sdrop split coefficient).

(** The checks of a nonzero value, and its text. *)
Definition decimal_result (precision scale : Z) (unsigned negative : bool) (coefficient : string) (scalePower : Z) : result string :=
  if? negative && unsigned return decimal_error "negative decimal is not representable by the unsigned source" then
  let integerDigits :=
    if scalePower <? 0 then slen coefficient - scalePower
    else if scalePower <? slen coefficient then slen coefficient - scalePower else 0 in
  let requiredScale := Z.max 0 scalePower in
  if? (scale <? requiredScale) || (precision - scale <? integerDigits)
  return decimal_error "decimal value is not exactly representable by the source precision and scale" then
  Ok (decimal_builder negative coefficient scalePower).

(** The text after the sign; [total] is the length of the whole text. *)
Definition exact_decimal_body (precision scale : Z) (unsigned negative : bool) (total : Z) (body : string) : result string :=
  let '(mantissa, exponentText) := cut_exponent body in
  let? exponent :=
    if slen mantissa <? slen body then
      match parseBoundedKeysetDecimalExponent exponentText (total + precision + scale + 1) with
      | None => Err (decimal_error "decimal exponent is invalid")
      | Some exponent => Ok exponent
      end
    else Ok 0 in
  let? st := scan_mantissa precision mantissa scan_start in
  if? (ds_digitsBeforePoint st =? 0) || (ds_decimalPoint st && (ds_digitsAfterPoint st =? 0)) return bad_mantissa then
  if negb (ds_nonzero st) then Ok "0"
  else
    decimal_result precision scale unsigned negative (ds_coefficient st)
      (ds_fractionalDigits st - exponent - Z.of_nat (ds_pendingZeros st)).

Definition normalizeExactKeysetDecimal (text : string) (precision scale : Z) (unsigned : bool) : result string :=
  match text with
  | EmptyString => Err (decimal_error "decimal value is empty")
  | String c rest =>
      if Ascii.eqb c "-" then
        if? String.eqb rest EmptyString return decimal_error "decimal value has no digits" then
        exact_decimal_body precision scale unsigned true (slen text) rest
      else
        if? Ascii.eqb c "+" return decimal_error "decimal value has a leading plus sign" then
        exact_decimal_body precision scale unsigned false (slen text) text
  end.

Example decimals_example :
  map (fun t => normalizeExactKeysetDecimal t 5 2 false) ["1.50"; "-00.050"; "12e1"; "1200e-4"; "-0e9"] =
    [Ok "1.5"; Ok "-0.05"; Ok "120"; Ok "0.12"; Ok "0"] /\
  map (fun t => is_ok (normalizeExactKeysetDecimal t 5 2 false)) ["1.505"; "1000"; "1e99999999999999999999"; "1."; ".5"; "+1"; "1e"; "--1"] =
    [false; false; false; false; false; false; false; false].
Proof. vm_compute. done. Qed.

(** ** The abstract decimal *)

(** The [k] digits of [v]. *)
Fixpoint pad (k : nat) (v : Z) : string :=
  match k with O => EmptyString | S k' => pad k' (v / 10) +:+ String (digit_char v) EmptyString end.

(** The plain text of [c / 10 ^ scale], without a point unless a fraction is left. *)
Definition decimal_text (scale : nat) (c : Z) : string :=
  let fraction := trim_right_by (Ascii.eqb "0") (pad scale (Z.abs c mod 10 ^ Z.of_nat scale)) in
  sign_text (c <? 0) +:+ itoa (Z.abs c / 10 ^ Z.of_nat scale) +:+ print_fraction (fraction_of fraction).

(** Decimal literals, with zeros allowed in front. *)
Definition wf_literal (n : number) : bool :=
  wf_digits (n_integer n) && match n_fraction n with None => true | Some f => wf_digits f end && wf_exponent (n_exponent n).

(** The literal [n] writes [c / 10 ^ scale]. *)
Definition writes (n : number) (scale c : Z) : Prop :=
  scaled (signed (n_negative n) (digits_value (n_integer n +:+ fraction_digits n)))
         (exponent_value (n_exponent n) - slen (fraction_digits n) + scale) c.

(** ** The exponent *)

(** Two exponents are as good as one another when both are past the maximum. *)
Definition saturates (maximum e e' : Z) : Prop :=
  e' = e \/ maximum <= e /\ maximum <= e' \/ e <= - maximum /\ e' <= - maximum.

Lemma bounded_exponent_spec maximum ds : all_digits ds = true -> 0 <= maximum -> forall v w, 0 <= v -> 0 <= w ->
  v = w \/ maximum <= v /\ maximum <= w ->
  exists e, bounded_exponent maximum v ds = Some e /\ 0 <= e /\ (e = digits_from w ds \/ maximum <= e /\ maximum <= digits_from w ds).
Proof.
  intros Hd Hm. induction ds as [|c ds IH]; intros v w Hv Hw Hc; cbn [bounded_exponent digits_from].
  { exists v. naive_solver. }
  cbn [sforall] in Hd. apply andb_true_iff in Hd as [Hb Hs]. rewrite Hb. apply digit_bounds in Hb. cbn [negb].
  pose proof (Z.quot_rem' (maximum - digit c) 10) as Hq.
  assert (Hr : (0 <= maximum - digit c /\ 0 <= Z.rem (maximum - digit c) 10 < 10) \/ maximum < digit c /\ Z.quot (maximum - digit c) 10 = 0).
  { destruct (Z.le_gt_cases 0 (maximum - digit c)); [left; split; [done|by apply Z.rem_bound_pos]|right; split; [lia|]].
    rewrite <- (Z.opp_involutive (maximum - digit c)), Z.quot_opp_l, Z.quot_small by lia. done. }
  destruct (Z.ltb_spec (Z.quot (maximum - digit c) 10) v) as [H|H]; apply IH; try done; lia.
Qed.

Lemma bounded_exponent_digits maximum ds : forall v e, bounded_exponent maximum v ds = Some e -> all_digits ds = true.
Proof.
  induction ds as [|c ds IH]; intros v e H; [done|]. cbn [bounded_exponent sforall] in *.
  destruct (is_digit c); [|done]. cbn [negb andb] in *. destruct (_ <? v); by eapply IH.
Qed.

Definition wf_sign (sign : option ascii) : bool := match sign with None => true | Some c => is_sign c end.

Lemma minus_sign c : is_sign c = true -> match Some c with Some "-"%char => true | _ => false end = Ascii.eqb c "-".
Proof. unfold is_sign. by intros [->%Ascii.eqb_eq | ->%Ascii.eqb_eq]%orb_true_iff. Qed.

Lemma not_minus_sign c : is_sign c = false -> Ascii.eqb c "-" = false.
Proof. unfold is_sign. by intros [_ ?]%orb_false_iff. Qed.

Lemma saturates_signed maximum negative v w : 0 <= v -> 0 <= w -> v = w \/ maximum <= v /\ maximum <= w ->
  saturates maximum (signed negative w) (if negative then - v else v).
Proof. unfold saturates, signed. destruct negative; lia. Qed.

Lemma parseBounded_complete mark sign ds maximum : 0 <= maximum -> wf_sign sign = true -> wf_digits ds = true ->
  exists e, parseBoundedKeysetDecimalExponent (print_signed sign ds) maximum = Some e /\
    saturates maximum (exponent_value (Some (mark, sign, ds))) e.
Proof.
  intros Hm Hs Hw. unfold wf_digits in Hw. apply andb_true_iff in Hw as [Hne Hd]. apply negb_true_iff in Hne.
  destruct (bounded_exponent_spec maximum ds Hd Hm 0 0) as (v & E & Hv & Hc); [lia..|]. fold (digits_value ds) in Hc.
  pose proof (digits_value_bounds ds Hd). unfold parseBoundedKeysetDecimalExponent, exponent_value.
  destruct sign as [c|]; cbn [print_signed wf_sign] in *.
  - rewrite Hs, Hne, E, minus_sign by done. cbn. eexists. split; [done|]. apply saturates_signed; lia.
  - destruct ds as [|c ds]; [done|]. assert (Hd' : is_digit c = true) by (cbn [sforall] in Hd; by apply andb_true_iff in Hd as [? _]).
    apply is_digit_not_sign in Hd'. rewrite Hd', Hne, E, not_minus_sign by done. cbn. exists v. split; [done|].
    by apply (saturates_signed maximum false v (digits_value (String c ds))); [|apply digits_value_bounds|].
Qed.

Lemma parseBounded_sound text maximum e : parseBoundedKeysetDecimalExponent text maximum = Some e ->
  exists sign ds, text = print_signed sign ds /\ wf_sign sign = true /\ wf_digits ds = true.
Proof.
  intros H. unfold parseBoundedKeysetDecimalExponent in H. destruct text as [|c rest]; [done|].
  set (digits := if is_sign c then rest else String c rest) in *.
  destruct (String.eqb_spec digits EmptyString) as [|Hne]; [done|].
  destruct (bounded_exponent maximum 0 digits) as [v|] eqn:E; [|done].
  pose proof (bounded_exponent_digits _ _ _ _ E) as Hd.
  assert (Hw : wf_digits digits = true) by (unfold wf_digits; by rewrite Hd, (proj2 (String.eqb_neq _ _) Hne)).
  exists (if is_sign c then Some c else None), digits. subst digits. by destruct (is_sign c) eqn:Hs.
Qed.

(** ** The mantissa *)

(** The digits without leading zeros, and without trailing ones either. *)
Abbreviation zero_byte := (Ascii.eqb "0").
Definition significant (digits : string) : string := trim_left_by zero_byte digits.
Definition core (digits : string) : string := trim_right_by zero_byte (significant digits).
Definition pending (digits : string) : nat := String.length (significant digits) - String.length (core digits).

Lemma slength_app a b : String.length (a +:+ b) = (String.length a + String.length b)%nat.
Proof. induction a as [|c a IH]; [done|]. rewrite sapp_cons. cbn. by rewrite IH. Qed.

Lemma app_one a c s : (a +:+ String c EmptyString) +:+ s = a +:+ String c s.
Proof. by rewrite sapp_assoc, sapp_cons, sapp_nil_l. Qed.

Lemma zeros_snoc n : zeros n +:+ "0" = zeros (S n).
Proof. induction n as [|n IH]; [done|]. cbn [zeros]. rewrite sapp_cons, IH. done. Qed.

Lemma zeros_length n : String.length (zeros n) = n.
Proof. induction n; cbn; lia. Qed.

Lemma slen_zeros n : slen (zeros n) = Z.of_nat n.
Proof. unfold slen. by rewrite zeros_length. Qed.

Lemma sforall_zeros s : sforall zero_byte s = true -> s = zeros (String.length s).
Proof.
  induction s as [|c s IH]; [done|]. cbn [sforall String.length zeros]. intros [<-%Ascii.eqb_eq Hs]%andb_true_iff. by rewrite <- IH.
Qed.

Lemma trim_zeros_back s : s = trim_right_by zero_byte s +:+ zeros (String.length s - String.length (trim_right_by zero_byte s)).
Proof.
  remember (String.length s) as n eqn:Hn. revert s Hn. induction n as [|n IH]; intros s Hn.
  { destruct s; [done|discriminate]. }
  destruct (string_snoc s) as [->|(a & c & ->)]; [done|]. rewrite trim_right_snoc.
  rewrite slength_app in Hn. cbn in Hn.
  destruct (Ascii.eqb_spec "0" c) as [<-|Hz].
  - rewrite (IH a) at 1 by lia. rewrite sapp_assoc, zeros_snoc.
    assert (Hl : (String.length (trim_right_by zero_byte a) <= String.length a)%nat).
    { pose proof (f_equal String.length (IH a ltac:(lia))) as E. rewrite slength_app in E. lia. }
    do 3 f_equal. lia.
  - rewrite slength_app. cbn. replace (S n - (String.length a + 1))%nat with O by lia. by rewrite sapp_nil_r.
Qed.

Lemma significant_split digits : significant digits = core digits +:+ zeros (pending digits).
Proof. apply trim_zeros_back. Qed.

Lemma significant_snoc digits c : significant (digits +:+ String c EmptyString) =
  if sforall zero_byte digits && zero_byte c then EmptyString else significant digits +:+ String c EmptyString.
Proof.
  unfold significant. rewrite trim_left_app. destruct (sforall zero_byte digits) eqn:E; [|done]. cbn [andb trim_left_by].
  assert (Hs : trim_left_by zero_byte digits = EmptyString).
  { clear c. induction digits as [|d s IH]; [done|]. cbn [sforall trim_left_by] in *. apply andb_true_iff in E as [-> E]. by apply IH. }
  rewrite Hs. by destruct (zero_byte c).
Qed.

Lemma core_empty digits : core digits = EmptyString <-> sforall zero_byte digits = true.
Proof.
  unfold core. split.
  - intros H. pose proof (trim_zeros_back (significant digits)) as E. rewrite H, sapp_nil_l in E. unfold significant in E. clear H.
    induction digits as [|c s IH]; [done|]. cbn [trim_left_by sforall] in *. destruct (Ascii.eqb_spec "0" c) as [<-|Hc]; [by apply IH|].
    exfalso. cbn [String.length Nat.sub zeros] in E. injection E as -> _. done.
  - intros H. replace (significant digits) with EmptyString; [done|]. symmetry. unfold significant.
    induction digits as [|d s IH]; [done|]. cbn [sforall trim_left_by] in *. apply andb_true_iff in H as [-> H]. by apply IH.
Qed.

Lemma core_snoc_zero digits : core (digits +:+ "0") = core digits /\
  pending (digits +:+ "0") = if String.eqb (core digits) EmptyString then O else S (pending digits).
Proof.
  assert (Hc : core (digits +:+ "0") = core digits).
  { unfold core. rewrite significant_snoc. destruct (sforall zero_byte digits) eqn:E; cbn [andb zero_byte Ascii.eqb Bool.eqb].
    - apply core_empty in E. unfold core in E. by rewrite E.
    - by rewrite trim_right_snoc. }
  split; [done|]. unfold pending. rewrite Hc, significant_snoc.
  destruct (String.eqb_spec (core digits) EmptyString) as [E|E].
  - apply core_empty in E as E'. rewrite E'. done.
  - assert (Hn : sforall zero_byte digits = false) by (apply not_true_iff_false; by rewrite <- core_empty).
    rewrite Hn. cbn [andb]. rewrite slength_app. cbn.
    pose proof (f_equal String.length (significant_split digits)) as Hl. rewrite slength_app in Hl. lia.
Qed.

Lemma core_snoc digits c : c <> "0"%char -> core (digits +:+ String c EmptyString) = core digits +:+ zeros (pending digits) +:+ String c EmptyString /\
  pending (digits +:+ String c EmptyString) = O.
Proof.
  intros Hc. assert (Hz : zero_byte c = false) by (apply Ascii.eqb_neq; congruence).
  assert (E : core (digits +:+ String c EmptyString) = significant (digits +:+ String c EmptyString)).
  { unfold core. rewrite significant_snoc, Hz, andb_false_r, trim_right_snoc. by rewrite Hz. }
  split.
  - rewrite E, significant_snoc, Hz, andb_false_r, significant_split, sapp_assoc. done.
  - unfold pending. rewrite E. lia.
Qed.

Lemma core_empty_pending digits : core digits = EmptyString -> pending digits = O.
Proof.
  intros H. unfold pending. apply core_empty in H. replace (significant digits) with EmptyString; [done|]. symmetry. unfold significant.
  induction digits as [|d s IH]; [done|]. cbn [sforall trim_left_by] in *. apply andb_true_iff in H as [-> H]. by apply IH.
Qed.

(** The state of the loop after the text [i], or [i] and a point and [f]. *)
Definition all_of (i : string) (f : option string) : string := i +:+ default EmptyString f.

Definition scan_of (i : string) (f : option string) : decimal_scan := {|
  ds_coefficient := core (all_of i f); ds_pendingZeros := pending (all_of i f);
  ds_fractionalDigits := slen (default EmptyString f); ds_digitsBeforePoint := slen i;
  ds_digitsAfterPoint := slen (default EmptyString f); ds_decimalPoint := match f with None => false | Some _ => true end;
  ds_nonzero := negb (String.eqb (core (all_of i f)) EmptyString) |}.

Definition extend (c : ascii) (p : string * option string) : string * option string :=
  match p with
  | (i, None) => (i +:+ String c EmptyString, None)
  | (i, Some f) => (i, Some (f +:+ String c EmptyString))
  end.

Lemma all_of_extend c i f : all_of (extend c (i, f)).1 (extend c (i, f)).2 = all_of i f +:+ String c EmptyString.
Proof. unfold all_of. destruct f; cbn; by rewrite ?sapp_nil_r, ?sapp_assoc. Qed.

Lemma scan_of_ext i f coefficient pendingZeros fractional before point nonzero :
  coefficient = core (all_of i f) -> pendingZeros = pending (all_of i f) -> fractional = slen (default EmptyString f) ->
  before = slen i -> point = (match f with None => false | Some _ => true end) ->
  nonzero = negb (String.eqb (core (all_of i f)) EmptyString) ->
  {| ds_coefficient := coefficient; ds_pendingZeros := pendingZeros; ds_fractionalDigits := fractional;
     ds_digitsBeforePoint := before; ds_digitsAfterPoint := fractional; ds_decimalPoint := point; ds_nonzero := nonzero |} = scan_of i f.
Proof. by intros -> -> -> -> -> ->. Qed.

Lemma scan_digit precision c i f : is_digit c = true -> slen (core (all_of i f)) <= precision ->
  scan_step precision c (scan_of i f) =
  if slen (core (all_of i f +:+ String c EmptyString)) <=? precision
  then Ok (scan_of (extend c (i, f)).1 (extend c (i, f)).2)
  else Err (decimal_error "decimal value exceeds the source precision").
Proof.
  intros Hc Hp. unfold scan_step. rewrite (digit_not_dot c Hc), Hc. cbn [negb].
  destruct (Ascii.eqb_spec c "0") as [->|Hz].
  - destruct (core_snoc_zero (all_of i f)) as [E1 E2]. rewrite E1, (proj2 (Z.leb_le _ _) Hp). f_equal.
    apply scan_of_ext; unfold scan_of; cbn [ds_coefficient ds_pendingZeros ds_fractionalDigits ds_digitsBeforePoint ds_digitsAfterPoint ds_decimalPoint ds_nonzero]; rewrite ?all_of_extend, ?E1, ?E2; try done; destruct f; cbn [extend fst snd default from_option];
      unfold id; rewrite ?slen_app; try (change (slen "0") with 1; lia); cbn [negb]; try done;
      match goal with |- context [String.eqb (core ?x) EmptyString] => destruct (String.eqb_spec (core x) EmptyString) as [E|] end;
      cbn [negb]; try done; by rewrite core_empty_pending.
  - destruct (core_snoc (all_of i f) c Hz) as [E1 E2]. 
    change (ds_coefficient (scan_of i f)) with (core (all_of i f)). change (ds_pendingZeros (scan_of i f)) with (pending (all_of i f)).
    cbn [ds_coefficient ds_pendingZeros ds_fractionalDigits ds_digitsBeforePoint ds_digitsAfterPoint ds_decimalPoint ds_nonzero].
    assert (El : slen (core (all_of i f +:+ String c EmptyString)) = slen (core (all_of i f)) + Z.of_nat (pending (all_of i f)) + 1).
    { rewrite E1, !slen_app, slen_zeros, slen_cons. change (slen EmptyString) with 0. lia. }
    rewrite El. destruct (Z.leb_spec (slen (core (all_of i f)) + Z.of_nat (pending (all_of i f)) + 1) precision) as [H|H];
      [rewrite (proj2 (Z.ltb_ge _ _) H)|by rewrite (proj2 (Z.ltb_lt _ _) H)]. f_equal.
    apply scan_of_ext; unfold scan_of; cbn [ds_coefficient ds_pendingZeros ds_fractionalDigits ds_digitsBeforePoint ds_digitsAfterPoint ds_decimalPoint ds_nonzero]; rewrite ?all_of_extend, ?E1, ?E2; try done; destruct f; cbn [extend fst snd default from_option];
      unfold id; rewrite ?slen_app, ?slen_cons; change (slen EmptyString) with 0; cbn; try lia; try done.
    all: symmetry; apply negb_true_iff, String.eqb_neq; intros E; apply (f_equal String.length) in E; rewrite !slength_app in E; cbn in E; lia.
Qed.

(** A run of digits. *)
Definition extend_all (s : string) (p : string * option string) : string * option string :=
  match p with (i, None) => (i +:+ s, None) | (i, Some f) => (i, Some (f +:+ s)) end.

Lemma core_grows digits c : slen (core digits) <= slen (core (digits +:+ String c EmptyString)).
Proof.
  destruct (Ascii.eqb_spec c "0") as [->|Hz].
  - by rewrite (proj1 (core_snoc_zero digits)).
  - rewrite (proj1 (core_snoc digits c Hz)), slen_app. pose proof (slen_nonneg (zeros (pending digits) +:+ String c EmptyString)). lia.
Qed.

Lemma core_grows_all s : forall digits, slen (core digits) <= slen (core (digits +:+ s)).
Proof.
  induction s as [|c s IH]; intros digits; [by rewrite sapp_nil_r|].
  replace (digits +:+ String c s) with ((digits +:+ String c EmptyString) +:+ s) by (by apply app_one).
  pose proof (core_grows digits c). specialize (IH (digits +:+ String c EmptyString)). lia.
Qed.

Lemma scan_digits precision s : all_digits s = true -> forall i f rest, slen (core (all_of i f)) <= precision ->
  scan_mantissa precision (s +:+ rest) (scan_of i f) =
  if slen (core (all_of i f +:+ s)) <=? precision
  then scan_mantissa precision rest (scan_of (extend_all s (i, f)).1 (extend_all s (i, f)).2)
  else Err (decimal_error "decimal value exceeds the source precision").
Proof.
  induction s as [|c s IH]; intros Hd i f rest Hp.
  - rewrite sapp_nil_r, (proj2 (Z.leb_le _ _) Hp). destruct f; cbn [extend_all fst snd]; by rewrite sapp_nil_r.
  - cbn [sforall] in Hd. apply andb_true_iff in Hd as [Hc Hs]. rewrite sapp_cons. cbn [scan_mantissa].
    rewrite scan_digit by done.
    replace (all_of i f +:+ String c s) with ((all_of i f +:+ String c EmptyString) +:+ s) by (by apply app_one).
    destruct (Z.leb_spec (slen (core (all_of i f +:+ String c EmptyString))) precision) as [H|H]; cbn [rbind].
    + rewrite (IH Hs), all_of_extend by (by rewrite all_of_extend). destruct f; cbn [extend extend_all fst snd]; by rewrite !app_one.
    + pose proof (core_grows_all s (all_of i f +:+ String c EmptyString)). by rewrite (proj2 (Z.leb_gt _ _)) by lia.
Qed.

(** The mantissas that the loop accepts. *)
Definition wf_mantissa (i : string) (f : option string) : bool :=
  wf_digits i && match f with None => true | Some f => wf_digits f end.

Lemma wf_digits_true s : wf_digits s = true <-> s <> EmptyString /\ all_digits s = true.
Proof. unfold wf_digits. by rewrite andb_true_iff, negb_true_iff, String.eqb_neq. Qed.

Lemma span_digits s : exists a b, s = a +:+ b /\ all_digits a = true /\ starts_with is_digit b = false.
Proof.
  induction s as [|c s (a & b & -> & Ha & Hb)]; [by exists EmptyString, EmptyString|].
  destruct (is_digit c) eqn:Hc.
  - exists (String c a), b. cbn [sforall]. by rewrite Hc, Ha.
  - exists EmptyString, (String c (a +:+ b)). done.
Qed.

Lemma scan_start_of : scan_start = scan_of EmptyString None.
Proof. done. Qed.

Lemma scan_point precision i : i <> EmptyString -> scan_step precision "." (scan_of i None) = Ok (scan_of i (Some EmptyString)).
Proof.
  intros Hi. unfold scan_step. cbn [Ascii.eqb Bool.eqb].
  assert (Hz : (ds_digitsBeforePoint (scan_of i None) =? 0) = false).
  { unfold scan_of; cbn [ds_digitsBeforePoint]. apply Z.eqb_neq. destruct i; [done|]. rewrite slen_cons. pose proof (slen_nonneg i). lia. }
  rewrite Hz. done.
Qed.

Lemma slen_zero s : slen s = 0 <-> s = EmptyString.
Proof. destruct s; [done|]. rewrite slen_cons. pose proof (slen_nonneg s). split; [lia|done]. Qed.

(** The loop and the check after it. *)
Lemma scan_mantissa_iff precision mantissa st : 0 <= precision ->
  scan_mantissa precision mantissa scan_start = Ok st /\
  (ds_digitsBeforePoint st =? 0) || (ds_decimalPoint st && (ds_digitsAfterPoint st =? 0)) = false <->
  exists i f, mantissa = i +:+ print_fraction f /\ wf_mantissa i f = true /\ slen (core (all_of i f)) <= precision /\ st = scan_of i f.
Proof.
  intros Hp. rewrite scan_start_of. destruct (span_digits mantissa) as (i & rest & -> & Hi & Hr).
  rewrite scan_digits by done. cbn [extend_all fst snd]. rewrite sapp_nil_l. replace (all_of EmptyString None +:+ i) with i by done.
  assert (Hnone : all_of i None = i) by apply sapp_nil_r.
  destruct rest as [|c rest].
  - rewrite sapp_nil_r. cbn [scan_mantissa]. split.
    + intros [H1 H2]. destruct (Z.leb_spec (slen (core i)) precision) as [Hl|]; [|done]. injection H1 as <-.
      exists i, None. apply orb_false_iff in H2 as [H2%Z.eqb_neq _]. cbn [print_fraction]. rewrite sapp_nil_r, Hnone.
      split_and!; try done. unfold wf_mantissa. rewrite andb_true_r. apply wf_digits_true. split; [|done].
      intros ->. by apply H2.
    + intros (j & f & E & Hw & Hl & ->). unfold wf_mantissa in Hw. apply andb_true_iff in Hw as [Hj%wf_digits_true Hf].
      destruct f as [f|]; [exfalso|].
      * cbn [print_fraction] in E. assert (Hno : no_byte "." i) by (by apply digits_no_byte). unfold no_byte in Hno.
        rewrite E, sforall_app in Hno. cbn [sforall] in Hno. by rewrite andb_false_r in Hno.
      * cbn [print_fraction] in E. rewrite sapp_nil_r in E. subst j. rewrite Hnone in Hl. rewrite (proj2 (Z.leb_le _ _) Hl).
        split; [done|]. apply orb_false_iff. split; [|done]. apply Z.eqb_neq. change (slen i <> 0). rewrite slen_zero. apply Hj.
  - assert (Hc : is_digit c = false) by exact Hr. destruct (Ascii.eqb_spec c ".") as [->|Hdot].
    + destruct (span_digits rest) as (f & tail & -> & Hf & Ht). destruct (decide (i = EmptyString)) as [->|Hne].
      { split.
        - intros [H _]. exfalso. by destruct (_ <=? precision) in H.
        - intros (j & g & E & Hw & _). unfold wf_mantissa in Hw. apply andb_true_iff in Hw as [[Hj Hd]%wf_digits_true _].
          destruct j as [|d j]; [done|]. rewrite sapp_nil_l, sapp_cons in E. injection E as <- _. cbn [sforall] in Hd.
          by apply andb_true_iff in Hd as [Hd _]. }
      change (EmptyString +:+ i) with i. cbn [scan_mantissa]. rewrite scan_point by done. cbn [rbind].
      assert (Hall : all_of i (Some f) = i +:+ f) by done.
      assert (Hstep : slen (core i) <= precision ->
        scan_mantissa precision (f +:+ tail) (scan_of i (Some EmptyString)) =
        if slen (core (i +:+ f)) <=? precision then scan_mantissa precision tail (scan_of i (Some f))
        else Err (decimal_error "decimal value exceeds the source precision")).
      { intros Hl. rewrite scan_digits; [|done|unfold all_of; cbn [default from_option]; unfold id; by rewrite sapp_nil_r].
        cbn [extend_all fst snd]. rewrite sapp_nil_l. unfold all_of. cbn [default from_option]. unfold id. by rewrite sapp_nil_r. }
      pose proof (core_grows_all f i) as Hg. split.
      * intros [H1 H2]. destruct (Z.leb_spec (slen (core i)) precision) as [Hl|]; [|done]. rewrite Hstep in H1 by done.
        destruct (Z.leb_spec (slen (core (i +:+ f))) precision) as [Hl'|]; [|done]. destruct tail as [|d tail].
        -- cbn [scan_mantissa] in H1. injection H1 as <-. exists i, (Some f). rewrite sapp_nil_r. split_and!; try done.
           unfold wf_mantissa. rewrite andb_true_iff, !wf_digits_true. split_and!; try done. intros ->.
           apply orb_false_iff in H2 as [_ H2]. done.
        -- exfalso. cbn [scan_mantissa] in H1. assert (Hd : is_digit d = false) by exact Ht. unfold scan_step in H1.
           rewrite Hd in H1. by destruct (Ascii.eqb d ".").
      * intros (j & g & E & Hw & Hl & ->). unfold wf_mantissa in Hw. apply andb_true_iff in Hw as [[Hj Hjd]%wf_digits_true Hg'].
        destruct g as [g|]; cbn [print_fraction] in E.
        -- apply no_byte_app_inj in E as [<- E]; [|by apply digits_no_byte..]. apply wf_digits_true in Hg' as [Hgn Hgd].
           assert (f = g /\ tail = EmptyString) as [-> ->].
           { clear -E Hf Ht Hgd. revert g E Hgd. induction f as [|a f IH]; intros g E Hgd.
             - rewrite sapp_nil_l in E. subst tail. destruct g as [|b g]; [done|]. cbn [sforall starts_with] in *.
               apply andb_true_iff in Hgd as [Hb _]. congruence.
             - rewrite sapp_cons in E. destruct g as [|b g]; [done|]. injection E as -> E. cbn [sforall] in *.
               apply andb_true_iff in Hf as [_ Hf], Hgd as [_ Hgd]. by destruct (IH Hf g E Hgd) as [-> ->]. }
           rewrite Hall in Hl. rewrite (proj2 (Z.leb_le (slen (core i)) precision)) by lia. rewrite Hstep by lia.
           rewrite (proj2 (Z.leb_le _ _) Hl). cbn [scan_mantissa]. split; [done|]. apply orb_false_iff.
           split; [|apply andb_false_iff; right]; apply Z.eqb_neq; cbn; by rewrite slen_zero.
        -- exfalso. rewrite sapp_nil_r in E. assert (Hno : no_byte "." j) by (by apply digits_no_byte). unfold no_byte in Hno.
           rewrite <- E, sforall_app in Hno. cbn [sforall] in Hno. by rewrite andb_false_r in Hno.
    + split.
      * intros [H1 _]. exfalso. destruct (slen (core i) <=? precision); [|done]. cbn [scan_mantissa] in H1. unfold scan_step in H1.
        rewrite (proj2 (Ascii.eqb_neq c ".") Hdot), Hc in H1. done.
      * intros (j & g & E & Hw & _). exfalso. unfold wf_mantissa in Hw. apply andb_true_iff in Hw as [[Hj Hjd]%wf_digits_true Hg'].
        assert (Hin : sforall (fun d => is_digit d || Ascii.eqb d ".") (i +:+ String c rest) = true).
        { rewrite E. apply mantissa_chars; [done|]. destruct g as [g|]; [|done]. by apply wf_digits_true in Hg' as [_ ?]. }
        rewrite sforall_app in Hin. cbn [sforall] in Hin. rewrite Hc, (proj2 (Ascii.eqb_neq c ".") Hdot) in Hin. by rewrite andb_false_r in Hin.
Qed.

(** ** The value of the digits *)

(** Coefficients: no zero in front and none at the end. *)
Definition tight (k : string) : Prop := canonical_digits k /\ ends_nonzero k.

Lemma zeros_no_value n : digits_value (zeros n) = 0.
Proof. unfold digits_value. by rewrite digits_zeros. Qed.

Lemma digits_core digits : digits_value digits = digits_value (core digits) * 10 ^ Z.of_nat (pending digits).
Proof.
  rewrite <- (trim_zeros_value digits). change (trim_left_by zero_byte digits) with (significant digits).
  rewrite significant_split, digits_value_app, slen_zeros, zeros_no_value. lia.
Qed.

Lemma significant_digits digits : all_digits digits = true ->
  all_digits (significant digits) = true /\ starts_with zero_byte (significant digits) = false.
Proof.
  intros Hd. split; [by apply trim_zeros_digits|]. unfold significant. clear Hd.
  induction digits as [|c s IH]; [done|]. cbn [trim_left_by]. by destruct (zero_byte c) eqn:E.
Qed.

Lemma core_tight digits : all_digits digits = true -> core digits <> EmptyString -> tight (core digits).
Proof.
  intros Hd Hne. destruct (significant_digits digits Hd) as [Hs Hz].
  destruct (trim_right_zeros _ Hs) as (Ht & [E|He] & _); [by destruct Hne|]. split; [|exact He].
  split_and!; [done|exact Ht|]. intros H. exfalso. rewrite significant_split in Hz.
  destruct (core digits) as [|c s]; [done|]. rewrite sapp_cons in Hz. cbn [starts_with] in *. congruence.
Qed.

Lemma tight_value k : tight k -> 0 < digits_value k /\ digits_value k mod 10 <> 0 /\
  10 ^ (slen k - 1) <= digits_value k < 10 ^ slen k.
Proof.
  intros [Hc (a & c & -> & Hz)]. pose proof Hc as (_ & Hd & _). pose proof (nonzero_digit c Hz) as [Hb _].
  rewrite sforall_app in Hd. apply andb_true_iff in Hd as [Ha _]. pose proof (digits_value_bounds a Ha).
  assert (E : digits_value (a +:+ String c EmptyString) = digits_value a * 10 + digit c)
    by (rewrite digits_value_app; unfold digits_value at 2; cbn [digits_from]; change (slen (String c EmptyString)) with 1; lia).
  assert (Hp : 0 < digits_value (a +:+ String c EmptyString)) by (rewrite E; lia). split_and!; [done| |by apply canonical_length|].
  - rewrite E, Z.add_comm, Z.mod_add, Z.mod_small by lia. lia.
  - apply digits_value_bounds, Hc.
Qed.

Lemma digit_char_of c q : is_digit c = true -> digit_char (q * 10 + digit c) = c.
Proof.
  intros Hc. pose proof (digit_bounds c Hc) as Hb. unfold digit_char. rewrite (Z.add_comm (q * 10)), Z.mod_add, Z.mod_small by lia.
  unfold digit. replace (48 + (Z.of_N (N_of_ascii c) - 48)) with (Z.of_N (N_of_ascii c)) by lia. by rewrite N2Z.id, ascii_N_embedding.
Qed.

Lemma pad_digits s : all_digits s = true -> pad (String.length s) (digits_value s) = s.
Proof.
  remember (String.length s) as n eqn:Hn. revert s Hn. induction n as [|n IH]; intros s Hn Hd; [by destruct s|].
  destruct (string_snoc s) as [->|(a & c & ->)]; [done|]. rewrite slength_app in Hn. cbn in Hn.
  rewrite sforall_app in Hd. apply andb_true_iff in Hd as [Ha Hc]. cbn [sforall] in Hc. rewrite andb_true_r in Hc.
  pose proof (digit_bounds c Hc). rewrite digits_value_app. change (slen (String c EmptyString)) with 1.
  unfold digits_value at 2. cbn [digits_from pad].
  replace (digits_value a * 10 ^ 1 + (0 * 10 + digit c)) with (digits_value a * 10 + digit c) by lia.
  rewrite digit_char_of by done. rewrite Z.div_add_l, Z.div_small, Z.add_0_r by lia. by rewrite IH by (done || lia).
Qed.

Lemma trim_right_zeros_app s n : trim_right_by zero_byte (s +:+ zeros n) = trim_right_by zero_byte s.
Proof.
  rewrite trim_right_app. replace (sforall zero_byte (zeros n)) with true; [done|].
  symmetry. by induction n.
Qed.

Lemma trim_ends_nonzero s : ends_nonzero s -> trim_right_by zero_byte s = s.
Proof.
  intros (a & c & -> & Hc). rewrite trim_right_snoc. destruct (Ascii.eqb_spec "0" c) as [<-|]; [done|done].
Qed.

Lemma ends_nonzero_suffix a b : b <> EmptyString -> ends_nonzero (a +:+ b) -> ends_nonzero b.
Proof.
  intros Hb (x & c & E & Hc). destruct (string_snoc b) as [->|(y & d & ->)]; [done|]. exists y, d. split; [done|].
  rewrite <- sapp_assoc in E. apply (f_equal srev) in E. rewrite !srev_append in E. cbn in E. injection E as -> _. done.
Qed.

(** The plain text of a value whose fraction is [f] and whose integer part is [i]. *)
Lemma decimal_text_parts (scale : nat) negative i f v :
  canonical_digits i -> all_digits f = true -> (f = EmptyString \/ ends_nonzero f) -> slen f <= Z.of_nat scale ->
  v = digits_value i * 10 ^ Z.of_nat scale + digits_value f * 10 ^ (Z.of_nat scale - slen f) -> 0 < v ->
  decimal_text scale (signed negative v) = sign_text negative +:+ i +:+ print_fraction (fraction_of f).
Proof.
  intros Hi Hf He Hl -> Hv. set (w := digits_value f * 10 ^ (Z.of_nat scale - slen f)) in *.
  assert (Hpad : pad scale w = f +:+ zeros (scale - String.length f)).
  { rewrite <- (pad_digits (f +:+ zeros (scale - String.length f))) by (by rewrite sforall_app, Hf, zeros_digits).
    unfold slen in Hl. rewrite slength_app, zeros_length. f_equal; [lia|]. rewrite digits_value_app, slen_zeros, zeros_no_value. subst w. unfold slen. rewrite Nat2Z.inj_sub by lia. lia. }
  assert (Hw : 0 <= w < 10 ^ Z.of_nat scale).
  { pose proof (digits_value_bounds f Hf). subst w. pose proof (pow10_pos (Z.of_nat scale - slen f) ltac:(lia)).
    pose proof (slen_nonneg f).
    assert (E : 10 ^ Z.of_nat scale = 10 ^ slen f * 10 ^ (Z.of_nat scale - slen f)) by (rewrite <- Z.pow_add_r by lia; f_equal; lia).
    rewrite E. nia. }
  pose proof (digits_value_bounds i (proj1 (proj2 Hi))).
  unfold decimal_text. replace (Z.abs (signed negative _)) with (digits_value i * 10 ^ Z.of_nat scale + w)
    by (unfold signed; destruct negative; lia).
  rewrite Z.div_add_l, (Z.div_small w), Z.add_0_r by lia. rewrite (Z.add_comm _ w), Z.mod_add, (Z.mod_small w) by lia.
  rewrite Hpad, trim_right_zeros_app, itoa_digits by done.
  assert (Hs : trim_right_by zero_byte f = f) by (destruct He as [->|He]; [done|by apply trim_ends_nonzero]).
  rewrite Hs. f_equal. f_equal. unfold signed. destruct negative; [apply Z.ltb_lt|apply Z.ltb_ge]; lia.
Qed.

Lemma tight_not_zero k r : tight k -> starts_with zero_byte (k +:+ r) = false.
Proof.
  intros [(Hn & _ & Hz) (a & c & E & Hc)]. destruct k as [|d s]; [done|]. rewrite sapp_cons. cbn [starts_with] in *.
  destruct (zero_byte d) eqn:Hd; [|done]. specialize (Hz eq_refl). injection Hz as -> ->. exfalso.
  destruct a as [|e a]; [|by destruct a]. injection E as <-. done.
Qed.

Lemma tight_prefix k a b : tight k -> a +:+ b = k -> a <> EmptyString -> canonical_digits a.
Proof.
  intros Hk E Ha. split_and!; [done| |].
  - destruct Hk as [(_ & Hd & _) _]. rewrite <- E, sforall_app in Hd. by apply andb_true_iff in Hd as [? _].
  - intros Hz. exfalso. pose proof (tight_not_zero k EmptyString Hk) as H. rewrite sapp_nil_r, <- E in H.
    destruct a as [|c a]; [done|]. rewrite sapp_cons in H. cbn [starts_with] in *. congruence.
Qed.

Lemma fraction_of_some t : t <> EmptyString -> fraction_of t = Some t.
Proof. by destruct t. Qed.

Lemma decimal_builder_text (scale : nat) negative k sp : tight k -> sp <= Z.of_nat scale ->
  decimal_text scale (signed negative (digits_value k * 10 ^ (Z.of_nat scale - sp))) = decimal_builder negative k sp.
Proof.
  intros Hk Hsp. pose proof (tight_value k Hk) as (Hv & _ & _). pose proof (pow10_pos (Z.of_nat scale - sp) ltac:(lia)).
  destruct Hk as [Hc He] eqn:Hk'. clear Hk'. pose proof (slen_nonneg k). unfold decimal_builder.
  destruct (Z.eqb_spec (Z.max 0 sp) 0) as [Hs|Hs].
  - rewrite (decimal_text_parts scale negative (k +:+ zeros (Z.to_nat (- sp))) EmptyString); [by rewrite sapp_nil_r| |done|by left|change (slen EmptyString) with 0; lia| |nia].
    + split_and!; [|by rewrite sforall_app, zeros_digits, andb_true_r; apply Hc|by rewrite tight_not_zero].
      destruct Hc as [Hn _]. by destruct k.
    + change (digits_value EmptyString) with 0. rewrite digits_value_app, slen_zeros, zeros_no_value.
      replace (Z.of_nat scale - sp) with (Z.of_nat (Z.to_nat (- sp)) + Z.of_nat scale) by lia. rewrite Z.pow_add_r by lia. lia.
  - destruct (Z.leb_spec (slen k) (Z.max 0 sp)) as [Hl|Hl].
    + rewrite (decimal_text_parts scale negative "0" (zeros (Z.to_nat (Z.max 0 sp - slen k)) +:+ k)).
      * rewrite fraction_of_some; [done|]. destruct (zeros _) as [|c z]; [apply Hc|done].
      * done.
      * rewrite sforall_app, zeros_digits. apply Hc.
      * right. destruct He as (a & c & -> & Hz). exists (zeros (Z.to_nat (Z.max 0 sp - slen (a +:+ String c EmptyString))) +:+ a), c.
        by rewrite sapp_assoc.
      * rewrite slen_app, slen_zeros. lia.
      * change (digits_value "0") with 0. rewrite digits_value_app, zeros_no_value, slen_app, slen_zeros. replace (Z.of_nat (Z.to_nat (Z.max 0 sp - slen k)) + slen k) with sp by lia. lia.
      * nia.
    + set (split := Z.to_nat (slen k - Z.max 0 sp)). pose proof (stake_sdrop split k) as E.
      assert (Hf : slen (sdrop split k) = sp) by (rewrite slen_sdrop; lia).
      assert (Hne : sdrop split k <> EmptyString) by (intros Hx; rewrite Hx in Hf; change (slen EmptyString) with 0 in Hf; lia).
      assert (Hi : stake split k <> EmptyString).
      { intros Hx. rewrite Hx, sapp_nil_l in E. rewrite <- E in Hf. lia. }
      rewrite (decimal_text_parts scale negative (stake split k) (sdrop split k)).
      * by rewrite fraction_of_some.
      * by apply (tight_prefix k _ (sdrop split k)).
      * apply sforall_stake_sdrop, Hc.
      * right. apply (ends_nonzero_suffix (stake split k)); [done|]. by rewrite <- E.
      * lia.
      * rewrite E at 1. rewrite digits_value_app, Hf.
        replace (Z.of_nat scale) with (sp + (Z.of_nat scale - sp)) at 2 by lia. rewrite Z.pow_add_r by lia. lia.
      * nia.
Qed.

(** The values that fit: at most [scale] fractional digits and below ten to the precision. *)
Definition fits (precision scale : Z) (k : string) (sp : Z) : Prop :=
  sp <= scale /\ digits_value k * 10 ^ (scale - sp) < 10 ^ precision.

Lemma fits_digits precision scale k sp : tight k -> 0 <= scale <= precision -> sp <= scale ->
  (digits_value k * 10 ^ (scale - sp) < 10 ^ precision <-> slen k + scale - sp <= precision).
Proof.
  intros Hk Hs Hsp. pose proof (tight_value k Hk) as (Hv & _ & Hlo & Hhi). pose proof (slen_nonneg k).
  pose proof (pow10_pos (scale - sp) ltac:(lia)). split; intros H'.
  - destruct (Z.le_gt_cases (slen k + scale - sp) precision) as [|Hg]; [done|exfalso].
    assert (Hl : 1 <= slen k) by (destruct Hk as [[Hn _] _]; destruct k; [done|]; rewrite slen_cons; pose proof (slen_nonneg k); lia).
    assert (Hp : 10 ^ precision <= 10 ^ (slen k - 1 + (scale - sp))) by (apply Z.pow_le_mono_r; lia).
    rewrite Z.pow_add_r in Hp by lia. nia.
  - assert (Hp : 10 ^ (slen k + (scale - sp)) <= 10 ^ precision) by (apply Z.pow_le_mono_r; lia).
    rewrite Z.pow_add_r in Hp by lia. nia.
Qed.

Lemma decimal_result_iff precision (scale : nat) unsigned negative k sp out : tight k -> Z.of_nat scale <= precision ->
  decimal_result precision (Z.of_nat scale) unsigned negative k sp = Ok out <->
  fits precision (Z.of_nat scale) k sp /\ (unsigned = true -> negative = false) /\
  out = decimal_text scale (signed negative (digits_value k * 10 ^ (Z.of_nat scale - sp))).
Proof.
  intros Hk Hs. unfold decimal_result. rewrite if_err_ok.
  assert (Hsize : (Z.of_nat scale <? Z.max 0 sp)
     || (precision - Z.of_nat scale <? (if sp <? 0 then slen k - sp else if sp <? slen k then slen k - sp else 0)) = false <->
     fits precision (Z.of_nat scale) k sp).
  { unfold fits. pose proof (slen_nonneg k). rewrite orb_false_iff, !Z.ltb_ge.
    destruct (Z.ltb_spec sp 0); [|destruct (Z.ltb_spec sp (slen k))]; split; intros [Ha Hb];
      (split; [lia|]); (apply fits_digits in Hb || apply fits_digits); try done; lia. }
  rewrite if_err_ok, Hsize. split.
  - intros (Hn & Hf & [= <-]). split_and!; [done| |symmetry; apply decimal_builder_text; [done|apply Hf]].
    intros ->. by rewrite andb_true_r in Hn.
  - intros (Hf & Hu & ->). split_and!; [|done|f_equal; symmetry; apply decimal_builder_text; [done|apply Hf]].
    destruct unsigned; [by rewrite Hu|by rewrite andb_false_r].
Qed.

Lemma tight_scaled negative k p e c : tight k -> 0 <= p ->
  (scaled (signed negative (digits_value k * 10 ^ p)) e c <->
   0 <= e + p /\ c = signed negative (digits_value k * 10 ^ (e + p))).
Proof.
  intros Hk Hp. pose proof (tight_value k Hk) as (Hv & Hm & _). unfold scaled. destruct (Z.le_gt_cases 0 e) as [He|He].
  - rewrite Z.max_l, Z.max_r, Z.pow_0_r, Z.mul_1_r, Z.pow_add_r by lia. unfold signed. destruct negative; intuition lia.
  - rewrite Z.max_r, Z.max_l, Z.pow_0_r, Z.mul_1_r by lia. destruct (Z.le_gt_cases 0 (e + p)) as [Hep|Hep].
    + replace p with (e + p + - e) at 1 by lia. rewrite Z.pow_add_r by lia. pose proof (pow10_pos (- e) ltac:(lia)).
      unfold signed. destruct negative; split; [intros Hc|intros [_ ->]|intros Hc|intros [_ ->]]; try nia; (split; [done|nia]).
    + split; [|lia]. intros H. exfalso. apply Hm. replace (- e) with (- (e + p) - 1 + 1 + p) in H by lia.
      rewrite !Z.pow_add_r in H by lia. pose proof (pow10_pos p Hp).
      assert (H' : c * 10 ^ (- (e + p) - 1) * 10 = signed negative (digits_value k)) by (unfold signed in *; destruct negative; nia).
      apply Z.mod_divide; [lia|]. unfold signed in H'. destruct negative.
      * exists (- (c * 10 ^ (- (e + p) - 1))). lia.
      * by exists (c * 10 ^ (- (e + p) - 1)).
Qed.

(** A saturated exponent decides nothing wrongly. *)
Lemma saturated_fits precision (scale maximum : Z) k frac p e e' : tight k -> 0 <= scale <= precision ->
  0 <= frac -> 0 <= p -> frac + precision <= maximum -> p + scale < maximum + frac -> saturates maximum e e' ->
  fits precision scale k (frac - e - p) \/ fits precision scale k (frac - e' - p) -> e' = e.
Proof.
  intros Hk Hs Hf Hp Hm1 Hm2 [->|Hsat] Hor; [done|exfalso].
  assert (Hn : forall x, maximum <= x \/ x <= - maximum -> ~ fits precision scale k (frac - x - p)).
  { intros x Hx [H1 H2]. rewrite fits_digits in H2 by done.
    assert (1 <= slen k) by (destruct Hk as [[Hk _] _]; destruct k; [done|]; rewrite slen_cons; pose proof (slen_nonneg k); lia). lia. }
  destruct Hor as [H|H]; eapply Hn; try exact H; lia.
Qed.

(** ** The text as a literal *)

Lemma cut_exponent_spec body : let '(m, e) := cut_exponent body in
  (body = m /\ e = EmptyString) \/ (exists mark, is_exponent_mark mark = true /\ body = m +:+ String mark e).
Proof.
  induction body as [|c s IH]; [by left|]. cbn [cut_exponent]. destruct (is_exponent_mark c) eqn:Hc.
  - right. by exists c.
  - destruct (cut_exponent s) as [m e]. destruct IH as [[-> ->]|(mark & Hm & ->)]; [by left|right]. by exists mark.
Qed.

Definition literal_of (negative : bool) (i : string) (f : option string) e : number :=
  {| n_negative := negative; n_integer := i; n_fraction := f; n_exponent := e |}.

(** What the parser reads from the exponent. *)
Definition read_exponent (maximum : Z) (e : option (ascii * option ascii * string)) : Z :=
  match e with
  | None => 0
  | Some (_, sign, ds) => default 0 (parseBoundedKeysetDecimalExponent (print_signed sign ds) maximum)
  end.

Definition decimal_after (precision scale : Z) (unsigned negative : bool) (i : string) (f : option string) (exponent : Z) : result string :=
  if String.eqb (core (all_of i f)) EmptyString then Ok "0"
  else decimal_result precision scale unsigned negative (core (all_of i f))
         (slen (default EmptyString f) - exponent - Z.of_nat (pending (all_of i f))).

Lemma read_exponent_saturates maximum e : 0 <= maximum -> wf_exponent e = true -> saturates maximum (exponent_value e) (read_exponent maximum e).
Proof.
  intros Hm He. destruct e as [[[mark sign] ds]|]; [|by left]. cbn [wf_exponent read_exponent] in *.
  rewrite !andb_true_iff in He. destruct He as [[_ Hs] Hd].
  by destruct (parseBounded_complete mark sign ds maximum Hm Hs Hd) as (x & -> & Hx).
Qed.

Lemma exact_body_iff precision scale unsigned negative total body out : 0 <= precision -> 0 <= total + precision + scale + 1 ->
  exact_decimal_body precision scale unsigned negative total body = Ok out <->
  exists i f e, body = i +:+ print_fraction f +:+ print_exponent e /\ wf_mantissa i f = true /\ wf_exponent e = true /\
    slen (core (all_of i f)) <= precision /\
    decimal_after precision scale unsigned negative i f (read_exponent (total + precision + scale + 1) e) = Ok out.
Proof.
  intros Hp Hmax. unfold exact_decimal_body. split.
  - pose proof (cut_exponent_spec body) as Hcut. destruct (cut_exponent body) as [m t].
    destruct (if slen m <? slen body then _ else _) as [x|] eqn:Hx; [|done]. cbn [rbind].
    destruct (scan_mantissa precision m scan_start) as [st|] eqn:Hst; [|done]. cbn [rbind]. rewrite if_err_ok. intros [Hok H].
    destruct (proj1 (scan_mantissa_iff precision m st Hp) (conj Hst Hok)) as (i & f & -> & Hw & Hl & ->).
    assert (He : exists e, body = (i +:+ print_fraction f) +:+ print_exponent e /\ wf_exponent e = true /\
                           x = read_exponent (total + precision + scale + 1) e).
    { destruct Hcut as [[-> ->]|(mark & Hm & ->)].
      - exists None. rewrite Z.ltb_irrefl in Hx. injection Hx as <-. by rewrite sapp_nil_r.
      - rewrite (proj2 (Z.ltb_lt _ _)) in Hx by (rewrite (slen_app (i +:+ print_fraction f)), slen_cons; pose proof (slen_nonneg t); lia).
        destruct (parseBoundedKeysetDecimalExponent t _) as [y|] eqn:Hy; [|done]. injection Hx as ->.
        destruct (parseBounded_sound _ _ _ Hy) as (sign & ds & -> & Hs & Hd). exists (Some (mark, sign, ds)).
        cbn [print_exponent wf_exponent read_exponent]. unfold wf_sign in Hs. by rewrite Hm, Hs, Hd, Hy. }
    destruct He as (e & -> & He & ->). exists i, f, e. rewrite sapp_assoc. split_and!; try done.
    change (ds_nonzero (scan_of i f)) with (negb (String.eqb (core (all_of i f)) EmptyString)) in H. rewrite negb_involutive in H. exact H.
  - intros (i & f & e & -> & Hw & He & Hl & Hafter). pose proof Hw as Hw'. unfold wf_mantissa in Hw'.
    apply andb_true_iff in Hw' as [[_ Hi]%wf_digits_true Hf].
    assert (Hfd : all_digits (default EmptyString f) = true) by (destruct f; [by apply wf_digits_true in Hf as [_ ?]|done]).
    rewrite <- sapp_assoc, cut_exponent_app by (try done; by apply mantissa_chars).
    destruct (proj2 (scan_mantissa_iff precision (i +:+ print_fraction f) (scan_of i f) Hp)) as [Hst Hok]; [by exists i, f|].
    assert (Hx : (if slen (i +:+ print_fraction f) <? slen ((i +:+ print_fraction f) +:+ print_exponent e) then
       match parseBoundedKeysetDecimalExponent (match e with None => EmptyString | Some (_, sign, ds) => print_signed sign ds end)
               (total + precision + scale + 1) with
       | None => Err (decimal_error "decimal exponent is invalid") | Some exponent => Ok exponent end
       else Ok 0) = Ok (read_exponent (total + precision + scale + 1) e)).
    { destruct e as [[[mark sign] ds]|]; [|by rewrite sapp_nil_r, Z.ltb_irrefl]. cbn [print_exponent wf_exponent read_exponent] in *.
      rewrite !andb_true_iff in He. destruct He as [[_ Hs] Hd].
      rewrite (proj2 (Z.ltb_lt _ _)) by (rewrite (slen_app (i +:+ print_fraction f)), slen_cons; pose proof (slen_nonneg (print_signed sign ds)); lia).
      by destruct (parseBounded_complete mark sign ds _ Hmax Hs Hd) as (x & -> & _). }
    rewrite Hx, Hst. cbn [rbind]. rewrite Hok.
    change (ds_nonzero (scan_of i f)) with (negb (String.eqb (core (all_of i f)) EmptyString)). rewrite negb_involutive. exact Hafter.
Qed.

(** The value decides the result. *)
Lemma decimal_after_iff precision (scale : nat) unsigned negative i f e maximum out :
  Z.of_nat scale <= precision -> wf_mantissa i f = true -> wf_exponent e = true ->
  slen i + slen (default EmptyString f) + precision + Z.of_nat scale + 1 <= maximum ->
  slen (core (all_of i f)) <= precision /\
  decimal_after precision (Z.of_nat scale) unsigned negative i f (read_exponent maximum e) = Ok out <->
  exists c, writes (literal_of negative i f e) (Z.of_nat scale) c /\ Z.abs c < 10 ^ precision /\ (unsigned = true -> 0 <= c) /\
    out = decimal_text scale c.
Proof.
  intros Hs Hw He Hmax. unfold writes, literal_of, fraction_digits; cbn [n_negative n_integer n_fraction n_exponent].
  pose proof (read_exponent_saturates maximum e ltac:(pose proof (slen_nonneg i); pose proof (slen_nonneg (default EmptyString f)); lia) He) as Hsat.
  fold (all_of i f). assert (Hd : all_digits (all_of i f) = true).
  { unfold wf_mantissa in Hw. apply andb_true_iff in Hw as [[_ Hi]%wf_digits_true Hf]. unfold all_of. rewrite sforall_app, Hi.
    destruct f; [by apply wf_digits_true in Hf as [_ ?]|done]. }
  rewrite (digits_core (all_of i f)). unfold decimal_after. destruct (String.eqb_spec (core (all_of i f)) EmptyString) as [E|E].
  - rewrite E. change (digits_value EmptyString * 10 ^ Z.of_nat (pending (all_of i f))) with 0.
    replace (signed negative 0) with 0 by (by destruct negative). setoid_rewrite scaled_zero.
    pose proof (pow10_pos precision ltac:(lia)).
    assert (Hz : decimal_text scale 0 = "0").
    { unfold decimal_text. rewrite Z.mod_0_l, Z.div_0_l by (apply Z.pow_nonzero; lia).
      replace (pad scale 0) with (zeros scale); [rewrite <- (sapp_nil_l (zeros scale)), trim_right_zeros_app; done|].
      rewrite <- (pad_digits (zeros scale)) by apply zeros_digits. by rewrite zeros_length, zeros_no_value. }
    split; [intros [_ [= <-]]; exists 0; split_and!; (done || lia)|intros (c & -> & _ & _ & ->); split; [change (slen EmptyString) with 0; lia|by rewrite Hz]].
  - pose proof (core_tight _ Hd E) as Hk. pose proof (tight_value _ Hk) as (Hv & _).
    assert (Hlen : Z.of_nat (pending (all_of i f)) <= slen i + slen (default EmptyString f)).
    { pose proof (f_equal String.length (significant_split (all_of i f))) as Hl. rewrite slength_app, zeros_length in Hl.
      pose proof (trim_zeros_length (all_of i f)) as Ht. unfold significant in Hl. unfold all_of in Ht at 2. rewrite slen_app in Ht. unfold slen in *. lia. }
    set (k := core (all_of i f)) in *. set (p := Z.of_nat (pending (all_of i f))) in *. set (frac := slen (default EmptyString f)) in *.
    pose proof (slen_nonneg i). assert (0 <= frac) by apply slen_nonneg.
    assert (Hsame : fits precision (Z.of_nat scale) k (frac - exponent_value e - p) \/ fits precision (Z.of_nat scale) k (frac - read_exponent maximum e - p) ->
                    read_exponent maximum e = exponent_value e).
    { apply saturated_fits with (maximum := maximum); (done || lia). }
    setoid_rewrite (tight_scaled negative k p _ _ Hk ltac:(lia)).
    replace (exponent_value e - frac + Z.of_nat scale + p) with (Z.of_nat scale - (frac - exponent_value e - p)) by lia.
    rewrite decimal_result_iff by done. split.
    + intros (Hl & Hf & Hu & ->). rewrite Hsame in * by auto. destruct Hf as [Hf1 Hf2]. pose proof (pow10_pos (Z.of_nat scale - (frac - exponent_value e - p)) ltac:(lia)).
      eexists. split_and!; [|reflexivity| | |reflexivity]; [lia|unfold signed; destruct negative; nia|].
      intros Hun. rewrite (Hu Hun). unfold signed. nia.
    + intros (c & (Hf1 & ->) & Hf2 & Hu & ->). pose proof (pow10_pos (Z.of_nat scale - (frac - exponent_value e - p)) ltac:(lia)).
      assert (Hf : fits precision (Z.of_nat scale) k (frac - exponent_value e - p)).
      { split; [lia|]. unfold signed in Hf2. destruct negative; nia. }
      rewrite Hsame by auto. split_and!; [|done| |done].
      * destruct Hf as [Hf3 Hf4]. apply fits_digits in Hf4; (done || lia).
      * intros Hun. destruct negative; [|done]. specialize (Hu Hun). unfold signed in Hu. nia.
Qed.

(** C38: the text that is bound for a decimal value is produced exactly when the value's
    literal denotes, without rounding, a value of DECIMAL(precision, scale): whatever the
    exponent, the leading and the trailing zeros, the integer [c] with value
    [c / 10 ^ scale] exists, has at most [precision] digits and is not negative for an
    unsigned column; and the text is the plain decimal text of that value. *)
Theorem normalizeExactKeysetDecimal_exact text precision (scale : nat) unsigned out : Z.of_nat scale <= precision ->
  normalizeExactKeysetDecimal text precision (Z.of_nat scale) unsigned = Ok out <->
  exists n c, text = print_number n /\ wf_literal n = true /\ writes n (Z.of_nat scale) c /\
    Z.abs c < 10 ^ precision /\ (unsigned = true -> 0 <= c) /\ out = decimal_text scale c.
Proof.
  intros Hs.
  assert (Hbody : forall negative body total, slen body <= total ->
    exact_decimal_body precision (Z.of_nat scale) unsigned negative total body = Ok out <->
    exists n c, n_negative n = negative /\ body = n_integer n +:+ print_fraction (n_fraction n) +:+ print_exponent (n_exponent n) /\
      wf_literal n = true /\ writes n (Z.of_nat scale) c /\ Z.abs c < 10 ^ precision /\ (unsigned = true -> 0 <= c) /\ out = decimal_text scale c).
  { intros negative body total Ht. pose proof (slen_nonneg body). rewrite exact_body_iff by lia.
    assert (Hlen : forall i f e, body = i +:+ print_fraction f +:+ print_exponent e ->
      slen i + slen (default EmptyString f) + precision + Z.of_nat scale + 1 <= total + precision + Z.of_nat scale + 1).
    { intros i f e ->. rewrite !slen_app in Ht. pose proof (slen_nonneg (print_exponent e)).
      assert (slen (default EmptyString f) <= slen (print_fraction f)) by (destruct f; cbn [print_fraction default]; rewrite ?slen_cons; unfold id; lia). lia. }
    split.
    - intros (i & f & e & Hb & Hw & He & Hafter). pose proof (Hlen i f e Hb) as Hl.
      apply (decimal_after_iff _ _ _ _ _ _ _ _ _ Hs Hw He Hl) in Hafter as (c & Hc).
      exists (literal_of negative i f e), c. unfold wf_literal. cbn. unfold wf_mantissa in Hw. rewrite Hw, He. naive_solver.
    - intros (n & c & Hn & Hb & Hw & Hc). exists (n_integer n), (n_fraction n), (n_exponent n).
      unfold wf_literal in Hw. apply andb_true_iff in Hw as [Hw He]. pose proof (Hlen _ _ _ Hb) as Hl.
      destruct (proj2 (decimal_after_iff precision scale unsigned negative _ _ _ _ out Hs Hw He Hl)); [exists c; subst negative; by destruct n|done]. }
  unfold normalizeExactKeysetDecimal. split.
  - destruct text as [|a rest]; [done|]. destruct (Ascii.eqb_spec a "-") as [->|Hm].
    + destruct (String.eqb rest EmptyString); [done|]. intros (n & c & Hn & -> & H)%Hbody; [|rewrite slen_cons; lia].
      exists n, c. split; [|done]. unfold print_number. by rewrite Hn.
    + destruct (Ascii.eqb a "+"); [done|]. intros (n & c & Hn & Hb & H)%Hbody; [|lia].
      exists n, c. split; [|done]. unfold print_number. by rewrite Hn.
  - intros (n & c & -> & Hw & H). pose proof Hw as Hi. unfold wf_literal in Hi. rewrite !andb_true_iff in Hi.
    destruct Hi as [[[Hne Hd]%wf_digits_true _] _]. unfold print_number. destruct (n_negative n) eqn:Hn; cbn [sapp_cons].
    + rewrite sapp_cons, sapp_nil_l. cbn [Ascii.eqb Bool.eqb].
      destruct (String.eqb_spec (n_integer n +:+ print_fraction (n_fraction n) +:+ print_exponent (n_exponent n)) EmptyString) as [E|_].
      { by destruct (n_integer n). }
      apply Hbody; [rewrite slen_cons; lia|]. by exists n, c.
    + rewrite sapp_nil_l. destruct (n_integer n) as [|a i] eqn:E; [done|]. rewrite sapp_cons.
      assert (Ha : is_digit a = true) by (cbn [sforall] in Hd; by apply andb_true_iff in Hd as [? _]).
      pose proof (is_digit_not_sign a Ha) as Hns. unfold is_sign in Hns. apply orb_false_iff in Hns as [-> ->].
      apply Hbody; [done|]. exists n, c. by rewrite E, sapp_cons.
Qed.

Lemma normalizeExactKeysetDecimal_exact_witness : Z.of_nat 2 <= 5 /\
  (normalizeExactKeysetDecimal "-01250e-3" 5 (Z.of_nat 2) false = Ok "-1.25" <->
   exists n c, "-01250e-3" = print_number n /\ wf_literal n = true /\ writes n (Z.of_nat 2) c /\
     Z.abs c < 10 ^ 5 /\ (false = true -> 0 <= c) /\ "-1.25" = decimal_text 2 c).
Proof. split; [done|]. apply (normalizeExactKeysetDecimal_exact "-01250e-3" 5 2 false "-1.25"). done. Defined.
