(* ===== verification/SqlAggregate.v ===== *)
(** The SQL of an aggregate (internal/adapters/mysql8/aggregate.go and
    numeric_bucket.go): the metadata of the source columns, the result columns,
    the statement with its bind arguments, and the collection of its rows. The
    theorems read the statement back with the lexer of Sql.v and count its
    arguments. *)
From S2P Require Import Prelude Domain GoJson Number Portable Values QuerySpec Config Policy Sql Rows Aggregate AggregateNormal NumericBucket.
Local Open Scope string_scope.
Local Open Scope Z_scope.

Definition aggregateSourceAlias : string := "__quordon_source".
Definition aggregateTimeBucketValidityAlias : string := "__quordon$time_bucket_invalid".

(** ** Fields *)

Fixpoint collectAggregateFilterFields (filter : Filter) : list string :=
  if String.eqb (f_kind filter) "predicate" then [f_field filter]
  else flat_map collectAggregateFilterFields (f_expressions filter).

Definition AggregateReferencedFields (spec : NormalizedAggregateSpec) : list string :=
  sorted_set
    (List.filter nonempty (map ao_field (a_projection spec)) ++
     from_option collectAggregateFilterFields [] (a_filter spec))%list.

Definition AggregateUsesTimeBucket (spec : NormalizedAggregateSpec) : bool :=
  existsb (is_kind "time_bucket") (a_projection spec).

Definition AggregateUsesSourceText (spec : NormalizedAggregateSpec) : bool :=
  existsb (fun o => String.eqb (ao_representation o) RepresentationSourceText) (a_projection spec) ||
  existsb (fun o => String.eqb (as_representation o) RepresentationSourceText) (a_order_by spec) ||
  FilterUsesSourceText (a_filter spec).

(** ** The columns of the source *)

Record aggregateSourceColumn := { sc_name : string; sc_dataType : string; sc_nativeType : string; sc_nullable : bool }.

(** [strings.ToLower] of a name of the catalog, as far as a key can be an ASCII
    name: the two other letters whose lower case is ASCII are the Kelvin sign and
    the capital I with a dot. *)
Definition lower_rune (r : rune) : string :=
  match r with
  | BadByte _ => rune_bytes r
  | Rune code bytes =>
      if code =? 0x212A then "k" else if code =? 0x130 then "i" else to_lower bytes
  end.
Definition lower_name (s : string) : string := sconcat (map lower_rune (runes s)).

(** The map of the columns by lower-case name. *)
Definition source_columns := list (string * aggregateSourceColumn).

Definition column_of (source : source_columns) (field : string) : option aggregateSourceColumn :=
  snd <$> List.find (fun c => String.eqb c.1 (to_lower field)) source.

(** One turn of the loop over the catalog rows of [validateAggregateSource]: the
    schema, the table, the column and the text of [is_nullable]. *)
Definition source_step (source : ResourceRef) (requested : list string) (caseInsensitiveObjects : bool)
    (scan : result (string * string * aggregateSourceColumn * string)) (columns : source_columns) : result source_columns :=
  let? row := scan in
  let '(rowSchema, rowObject, column, nullable) := row in
  if? negb (tokenIdentifierMatches rowSchema (r_schema source) caseInsensitiveObjects) ||
      negb (tokenIdentifierMatches rowObject (r_name source) caseInsensitiveObjects)
  return metadata_mismatch then
  let key := lower_name (sc_name column) in
  if? negb (contains requested key) return metadata_mismatch then
  if? contains (map fst columns) key return metadata_mismatch then
  Ok ((key, {| sc_name := sc_name column; sc_dataType := sc_dataType column; sc_nativeType := sc_nativeType column;
               sc_nullable := String.eqb nullable "YES" |}) :: columns).

(** [sourceTextFields] and [aggregateSourceTextFields]. *)
Fixpoint filter_source_text (f : Filter) : list string :=
  ((if String.eqb (f_representation f) RepresentationSourceText then [f_field f] else []) ++
   flat_map filter_source_text (f_expressions f))%list.

Definition sourceTextFields (spec : NormalizedSpec) : list string :=
  compact (sort_func bytes_le
    (map s_field (List.filter (fun p => String.eqb (s_representation p) RepresentationSourceText) (n_projection spec)) ++
     map o_field (List.filter (fun p => String.eqb (o_representation p) RepresentationSourceText) (n_order_by spec)) ++
     from_option filter_source_text [] (n_filter spec))%list).

Definition aggregateSourceTextFields (spec : NormalizedAggregateSpec) : list string :=
  sourceTextFields {|
    n_source := {| r_schema := EmptyString; r_name := EmptyString |};
    n_projection := map (fun p => {| s_representation := ao_representation p; s_kind := EmptyString; s_field := ao_field p;
                                     s_function := EmptyString; s_alias := EmptyString |}) (a_projection spec);
    n_filter := a_filter spec; n_group_by := [];
    n_order_by := map (fun p => {| o_representation := as_representation p; o_field := as_field p;
                                   o_direction := EmptyString |}) (a_order_by spec);
    n_limit := 0; n_offset := 0 |}.

(** The checks of [validateAggregateSource] on the answers to its two queries: the
    resource of the first, and the rows of the second with their final error. *)
Definition source_resource (source : ResourceRef) (caseInsensitiveObjects : bool) (actualSchema actualObject : string) : error :=
  if? negb (tokenIdentifierMatches actualSchema (r_schema source) caseInsensitiveObjects) ||
      negb (tokenIdentifierMatches actualObject (r_name source) caseInsensitiveObjects)
  return metadata_mismatch then nil_error.

Definition source_columns_of (spec : NormalizedAggregateSpec) (caseInsensitiveObjects : bool)
    (rows : list (result (string * string * aggregateSourceColumn * string))) (err : error) : result source_columns :=
  let referenced := AggregateReferencedFields spec in
  let requested := map to_lower referenced in
  let? columns := iter (fun _ scan columns => source_step (a_source spec) requested caseInsensitiveObjects scan columns) rows [] in
  check? err then
  if? negb (len columns =? len referenced) return invalid_error then
  let? _ := iter (fun _ field _ =>
    validateSourceTextType (from_option sc_dataType EmptyString (column_of columns field))) (aggregateSourceTextFields spec) tt in
  Ok columns.

Definition aggregateNumericType (dataType : string) : bool :=
  contains ["TINYINT"; "SMALLINT"; "MEDIUMINT"; "INT"; "INTEGER"; "BIGINT"; "DECIMAL"; "NUMERIC"; "FLOAT"; "DOUBLE"; "REAL"]
    (to_upper (trim_space dataType)).

(** The boundaries of each numeric bucket by alias; an alias without an entry has
    none, as the [nil] slice of a missing key. *)
Definition validateNumericBucketSource (spec : NormalizedAggregateSpec) (source : source_columns)
    (boundaries : string -> list string) : error :=
  iter (fun _ output _ =>
    if negb (is_kind "numeric_bucket" output) then nil_error
    else
      match column_of source (ao_field output) with
      | None => Err invalid_error
      | Some column =>
          if? negb (numericBucketSourceType (sc_dataType column)) return invalid_error then
          let values := boundaries (ao_alias output) in
          match NormalizeNumericBoundaries values with
          | Err _ => Err invalid_error
          | Ok canonical =>
              iter (fun _ pair _ =>
                let '(boundary, value) := pair in
                if? negb (String.eqb boundary value) return invalid_error then
                let? _ := numericBoundaryCast boundary in nil_error) (combine canonical values) tt
          end
      end) (a_projection spec) tt.

Definition result_column (mode : string) (source : source_columns) (output : AggregateOutput) : result ResultColumn :=
  if is_grouping output then
    match column_of source (ao_field output) with
    | None => Err invalid_error
    | Some column =>
        if is_kind "numeric_bucket" output then
          if? negb (numericBucketSourceType (sc_dataType column)) return invalid_error then
          Ok {| rc_name := ao_alias output; rc_type := "integer"; rc_encoding := "string"; rc_nullable := sc_nullable column |}
        else if is_kind "time_bucket" output then
          if? negb (contains ["TIMESTAMP"; "DATETIME"] (to_upper (trim_space (sc_dataType column)))) return invalid_error then
          Ok {| rc_name := ao_alias output; rc_type := "datetime"; rc_encoding := "string"; rc_nullable := sc_nullable column |}
        else if String.eqb (ao_representation output) RepresentationSourceText then
          Ok {| rc_name := ao_field output; rc_type := "string"; rc_encoding := "string"; rc_nullable := sc_nullable column |}
        else
          Ok {| rc_name := ao_field output; rc_type := portableColumnType (sc_dataType column);
                rc_encoding := resultEncoding (sc_dataType column); rc_nullable := sc_nullable column |}
    end
  else
    let? column :=
      if nonempty (ao_field output) then
        match column_of source (ao_field output) with None => Err invalid_error | Some column => Ok column end
      else Ok {| sc_name := EmptyString; sc_dataType := EmptyString; sc_nativeType := EmptyString; sc_nullable := false |} in
    let nullable := String.eqb mode AggregateModeScalar || sc_nullable column in
    if contains ["count_all"; "count"; "count_distinct"] (ao_function output) then
      Ok {| rc_name := ao_alias output; rc_type := "integer"; rc_encoding := "string"; rc_nullable := false |}
    else if contains ["sum"; "avg"] (ao_function output) then
      if? negb (aggregateNumericType (sc_dataType column)) return invalid_error then
      Ok {| rc_name := ao_alias output; rc_type := "decimal"; rc_encoding := "string"; rc_nullable := nullable |}
    else if contains ["min"; "max"] (ao_function output) then
      let portableType := portableColumnType (sc_dataType column) in
      if? String.eqb portableType "bytes" || String.eqb portableType "json" return invalid_error then
      Ok {| rc_name := ao_alias output; rc_type := portableType; rc_encoding := resultEncoding (sc_dataType column);
            rc_nullable := nullable |}
    else Err invalid_error.

Fixpoint result_columns (mode : string) (source : source_columns) (projection : list AggregateOutput) : result (list ResultColumn) :=
  match projection with
  | [] => Ok []
  | output :: projection' =>
      let? column := result_column mode source output in
      let? columns := result_columns mode source projection' in
      Ok (column :: columns)
  end.

Definition aggregateResultColumns (spec : NormalizedAggregateSpec) (source : source_columns) : result (list ResultColumn) :=
  result_columns (a_mode spec) source (a_projection spec).

(** ** Expressions *)

Definition qualifyAggregateField (field : string) : string := quote aggregateSourceAlias +:+ "." +:+ quote field.

Definition compileAggregateFilter : Filter -> result (string * list Bind) := compile_filter qualifyAggregateField.

Definition compileTimeBucketExpression (field unit timezone : string) : result string :=
  if? negb (String.eqb timezone "UTC") return ErrorString "unsupported time-bucket timezone" then
  let source := qualifyAggregateField field in
  if String.eqb unit "hour" then Ok ("DATE_FORMAT(" +:+ source +:+ ", '%Y-%m-%dT%H:00:00Z')")
  else if String.eqb unit "day" then Ok ("DATE_FORMAT(" +:+ source +:+ ", '%Y-%m-%dT00:00:00Z')")
  else if String.eqb unit "week" then
    Ok ("DATE_FORMAT(DATE_SUB(DATE(" +:+ source +:+ "), INTERVAL WEEKDAY(" +:+ source +:+ ") DAY), '%Y-%m-%dT00:00:00Z')")
  else if String.eqb unit "month" then Ok ("DATE_FORMAT(" +:+ source +:+ ", '%Y-%m-01T00:00:00Z')")
  else Err (ErrorString "unsupported time-bucket unit").

(** The loop over the boundaries: the arms of the CASE from index [i] on. *)
Fixpoint bucket_arms (source : string) (i : Z) (boundaries : list string) : result (string * list Bind) :=
  match boundaries with
  | [] => Ok (EmptyString, [])
  | boundary :: boundaries' =>
      let? cast := numericBoundaryCast boundary in
      let? (arms, args) := bucket_arms source (i + 1) boundaries' in
      Ok (" WHEN " +:+ source +:+ " < " +:+ cast +:+ " THEN " +:+ itoa i +:+ arms, BindString boundary :: args)
  end.

Definition compileNumericBucketExpression (field : string) (boundaries : list string) : result (string * list Bind) :=
  if? (len boundaries <? 1) || (NumericBucketMaxBoundaries <? len boundaries)
  return ErrorString "numeric bucket boundaries are missing" then
  let source := qualifyAggregateField field in
  let? (arms, args) := bucket_arms source 0 boundaries in
  Ok ("CASE WHEN " +:+ source +:+ " IS NULL THEN NULL" +:+ arms +:+ " ELSE " +:+ itoa (len boundaries) +:+ " END", args).

(** ** The statement *)

(** The slices and maps that the loop over the projection fills; a map is the
    list of its assignments, the latest first. *)
Record projected := {
  pj_projection : list string; pj_dimensions : list string;
  pj_projectionArgs : list Bind; pj_groupArgs : list Bind;
  pj_bucketExpressions : list (string * string); pj_bucketArgs : list (string * list Bind);
  pj_bucketNullnessChecks : list string;
}.

Definition nothing_projected : projected := {|
  pj_projection := []; pj_dimensions := []; pj_projectionArgs := []; pj_groupArgs := []; pj_bucketExpressions := [];
  pj_bucketArgs := []; pj_bucketNullnessChecks := [] |}.

Fixpoint map_get {A} (m : list (string * A)) (k : string) : option A :=
  match m with
  | [] => None
  | (x, v) :: m' => if String.eqb k x then Some v else map_get m' k
  end.

Definition nullness_check (field expression : string) : string :=
  "NOT ((" +:+ qualifyAggregateField field +:+ " IS NULL) <=> (" +:+ expression +:+ " IS NULL))".

Definition measure_expression (output : AggregateOutput) : string :=
  let argument := if nonempty (ao_field output) then qualifyAggregateField (ao_field output) else "*" in
  (if String.eqb (ao_function output) "count_all" then "COUNT(" +:+ argument
   else if String.eqb (ao_function output) "count_distinct" then "COUNT(" +:+ "DISTINCT " +:+ argument
   else to_upper (ao_function output) +:+ "(" +:+ argument) +:+ ") AS " +:+ quote (ao_alias output).

Definition project_output (boundaries : string -> list string) (output : AggregateOutput) (st : projected) : result projected :=
  if is_kind "time_bucket" output then
    let? expression := compileTimeBucketExpression (ao_field output) (ao_unit output) (ao_timezone output) in
    Ok {| pj_projection := (pj_projection st ++ [expression +:+ " AS " +:+ quote (ao_alias output)])%list;
          pj_dimensions := (pj_dimensions st ++ [expression])%list;
          pj_projectionArgs := pj_projectionArgs st; pj_groupArgs := pj_groupArgs st;
          pj_bucketExpressions := (ao_alias output, expression) :: pj_bucketExpressions st;
          pj_bucketArgs := pj_bucketArgs st;
          pj_bucketNullnessChecks := (pj_bucketNullnessChecks st ++ [nullness_check (ao_field output) expression])%list |}
  else if is_kind "numeric_bucket" output then
    let? (expression, binds) := compileNumericBucketExpression (ao_field output) (boundaries (ao_alias output)) in
    let projectedExpression := "MIN(" +:+ expression +:+ ")" in
    Ok {| pj_projection := (pj_projection st ++ [projectedExpression +:+ " AS " +:+ quote (ao_alias output)])%list;
          pj_dimensions := (pj_dimensions st ++ [expression])%list;
          pj_projectionArgs := (pj_projectionArgs st ++ binds)%list; pj_groupArgs := (pj_groupArgs st ++ binds)%list;
          pj_bucketExpressions := (ao_alias output, projectedExpression) :: pj_bucketExpressions st;
          pj_bucketArgs := (ao_alias output, binds) :: pj_bucketArgs st;
          pj_bucketNullnessChecks := pj_bucketNullnessChecks st |}
  else if is_kind "dimension" output then
    let expression := representedField (qualifyAggregateField (ao_field output)) (ao_representation output) true in
    Ok {| pj_projection := (pj_projection st ++ [expression +:+ " AS " +:+ quote (ao_field output)])%list;
          pj_dimensions := (pj_dimensions st ++ [expression])%list;
          pj_projectionArgs := pj_projectionArgs st; pj_groupArgs := pj_groupArgs st;
          pj_bucketExpressions := pj_bucketExpressions st; pj_bucketArgs := pj_bucketArgs st;
          pj_bucketNullnessChecks := pj_bucketNullnessChecks st |}
  else
    Ok {| pj_projection := (pj_projection st ++ [measure_expression output])%list;
          pj_dimensions := pj_dimensions st; pj_projectionArgs := pj_projectionArgs st; pj_groupArgs := pj_groupArgs st;
          pj_bucketExpressions := pj_bucketExpressions st; pj_bucketArgs := pj_bucketArgs st;
          pj_bucketNullnessChecks := pj_bucketNullnessChecks st |}.

(** The column that tells whether a bucket lost a value. *)
Definition validity_column (checks : list string) : list string :=
  if len checks =? 0 then []
  else ["MAX(CASE WHEN " +:+ join " OR " checks +:+ " THEN 1 ELSE 0 END) AS " +:+ quote aggregateTimeBucketValidityAlias].

(** One order term and its binds. *)
Definition order_term (st : projected) (order : AggregateSort) : result (string * list Bind) :=
  let? target :=
    if String.eqb (as_kind order) "dimension" then
      Ok (representedField (qualifyAggregateField (as_field order)) (as_representation order) true)
    else if String.eqb (as_kind order) "time_bucket" || String.eqb (as_kind order) "numeric_bucket" then
      match map_get (pj_bucketExpressions st) (as_alias order) with
      | None => Err (ErrorString "bucket order target is not projected")
      | Some target => Ok target
      end
    else Ok (quote (as_alias order)) in
  Ok (target +:+ " " +:+ to_upper (as_direction order), default [] (map_get (pj_bucketArgs st) (as_alias order))).

Definition aggregate_where (filter : option Filter) : result (string * list Bind) :=
  match filter with
  | None => Ok (EmptyString, [])
  | Some f => let? (text, args) := compileAggregateFilter f in Ok (" WHERE " +:+ text, args)
  end.

Definition compileAggregate (spec : NormalizedAggregateSpec) (deadlineMS : Z) (boundaries : string -> list string)
  : result (string * list Bind) :=
  let? st := iter (fun _ output st => project_output boundaries output st) (a_projection spec) nothing_projected in
  let? (where_text, filterArgs) := aggregate_where (a_filter spec) in
  let? (terms, orderArgs) := compile_all (order_term st) (a_order_by spec) in
  let grouped := negb (len (pj_dimensions st) =? 0) in
  let limited := String.eqb (a_mode spec) AggregateModeGrouped in
  Ok (select_head deadlineMS +:+
      join ", " (pj_projection st ++ validity_column (pj_bucketNullnessChecks st))%list +:+
      " FROM " +:+ quote (r_schema (a_source spec)) +:+ "." +:+ quote (r_name (a_source spec)) +:+
      " AS " +:+ quote aggregateSourceAlias +:+ where_text +:+
      (if grouped then " GROUP BY " +:+ join ", " (pj_dimensions st) else EmptyString) +:+
      (if len (a_order_by spec) =? 0 then EmptyString else " ORDER BY " +:+ join ", " terms) +:+
      (if limited then " LIMIT ?" else EmptyString),
      (pj_projectionArgs st ++ filterArgs ++ (if grouped then pj_groupArgs st else []) ++ orderArgs ++
       (if limited then [BindInt (a_limit spec + 1)] else []))%list).

Definition bucket_output (kind field alias : string) : AggregateOutput := {|
  ao_representation := EmptyString; ao_kind := kind; ao_field := field; ao_function := EmptyString; ao_alias := alias;
  ao_unit := if String.eqb kind "time_bucket" then "week" else EmptyString;
  ao_timezone := if String.eqb kind "time_bucket" then "UTC" else EmptyString |}.

Definition example_bucket_spec : AggregateSpec := {|
  g_mode := AggregateModeGrouped; g_source := {| r_schema := "shop"; r_name := "orders" |};
  g_projection := [bucket_output "time_bucket" "at" "w"; bucket_output "numeric_bucket" "total" "b";
                   example_measure "count_all" EmptyString "n"];
  g_filter := Some (example_predicate "id" "gt" "integer" "7");
  g_order_by := Some [{| as_representation := EmptyString; as_kind := "numeric_bucket"; as_field := EmptyString;
                         as_alias := "b"; as_direction := "desc" |}];
  g_limit := Some 10 |}.

Definition example_boundaries (alias : string) : list string := if String.eqb alias "b" then ["0"; "9.5"] else [].

Example compile_aggregate_example :
  compileAggregate (va_spec (aggregate_stored example_bucket_spec)) 1000 example_boundaries =
  Ok ("SELECT /*+ MAX_EXECUTION_TIME(1000) */ DATE_FORMAT(DATE_SUB(DATE(`__quordon_source`.`at`), INTERVAL WEEKDAY(`__quordon_source`.`at`) DAY), '%Y-%m-%dT00:00:00Z') AS `w`, MIN(CASE WHEN `__quordon_source`.`total` IS NULL THEN NULL WHEN `__quordon_source`.`total` < CAST(? AS DECIMAL(1,0)) THEN 0 WHEN `__quordon_source`.`total` < CAST(? AS DECIMAL(2,1)) THEN 1 ELSE 2 END) AS `b`, COUNT(*) AS `n`, MAX(CASE WHEN NOT ((`__quordon_source`.`at` IS NULL) <=> (DATE_FORMAT(DATE_SUB(DATE(`__quordon_source`.`at`), INTERVAL WEEKDAY(`__quordon_source`.`at`) DAY), '%Y-%m-%dT00:00:00Z') IS NULL)) THEN 1 ELSE 0 END) AS `__quordon$time_bucket_invalid` FROM `shop`.`orders` AS `__quordon_source` WHERE `__quordon_source`.`id` > ? GROUP BY DATE_FORMAT(DATE_SUB(DATE(`__quordon_source`.`at`), INTERVAL WEEKDAY(`__quordon_source`.`at`) DAY), '%Y-%m-%dT00:00:00Z'), CASE WHEN `__quordon_source`.`total` IS NULL THEN NULL WHEN `__quordon_source`.`total` < CAST(? AS DECIMAL(1,0)) THEN 0 WHEN `__quordon_source`.`total` < CAST(? AS DECIMAL(2,1)) THEN 1 ELSE 2 END ORDER BY MIN(CASE WHEN `__quordon_source`.`total` IS NULL THEN NULL WHEN `__quordon_source`.`total` < CAST(? AS DECIMAL(1,0)) THEN 0 WHEN `__quordon_source`.`total` < CAST(? AS DECIMAL(2,1)) THEN 1 ELSE 2 END) DESC LIMIT ?",
      [BindString "0"; BindString "9.5"; BindInt 7; BindString "0"; BindString "9.5"; BindString "0"; BindString "9.5"; BindInt 11]).
Proof. vm_compute. reflexivity. Qed.

(** ** Reading the statement back *)

Section PieceIn.
Context (P : string -> Prop).

(** A piece whose quoted names satisfy [P]. *)
Definition piece_in (s : string) (marks : Z) : Prop := exists names, piece s names marks /\ Forall P names.

Lemma piece_in_lit s : piece s [] 0 -> piece_in s 0.
Proof. intros H. exists []. by split; [|constructor]. Qed.

Lemma piece_in_app a b ka kb : piece_in a ka -> piece_in b kb -> piece_in (a +:+ b) (ka + kb).
Proof. intros (na & Ha & Fa) (nb & Hb & Fb). exists (na ++ nb)%list. split; [by apply piece_app|by apply Forall_app]. Qed.

Lemma piece_in_eq s k k' : piece_in s k -> k = k' -> piece_in s k'.
Proof. by intros ? <-. Qed.

Lemma piece_in_pre pre s k : piece pre [] 0 -> piece_in s k -> piece_in (pre +:+ s) k.
Proof. intros H (n & Hs & F). exists n. split; [by apply piece_pre|done]. Qed.

Lemma piece_in_post post s k : piece post [] 0 -> piece_in s k -> piece_in (s +:+ post) k.
Proof. intros H (n & Hs & F). exists n. split; [by apply piece_post|done]. Qed.

Lemma piece_in_wrap pre post s k : piece pre [] 0 -> piece post [] 0 -> piece_in s k -> piece_in (pre +:+ s +:+ post) k.
Proof. intros H H' (n & Hs & F). exists n. split; [by apply piece_wrap|done]. Qed.

Lemma piece_in_quote x : no_byte backtick x -> P x -> piece_in (quote x) 0.
Proof. intros H Hx. exists [x]. split; [by apply piece_quote|by constructor]. Qed.

Lemma piece_in_represented s r binary : piece_in s 0 -> piece_in (representedField s r binary) 0.
Proof. intros (n & Hs & F). exists n. split; [by apply piece_represented|done]. Qed.

Lemma piece_in_join {A} sep (marks : A -> Z) l texts : piece sep [] 0 ->
  Forall2 (fun a s => piece_in s (marks a)) l texts -> piece_in (join sep texts) (sum_of marks l).
Proof.
  intros Hsep. induction 1 as [|a s l texts Ha Hl IH]; [apply piece_in_lit, piece_nil|].
  change (sum_of marks (a :: l)) with (marks a + sum_of marks l). destruct texts as [|t texts].
  - inversion Hl; subst. simpl. apply (piece_in_eq _ _ _ Ha). lia.
  - change (join sep (s :: t :: texts)) with (s +:+ sep +:+ join sep (t :: texts)).
    apply piece_in_app; [exact Ha|by apply piece_in_pre].
Qed.
End PieceIn.

(** *** Fields and expressions *)

Section Expressions.
Context (P : string -> Prop) (Hsource : P aggregateSourceAlias).

Lemma alias_no_backtick : no_byte backtick aggregateSourceAlias.
Proof. reflexivity. Qed.

Lemma piece_in_field field : is_identifier field = true -> P field -> piece_in P (qualifyAggregateField field) 0.
Proof.
  intros Hf HP. unfold qualifyAggregateField.
  apply (piece_in_eq _ _ (0 + 0)); [|done]. apply piece_in_app; [by apply piece_in_quote; [apply alias_no_backtick|]|].
  apply piece_in_pre; [piece_lit|]. by apply piece_in_quote; [apply identifier_no_backtick|].
Qed.

(** The literals of the buckets. *)
Lemma lex_format f : In f date_formats -> piece (", '" +:+ f +:+ "')") [] 0.
Proof.
  intros Hf. unfold date_formats in Hf. simpl in Hf.
  repeat (destruct Hf as [<-|Hf]; [intros ns k; rewrite app_nil_r, Z.add_0_r; lazy -[Z.add Datatypes.app]; reflexivity|]). done.
Qed.

Lemma piece_in_time_bucket field unit : is_identifier field = true -> P field ->
  In unit ["hour"; "day"; "week"; "month"] ->
  exists expression, compileTimeBucketExpression field unit "UTC" = Ok expression /\ piece_in P expression 0.
Proof.
  intros Hf HP Hu. assert (Hq := piece_in_field field Hf HP).
  assert (Hw : forall f, In f date_formats -> forall s, piece_in P s 0 -> piece_in P ("DATE_FORMAT(" +:+ s +:+ ", '" +:+ f +:+ "')") 0).
  { intros f Hin s Hs. apply piece_in_pre; [piece_lit|]. apply piece_in_post; [by apply lex_format|done]. }
  unfold compileTimeBucketExpression. rewrite String.eqb_refl. cbn [negb].
  simpl in Hu. destruct Hu as [<-|[<-|[<-|[<-|[]]]]]; (eexists; split; [reflexivity|]).
  - apply (Hw "%Y-%m-%dT%H:00:00Z"); [simpl; auto|done].
  - apply (Hw "%Y-%m-%dT00:00:00Z"); [simpl; auto|done].
  - set (q := qualifyAggregateField field) in *.
    assert (Hd : piece_in P ("DATE_SUB(DATE(" +:+ q +:+ "), INTERVAL WEEKDAY(" +:+ q +:+ ") DAY)") 0).
    { apply piece_in_pre; [piece_lit|]. apply (piece_in_eq _ _ (0 + 0)); [|done]. apply piece_in_app; [done|].
      apply piece_in_wrap; [piece_lit|piece_lit|done]. }
    assert (H := Hw "%Y-%m-%dT00:00:00Z" ltac:(simpl; auto) _ Hd). rewrite !sapp_assoc in H. exact H.
  - apply (Hw "%Y-%m-01T00:00:00Z"); [simpl; auto|done].
Qed.

(** A boundary whose cast compiles. *)
Definition castable (b : string) : Prop := exists text, numericBoundaryCast b = Ok text.

Lemma piece_in_cast b text : numericBoundaryCast b = Ok text -> piece_in P text 1.
Proof.
  unfold numericBoundaryCast. destruct (NormalizeNumericBoundaries [b]) as [[|c [|]]|]; try done.
  intros H. apply if_err_ok in H as [_ H]. apply if_err_ok in H as [_ [= <-]].
  apply (piece_in_eq _ _ (1 + 0)); [|done]. apply piece_in_app.
  - exists []. split; [piece_lit|constructor].
  - apply piece_in_lit. apply (piece_eq _ ([] ++ [])%list (0 + 0)); [|done..]. apply piece_app; [apply piece_itoa|].
    apply piece_pre; [piece_lit|]. apply piece_post; [piece_lit|apply piece_itoa].
Qed.

Lemma bucket_arms_ok source boundaries : piece_in P source 0 -> Forall castable boundaries -> forall i,
  exists arms, bucket_arms source i boundaries = Ok (arms, map BindString boundaries) /\ piece_in P arms (len boundaries).
Proof.
  intros Hs. induction 1 as [|b l (cast & Hc) _ IH]; intros i.
  - exists EmptyString. split; [done|apply piece_in_lit, piece_nil].
  - destruct (IH (i + 1)) as (arms & E & Hp). cbn [bucket_arms map]. rewrite Hc, E. cbn [rbind]. eexists. split; [reflexivity|].
    rewrite len_cons. apply piece_in_pre; [piece_lit|]. apply (piece_in_eq _ _ (0 + (1 + len l))); [|lia].
    apply piece_in_app; [done|]. apply piece_in_pre; [piece_lit|]. apply piece_in_app; [by apply (piece_in_cast b)|].
    apply piece_in_pre; [piece_lit|]. by apply piece_in_pre; [apply piece_itoa|].
Qed.

Lemma numeric_bucket_ok field boundaries : is_identifier field = true -> P field ->
  1 <= len boundaries <= NumericBucketMaxBoundaries -> Forall castable boundaries ->
  exists expression, compileNumericBucketExpression field boundaries = Ok (expression, map BindString boundaries) /\
    piece_in P expression (len boundaries).
Proof.
  intros Hf HP Hl Hc. unfold compileNumericBucketExpression.
  rewrite (proj2 (Z.ltb_ge _ _)), (proj2 (Z.ltb_ge NumericBucketMaxBoundaries _)) by lia. cbn [orb].
  destruct (bucket_arms_ok _ boundaries (piece_in_field field Hf HP) Hc 0) as (arms & E & Hp). rewrite E. cbn [rbind].
  eexists. split; [reflexivity|]. apply piece_in_pre; [piece_lit|]. apply (piece_in_eq _ _ (0 + len boundaries)); [|lia].
  apply piece_in_app; [by apply piece_in_field|]. apply piece_in_pre; [piece_lit|]. apply piece_in_post; [|done].
  apply piece_pre; [piece_lit|]. apply piece_post; [piece_lit|apply piece_itoa].
Qed.

(** *** The projection *)

Context (mode : string) (boundaries : string -> list string).

Record output_good (o : AggregateOutput) : Prop := {
  og_ok : output_ok mode o;
  og_field : is_identifier (ao_field o) = true -> P (ao_field o);
  og_alias : is_identifier (ao_alias o) = true -> P (ao_alias o);
  og_boundaries : ao_kind o = "numeric_bucket" ->
    1 <= len (boundaries (ao_alias o)) <= NumericBucketMaxBoundaries /\ Forall castable (boundaries (ao_alias o));
}.

Definition is_bucket (o : AggregateOutput) : bool := is_kind "time_bucket" o || is_kind "numeric_bucket" o.

(** The placeholders of an output's expression and their arguments. *)
Definition output_binds (o : AggregateOutput) : list Bind :=
  if is_kind "numeric_bucket" o then map BindString (boundaries (ao_alias o)) else [].
Definition output_marks (o : AggregateOutput) : Z := len (output_binds o).

Record projected_one (o : AggregateOutput) (st st' : projected) : Prop := {
  p1_projection : exists s, pj_projection st' = (pj_projection st ++ [s])%list /\ piece_in P s (output_marks o);
  p1_dimensions : exists l, pj_dimensions st' = (pj_dimensions st ++ l)%list /\
    Forall2 (fun o s => piece_in P s (output_marks o)) (List.filter is_grouping [o]) l;
  p1_projectionArgs : pj_projectionArgs st' = (pj_projectionArgs st ++ output_binds o)%list;
  p1_groupArgs : pj_groupArgs st' = (pj_groupArgs st ++ output_binds o)%list;
  p1_expressions : if is_bucket o
    then exists e, pj_bucketExpressions st' = (ao_alias o, e) :: pj_bucketExpressions st /\ piece_in P e (output_marks o)
    else pj_bucketExpressions st' = pj_bucketExpressions st;
  p1_bucketArgs : pj_bucketArgs st' =
    if is_kind "numeric_bucket" o then (ao_alias o, output_binds o) :: pj_bucketArgs st else pj_bucketArgs st;
  p1_checks : exists l, pj_bucketNullnessChecks st' = (pj_bucketNullnessChecks st ++ l)%list /\
    Forall (fun s => piece_in P s 0) l;
}.

Lemma piece_in_as s k alias : piece_in P s k -> is_identifier alias = true -> P alias ->
  piece_in P (s +:+ " AS " +:+ quote alias) k.
Proof.
  intros Hs Hi HP. apply (piece_in_eq _ _ (k + 0)); [|lia]. apply piece_in_app; [done|].
  apply piece_in_pre; [piece_lit|]. by apply piece_in_quote; [apply identifier_no_backtick|].
Qed.

Lemma measure_piece o : output_good o -> ao_kind o = "measure" -> piece_in P (measure_expression o) 0.
Proof.
  intros [Hok Hf Ha _] Hk. destruct Hok as (_ & [[H _]|[[H _]|[[H _]|(_ & _ & _ & _ & Hal & Hfn)]]]); try congruence.
  assert (Harg : piece_in P (if nonempty (ao_field o) then qualifyAggregateField (ao_field o) else "*") 0).
  { destruct Hfn as [[_ ->]|[_ Hfi]]; [apply piece_in_lit; piece_lit|].
    rewrite (is_identifier_nonempty _ Hfi). by apply piece_in_field; [|apply Hf]. }
  unfold measure_expression. set (arg := if nonempty (ao_field o) then _ else _) in *.
  assert (Hw : forall pre, piece pre [] 0 -> piece_in P ((pre +:+ arg) +:+ ") AS " +:+ quote (ao_alias o)) 0).
  { intros pre Hpre. apply (piece_in_eq _ _ (0 + 0)); [|done]. apply piece_in_app; [by apply piece_in_pre|].
    apply piece_in_pre; [piece_lit|]. apply piece_in_quote; [by apply identifier_no_backtick|by apply Ha]. }
  destruct (String.eqb (ao_function o) "count_all"); [apply (Hw "COUNT("); piece_lit|].
  destruct (String.eqb_spec (ao_function o) "count_distinct") as [E|E].
  { specialize (Hw "COUNT(DISTINCT " ltac:(piece_lit)). exact Hw. }
  specialize (Hw (to_upper (ao_function o) +:+ "(")). rewrite (sapp_assoc (to_upper _) "(" arg) in Hw. apply Hw.
  apply piece_post; [piece_lit|]. destruct Hfn as [[-> _]|[Hin _]]; [piece_lit|].
  simpl in Hin. repeat (destruct Hin as [<-|Hin]; [piece_lit|]). done.
Qed.

Lemma nullness_piece field e : is_identifier field = true -> P field -> piece_in P e 0 -> piece_in P (nullness_check field e) 0.
Proof.
  intros Hf HP He. unfold nullness_check. apply piece_in_pre; [piece_lit|]. apply (piece_in_eq _ _ (0 + 0)); [|done].
  apply piece_in_app; [by apply piece_in_field|]. apply piece_in_wrap; [piece_lit|piece_lit|done].
Qed.

Lemma project_output_ok o st : output_good o -> exists st', project_output boundaries o st = Ok st' /\ projected_one o st st'.
Proof.
  intros Hg. assert (Hg' := Hg). destruct Hg' as [(_ & Hk) Hf Ha Hb].
  unfold project_output.
  destruct Hk as [(K & _ & _ & _ & _ & _ & Fi)|[(K & _ & _ & _ & _ & _ & Fi & Ai)|[(K & _ & _ & _ & Hu & Tz & Fi & Ai)|(K & _)]]];
    unfold is_kind; rewrite K; cbn [String.eqb]; simpl String.eqb; cbv iota.
  - eexists. split; [reflexivity|].
    assert (Hp : piece_in P (representedField (qualifyAggregateField (ao_field o)) (ao_representation o) true) 0)
      by (by apply piece_in_represented, piece_in_field; [|apply Hf]).
    constructor; cbn [pj_projection pj_dimensions pj_projectionArgs pj_groupArgs pj_bucketExpressions pj_bucketArgs pj_bucketNullnessChecks List.filter];
      unfold output_marks, output_binds, is_bucket, is_grouping, is_kind; rewrite ?K; simpl; rewrite ?app_nil_r; try done.
    + eexists. split; [reflexivity|]. by apply piece_in_as; [|done|apply Hf].
    + eexists. split; [reflexivity|]. repeat constructor. unfold is_kind. rewrite K. exact Hp.
    + exists []. by rewrite app_nil_r.
  - destruct (Hb K) as [Hl Hc]. destruct (numeric_bucket_ok (ao_field o) _ Fi (Hf Fi) Hl Hc) as (e & E & Hp). rewrite E. cbn [rbind].
    eexists. split; [reflexivity|].
    assert (Hm : piece_in P ("MIN(" +:+ e +:+ ")") (len (boundaries (ao_alias o)))) by (apply piece_in_wrap; [piece_lit|piece_lit|done]).
    constructor; cbn [pj_projection pj_dimensions pj_projectionArgs pj_groupArgs pj_bucketExpressions pj_bucketArgs pj_bucketNullnessChecks List.filter];
      unfold output_marks, output_binds, is_bucket, is_grouping, is_kind; rewrite ?K; simpl String.eqb; cbv iota; cbn [orb andb]; rewrite ?len_map; try done.
    + eexists. split; [reflexivity|]. by apply piece_in_as; [|done|apply Ha].
    + eexists. split; [reflexivity|]. repeat constructor. unfold is_kind. rewrite K. simpl String.eqb. cbv iota. by rewrite len_map.
    + eexists. split; [reflexivity|done].
    + exists []. by rewrite app_nil_r.
  - rewrite Tz. destruct (piece_in_time_bucket (ao_field o) _ Fi (Hf Fi) Hu) as (e & E & Hp). rewrite E. cbn [rbind].
    eexists. split; [reflexivity|].
    constructor; cbn [pj_projection pj_dimensions pj_projectionArgs pj_groupArgs pj_bucketExpressions pj_bucketArgs pj_bucketNullnessChecks List.filter];
      unfold output_marks, output_binds, is_bucket, is_grouping, is_kind; rewrite ?K; simpl; rewrite ?app_nil_r; try done.
    + eexists. split; [reflexivity|]. by apply piece_in_as; [|done|apply Ha].
    + eexists. split; [reflexivity|]. repeat constructor. unfold is_kind. rewrite K. exact Hp.
    + eexists. split; [reflexivity|done].
    + eexists. split; [reflexivity|]. repeat constructor. by apply nullness_piece; [|apply Hf|].
  - eexists. split; [reflexivity|]. assert (Hp := measure_piece o Hg K).
    constructor; cbn [pj_projection pj_dimensions pj_projectionArgs pj_groupArgs pj_bucketExpressions pj_bucketArgs pj_bucketNullnessChecks List.filter];
      unfold output_marks, output_binds, is_bucket, is_grouping, is_kind; rewrite ?K; simpl; rewrite ?app_nil_r; try done.
    + eexists. split; [reflexivity|done].
    + exists []. rewrite app_nil_r. by split; [|constructor].
    + exists []. by rewrite app_nil_r.
Qed.

(** What the loop has filled in after the outputs [ps]. *)
Record projected_ok (ps : list AggregateOutput) (st : projected) : Prop := {
  po_projection : Forall2 (fun o s => piece_in P s (output_marks o)) ps (pj_projection st);
  po_dimensions : Forall2 (fun o s => piece_in P s (output_marks o)) (List.filter is_grouping ps) (pj_dimensions st);
  po_projectionArgs : pj_projectionArgs st = flat_map output_binds ps;
  po_groupArgs : pj_groupArgs st = flat_map output_binds ps;
  po_expressions_set : forall o, In o ps -> is_bucket o = true -> is_Some (map_get (pj_bucketExpressions st) (ao_alias o));
  po_expressions : forall a e, map_get (pj_bucketExpressions st) a = Some e ->
    exists o, In o ps /\ is_bucket o = true /\ ao_alias o = a /\ piece_in P e (output_marks o);
  po_bucketArgs_set : forall o, In o ps -> is_kind "numeric_bucket" o = true -> is_Some (map_get (pj_bucketArgs st) (ao_alias o));
  po_bucketArgs : forall a b, map_get (pj_bucketArgs st) a = Some b ->
    exists o, In o ps /\ is_kind "numeric_bucket" o = true /\ ao_alias o = a /\ b = output_binds o;
  po_checks : Forall (fun s => piece_in P s 0) (pj_bucketNullnessChecks st);
}.

Lemma map_get_cons {A} (m : list (string * A)) k v x : map_get ((k, v) :: m) x = if String.eqb x k then Some v else map_get m x.
Proof. done. Qed.

Lemma projected_ok_snoc ps o st st' : projected_ok ps st -> projected_one o st st' -> projected_ok (ps ++ [o])%list st'.
Proof.
  intros [Hp Hd Ha Hg Es E Bs B Hc] [(s & Ep & Hs) (l & Ed & Hl) Ea Eg Ee Eb (c & Ec & Hcs)]. constructor.
  - rewrite Ep. apply Forall2_app; [done|by repeat constructor].
  - rewrite Ed, List.filter_app. by apply Forall2_app.
  - rewrite Ea, flat_map_app, Ha. simpl. by rewrite app_nil_r.
  - rewrite Eg, flat_map_app, Hg. simpl. by rewrite app_nil_r.
  - intros q [Hq|[<-|[]]]%in_app_iff Hb.
    + destruct (is_bucket o); [destruct Ee as (e & -> & _); rewrite map_get_cons; destruct (String.eqb _ _); [by eexists|by apply Es]|].
      rewrite Ee. by apply Es.
    + rewrite Hb in Ee. destruct Ee as (e & -> & _). rewrite map_get_cons, String.eqb_refl. by eexists.
  - intros a e. destruct (is_bucket o) eqn:Ho.
    + destruct Ee as (e' & -> & He'). rewrite map_get_cons. destruct (String.eqb_spec a (ao_alias o)) as [->|_].
      * intros [= <-]. exists o. split_and!; try done. apply in_app_iff. by right; left.
      * intros He. destruct (E a e He) as (q & Hq & H). exists q. split; [apply in_app_iff; by left|done].
    + rewrite Ee. intros He. destruct (E a e He) as (q & Hq & H). exists q. split; [apply in_app_iff; by left|done].
  - intros q Hq Hn. rewrite Eb. apply in_app_iff in Hq as [Hq|[<-|[]]].
    + destruct (is_kind _ o); [rewrite map_get_cons; destruct (String.eqb _ _); [by eexists|by apply Bs]|by apply Bs].
    + rewrite Hn, map_get_cons, String.eqb_refl. by eexists.
  - intros a b. rewrite Eb. destruct (is_kind "numeric_bucket" o) eqn:Ho.
    + rewrite map_get_cons. destruct (String.eqb_spec a (ao_alias o)) as [->|_].
      * intros [= <-]. exists o. split_and!; try done. apply in_app_iff. by right; left.
      * intros Hb. destruct (B a b Hb) as (q & Hq & H). exists q. split; [apply in_app_iff; by left|done].
    + intros Hb. destruct (B a b Hb) as (q & Hq & H). exists q. split; [apply in_app_iff; by left|done].
  - rewrite Ec. by apply Forall_app.
Qed.

Lemma projection_ok qs : Forall output_good qs -> forall i ps st, projected_ok ps st ->
  exists st', iter_from (fun _ output st => project_output boundaries output st) i qs st = Ok st' /\
    projected_ok (ps ++ qs)%list st'.
Proof.
  induction 1 as [|o qs Ho _ IH]; intros i ps st Hst; [exists st; by rewrite app_nil_r|].
  destruct (project_output_ok o st Ho) as (s1 & E & H1).
  destruct (IH (i + 1) (ps ++ [o])%list s1 (projected_ok_snoc _ _ _ _ Hst H1)) as (s2 & E2 & H2).
  exists s2. cbn [iter_from]. rewrite E. cbn [rbind]. by rewrite <- app_assoc in H2.
Qed.

Lemma nothing_projected_ok : projected_ok [] nothing_projected.
Proof. constructor; try done; constructor. Qed.

(** *** Order terms *)

Definition order_binds (o : AggregateSort) : list Bind :=
  if String.eqb (as_kind o) "numeric_bucket" then map BindString (boundaries (as_alias o)) else [].

Record order_good (o : AggregateSort) : Prop := {
  oo_ok : order_ok o;
  oo_field : is_identifier (as_field o) = true -> P (as_field o);
  oo_alias : is_identifier (as_alias o) = true -> P (as_alias o);
}.

Lemma same_canonical_name ps o o' : NoDup (map canonical_name ps) -> In o ps -> In o' ps ->
  canonical_name o = canonical_name o' -> o = o'.
Proof.
  intros Hnd Hi Hj E. apply list_elem_of_In, list_elem_of_lookup in Hi as [i Hi].
  apply list_elem_of_In, list_elem_of_lookup in Hj as [j Hj].
  assert (i = j); [|congruence]. eapply NoDup_lookup; [exact Hnd|..]; rewrite list_lookup_fmap; [by rewrite Hi|].
  rewrite Hj. simpl. by rewrite E.
Qed.

Lemma canonical_name_alias o : ao_kind o = "measure" \/ is_bucket o = true -> canonical_name o = ao_alias o.
Proof.
  unfold canonical_name, is_plain, is_bucket, is_kind. intros [->|H]; [done|].
  apply orb_true_iff in H. rewrite !String.eqb_eq in H. by destruct H as [->| ->].
Qed.

Lemma order_term_ok ps st o : projected_ok ps st -> NoDup (map canonical_name ps) -> Forall (output_ok mode) ps ->
  order_good o -> targets ps o ->
  exists text, order_term st o = Ok (text, order_binds o) /\ piece_in P text (len (order_binds o)).
Proof.
  intros Hst Hnd Hps [(Hr & Hd & Hk) Hf Ha] Ht. unfold order_term, targets, order_binds in *.
  assert (Hdir : forall s k, piece_in P s k -> piece_in P (s +:+ " " +:+ to_upper (as_direction o)) k).
  { intros s k. apply piece_in_post. destruct Hd as [->| ->]; piece_lit. }
  assert (Hbind : forall b, map_get (pj_bucketArgs st) (as_alias o) = Some b ->
    exists q, In q ps /\ ao_kind q = "numeric_bucket" /\ ao_alias q = as_alias o /\ b = output_binds q).
  { intros b Hb. destruct (po_bucketArgs _ _ Hst _ _ Hb) as (q & Hq & Hn & H1 & H2). exists q. split_and!; try done.
    by apply String.eqb_eq in Hn. }
  assert (Hclash : forall q, In q ps -> ao_alias q = as_alias o -> canonical_name q = ao_alias q -> ao_kind q <> "numeric_bucket" ->
    map_get (pj_bucketArgs st) (as_alias o) = None).
  { intros q Hq Eq Hc Hn. destruct (map_get _ _) as [b|] eqn:E; [|done]. exfalso.
    destruct (Hbind b eq_refl) as (q' & Hq' & Hn' & Ea' & _). assert (q = q'); [|congruence].
    apply (same_canonical_name ps); [done..|]. rewrite Hc, (canonical_name_alias q'); [congruence|].
    right. unfold is_bucket, is_kind. by rewrite Hn'. }
  destruct (String.eqb_spec (as_kind o) "dimension") as [K|K].
  - rewrite K. simpl String.eqb. cbv iota. cbn [rbind].
    destruct Hk as [(_ & Ea & Fi)|(H & _)]; [|rewrite K in H; simpl in H; intuition discriminate].
    assert (Hb : map_get (pj_bucketArgs st) (as_alias o) = None).
    { destruct (map_get _ _) as [b|] eqn:E; [|done]. exfalso. destruct (Hbind b eq_refl) as (q & Hq & Hn & Eq & _).
      rewrite Forall_forall in Hps. apply list_elem_of_In in Hq. destruct (Hps q Hq) as (_ & H). rewrite Ea in Eq.
      rewrite Eq, Hn in H. destruct H as [(? & _)|[H|[(? & _)|(? & _)]]]; try discriminate.
      destruct H as (_ & _ & _ & _ & _ & _ & _ & H). discriminate. }
    rewrite Hb. eexists. split; [reflexivity|]. apply Hdir. by apply piece_in_represented, piece_in_field; [|apply Hf].
  - destruct Hk as [(H & _)|(Hin & _ & _ & Ai)]; [congruence|].
    destruct (String.eqb_spec (as_kind o) "measure") as [K1|K1].
    { rewrite K1. simpl String.eqb. cbv iota. cbn [orb rbind]. destruct Ht as (q & Hq & Kq & Eq).
      assert (Hnone : map_get (pj_bucketArgs st) (as_alias o) = None)
        by (apply (Hclash q Hq Eq); [apply canonical_name_alias; by left|congruence]).
      rewrite Hnone.
      eexists. split; [reflexivity|]. apply Hdir. apply piece_in_quote; [by apply identifier_no_backtick|by apply Ha]. }
    destruct (String.eqb_spec (as_kind o) "numeric_bucket") as [K2|K2].
    + destruct Ht as (q & Hq & Kq & Eq). rewrite orb_true_r.
      assert (Hnq : is_kind "numeric_bucket" q = true) by (by apply String.eqb_eq).
      assert (Hbq : is_bucket q = true) by (unfold is_bucket; by rewrite Hnq, orb_true_r).
      destruct (po_expressions_set _ _ Hst q Hq Hbq) as [e He]. rewrite Eq in He. rewrite He. cbn [rbind].
      destruct (po_bucketArgs_set _ _ Hst q Hq Hnq) as [b Hb]. rewrite Eq in Hb. rewrite Hb.
      destruct (po_expressions _ _ Hst _ _ He) as (q1 & Hq1 & B1 & E1 & P1).
      destruct (Hbind b Hb) as (q2 & Hq2 & K2' & E2 & ->).
      assert (q1 = q) as ->.
      { apply (same_canonical_name ps); [done..|]. rewrite !canonical_name_alias by auto. congruence. }
      assert (q2 = q) as ->.
      { apply (same_canonical_name ps); [done..|]. rewrite !canonical_name_alias by (right; unfold is_bucket, is_kind; rewrite ?K2', ?Kq; done). congruence. }
      assert (Eb : output_binds q = map BindString (boundaries (as_alias o))) by (unfold output_binds; by rewrite Hnq, Eq).
      simpl. rewrite Eb. eexists. split; [reflexivity|]. apply Hdir. unfold output_marks in P1. by rewrite Eb in P1.
    + assert (K3 : as_kind o = "time_bucket") by (simpl in Hin; intuition congruence). rewrite K3. simpl String.eqb. cbv iota. cbn [orb].
      destruct Ht as (q & Hq & Kq & Eq).
      assert (Hbq : is_bucket q = true) by (unfold is_bucket, is_kind; by rewrite Kq).
      destruct (po_expressions_set _ _ Hst q Hq Hbq) as [e He]. rewrite Eq in He. rewrite He. cbn [rbind].
      assert (Hnone : map_get (pj_bucketArgs st) (as_alias o) = None)
        by (apply (Hclash q Hq Eq); [apply canonical_name_alias; by right|congruence]).
      rewrite Hnone.
      destruct (po_expressions _ _ Hst _ _ He) as (q1 & Hq1 & B1 & E1 & P1).
      assert (q1 = q) as ->.
      { apply (same_canonical_name ps); [done..|]. rewrite !canonical_name_alias by auto. congruence. }
      eexists. split; [reflexivity|]. apply Hdir. unfold output_marks, output_binds, is_kind in P1. by rewrite Kq in P1.
Qed.

Lemma order_terms_ok ps st : projected_ok ps st -> NoDup (map canonical_name ps) -> Forall (output_ok mode) ps ->
  forall os, Forall order_good os -> Forall (targets ps) os ->
  exists terms, compile_all (order_term st) os = Ok (terms, flat_map order_binds os) /\
    Forall2 (fun o s => piece_in P s (len (order_binds o))) os terms.
Proof.
  intros Hst Hnd Hps. induction os as [|o os IH]; intros Hg Ht; [exists []; by split|].
  inversion Hg; inversion Ht; subst. destruct IH as (terms & E & H); [done..|].
  destruct (order_term_ok ps st o) as (t & Eo & Ho); [done..|].
  exists (t :: terms). cbn [compile_all]. rewrite Eo, E. cbn [rbind]. split; [done|by constructor].
Qed.
End Expressions.

(** ** From validation to the statement *)

Lemma identifier_lower x : is_identifier x = true -> is_identifier (to_lower x) = true.
Proof.
  unfold is_identifier. rewrite !andb_true_iff. intros [[Hn Hl] Hp]. unfold to_lower. rewrite slen_smap.
  destruct x as [|c x]; [done|]. split_and!; try done. cbn [smap identifierPattern] in *. apply andb_true_iff in Hp as [H1 H2].
  assert (Hi : forall d, implb (is_identifier_char d) (is_identifier_char (lower_ascii d)) = true).
  { apply all_bytes_spec. vm_compute. reflexivity. }
  assert (Hs : forall d, implb (is_identifier_start d) (is_identifier_start (lower_ascii d)) = true).
  { apply all_bytes_spec. vm_compute. reflexivity. }
  apply andb_true_iff. split; [specialize (Hs c); by rewrite H1 in Hs|].
  clear -H2 Hi. induction x as [|d x IH]; [done|]. cbn [sforall smap] in *. apply andb_true_iff in H2 as [Hd Hx].
  specialize (Hi d). rewrite Hd in Hi. apply andb_true_iff. by split; [|apply IH].
Qed.

Lemma canonical_identifier_ok x ci : is_identifier x = true -> is_identifier (canonicalIdentifier x ci) = true.
Proof. unfold canonicalIdentifier. destruct ci; [apply identifier_lower|done]. Qed.

Lemma sum_of_perm {A} (f : A -> Z) l k : l ≡ₚ k -> sum_of f l = sum_of f k.
Proof. induction 1; simpl in *; lia. Qed.

Section Authorized.
Context (sha256 : string -> string).
Abbreviation node := (normalizeAggregateFilterNode sha256).

(** Normalization keeps a filter well-formed, with as many parameters. *)
Lemma normal_filter_ok ci f : filter_ok f -> forall e, node ci f = Ok e ->
  filter_ok (ne_filter e) /\ parameters_of (ne_filter e) = parameters_of f.
Proof.
  induction f as [r k fl o vs es IH] using Filter_ind'. intros Hok e. inversion Hok; subst.
  - rewrite node_predicate. unfold with_field; cbn [f_field f_values f_representation f_operator f_kind].
    intros H. err_inv. destruct_and?. subst.
    repeat match goal with H : (let '(_, _) := ?x in _) = _ |- _ => destruct x; err_inv end. subst. cbn [ne_filter].
    unfold cloneTypedValues. cbn [fmap option_fmap option_map]. rewrite (clone_values_ok r) by done. split; [|done].
    constructor; try done. by apply canonical_identifier_ok.
  - rewrite node_group by done. rewrite rbind_ok. intros (ys & Hys%results_iff & Hg).
    unfold normalize_group in Hg. apply if_err_ok in Hg as [_ [= <-]]. cbn [ne_filter].
    assert (Hall : Forall (fun y => filter_ok (ne_filter y)) ys /\ sum_of (fun y => parameters_of (ne_filter y)) ys = sum_of parameters_of es /\ len ys = len es).
    { clear Hok. match goal with H : 2 <= len es <= _ |- _ => clear H end.
      induction Hys as [|x y es ys Hxy _ IHys]; [by split_and!|].
      inversion IH as [|? ? I1 I2]; subst. match goal with H : Forall filter_ok _ |- _ => inversion H as [|? ? F1 F2]; subst end.
      destruct (I1 F1 y Hxy) as [Fy Py]. destruct (IHys I2 F2) as (A & B & C).
      split_and!; [by constructor|simpl; simpl in B; lia|rewrite !len_cons; lia]. }
    destruct Hall as (Ho & Hsum & Hlen). pose proof (sort_func_perm before_expression ys) as Hperm.
    unfold with_expressions. cbn [f_representation f_kind f_field f_operator f_values cloneTypedValues fmap option_fmap option_map].
    split.
    + constructor; [done| |].
      * rewrite len_map. unfold len in *. rewrite Hperm. lia.
      * apply List.Forall_map. rewrite Hperm. done.
    + change (0 + sum_of parameters_of (map ne_filter (sort_func before_expression ys)) = 0 + sum_of parameters_of es).
      f_equal. rewrite <- Hsum, <- (sum_of_perm _ _ _ Hperm). generalize (sort_func before_expression ys).
      intros l. induction l; simpl; congruence.
Qed.
End Authorized.

(** The names that the statement of an aggregate may quote. *)
Definition aggregate_name (spec : NormalizedAggregateSpec) (x : string) : Prop :=
  In x [r_schema (a_source spec); r_name (a_source spec); aggregateSourceAlias; aggregateTimeBucketValidityAlias] \/
  (exists o, In o (a_projection spec) /\ (x = ao_field o \/ x = ao_alias o)) \/
  In x (from_option collectFields [] (a_filter spec)) \/
  (exists o, In o (a_order_by spec) /\ (x = as_field o \/ x = as_alias o)).

(** The arguments, in the order of the text: the boundaries of the projected
    buckets, the values of the filter, the boundaries again for GROUP BY, those
    of each ordered bucket, and one row more than the limit. *)
Definition aggregate_args (spec : NormalizedAggregateSpec) (boundaries : string -> list string) (filterArgs : list Bind) : list Bind :=
  (flat_map (output_binds boundaries) (a_projection spec) ++ filterArgs ++
   flat_map (output_binds boundaries) (a_projection spec) ++ flat_map (order_binds boundaries) (a_order_by spec) ++
   (if String.eqb (a_mode spec) AggregateModeGrouped then [BindInt (a_limit spec + 1)] else []))%list.

(** What the compiler needs of an aggregate. *)
Record statement_ok (spec : NormalizedAggregateSpec) (boundaries : string -> list string) : Prop := {
  sk_schema : is_identifier (r_schema (a_source spec)) = true;
  sk_name : is_identifier (r_name (a_source spec)) = true;
  sk_outputs : Forall (output_ok (a_mode spec)) (a_projection spec);
  sk_names : NoDup (map canonical_name (a_projection spec));
  sk_boundaries : forall o, In o (a_projection spec) -> ao_kind o = "numeric_bucket" ->
    1 <= len (boundaries (ao_alias o)) <= NumericBucketMaxBoundaries /\ Forall castable (boundaries (ao_alias o));
  sk_filter : from_option filter_ok True (a_filter spec);
  sk_orders : Forall order_ok (a_order_by spec);
  sk_targets : Forall (targets (a_projection spec)) (a_order_by spec);
}.

Lemma aggregate_where_ok spec : from_option filter_ok True (a_filter spec) ->
  exists text args, aggregate_where (a_filter spec) = Ok (text, args) /\
    piece_in (aggregate_name spec) text (filter_parameters (a_filter spec)) /\
    binds_of (from_option filter_values [] (a_filter spec)) args.
Proof.
  intros Hf. unfold aggregate_where.
  assert (HP : forall x, In x (from_option collectFields [] (a_filter spec)) -> aggregate_name spec x) by (unfold aggregate_name; auto).
  destruct (a_filter spec) as [f|] eqn:Ef; simpl in *.
  - destruct (compile_filter_ok qualifyAggregateField (fun x => [aggregateSourceAlias; x])) with (f := f)
      as (text & args & E & Hp & Hb).
    { intros x Hx. unfold qualifyAggregateField. apply (piece_eq _ ([aggregateSourceAlias] ++ [x])%list (0 + 0)); [|done..].
      apply piece_app; [apply piece_quote; reflexivity|]. apply piece_pre; [piece_lit|]. by apply piece_quote, identifier_no_backtick. }
    { done. }
    unfold compileAggregateFilter. rewrite E. cbn [rbind]. eexists _, args. split; [reflexivity|]. split; [|done].
    apply piece_in_pre; [piece_lit|]. exists (filter_names (fun x => [aggregateSourceAlias; x]) f). split; [done|].
    apply Forall_forall. intros x Hx%list_elem_of_In. unfold filter_names in Hx. apply in_flat_map in Hx as (y & Hy & [<-|[<-|[]]]);
      [left; simpl; auto|by apply HP].
  - eexists _, _. split; [reflexivity|]. split; [apply piece_in_lit, piece_nil|constructor].
Qed.

Lemma grouping_binds boundaries ps : List.filter is_grouping ps = [] -> flat_map (output_binds boundaries) ps = [].
Proof.
  induction ps as [|o ps IH]; [done|]. simpl. destruct (is_grouping o) eqn:E; [done|]. intros H. rewrite (IH H), app_nil_r.
  unfold output_binds, is_kind, is_grouping in *. apply orb_false_iff in E as [_ ->]. done.
Qed.

Lemma sum_output_marks boundaries ps : sum_of (output_marks boundaries) ps = len (flat_map (output_binds boundaries) ps).
Proof. by rewrite sum_flat_map. Qed.

Lemma grouping_marks boundaries ps : sum_of (output_marks boundaries) (List.filter is_grouping ps) = sum_of (output_marks boundaries) ps.
Proof.
  induction ps as [|o ps IH]; [done|]. simpl List.filter. change (sum_of (output_marks boundaries) (o :: ps))
    with (output_marks boundaries o + sum_of (output_marks boundaries) ps). destruct (is_grouping o) eqn:E.
  - change (sum_of (output_marks boundaries) (o :: List.filter is_grouping ps))
      with (output_marks boundaries o + sum_of (output_marks boundaries) (List.filter is_grouping ps)). lia.
  - rewrite IH. unfold output_marks, output_binds, is_kind, is_grouping in *. by apply orb_false_iff in E as [_ ->].
Qed.

Section StatementPieces.
Context (spec : NormalizedAggregateSpec) (boundaries : string -> list string) (st : projected).
Abbreviation P := (aggregate_name spec).
Context (Hst : projected_ok P boundaries (a_projection spec) st).

Lemma projection_piece :
  piece_in P (join ", " (pj_projection st ++ validity_column (pj_bucketNullnessChecks st))%list)
    (sum_of (output_marks boundaries) (a_projection spec)).
Proof.
  assert (Hsep : piece ", " [] 0) by piece_lit. unfold validity_column.
  destruct (len (pj_bucketNullnessChecks st) =? 0).
  { rewrite app_nil_r. apply piece_in_join; [done|apply (po_projection _ _ _ _ Hst)]. }
  set (v := "MAX(CASE WHEN " +:+ _). assert (Hv : piece_in P v 0).
  { unfold v. apply piece_in_pre; [piece_lit|].
    assert (Hj : piece_in P (join " OR " (pj_bucketNullnessChecks st)) 0).
    { rewrite <- (sum_zero (pj_bucketNullnessChecks st)). apply piece_in_join; [piece_lit|].
      apply Forall2_same_length_lookup_2; [done|]. intros i x y Hx Hy. assert (x = y) as -> by congruence.
      by apply (Forall_lookup_1 _ _ _ _ (po_checks _ _ _ _ Hst) Hy). }
    apply (piece_in_eq _ _ (0 + 0)); [|done]. apply piece_in_app; [done|]. apply piece_in_pre; [piece_lit|].
    apply piece_in_quote; [reflexivity|]. left. simpl. auto. }
  set (marks := fun o => from_option (output_marks boundaries) 0 o).
  assert (Hsum : sum_of marks (map Some (a_projection spec) ++ [None])%list = sum_of (output_marks boundaries) (a_projection spec)).
  { clear. unfold sum_of. induction (a_projection spec) as [|o l IH]; [done|]. cbn [map app foldr]. by rewrite IH. }
  rewrite <- Hsum. apply piece_in_join; [done|]. apply Forall2_app; [|by repeat constructor].
  apply Forall2_fmap_l. apply (po_projection _ _ _ _ Hst).
Qed.

Lemma group_piece :
  piece_in P (if negb (len (pj_dimensions st) =? 0) then " GROUP BY " +:+ join ", " (pj_dimensions st) else EmptyString)
    (sum_of (output_marks boundaries) (a_projection spec)).
Proof.
  assert (Hj := piece_in_join P ", " _ _ _ ltac:(piece_lit) (po_dimensions _ _ _ _ Hst)). rewrite grouping_marks in Hj.
  destruct (pj_dimensions st) as [|d ds] eqn:Ed.
  - exact Hj.
  - replace (len (d :: ds) =? 0) with false by (symmetry; apply Z.eqb_neq; rewrite len_cons; pose proof (len_nonneg ds); lia).
    apply piece_in_pre; [piece_lit|exact Hj].
Qed.

Lemma group_args : (if negb (len (pj_dimensions st) =? 0) then pj_groupArgs st else []) = flat_map (output_binds boundaries) (a_projection spec).
Proof.
  rewrite (po_groupArgs _ _ _ _ Hst). destruct (len (pj_dimensions st) =? 0) eqn:E; [|done]. cbn [negb].
  apply len_zero in E. pose proof (po_dimensions _ _ _ _ Hst) as H. rewrite E in H. inversion H as [Hn|].
  symmetry. by apply grouping_binds.
Qed.
End StatementPieces.

Lemma compileAggregate_ok spec boundaries deadlineMS : statement_ok spec boundaries ->
  exists text filterArgs, compileAggregate spec deadlineMS boundaries = Ok (text, aggregate_args spec boundaries filterArgs) /\
    piece_in (aggregate_name spec) text (len (aggregate_args spec boundaries filterArgs)) /\
    binds_of (from_option filter_values [] (a_filter spec)) filterArgs.
Proof.
  intros [Hs Hn Ho Hnd Hb Hf Hord Ht]. set (P := aggregate_name spec).
  assert (Hsrc : P aggregateSourceAlias) by (left; simpl; auto).
  assert (Hgood : Forall (output_good P (a_mode spec) boundaries) (a_projection spec)).
  { apply Forall_forall. intros o Hin. rewrite Forall_forall in Ho. assert (Hin' := Hin). apply list_elem_of_In in Hin'.
    constructor; [auto|intros _; right; left; eauto|intros _; right; left; eauto|auto]. }
  destruct (projection_ok P Hsrc (a_mode spec) boundaries _ Hgood 0 [] _ (nothing_projected_ok P boundaries)) as (st & Est & Hst).
  cbn [app] in Hst. destruct (aggregate_where_ok spec Hf) as (w & filterArgs & Ew & Hw & Hbinds).
  assert (Hog : Forall (order_good P) (a_order_by spec)).
  { apply Forall_forall. intros o Hin. rewrite Forall_forall in Hord. assert (Hin' := Hin). apply list_elem_of_In in Hin'.
    constructor; [auto|intros _; right; right; right; eauto|intros _; right; right; right; eauto]. }
  destruct (order_terms_ok P Hsrc (a_mode spec) boundaries _ st Hst Hnd Ho _ Hog Ht) as (terms & Et & Hterms).
  unfold compileAggregate, iter. rewrite Est. cbn [rbind]. rewrite Ew. cbn [rbind]. rewrite Et. cbn [rbind].
  rewrite (group_args spec boundaries st Hst), (po_projectionArgs _ _ _ _ Hst).
  eexists _, filterArgs. split; [reflexivity|]. split; [|done].
  assert (Horder : piece_in P (if len (a_order_by spec) =? 0 then EmptyString else " ORDER BY " +:+ join ", " terms)
    (len (flat_map (order_binds boundaries) (a_order_by spec)))).
  { rewrite sum_flat_map. assert (Hj := piece_in_join P ", " _ _ _ ltac:(piece_lit) Hterms).
    destruct (len (a_order_by spec) =? 0) eqn:E; [|apply piece_in_pre; [piece_lit|exact Hj]].
    apply len_zero in E. rewrite E in *. inversion Hterms; subst. exact Hj. }
  assert (Hlimit : piece_in P (if String.eqb (a_mode spec) AggregateModeGrouped then " LIMIT ?" else EmptyString)
    (len (if String.eqb (a_mode spec) AggregateModeGrouped then [BindInt (a_limit spec + 1)] else []))).
  { destruct (String.eqb _ _); [exists []; split; [piece_lit|constructor]|apply piece_in_lit, piece_nil]. }
  assert (Hlen : len filterArgs = filter_parameters (a_filter spec)).
  { unfold len. rewrite <- (Forall2_length _ _ _ Hbinds). destruct (a_filter spec); [|done]. apply filter_values_len. }
  assert (Hrest := piece_in_app P _ _ _ _ Hw (piece_in_app P _ _ _ _ (group_piece spec boundaries st Hst)
    (piece_in_app P _ _ _ _ Horder Hlimit))).
  assert (Hfrom : forall s k, piece_in P s k -> piece_in P (" FROM " +:+ quote (r_schema (a_source spec)) +:+ "." +:+
      quote (r_name (a_source spec)) +:+ " AS " +:+ quote aggregateSourceAlias +:+ s) k).
  { intros s k Hk. apply piece_in_pre; [piece_lit|]. apply (piece_in_eq _ _ (0 + (0 + (0 + k)))); [|lia].
    apply piece_in_app; [apply piece_in_quote; [by apply identifier_no_backtick|left; simpl; auto]|].
    apply piece_in_pre; [piece_lit|].
    apply piece_in_app; [apply piece_in_quote; [by apply identifier_no_backtick|left; simpl; auto]|].
    apply piece_in_pre; [piece_lit|]. apply piece_in_app; [by apply piece_in_quote|done]. }
  apply piece_in_pre; [apply piece_head|].
  eapply piece_in_eq; [apply piece_in_app; [apply (projection_piece spec boundaries st Hst)|apply Hfrom; exact Hrest]|].
  unfold aggregate_args. rewrite !len_app, Hlen, <- sum_output_marks. lia.
Qed.

(** *** The number of arguments *)

Lemma fold_ascii s : ascii_string s = true -> fold s = map byte (list_ascii_of_string (to_lower s)).
Proof.
  induction s as [|c s IH]; [done|]. rewrite ascii_string_cons, andb_true_iff. intros [Hc Hs].
  unfold fold. rewrite runes_ascii by done. cbn [map]. fold (fold s). rewrite IH by done.
  unfold to_lower. cbn [smap list_ascii_of_string map]. f_equal.
  assert (Hb : all_bytes (fun c => implb (is_ascii c) (fold_rune (Rune (byte c) (String c EmptyString)) =? byte (lower_ascii c))) = true)
    by (vm_compute; reflexivity).
  pose proof (all_bytes_spec _ Hb c) as H. cbv beta in H. rewrite Hc in H. by apply Z.eqb_eq in H.
Qed.

Lemma byte_inj c d : byte c = byte d -> c = d.
Proof.
  unfold byte. intros E. rewrite <- (ascii_N_embedding c), <- (ascii_N_embedding d). f_equal. lia.
Qed.

Lemma equal_fold_ascii a b : ascii_string a = true -> ascii_string b = true ->
  equal_fold a b = String.eqb (to_lower a) (to_lower b).
Proof.
  intros Ha Hb. apply eq_true_iff_eq. rewrite equal_fold_spec, String.eqb_eq, !fold_ascii by done. split; [|by intros ->].
  intros E. rewrite <- (string_of_list_ascii_of_string (to_lower a)), <- (string_of_list_ascii_of_string (to_lower b)). f_equal.
  revert E. generalize (list_ascii_of_string (to_lower a)), (list_ascii_of_string (to_lower b)).
  intros l. induction l as [|x l IH]; intros [|y k] E; try done. cbn [map] in E. injection E as Exy E. f_equal; [by apply byte_inj|by apply IH].
Qed.

Lemma identifier_ascii x : is_identifier x = true -> ascii_string x = true.
Proof.
  unfold is_identifier. rewrite !andb_true_iff. intros [_ Hp]. destruct x as [|c x]; [done|]. cbn [identifierPattern] in Hp.
  apply andb_true_iff in Hp as [H1 H2].
  assert (Hall : forall d, implb (is_identifier_start d || is_identifier_char d) (is_ascii d) = true)
    by (apply all_bytes_spec; vm_compute; reflexivity).
  unfold ascii_string. cbn [sforall]. apply andb_true_iff. split.
  - specialize (Hall c). by rewrite H1 in Hall.
  - eapply sforall_impl; [|exact H2]. intros d Hd. specialize (Hall d). by rewrite Hd, orb_true_r in Hall.
Qed.

Lemma sum_of_add {A} (f g : A -> Z) l : sum_of (fun a => f a + g a) l = sum_of f l + sum_of g l.
Proof. unfold sum_of. induction l as [|a l IH]; [done|]. cbn [foldr]. rewrite IH. lia. Qed.

Lemma sum_of_ext {A} (f g : A -> Z) l : (forall a, In a l -> f a = g a) -> sum_of f l = sum_of g l.
Proof.
  unfold sum_of. induction l as [|a l IH]; intros H; [done|]. cbn [foldr]. rewrite (H a), IH; [done| |by left].
  intros b Hb. apply H. by right.
Qed.

(** A sum whose terms vanish but for one member of a duplicate-free list. *)
Lemma sum_of_one {A} (name : A -> string) (f : A -> Z) l x : NoDup (map name l) -> In x l ->
  (forall y, In y l -> name y <> name x -> f y = 0) -> sum_of f l = f x.
Proof.
  unfold sum_of. induction l as [|a l IH]; intros Hnd Hin H; [done|]. cbn [map] in Hnd. apply NoDup_cons in Hnd as [Ha Hnd]. cbn [foldr].
  destruct Hin as [->|Hin].
  - replace (foldr (fun a acc => f a + acc) 0 l) with 0; [lia|]. clear IH Hnd. symmetry.
    assert (Hz : forall y, In y l -> f y = 0).
    { intros y Hy. apply H; [by right|]. intros E. apply Ha. rewrite <- E. by apply list_elem_of_In, in_map. }
    clear -Hz. induction l as [|a l IH]; [done|]. cbn [foldr]. rewrite (Hz a) by (by left). rewrite IH; [done|]. intros y Hy. apply Hz. by right.
  - rewrite IH; [|done|done|intros y Hy; apply H; by right]. rewrite (H a) by (try (by left); intros E; apply Ha; rewrite E; by apply list_elem_of_In, in_map).
    lia.
Qed.

Section Counting.
Context (spec : NormalizedAggregateSpec) (boundaries : string -> list string).
Context (Hnames : NoDup (map canonical_name (a_projection spec))).
Context (Htargets : Forall (targets (a_projection spec)) (a_order_by spec)).
Context (Hlower : forall o, In o (a_projection spec) -> ao_kind o = "numeric_bucket" ->
  is_identifier (ao_alias o) = true /\ to_lower (ao_alias o) = ao_alias o).
Context (Horders : forall o, In o (a_order_by spec) -> as_kind o = "numeric_bucket" ->
  is_identifier (as_alias o) = true /\ to_lower (as_alias o) = as_alias o).

Definition counted (a : string) : Z := len (boundaries a).

(** The arguments that the order terms [os] bind for an output. *)
Definition ordered_marks (os : list AggregateSort) (o : AggregateOutput) : Z :=
  if is_kind "numeric_bucket" o
  then counted (ao_alias o) * count_if (fun order => String.eqb (as_kind order) "numeric_bucket" && equal_fold (as_alias order) (ao_alias o)) os
  else 0.

Lemma ordered_marks_sum os : (forall o, In o os -> In o (a_order_by spec)) ->
  sum_of (ordered_marks os) (a_projection spec) = len (flat_map (order_binds boundaries) os).
Proof.
  induction os as [|order os IH]; intros Hin.
  { change (len (flat_map (order_binds boundaries) [])) with 0.
    rewrite <- (sum_zero (a_projection spec)). apply sum_of_ext. intros o _. unfold ordered_marks, count_if. cbn [List.filter].
    change (len []) with 0. destruct (is_kind _ o); lia. }
  cbn [flat_map]. rewrite len_app, <- IH by (intros; apply Hin; by right).
  set (one := fun o => ordered_marks [order] o).
  assert (Hone : sum_of one (a_projection spec) = len (order_binds boundaries order)).
  { unfold order_binds. destruct (String.eqb_spec (as_kind order) "numeric_bucket") as [K|K].
    - rewrite Forall_forall in Htargets. assert (Ht := Hin order (or_introl eq_refl)). apply list_elem_of_In, Htargets in Ht.
      unfold targets in Ht. rewrite K in Ht. simpl in Ht. destruct Ht as (q & Hq & Kq & Eq).
      destruct (Horders order) as [Ho1 Ho2]; [apply Hin; by left|done|].
      assert (Hmatch : forall o, In o (a_projection spec) -> ao_kind o = "numeric_bucket" ->
        equal_fold (as_alias order) (ao_alias o) = String.eqb (as_alias order) (ao_alias o)).
      { intros o Ho Ko. destruct (Hlower o Ho Ko) as [H1 H2]. by rewrite equal_fold_ascii, Ho2, H2 by (by apply identifier_ascii). }
      rewrite (sum_of_one canonical_name one _ q Hnames Hq).
      + unfold one, ordered_marks, count_if, is_kind. rewrite Kq. simpl String.eqb. cbv iota. cbn [List.filter].
        rewrite K, (Hmatch q Hq Kq), Eq, !String.eqb_refl. cbn [andb]. rewrite len_map. unfold counted. rewrite !len_cons, len_nil. lia.
      + intros o Ho Hne. unfold one, ordered_marks, count_if. destruct (is_kind "numeric_bucket" o) eqn:Ko; [|done].
        apply String.eqb_eq in Ko. cbn [List.filter]. rewrite K, (Hmatch o Ho Ko). simpl String.eqb. cbn [andb].
        destruct (String.eqb_spec (as_alias order) (ao_alias o)) as [E|E]; [|rewrite len_nil; lia].
        exfalso. apply Hne. rewrite !canonical_name_alias by (right; unfold is_bucket, is_kind; rewrite ?Ko, ?Kq; done). congruence.
    - rewrite len_nil, <- (sum_zero (a_projection spec)). apply sum_of_ext. intros o _. unfold one, ordered_marks, count_if. cbn [List.filter].
      rewrite (proj2 (String.eqb_neq _ _) K). cbn [andb]. rewrite len_nil. destruct (is_kind _ o); lia. }
  rewrite <- Hone, <- sum_of_add. apply sum_of_ext. intros o _. unfold one, ordered_marks. destruct (is_kind _ o); [|done].
  unfold count_if. cbn [List.filter]. destruct (_ && _); rewrite ?len_cons, ?len_nil; lia.
Qed.

Lemma bucket_parameters_sum :
  sum_of (bucket_parameters spec counted) (a_projection spec) =
  2 * len (flat_map (output_binds boundaries) (a_projection spec)) + len (flat_map (order_binds boundaries) (a_order_by spec)).
Proof.
  rewrite <- (ordered_marks_sum (a_order_by spec)) by done. rewrite <- sum_output_marks.
  assert (H2 : 2 * sum_of (output_marks boundaries) (a_projection spec) = sum_of (fun o => 2 * output_marks boundaries o) (a_projection spec)).
  { unfold sum_of. clear. induction (a_projection spec) as [|o l IH]; [done|]. cbn [foldr]. rewrite <- IH. lia. }
  rewrite H2, <- sum_of_add. apply sum_of_ext. intros o Ho. unfold bucket_parameters, ordered_marks, output_marks, output_binds.
  destruct (is_kind "numeric_bucket" o) eqn:K; [|done]. assert (K' := K). apply String.eqb_eq in K'.
  destruct (Hlower o Ho K') as [_ El]. rewrite El, len_map. unfold bucket_repeats, counted. lia.
Qed.
End Counting.

Lemma canonical_output_ok m mode o : output_ok mode o -> output_ok mode (canonical_output m o).
Proof.
  intros (Hr & H). split; [done|]. unfold canonical_output; cbn [ao_kind ao_representation ao_function ao_alias ao_unit ao_timezone ao_field].
  destruct H as [(K & Hm & Hf & Ha & Hu & Ht & Hi)|[(K & Hr' & Hm & Hf & Hu & Ht & Hi & Ha)|[(K & Hr' & Hm & Hf & Hu & Ht & Hi & Ha)|(K & Hr' & Hu & Ht & Ha & Hf)]]].
  - left. rewrite Ha. split_and!; try done. by apply canonical_identifier_ok.
  - right; left. split_and!; try done; by apply canonical_identifier_ok.
  - right; right; left. split_and!; try done; by apply canonical_identifier_ok.
  - right; right; right. split_and!; try done; [by apply canonical_identifier_ok|]. destruct Hf as [[? ->]|[? ?]].
    + left. split; [done|]. by destruct (CaseInsensitiveFields m).
    + right. split; [done|]. by apply canonical_identifier_ok.
Qed.

Lemma canonical_order_ok m o : order_ok o -> order_ok (canonical_order m o).
Proof.
  intros (Hr & Hd & Hk). unfold canonical_order. destruct (String.eqb_spec (as_kind o) "dimension") as [K|K];
    (split; [done|]); (split; [done|]); cbn [as_kind as_alias as_field as_representation].
  - left. destruct Hk as [(_ & Ha & Hi)|(H & _)]; [|rewrite K in H; simpl in H; intuition discriminate].
    split_and!; try done. by apply canonical_identifier_ok.
  - right. destruct Hk as [(H & _)|(H1 & H2 & H3 & H4)]; [congruence|]. split_and!; try done. by apply canonical_identifier_ok.
Qed.

Lemma normalized_statement_ok sha256 spec l v m w boundaries :
  ValidateAggregate spec l = Ok v -> NormalizeAggregateIdentifiers sha256 v m = Ok w ->
  (forall o, In o (a_projection (va_spec w)) -> ao_kind o = "numeric_bucket" ->
     1 <= len (boundaries (ao_alias o)) <= NumericBucketMaxBoundaries /\ Forall castable (boundaries (ao_alias o))) ->
  statement_ok (va_spec w) boundaries /\
  Parameters (va_stats w) = base_parameters (a_mode (va_spec w)) + filter_parameters (a_filter (va_spec w)).
Proof.
  intros [Hok ->]%validateAggregate_iff (_ & f & Hn & Hb & Hf & Ht & Hu & ->)%NormalizeAggregateIdentifiers_iff Hbound.
  cbn [va_spec va_stats aggregate_stored canonical_aggregate a_mode a_source a_projection a_filter a_order_by a_limit Parameters] in *.
  assert (Hfilter : from_option filter_ok True f /\ filter_parameters f = filter_parameters (g_filter spec)).
  { pose proof (ag_filter _ _ _ Hok) as Hfo. unfold filter_normalizes in Hf. destruct (g_filter spec) as [g|]; [|by subst].
    destruct Hf as (e & He & ->). by apply (normal_filter_ok sha256 (CaseInsensitiveFields m)). }
  destruct Hfilter as [Hf1 Hf2]. rewrite Hf2. split; [|done]. destruct Hok. constructor; try done;
    cbn [va_spec canonical_aggregate a_mode a_source a_projection a_filter a_order_by a_limit r_schema r_name].
  - by apply canonical_identifier_ok.
  - by apply canonical_identifier_ok.
  - apply List.Forall_map. eapply List.Forall_impl; [|exact ag_outputs]. intros o. apply canonical_output_ok.
  - apply List.Forall_map. eapply List.Forall_impl; [|exact ag_orders]. intros o. apply canonical_order_ok.
Qed.

(** C11: The statement of an authorized aggregate. A validated and normalized
    aggregate whose boundaries are castable and within the parameter limit always
    compiles; read back, its statement is made of keywords, quoted identifiers,
    placeholders and the fixed date formats only; each identifier is the source,
    one of the two reserved aliases, or an alias or field of the request; and the
    placeholders are exactly as many as the arguments and as the parameters that
    authorization counted, with the boundaries, the values of the filter and the
    limit bound in the order of the text. *)
Theorem authorized_aggregate_statement sha256 spec l v m w boundaries maximum total deadlineMS :
  ValidateAggregate spec l = Ok v -> NormalizeAggregateIdentifiers sha256 v m = Ok w ->
  NumericBucketParameters (va_spec w) (fun alias => len (boundaries alias)) (Parameters (va_stats w)) maximum = Ok total ->
  (forall o, In o (a_projection (va_spec w)) -> ao_kind o = "numeric_bucket" -> Forall castable (boundaries (ao_alias o))) ->
  exists text filterArgs names,
    let args := aggregate_args (va_spec w) boundaries filterArgs in
    compileAggregate (va_spec w) deadlineMS boundaries = Ok (text, args) /\
    lex (Lexed Outside [] 0) text = Lexed Outside names (len args) /\
    Forall (aggregate_name (va_spec w)) names /\
    binds_of (from_option filter_values [] (a_filter (va_spec w))) filterArgs /\
    len args = total /\ total <= maximum.
Proof.
  intros Hv Hn Hp Hcast.
  assert (Hp' : Forall (bucket_counted (fun alias => len (boundaries alias))) (a_projection (va_spec w)) /\ Parameters (va_stats w) <= maximum /\
    total = Parameters (va_stats w) + sum_of (bucket_parameters (va_spec w) (fun alias => len (boundaries alias))) (a_projection (va_spec w)) /\
    total <= maximum).
  { unfold NumericBucketParameters, iter in Hp. apply if_err_ok in Hp as [Hb%Z.ltb_ge Hp].
    apply parameters_loop_iff in Hp; [naive_solver|done]. }
  destruct Hp' as (Hcount & _ & Htotal & Hmax).
  assert (Hlower : forall o, In o (a_projection (va_spec w)) -> to_lower (ao_alias o) = ao_alias o).
  { apply NormalizeAggregateIdentifiers_iff in Hn as (_ & f & _ & _ & _ & _ & _ & ->). cbn [va_spec canonical_aggregate a_projection].
    intros o (q & <- & _)%in_map_iff. apply to_lower_idem. }
  assert (Hbound : forall o, In o (a_projection (va_spec w)) -> ao_kind o = "numeric_bucket" ->
    1 <= len (boundaries (ao_alias o)) <= NumericBucketMaxBoundaries /\ Forall castable (boundaries (ao_alias o))).
  { intros o Ho K. split; [|by apply Hcast]. rewrite Forall_forall in Hcount. apply list_elem_of_In in Ho.
    specialize (Hcount o Ho K). rewrite Hlower in Hcount; [done|]. by apply list_elem_of_In. }
  destruct (normalized_statement_ok _ _ _ _ _ _ _ Hv Hn Hbound) as [Hok Hparams].
  destruct (compileAggregate_ok _ boundaries deadlineMS Hok) as (text & filterArgs & E & (names & Hpiece & Hnames) & Hbinds).
  exists text, filterArgs, names. cbv zeta. specialize (Hpiece [] 0). rewrite Z.add_0_l, app_nil_l in Hpiece. split_and!; try done.
  rewrite Htotal, Hparams. change (fun alias => len (boundaries alias)) with (counted boundaries). rewrite bucket_parameters_sum.
  - assert (Hlen : len filterArgs = filter_parameters (a_filter (va_spec w))).
    { unfold len. rewrite <- (Forall2_length _ _ _ Hbinds). destruct (a_filter (va_spec w)); [|done]. apply filter_values_len. }
    unfold aggregate_args, base_parameters. rewrite !len_app, Hlen. destruct (String.eqb _ _); rewrite ?len_cons, ?len_nil; lia.
  - apply Hok.
  - apply Hok.
  - intros o Ho K. split; [|by apply Hlower]. destruct Hok. rewrite Forall_forall in sk_outputs0. apply list_elem_of_In in Ho.
    destruct (sk_outputs0 o Ho) as (_ & [(? & _)|[H|[(? & _)|(? & _)]]]); try congruence. apply H.
  - intros o Ho K. apply NormalizeAggregateIdentifiers_iff in Hn as (_ & f & _ & _ & _ & _ & _ & ->).
    destruct Hok as [_ _ _ _ _ _ Hord _]. cbn [va_spec canonical_aggregate a_order_by] in *.
    rewrite Forall_forall in Hord. apply list_elem_of_In in Ho. destruct (Hord o Ho) as (_ & _ & [(H & _)|(_ & _ & _ & H)]); [congruence|].
    split; [done|]. apply list_elem_of_In, in_map_iff in Ho as (q & <- & _). unfold canonical_order in *.
    destruct (String.eqb (as_kind q) "dimension") eqn:Kq; [|apply to_lower_idem]. cbn [as_kind] in K. apply String.eqb_eq in Kq. congruence.
Qed.

Definition example_bucket_normal : ValidatedAggregate :=
  match NormalizeAggregateIdentifiers srev (aggregate_stored example_bucket_spec) insensitive with
  | Ok w => w
  | Err _ => aggregate_stored example_bucket_spec
  end.

Lemma authorized_aggregate_statement_witness :
  exists text filterArgs names,
    let args := aggregate_args (va_spec example_bucket_normal) example_boundaries filterArgs in
    compileAggregate (va_spec example_bucket_normal) 1000 example_boundaries = Ok (text, args) /\
    lex (Lexed Outside [] 0) text = Lexed Outside names (len args) /\
    Forall (aggregate_name (va_spec example_bucket_normal)) names /\
    binds_of (from_option filter_values [] (a_filter (va_spec example_bucket_normal))) filterArgs /\
    len args = 8 /\ 8 <= 20.
Proof.
  apply (authorized_aggregate_statement srev example_bucket_spec (example_aggregate_limits 20) (aggregate_stored example_bucket_spec)
    insensitive example_bucket_normal example_boundaries 20 8 1000); [vm_compute; reflexivity..|].
  intros o Ho K. vm_compute in Ho. destruct Ho as [<-|[<-|[<-|[]]]]; try discriminate K.
  repeat constructor; eexists; vm_compute; reflexivity.
Defined.

(** ** The rows *)

(** [collectAggregateRowsWithSpec]: the hidden column of the validity check stands
    after the visible ones, which [visible] keeps. *)
Definition bucket_units (projection : list AggregateOutput) : list string :=
  map (fun o => if is_kind "time_bucket" o then ao_unit o else EmptyString) projection.

Definition validateBuckets (spec : NormalizedAggregateSpec) (columns : list ResultColumn) (boundaries : string -> list string)
    (raw : raw_row) : error :=
  check? (if AggregateUsesTimeBucket spec then validateTimeBucketRow raw (bucket_units (a_projection spec)) else nil_error) then
  if AggregateUsesNumericBucket spec then validateNumericBucketRow raw (a_projection spec) columns boundaries else nil_error.

Definition collectAggregateRowsWithSpec (spec : NormalizedAggregateSpec) (columns : list ResultColumn) (maxResultBytes : Z)
    (boundaries : string -> list string) (rows : row_stream) (r : AggregateResult) : result AggregateResult :=
  collect_aggregate (String.eqb (a_mode spec) AggregateModeGrouped) (a_limit spec) columns maxResultBytes
    (AggregateUsesTimeBucket spec || AggregateUsesNumericBucket spec) (validateBuckets spec columns boundaries) rows r.

(** C35: A scalar aggregate returns exactly one row or fails: with no row, with two
    or more, or with one whose encoding does not fit the budget of the envelope,
    the call is an error and never a truncated result; the byte count of the
    one row is exact. *)
Theorem scalar_aggregate_exact spec columns maxResultBytes boundaries base raws r :
  a_mode spec = AggregateModeScalar -> AggregateUsesTimeBucket spec = false -> AggregateUsesNumericBucket spec = false ->
  Forall (fun raw => List.length raw = List.length columns) raws ->
  collectAggregateRowsWithSpec spec columns maxResultBytes boundaries {| st_rows := map Ok raws; st_err := nil_error |}
    {| ar_rows := []; ar_bytes := base; ar_truncated := false; ar_provisional := None |} = Ok r <->
  exists raw, raws = [raw] /\ base + slen (marshal (row_json (encode_cells columns raw))) <= maxResultBytes /\
    r = {| ar_rows := [encode_cells columns raw]; ar_bytes := base + slen (marshal (row_json (encode_cells columns raw)));
           ar_truncated := false; ar_provisional := None |}.
Proof.
  intros Hm Ht Hn Hw. unfold collectAggregateRowsWithSpec, collect_aggregate, iter. rewrite Hm, Ht, Hn. cbn [st_rows st_err].
  change (String.eqb AggregateModeScalar AggregateModeGrouped) with false. cbn [orb].
  set (step := fun (_ : Z) scan r => aggregate_step false _ columns maxResultBytes false _ r scan).
  assert (Hrow : forall i raw rows bytes r', List.length raw = List.length columns ->
    step i (Ok raw) {| ar_rows := rows; ar_bytes := bytes; ar_truncated := false; ar_provisional := None |} = Ok r' ->
    exists b, r' = {| ar_rows := (rows ++ [encode_cells columns raw])%list; ar_bytes := b; ar_truncated := false; ar_provisional := None |}).
  { intros i raw rows bytes r' Hl. unfold step, aggregate_step. cbn [ar_provisional ar_truncated ar_rows ar_bytes andb rbind negb].
    unfold visible. rewrite take_ge by lia. destruct (encodedRowSize _ _ _); [|done]. intros [= <-]. eauto. }
  assert (Hloop : forall raws i rows bytes r', Forall (fun raw => List.length raw = List.length columns) raws ->
    iter_from step i (map Ok raws) {| ar_rows := rows; ar_bytes := bytes; ar_truncated := false; ar_provisional := None |} = Ok r' ->
    exists b, r' = {| ar_rows := (rows ++ map (encode_cells columns) raws)%list; ar_bytes := b; ar_truncated := false; ar_provisional := None |}).
  { clear -Hrow. induction raws as [|raw raws IH]; intros i rows bytes r' Hw; cbn [map iter_from].
    - intros [= <-]. rewrite app_nil_r. eauto.
    - inversion Hw; subst. rewrite rbind_ok. intros (s & Hs & Hr). destruct (Hrow _ _ _ _ _ ltac:(done) Hs) as (b & ->).
      destruct (IH _ _ _ _ ltac:(done) Hr) as (b' & ->). exists b'. by rewrite <- app_assoc. }
  assert (Hsingle : forall raw, List.length raw = List.length columns -> forall i r',
    step i (Ok raw) {| ar_rows := []; ar_bytes := base; ar_truncated := false; ar_provisional := None |} = Ok r' <->
    base + slen (marshal (row_json (encode_cells columns raw))) <= maxResultBytes /\
    r' = {| ar_rows := [encode_cells columns raw]; ar_bytes := base + slen (marshal (row_json (encode_cells columns raw)));
            ar_truncated := false; ar_provisional := None |}).
  { intros raw Hl i r'. unfold step, aggregate_step. cbn [ar_provisional ar_truncated ar_rows ar_bytes andb rbind negb].
    unfold visible. rewrite take_ge by lia.
    replace (maxResultBytes - base - separator [] - (decimalDigits (len (@nil raw_row) + 1) - decimalDigits (len (@nil raw_row))))
      with (maxResultBytes - base) by (change (separator (@nil raw_row)) with 0; change (len (@nil raw_row)) with 0;
        change (decimalDigits (0 + 1)) with 1; change (decimalDigits 0) with 1; lia).
    change (separator (@nil raw_row)) with 0. change (decimalDigits (len (@nil raw_row) + 1) - decimalDigits (len (@nil raw_row))) with 0.
    destruct (encodedRowSize raw columns (maxResultBytes - base)) as [n|] eqn:E.
    - apply encodedRowSize_iff in E as (_ & -> & Hle). rewrite Z.add_0_l. cbn [app].
      split; [intros [= <-]; split; [lia|done]|by intros [_ ->]].
    - split; [done|]. intros [Hle _]. exfalso.
      assert (H : encodedRowSize raw columns (maxResultBytes - base) = Some (slen (marshal (row_json (encode_cells columns raw)))))
        by (apply encodedRowSize_iff; split_and!; [done|done|lia]). congruence. }
  rewrite rbind_ok. setoid_rewrite rbind_ok. split.
  - intros (s & Hs & [] & _ & Hf). destruct (Hloop _ _ _ _ _ Hw Hs) as (b & ->). unfold aggregate_finish in Hf.
    cbn [ar_provisional negb ar_rows app] in Hf. apply if_err_ok in Hf as [Hl [= <-]].
    apply negb_false_iff, Z.eqb_eq in Hl. rewrite len_map in Hl. destruct raws as [|raw [|raw' raws]]; [done| |rewrite !len_cons in Hl; pose proof (len_nonneg raws); unfold raw_row in *; lia].
    cbn [map iter_from] in Hs. rewrite rbind_ok in Hs. destruct Hs as (s & Hs & [= ->]). inversion Hw; subst.
    apply Hsingle in Hs as [Hle E]; [|done]. injection E as ->. exists raw. by split_and!.
  - intros (raw & -> & Hle & ->). inversion Hw; subst. eexists. split.
    + cbn [map iter_from]. rewrite rbind_ok. eexists. split; [apply Hsingle; [done|by split]|reflexivity].
    + exists tt. split; [done|]. reflexivity.
Qed.

Lemma scalar_aggregate_exact_witness :
  exists r, collectAggregateRowsWithSpec
    {| a_mode := AggregateModeScalar; a_source := {| r_schema := "shop"; r_name := "orders" |};
       a_projection := [example_measure "count_all" EmptyString "n"]; a_filter := None; a_order_by := []; a_limit := 0 |}
    [text_column] 60 (fun _ => []) {| st_rows := map Ok [[Some "12"]]; st_err := nil_error |}
    {| ar_rows := []; ar_bytes := 50; ar_truncated := false; ar_provisional := None |} = Ok r /\ ar_bytes r = 56.
Proof.
  eexists. split.
  - apply (scalar_aggregate_exact _ [text_column] 60 (fun _ => []) 50 [[Some "12"]]); [reflexivity..|repeat constructor|].
    exists [Some "12"]. split; [reflexivity|]. split; [vm_compute; discriminate|reflexivity].
  - vm_compute. reflexivity.
Defined.
