(* ===== verification/Keyset.v ===== *)
(** Keyset requests (internal/queryspec/keyset.go, and the exact filter digests of
    internal/queryspec/aggregate.go): the data of a paginated select,
    [ValidateKeyset], [RevalidateKeyset], [NormalizeKeysetIdentifiers] and the hash
    that names the shape of a request in the audit log. *)
From S2P Require Import Prelude Domain GoJson Number Portable Values QuerySpec Aggregate AggregateNormal NumericBucket.
Local Open Scope string_scope.
Local Open Scope Z_scope.

(** ** Data *)

Definition ProtocolMaxKeysetFields : Z := 8.
Definition ProtocolMaxCursorStringRunes : Z := 3072.
Definition ProtocolMaxCursorBytes : Z := 3072.

Record KeysetSpec := {
  k_source : ResourceRef; k_projection : list Selection; k_filter : option Filter; k_order_by : list Sort; k_limit : Z;
}.

Record KeysetCursorValue := { cv_type : string; cv_value : string }.

(** [pg_cursor] is [None] for a nil slice: a first page must not have a cursor, not
    even an empty one. *)
Record KeysetPage := { pg_kind : string; pg_cursor : option (list KeysetCursorValue) }.

Record KeysetRequest := {
  kr_kind : string; kr_profile : string; kr_datasource : string; kr_shape : string; kr_query : KeysetSpec; kr_page : KeysetPage;
}.

Record NormalizedKeysetRequest := {
  nk_profile : string; nk_datasource : string; nk_shape : string; nk_query : KeysetSpec; nk_page : KeysetPage;
}.

Record ValidatedKeyset := { vk_request : NormalizedKeysetRequest; vk_stats : Stats; vk_valid : bool }.

Definition cursor_of (page : KeysetPage) : list KeysetCursorValue := default [] (pg_cursor page).

(** [SelectRequestVNext]: a legacy request or a keyset request, never both. *)
Record SelectRequestVNext := { sr_legacy : option Spec; sr_keyset : option KeysetRequest }.

Definition SelectRequestVNext_Legacy (r : SelectRequestVNext) : option Spec :=
  match sr_legacy r, sr_keyset r with Some legacy, None => Some legacy | _, _ => None end.
Definition SelectRequestVNext_Keyset (r : SelectRequestVNext) : option KeysetRequest :=
  match sr_keyset r, sr_legacy r with Some keyset, None => Some keyset | _, _ => None end.

(** ** Integers of [strconv] *)

Definition ParseUint (bits : Z) (text : string) : option Z :=
  if nonempty text && sforall is_digit text && (digits_value text <? 2 ^ bits) then Some (digits_value text) else None.

Definition ParseInt (bits : Z) (text : string) : option Z :=
  value ← atoi text;
  if (- 2 ^ (bits - 1) <=? value) && (value <? 2 ^ (bits - 1)) then Some value else None.

(** ** Cursor values *)

Definition not_canonical : goerr := ErrorString "must be a canonical portable integer".
Definition outside_range : goerr := ErrorString "is outside the portable integer range".

Definition validatePortableInteger (value : string) : error :=
  if? String.eqb value EmptyString || starts_with (Ascii.eqb "+") value || String.eqb value "-0" || (20 <? slen value)
  return not_canonical then
  match value with
  | String "-" magnitude =>
      if? (slen value <? 2) || starts_with (Ascii.eqb "0") magnitude return not_canonical then
      match ParseInt 64 value with Some _ => nil_error | None => Err outside_range end
  | _ =>
      if? (1 <? slen value) && starts_with (Ascii.eqb "0") value return not_canonical then
      if? negb (sforall is_digit value) return not_canonical then
      match ParseUint 64 value with Some _ => nil_error | None => Err outside_range end
  end.

Definition validateKeysetCursorValue (path : string) (cursor : KeysetCursorValue) : error :=
  let kind := cv_type cursor in
  let value := cv_value cursor in
  if String.eqb kind "integer" then
    match validatePortableInteger value with
    | Ok _ => nil_error
    | Err e => Err (validationError (path +:+ ".value") (error_text e))
    end
  else if String.eqb kind "string" then
    if? negb (valid_utf8 value) || (ProtocolMaxCursorStringRunes <? rune_count value)
    return validationError (path +:+ ".value") "exceeds the string cursor limit" then nil_error
  else if String.eqb kind "bytes" then
    match base64_decode value with
    | None => Err (validationError (path +:+ ".value") "must be canonical bounded standard base64")
    | Some decoded =>
        if? negb (String.eqb (base64_encode decoded) value) || (ProtocolMaxCursorBytes <? slen decoded)
        return validationError (path +:+ ".value") "must be canonical bounded standard base64" then nil_error
    end
  else if String.eqb kind "date" then
    match ParsePortableDate value with
    | Some _ => nil_error
    | None => Err (validationError (path +:+ ".value") "must be a canonical finite portable date")
    end
  else if String.eqb kind "datetime" then
    match ParsePortableDateTime value with
    | Some _ => nil_error
    | None => Err (validationError (path +:+ ".value") "must be a canonical finite portable wall-clock datetime")
    end
  else if String.eqb kind "timestamp" then
    match ParsePortableTimestamp value with
    | Some _ => nil_error
    | None => Err (validationError (path +:+ ".value") "must be a canonical finite portable UTC timestamp")
    end
  else Err (validationError (path +:+ ".type") "contains an unsupported cursor type").

Definition keysetCursorParameterCount (width : Z) : Z := width * (width + 1) / 2.

(** ** Exact duplicates in a filter *)

(** [strings.Cut]: the part after the separator is [None] when there is none. *)
Fixpoint cut_at_byte (sep : ascii) (s : string) : string * option string :=
  match s with
  | EmptyString => (EmptyString, None)
  | String c s' =>
      if Ascii.eqb c sep then (EmptyString, Some s')
      else let '(a, b) := cut_at_byte sep s' in (String c a, b)
  end.

(** The loop that moves trailing zeros of the digits into the power: the reversed
    digits and the power. *)
Fixpoint strip_zeros (reversed : string) (power : Z) : string * Z :=
  match reversed with
  | String "0" (String _ _ as rest) => strip_zeros rest (power + 1)
  | _ => (reversed, power)
  end.

Definition canonicalJSONNumber (text0 : string) : option string :=
  let negative := starts_with (Ascii.eqb "-") text0 in
  let text := if negative then sdrop 1 text0 else text0 in
  let '(mantissa, exponentText) :=
    match cut_at_byte "e" text with
    | (mantissa, None) => cut_at_byte "E" mantissa
    | found => found
    end in
  exponent ← match exponentText with None => Some 0 | Some e => atoi e end;
  let '(integer, fraction) := cut_at_byte "." mantissa in
  let digits := trim_left_by (Ascii.eqb "0") (integer +:+ default EmptyString fraction) in
  if String.eqb digits EmptyString then Some "0"
  else
    let '(reversed, power) := strip_zeros (srev digits) (exponent - slen (default EmptyString fraction)) in
    Some ((if negative then "-" else EmptyString) +:+ srev reversed +:+ "e" +:+ itoa power).

Definition canonicalJSONScalar (raw : option string) : string :=
  let raw := default EmptyString raw in
  let text := trim_space raw in
  let invalid := "invalid:" +:+ text in
  match text with
  | EmptyString => "invalid:"
  | String c _ =>
      if byte c =? 34 then
        match unmarshal_string raw with Some value => "string:" +:+ marshal_string value | None => invalid end
      else if Ascii.eqb c "t" || Ascii.eqb c "f" then
        match unmarshal_bool raw with Some b => "boolean:" +:+ (if b then "true" else "false") | None => invalid end
      else if Ascii.eqb c "n" then if String.eqb text "null" then "null" else invalid
      else match canonicalJSONNumber text with Some number => "number:" +:+ number | None => invalid end
  end.

Definition exact_domain : string := "quordon/aggregate-filter-exact/v1".

Section Digests.
Context (sha256 : string -> string).

Definition exact_predicate_digest (filter : Filter) : string :=
  sha256 (digest_string exact_domain +:+ digest_string (f_kind filter) +:+ digest_string (f_field filter) +:+
          digest_string (f_operator filter) +:+ be64 (len (values_of filter)) +:+
          sconcat (map (fun item => digest_string (tv_type item) +:+ digest_string (canonicalJSONScalar (tv_value item)))
                     (values_of filter))).

(** One member of a group: [seen] are the digests of the members before it, the
    latest first. *)
Definition exact_step (digest : Filter -> result string) (child : Filter) (seen : list string) : result (list string) :=
  let? childDigest := digest child in
  if? contains seen childDigest return ErrorString "query.filter contains duplicate expressions" then
  Ok (childDigest :: seen).

Fixpoint exactAggregateFilterDigest (filter : Filter) : result string :=
  if String.eqb (f_kind filter) "predicate" then Ok (exact_predicate_digest filter)
  else
    let? seen := iter (fun _ child seen => exact_step exactAggregateFilterDigest child seen) (f_expressions filter) [] in
    Ok (aggregateGroupDigest sha256 exact_domain (f_kind filter) (f_operator filter) (rev seen)).

Definition rejectExactFilterDuplicates (filter : Filter) : error :=
  let? _ := exactAggregateFilterDigest filter in nil_error.

(** ** Validate *)

(** The limits that [ValidateKeyset] and [RevalidateKeyset] take, in their order. *)
Record keyset_limits := {
  kl_projection : Z; kl_order_by : Z; kl_predicates : Z; kl_depth : Z; kl_parameters : Z; kl_rows : Z;
}.

Definition nul : string := String (ascii_of_nat 0) EmptyString.
Definition selection_term (selection : Selection) : string := s_field selection +:+ nul +:+ s_alias selection.
Definition selection_output (selection : Selection) : string :=
  if nonempty (s_alias selection) then s_alias selection else s_field selection.

(** One turn of the loop over the projection; the sets [seenProjection] and
    [seenOutputs]. *)
Definition keyset_projection_step (index : Z) (selection : Selection) (seen : list string * list string)
  : result (list string * list string) :=
  let path := indexed "query.projection" index in
  check? validateRepresentation path (s_representation selection) then
  if? negb (String.eqb (s_kind selection) "field") || nonempty (s_function selection)
  return validationError path "must be a field selection" then
  check? validateIdentifier (path +:+ ".field") (s_field selection) then
  check? (if nonempty (s_alias selection) then validateIdentifier (path +:+ ".alias") (s_alias selection) else nil_error) then
  let '(seenProjection, seenOutputs) := seen in
  let term := selection_term selection in
  if? contains seenProjection term return validationError "query.projection" "contains duplicate terms" then
  let output := to_lower (selection_output selection) in
  if? contains seenOutputs output return validationError "query.projection" "contains colliding output names" then
  Ok (term :: seenProjection, output :: seenOutputs).

Definition keyset_order_step (index : Z) (order : Sort) (seenOrder : list string) : result (list string) :=
  check? validateSort index order then
  if? contains seenOrder (o_field order) return validationError "query.order_by" "contains repeated fields" then
  Ok (o_field order :: seenOrder).

(** One turn of the loop over the cursor of an [after] page. *)
Definition keyset_cursor_step (orderBy : list Sort) (index : Z) (cursor : KeysetCursorValue) : error :=
  if? String.eqb (from_option o_representation EmptyString (orderBy !! Z.to_nat index)) RepresentationSourceText &&
      negb (String.eqb (cv_type cursor) "string")
  return validationError "page.cursor" "source_text requires a string cursor" then
  validateKeysetCursorValue (indexed "page.cursor" index) cursor.

(** The [switch] over the kind of page: the number of cursor parameters. *)
Definition validate_page (page : KeysetPage) (orderBy : list Sort) : result Z :=
  if String.eqb (pg_kind page) "first" then
    match pg_cursor page with
    | Some _ => Err (validationError "page.cursor" "is forbidden for the first page")
    | None => Ok 0
    end
  else if String.eqb (pg_kind page) "after" then
    let cursor := cursor_of page in
    if? (len cursor =? 0) || (ProtocolMaxKeysetFields <? len cursor)
    return validationError "page.cursor" "is outside the protocol bounds" then
    if? negb (len cursor =? len orderBy) return validationError "page.cursor" "must match query.order_by arity" then
    check? each (keyset_cursor_step orderBy) cursor then
    Ok (keysetCursorParameterCount (len cursor))
  else Err (validationError "page.kind" "must be first or after").

Definition cloneNormalizedKeysetRequest (request : NormalizedKeysetRequest) : NormalizedKeysetRequest := {|
  nk_profile := nk_profile request; nk_datasource := nk_datasource request; nk_shape := nk_shape request;
  nk_query := {| k_source := k_source (nk_query request); k_projection := k_projection (nk_query request);
                 k_filter := cloneFilter (k_filter (nk_query request)); k_order_by := k_order_by (nk_query request);
                 k_limit := k_limit (nk_query request) |};
  nk_page := nk_page request |}.

Definition ValidateKeyset (request : KeysetRequest) (l : keyset_limits) : result ValidatedKeyset :=
  let query := kr_query request in
  if? negb (String.eqb (kr_kind request) "keyset") return validationError "kind" "must be keyset" then
  if? String.eqb (kr_profile request) EmptyString || negb (valid_utf8 (kr_profile request))
  return validationError "profile" "must be a nonempty UTF-8 string" then
  if? String.eqb (kr_datasource request) EmptyString || negb (valid_utf8 (kr_datasource request))
  return validationError "datasource" "must be a nonempty UTF-8 string" then
  check? validateIdentifier "shape" (kr_shape request) then
  check? validateIdentifier "query.source.schema" (r_schema (k_source query)) then
  check? validateIdentifier "query.source.name" (r_name (k_source query)) then
  if? (len (k_projection query) =? 0) || (ProtocolMaxProjectionFields <? len (k_projection query)) ||
      (kl_projection l <? len (k_projection query))
  return validationError "query.projection" "is outside the effective bounds" then
  let? _ := iter keyset_projection_step (k_projection query) ([], []) in
  if? (len (k_order_by query) =? 0) || (ProtocolMaxKeysetFields <? len (k_order_by query)) ||
      (ProtocolMaxOrderByFields <? len (k_order_by query)) || (kl_order_by l <? len (k_order_by query))
  return validationError "query.order_by" "is outside the effective bounds" then
  let? _ := iter keyset_order_step (k_order_by query) [] in
  if? (k_limit query <? 1) || (ProtocolMaxRows <? k_limit query) || (kl_rows l <? k_limit query)
  return validationError "query.limit" "is outside the effective bounds" then
  let? stats :=
    match k_filter query with
    | None => Ok {| Predicates := 0; ExpressionDepth := 0; Parameters := 0 |}
    | Some filter =>
        let? stats :=
          validateFilter "query.filter" filter 1 {| Predicates := 0; ExpressionDepth := 0; Parameters := 0 |}
            {| maxPredicates := kl_predicates l; maxDepth := kl_depth l; maxParameters := kl_parameters l |} in
        check? rejectExactFilterDuplicates filter then Ok stats
    end in
  let? cursorParameters := validate_page (kr_page request) (k_order_by query) in
  if? (kl_parameters l - 1 <? Parameters stats) || (kl_parameters l - 1 - Parameters stats <? cursorParameters)
  return validationError "query" "exceeds the effective parameter limit" then
  let stats := {| Predicates := Predicates stats; ExpressionDepth := ExpressionDepth stats;
                  Parameters := Parameters stats + (cursorParameters + 1) |} in
  let normalized := {|
    nk_profile := kr_profile request; nk_datasource := kr_datasource request; nk_shape := kr_shape request;
    nk_query := {| k_source := k_source query; k_projection := k_projection query; k_filter := cloneFilter (k_filter query);
                   k_order_by := k_order_by query; k_limit := k_limit query |};
    nk_page := kr_page request |} in
  Ok {| vk_request := normalized; vk_stats := stats; vk_valid := true |}.
End Digests.

Definition RevalidateKeyset (request : ValidatedKeyset) (l : keyset_limits) : result ValidatedKeyset :=
  if? negb (vk_valid request) return validationError "query" "has not been validated" then
  let normalized := cloneNormalizedKeysetRequest (vk_request request) in
  let query := nk_query normalized in
  let stats := vk_stats request in
  if? (kl_projection l <? len (k_projection query)) || (kl_order_by l <? len (k_order_by query)) ||
      (kl_predicates l <? Predicates stats) || (kl_depth l <? ExpressionDepth stats) ||
      (kl_parameters l <? Parameters stats) || (kl_rows l <? k_limit query)
  return validationError "query" "exceeds the effective limits" then
  Ok {| vk_request := normalized; vk_stats := stats; vk_valid := true |}.

(** ** Identifier normalization *)

Section Normalization.
Context (sha256 : string -> string).

Definition canonical_selection (m : IdentifierSemantics) (selection : Selection) : Selection := {|
  s_representation := s_representation selection; s_kind := s_kind selection;
  s_field := canonicalIdentifier (s_field selection) (CaseInsensitiveFields m); s_function := s_function selection;
  s_alias := canonicalIdentifier (s_alias selection) true |}.

Definition canonical_sort (m : IdentifierSemantics) (order : Sort) : Sort := {|
  o_representation := o_representation order; o_field := canonicalIdentifier (o_field order) (CaseInsensitiveFields m);
  o_direction := o_direction order |}.

Definition output_step (_ : Z) (selection : Selection) (outputs : list string) : result (list string) :=
  let output := selection_output selection in
  if? contains outputs output return validationError "query.projection" "contains normalized output collisions" then
  Ok (output :: outputs).

(** [fields[name]]: how often a canonical field is projected. *)
Definition times_projected (projection : list Selection) (field : string) : Z :=
  count_if (fun selection => String.eqb (s_field selection) field) projection.

Definition projected_otherwise (order : Sort) (selection : Selection) : bool :=
  String.eqb (s_field selection) (o_field order) && negb (String.eqb (s_representation selection) (o_representation order)).

(** One turn on an order term that is already canonical. *)
Definition key_step (projection : list Selection) (_ : Z) (order : Sort) (seenOrder : list string) : result (list string) :=
  if? contains seenOrder (o_field order) return validationError "query.order_by" "contains normalized field collisions" then
  if? existsb (projected_otherwise order) projection
  return validationError "query.order_by" "representation must match projected key" then
  if? negb (times_projected projection (o_field order) =? 1)
  return validationError "query.order_by" "fields must be projected exactly once" then
  Ok (o_field order :: seenOrder).

Definition NormalizeKeysetIdentifiers (request : ValidatedKeyset) (m : IdentifierSemantics) : result ValidatedKeyset :=
  if? negb (vk_valid request) return validationError "query" "has not been validated" then
  let normalized := cloneNormalizedKeysetRequest (vk_request request) in
  let query := nk_query normalized in
  let source := {| r_schema := canonicalIdentifier (r_schema (k_source query)) (CaseInsensitiveSchemas m);
                   r_name := canonicalIdentifier (r_name (k_source query)) (CaseInsensitiveObjects m) |} in
  let projection := map (canonical_selection m) (k_projection query) in
  let? _ := iter output_step projection [] in
  let? filter :=
    match k_filter query with
    | None => Ok None
    | Some filter => let? filter := normalizeAggregateFilter sha256 filter (CaseInsensitiveFields m) in Ok (Some filter)
    end in
  let orderBy := map (canonical_sort m) (k_order_by query) in
  let? _ := iter (key_step projection) orderBy [] in
  Ok {| vk_request := {|
          nk_profile := nk_profile normalized; nk_datasource := nk_datasource normalized; nk_shape := nk_shape normalized;
          nk_query := {| k_source := source; k_projection := projection; k_filter := filter; k_order_by := orderBy;
                         k_limit := k_limit query |};
          nk_page := nk_page normalized |};
        vk_stats := vk_stats request; vk_valid := true |}.

(** ** Referenced fields *)

Fixpoint collectFilterFields (filter : Filter) : list string :=
  if String.eqb (f_kind filter) "predicate" then [f_field filter]
  else flat_map collectFilterFields (f_expressions filter).

Definition KeysetReferencedFields (request : NormalizedKeysetRequest) : list string :=
  let query := nk_query request in
  compact (sort_func bytes_le
    (map s_field (k_projection query) ++ from_option collectFilterFields [] (k_filter query) ++
     map o_field (k_order_by query))%list).

Definition KeysetUsesSourceText (request : NormalizedKeysetRequest) : bool :=
  UsesSourceText {|
    n_source := {| r_schema := EmptyString; r_name := EmptyString |}; n_projection := k_projection (nk_query request);
    n_filter := k_filter (nk_query request); n_group_by := []; n_order_by := k_order_by (nk_query request);
    n_limit := 0; n_offset := 0 |}.

(** ** The hash of the shape *)

Fixpoint filterWithoutValues (filter : Filter) : Filter :=
  if String.eqb (f_kind filter) "predicate" then
    {| f_representation := f_representation filter; f_kind := f_kind filter; f_field := f_field filter;
       f_operator := f_operator filter;
       f_values := Some (map (fun v => {| tv_type := tv_type v; tv_value := Some "null" |}) (values_of filter));
       f_expressions := f_expressions filter |}
  else
    {| f_representation := f_representation filter; f_kind := f_kind filter; f_field := f_field filter;
       f_operator := f_operator filter; f_values := f_values filter;
       f_expressions := map filterWithoutValues (f_expressions filter) |}.
End Normalization.

(** ** What an accepted request satisfies *)

Definition keyset_selection_ok (s : Selection) : Prop :=
  representation_ok (s_representation s) /\ s_kind s = "field" /\ s_function s = EmptyString /\
  is_identifier (s_field s) = true /\ (s_alias s = EmptyString \/ is_identifier (s_alias s) = true).

(** The digest of a filter, whatever its duplicates, and the groups whose members
    have different digests. *)
Fixpoint exact_digest (sha256 : string -> string) (f : Filter) : string :=
  if String.eqb (f_kind f) "predicate" then exact_predicate_digest sha256 f
  else aggregateGroupDigest sha256 exact_domain (f_kind f) (f_operator f) (map (exact_digest sha256) (f_expressions f)).

Inductive exactly_distinct (sha256 : string -> string) : Filter -> Prop :=
| distinct_predicate f : f_kind f = "predicate" -> exactly_distinct sha256 f
| distinct_group f : f_kind f <> "predicate" -> Forall (exactly_distinct sha256) (f_expressions f) ->
    NoDup (map (exact_digest sha256) (f_expressions f)) -> exactly_distinct sha256 f.

(** The texts of an integer cursor: a signed 64-bit integer when negative, an
    unsigned one otherwise, in decimal without sign, zeros or blanks to spare. *)
Definition portable_integer (text : string) : Prop :=
  exists z, text = itoa z /\ - 2 ^ 63 <= z < 2 ^ 64.

Inductive cursor_value_ok : KeysetCursorValue -> Prop :=
| cursor_integer text : portable_integer text -> cursor_value_ok {| cv_type := "integer"; cv_value := text |}
| cursor_string text : valid_utf8 text = true -> rune_count text <= ProtocolMaxCursorStringRunes ->
    cursor_value_ok {| cv_type := "string"; cv_value := text |}
| cursor_bytes bytes : slen bytes <= ProtocolMaxCursorBytes ->
    cursor_value_ok {| cv_type := "bytes"; cv_value := base64_encode bytes |}
| cursor_date text t : ParsePortableDate text = Some t -> cursor_value_ok {| cv_type := "date"; cv_value := text |}
| cursor_datetime text t : ParsePortableDateTime text = Some t -> cursor_value_ok {| cv_type := "datetime"; cv_value := text |}
| cursor_timestamp text t : ParsePortableTimestamp text = Some t ->
    cursor_value_ok {| cv_type := "timestamp"; cv_value := text |}.

Definition cursor_item_ok (order : Sort) (cursor : KeysetCursorValue) : Prop :=
  (o_representation order = RepresentationSourceText -> cv_type cursor = "string") /\ cursor_value_ok cursor.

Inductive page_ok (orderBy : list Sort) : KeysetPage -> Prop :=
| first_page : page_ok orderBy {| pg_kind := "first"; pg_cursor := None |}
| after_page cursor : Forall2 cursor_item_ok orderBy cursor ->
    page_ok orderBy {| pg_kind := "after"; pg_cursor := Some cursor |}.

(** The triangle of placeholders of the cursor predicate. *)
Definition page_parameters (page : KeysetPage) : Z := sum_of Z.of_nat (seq 1 (List.length (cursor_of page))).

Record keyset_ok (sha256 : string -> string) (r : KeysetRequest) (l : keyset_limits) : Prop := {
  kok_kind : kr_kind r = "keyset";
  kok_profile : kr_profile r <> EmptyString /\ valid_utf8 (kr_profile r) = true;
  kok_datasource : kr_datasource r <> EmptyString /\ valid_utf8 (kr_datasource r) = true;
  kok_shape : is_identifier (kr_shape r) = true;
  kok_schema : is_identifier (r_schema (k_source (kr_query r))) = true;
  kok_name : is_identifier (r_name (k_source (kr_query r))) = true;
  kok_projection : 1 <= len (k_projection (kr_query r)) <= Z.min ProtocolMaxProjectionFields (kl_projection l);
  kok_selections : Forall keyset_selection_ok (k_projection (kr_query r));
  kok_outputs : NoDup (map (fun s => to_lower (selection_output s)) (k_projection (kr_query r)));
  kok_order_by : 1 <= len (k_order_by (kr_query r)) <= Z.min ProtocolMaxKeysetFields (kl_order_by l);
  kok_sorts : Forall sort_ok (k_order_by (kr_query r));
  kok_keys : NoDup (map o_field (k_order_by (kr_query r)));
  kok_limit : 1 <= k_limit (kr_query r) <= Z.min ProtocolMaxRows (kl_rows l);
  kok_filter : from_option (fun f => filter_ok f /\ exactly_distinct sha256 f) True (k_filter (kr_query r));
  kok_filter_size : k_filter (kr_query r) <> None ->
    filter_depth (k_filter (kr_query r)) <= kl_depth l /\ filter_predicates (k_filter (kr_query r)) <= kl_predicates l;
  kok_page : page_ok (k_order_by (kr_query r)) (kr_page r);
  kok_parameters : filter_parameters (k_filter (kr_query r)) + page_parameters (kr_page r) + 1 <= kl_parameters l;
}.

(** The stored form of an accepted request. *)
Definition keyset_stored (r : KeysetRequest) : ValidatedKeyset := {|
  vk_request := {| nk_profile := kr_profile r; nk_datasource := kr_datasource r; nk_shape := kr_shape r;
                   nk_query := kr_query r; nk_page := kr_page r |};
  vk_stats := {| Predicates := filter_predicates (k_filter (kr_query r));
                 ExpressionDepth := filter_depth (k_filter (kr_query r));
                 Parameters := filter_parameters (k_filter (kr_query r)) + page_parameters (kr_page r) + 1 |};
  vk_valid := true |}.

Definition example_keyset : KeysetRequest := {|
  kr_kind := "keyset"; kr_profile := "support"; kr_datasource := "main"; kr_shape := "orders_by_id";
  kr_query := {| k_source := {| r_schema := "shop"; r_name := "orders" |};
                 k_projection := [example_field "id"; example_field "state"; example_field "at"];
                 k_filter := Some (example_predicate "id" "gt" "integer" "10");
                 k_order_by := [{| o_representation := EmptyString; o_field := "at"; o_direction := "desc" |};
                                {| o_representation := EmptyString; o_field := "id"; o_direction := "asc" |}];
                 k_limit := 20 |};
  kr_page := {| pg_kind := "after";
                pg_cursor := Some [{| cv_type := "datetime"; cv_value := "2024-01-31 10:00:00" |};
                                   {| cv_type := "integer"; cv_value := "-5" |}] |} |}.

Definition example_keyset_limits : keyset_limits := {|
  kl_projection := 10; kl_order_by := 5; kl_predicates := 5; kl_depth := 3; kl_parameters := 10; kl_rows := 100 |}.

Example keyset_validates : ValidateKeyset srev example_keyset example_keyset_limits = Ok (keyset_stored example_keyset).
Proof. vm_compute. reflexivity. Qed.

Example keyset_numbers :
  map canonicalJSONNumber ["1200"; "-0.50"; "1.2e3"; "000"; "1e"] =
  [Some "12e2"; Some "-5e-1"; Some "12e2"; Some "0"; None].
Proof. vm_compute. reflexivity. Qed.

(** ** Cursor values, one by one *)

Lemma ParseUint_digits bits text n : ParseUint bits text = Some n <->
  text <> EmptyString /\ all_digits text = true /\ n = digits_value text /\ n < 2 ^ bits.
Proof.
  unfold ParseUint. rewrite <- nonempty_true.
  destruct (nonempty text), (sforall is_digit text); cbn [andb]; try (split; [discriminate|intuition discriminate]).
  destruct (Z.ltb_spec (digits_value text) (2 ^ bits)).
  - split; [intros [= <-]; split_and!; done|by intros (_ & _ & -> & _)].
  - split; [discriminate|intros (_ & _ & -> & ?); lia].
Qed.

Lemma ParseInt_itoa bits z : - 2 ^ (bits - 1) <= z < 2 ^ (bits - 1) -> ParseInt bits (itoa z) = Some z.
Proof.
  intros Hz. unfold ParseInt.
  assert (Ha : forall n, 0 <= n -> nonempty (itoa n) && sforall is_digit (itoa n) = true).
  { intros n Hn. destruct (itoa_canonical n Hn) as [(Hne & Hd & _) _]. by rewrite Hd, (proj2 (nonempty_true _) Hne). }
  assert (E : atoi (itoa z) = Some z).
  { unfold atoi. destruct (Z.ltb_spec z 0).
    - replace z with (- - z) by lia. rewrite itoa_opp by lia. cbv beta iota. rewrite (Ha (- z)) by lia.
      cbn. by rewrite (proj2 (itoa_canonical (- z) ltac:(lia))).
    - specialize (Ha z ltac:(lia)). destruct (itoa_canonical z ltac:(lia)) as [(Hne & Hd & _) Hv].
      destruct (itoa z) as [|c r] eqn:Ei; [done|].
      assert (Hc : is_digit c = true) by (cbn [sforall] in Hd; by apply andb_true_iff in Hd as [? _]).
      rewrite Ha, Hv. by destruct c as [[] [] [] [] [] [] [] []]. }
  rewrite E. cbn. by rewrite (proj2 (Z.leb_le _ _)), (proj2 (Z.ltb_lt _ _)) by lia.
Qed.

Lemma canonical_head text : canonical_digits text -> text <> "0" -> starts_with (Ascii.eqb "0") text = false.
Proof. intros (_ & _ & H) Hn. destruct (starts_with (Ascii.eqb "0") text); [|done]. by specialize (H eq_refl). Qed.

Lemma canonical_short text bound digits : canonical_digits text -> digits_value text <= bound -> bound < 10 ^ digits -> 1 <= digits ->
  slen text <= digits.
Proof.
  intros Hc Hv Hb Hd. destruct (Z.ltb_spec 0 (digits_value text)) as [Hp|Hp].
  - pose proof (canonical_length text Hc Hp). destruct (Z.le_gt_cases (slen text) digits); [done|].
    assert (10 ^ digits <= 10 ^ (slen text - 1)) by (apply Z.pow_le_mono_r; lia). lia.
  - rewrite <- (itoa_digits text Hc). destruct Hc as (_ & Hd' & _). pose proof (digits_value_bounds text Hd').
    replace (digits_value text) with 0 by lia. done.
Qed.

Lemma validatePortableInteger_sound value : validatePortableInteger value = Ok tt -> portable_integer value.
Proof.
  unfold validatePortableInteger. rewrite if_err_ok, !orb_false_iff, String.eqb_neq.
  intros [[[[Hne Hplus] Hmz] Hlen] H]. destruct value as [|c r]; [done|].
  destruct (ascii_dec c "-") as [->|Hc].
  - apply if_err_ok in H as [[Hl Hz]%orb_false_iff H]. unfold ParseInt, atoi in H.
    destruct (nonempty r && sforall is_digit r) eqn:Er; [|done]. cbn in H.
    destruct (_ && _) eqn:Hr in H; [|done]. apply andb_true_iff in Er as [Hn Hd]. apply nonempty_true in Hn.
    assert (Hcan : canonical_digits r) by (split_and!; [done..|congruence]).
    pose proof (digits_value_bounds r Hd). bool_prop. change (2 ^ (64 - 1)) with (2 ^ 63) in *.
    exists (- digits_value r). destruct (Z.eq_dec (digits_value r) 0) as [E|E].
    + pose proof (itoa_digits r Hcan) as Hi. rewrite E in Hi. change (itoa 0) with "0" in Hi. by rewrite <- Hi in Hz.
    + rewrite itoa_opp, itoa_digits by (done || lia). split; [done|lia].
  - assert (H' : exists e e', (if? (1 <? slen (String c r)) && starts_with (Ascii.eqb "0") (String c r) return e then
      if? negb (sforall is_digit (String c r)) return e' then
      match ParseUint 64 (String c r) with Some _ => nil_error | None => Err outside_range end) = Ok tt).
    { exists not_canonical, not_canonical. destruct c as [[] [] [] [] [] [] [] []]; first [exact H|done]. }
    clear H. destruct H' as (e & e' & H). rewrite !if_err_ok, negb_false_iff in H. destruct H as (Hz & Hd & H).
    destruct (ParseUint 64 (String c r)) as [n|] eqn:E; [|done]. apply ParseUint_digits in E as (_ & _ & -> & Hv).
    exists (digits_value (String c r)). pose proof (digits_value_bounds _ Hd). split; [|lia]. symmetry. apply itoa_digits.
    split_and!; [done..|]. intros Hs. rewrite Hs, andb_true_r in Hz. apply Z.ltb_ge in Hz. rewrite slen_cons in Hz.
    destruct r; [|rewrite slen_cons in Hz; pose proof (slen_nonneg r); lia]. cbn [starts_with] in Hs. by apply Ascii.eqb_eq in Hs as <-.
Qed.

Lemma validatePortableInteger_complete value : portable_integer value -> validatePortableInteger value = Ok tt.
Proof.
  intros (z & -> & Hz). unfold validatePortableInteger. destruct (Z.ltb_spec z 0) as [Hn|Hp].
  - replace z with (- - z) by lia. rewrite itoa_opp by lia.
    destruct (itoa_canonical (- z) ltac:(lia)) as [Hc Hv].
    assert (H0 : itoa (- z) <> "0") by (intros E; rewrite E in Hv; change (digits_value "0") with 0 in Hv; lia).
    pose proof (canonical_short (itoa (- z)) (2 ^ 63) 19 Hc ltac:(rewrite Hv; lia) ltac:(done) ltac:(done)).
    pose proof (proj1 Hc) as Hne. pose proof (canonical_head _ Hc H0) as Hh. cbn [String.eqb starts_with Ascii.eqb Bool.eqb orb].
    rewrite (proj2 (Z.ltb_ge _ _)) by (rewrite slen_cons; lia). rewrite orb_false_r. destruct (String.eqb_spec (itoa (- z)) "0"); [done|].
    rewrite Hh, orb_false_r, (proj2 (Z.ltb_ge _ _)).
    + pose proof (ParseInt_itoa 64 z) as HP. replace z with (- - z) in HP by lia. rewrite itoa_opp in HP by lia. rewrite HP by lia. done.
    + rewrite slen_cons. destruct (itoa (- z)); [done|]. rewrite slen_cons. pose proof (slen_nonneg s). lia.
  - destruct (itoa_canonical z Hp) as [Hc Hv].
    pose proof (canonical_short (itoa z) (2 ^ 64) 20 Hc ltac:(rewrite Hv; lia) ltac:(done) ltac:(done)).
    assert (Hu : ParseUint 64 (itoa z) = Some z) by (apply ParseUint_digits; split_and!; [apply Hc|apply Hc|done|lia]).
    destruct Hc as (Hne & Hd & Hz0). destruct (itoa z) as [|c r] eqn:E; [done|].
    assert (Hg : (1 <? slen (String c r)) && starts_with (Ascii.eqb "0") (String c r) = false).
    { destruct (starts_with _ _) eqn:Hs; [|by rewrite andb_false_r]. specialize (Hz0 eq_refl). injection Hz0 as -> ->. done. }
    assert (Hc : is_digit c = true) by (cbn [sforall] in Hd; by apply andb_true_iff in Hd as [? _]).
    rewrite Hg, Hd, Hu, (proj2 (Z.ltb_ge _ _)), orb_false_r by done. cbn [negb].
    destruct c as [[] [] [] [] [] [] [] []]; done.
Qed.

Lemma classified_ok {A} (r : result A) (e : goerr -> goerr) :
  (match r with Ok _ => nil_error | Err x => Err (e x) end) = Ok tt <-> exists a, r = Ok a.
Proof. destruct r; naive_solver. Qed.

Lemma found_ok {A} (o : option A) e : (match o with Some _ => nil_error | None => Err e end) = Ok tt <-> exists a, o = Some a.
Proof. destruct o; naive_solver. Qed.

Lemma validateKeysetCursorValue_iff path cursor : validateKeysetCursorValue path cursor = Ok tt <-> cursor_value_ok cursor.
Proof.
  destruct cursor as [kind value]. unfold validateKeysetCursorValue. cbn [cv_type cv_value].
  destruct (String.eqb_spec kind "integer") as [->|N1].
  { rewrite classified_ok. split.
    - intros [[] H]. by constructor; apply validatePortableInteger_sound.
    - inversion 1; subst. exists tt. by apply validatePortableInteger_complete. }
  destruct (String.eqb_spec kind "string") as [->|N2].
  { rewrite guard_ok, orb_false_iff, negb_false_iff, Z.ltb_ge. split; [intros []; by constructor|by inversion 1]. }
  destruct (String.eqb_spec kind "bytes") as [->|N3].
  { destruct (base64_decode value) as [d|] eqn:E.
    - rewrite guard_ok, orb_false_iff, negb_false_iff, String.eqb_eq, Z.ltb_ge. split; [intros [<- ?]; by constructor|].
      inversion 1; subst. rewrite base64_decode_encode in E. by injection E as <-.
    - split; [done|]. inversion 1; subst. by rewrite base64_decode_encode in E. }
  destruct (String.eqb_spec kind "date") as [->|N4].
  { rewrite found_ok. split; [intros [t ?]; by apply (cursor_date _ t)|inversion 1; eauto]. }
  destruct (String.eqb_spec kind "datetime") as [->|N5].
  { rewrite found_ok. split; [intros [t ?]; by apply (cursor_datetime _ t)|inversion 1; eauto]. }
  destruct (String.eqb_spec kind "timestamp") as [->|N6].
  { rewrite found_ok. split; [intros [t ?]; by apply (cursor_timestamp _ t)|inversion 1; eauto]. }
  split; [done|]. by inversion 1.
Qed.

(** [width * (width + 1) / 2] counts the triangle. *)
Lemma keysetCursorParameterCount_sum n : keysetCursorParameterCount (Z.of_nat n) = sum_of Z.of_nat (seq 1 n).
Proof.
  assert (Hs : forall m k, 2 * sum_of Z.of_nat (seq k m) = Z.of_nat m * (2 * Z.of_nat k + Z.of_nat m - 1)).
  { induction m as [|m IH]; intros k; [done|]. cbn [seq]. change (sum_of Z.of_nat (k :: seq (S k) m)) with
      (Z.of_nat k + sum_of Z.of_nat (seq (S k) m)). specialize (IH (S k)). lia. }
  unfold keysetCursorParameterCount. specialize (Hs n 1%nat).
  replace (Z.of_nat n * (Z.of_nat n + 1)) with (sum_of Z.of_nat (seq 1 n) * 2) by lia. by apply Z.div_mul.
Qed.

(** The loop over the cursor reads the order terms by index. *)
Lemma cursor_loop_iff (orderBy : list Sort) cursor : len cursor = len orderBy ->
  each (keyset_cursor_step orderBy) cursor = Ok tt <-> Forall2 cursor_item_ok orderBy cursor.
Proof.
  intros Hl. unfold each, len in *. rewrite each_from_ok, Forall2_lookup. split.
  - intros H i. destruct (cursor !! i) as [c|] eqn:Ec.
    + destruct (lookup_lt_is_Some_2 orderBy i) as [o Ho]; [apply lookup_lt_Some in Ec; lia|]. rewrite Ho. constructor.
      specialize (H i c Ec). unfold keyset_cursor_step in H. replace (Z.to_nat (0 + Z.of_nat i)) with i in H by lia.
      rewrite Ho, if_err_ok, andb_false_iff, negb_false_iff, String.eqb_neq, String.eqb_eq in H. cbn [from_option] in H.
      destruct H as [Hs Hv]. split; [intuition|]. by apply validateKeysetCursorValue_iff in Hv.
    + rewrite (lookup_ge_None_2 orderBy); [constructor|]. apply lookup_ge_None in Ec. lia.
  - intros H i c Ec. specialize (H i). rewrite Ec in H. destruct (orderBy !! i) as [o|] eqn:Ho; [|by inversion H].
    assert (Hi : cursor_item_ok o c) by (by inversion H). destruct Hi as [Hs Hv]. unfold keyset_cursor_step.
    replace (Z.to_nat (0 + Z.of_nat i)) with i by lia. rewrite Ho. cbn [from_option].
    rewrite if_err_ok, andb_false_iff, negb_false_iff, String.eqb_neq, String.eqb_eq. split.
    + destruct (decide (o_representation o = RepresentationSourceText)); [right; auto|by left].
    + by apply validateKeysetCursorValue_iff.
Qed.

Lemma validate_page_iff page orderBy n : 1 <= len orderBy <= ProtocolMaxKeysetFields ->
  validate_page page orderBy = Ok n <-> page_ok orderBy page /\ n = page_parameters page.
Proof.
  intros Hb. unfold validate_page. destruct page as [kind cursor]. cbn [pg_kind pg_cursor].
  destruct (String.eqb_spec kind "first") as [->|N1].
  { destruct cursor; (split; [|]); [done| |intros [= <-]; split; [constructor|done]|by intros [_ ->]].
    by intros [H _]; inversion H. }
  destruct (String.eqb_spec kind "after") as [->|N2].
  2: { split; [done|]. intros [H _]. by inversion H. }
  unfold page_parameters, cursor_of. cbn [pg_cursor].
  rewrite !if_err_ok, orb_false_iff, negb_false_iff, Z.eqb_eq, Z.eqb_neq, Z.ltb_ge, check_ok'. split.
  - intros ([Hz Hm] & Hl & He & [= <-]). apply cursor_loop_iff in He; [|done]. split.
    + destruct cursor as [c|]; [by constructor|]. by apply Forall2_length in He.
    + unfold len. by rewrite keysetCursorParameterCount_sum.
  - intros [H ->]. inversion H as [|c HF E]; subst. cbn [from_option]. unfold id.
    assert (Hl : len c = len orderBy) by (unfold len; apply Forall2_length in HF; lia).
    split_and!; try lia; [by apply cursor_loop_iff|].
    unfold len. by rewrite keysetCursorParameterCount_sum.
Qed.

(** ** The loops over the projection and the order terms *)

Lemma identifier_no_nul x : is_identifier x = true -> no_byte (ascii_of_nat 0) x.
Proof.
  unfold is_identifier, no_byte. rewrite !andb_true_iff. intros [_ H]. destruct x as [|c r]; [done|]. cbn [identifierPattern] in H.
  apply andb_true_iff in H as [H1 H2].
  assert (Hb : all_bytes (fun c => implb (is_identifier_char c) (negb (Ascii.eqb c (ascii_of_nat 0)))) = true)
    by (vm_compute; reflexivity).
  assert (Hall : forall d, is_identifier_char d = true -> negb (Ascii.eqb d (ascii_of_nat 0)) = true)
    by (intros d Hd; pose proof (all_bytes_spec _ Hb d) as H'; cbv beta in H'; by rewrite Hd in H').
  cbn [sforall]. rewrite (Hall c) by (unfold is_identifier_char; by rewrite H1).
  by apply (sforall_impl is_identifier_char).
Qed.

Lemma selection_term_inj a b : keyset_selection_ok a -> keyset_selection_ok b ->
  selection_term a = selection_term b -> selection_output a = selection_output b.
Proof.
  intros (_ & _ & _ & Ha & _) (_ & _ & _ & Hb & _) H. unfold selection_term, nul in H. rewrite !sapp_cons, !sapp_nil_l in H.
  apply no_byte_app_inj in H as [H1 H2]; [|by apply identifier_no_nul..]. unfold selection_output. by rewrite H1, H2.
Qed.

Lemma keyset_projection_step_iff i s terms outputs seen' :
  keyset_projection_step i s (terms, outputs) = Ok seen' <->
  keyset_selection_ok s /\ (selection_term s ∉ terms) /\ (to_lower (selection_output s) ∉ outputs) /\
  seen' = (selection_term s :: terms, to_lower (selection_output s) :: outputs).
Proof.
  unfold keyset_projection_step, keyset_selection_ok.
  rewrite check_ok', validateRepresentation_ok, if_err_ok, !check_ok', validateIdentifier_ok, !if_err_ok, !contains_false_elem.
  rewrite orb_false_iff, negb_false_iff, String.eqb_eq, nonempty_false.
  assert (Ha : forall p, (if nonempty (s_alias s) then validateIdentifier p (s_alias s) else nil_error) = Ok tt <->
               s_alias s = EmptyString \/ is_identifier (s_alias s) = true).
  { intros p. destruct (nonempty (s_alias s)) eqn:E; [rewrite validateIdentifier_ok|apply nonempty_false in E; intuition].
    apply nonempty_true in E. intuition. }
  rewrite Ha. naive_solver.
Qed.

Lemma keyset_projection_loop_iff l : forall i (before : list Selection) seen',
  Forall keyset_selection_ok before -> NoDup (map (fun s => to_lower (selection_output s)) before) ->
  iter_from keyset_projection_step i l (map selection_term before, map (fun s => to_lower (selection_output s)) before) = Ok seen' <->
  Forall keyset_selection_ok l /\ NoDup (map (fun s => to_lower (selection_output s)) (rev l ++ before)) /\
  seen' = (map selection_term (rev l ++ before), map (fun s => to_lower (selection_output s)) (rev l ++ before)).
Proof.
  induction l as [|s l IH]; intros i before seen' Hb Hn.
  - cbn [iter_from rev app]. split; [intros [= <-]|intros (_ & _ & ->)]; by split_and?.
  - cbn [iter_from]. rewrite rbind_ok, Forall_cons. cbn [rev]. rewrite <- app_assoc. cbn [app]. split.
    + intros (x & Hx & Hr). apply keyset_projection_step_iff in Hx as (Hs & _ & Ho & ->).
      apply (IH (i + 1) (s :: before)) in Hr; [tauto|by constructor|by apply NoDup_cons].
    + intros ((Hs & Hl) & Hd & ->).
      assert (Hd' : NoDup (map (fun s => to_lower (selection_output s)) (s :: before)))
        by (rewrite map_app in Hd; by apply NoDup_app in Hd as (_ & _ & ?)).
      eexists. split; [|by apply (IH (i + 1) (s :: before)); [constructor|done|split_and!]].
      cbn [map] in Hd'. apply NoDup_cons in Hd' as [Ho _]. apply keyset_projection_step_iff. split_and!; try done.
      intros Ht. apply list_elem_of_fmap in Ht as (b & E & Hin). apply Ho. rewrite Forall_forall in Hb.
      rewrite (selection_term_inj s b) by auto. by apply (list_elem_of_fmap_2 (fun s => to_lower (selection_output s))).
Qed.

Lemma projection_loop_ok l : (exists seen, iter keyset_projection_step l ([], []) = Ok seen) <->
  Forall keyset_selection_ok l /\ NoDup (map (fun s => to_lower (selection_output s)) l).
Proof.
  unfold iter. setoid_rewrite (keyset_projection_loop_iff l 0 []); [|constructor..]. rewrite app_nil_r, map_rev.
  assert (Hr : forall k : list string, NoDup (rev k) <-> NoDup k) by (intros k; by rewrite <- Permutation_rev).
  setoid_rewrite Hr. split; [intros (? & ? & ? & _); done|intros []; eexists; by split_and!].
Qed.

Lemma order_loop_ok l : (exists seen, iter keyset_order_step l [] = Ok seen) <->
  Forall sort_ok l /\ NoDup (map o_field l).
Proof.
  setoid_rewrite (iter_seen_nil keyset_order_step sort_ok o_field).
  - split; [intros (? & ? & ? & _); done|intros []; eexists; by split_and!].
  - apply Forall_forall. intros o _ i before after. unfold keyset_order_step.
    rewrite check_ok', validateSort_ok, if_err_ok, contains_false_elem. naive_solver.
Qed.

Lemma exactAggregateFilterDigest_iff sha256 f : forall d,
  exactAggregateFilterDigest sha256 f = Ok d <-> exactly_distinct sha256 f /\ d = exact_digest sha256 f.
Proof.
  induction f as [r k fl o vs es IH] using Filter_ind'. intros d. cbn [exactAggregateFilterDigest exact_digest f_kind f_operator f_expressions].
  destruct (String.eqb_spec k "predicate") as [->|Hk].
  { split; [intros [= <-]; split; [by constructor|done]|by intros [_ ->]]. }
  assert (Hl : forall seen, iter (fun _ child seen => exact_step (exactAggregateFilterDigest sha256) child seen) es [] = Ok seen <->
    Forall (exactly_distinct sha256) es /\ NoDup (map (exact_digest sha256) es) /\ seen = rev (map (exact_digest sha256) es)).
  { intros seen. apply iter_seen_nil.
    eapply Forall_impl; [exact IH|]. intros f Hf i before after. unfold exact_step. rewrite rbind_ok.
    cbv beta in Hf. setoid_rewrite Hf. setoid_rewrite if_err_ok. setoid_rewrite contains_false_elem. naive_solver. }
  rewrite rbind_ok. setoid_rewrite Hl. split.
  - intros (seen & (Hd & Hn & ->) & [= <-]). rewrite rev_involutive. split; [by apply distinct_group|done].
  - intros [H ->]. inversion H; subst; [done|]. eexists. split; [split_and!; done|]. by rewrite rev_involutive.
Qed.

Lemma rejectExactFilterDuplicates_ok sha256 f : rejectExactFilterDuplicates sha256 f = Ok tt <-> exactly_distinct sha256 f.
Proof.
  unfold rejectExactFilterDuplicates. rewrite rbind_ok. setoid_rewrite exactAggregateFilterDigest_iff. naive_solver.
Qed.

(** The filter of a request with its counters. *)
Lemma keyset_filter_iff sha256 f l stats' :
  match f with
  | None => Ok {| Predicates := 0; ExpressionDepth := 0; Parameters := 0 |}
  | Some f =>
      let? stats := validateFilter "query.filter" f 1 {| Predicates := 0; ExpressionDepth := 0; Parameters := 0 |}
                      {| maxPredicates := kl_predicates l; maxDepth := kl_depth l; maxParameters := kl_parameters l |} in
      check? rejectExactFilterDuplicates sha256 f then Ok stats
  end = Ok stats' <->
  from_option (fun f => filter_ok f /\ exactly_distinct sha256 f) True f /\
  (f <> None -> filter_depth f <= kl_depth l /\ filter_predicates f <= kl_predicates l) /\
  (f <> None -> filter_parameters f <= kl_parameters l) /\
  stats' = {| Predicates := filter_predicates f; ExpressionDepth := filter_depth f; Parameters := filter_parameters f |}.
Proof.
  pose proof (aggregate_filter_iff f {| al_projection := 0; al_group_by := 0; al_order_by := 0; al_predicates := kl_predicates l;
    al_depth := kl_depth l; al_parameters := kl_parameters l; al_rows := 0 |} 0) as H.
  cbn [al_predicates al_depth al_parameters] in H. destruct f as [f|]; cbn [from_option] in *.
  - rewrite rbind_ok. setoid_rewrite check_ok'. setoid_rewrite rejectExactFilterDuplicates_ok. setoid_rewrite H.
    rewrite Z.add_0_l. naive_solver.
  - specialize (H stats'). rewrite H. rewrite Z.add_0_l. naive_solver.
Qed.

Lemma page_parameters_nonneg page : 0 <= page_parameters page.
Proof. apply sum_nonneg, Forall_forall. intros. lia. Qed.

Lemma ValidateKeyset_iff sha256 r l v :
  ValidateKeyset sha256 r l = Ok v <-> keyset_ok sha256 r l /\ v = keyset_stored r.
Proof.
  unfold ValidateKeyset. rewrite !if_err_ok, !check_ok', !validateIdentifier_ok, !if_err_ok.
  rewrite !orb_false_iff, !negb_false_iff, !String.eqb_neq, String.eqb_eq, !Z.eqb_neq, !Z.ltb_ge.
  pose proof (len_nonneg (k_projection (kr_query r))). pose proof (len_nonneg (k_order_by (kr_query r))).
  pose proof (filter_size_nonneg (k_filter (kr_query r))). pose proof (page_parameters_nonneg (kr_page r)).
  rewrite rbind_ok. setoid_rewrite if_err_ok. setoid_rewrite rbind_ok. setoid_rewrite if_err_ok. setoid_rewrite rbind_ok.
  setoid_rewrite keyset_filter_iff. setoid_rewrite rbind_ok. setoid_rewrite if_err_ok.
  setoid_rewrite orb_false_iff. setoid_rewrite Z.ltb_ge. split.
  - intros (Hk & Hp & Hd & Hsh & Hsc & Hna & Hpb & s1 & Hs1 & Hob & s2 & Hs2 & Hlim & stats & (Hf1 & Hf2 & Hf3 & ->) & n & Hn & Hpar & [= <-]).
    destruct (proj1 (projection_loop_ok _) (ex_intro _ s1 Hs1)) as [Hsel Hout].
    destruct (proj1 (order_loop_ok _) (ex_intro _ s2 Hs2)) as [Hso Hkeys].
    rewrite !orb_false_iff, ?Z.eqb_neq, !Z.ltb_ge in Hob, Hlim. unfold ProtocolMaxKeysetFields in *.
    apply validate_page_iff in Hn as [Hpage ->]; [|unfold ProtocolMaxKeysetFields; lia]. cbn [Parameters] in Hpar.
    split; [constructor; try done; try (unfold ProtocolMaxKeysetFields; lia)|].
    unfold keyset_stored. f_equal; [|f_equal; cbn; lia]. f_equal. destruct (kr_query r) as [so pr fi ob li]. cbn in *. f_equal.
    destruct fi as [f|]; [|done]. cbn [from_option] in Hf1. apply (cloneFilter_ok (Some f)). apply Hf1.
  - intros [[] ->]. unfold ProtocolMaxKeysetFields, ProtocolMaxOrderByFields in *.
    split_and!; try done; try lia; try tauto.
    destruct (proj2 (projection_loop_ok _) (conj kok_selections0 kok_outputs0)) as [s1 Hs1]. exists s1. split; [done|].
    rewrite !orb_false_iff, !Z.eqb_neq, !Z.ltb_ge. split; [lia|].
    destruct (proj2 (order_loop_ok _) (conj kok_sorts0 kok_keys0)) as [s2 Hs2]. exists s2. split; [done|].
    rewrite ?orb_false_iff, ?Z.ltb_ge. split; [lia|]. eexists. split; [split_and!; try done; intros _; lia|]. cbn [Parameters Predicates ExpressionDepth].
    exists (page_parameters (kr_page r)). split; [apply validate_page_iff; [unfold ProtocolMaxKeysetFields; lia|done]|]. split; [lia|].
    unfold keyset_stored. do 2 f_equal; [|f_equal; lia]. f_equal. destruct (kr_query r) as [so pr fi ob li]. cbn in *. f_equal.
    destruct fi as [f|]; [|done]. cbn [from_option] in kok_filter0. apply (cloneFilter_ok (Some f)). apply kok_filter0.
Qed.

(** C29: Validation of a keyset request is exact. It accepts a request just when its
    names, projection, order terms and filter are well formed and within the
    protocol's and the given limits, no two outputs share a name whatever the letter
    case, no key is repeated, no group of the filter has two members with the same
    digest, and the page is the first one without a cursor or a later one with a
    canonical cursor value for each key; it then returns the request unchanged, its
    parameter count being the values of the filter, the triangle of placeholders of
    the cursor predicate and the row limit. *)
Theorem ValidateKeyset_exact sha256 r l v :
  ValidateKeyset sha256 r l = Ok v <-> keyset_ok sha256 r l /\ v = keyset_stored r.
Proof. apply ValidateKeyset_iff. Qed.

(** ** Revalidation *)

Definition min_keyset_limits (a b : keyset_limits) : keyset_limits := {|
  kl_projection := Z.min (kl_projection a) (kl_projection b); kl_order_by := Z.min (kl_order_by a) (kl_order_by b);
  kl_predicates := Z.min (kl_predicates a) (kl_predicates b); kl_depth := Z.min (kl_depth a) (kl_depth b);
  kl_parameters := Z.min (kl_parameters a) (kl_parameters b); kl_rows := Z.min (kl_rows a) (kl_rows b) |}.

Definition cloned (q : ValidatedKeyset) : ValidatedKeyset := {|
  vk_request := cloneNormalizedKeysetRequest (vk_request q); vk_stats := vk_stats q; vk_valid := true |}.

Lemma RevalidateKeyset_ok q l v : RevalidateKeyset q l = Ok v <->
  vk_valid q = true /\ len (k_projection (nk_query (vk_request q))) <= kl_projection l /\
  len (k_order_by (nk_query (vk_request q))) <= kl_order_by l /\
  Predicates (vk_stats q) <= kl_predicates l /\ ExpressionDepth (vk_stats q) <= kl_depth l /\
  Parameters (vk_stats q) <= kl_parameters l /\ k_limit (nk_query (vk_request q)) <= kl_rows l /\ v = cloned q.
Proof.
  unfold RevalidateKeyset. rewrite !if_err_ok, !orb_false_iff, negb_false_iff, !Z.ltb_ge. unfold cloned. naive_solver.
Qed.

Lemma cloned_stored sha256 r l : keyset_ok sha256 r l -> cloned (keyset_stored r) = keyset_stored r.
Proof.
  intros []. unfold cloned, keyset_stored, cloneNormalizedKeysetRequest. cbn. do 2 f_equal.
  destruct (kr_query r) as [so pr [f|] ob li]; [|done]. cbn in *. f_equal. apply (cloneFilter_ok (Some f)). apply kok_filter0.
Qed.

Lemma keyset_ok_min sha256 r a b : 0 <= kl_predicates b -> 0 <= kl_depth b ->
  keyset_ok sha256 r (min_keyset_limits a b) <->
  keyset_ok sha256 r a /\ len (k_projection (kr_query r)) <= kl_projection b /\ len (k_order_by (kr_query r)) <= kl_order_by b /\
  filter_predicates (k_filter (kr_query r)) <= kl_predicates b /\ filter_depth (k_filter (kr_query r)) <= kl_depth b /\
  filter_parameters (k_filter (kr_query r)) + page_parameters (kr_page r) + 1 <= kl_parameters b /\
  k_limit (kr_query r) <= kl_rows b.
Proof.
  intros Hp Hd. split.
  - intros []; cbn [min_keyset_limits kl_projection kl_order_by kl_predicates kl_depth kl_parameters kl_rows] in *.
    split_and!; try lia.
    + constructor; try done; try lia. intros H. specialize (kok_filter_size0 H). lia.
    + destruct (k_filter (kr_query r)); [specialize (kok_filter_size0 ltac:(done)); lia|done].
    + destruct (k_filter (kr_query r)); [specialize (kok_filter_size0 ltac:(done)); lia|done].
  - intros ([] & ?). destruct_and!.
    constructor; cbn [min_keyset_limits kl_projection kl_order_by kl_predicates kl_depth kl_parameters kl_rows]; try done; try lia.
    intros H'. specialize (kok_filter_size0 H'). lia.
Qed.

(** Revalidating an accepted keyset request under new limits is the same as
    validating the original request under the smaller of both limits in every
    dimension; the row limit, which is never clamped, must fit both. *)
Theorem RevalidateKeyset_is_ValidateKeyset_min sha256 r a b v :
  ValidateKeyset sha256 r a = Ok v -> 0 <= kl_predicates b -> 0 <= kl_depth b ->
  forall v', RevalidateKeyset v b = Ok v' <-> ValidateKeyset sha256 r (min_keyset_limits a b) = Ok v'.
Proof.
  intros [Hok ->]%ValidateKeyset_iff Hp Hd v'. rewrite ValidateKeyset_iff, keyset_ok_min, RevalidateKeyset_ok by done.
  rewrite (cloned_stored sha256 r a Hok). cbn [keyset_stored vk_valid vk_request vk_stats nk_query Predicates ExpressionDepth Parameters].
  tauto.
Qed.

(** ** Normalization *)

Definition canonical_keyset (r : NormalizedKeysetRequest) (filter : option Filter) (m : IdentifierSemantics)
  : NormalizedKeysetRequest := {|
  nk_profile := nk_profile r; nk_datasource := nk_datasource r; nk_shape := nk_shape r;
  nk_query := {|
    k_source := {| r_schema := canonicalIdentifier (r_schema (k_source (nk_query r))) (CaseInsensitiveSchemas m);
                   r_name := canonicalIdentifier (r_name (k_source (nk_query r))) (CaseInsensitiveObjects m) |};
    k_projection := map (canonical_selection m) (k_projection (nk_query r)); k_filter := filter;
    k_order_by := map (canonical_sort m) (k_order_by (nk_query r)); k_limit := k_limit (nk_query r) |};
  nk_page := nk_page r |}.

(** An order term names the field of exactly one selection, of its representation. *)
Definition names_key (projection : list Selection) (order : Sort) : Prop :=
  exists s, List.filter (fun s => String.eqb (s_field s) (o_field order)) projection = [s] /\
            s_representation s = o_representation order.

Lemma names_key_iff projection order :
  existsb (projected_otherwise order) projection = false /\ times_projected projection (o_field order) = 1 <->
  names_key projection order.
Proof.
  unfold names_key, times_projected, count_if, projected_otherwise.
  assert (Hr : existsb (fun s => String.eqb (s_field s) (o_field order) && negb (String.eqb (s_representation s) (o_representation order)))
                 projection = false <->
               Forall (fun s => s_representation s = o_representation order)
                 (List.filter (fun s => String.eqb (s_field s) (o_field order)) projection)).
  { induction projection as [|s l IH]; [by split|]. cbn [existsb List.filter].
    rewrite orb_false_iff, IH, andb_false_iff, negb_false_iff, String.eqb_eq.
    destruct (String.eqb (s_field s) (o_field order)); [rewrite Forall_cons|]; clear IH; naive_solver. }
  rewrite Hr. clear Hr. destruct (List.filter _ projection) as [|s [|t l]]; rewrite ?len_cons, ?len_nil.
  - split; [intros [_ H]; lia|intros (s & [=] & _)].
  - rewrite Forall_singleton. naive_solver lia.
  - pose proof (len_nonneg l). split; [intros [_ H']; lia|intros (u & [=] & _)].
Qed.

Lemma NormalizeKeysetIdentifiers_iff sha256 q m v :
  NormalizeKeysetIdentifiers sha256 q m = Ok v <->
  vk_valid q = true /\
  exists filter,
    let c := canonical_keyset (vk_request q) filter m in
    NoDup (map selection_output (k_projection (nk_query c))) /\
    filter_normalizes sha256 m (k_filter (nk_query (vk_request q))) filter /\
    Forall (names_key (k_projection (nk_query c))) (k_order_by (nk_query c)) /\
    NoDup (map o_field (k_order_by (nk_query c))) /\
    v = {| vk_request := c; vk_stats := vk_stats q; vk_valid := true |}.
Proof.
  unfold NormalizeKeysetIdentifiers. rewrite if_err_ok, negb_false_iff, rbind_ok.
  unfold cloneNormalizedKeysetRequest, canonical_keyset.
  cbn [nk_profile nk_datasource nk_shape nk_query nk_page k_source k_projection k_filter k_order_by k_limit].
  assert (Hf : forall g, match cloneFilter (k_filter (nk_query (vk_request q))) with
                         | None => Ok None
                         | Some f => let? f := normalizeAggregateFilter sha256 f (CaseInsensitiveFields m) in Ok (Some f)
                         end = Ok g <-> filter_normalizes sha256 m (k_filter (nk_query (vk_request q))) g).
  { intros g. unfold filter_normalizes. destruct (k_filter (nk_query (vk_request q))) as [f|]; cbn; [|naive_solver].
    rewrite rbind_ok. unfold normalizeAggregateFilter. rewrite node_clone. setoid_rewrite rbind_ok. naive_solver. }
  set (ps := map (canonical_selection m) (k_projection (nk_query (vk_request q)))).
  assert (Ho : forall seen, iter output_step ps [] = Ok seen <->
               Forall (fun _ => True) ps /\ NoDup (map selection_output ps) /\ seen = rev (map selection_output ps)).
  { intros seen. apply iter_seen_nil, Forall_forall. intros s _ i before after. unfold output_step.
    rewrite if_err_ok, contains_false_elem. naive_solver. }
  set (os := map (canonical_sort m) (k_order_by (nk_query (vk_request q)))).
  assert (Hk : forall seen, iter (key_step ps) os [] = Ok seen <->
               Forall (names_key ps) os /\ NoDup (map o_field os) /\ seen = rev (map o_field os)).
  { intros seen. apply iter_seen_nil, Forall_forall. intros o _ i before after. unfold key_step.
    rewrite !if_err_ok, contains_false_elem, negb_false_iff, Z.eqb_eq, <- names_key_iff. naive_solver. }
  setoid_rewrite Ho. setoid_rewrite rbind_ok. setoid_rewrite Hf. setoid_rewrite rbind_ok. setoid_rewrite Hk. split.
  - intros (Hv & _ & (_ & Hn & _) & g & Hg & _ & (Ht & Hu & _) & [= <-]). split; [done|]. exists g. by split_and!.
  - intros (Hv & g & Hn & Hg & Ht & Hu & ->). split; [done|]. eexists. split.
    { split_and!; [apply Forall_forall; done|done|done]. }
    exists g. split; [done|]. eexists. split; [split_and!; done|done].
Qed.

(** ** Referenced fields *)

Lemma compact_In x l : In x (compact l) <-> In x l.
Proof.
  induction l as [|a l IH]; [done|]. cbn [compact]. destruct l as [|b l]; [done|].
  destruct (String.eqb_spec a b) as [->|]; cbn [In] in *; rewrite IH; naive_solver.
Qed.

Lemma sort_func_In {A} (before : A -> A -> bool) (x : A) l : In x (sort_func before l) <-> In x l.
Proof. rewrite <- !list_elem_of_In. by rewrite sort_func_perm. Qed.

(** ** What the exact digest leaves out *)

Definition with_representation (f : Filter) (representation : string) : Filter := {|
  f_representation := representation; f_kind := f_kind f; f_field := f_field f; f_operator := f_operator f;
  f_values := f_values f; f_expressions := f_expressions f |}.

(** Two predicates that differ only in their representation count as duplicates: a
    group that compares a field both as stored and as source text is refused, whatever
    the hash, although the shape digests of its members differ. *)
Lemma representation_counts_as_duplicate sha256 f representation k : f_kind f = "predicate" -> k <> "predicate" ->
  rejectExactFilterDuplicates sha256
    {| f_representation := EmptyString; f_kind := k; f_field := EmptyString; f_operator := "and"; f_values := None;
       f_expressions := [f; with_representation f representation] |} =
  Err (ErrorString "query.filter contains duplicate expressions").
Proof.
  intros Hf Hk. unfold rejectExactFilterDuplicates. cbn [exactAggregateFilterDigest f_kind f_expressions f_operator].
  rewrite (proj2 (String.eqb_neq _ _) Hk). unfold iter. cbn [iter_from].
  assert (E : forall g, f_kind g = "predicate" -> exactAggregateFilterDigest sha256 g = Ok (exact_predicate_digest sha256 g))
    by (intros g Hg; destruct g; cbn in Hg; subst; done).
  unfold exact_step. rewrite (E f Hf), (E (with_representation f representation) Hf). cbn [rbind contains existsb].
  change (exact_predicate_digest sha256 (with_representation f representation)) with (exact_predicate_digest sha256 f).
  by rewrite String.eqb_refl.
Qed.

Definition strict_keyset_limits : keyset_limits := {|
  kl_projection := 3; kl_order_by := 2; kl_predicates := 1; kl_depth := 1; kl_parameters := 5; kl_rows := 20 |}.

Lemma RevalidateKeyset_is_ValidateKeyset_min_witness :
  RevalidateKeyset (keyset_stored example_keyset) strict_keyset_limits = Ok (keyset_stored example_keyset).
Proof.
  apply (RevalidateKeyset_is_ValidateKeyset_min srev example_keyset example_keyset_limits strict_keyset_limits
           (keyset_stored example_keyset) keyset_validates).
  - vm_compute. discriminate.
  - vm_compute. discriminate.
  - vm_compute. reflexivity.
Defined.
