(* ===== verification/KeysetBinds.v ===== *)
(** The operands of a keyset query (internal/adapters/mysql8/keyset.go and
    keyset_characters.go): what the catalog says of a column, and the value that is
    bound, with the typed placeholder it is bound to, for a filter value or a cursor value. *)
From S2P Require Import Prelude Domain GoJson Number Portable Values QuerySpec Config Policy Sql Rows Aggregate AggregateNormal NumericBucket KeysetDecimal SqlAggregate Keyset.
Local Open Scope string_scope.
Local Open Scope Z_scope.

(** ** Columns *)

(** An [sql.NullInt64] is [None] when it is not valid. *)
Record keysetSourceColumn := {
  kc_representation : string; kc_name : string; kc_dataType : string; kc_nativeType : string; kc_nullable : bool;
  kc_characterSet : string; kc_collation : string; kc_characterMaximumLength : option Z; kc_characterOctetLength : option Z;
  kc_numericPrecision : option Z; kc_numericScale : option Z; kc_datetimePrecision : option Z;
}.

(** [strings.ToUpper(strings.TrimSpace(column.dataType))] *)
Definition normal_type (column : keysetSourceColumn) : string := to_upper (trim_space (kc_dataType column)).

Definition is_source_text (column : keysetSourceColumn) : bool := String.eqb (kc_representation column) RepresentationSourceText.

(** [strings.Contains] *)
Fixpoint has_substring (part s : string) : bool :=
  String.prefix part s || match s with EmptyString => false | String _ s' => has_substring part s' end.

Definition is_unsigned (column : keysetSourceColumn) : bool := has_substring "unsigned" (to_lower (kc_nativeType column)).

Definition is_name_start (c : ascii) : bool := Ascii.eqb c "_" || is_alpha c.
Definition is_name_char (c : ascii) : bool := is_name_start c || is_digit c.

Definition validMySQLCharacterName (name : string) : bool :=
  match name with
  | EmptyString => false
  | String c _ => (slen name <=? 64) && is_name_start c && sforall is_name_char name
  end.

Definition validKeysetCharacterMetadata (column : keysetSourceColumn) : bool :=
  validMySQLCharacterName (kc_characterSet column) && validMySQLCharacterName (kc_collation column).

Definition keysetCharacterOperand (column : keysetSourceColumn) : result string :=
  if? negb (validKeysetCharacterMetadata column) return invalid_error then
  Ok ("CONVERT(CAST(? AS CHAR CHARACTER SET utf8mb4) USING " +:+ kc_characterSet column +:+ ") COLLATE " +:+ kc_collation column).

Definition keysetCharacterRoundTrip (expression originalExpression intermediate original : string) : string :=
  "CAST(CONVERT(CONVERT(" +:+ expression +:+ " USING " +:+ intermediate +:+ ") USING " +:+ original +:+
  ") AS BINARY) = CAST(" +:+ originalExpression +:+ " AS BINARY)".

Definition mysqlKeysetTemporalPrecision (column : keysetSourceColumn) : result Z :=
  match kc_datetimePrecision column with
  | Some digits => if? (digits <? 0) || (6 <? digits) return invalid_error then Ok digits
  | None => Err invalid_error
  end.

Definition keysetDecimalDefinition (column : keysetSourceColumn) : result (Z * Z) :=
  match kc_numericPrecision column, kc_numericScale column with
  | Some precision, Some scale =>
      if? negb (contains ["DECIMAL"; "NUMERIC"] (normal_type column)) ||
          (precision <? 1) || (65 <? precision) || (scale <? 0) || (30 <? scale) || (precision <? scale)
      return invalid_error then Ok (precision, scale)
  | _, _ => Err invalid_error
  end.

(** ** Instants *)

Definition instant_fields (t : Time) : list Z := [Year t; Month t; Day t; Hour t; Minute t; Second t; Nanosecond t].

Fixpoint lex_ltb (a b : list Z) : bool :=
  match a, b with
  | x :: a', y :: b' => (x <? y) || (x =? y) && lex_ltb a' b'
  | [], _ :: _ => true
  | _, [] => false
  end.

(** [a.Before(b)] and [a.After(b)] of two times in UTC. *)
Definition Before (a b : Time) : bool := lex_ltb (instant_fields a) (instant_fields b).
Definition After (a b : Time) : bool := Before b a.

Definition civil (y m d hh mm ss ns : Z) : Time := {|
  Year := y; Month := m; Day := d; Hour := hh; Minute := mm; Second := ss; Nanosecond := ns |}.

Definition mysqlDateMinimum : Time := civil 1 1 1 0 0 0 0.
Definition mysqlDateMaximum : Time := civil 9999 12 31 0 0 0 0.
Definition mysqlDatetimeMinimum : Time := civil 1 1 1 0 0 0 0.
Definition mysqlDatetimeMaximum : Time := civil 9999 12 31 23 59 59 499999000.
Definition mysqlTimestampMinimum : Time := civil 1970 1 1 0 0 1 0.
Definition mysqlTimestampMaximum : Time := civil 2038 1 19 3 14 7 499999000.

(** The calendar day after and before a day. *)
Definition day_after (day : Z * Z * Z) : Z * Z * Z :=
  let '(y, m, d) := day in
  if d <? days_in m y then (y, m, d + 1) else if m <? 12 then (y, m + 1, 1) else (y + 1, 1, 1).
Definition day_before (day : Z * Z * Z) : Z * Z * Z :=
  let '(y, m, d) := day in
  if 1 <? d then (y, m, d - 1) else if 1 <? m then (y, m - 1, days_in (m - 1) y) else (y - 1, 12, 31).

Definition shift_days (days : Z) (day : Z * Z * Z) : Z * Z * Z :=
  if days <? 0 then Nat.iter (Z.to_nat (- days)) day_before day else Nat.iter (Z.to_nat days) day_after day.

(** [parsed.UTC()] of the fields [t] at [offset] seconds east of UTC. *)
Definition to_utc (t : Time) (offset : Z) : Time :=
  let seconds := Hour t * 3600 + Minute t * 60 + Second t - offset in
  let '(y, m, d) := shift_days (seconds / 86400) (Year t, Month t, Day t) in
  let rest := seconds mod 86400 in
  civil y m d (rest / 3600) (rest / 60 mod 60) (rest mod 60) (Nanosecond t).

(** [boundTime.Format("2006-01-02 15:04:05.999999")] *)
Definition format_micros (t : Time) : string :=
  format_date_time t +:+ print_fraction (fraction_of (trim_right_by (Ascii.eqb "0") (pad 6 (Nanosecond t / 1000)))).

(** ** Values of a filter *)

Definition integer_bits (dataType : string) : option Z :=
  map_get [("TINYINT", 8); ("SMALLINT", 16); ("MEDIUMINT", 24); ("INT", 32); ("INTEGER", 32); ("BIGINT", 64)] dataType.

(** The result is a [uint64] for an unsigned column and an [int64] otherwise. *)
Definition bindKeysetInteger (value : string) (column : keysetSourceColumn) : result Bind :=
  match integer_bits (normal_type column) with
  | None => Err invalid_error
  | Some bits =>
      match (if is_unsigned column then ParseUint bits value else ParseInt bits value) with
      | None => Err invalid_error
      | Some parsed => Ok (BindInt parsed)
      end
  end.

(** [normalized[10] = 'T'] and [normalized[len(normalized)-1] = 'Z'] *)
Definition upper_markers (text : string) : string :=
  let normalized := if (10 <? slen text) && bool_decide (byte_at 10 text = Some "t"%char) then set_byte 10 "T" text else text in
  if bool_decide (last_byte normalized = Some "z"%char) then set_byte (String.length normalized - 1) "Z" normalized else normalized.

(** The last part of [bindKeysetFilterValue]: the parsed date-time. *)
Definition bind_instant (parsed : Time) (offset : Z) (column : keysetSourceColumn) : result Bind :=
  let? digits := mysqlKeysetTemporalPrecision column in
  let precisionFactor := 10 ^ (9 - digits) in
  if? negb (Nanosecond parsed mod precisionFactor =? 0) return invalid_error then
  let timestamp := String.eqb (normal_type column) "TIMESTAMP" in
  let boundTime := if timestamp then to_utc parsed offset else parsed in
  let minimum := if timestamp then mysqlTimestampMinimum else mysqlDatetimeMinimum in
  let maximum := if timestamp then mysqlTimestampMaximum else mysqlDatetimeMaximum in
  if? Before boundTime minimum || After boundTime maximum return invalid_error then
  Ok (BindString (format_micros boundTime)).

Definition bindKeysetFilterValue (value : TypedValue) (column : keysetSourceColumn) : result Bind :=
  let? bound := match TypedValue_BindValue value with Ok b => Ok b | Err _ => Err invalid_error end in
  if String.eqb (tv_type value) "integer" then
    match bound with
    | BindInt integer => bindKeysetInteger (itoa integer) column
    | _ => Err invalid_error
    end
  else if String.eqb (tv_type value) "decimal" then
    match bound with
    | BindString text =>
        let? (precision, scale) := keysetDecimalDefinition column in
        match normalizeExactKeysetDecimal text precision scale (is_unsigned column) with
        | Ok normalized => Ok (BindString normalized)
        | Err _ => Err invalid_error
        end
    | _ => Err invalid_error
    end
  else if String.eqb (tv_type value) "date" then
    match bound with
    | BindString text =>
        match time_parse_date_only text with
        | None => Err invalid_error
        | Some parsed =>
            if? Before parsed mysqlDateMinimum || After parsed mysqlDateMaximum return invalid_error then
            Ok (BindString (format_date parsed))
        end
    | _ => Err invalid_error
    end
  else if negb (String.eqb (tv_type value) "datetime") then Ok bound
  else
    match bound with
    | BindString text =>
        match time_parse_rfc3339nano (upper_markers text) with
        | None => Err (ErrorString "parsing time")
        | Some (parsed, offset) => bind_instant parsed offset column
        end
    | _ => Err (ErrorString "invalid datetime binding")
    end.

Definition datetime_operand (digits : Z) : string := "CAST(? AS DATETIME(" +:+ itoa digits +:+ "))".

Definition keysetFilterPlaceholder (value : TypedValue) (column : keysetSourceColumn) : result string :=
  if contains ["string"; "uuid"] (tv_type value) then keysetCharacterOperand column
  else if String.eqb (tv_type value) "date" then Ok "CAST(? AS DATE)"
  else if String.eqb (tv_type value) "datetime" then
    let? digits := mysqlKeysetTemporalPrecision column in Ok (datetime_operand digits)
  else if String.eqb (tv_type value) "decimal" then
    let? (precision, scale) := keysetDecimalDefinition column in
    Ok ("CAST(? AS DECIMAL(" +:+ itoa precision +:+ "," +:+ itoa scale +:+ "))")
  else Ok "?".

(** ** Values of a cursor *)

Definition bindMySQLKeysetTemporalCursor (value : KeysetCursorValue) (column : keysetSourceColumn) : result Bind :=
  let dataType := normal_type column in
  let within (parsed minimum maximum : Time) := negb (Before parsed minimum) && negb (After parsed maximum) in
  if String.eqb (cv_type value) "date" then
    match ParsePortableDate (cv_value value) with
    | Some parsed =>
        if? negb (String.eqb dataType "DATE") || negb (within parsed mysqlDateMinimum mysqlDateMaximum) return invalid_error then
        Ok (BindString (cv_value value))
    | None => Err invalid_error
    end
  else if String.eqb (cv_type value) "datetime" then
    match ParsePortableDateTime (cv_value value), mysqlKeysetTemporalPrecision column with
    | Some (parsed, digits), Ok precision =>
        if? negb (String.eqb dataType "DATETIME") || negb (digits =? precision) ||
            negb (within parsed mysqlDatetimeMinimum mysqlDatetimeMaximum) return invalid_error then
        Ok (BindString (cv_value value))
    | _, _ => Err invalid_error
    end
  else if String.eqb (cv_type value) "timestamp" then
    match ParsePortableTimestamp (cv_value value), mysqlKeysetTemporalPrecision column with
    | Some (parsed, digits), Ok precision =>
        if? negb (String.eqb dataType "TIMESTAMP") || negb (digits =? precision) ||
            negb (within parsed mysqlTimestampMinimum mysqlTimestampMaximum) return invalid_error then
        Ok (BindString (stake 10 (cv_value value) +:+ " " +:+
                        sdrop 11 (stake (String.length (cv_value value) - 1) (cv_value value))))
    | _, _ => Err invalid_error
    end
  else Err invalid_error.

Definition bindKeysetCursor (value : KeysetCursorValue) (column : keysetSourceColumn) : result Bind :=
  let text := cv_value value in
  if is_source_text column then
    if? negb (String.eqb (cv_type value) "string") || negb (valid_utf8 text) || (ProtocolMaxCursorStringRunes <? rune_count text)
    return invalid_error then Ok (BindString text)
  else if String.eqb (cv_type value) "integer" then bindKeysetInteger text column
  else if String.eqb (cv_type value) "string" then
    match kc_characterMaximumLength column with
    | Some maximum =>
        if? negb (validKeysetCharacterMetadata column) || negb (valid_utf8 text) || (maximum <? rune_count text)
        return invalid_error then Ok (BindString text)
    | None => Err invalid_error
    end
  else if String.eqb (cv_type value) "bytes" then
    match base64_decode text with
    | Some decoded =>
        if? negb (String.eqb (base64_encode decoded) text) || (default 0 (kc_characterOctetLength column) <? slen decoded)
        return invalid_error then Ok (BindBytes decoded)
    | None => Err invalid_error
    end
  else if contains ["date"; "datetime"; "timestamp"] (cv_type value) then bindMySQLKeysetTemporalCursor value column
  else Err invalid_error.

Definition keysetCursorPlaceholder (value : KeysetCursorValue) (column : keysetSourceColumn) : result string :=
  if is_source_text column then Ok "CAST(? AS BINARY)"
  else if String.eqb (cv_type value) "string" then keysetCharacterOperand column
  else if String.eqb (cv_type value) "date" then Ok "CAST(? AS DATE)"
  else if contains ["datetime"; "timestamp"] (cv_type value) then
    let? precision := mysqlKeysetTemporalPrecision column in Ok (datetime_operand precision)
  else Ok "?".

Definition example_column (dataType nativeType : string) (precision : option Z) : keysetSourceColumn := {|
  kc_representation := EmptyString; kc_name := "c"; kc_dataType := dataType; kc_nativeType := nativeType; kc_nullable := false;
  kc_characterSet := EmptyString; kc_collation := EmptyString; kc_characterMaximumLength := None; kc_characterOctetLength := None;
  kc_numericPrecision := None; kc_numericScale := None; kc_datetimePrecision := precision |}.

Definition datetime_value (text : string) : TypedValue := {| tv_type := "datetime"; tv_value := Some (quoted text) |}.

Example instants_example :
  map (fun text => (bindKeysetFilterValue (datetime_value text) (example_column "timestamp" "timestamp(3)" (Some 3)),
                    bindKeysetFilterValue (datetime_value text) (example_column "datetime" "datetime(3)" (Some 3))))
    ["2024-03-01T00:30:00.120+01:00"; "1970-01-01T00:00:00Z"; "2024-02-29t12:00:00.0001z"] =
  [(Ok (BindString "2024-02-29 23:30:00.12"), Ok (BindString "2024-03-01 00:30:00.12"));
   (Err invalid_error, Ok (BindString "1970-01-01 00:00:00")); (Err invalid_error, Err invalid_error)].
Proof. vm_compute. reflexivity. Qed.

(** A fraction is parsed to nine digits: what is behind them is dropped, and the check of
    the source precision does not see it. *)
Lemma fraction_beyond_nanoseconds_dropped :
  bindKeysetFilterValue (datetime_value "2024-03-01T00:00:00.123000000999Z") (example_column "datetime" "datetime(3)" (Some 3)) =
    Ok (BindString "2024-03-01 00:00:00.123") /\
  bindKeysetFilterValue (datetime_value "2024-03-01T00:00:00.123000999Z") (example_column "datetime" "datetime(3)" (Some 3)) =
    Err invalid_error.
Proof. vm_compute. split; reflexivity. Qed.

(** ** Days and seconds *)

Definition valid_day (day : Z * Z * Z) : Prop :=
  let '(y, m, d) := day in 1 <= m <= 12 /\ 1 <= d <= days_in m y.

Definition number_of (day : Z * Z * Z) : Z := let '(y, m, d) := day in day_number (civil y m d 0 0 0 0).

(** The seconds since the start of the calendar. *)
Definition seconds_of (t : Time) : Z := day_number t * 86400 + Hour t * 3600 + Minute t * 60 + Second t.

Lemma leap_years y : days_before_year (y + 1) - days_before_year y = 337 + days_in 2 y.
Proof.
  unfold days_before_year, days_in, is_leap. cbn [Z.eqb Pos.eqb].
  destruct (Z.eqb_spec (y mod 4) 0), (Z.eqb_spec (y mod 100) 0), (Z.eqb_spec (y mod 400) 0); cbn [negb andb orb]; div_lia.
Qed.

Lemma days_in_bounds m y : 28 <= days_in m y <= 31.
Proof. unfold days_in. repeat case_match; lia. Qed.

(** The month after [m], and the days before it. *)
Definition days_before_month (y m : Z) : Z :=
  fold_left (fun acc m => acc + days_in m y) (map Z.of_nat (seq 1 (Z.to_nat (m - 1)))) 0.

Lemma days_before_month_succ y m : 1 <= m -> days_before_month y (m + 1) = days_before_month y m + days_in m y.
Proof.
  intros Hm. unfold days_before_month. replace (Z.to_nat (m + 1 - 1)) with (S (Z.to_nat (m - 1))) by lia.
  rewrite seq_S, map_app, fold_left_app. cbn [map fold_left]. by replace (Z.of_nat (1 + Z.to_nat (m - 1))) with m by lia.
Qed.

Lemma days_before_december y : days_before_month y 12 = 306 + days_in 2 y.
Proof. unfold days_before_month, days_in. generalize (is_leap y). by intros []. Qed.

Lemma number_of_eq y m d : number_of (y, m, d) = days_before_year y + days_before_month y m + d.
Proof. done. Qed.

Lemma day_after_spec day : valid_day day -> valid_day (day_after day) /\ number_of (day_after day) = number_of day + 1.
Proof.
  destruct day as [[y m] d]. unfold valid_day, day_after. intros [Hm Hd].
  destruct (Z.ltb_spec d (days_in m y)); [|destruct (Z.ltb_spec m 12)]; rewrite !number_of_eq.
  - lia.
  - rewrite days_before_month_succ by lia. pose proof (days_in_bounds (m + 1) y). lia.
  - assert (m = 12) as -> by lia. pose proof (leap_years y). pose proof (days_in_bounds 1 (y + 1)). rewrite days_before_december.
    change (days_before_month (y + 1) 1) with 0. change (days_in 12 y) with 31 in *. lia.
Qed.

Lemma day_before_spec day : valid_day day -> valid_day (day_before day) /\ number_of (day_before day) = number_of day + -1.
Proof.
  destruct day as [[y m] d]. unfold valid_day, day_before. intros [Hm Hd].
  destruct (Z.ltb_spec 1 d); [|destruct (Z.ltb_spec 1 m)]; rewrite !number_of_eq.
  - lia.
  - pose proof (days_before_month_succ y (m - 1) ltac:(lia)) as E. replace (m - 1 + 1) with m in E by lia.
    pose proof (days_in_bounds (m - 1) y). lia.
  - assert (m = 1) as -> by lia. pose proof (leap_years (y - 1)) as E. replace (y - 1 + 1) with y in E by lia.
    rewrite days_before_december. change (days_before_month y 1) with 0. change (days_in 12 (y - 1)) with 31 in *. lia.
Qed.

Lemma iter_days (step : Z * Z * Z -> Z * Z * Z) (delta : Z) day n :
  (forall day, valid_day day -> valid_day (step day) /\ number_of (step day) = number_of day + delta) -> valid_day day ->
  valid_day (Nat.iter n step day) /\ number_of (Nat.iter n step day) = number_of day + Z.of_nat n * delta.
Proof.
  intros Hstep Hv. induction n as [|n [IH1 IH2]]; [split; [done|change (number_of day = number_of day + 0 * delta); lia]|]. cbn [Nat.iter].
  destruct (Hstep _ IH1) as [H1 H2]. split; [done|etrans; [exact H2|rewrite IH2]; rewrite Nat2Z.inj_succ, Z.mul_succ_l; cbn in *; lia].
Qed.

Lemma shift_days_spec days day : valid_day day -> valid_day (shift_days days day) /\ number_of (shift_days days day) = number_of day + days.
Proof.
  intros Hv. unfold shift_days. destruct (Z.ltb_spec days 0).
  - destruct (iter_days day_before (-1) day (Z.to_nat (- days)) day_before_spec Hv) as [H1 H2]. split; [done|lia].
  - destruct (iter_days day_after 1 day (Z.to_nat days) day_after_spec Hv) as [H1 H2]. split; [done|lia].
Qed.

Lemma day_number_of t : day_number t = number_of (Year t, Month t, Day t).
Proof. done. Qed.

Lemma to_utc_seconds t offset : valid_day (Year t, Month t, Day t) ->
  seconds_of (to_utc t offset) = seconds_of t - offset /\ Nanosecond (to_utc t offset) = Nanosecond t.
Proof.
  intros Hv. unfold to_utc. set (s := Hour t * 3600 + Minute t * 60 + Second t - offset).
  destruct (shift_days_spec (s / 86400) _ Hv) as [_ Hn]. destruct (shift_days _ _) as [[y m] d]. split; [|done].
  unfold seconds_of. rewrite !day_number_of. cbn [civil Year Month Day Hour Minute Second]. rewrite Hn. fold s.
  pose proof (Z.mod_pos_bound s 86400 ltac:(lia)) as Hb. pose proof (Z.div_mod s 86400 ltac:(lia)) as Hs.
  set (r := s mod 86400) in *. assert (E : r / 3600 * 3600 + r / 60 mod 60 * 60 + r mod 60 = r) by div_lia. lia.
Qed.

(** ** The operand of a date-time *)

Lemma pad_spec k v : 0 <= v -> all_digits (pad k v) = true /\ String.length (pad k v) = k /\ digits_value (pad k v) = v mod 10 ^ Z.of_nat k.
Proof.
  revert v. induction k as [|k IH]; intros v Hv; [split_and!; [done|done|by rewrite Z.mod_1_r]|].
  destruct (IH (v / 10)) as (H1 & H2 & H3); [by apply Z.div_pos|]. cbn [pad].
  rewrite sforall_app, slength_app, digits_value_app, H1, H2, H3. cbn [sforall String.length]. rewrite digit_char_digit.
  split_and!; [done|lia|]. change (slen (String (digit_char v) EmptyString)) with 1.
  unfold digits_value. cbn [digits_from]. rewrite digit_digit_char, Nat2Z.inj_succ, Z.pow_succ_r, Z.rem_mul_r by lia. lia.
Qed.

Lemma zeros_app a b : zeros (a + b) = zeros a +:+ zeros b.
Proof. induction a as [|a IH]; [done|]. cbn [Nat.add zeros]. by rewrite IH, sapp_cons. Qed.

Lemma stake_zeros f n : (String.length f <= n)%nat -> pad_right_zeros n f = f +:+ zeros (n - String.length f).
Proof.
  intros Hl. unfold pad_right_zeros. replace n with (n - String.length f + String.length f)%nat at 2 by lia.
  rewrite zeros_app, <- sapp_assoc. apply stake_app. rewrite slength_app, zeros_length. lia.
Qed.

(** The fraction that [Format] writes is the one that [Parse] reads. *)
Lemma parse_fraction_micros ns : 0 <= ns < 10 ^ 9 -> ns mod 1000 = 0 ->
  parse_fraction (print_fraction (fraction_of (trim_right_by zero_byte (pad 6 (ns / 1000))))) = (ns, EmptyString).
Proof.
  intros Hb Hm. change (10 ^ 9) with 1000000000 in Hb. destruct (pad_spec 6 (ns / 1000)) as (Hd & Hl & Hv); [by apply Z.div_pos; lia|].
  destruct (trim_right_zeros _ Hd) as (Hf & _ & Hle & Hval). set (f := trim_right_by zero_byte (pad 6 (ns / 1000))) in *.
  assert (Hlen : slen (pad 6 (ns / 1000)) = 6) by (unfold slen; by rewrite Hl).
  assert (Hns : ns = digits_value f * 10 ^ (9 - slen f)).
  { assert (Hq : 0 <= ns / 1000 < 1000000) by (split; [apply Z.div_pos|apply Z.div_lt_upper_bound]; lia). change (10 ^ Z.of_nat 6) with 1000000 in Hv. rewrite Z.mod_small in Hv by exact Hq. rewrite Hv, Hlen in Hval.
    replace (9 - slen f) with (6 - slen f + 3) by lia. rewrite Z.pow_add_r by lia. change (10 ^ 3) with 1000. rewrite Z.mul_assoc, <- Hval. pose proof (Z.div_mod ns 1000). lia. }
  destruct f as [|c f]; [by rewrite Hns|].
  change (parse_fraction (String "." (String c f)) = (ns, EmptyString)). unfold parse_fraction.
  cbn [comma_or_period Ascii.eqb Bool.eqb orb]. pose proof Hf as Hc. cbn [sforall] in Hc. apply andb_true_iff in Hc as [Hc _]. rewrite Hc.
  assert (Hspan : span is_digit (String c f) = (String c f, EmptyString)) by (apply span_spec; by rewrite sapp_nil_r).
  unfold comma_or_period. cbn [Ascii.eqb Bool.eqb orb andb]. rewrite Hspan. f_equal. unfold slen in Hle, Hlen.
  rewrite stake_zeros, digits_value_app, slen_zeros, zeros_no_value by lia. rewrite Hns.
  unfold slen. rewrite Nat2Z.inj_sub by lia. change (Z.of_nat 9) with 9. lia.
Qed.

Lemma parse_fraction_bounds s ns r : parse_fraction s = (ns, r) -> 0 <= ns < 10 ^ 9.
Proof.
  unfold parse_fraction. intros H. assert (H0 : forall t, (0, t) = (ns, r) -> 0 <= ns < 10 ^ 9) by (intros t [= <- <-]; lia).
  destruct s as [|c [|d s]]; [eauto..|]. destruct (comma_or_period c && is_digit d); [|eauto].
  destruct (span is_digit (String d s)) as [ds rest] eqn:E. injection H as <- <-.
  apply span_spec in E as (_ & Hd & _). unfold pad_right_zeros.
  assert (Ha : all_digits (stake 9 (ds +:+ zeros 9)) = true) by (apply sforall_stake_sdrop; by rewrite sforall_app, Hd, zeros_digits).
  pose proof (digits_value_bounds _ Ha) as Hb. unfold slen in Hb. rewrite length_stake in Hb by (rewrite slength_app, zeros_length; lia). exact Hb.
Qed.

Lemma parse_clock_nanoseconds s hh mm ss ns r : parse_clock s = Some (hh, mm, ss, ns, r) -> 0 <= ns < 10 ^ 9.
Proof.
  unfold parse_clock. intros H. opt_inv. by eapply parse_fraction_bounds.
Qed.

Lemma rfc3339_valid s t offset : time_parse_rfc3339nano s = Some (t, offset) -> valid_civil t = true /\ 0 <= Nanosecond t < 10 ^ 9.
Proof.
  unfold time_parse_rfc3339nano. intros H. opt_inv.
  match goal with H : parse_clock _ = _ |- _ => pose proof (parse_clock_nanoseconds _ _ _ _ _ _ H); apply parse_clock_bounds in H end.
  match goal with H : parse_date _ = _ |- _ => apply parse_date_bounds in H end.
  split; [|done]. unfold valid_civil, day_in_range in *; cbn. bool_prop. lia.
Qed.

Lemma year_between t lo hi : Before t lo = false -> After t hi = false -> Year lo <= Year t <= Year hi.
Proof.
  unfold After, Before, instant_fields. cbn [lex_ltb]. rewrite !orb_false_iff, !Z.ltb_ge. lia.
Qed.

Lemma valid_civil_iff t : valid_civil t = true <->
  0 <= Year t <= 9999 /\ valid_day (Year t, Month t, Day t) /\ 0 <= Hour t < 24 /\ 0 <= Minute t < 60 /\ 0 <= Second t < 60.
Proof. unfold valid_civil, valid_day. rewrite !andb_true_iff, !Z.leb_le, !Z.ltb_lt. lia. Qed.

Lemma to_utc_valid t offset : valid_day (Year t, Month t, Day t) -> 0 <= Year (to_utc t offset) <= 9999 -> valid_civil (to_utc t offset) = true.
Proof.
  intros Hv. rewrite valid_civil_iff. unfold to_utc. set (s := Hour t * 3600 + Minute t * 60 + Second t - offset).
  destruct (shift_days_spec (s / 86400) _ Hv) as [Hd _]. destruct (shift_days _ _) as [[y m] d].
  cbn [civil Year Month Day Hour Minute Second]. intros Hy. pose proof (Z.mod_pos_bound s 86400 ltac:(lia)) as Hb.
  split_and!; try done; try lia; try apply Hd; div_lia.
Qed.

(** The bounds of the column's type. *)
Definition within_type (column : keysetSourceColumn) (t : Time) : Prop :=
  let timestamp := String.eqb (normal_type column) "TIMESTAMP" in
  Before t (if timestamp then mysqlTimestampMinimum else mysqlDatetimeMinimum) = false /\
  After t (if timestamp then mysqlTimestampMaximum else mysqlDatetimeMaximum) = false.

(** What a column of type TIMESTAMP or DATETIME stores for the fields [parsed] at [offset]:
    the same instant in UTC, or the same fields. *)
Definition stored_as (column : keysetSourceColumn) (parsed : Time) (offset : Z) (t : Time) : Prop :=
  if String.eqb (normal_type column) "TIMESTAMP"
  then seconds_of t = seconds_of parsed - offset /\ Nanosecond t = Nanosecond parsed
  else t = parsed.

Lemma bind_instant_denotes parsed offset column bound : valid_civil parsed = true -> 0 <= Nanosecond parsed < 10 ^ 9 ->
  bind_instant parsed offset column = Ok bound ->
  exists digits t text, kc_datetimePrecision column = Some digits /\ 0 <= digits <= 6 /\ bound = BindString text /\
    time_parse_date_time text = Some t /\ stored_as column parsed offset t /\ within_type column t /\ Nanosecond t mod 10 ^ (9 - digits) = 0.
Proof.
  intros Hp Hns. unfold bind_instant, mysqlKeysetTemporalPrecision. destruct (kc_datetimePrecision column) as [digits|]; [|done].
  destruct ((digits <? 0) || (6 <? digits)) eqn:Hdigits; [done|]. cbn [rbind]. apply orb_false_iff in Hdigits as [?%Z.ltb_ge ?%Z.ltb_ge].
  rewrite !if_err_ok. set (timestamp := String.eqb (normal_type column) "TIMESTAMP") in *.
  set (t := if timestamp then to_utc parsed offset else parsed). intros (Hmod & Hrange & [= <-]).
  apply negb_false_iff, Z.eqb_eq in Hmod. apply orb_false_iff in Hrange as Hwithin. apply valid_civil_iff in Hp as Hp'.
  destruct Hp' as (_ & Hday & _). destruct (to_utc_seconds parsed offset Hday) as [Hs Hn].
  assert (Hyear : 0 <= Year t <= 9999).
  { destruct Hwithin as [H1 H2]. pose proof (year_between _ _ _ H1 H2) as Hy. destruct timestamp; cbn in Hy; lia. }
  assert (Hvalid : valid_civil t = true) by (subst t; destruct timestamp; [by apply to_utc_valid|done]).
  assert (Hnt : Nanosecond t = Nanosecond parsed) by (subst t; by destruct timestamp).
  assert (Hmicro : Nanosecond t mod 1000 = 0).
  { rewrite Hnt. replace (9 - digits) with (3 + (6 - digits)) in Hmod by lia. rewrite Z.pow_add_r in Hmod by lia. change (10 ^ 3) with 1000 in Hmod.
    apply Z.mod_divide; [lia|]. apply Z.mod_divide in Hmod as [q ->]; [|pose proof (pow10_pos (6 - digits)); lia].
    exists (q * 10 ^ (6 - digits)). lia. }
  exists digits, t, (format_micros t). split_and!; [done|lia|lia|done| | |exact Hwithin|by rewrite Hnt].
  - unfold format_micros. rewrite (time_parse_date_time_fraction t _ (Nanosecond t)); [by destruct t|done|].
    apply parse_fraction_micros; [by rewrite Hnt|done].
  - unfold stored_as. fold timestamp. subst t. by destruct timestamp.
Qed.

(** the operand that is bound for a date-time value of a filter reads back, in MySQL's
    own format, as the instant that the RFC 3339 text denotes for a TIMESTAMP column, and as the
    clock fields of the text for a DATETIME column; it lies within the range of the
    column's type and has no more fractional digits than the column. *)
Theorem datetime_operand_denotes value column bound : tv_type value = "datetime" ->
  bindKeysetFilterValue value column = Ok bound ->
  exists source parsed offset digits t text,
    TypedValue_BindValue value = Ok (BindString source) /\ time_parse_rfc3339nano (upper_markers source) = Some (parsed, offset) /\
    kc_datetimePrecision column = Some digits /\ 0 <= digits <= 6 /\
    bound = BindString text /\ time_parse_date_time text = Some t /\
    stored_as column parsed offset t /\ within_type column t /\ Nanosecond t mod 10 ^ (9 - digits) = 0.
Proof.
  intros Ht. unfold bindKeysetFilterValue. rewrite Ht. destruct (TypedValue_BindValue value) as [b|] eqn:Hb; [|done].
  cbn [rbind String.eqb Ascii.eqb Bool.eqb negb]. destruct b as [| |source|]; try done.
  destruct (time_parse_rfc3339nano (upper_markers source)) as [[parsed offset]|] eqn:Hparse; [|done].
  intros Hbind. destruct (rfc3339_valid _ _ _ Hparse) as [Hvalid Hns].
  destruct (bind_instant_denotes _ _ _ _ Hvalid Hns Hbind) as (digits & t & text & H).
  exists source, parsed, offset, digits, t, text. naive_solver.
Qed.

Lemma datetime_operand_denotes_witness :
  exists source parsed offset digits t text,
    TypedValue_BindValue (datetime_value "2024-03-01T00:30:00.120+01:00") = Ok (BindString source) /\
    time_parse_rfc3339nano (upper_markers source) = Some (parsed, offset) /\
    kc_datetimePrecision (example_column "timestamp" "timestamp(3)" (Some 3)) = Some digits /\ 0 <= digits <= 6 /\
    BindString "2024-02-29 23:30:00.12" = BindString text /\ time_parse_date_time text = Some t /\
    stored_as (example_column "timestamp" "timestamp(3)" (Some 3)) parsed offset t /\
    within_type (example_column "timestamp" "timestamp(3)" (Some 3)) t /\ Nanosecond t mod 10 ^ (9 - digits) = 0.
Proof.
  apply (datetime_operand_denotes (datetime_value "2024-03-01T00:30:00.120+01:00") (example_column "timestamp" "timestamp(3)" (Some 3))
           (BindString "2024-02-29 23:30:00.12")); [reflexivity|vm_compute; reflexivity].
Defined.
