(* ===== verification/PolicyAggregate.v ===== *)
(** Authorization of aggregates (internal/policy/policy.go): the features that a
    profile allows, the reviewed shape that a request must match, and the limits
    and plan controls that come with it. *)
From stdpp Require Import sorting.
From S2P Require Import Prelude Domain GoJson Number Portable Values QuerySpec Config Policy Aggregate AggregateNormal NumericBucket SqlAggregate.
Local Open Scope string_scope.
Local Open Scope Z_scope.

(** [nil] for the fields that are [omitempty] and empty. *)
Definition omit_list (k : string) (l : list json) : list (string * json) :=
  match l with [] => [] | _ => [(k, JArr l)] end.

(** ** Features *)

Definition measure_function (output : AggregateOutput) : string :=
  if String.eqb (ao_function output) "count_all" then "count" else ao_function output.

Definition authorizeAggregateFeatures (policy : QueryPolicy) (spec : NormalizedAggregateSpec) : error :=
  if? AggregateUsesSourceText spec && negb (AllowSourceText policy) return denied ReasonDeniedQueryFeature then
  check? authorize_operators policy (a_filter spec) then
  if? String.eqb (a_mode spec) AggregateModeGrouped && negb (AllowGroupBy policy) return denied ReasonDeniedQueryFeature then
  if? negb (len (a_order_by spec) =? 0) && negb (AllowSorting policy) return denied ReasonDeniedQueryFeature then
  each (fun _ output =>
    if? is_kind "measure" output && negb (contains (AllowedAggregates policy) (measure_function output))
    return denied ReasonDeniedQueryFeature then nil_error) (a_projection spec).

(** ** Signatures *)

Record aggregateShapeProjection := {
  gp_representation : string; gp_kind : string; gp_field : string; gp_function : string; gp_alias : string;
  gp_unit : string; gp_timezone : string;
}.

Record aggregateShapeOrder := {
  go_representation : string; go_kind : string; go_field : string; go_alias : string; go_direction : string;
}.

(** [ValueTypes] and [Expressions] are empty when the slice is [nil]. *)
Inductive aggregateShapeFilter : Type := MkSignature {
  gf_representation : string; gf_kind : string; gf_field : string; gf_operator : string;
  gf_value_types : list string; gf_expressions : list aggregateShapeFilter;
}.

Record aggregateShapeSignature := {
  gs_mode : string; gs_schema : string; gs_object : string; gs_projection : list aggregateShapeProjection;
  gs_filter : option aggregateShapeFilter; gs_order_by : list aggregateShapeOrder;
}.

Section SignatureInd.
Context (P : aggregateShapeFilter -> Prop).
Context (H : forall r k f o vs es, Forall P es -> P (MkSignature r k f o vs es)).

Fixpoint signature_ind' (f : aggregateShapeFilter) : P f :=
  match f with
  | MkSignature r k fl o vs es =>
      H r k fl o vs es ((fix go l := match l return Forall P l with
                         | [] => Forall_nil_2 P
                         | x :: l' => Forall_cons_2 P x l' (signature_ind' x) (go l')
                         end) es)
  end.
End SignatureInd.

(** *** What [json.Marshal] prints of a signature *)

Definition projection_json (p : aggregateShapeProjection) : json :=
  JObj (omit_empty "representation" (gp_representation p) ++ [("kind", JStr (gp_kind p))] ++
        omit_empty "field" (gp_field p) ++ omit_empty "function" (gp_function p) ++ omit_empty "alias" (gp_alias p) ++
        omit_empty "unit" (gp_unit p) ++ omit_empty "timezone" (gp_timezone p))%list.

Definition order_json (o : aggregateShapeOrder) : json :=
  JObj (omit_empty "representation" (go_representation o) ++ [("kind", JStr (go_kind o))] ++
        omit_empty "field" (go_field o) ++ omit_empty "alias" (go_alias o) ++ [("direction", JStr (go_direction o))])%list.

Fixpoint filter_json (f : aggregateShapeFilter) : json :=
  JObj (omit_empty "representation" (gf_representation f) ++ [("kind", JStr (gf_kind f))] ++
        omit_empty "field" (gf_field f) ++ [("operator", JStr (gf_operator f))] ++
        omit_list "value_types" (map JStr (gf_value_types f)) ++
        omit_list "expressions" (map filter_json (gf_expressions f)))%list.

Definition signature_json (s : aggregateShapeSignature) : json :=
  JObj ([("mode", JStr (gs_mode s)); ("schema", JStr (gs_schema s)); ("object", JStr (gs_object s));
         ("projection", JArr (map projection_json (gs_projection s)))] ++
        match gs_filter s with None => [] | Some f => [("filter", filter_json f)] end ++
        omit_list "order_by" (map order_json (gs_order_by s)))%list.

(** ** The request's signature *)

Fixpoint queryAggregateShapeFilter (filter : Filter) : aggregateShapeFilter :=
  MkSignature (f_representation filter) (f_kind filter) (f_field filter) (f_operator filter)
    (if String.eqb (f_kind filter) "predicate" then map tv_type (values_of filter) else [])
    (if String.eqb (f_kind filter) "predicate" then [] else map queryAggregateShapeFilter (f_expressions filter)).

Definition aggregateQuerySignature (spec : NormalizedAggregateSpec) : aggregateShapeSignature := {|
  gs_mode := a_mode spec; gs_schema := r_schema (a_source spec); gs_object := r_name (a_source spec);
  gs_projection := map (fun o => {| gp_representation := ao_representation o; gp_kind := ao_kind o; gp_field := ao_field o;
    gp_function := ao_function o; gp_alias := ao_alias o; gp_unit := ao_unit o; gp_timezone := ao_timezone o |}) (a_projection spec);
  gs_filter := queryAggregateShapeFilter <$> a_filter spec;
  gs_order_by := map (fun o => {| go_representation := as_representation o; go_kind := as_kind o; go_field := as_field o;
    go_alias := as_alias o; go_direction := as_direction o |}) (a_order_by spec) |}.

(** ** The shape's signature *)

Definition typed_only (valueType : string) : TypedValue := {| tv_type := valueType; tv_value := None |}.

Fixpoint aggregateShapeFilterQuerySpec (filter : aggregateShapeFilter) : Filter :=
  MkFilter (gf_representation filter) (gf_kind filter) (gf_field filter) (gf_operator filter)
    (Some (map typed_only (gf_value_types filter))) (map aggregateShapeFilterQuerySpec (gf_expressions filter)).

Section Shapes.
Context (sha256 : string -> string).

Definition aggregateShapeFilterKey (filter : aggregateShapeFilter) : string :=
  AggregateFilterShapeDigest sha256
    (if String.eqb (gf_kind filter) "predicate" then
       MkFilter (gf_representation filter) (gf_kind filter) (gf_field filter) (gf_operator filter)
         (Some (map typed_only (gf_value_types filter))) []
     else
       MkFilter (gf_representation filter) (gf_kind filter) (gf_field filter) (gf_operator filter) None
         (map aggregateShapeFilterQuerySpec (gf_expressions filter))).

(** [sortAggregateShapeFilters]: the filters with their keys, in the order of the keys. *)
Definition sortAggregateShapeFilters (filters : list aggregateShapeFilter) : list (aggregateShapeFilter * string) :=
  sort_func (fun a b => bytes_le a.2 b.2) (map (fun f => (f, aggregateShapeFilterKey f)) filters).

Fixpoint adjacent_equal (keys : list string) : bool :=
  match keys with
  | a :: ((b :: _) as keys') => String.eqb a b || adjacent_equal keys'
  | _ => false
  end.

Section OptionMap.
Context {A B : Type} (f : A -> option B).
Fixpoint options (l : list A) : option (list B) :=
  match l with
  | [] => Some []
  | x :: l' => y ← f x; ys ← options l'; Some (y :: ys)
  end.
End OptionMap.

(** [None] is the result [false]. *)
Fixpoint configuredAggregateShapeFilter (caseInsensitiveFields : bool) (filter : ShapeFilter) : option aggregateShapeFilter :=
  let field := canonicalPolicyIdentifier (sf_field filter) caseInsensitiveFields in
  if String.eqb (sf_kind filter) "predicate" then
    valueTypes ← sf_value_types filter;
    Some (MkSignature (sf_representation filter) (sf_kind filter) field (sf_operator filter) valueTypes [])
  else
    expressions ← options (configuredAggregateShapeFilter caseInsensitiveFields) (sf_expressions filter);
    let sorted := sortAggregateShapeFilters expressions in
    if adjacent_equal (map snd sorted) then None
    else Some (MkSignature (sf_representation filter) (sf_kind filter) field (sf_operator filter) [] (map fst sorted)).

Definition configuredAggregateShapeSignature (shape : AggregateShape) (m : IdentifierSemantics) : option aggregateShapeSignature :=
  filter ← match sh_filter shape with
           | None => Some None
           | Some f => Some <$> configuredAggregateShapeFilter (CaseInsensitiveFields m) f
           end;
  Some {|
    gs_mode := sh_mode shape;
    gs_schema := canonicalPolicyIdentifier (r_schema (sh_source shape)) (CaseInsensitiveSchemas m);
    gs_object := canonicalPolicyIdentifier (r_name (sh_source shape)) (CaseInsensitiveObjects m);
    gs_projection := map (fun o => {| gp_representation := so_representation o; gp_kind := so_kind o;
      gp_field := canonicalPolicyIdentifier (so_field o) (CaseInsensitiveFields m); gp_function := so_function o;
      gp_alias := canonicalPolicyIdentifier (so_alias o) true; gp_unit := so_unit o; gp_timezone := so_timezone o |})
      (sh_projection shape);
    gs_filter := filter;
    gs_order_by := map (fun o => {| go_representation := sd_representation o; go_kind := sd_kind o;
      go_field := canonicalPolicyIdentifier (sd_field o) (CaseInsensitiveFields m);
      go_alias := canonicalPolicyIdentifier (sd_alias o) true; go_direction := sd_direction o |})
      (default [] (sh_order_by shape)) |}.

(** One turn of the loop over the shapes: [Err] is the early return on a second match. *)
Definition shape_matches (spec : NormalizedAggregateSpec) (m : IdentifierSemantics) (shape : AggregateShape) : bool :=
  if String.eqb (a_mode spec) AggregateModeGrouped && (sh_maximum_limit shape <? a_limit spec) then false
  else
    match configuredAggregateShapeSignature shape m with
    | None => false
    | Some signature =>
        String.eqb (marshal (signature_json signature)) (marshal (signature_json (aggregateQuerySignature spec)))
    end.

Fixpoint match_shapes (shapes : list AggregateShape) (spec : NormalizedAggregateSpec) (m : IdentifierSemantics)
    (matched : option AggregateShape) : option AggregateShape :=
  match shapes with
  | [] => matched
  | shape :: shapes' =>
      if shape_matches spec m shape then
        match matched with
        | Some _ => None
        | None => match_shapes shapes' spec m (Some shape)
        end
      else match_shapes shapes' spec m matched
  end.

Definition matchAggregateShape (shapes : list AggregateShape) (spec : NormalizedAggregateSpec) (m : IdentifierSemantics)
  : option AggregateShape := match_shapes shapes spec m None.

(** ** AuthorizeAggregate *)

Record AuthorizedAggregate := {
  aa_numericBoundaries : gmap string (list string); aa_parameterCount : Z;
  aa_principal : string; aa_profile : string; aa_datasource : string; aa_operation : string; aa_limits : Limits;
  aa_query : ValidatedAggregate; aa_requiredIndex : string; aa_maximumRowsExaminedPerScan : Z; aa_shapeName : string;
  aa_allowTemporaryTable : bool; aa_allowFilesort : bool;
}.

Definition aggregate_limits_of (l : Limits) : aggregate_limits := {|
  al_projection := MaxProjectionFields l; al_group_by := MaxGroupByFields l; al_order_by := MaxOrderByFields l;
  al_predicates := MaxPredicates l; al_depth := MaxExpressionDepth l; al_parameters := MaxParameters l; al_rows := MaxRows l |}.

Definition shape_buckets (shape : AggregateShape) : list AggregateShapeOutput :=
  List.filter (fun output => String.eqb (so_kind output) "numeric_bucket") (sh_projection shape).

Definition bucket_counts (shape : AggregateShape) : gmap string Z :=
  fold_left (fun counts output => <[to_lower (so_alias output) := len (so_boundaries output)]> counts) (shape_buckets shape) ∅.

Definition boundaries_step (output : AggregateShapeOutput) (boundaries : gmap string (list string))
  : result (gmap string (list string)) :=
  match NormalizeNumericBoundaries (so_boundaries output) with
  | Err _ => Err (ErrorString "invalid numeric bucket policy")
  | Ok canonical => Ok (<[to_lower (so_alias output) := canonical]> boundaries)
  end.

Definition bucket_boundaries (shape : AggregateShape) : result (gmap string (list string)) :=
  iter (fun _ => boundaries_step) (shape_buckets shape) ∅.

Definition is_none {A} (o : option A) : bool := match o with None => true | Some _ => false end.

Definition AuthorizeAggregate (s : Snapshot) (binding : AuthorizedBinding) (query : ValidatedAggregate) (m : IdentifierSemantics)
  : result AuthorizedAggregate :=
  match profileForBinding s binding OperationAggregate with
  | Err _ => Err (denied ReasonDeniedOperation)
  | Ok profile =>
      let effectiveLimits := Limits_Min (sn_hardLimits s) (pf_limits profile) in
      let? revalidated := RevalidateAggregate query (aggregate_limits_of effectiveLimits) in
      let? normalized := NormalizeAggregateIdentifiers sha256 revalidated m in
      let spec := va_spec normalized in
      check? authorize_resource (pf_resources profile) (a_source spec) m then
      check? authorize_fields (pf_resources profile) (a_source spec) (AggregateReferencedFields spec) m then
      check? authorizeAggregateFeatures (pf_query profile) spec then
      match matchAggregateShape (AggregateShapes (pf_query profile)) spec m with
      | None => Err (denied ReasonDeniedQueryFeature)
      | Some shape =>
          if? (AggregateUsesTimeBucket spec || AggregateUsesNumericBucket spec) &&
              (is_none (sh_allow_temporary_table shape) || is_none (sh_allow_filesort shape))
          return ErrorString "aggregate bucket execution controls are missing" then
          let counts := bucket_counts shape in
          let? parameterCount :=
            NumericBucketParameters spec (fun alias => default 0 (counts !! alias)) (Parameters (va_stats normalized))
              (MaxParameters effectiveLimits) in
          let? boundaries := bucket_boundaries shape in
          Ok {| aa_numericBoundaries := boundaries; aa_parameterCount := parameterCount;
                aa_principal := ab_principal binding; aa_profile := k_profile (ab_key binding);
                aa_datasource := k_datasource (ab_key binding); aa_operation := OperationAggregate;
                aa_limits := effectiveLimits; aa_query := normalized; aa_requiredIndex := sh_required_index shape;
                aa_maximumRowsExaminedPerScan := sh_maximum_rows shape; aa_shapeName := sh_name shape;
                aa_allowTemporaryTable := default false (sh_allow_temporary_table shape);
                aa_allowFilesort := default false (sh_allow_filesort shape) |}
      end
  end.
End Shapes.

(** ** The signature is read back from its JSON *)

Fixpoint member (k : string) (l : list (string * json)) : option json :=
  match l with [] => None | (k', v) :: l' => if String.eqb k' k then Some v else member k l' end.
Definition text_member (k : string) (j : json) : string :=
  match j with JObj l => match member k l with Some (JStr s) => s | _ => EmptyString end | _ => EmptyString end.
Definition list_member (k : string) (j : json) : list json :=
  match j with JObj l => match member k l with Some (JArr l) => l | _ => [] end | _ => [] end.

Lemma member_app k l l' : member k (l ++ l')%list = match member k l with Some v => Some v | None => member k l' end.
Proof. induction l as [|[k' v] l IH]; [done|]. cbn. by destruct (String.eqb k' k). Qed.

Lemma member_omit_empty k k' v : member k (omit_empty k' v) =
  if String.eqb k' k then (if String.eqb v EmptyString then None else Some (JStr v)) else None.
Proof. unfold omit_empty. destruct (String.eqb v EmptyString); cbn; by destruct (String.eqb k' k). Qed.

Lemma member_omit_list k k' v : member k (omit_list k' v) =
  if String.eqb k' k then (match v with [] => None | _ => Some (JArr v) end) else None.
Proof. unfold omit_list. destruct v; cbn; by destruct (String.eqb k' k). Qed.

(** Reads one field of the JSON of a record. *)
Ltac read_member :=
  unfold text_member, list_member; rewrite ?member_app, ?member_omit_empty, ?member_omit_list; cbn [member String.eqb Ascii.eqb Bool.eqb];
  repeat match goal with |- context [String.eqb ?v EmptyString] => destruct (String.eqb_spec v EmptyString) as [->|] end; try done.

(** Equal documents have equal members. *)
Ltac same_text k H := let E := fresh in pose proof (f_equal (text_member k) H) as E; revert E.

Lemma projection_json_inj p p' : projection_json p = projection_json p' -> p = p'.
Proof.
  intros H.
  assert (R : forall q, text_member "representation" (projection_json q) = gp_representation q /\
    text_member "kind" (projection_json q) = gp_kind q /\ text_member "field" (projection_json q) = gp_field q /\
    text_member "function" (projection_json q) = gp_function q /\ text_member "alias" (projection_json q) = gp_alias q /\
    text_member "unit" (projection_json q) = gp_unit q /\ text_member "timezone" (projection_json q) = gp_timezone q).
  { intros [r k f fn a u t]. unfold projection_json. cbn [gp_representation gp_kind gp_field gp_function gp_alias gp_unit gp_timezone].
    split_and!; read_member. }
  pose proof (R p) as Hp. pose proof (R p') as Hp'. rewrite H in Hp. clear H R. destruct p, p'. cbn in *. destruct_and!. congruence.
Qed.

Lemma order_json_inj p p' : order_json p = order_json p' -> p = p'.
Proof.
  intros H.
  assert (R : forall q, text_member "representation" (order_json q) = go_representation q /\
    text_member "kind" (order_json q) = go_kind q /\ text_member "field" (order_json q) = go_field q /\
    text_member "alias" (order_json q) = go_alias q /\ text_member "direction" (order_json q) = go_direction q).
  { intros [r k f a d]. unfold order_json. cbn [go_representation go_kind go_field go_alias go_direction]. split_and!; read_member. }
  pose proof (R p) as Hp. pose proof (R p') as Hp'. rewrite H in Hp. clear H R. destruct p, p'. cbn in *. destruct_and!. congruence.
Qed.

Lemma map_inj {A B} (f : A -> B) l : forall k, Forall (fun x => forall y, f x = f y -> x = y) l -> map f l = map f k -> l = k.
Proof.
  induction l as [|x l IH]; intros [|y k] Hl H; try done. inversion Hl as [|? ? Hx Hl']; subst. cbn in H.
  injection H as H1 H2. f_equal; [by apply Hx|by apply IH].
Qed.

Lemma map_JStr_inj l k : map JStr l = map JStr k -> l = k.
Proof. apply map_inj. apply Forall_true. intros x y H. by injection H. Qed.

Lemma filter_json_inj f : forall f', filter_json f = filter_json f' -> f = f'.
Proof.
  induction f as [r k fl o vs es IH] using signature_ind'. intros f' H.
  assert (R : forall q, text_member "representation" (filter_json q) = gf_representation q /\
    text_member "kind" (filter_json q) = gf_kind q /\ text_member "field" (filter_json q) = gf_field q /\
    text_member "operator" (filter_json q) = gf_operator q /\
    list_member "value_types" (filter_json q) = map JStr (gf_value_types q) /\
    list_member "expressions" (filter_json q) = map filter_json (gf_expressions q)).
  { intros [r1 k1 f1 o1 v1 e1]. cbn [filter_json gf_representation gf_kind gf_field gf_operator gf_value_types gf_expressions].
    split_and!; read_member; by destruct v1, e1. }
  pose proof (R (MkSignature r k fl o vs es)) as Hp. pose proof (R f') as Hp'. rewrite H in Hp. clear H R.
  destruct f' as [r' k' fl' o' vs' es']. cbn [gf_representation gf_kind gf_field gf_operator gf_value_types gf_expressions] in *.
  destruct Hp as (P1 & P2 & P3 & P4 & P5 & P6). destruct Hp' as (Q1 & Q2 & Q3 & Q4 & Q5 & Q6).
  apply (eq_trans (eq_sym P1)) in Q1. apply (eq_trans (eq_sym P2)) in Q2. apply (eq_trans (eq_sym P3)) in Q3.
  apply (eq_trans (eq_sym P4)) in Q4. apply (eq_trans (eq_sym P5)) in Q5. apply (eq_trans (eq_sym P6)) in Q6.
  clear P1 P2 P3 P4 P5 P6.
  apply map_JStr_inj in Q5. apply map_inj in Q6; [|exact IH]. by subst.
Qed.

Lemma signature_json_inj s s' : signature_json s = signature_json s' -> s = s'.
Proof.
  intros H.
  assert (R : forall q, text_member "mode" (signature_json q) = gs_mode q /\ text_member "schema" (signature_json q) = gs_schema q /\
    text_member "object" (signature_json q) = gs_object q /\
    list_member "projection" (signature_json q) = map projection_json (gs_projection q) /\
    list_member "order_by" (signature_json q) = map order_json (gs_order_by q) /\
    match signature_json q with JObj l => member "filter" l | _ => None end = filter_json <$> gs_filter q).
  { intros [mo sc ob pr fi orr]. unfold signature_json. cbn [gs_mode gs_schema gs_object gs_projection gs_filter gs_order_by].
    destruct fi; split_and!; read_member; by destruct orr. }
  pose proof (R s) as Hp. pose proof (R s') as Hp'. rewrite H in Hp. clear H R.
  destruct s as [mo sc ob pr fi orr], s' as [mo' sc' ob' pr' fi' orr'].
  cbn [gs_mode gs_schema gs_object gs_projection gs_filter gs_order_by] in *.
  destruct Hp as (P1 & P2 & P3 & P4 & P5 & P6). destruct Hp' as (Q1 & Q2 & Q3 & Q4 & Q5 & Q6).
  apply (eq_trans (eq_sym P1)) in Q1. apply (eq_trans (eq_sym P2)) in Q2. apply (eq_trans (eq_sym P3)) in Q3.
  apply (eq_trans (eq_sym P4)) in Q4. apply (eq_trans (eq_sym P5)) in Q5. apply (eq_trans (eq_sym P6)) in Q6.
  clear P1 P2 P3 P4 P5 P6.
  apply map_inj in Q4; [|apply Forall_true; apply projection_json_inj].
  apply map_inj in Q5; [|apply Forall_true; apply order_json_inj].
  assert (fi = fi') as ->. { destruct fi, fi'; try done. cbn in Q6. injection Q6 as Q6. by rewrite (filter_json_inj _ _ Q6). }
  by subst.
Qed.

(** ** Text of the signatures *)

Lemma json_text_app l k : json_text (JObj (l ++ k)%list) = json_text (JObj l) && json_text (JObj k).
Proof. cbn [json_text]. apply forallb_app. Qed.

Lemma json_text_omit_empty k v : json_text (JObj (omit_empty k v)) = true.
Proof. unfold omit_empty. by destruct (String.eqb v EmptyString). Qed.

Lemma json_text_omit_list k l : Forall (fun j => json_text j = true) l -> json_text (JObj (omit_list k l)) = true.
Proof.
  intros H. unfold omit_list. destruct l as [|j l]; [done|].
  change (forallb json_text (j :: l) && true = true). rewrite andb_true_r. by apply forallb_forall, List.Forall_forall.
Qed.

Lemma projection_json_text p : json_text (projection_json p) = true.
Proof. unfold projection_json. by rewrite !json_text_app, !json_text_omit_empty. Qed.

Lemma order_json_text p : json_text (order_json p) = true.
Proof. unfold order_json. by rewrite !json_text_app, !json_text_omit_empty. Qed.

Lemma filter_json_text f : json_text (filter_json f) = true.
Proof.
  induction f as [r k fl o vs es IH] using signature_ind'.
  cbn [filter_json gf_representation gf_kind gf_field gf_operator gf_value_types gf_expressions].
  rewrite !json_text_app, !json_text_omit_empty, !json_text_omit_list; [done| |].
  - by apply Forall_map.
  - apply Forall_map, Forall_true. done.
Qed.

Lemma signature_json_text s : json_text (signature_json s) = true.
Proof.
  unfold signature_json. rewrite !json_text_app, json_text_omit_list by (apply Forall_map, Forall_true; apply order_json_text).
  assert (Hp : forallb json_text (map projection_json (gs_projection s)) = true).
  { apply forallb_forall, List.Forall_forall, Forall_map, Forall_true. apply projection_json_text. }
  rewrite andb_true_r, andb_true_iff. split; [cbn [json_text forallb]; by rewrite Hp|].
  destruct (gs_filter s); [|done]. cbn [json_text forallb]. by rewrite filter_json_text.
Qed.

(** *** ASCII *)

Lemma json_ascii_app l k : json_ascii (JObj (l ++ k)%list) = json_ascii (JObj l) && json_ascii (JObj k).
Proof. cbn [json_ascii]. apply forallb_app. Qed.

Lemma json_ascii_member k v : ascii_string k = true -> json_ascii v = true -> json_ascii (JObj [(k, v)]) = true.
Proof. intros Hk Hv. cbn [json_ascii forallb]. by rewrite Hk, Hv. Qed.

Lemma json_ascii_omit_empty k v : ascii_string k = true -> ascii_string v = true -> json_ascii (JObj (omit_empty k v)) = true.
Proof. intros Hk Hv. unfold omit_empty. destruct (String.eqb v EmptyString); [done|]. by apply json_ascii_member. Qed.

Lemma json_ascii_omit_list k l : ascii_string k = true -> Forall (fun j => json_ascii j = true) l -> json_ascii (JObj (omit_list k l)) = true.
Proof.
  intros Hk H. unfold omit_list. destruct l as [|j l]; [done|]. apply json_ascii_member; [done|].
  apply forallb_forall. by apply List.Forall_forall.
Qed.

(** An object is ASCII when its members are. *)
Ltac ascii_members :=
  rewrite ?json_ascii_app, ?andb_true_iff; split_and?;
  repeat first [apply json_ascii_member | apply json_ascii_omit_empty | apply json_ascii_omit_list]; try reflexivity; try done.

Lemma one_of_ascii l x : forallb ascii_string l = true -> In x l -> ascii_string x = true.
Proof. rewrite forallb_forall. auto. Qed.

Lemma representation_ascii r : representation_ok r -> ascii_string r = true.
Proof. by intros [-> | ->]. Qed.

Lemma value_type_ascii r v : value_ok r v -> ascii_string (tv_type v) = true.
Proof. intros (_ & b & raw & _ & _ & Hb). by destruct Hb. Qed.

Lemma arity_ascii op n : arity op n -> ascii_string op = true.
Proof. intros [[H _]|[[H _]|[H _]]]; by eapply one_of_ascii in H. Qed.

Lemma query_filter_ascii f : filter_ok f -> json_ascii (filter_json (queryAggregateShapeFilter f)) = true.
Proof.
  induction f as [r k fl o vs es IH] using Filter_ind'. intros Hf. inversion Hf as [r' fl' o' vs' Hr Hi Hl Ha Hv|o' es' Ho Hl He]; subst;
    cbn [queryAggregateShapeFilter f_kind f_representation f_field f_operator f_expressions values_of f_values default];
    cbn [String.eqb Ascii.eqb Bool.eqb]; cbn [filter_json gf_representation gf_kind gf_field gf_operator gf_value_types gf_expressions].
  - ascii_members; [by apply representation_ascii|by apply identifier_ascii|by eapply arity_ascii|].
    rewrite map_map. apply Forall_map. eapply List.Forall_impl; [|exact Hv]. intros v. apply value_type_ascii.
  - ascii_members; [by eapply one_of_ascii in Ho|]. rewrite map_map. apply Forall_map.
    clear -IH He. induction He as [|x l Hx _ IHl]; inversion IH; constructor; auto.
Qed.

Lemma output_ascii mode o : output_ok mode o ->
  Forall (fun s => ascii_string s = true)
    [ao_representation o; ao_kind o; ao_field o; ao_function o; ao_alias o; ao_unit o; ao_timezone o].
Proof.
  intros (Hr & H). apply representation_ascii in Hr. repeat constructor; try done;
    destruct H as [H|[H|[H|H]]]; destruct_and!;
    repeat match goal with
    | H : ?x = _ |- ascii_string ?x = true => rewrite H; reflexivity
    | H : is_identifier ?x = true |- ascii_string ?x = true => exact (identifier_ascii x H)
    | H : In ?x _ |- ascii_string ?x = true => by eapply one_of_ascii in H
    | H : _ \/ _ |- _ => destruct H; destruct_and!
    end.
Qed.

Lemma order_ascii o : order_ok o ->
  Forall (fun s => ascii_string s = true) [as_representation o; as_kind o; as_field o; as_alias o; as_direction o].
Proof.
  intros (Hr & Hd & H). apply representation_ascii in Hr. repeat constructor; try done;
    repeat match goal with
    | H : ?x = _ |- ascii_string ?x = true => rewrite H; reflexivity
    | H : is_identifier ?x = true |- ascii_string ?x = true => exact (identifier_ascii x H)
    | H : In ?x _ |- ascii_string ?x = true => by eapply one_of_ascii in H
    | H : _ \/ _ |- _ => destruct H; destruct_and?
    end.
Qed.

(** The parts of an accepted and normalized aggregate that its signature prints. *)
Record signature_ok (spec : NormalizedAggregateSpec) : Prop := {
  sg_mode : a_mode spec = AggregateModeScalar \/ a_mode spec = AggregateModeGrouped;
  sg_schema : is_identifier (r_schema (a_source spec)) = true;
  sg_object : is_identifier (r_name (a_source spec)) = true;
  sg_outputs : Forall (output_ok (a_mode spec)) (a_projection spec);
  sg_filter : from_option filter_ok True (a_filter spec);
  sg_orders : Forall order_ok (a_order_by spec);
}.

Lemma query_signature_ascii spec : signature_ok spec -> json_ascii (signature_json (aggregateQuerySignature spec)) = true.
Proof.
  intros [Hm Hs Hn Ho Hf Hr]. unfold signature_json, aggregateQuerySignature.
  cbn [gs_mode gs_schema gs_object gs_projection gs_filter gs_order_by].
  rewrite !json_ascii_app, !andb_true_iff. split_and!.
  - cbn [json_ascii forallb]. rewrite (identifier_ascii _ Hs), (identifier_ascii _ Hn).
    replace (ascii_string (a_mode spec)) with true by (by destruct Hm as [-> | ->]).
    rewrite !andb_true_iff. split_and!; try done. rewrite map_map. apply forallb_forall, List.Forall_forall, Forall_map.
    eapply List.Forall_impl; [|exact Ho]. intros o H%output_ascii. rewrite !Forall_cons in H. destruct_and!.
    unfold projection_json. cbn [gp_representation gp_kind gp_field gp_function gp_alias gp_unit gp_timezone]. by ascii_members.
  - destruct (a_filter spec) as [f|]; [|done]. cbn [fmap option_fmap option_map]. apply json_ascii_member; [done|].
    by apply query_filter_ascii.
  - ascii_members. rewrite map_map. apply Forall_map. eapply List.Forall_impl; [|exact Hr]. intros o H%order_ascii.
    rewrite !Forall_cons in H. destruct_and!.
    unfold order_json. cbn [go_representation go_kind go_field go_alias go_direction]. by ascii_members.
Qed.

(** ** What a reviewed shape describes *)

(** A filter that a reviewed filter describes: the same tree of predicates, up to
    the letter case of fields and the order of the members of a group, with the
    same operators and, one by one, the types of the values; the values are free. *)
Inductive reviewed_filter (ci : bool) : Filter -> ShapeFilter -> Prop :=
| reviewed_predicate r f f' o vs es types es' :
    f = canonicalIdentifier f' ci -> types = map tv_type (default [] vs) ->
    reviewed_filter ci (MkFilter r "predicate" f o vs es) (MkShapeFilter r "predicate" f' o (Some types) es')
| reviewed_group r k f f' o vs types es es1 es' :
    k <> "predicate" -> f = canonicalIdentifier f' ci -> Permutation es es1 -> Forall2 (reviewed_filter ci) es1 es' ->
    reviewed_filter ci (MkFilter r k f o vs es) (MkShapeFilter r k f' o types es').

Definition reviewed_output (m : IdentifierSemantics) (o : AggregateOutput) (s : AggregateShapeOutput) : Prop :=
  ao_representation o = so_representation s /\ ao_kind o = so_kind s /\
  ao_field o = canonicalIdentifier (so_field s) (CaseInsensitiveFields m) /\ ao_function o = so_function s /\
  ao_alias o = to_lower (so_alias s) /\ ao_unit o = so_unit s /\ ao_timezone o = so_timezone s.

Definition reviewed_order (m : IdentifierSemantics) (o : AggregateSort) (s : AggregateShapeOrder) : Prop :=
  as_representation o = sd_representation s /\ as_kind o = sd_kind s /\
  as_field o = canonicalIdentifier (sd_field s) (CaseInsensitiveFields m) /\ as_alias o = to_lower (sd_alias s) /\
  as_direction o = sd_direction s.

Record reviewed (m : IdentifierSemantics) (spec : NormalizedAggregateSpec) (shape : AggregateShape) : Prop := {
  rv_mode : a_mode spec = sh_mode shape;
  rv_schema : r_schema (a_source spec) = canonicalIdentifier (r_schema (sh_source shape)) (CaseInsensitiveSchemas m);
  rv_object : r_name (a_source spec) = canonicalIdentifier (r_name (sh_source shape)) (CaseInsensitiveObjects m);
  rv_projection : Forall2 (reviewed_output m) (a_projection spec) (sh_projection shape);
  rv_filter : option_Forall2 (reviewed_filter (CaseInsensitiveFields m)) (a_filter spec) (sh_filter shape);
  rv_orders : Forall2 (reviewed_order m) (a_order_by spec) (default [] (sh_order_by shape));
  rv_limit : a_mode spec = AggregateModeGrouped -> a_limit spec <= sh_maximum_limit shape;
}.

Lemma options_iff {A B} (f : A -> option B) l ys : options f l = Some ys <-> Forall2 (fun x y => f x = Some y) l ys.
Proof.
  revert ys. induction l as [|x l IH]; intros ys; cbn [options].
  - split; [intros [= <-]; constructor|]. by inversion 1.
  - split.
    + intros H. destruct (f x) as [y|] eqn:E; [|done]. cbn in H. destruct (options f l) as [zs|] eqn:E'; [|done].
      injection H as <-. constructor; [done|]. by apply IH.
    + intros H. inversion H as [|? y ? zs Hy Hz]; subst. rewrite Hy. cbn. apply IH in Hz. by rewrite Hz.
Qed.

Lemma sorted_filters_perm sha256 l : map fst (sortAggregateShapeFilters sha256 l) ≡ₚ l.
Proof.
  unfold sortAggregateShapeFilters. rewrite sort_func_perm, map_map. cbn [fst]. by rewrite map_id.
Qed.

Lemma perm_map_align {A B} (f : A -> B) l ys : map f l ≡ₚ ys -> exists l', l ≡ₚ l' /\ map f l' = ys.
Proof.
  intros H. symmetry in H. destruct (Permutation_map_inv _ _ H) as (l' & -> & Hp). by exists l'.
Qed.

Lemma configured_filter_reviewed sha256 ci sf : forall sig f,
  configuredAggregateShapeFilter sha256 ci sf = Some sig -> queryAggregateShapeFilter f = sig -> reviewed_filter ci f sf.
Proof.
  induction sf as [r k fl o vs es IH] using ShapeFilter_ind'. intros sig [r' k' fl' o' vs' es'] Hc Hq.
  cbn [configuredAggregateShapeFilter sf_field sf_kind sf_value_types sf_representation sf_operator sf_expressions] in Hc.
  cbn [queryAggregateShapeFilter f_kind f_representation f_field f_operator f_expressions values_of f_values] in Hq.
  destruct (String.eqb_spec k "predicate") as [->|Hk].
  - destruct vs as [vs|]; [|done]. cbn in Hc. rewrite <- Hq in Hc. clear Hq. injection Hc as <- <- <- <- Hv _.
    cbn in Hv. by constructor.
  - destruct (options _ es) as [ys|] eqn:Hy; [|done]. cbn [mbind option_bind] in Hc.
    destruct (adjacent_equal _); [done|]. rewrite <- Hq in Hc. clear Hq. injection Hc as <- <- <- <- _ He.
    rewrite (proj2 (String.eqb_neq k "predicate") Hk) in He. apply options_iff in Hy.
    assert (Hp : map queryAggregateShapeFilter es' ≡ₚ ys) by (rewrite <- He; apply sorted_filters_perm).
    destruct (perm_map_align _ _ _ Hp) as (es1 & Hperm & <-). eapply reviewed_group; [done|done|exact Hperm|].
    clear -IH Hy. revert es1 Hy. induction IH as [|x l Hx _ IHl]; intros [|e es1] Hy; inversion Hy as [|? ? ? ? H1 H2]; subst; constructor; eauto.
Qed.

Lemma map_Forall2 {A B C} (f : A -> C) (g : B -> C) (R : A -> B -> Prop) : (forall a b, f a = g b -> R a b) ->
  forall l k, map f l = map g k -> Forall2 R l k.
Proof. intros HR. induction l as [|a l IH]; intros [|b k] H; try done; cbn in H; injection H as H1 H2; constructor; auto. Qed.

Lemma shape_matches_reviewed sha256 spec m shape : signature_ok spec ->
  shape_matches sha256 spec m shape = true -> reviewed m spec shape.
Proof.
  intros Hok. unfold shape_matches. destruct (String.eqb (a_mode spec) AggregateModeGrouped && _) eqn:Hl; [done|].
  unfold configuredAggregateShapeSignature.
  destruct (match sh_filter shape with None => Some None | Some f => _ end) as [filter|] eqn:Hf; [|done].
  cbn [mbind option_bind]. intros Hm%String.eqb_eq.
  apply marshal_inj_text in Hm; [|apply signature_json_text|by apply query_signature_ascii].
  apply signature_json_inj in Hm. unfold aggregateQuerySignature in Hm. injection Hm as H1 H2 H3 H4 H5 H6.
  constructor; try (by symmetry).
  - symmetry in H4. revert H4. apply map_Forall2. intros o s. unfold reviewed_output. by intros [= -> -> -> -> -> -> ->].
  - destruct (a_filter spec) as [f|], (sh_filter shape) as [sf|]; cbn in Hf, H5; subst filter; try done.
    + constructor. destruct (configuredAggregateShapeFilter _ _ sf) as [sig|] eqn:E; [|done]. cbn in Hf. injection Hf as Hf.
      by eapply configured_filter_reviewed.
    + by destruct (configuredAggregateShapeFilter _ _ sf).
    + constructor.
  - symmetry in H6. revert H6. apply map_Forall2. intros o s. unfold reviewed_order. by intros [= -> -> -> -> ->].
  - intros E. rewrite E in Hl. change (String.eqb AggregateModeGrouped AggregateModeGrouped) with true in Hl.
    cbn [andb] in Hl. by apply Z.ltb_ge in Hl.
Qed.

Lemma match_shapes_iff sha256 shapes spec m : forall matched shape,
  match_shapes sha256 shapes spec m matched = Some shape <->
  match matched with
  | Some s => s = shape /\ List.filter (shape_matches sha256 spec m) shapes = []
  | None => List.filter (shape_matches sha256 spec m) shapes = [shape]
  end.
Proof.
  induction shapes as [|s shapes IH]; intros matched shape; cbn [match_shapes List.filter].
  - destruct matched; [|done]. split; [by intros [= ->]|by intros [-> _]].
  - destruct (shape_matches sha256 spec m s).
    + destruct matched; [split; [done|by intros [_ ?]]|]. rewrite IH. split; [by intros [-> ->]|by intros [= -> ->]].
    + apply IH.
Qed.

(** The fields that an aggregate mentions anywhere, and the features it needs. *)
Definition aggregate_mentions (spec : NormalizedAggregateSpec) (field : string) : Prop :=
  field <> EmptyString /\
  (In field (map ao_field (a_projection spec)) \/
   (exists f p, a_filter spec = Some f /\ filter_has f p /\ f_field p = field) \/
   In field (map as_field (a_order_by spec))).

Definition aggregate_features (policy : QueryPolicy) (spec : NormalizedAggregateSpec) : Prop :=
  (AggregateUsesSourceText spec = true -> AllowSourceText policy = true) /\
  (a_filter spec <> None -> AllowFiltering policy = true) /\
  (forall f p, a_filter spec = Some f -> filter_has f p -> In (f_operator p) (AllowedFilterOperators policy)) /\
  (a_mode spec = AggregateModeGrouped -> AllowGroupBy policy = true) /\
  (a_order_by spec <> [] -> AllowSorting policy = true) /\
  (forall o, In o (a_projection spec) -> ao_kind o = "measure" -> In (measure_function o) (AllowedAggregates policy)).

Record aggregate_permitted (profile : Profile) (m : IdentifierSemantics) (spec : NormalizedAggregateSpec) : Prop := {
  ap_schema : permits (Schemas (pf_resources profile)) [r_schema (a_source spec)] (schema_semantics m);
  ap_object : permits (Objects (pf_resources profile)) [r_schema (a_source spec); r_name (a_source spec)] (object_semantics m);
  ap_fields : forall field, aggregate_mentions spec field ->
    permits (Fields (pf_resources profile)) [r_schema (a_source spec); r_name (a_source spec); field] (field_semantics m);
  ap_features : aggregate_features (pf_query profile) spec;
}.

Lemma collectAggregateFilterFields_eq f : collectAggregateFilterFields f = collectFields f.
Proof.
  induction f as [r k fl o vs es IH] using Filter_ind'. cbn [collectAggregateFilterFields collectFields f_kind f_field f_expressions].
  destruct (String.eqb k "predicate"); [done|].
  induction IH as [|x l Hx _ IHl]; [done|]. cbn [flat_map]. by rewrite Hx, IHl.
Qed.

(** The fields of the order terms are projected ones. *)
Lemma AggregateReferencedFields_iff spec x : Forall (targets (a_projection spec)) (a_order_by spec) -> Forall order_ok (a_order_by spec) ->
  In x (AggregateReferencedFields spec) <-> aggregate_mentions spec x.
Proof.
  intros Ht Ho. unfold AggregateReferencedFields, aggregate_mentions. rewrite sorted_set_In, in_app_iff, filter_In.
  assert (Hf : In x (from_option collectAggregateFilterFields [] (a_filter spec)) <->
               exists f p, a_filter spec = Some f /\ filter_has f p /\ f_field p = x).
  { destruct (a_filter spec) as [f|]; cbn [from_option]; [rewrite collectAggregateFilterFields_eq, collectFields_spec|]; naive_solver. }
  assert (Hs : x <> EmptyString -> In x (map as_field (a_order_by spec)) -> In x (map ao_field (a_projection spec))).
  { intros Hx (o & <- & Hin)%in_map_iff. apply list_elem_of_In in Hin. rewrite Forall_forall in Ht, Ho.
    specialize (Ht o Hin). destruct (Ho o Hin) as (_ & _ & [(K & _ & _)|(_ & _ & E & _)]); [|done].
    unfold targets in Ht. rewrite K in Ht. destruct Ht as (q & Hq & _ & E & _). rewrite <- E. by apply in_map. }
  rewrite Hf. unfold nonempty. rewrite negb_true_iff, String.eqb_neq. naive_solver.
Qed.

Lemma authorizeAggregateFeatures_ok policy spec :
  authorizeAggregateFeatures policy spec = Ok tt <-> aggregate_features policy spec.
Proof.
  unfold authorizeAggregateFeatures, aggregate_features.
  rewrite if_err_ok, check_ok', !if_err_ok, authorize_operators_ok, !guarded, String.eqb_eq, each_const_ok, Forall_forall.
  rewrite negb_true_iff. setoid_rewrite guarded. setoid_rewrite contains_In. setoid_rewrite list_elem_of_In.
  unfold is_kind. setoid_rewrite String.eqb_eq.
  assert (Hl : (len (a_order_by spec) =? 0) = false <-> a_order_by spec <> []).
  { rewrite <- not_true_iff_false, len_zero. done. }
  rewrite Hl. naive_solver.
Qed.

Lemma normalized_signature_ok sha256 spec l v m w :
  ValidateAggregate spec l = Ok v -> NormalizeAggregateIdentifiers sha256 v m = Ok w ->
  signature_ok (va_spec w) /\ Forall (targets (a_projection (va_spec w))) (a_order_by (va_spec w)).
Proof.
  intros [Hok ->]%validateAggregate_iff (_ & f & _ & _ & Hf & Ht & _ & ->)%NormalizeAggregateIdentifiers_iff.
  cbn [va_spec aggregate_stored canonical_aggregate a_mode a_source a_projection a_filter a_order_by] in *.
  split; [|done]. destruct Hok. constructor; cbn [a_mode a_source a_projection a_filter a_order_by r_schema r_name va_spec]; try done.
  - by apply canonical_identifier_ok.
  - by apply canonical_identifier_ok.
  - apply List.Forall_map. eapply List.Forall_impl; [|exact ag_outputs]. intros o. apply canonical_output_ok.
  - unfold filter_normalizes in Hf. destruct (g_filter spec) as [g|]; [|by subst].
    destruct Hf as (e & He & ->). by apply (normal_filter_ok sha256 (CaseInsensitiveFields m) g).
  - apply List.Forall_map. eapply List.Forall_impl; [|exact ag_orders]. intros o. apply canonical_order_ok.
Qed.

(** A revalidated aggregate is the stored one. *)
Lemma revalidated_stored spec l q l' v :
  ValidateAggregate spec l = Ok q -> RevalidateAggregate q l' = Ok v -> v = q.
Proof.
  intros [Hok ->]%validateAggregate_iff Hv. apply RevalidateAggregate_ok in Hv as (_ & _ & _ & _ & _ & _ & _ & _ & ->).
  unfold aggregate_stored, cloneNormalizedAggregate. cbn [va_spec va_stats a_mode a_source a_projection a_filter a_order_by a_limit].
  by rewrite (cloneFilter_ok (g_filter spec)) by apply Hok.
Qed.

Lemma bucket_loop_iff (shapes : list AggregateShapeOutput) : forall i st st',
  iter_from (fun _ => boundaries_step) i shapes st = Ok st' ->
  forall a bs, st' !! a = Some bs -> st !! a = Some bs \/
    exists o, In o shapes /\ to_lower (so_alias o) = a /\ NormalizeNumericBoundaries (so_boundaries o) = Ok bs.
Proof.
  induction shapes as [|o shapes IH]; intros i st st' H a bs Ha; cbn [iter_from] in H; [injection H as <-; by left|].
  unfold boundaries_step at 1 in H.
  destruct (NormalizeNumericBoundaries (so_boundaries o)) as [c|] eqn:E; [|done]. cbn [rbind] in H.
  destruct (IH _ _ _ H a bs Ha) as [Hs|(q & Hq & H1 & H2)]; [|right; exists q; split_and!; simpl; auto].
  destruct (decide (to_lower (so_alias o) = a)) as [<-|Hne].
  - rewrite lookup_insert_eq in Hs. injection Hs as <-. right. exists o. split_and!; simpl; auto.
  - rewrite lookup_insert_ne in Hs by done. by left.
Qed.

(** The boundaries that come with a shape are the canonical forms of its own. *)
Lemma bucket_boundaries_ok shape boundaries : bucket_boundaries shape = Ok boundaries ->
  forall a bs, boundaries !! a = Some bs ->
    exists o, In o (sh_projection shape) /\ so_kind o = "numeric_bucket" /\ to_lower (so_alias o) = a /\
              NormalizeNumericBoundaries (so_boundaries o) = Ok bs.
Proof.
  unfold bucket_boundaries, iter, shape_buckets. intros H a bs Ha.
  destruct (bucket_loop_iff _ _ _ _ H a bs Ha) as [He|(o & (Ho & K%String.eqb_eq)%filter_In & H1 & H2)].
  - by rewrite lookup_empty in He.
  - by exists o.
Qed.

(** The plan that a shape fixes for the statements that match it. *)
Record shape_controls (shape : AggregateShape) (a : AuthorizedAggregate) : Prop := {
  co_index : aa_requiredIndex a = sh_required_index shape;
  co_rows : aa_maximumRowsExaminedPerScan a = sh_maximum_rows shape;
  co_name : aa_shapeName a = sh_name shape;
  co_temporary : aa_allowTemporaryTable a = default false (sh_allow_temporary_table shape);
  co_filesort : aa_allowFilesort a = default false (sh_allow_filesort shape);
  co_boundaries : forall alias bs, aa_numericBoundaries a !! alias = Some bs ->
    exists o, In o (sh_projection shape) /\ so_kind o = "numeric_bucket" /\ to_lower (so_alias o) = alias /\
              NormalizeNumericBoundaries (so_boundaries o) = Ok bs;
}.

(** C6: An aggregate runs only as reviewed. When a validated aggregate is
    authorized, the profile permits its schema, its object, every field it
    mentions and every feature it uses; exactly one of the profile's shapes
    matches, and that shape describes the request output by output, predicate by
    predicate (whatever the letter case the adapter ignores and the order of group
    members) and order term by order term, with a limit within the shape's; the
    plan controls and the bucket boundaries are that shape's own, and the
    statement takes no more parameters than the effective limits allow. No
    assumption is made on the digest function or on the text of the shapes. *)
Theorem authorized_aggregate_reviewed sha256 spec l q s b m a :
  ValidateAggregate spec l = Ok q -> AuthorizeAggregate sha256 s b q m = Ok a ->
  exists profile shape,
    profileForBinding s b OperationAggregate = Ok profile /\
    aa_limits a = Limits_Min (sn_hardLimits s) (pf_limits profile) /\
    NormalizeAggregateIdentifiers sha256 q m = Ok (aa_query a) /\
    aggregate_permitted profile m (va_spec (aa_query a)) /\
    List.filter (shape_matches sha256 (va_spec (aa_query a)) m) (AggregateShapes (pf_query profile)) = [shape] /\
    reviewed m (va_spec (aa_query a)) shape /\ shape_controls shape a /\
    aa_parameterCount a <= MaxParameters (aa_limits a).
Proof.
  intros Hv Ha. unfold AuthorizeAggregate in Ha. destruct (profileForBinding s b OperationAggregate) as [profile|]; [|done].
  apply rbind_ok in Ha as (re & Hre & Ha). assert (re = q) as -> by (by eapply revalidated_stored).
  apply rbind_ok in Ha as (w & Hw & Ha). apply check_ok' in Ha as [H1%authorize_resource_ok Ha].
  apply check_ok' in Ha as [H2 Ha]. apply check_ok' in Ha as [H3%authorizeAggregateFeatures_ok Ha].
  destruct (normalized_signature_ok _ _ _ _ _ _ Hv Hw) as [Hs Ht].
  destruct (matchAggregateShape sha256 (AggregateShapes (pf_query profile)) (va_spec w) m) as [shape|] eqn:Hm; [|done].
  unfold matchAggregateShape in Hm. apply match_shapes_iff in Hm. apply if_err_ok in Ha as [_ Ha].
  apply rbind_ok in Ha as (total & Htotal & Ha). apply rbind_ok in Ha as (boundaries & Hb & [= <-]).
  exists profile, shape. cbn [aa_limits aa_query aa_parameterCount]. split_and!; try done.
  - constructor; try apply H1; [|done]. intros field Hf. rewrite authorize_fields_ok in H2. apply H2.
    apply AggregateReferencedFields_iff; [done|apply Hs|done].
  - apply (shape_matches_reviewed sha256); [done|].
    assert (Hin : In shape (List.filter (shape_matches sha256 (va_spec w) m) (AggregateShapes (pf_query profile)))) by (rewrite Hm; by left).
    by apply filter_In in Hin as [_ ?].
  - constructor; try done. by apply bucket_boundaries_ok.
  - unfold NumericBucketParameters, iter in Htotal. apply if_err_ok in Htotal as [Hbase%Z.ltb_ge Hp].
    apply parameters_loop_iff in Hp; [naive_solver|done].
Qed.

Definition reviewed_shape : AggregateShape := {|
  sh_name := "revenue"; sh_public_description := None; sh_mode := "grouped";
  sh_source := {| r_schema := "Shop"; r_name := "orders" |};
  sh_projection :=
    [ {| so_boundaries := []; so_representation := EmptyString; so_kind := "dimension"; so_field := "state";
         so_function := EmptyString; so_alias := EmptyString; so_unit := EmptyString; so_timezone := EmptyString |};
      {| so_boundaries := []; so_representation := EmptyString; so_kind := "measure"; so_field := "total";
         so_function := "sum"; so_alias := "Revenue"; so_unit := EmptyString; so_timezone := EmptyString |};
      {| so_boundaries := []; so_representation := EmptyString; so_kind := "measure"; so_field := EmptyString;
         so_function := "count_all"; so_alias := "n"; so_unit := EmptyString; so_timezone := EmptyString |} ];
  sh_filter := Some (MkShapeFilter EmptyString "group" EmptyString "and" None
    [MkShapeFilter EmptyString "predicate" "State" "eq" (Some ["string"]) [];
     MkShapeFilter EmptyString "predicate" "ID" "gt" (Some ["integer"]) []]);
  sh_order_by := Some [ {| sd_representation := EmptyString; sd_kind := "measure"; sd_field := EmptyString;
                           sd_alias := "revenue"; sd_direction := "desc" |} ];
  sh_maximum_limit := 50; sh_required_index := "by_state"; sh_maximum_rows := 1000;
  sh_allow_temporary_table := Some true; sh_allow_filesort := None |}.

Definition other_shape : AggregateShape := {|
  sh_name := "other"; sh_public_description := None; sh_mode := "grouped"; sh_source := sh_source reviewed_shape;
  sh_projection := sh_projection reviewed_shape; sh_filter := None; sh_order_by := sh_order_by reviewed_shape;
  sh_maximum_limit := 50; sh_required_index := "by_state"; sh_maximum_rows := 1000;
  sh_allow_temporary_table := None; sh_allow_filesort := None |}.

Definition aggregate_profile : Profile := {|
  pf_datasources := ["main"]; pf_operations := [OperationAggregate]; pf_resources := pf_resources example_profile;
  pf_query := {| AllowSourceText := false; AllowFiltering := true; AllowGroupBy := true; AllowSorting := true;
                 AllowedFilterOperators := ["gt"; "eq"]; AllowedAggregates := ["sum"; "count"];
                 AggregateShapes := [other_shape; reviewed_shape]; KeysetSelectShapes := [] |};
  pf_limits := some_limits |}.

Definition aggregate_snapshot : Snapshot := {|
  sn_address := 1; sn_version := "v1"; sn_hash := "h1"; sn_hardLimits := some_limits;
  sn_principals := sn_principals example_snapshot; sn_profiles := {[ "reader" := aggregate_profile ]} |}.

Definition aggregate_binding : AuthorizedBinding :=
  minted aggregate_snapshot "alice" "reader" "main" OperationAggregate aggregate_profile.

Definition example_authorized : AuthorizedAggregate :=
  match AuthorizeAggregate srev aggregate_snapshot aggregate_binding (aggregate_stored example_aggregate) insensitive with
  | Ok a => a
  | Err _ => {| aa_numericBoundaries := ∅; aa_parameterCount := 0; aa_principal := EmptyString; aa_profile := EmptyString;
                aa_datasource := EmptyString; aa_operation := EmptyString; aa_limits := some_limits;
                aa_query := aggregate_stored example_aggregate; aa_requiredIndex := EmptyString;
                aa_maximumRowsExaminedPerScan := 0; aa_shapeName := EmptyString; aa_allowTemporaryTable := false;
                aa_allowFilesort := false |}
  end.

Example example_authorized_shape : (aa_shapeName example_authorized, aa_parameterCount example_authorized) = ("revenue", 3).
Proof. vm_compute. reflexivity. Qed.

Lemma authorized_aggregate_reviewed_witness :
  exists profile shape,
    profileForBinding aggregate_snapshot aggregate_binding OperationAggregate = Ok profile /\
    aa_limits example_authorized = Limits_Min (sn_hardLimits aggregate_snapshot) (pf_limits profile) /\
    NormalizeAggregateIdentifiers srev (aggregate_stored example_aggregate) insensitive = Ok (aa_query example_authorized) /\
    aggregate_permitted profile insensitive (va_spec (aa_query example_authorized)) /\
    List.filter (shape_matches srev (va_spec (aa_query example_authorized)) insensitive) (AggregateShapes (pf_query profile)) = [shape] /\
    reviewed insensitive (va_spec (aa_query example_authorized)) shape /\ shape_controls shape example_authorized /\
    aa_parameterCount example_authorized <= MaxParameters (aa_limits example_authorized).
Proof.
  apply (authorized_aggregate_reviewed srev example_aggregate (example_aggregate_limits 20) (aggregate_stored example_aggregate)
    aggregate_snapshot aggregate_binding insensitive); vm_compute; reflexivity.
Defined.
