(* ===== verification/PolicyKeyset.v ===== *)
(** Authorization of keyset requests (internal/policy/keyset.go): the reviewed shape
    that a request names, the comparison of its signature with the request's, and the
    authorization that carries the shape's plan controls. *)
From S2P Require Import Prelude Domain GoJson Number Portable Values QuerySpec Config Policy Aggregate AggregateNormal NumericBucket SqlAggregate Keyset PolicyAggregate.
Local Open Scope string_scope.
Local Open Scope Z_scope.

(** ** Features *)

Definition authorizeKeysetFeatures (policy : QueryPolicy) (request : NormalizedKeysetRequest) : error :=
  if? KeysetUsesSourceText request && negb (AllowSourceText policy) return denied ReasonDeniedQueryFeature then
  if? negb (AllowSorting policy) return denied ReasonDeniedQueryFeature then
  match k_filter (nk_query request) with
  | None => nil_error
  | Some filter =>
      if? negb (AllowFiltering policy) return denied ReasonDeniedQueryFeature then
      each (fun _ operator =>
        if? negb (contains (AllowedFilterOperators policy) operator)
        return denied ReasonDeniedQueryFeature then nil_error) (collectOperators filter)
  end.

(** ** Signatures *)

Record keysetProjectionSignature := { kps_representation : string; kps_field : string; kps_alias : string }.
Record keysetOrderSignature := { kos_representation : string; kos_field : string; kos_direction : string }.

Record keysetSignature := {
  kg_schema : string; kg_object : string; kg_projection : list keysetProjectionSignature;
  kg_filter : option aggregateShapeFilter; kg_order_by : list keysetOrderSignature;
}.

Definition keyset_projection_json (p : keysetProjectionSignature) : json :=
  JObj (omit_empty "representation" (kps_representation p) ++ [("field", JStr (kps_field p))] ++
        omit_empty "alias" (kps_alias p))%list.

Definition keyset_order_json (o : keysetOrderSignature) : json :=
  JObj (omit_empty "representation" (kos_representation o) ++
        [("field", JStr (kos_field o)); ("direction", JStr (kos_direction o))])%list.

Definition keyset_signature_json (s : keysetSignature) : json :=
  JObj ([("schema", JStr (kg_schema s)); ("object", JStr (kg_object s));
         ("projection", JArr (map keyset_projection_json (kg_projection s)))] ++
        match kg_filter s with Some f => [("filter", filter_json f)] | None => [] end ++
        [("order_by", JArr (map keyset_order_json (kg_order_by s)))])%list.

Fixpoint queryKeysetShapeFilter (caseInsensitiveFields : bool) (filter : Filter) : aggregateShapeFilter :=
  let field := canonicalPolicyIdentifier (f_field filter) caseInsensitiveFields in
  if String.eqb (f_kind filter) "predicate" then
    MkSignature EmptyString (f_kind filter) field (f_operator filter) (map tv_type (values_of filter)) []
  else
    MkSignature EmptyString (f_kind filter) field (f_operator filter) []
      (map (queryKeysetShapeFilter caseInsensitiveFields) (f_expressions filter)).

Definition requestKeysetSignature (request : NormalizedKeysetRequest) (m : IdentifierSemantics) : keysetSignature := {|
  kg_schema := canonicalPolicyIdentifier (r_schema (k_source (nk_query request))) (CaseInsensitiveSchemas m);
  kg_object := canonicalPolicyIdentifier (r_name (k_source (nk_query request))) (CaseInsensitiveObjects m);
  kg_projection := map (fun output => {| kps_representation := s_representation output;
    kps_field := canonicalPolicyIdentifier (s_field output) (CaseInsensitiveFields m);
    kps_alias := canonicalPolicyIdentifier (s_alias output) true |}) (k_projection (nk_query request));
  kg_filter := queryKeysetShapeFilter (CaseInsensitiveFields m) <$> k_filter (nk_query request);
  kg_order_by := map (fun order => {| kos_representation := o_representation order;
    kos_field := canonicalPolicyIdentifier (o_field order) (CaseInsensitiveFields m);
    kos_direction := o_direction order |}) (k_order_by (nk_query request)) |}.

(** [hex.EncodeToString] *)
Fixpoint hex_text (s : string) : string :=
  match s with
  | EmptyString => EmptyString
  | String c s' => String (hex_digit (byte c / 16)) (String (hex_digit (byte c mod 16)) (hex_text s'))
  end.

(** [%t] *)
Definition bool_text (b : bool) : string := if b then "true" else "false".

Section Shapes.
Context (sha256 : string -> string).

Definition configuredKeysetSignature (shape : KeysetSelectShape) (m : IdentifierSemantics) : option keysetSignature :=
  filter ← match ks_filter shape with
           | None => Some None
           | Some f => Some <$> configuredAggregateShapeFilter sha256 (CaseInsensitiveFields m) f
           end;
  Some {|
    kg_schema := canonicalPolicyIdentifier (r_schema (ks_source shape)) (CaseInsensitiveSchemas m);
    kg_object := canonicalPolicyIdentifier (r_name (ks_source shape)) (CaseInsensitiveObjects m);
    kg_projection := map (fun output => {| kps_representation := kp_representation output;
      kps_field := canonicalPolicyIdentifier (kp_field output) (CaseInsensitiveFields m);
      kps_alias := canonicalPolicyIdentifier (kp_alias output) true |}) (ks_projection shape);
    kg_filter := filter;
    kg_order_by := map (fun order => {| kos_representation := ko_representation order;
      kos_field := canonicalPolicyIdentifier (ko_field order) (CaseInsensitiveFields m);
      kos_direction := ko_direction order |}) (ks_order_by shape) |}.

Definition configuredKeysetSignatureEqual (shape : KeysetSelectShape) (request : NormalizedKeysetRequest)
    (m : IdentifierSemantics) : bool :=
  match configuredKeysetSignature shape m with
  | None => false
  | Some configured =>
      String.eqb (marshal (keyset_signature_json configured))
        (marshal (keyset_signature_json (requestKeysetSignature request m)))
  end.

Definition findKeysetShape (shapes : list KeysetSelectShape) (name : string) : option KeysetSelectShape :=
  List.find (fun shape => String.eqb (ks_name shape) name) shapes.

Definition potentialKeysetShapeMatch (shape : KeysetSelectShape) (request : ValidatedKeyset) : bool :=
  match NormalizeKeysetIdentifiers sha256 request insensitive with
  | Err _ => false
  | Ok normalized => configuredKeysetSignatureEqual shape (vk_request normalized) insensitive
  end.

Definition matchKeysetShape (shapes : list KeysetSelectShape) (request : NormalizedKeysetRequest) (m : IdentifierSemantics)
  : option KeysetSelectShape :=
  match findKeysetShape shapes (nk_shape request) with
  | None => None
  | Some shape => if negb (configuredKeysetSignatureEqual shape request m) then None else Some shape
  end.

(** ** Authorization *)

Definition keyset_limits_of (l : Limits) : keyset_limits := {|
  kl_projection := MaxProjectionFields l; kl_order_by := MaxOrderByFields l; kl_predicates := MaxPredicates l;
  kl_depth := MaxExpressionDepth l; kl_parameters := MaxParameters l; kl_rows := MaxRows l |}.

Definition PrecheckKeysetSelect (s : Snapshot) (binding : AuthorizedBinding) (query : ValidatedKeyset) : error :=
  match profileForBinding s binding OperationSelectKeyset with
  | Err _ => Err (denied ReasonDeniedOperation)
  | Ok profile =>
      let effective := Limits_Min (sn_hardLimits s) (pf_limits profile) in
      let? revalidated := RevalidateKeyset query (keyset_limits_of effective) in
      let request := vk_request revalidated in
      match findKeysetShape (KeysetSelectShapes (pf_query profile)) (nk_shape request) with
      | None => Err (denied ReasonDeniedQueryFeature)
      | Some shape =>
          if? (ks_maximum_limit shape <? k_limit (nk_query request)) || negb (potentialKeysetShapeMatch shape revalidated)
          return denied ReasonDeniedQueryFeature then
          authorizeKeysetFeatures (pf_query profile) request
      end
  end.

Record AuthorizedKeysetSelect := {
  ak_principal : string; ak_credentialIdentifier : string; ak_profile : string; ak_policyVersion : string;
  ak_policyHash : string; ak_datasource : string; ak_adapter : string; ak_operation : string; ak_limits : Limits;
  ak_query : ValidatedKeyset; ak_requiredIndex : string; ak_allowTemporaryTable : bool; ak_allowFilesort : bool;
  ak_maximumRowsExaminedPerScan : Z; ak_shapeName : string; ak_identifierSemantics : IdentifierSemantics;
  ak_semanticsGeneration : string;
}.

Definition generation_text (s : Snapshot) (binding : AuthorizedBinding) (adapterName : string) (m : IdentifierSemantics) : string :=
  sn_hash s +:+ nul +:+ k_profile (ab_key binding) +:+ nul +:+ k_datasource (ab_key binding) +:+ nul +:+ adapterName +:+ nul +:+
  bool_text (CaseInsensitiveSchemas m) +:+ bool_text (CaseInsensitiveObjects m) +:+ bool_text (CaseInsensitiveFields m).

Definition zero_limits : Limits := {|
  DeadlineMS := 0; MaxRequestBytes := 0; MaxProjectionFields := 0; MaxGroupByFields := 0; MaxOrderByFields := 0;
  MaxPredicates := 0; MaxExpressionDepth := 0; MaxParameters := 0; MaxRows := 0; MaxResultBytes := 0; MaxOffset := 0;
  MaxConcurrency := 0 |}.
Definition zero_patterns : PatternPolicy := {| Allow := []; Deny := [] |}.

(** What a lookup of an absent profile gives. *)
Definition zero_profile : Profile := {|
  pf_datasources := []; pf_operations := [];
  pf_resources := {| Schemas := zero_patterns; Objects := zero_patterns; Fields := zero_patterns |};
  pf_query := {| AllowSourceText := false; AllowFiltering := false; AllowGroupBy := false; AllowSorting := false;
                 AllowedFilterOperators := []; AllowedAggregates := []; AggregateShapes := []; KeysetSelectShapes := [] |};
  pf_limits := zero_limits |}.

Definition AuthorizeKeysetSelect (s : Snapshot) (binding : AuthorizedBinding) (credentialIdentifier adapterName : string)
    (query : ValidatedKeyset) (m : IdentifierSemantics) : result AuthorizedKeysetSelect :=
  if? String.eqb (ab_principal binding) EmptyString || String.eqb credentialIdentifier EmptyString ||
      String.eqb (k_profile (ab_key binding)) EmptyString || String.eqb adapterName EmptyString
  return denied ReasonDeniedOperation then
  check? PrecheckKeysetSelect s binding query then
  let profile := default zero_profile (sn_profiles s !! k_profile (ab_key binding)) in
  let effective := Limits_Min (sn_hardLimits s) (pf_limits profile) in
  let? revalidated := RevalidateKeyset query (keyset_limits_of effective) in
  let? normalized := NormalizeKeysetIdentifiers sha256 revalidated m in
  let request := vk_request normalized in
  match matchKeysetShape (KeysetSelectShapes (pf_query profile)) request m with
  | None => Err (denied ReasonDeniedQueryFeature)
  | Some shape =>
      if? ks_maximum_limit shape <? k_limit (nk_query request) return denied ReasonDeniedQueryFeature then
      check? authorize_resource (pf_resources profile) (k_source (nk_query request)) m then
      check? authorize_fields (pf_resources profile) (k_source (nk_query request)) (KeysetReferencedFields request) m then
      check? authorizeKeysetFeatures (pf_query profile) request then
      Ok {| ak_principal := ab_principal binding; ak_credentialIdentifier := credentialIdentifier;
            ak_profile := k_profile (ab_key binding); ak_policyVersion := sn_version s; ak_policyHash := sn_hash s;
            ak_datasource := k_datasource (ab_key binding); ak_adapter := adapterName;
            ak_operation := OperationSelectKeyset; ak_limits := effective; ak_query := normalized;
            ak_requiredIndex := ks_required_index shape; ak_maximumRowsExaminedPerScan := ks_maximum_rows shape;
            ak_allowTemporaryTable := default false (ks_allow_temporary_table shape);
            ak_allowFilesort := default false (ks_allow_filesort shape); ak_shapeName := ks_name shape;
            ak_identifierSemantics := m; ak_semanticsGeneration := hex_text (sha256 (generation_text s binding adapterName m)) |}
  end.
End Shapes.

(** ** What a reviewed shape describes *)

(** What the signature of a request sees of its filter: everything but the
    representations of the predicates and the values. *)
Fixpoint shape_view (ci : bool) (f : Filter) : Filter :=
  MkFilter EmptyString (f_kind f) (canonicalPolicyIdentifier (f_field f) ci) (f_operator f) (f_values f)
    (map (shape_view ci) (f_expressions f)).

Lemma queryKeysetShapeFilter_view ci f : queryKeysetShapeFilter ci f = queryAggregateShapeFilter (shape_view ci f).
Proof.
  induction f as [r k fl o vs es IH] using Filter_ind'.
  cbn [queryKeysetShapeFilter shape_view queryAggregateShapeFilter f_kind f_field f_operator f_representation f_expressions].
  unfold values_of. cbn [f_values]. destruct (String.eqb k "predicate"); [done|]. f_equal. rewrite map_map.
  induction IH as [|x l Hx _ IHl]; [done|]. cbn [map]. by rewrite Hx, IHl.
Qed.

Definition reviewed_selection (m : IdentifierSemantics) (s : Selection) (p : KeysetShapeProjection) : Prop :=
  s_representation s = kp_representation p /\ s_field s = canonicalIdentifier (kp_field p) (CaseInsensitiveFields m) /\
  s_alias s = to_lower (kp_alias p).

Definition reviewed_key (m : IdentifierSemantics) (o : Sort) (k : KeysetShapeOrder) : Prop :=
  o_representation o = ko_representation k /\ o_field o = canonicalIdentifier (ko_field k) (CaseInsensitiveFields m) /\
  o_direction o = ko_direction k.

Record reviewed_keyset (m : IdentifierSemantics) (r : NormalizedKeysetRequest) (shape : KeysetSelectShape) : Prop := {
  rk_name : nk_shape r = ks_name shape;
  rk_schema : r_schema (k_source (nk_query r)) = canonicalIdentifier (r_schema (ks_source shape)) (CaseInsensitiveSchemas m);
  rk_object : r_name (k_source (nk_query r)) = canonicalIdentifier (r_name (ks_source shape)) (CaseInsensitiveObjects m);
  rk_projection : Forall2 (reviewed_selection m) (k_projection (nk_query r)) (ks_projection shape);
  rk_filter : option_Forall2 (fun f sf => reviewed_filter (CaseInsensitiveFields m) (shape_view (CaseInsensitiveFields m) f) sf)
                (k_filter (nk_query r)) (ks_filter shape);
  rk_keys : Forall2 (reviewed_key m) (k_order_by (nk_query r)) (ks_order_by shape);
  rk_limit : k_limit (nk_query r) <= ks_maximum_limit shape;
}.

(** The parts of a normalized request that its signature prints, in their canonical
    form. *)
Record keyset_canonical (m : IdentifierSemantics) (r : NormalizedKeysetRequest) : Prop := {
  kc_schema : is_identifier (r_schema (k_source (nk_query r))) = true /\
    canonicalIdentifier (r_schema (k_source (nk_query r))) (CaseInsensitiveSchemas m) = r_schema (k_source (nk_query r));
  kc_object : is_identifier (r_name (k_source (nk_query r))) = true /\
    canonicalIdentifier (r_name (k_source (nk_query r))) (CaseInsensitiveObjects m) = r_name (k_source (nk_query r));
  kc_selections : Forall (fun s => keyset_selection_ok s /\ canonical_selection m s = s) (k_projection (nk_query r));
  kc_filter : from_option filter_ok True (k_filter (nk_query r));
  kc_keys : Forall (fun o => sort_ok o /\ canonical_sort m o = o) (k_order_by (nk_query r));
}.

Lemma canonical_selection_ok m s : keyset_selection_ok s -> keyset_selection_ok (canonical_selection m s).
Proof.
  intros (Hr & Hk & Hf & Hi & Ha). unfold keyset_selection_ok, canonical_selection. cbn. split_and!; try done.
  - by apply canonical_identifier_ok.
  - destruct Ha as [->|Ha]; [by left|right]. by apply (canonical_identifier_ok _ true).
Qed.

Lemma canonical_sort_ok m o : sort_ok o -> sort_ok (canonical_sort m o).
Proof. intros (Hr & Hf & Hd). unfold sort_ok, canonical_sort. cbn. split_and!; try done. by apply canonical_identifier_ok. Qed.

Lemma canonical_selection_idem m s : canonical_selection m (canonical_selection m s) = canonical_selection m s.
Proof. unfold canonical_selection. cbn. by rewrite canonicalIdentifier_idem, to_lower_idem. Qed.

Lemma canonical_sort_idem m o : canonical_sort m (canonical_sort m o) = canonical_sort m o.
Proof. unfold canonical_sort. cbn. by rewrite canonicalIdentifier_idem. Qed.

Lemma normalized_keyset_canonical sha256 r l v m w :
  ValidateKeyset sha256 r l = Ok v -> NormalizeKeysetIdentifiers sha256 v m = Ok w -> keyset_canonical m (vk_request w).
Proof.
  intros [Hok ->]%ValidateKeyset_iff (_ & f & _ & Hf & _ & _ & ->)%NormalizeKeysetIdentifiers_iff.
  cbn [vk_request keyset_stored nk_query] in *. destruct Hok.
  constructor; cbn [vk_request canonical_keyset nk_query k_source k_projection k_filter k_order_by r_schema r_name].
  - split; [by apply canonical_identifier_ok|apply canonicalIdentifier_idem].
  - split; [by apply canonical_identifier_ok|apply canonicalIdentifier_idem].
  - apply Forall_map. eapply Forall_impl; [exact kok_selections|]. intros s Hs.
    split; [by apply canonical_selection_ok|apply canonical_selection_idem].
  - unfold filter_normalizes in Hf. destruct (k_filter (kr_query r)) as [g|]; [|by subst].
    destruct Hf as (e & He & ->). destruct kok_filter as [Hg _]. by apply (normal_filter_ok sha256 (CaseInsensitiveFields m) g).
  - apply Forall_map. eapply Forall_impl; [exact kok_sorts|]. intros o Ho.
    split; [by apply canonical_sort_ok|apply canonical_sort_idem].
Qed.

(** ** Signatures are compared as values *)

Lemma keyset_projection_json_inj p p' : keyset_projection_json p = keyset_projection_json p' -> p = p'.
Proof.
  intros H.
  assert (R : forall q, text_member "representation" (keyset_projection_json q) = kps_representation q /\
    text_member "field" (keyset_projection_json q) = kps_field q /\ text_member "alias" (keyset_projection_json q) = kps_alias q).
  { intros [r f a]. unfold keyset_projection_json. cbn [kps_representation kps_field kps_alias]. split_and!; read_member. }
  pose proof (R p) as Hp. pose proof (R p') as Hp'. rewrite H in Hp. clear H R. destruct p, p'. cbn in *. destruct_and!. congruence.
Qed.

Lemma keyset_order_json_inj p p' : keyset_order_json p = keyset_order_json p' -> p = p'.
Proof.
  intros H.
  assert (R : forall q, text_member "representation" (keyset_order_json q) = kos_representation q /\
    text_member "field" (keyset_order_json q) = kos_field q /\ text_member "direction" (keyset_order_json q) = kos_direction q).
  { intros [r f d]. unfold keyset_order_json. cbn [kos_representation kos_field kos_direction]. split_and!; read_member. }
  pose proof (R p) as Hp. pose proof (R p') as Hp'. rewrite H in Hp. clear H R. destruct p, p'. cbn in *. destruct_and!. congruence.
Qed.

Lemma keyset_signature_json_inj s s' : keyset_signature_json s = keyset_signature_json s' -> s = s'.
Proof.
  intros H.
  assert (R : forall q, text_member "schema" (keyset_signature_json q) = kg_schema q /\
    text_member "object" (keyset_signature_json q) = kg_object q /\
    list_member "projection" (keyset_signature_json q) = map keyset_projection_json (kg_projection q) /\
    (match keyset_signature_json q with JObj l => member "filter" l | _ => None end) = filter_json <$> kg_filter q /\
    list_member "order_by" (keyset_signature_json q) = map keyset_order_json (kg_order_by q)).
  { intros [sc ob pr fi od]. unfold keyset_signature_json. cbn [kg_schema kg_object kg_projection kg_filter kg_order_by].
    split_and!; read_member; destruct fi; read_member. }
  pose proof (R s) as Hp. pose proof (R s') as Hp'. rewrite H in Hp. clear H R. destruct s as [sc ob pr fi od], s' as [sc' ob' pr' fi' od'].
  cbn [kg_schema kg_object kg_projection kg_filter kg_order_by] in *.
  destruct Hp as (P1 & P2 & P3 & P4 & P5). destruct Hp' as (Q1 & Q2 & Q3 & Q4 & Q5).
  apply (eq_trans (eq_sym P1)) in Q1. apply (eq_trans (eq_sym P2)) in Q2. apply (eq_trans (eq_sym P3)) in Q3.
  apply (eq_trans (eq_sym P4)) in Q4. apply (eq_trans (eq_sym P5)) in Q5. clear P1 P2 P3 P4 P5.
  apply map_inj in Q3; [|apply Forall_true; intros x y; apply keyset_projection_json_inj].
  apply map_inj in Q5; [|apply Forall_true; intros x y; apply keyset_order_json_inj].
  assert (fi = fi') as -> by (destruct fi, fi'; cbn in Q4; try done; injection Q4 as Q4; f_equal; by apply filter_json_inj).
  by subst.
Qed.

Lemma keyset_signature_json_text s : json_text (keyset_signature_json s) = true.
Proof.
  unfold keyset_signature_json. rewrite !json_text_app, !andb_true_iff. split_and!.
  - cbn [json_text forallb]. rewrite !andb_true_iff. split_and!; try done. apply forallb_forall. intros j Hj.
    apply in_map_iff in Hj as (p & <- & _). unfold keyset_projection_json. by rewrite !json_text_app, !json_text_omit_empty.
  - destruct (kg_filter s) as [f|]; [|done]. cbn [json_text forallb]. by rewrite filter_json_text.
  - cbn [json_text forallb]. rewrite !andb_true_iff. split_and!; try done. apply forallb_forall. intros j Hj.
    apply in_map_iff in Hj as (o & <- & _). unfold keyset_order_json. by rewrite !json_text_app, !json_text_omit_empty.
Qed.

Lemma shape_view_ok ci f : filter_ok f -> filter_ok (shape_view ci f).
Proof.
  induction f as [r k fl o vs es IH] using Filter_ind'. intros Hf.
  inversion Hf as [r' fl' o' vs' Hr Hi Hl Ha Hv|o' es' Ho Hl He]; subst;
    cbn [shape_view f_kind f_field f_operator f_values f_expressions map].
  - constructor; try done; [by left|by apply (canonical_identifier_ok _ ci)|].
    eapply Forall_impl; [exact Hv|]. intros v [_ Hb]. split; [|done]. by unfold RepresentationSourceText.
  - replace (canonicalPolicyIdentifier EmptyString ci) with EmptyString by (by destruct ci).
    constructor; [done|unfold len in *; by rewrite length_map|]. apply Forall_map.
    clear -IH He. induction He as [|x l Hx _ IHl]; inversion IH; constructor; auto.
Qed.

Lemma request_signature_ascii m r : keyset_canonical m r -> json_ascii (keyset_signature_json (requestKeysetSignature r m)) = true.
Proof.
  intros [[Hs Es] [Ho Eo] Hp Hf Hk]. unfold keyset_signature_json, requestKeysetSignature.
  cbn [kg_schema kg_object kg_projection kg_filter kg_order_by]. change canonicalPolicyIdentifier with canonicalIdentifier.
  rewrite Es, Eo, !json_ascii_app, !andb_true_iff. split_and!.
  - cbn [json_ascii forallb]. rewrite (identifier_ascii _ Hs), (identifier_ascii _ Ho).
    rewrite !andb_true_iff. split_and!; try done. rewrite map_map. apply forallb_forall, List.Forall_forall, Forall_map.
    eapply Forall_impl; [exact Hp|]. intros s [(Hr & _ & _ & Hi & Ha) Hc].
    unfold keyset_projection_json. cbn [kps_representation kps_field kps_alias].
    pose proof (f_equal s_field Hc) as H1. pose proof (f_equal s_alias Hc) as H2. cbn [canonical_selection s_field s_alias] in H1, H2.
    rewrite H1, H2. ascii_members; [by apply representation_ascii|by apply identifier_ascii|].
    destruct Ha as [-> | Ha]; [done|by apply identifier_ascii].
  - destruct (k_filter (nk_query r)) as [f|]; [|done]. cbn [fmap option_fmap option_map]. apply json_ascii_member; [done|].
    rewrite queryKeysetShapeFilter_view. by apply query_filter_ascii, shape_view_ok.
  - cbn [json_ascii forallb]. rewrite !andb_true_iff. split_and!; try done. rewrite map_map. apply forallb_forall, List.Forall_forall, Forall_map.
    eapply Forall_impl; [exact Hk|]. intros o [(Hr & Hi & Hd) Hc].
    unfold keyset_order_json. cbn [kos_representation kos_field kos_direction].
    pose proof (f_equal o_field Hc) as H1. cbn [canonical_sort o_field] in H1.
    rewrite H1. ascii_members; [by apply representation_ascii|]. cbn [json_ascii forallb].
    rewrite (identifier_ascii _ Hi). by destruct Hd as [-> | ->].
Qed.

(** A named shape with the signature of the request describes it. *)
Lemma signature_reviewed sha256 m r shape : keyset_canonical m r ->
  configuredKeysetSignatureEqual sha256 shape r m = true -> ks_name shape = nk_shape r ->
  k_limit (nk_query r) <= ks_maximum_limit shape -> reviewed_keyset m r shape.
Proof.
  intros Hc He Hn Hl. unfold configuredKeysetSignatureEqual, configuredKeysetSignature in He.
  destruct (match ks_filter shape with None => Some None | Some f => _ end) as [filter|] eqn:Hf; [|done].
  cbn [mbind option_bind] in He. apply String.eqb_eq in He.
  apply marshal_inj_text in He; [|apply keyset_signature_json_text|by apply request_signature_ascii].
  apply keyset_signature_json_inj in He. unfold requestKeysetSignature in He. injection He as H1 H2 H3 H4 H5.
  change canonicalPolicyIdentifier with canonicalIdentifier in *. destruct Hc as [[_ Es] [_ Eo] Hp _ Hk].
  constructor; try done.
  - by rewrite <- Es.
  - by rewrite <- Eo.
  - symmetry in H3. revert Hp H3. clear. generalize (ks_projection shape).
    induction (k_projection (nk_query r)) as [|s l IH]; intros [|p k] Hp H; try done; constructor.
    + cbn [map] in H. injection H as H1 H2 H3 _. apply Forall_cons in Hp as [[_ Hc] _].
      pose proof (f_equal s_field Hc) as E1. pose proof (f_equal s_alias Hc) as E2. cbn [canonical_selection s_field s_alias] in E1, E2.
      unfold reviewed_selection. rewrite <- E1, <- E2. split_and!; done.
    + cbn [map] in H. apply IH; [by apply Forall_cons in Hp as [_ ?]|]. by injection H.
  - destruct (k_filter (nk_query r)) as [f|], (ks_filter shape) as [sf|]; cbn in Hf, H4; subst filter; try done.
    + constructor. destruct (configuredAggregateShapeFilter _ _ sf) as [sig|] eqn:E; [|done]. cbn in Hf. injection Hf as Hf.
      eapply configured_filter_reviewed; [exact E|]. by rewrite <- queryKeysetShapeFilter_view.
    + by destruct (configuredAggregateShapeFilter _ _ sf).
    + constructor.
  - symmetry in H5. revert Hk H5. clear. generalize (ks_order_by shape).
    induction (k_order_by (nk_query r)) as [|s l IH]; intros [|p k] Hp H; try done; constructor.
    + cbn [map] in H. injection H as H1 H2 H3 _. apply Forall_cons in Hp as [[_ Hc] _].
      pose proof (f_equal o_field Hc) as E1. cbn [canonical_sort o_field] in E1.
      unfold reviewed_key. rewrite <- E1. split_and!; done.
    + cbn [map] in H. apply IH; [by apply Forall_cons in Hp as [_ ?]|]. by injection H.
Qed.

(** ** What a profile permits *)

(** The fields that a keyset request mentions anywhere, and the features it needs. *)
Definition keyset_mentions (r : NormalizedKeysetRequest) (field : string) : Prop :=
  (exists s, In s (k_projection (nk_query r)) /\ s_field s = field) \/
  (exists f p, k_filter (nk_query r) = Some f /\ filter_has f p /\ f_field p = field) \/
  (exists o, In o (k_order_by (nk_query r)) /\ o_field o = field).

Lemma collectFilterFields_spec f x : In x (collectFilterFields f) <-> exists p, filter_has f p /\ f_field p = x.
Proof. apply collect_spec. by intros []. Qed.

Lemma KeysetReferencedFields_iff r x : In x (KeysetReferencedFields r) <-> keyset_mentions r x.
Proof.
  unfold KeysetReferencedFields, keyset_mentions. rewrite compact_In, sort_func_In, !in_app_iff, !in_map_iff.
  assert (Hf : In x (from_option collectFilterFields [] (k_filter (nk_query r))) <->
               exists f p, k_filter (nk_query r) = Some f /\ filter_has f p /\ f_field p = x).
  { destruct (k_filter (nk_query r)) as [f|]; cbn [from_option]; [rewrite collectFilterFields_spec|]; naive_solver. }
  rewrite Hf. naive_solver.
Qed.

Definition keyset_features (policy : QueryPolicy) (r : NormalizedKeysetRequest) : Prop :=
  (KeysetUsesSourceText r = true -> AllowSourceText policy = true) /\ AllowSorting policy = true /\
  (k_filter (nk_query r) <> None -> AllowFiltering policy = true) /\
  (forall f p, k_filter (nk_query r) = Some f -> filter_has f p -> In (f_operator p) (AllowedFilterOperators policy)).

Record keyset_permitted (profile : Profile) (m : IdentifierSemantics) (r : NormalizedKeysetRequest) : Prop := {
  kp_schema : permits (Schemas (pf_resources profile)) [r_schema (k_source (nk_query r))] (schema_semantics m);
  kp_object : permits (Objects (pf_resources profile)) [r_schema (k_source (nk_query r)); r_name (k_source (nk_query r))]
                (object_semantics m);
  kp_fields : forall field, keyset_mentions r field ->
    permits (Fields (pf_resources profile)) [r_schema (k_source (nk_query r)); r_name (k_source (nk_query r)); field] (field_semantics m);
  kp_features : keyset_features (pf_query profile) r;
}.

Lemma authorizeKeysetFeatures_ok policy r : authorizeKeysetFeatures policy r = Ok tt <-> keyset_features policy r.
Proof.
  unfold authorizeKeysetFeatures, keyset_features. rewrite !if_err_ok, guarded, negb_false_iff.
  assert (E : match k_filter (nk_query r) with
              | None => nil_error
              | Some filter =>
                  if? negb (AllowFiltering policy) return denied ReasonDeniedQueryFeature then
                  each (fun _ operator => if? negb (contains (AllowedFilterOperators policy) operator)
                    return denied ReasonDeniedQueryFeature then nil_error) (collectOperators filter)
              end = authorize_operators policy (k_filter (nk_query r))) by (by destruct (k_filter (nk_query r))).
  by rewrite E, authorize_operators_ok.
Qed.

Lemma revalidated_keyset sha256 r l q l' v : ValidateKeyset sha256 r l = Ok q -> RevalidateKeyset q l' = Ok v -> v = q.
Proof.
  intros [Hok ->]%ValidateKeyset_iff Hv. apply RevalidateKeyset_ok in Hv as (_ & _ & _ & _ & _ & _ & _ & ->).
  by apply (cloned_stored sha256 r l).
Qed.

(** The plan and the identity that an authorization carries. *)
Record keyset_controls (s : Snapshot) (b : AuthorizedBinding) (shape : KeysetSelectShape) (a : AuthorizedKeysetSelect) : Prop := {
  kt_index : ak_requiredIndex a = ks_required_index shape;
  kt_rows : ak_maximumRowsExaminedPerScan a = ks_maximum_rows shape;
  kt_name : ak_shapeName a = ks_name shape;
  kt_temporary : ak_allowTemporaryTable a = default false (ks_allow_temporary_table shape);
  kt_filesort : ak_allowFilesort a = default false (ks_allow_filesort shape);
  kt_binding : ak_principal a = ab_principal b /\ ak_profile a = k_profile (ab_key b) /\ ak_datasource a = k_datasource (ab_key b);
  kt_policy : ak_policyHash a = sn_hash s /\ ak_policyVersion a = sn_version s;
}.

Lemma findKeysetShape_ok shapes name shape : findKeysetShape shapes name = Some shape -> In shape shapes /\ ks_name shape = name.
Proof. intros H. apply List.find_some in H as [Hin He]. by apply String.eqb_eq in He. Qed.

Lemma matchKeysetShape_ok sha256 shapes r m shape : matchKeysetShape sha256 shapes r m = Some shape ->
  findKeysetShape shapes (nk_shape r) = Some shape /\ configuredKeysetSignatureEqual sha256 shape r m = true.
Proof.
  unfold matchKeysetShape. destruct (findKeysetShape shapes (nk_shape r)) as [s|]; [|done].
  destruct (configuredKeysetSignatureEqual sha256 s r m) eqn:E; cbn [negb]; [|done]. by intros [= <-].
Qed.

(** What an authorization went through. *)
Lemma AuthorizeKeysetSelect_inv sha256 r l q s b credential adapter m a :
  ValidateKeyset sha256 r l = Ok q -> AuthorizeKeysetSelect sha256 s b credential adapter q m = Ok a ->
  exists profile shape,
    profileForBinding s b OperationSelectKeyset = Ok profile /\
    ak_limits a = Limits_Min (sn_hardLimits s) (pf_limits profile) /\
    NormalizeKeysetIdentifiers sha256 q m = Ok (ak_query a) /\ ak_identifierSemantics a = m /\
    keyset_permitted profile m (vk_request (ak_query a)) /\
    findKeysetShape (KeysetSelectShapes (pf_query profile)) (kr_shape r) = Some shape /\
    reviewed_keyset m (vk_request (ak_query a)) shape /\ keyset_controls s b shape a /\
    Parameters (vk_stats (ak_query a)) <= MaxParameters (ak_limits a).
Proof.
  intros Hv Ha. unfold AuthorizeKeysetSelect in Ha. apply if_err_ok in Ha as [_ Ha]. apply check_ok' in Ha as [Hpre Ha].
  unfold PrecheckKeysetSelect in Hpre. destruct (profileForBinding s b OperationSelectKeyset) as [profile|] eqn:Hp; [|done].
  assert (Hprofile : sn_profiles s !! k_profile (ab_key b) = Some profile) by (apply profileForBinding_iff in Hp as (_ & _ & _ & _ & _ & _ & Hp); unfold assigned in Hp; naive_solver).
  rewrite Hprofile in Ha. cbn [default from_option] in Ha. unfold id in Ha.
  apply rbind_ok in Ha as (re & Hre & Ha). assert (re = q) as -> by (by eapply revalidated_keyset).
  apply rbind_ok in Ha as (w & Hw & Ha). pose proof (normalized_keyset_canonical _ _ _ _ _ _ Hv Hw) as Hc.
  destruct (matchKeysetShape sha256 _ _ m) as [shape|] eqn:Hm; [|done]. apply matchKeysetShape_ok in Hm as [Hfind Heq].
  apply if_err_ok in Ha as [Hl%Z.ltb_ge Ha]. apply check_ok' in Ha as [H1%authorize_resource_ok Ha].
  apply check_ok' in Ha as [H2 Ha]. apply check_ok' in Ha as [H3%authorizeKeysetFeatures_ok [= <-]].
  apply RevalidateKeyset_ok in Hre as (_ & _ & _ & _ & _ & Hpar & _ & _).
  apply ValidateKeyset_iff in Hv as [_ ->]. pose proof Hw as Hw'.
  apply NormalizeKeysetIdentifiers_iff in Hw' as (_ & f & _ & _ & _ & _ & Ew).
  exists profile, shape. cbn [ak_limits ak_query ak_identifierSemantics]. split_and!; try done.
  - constructor; try apply H1; [|done]. intros field Hf. rewrite authorize_fields_ok in H2. apply H2. by apply KeysetReferencedFields_iff.
  - by rewrite Ew in Hfind.
  - apply (signature_reviewed sha256); try done. by apply findKeysetShape_ok in Hfind as [_ ?].
  - by rewrite Ew.
Qed.

(** C12: A page of a table is read only as reviewed. When a validated keyset request is
    authorized, the profile permits its schema, its object, every field it mentions and
    every feature it uses; the shape that the request names is in the profile and
    describes it: the same source, output by output and key by key, the same filter up
    to the letter case the adapter ignores, the order of group members and the
    representations of the predicates, and a limit within the shape's; the plan controls
    are that shape's, the identity the binding's, and the parameters within the limits. *)
Theorem authorized_keyset_reviewed sha256 r l q s b credential adapter m a :
  ValidateKeyset sha256 r l = Ok q -> AuthorizeKeysetSelect sha256 s b credential adapter q m = Ok a ->
  exists profile shape,
    profileForBinding s b OperationSelectKeyset = Ok profile /\
    ak_limits a = Limits_Min (sn_hardLimits s) (pf_limits profile) /\
    NormalizeKeysetIdentifiers sha256 q m = Ok (ak_query a) /\ ak_identifierSemantics a = m /\
    keyset_permitted profile m (vk_request (ak_query a)) /\
    findKeysetShape (KeysetSelectShapes (pf_query profile)) (kr_shape r) = Some shape /\
    reviewed_keyset m (vk_request (ak_query a)) shape /\ keyset_controls s b shape a /\
    Parameters (vk_stats (ak_query a)) <= MaxParameters (ak_limits a).
Proof. apply AuthorizeKeysetSelect_inv. Qed.

(** ** Representations of filter predicates *)

Fixpoint reviewed_representations (sf : ShapeFilter) : list string :=
  if String.eqb (sf_kind sf) "predicate" then [sf_representation sf]
  else sf_representation sf :: flat_map reviewed_representations (sf_expressions sf).

Lemma reviewed_view_plain ci sf : forall f, reviewed_filter ci (shape_view ci f) sf ->
  Forall (fun r => r = EmptyString) (reviewed_representations sf).
Proof.
  induction sf as [r k fl o vs es IH] using ShapeFilter_ind'. intros [r' k' fl' o' vs' es'] H.
  cbn [shape_view f_kind f_field f_operator f_values f_expressions] in H. cbn [reviewed_representations sf_kind sf_representation sf_expressions].
  inversion H as [? ? ? ? ? ? ? ? E1 E2|? ? ? ? ? ? ? ? es1 ? Hk E1 Hp HF]; subst.
  - change (String.eqb "predicate" "predicate") with true. by repeat constructor.
  - rewrite (proj2 (String.eqb_neq _ _) Hk). constructor; [done|].
    assert (Hall : Forall (fun g => exists f, g = shape_view ci f) es1).
    { rewrite <- Hp. apply Forall_map, Forall_true. eauto. }
    clear -IH Hall HF. revert es1 Hall HF. induction IH as [|x l Hx _ IHl]; intros es1 Hall HF; [by inversion HF|].
    inversion HF as [|g ? es2 ? Hg HF']; subst. apply Forall_cons in Hall as [[f ->] Hall].
    cbn [flat_map]. apply Forall_app. split; [by eapply Hx|by eapply IHl].
Qed.

(** The signature of a request leaves out the representations of its predicates, the
    signature of a shape keeps them: a shape whose filter compares a source text is
    accepted in the configuration and never authorizes any request. *)
Lemma source_text_shape_unreachable sha256 r l q s b credential adapter m a profile shape filter :
  ValidateKeyset sha256 r l = Ok q -> profileForBinding s b OperationSelectKeyset = Ok profile ->
  findKeysetShape (KeysetSelectShapes (pf_query profile)) (kr_shape r) = Some shape ->
  ks_filter shape = Some filter -> In RepresentationSourceText (reviewed_representations filter) ->
  AuthorizeKeysetSelect sha256 s b credential adapter q m <> Ok a.
Proof.
  intros Hv Hp Hs Hf Hin Ha. destruct (AuthorizeKeysetSelect_inv _ _ _ _ _ _ _ _ _ _ Hv Ha)
    as (profile' & shape' & Hp' & _ & _ & _ & _ & Hs' & Hr & _).
  rewrite Hp in Hp'. injection Hp' as <-. rewrite Hs in Hs'. injection Hs' as <-.
  pose proof (rk_filter _ _ _ Hr) as HF. rewrite Hf in HF. inversion HF as [f ? Hrev E1 E2|]; subst.
  apply reviewed_view_plain in Hrev. rewrite List.Forall_forall in Hrev. by specialize (Hrev _ Hin).
Qed.

(** And two requests that differ only in those representations have one signature. *)
Lemma signature_ignores_representations ci f g : shape_view ci f = shape_view ci g ->
  queryKeysetShapeFilter ci f = queryKeysetShapeFilter ci g.
Proof. intros H. by rewrite !queryKeysetShapeFilter_view, H. Qed.

(** ** An authorized page *)

Definition page_shape : KeysetSelectShape := {|
  ks_name := "orders_by_id"; ks_public_description := None; ks_source := {| r_schema := "Shop"; r_name := "orders" |};
  ks_projection := map (fun f => {| kp_representation := EmptyString; kp_kind := "field"; kp_field := f; kp_alias := EmptyString |})
    ["id"; "state"; "AT"];
  ks_filter := Some (MkShapeFilter EmptyString "predicate" "ID" "gt" (Some ["integer"]) []);
  ks_order_by := [{| ko_representation := EmptyString; ko_field := "at"; ko_direction := "desc" |};
                  {| ko_representation := EmptyString; ko_field := "id"; ko_direction := "asc" |}];
  ks_maximum_limit := 50; ks_required_index := "by_time"; ks_maximum_rows := 1000;
  ks_allow_temporary_table := None; ks_allow_filesort := Some true |}.

Definition keyset_profile : Profile := {|
  pf_datasources := ["main"]; pf_operations := [OperationSelectKeyset];
  pf_resources := {| Schemas := {| Allow := ["shop"]; Deny := [] |}; Objects := zero_patterns;
                     Fields := {| Allow := []; Deny := ["shop.orders.secret"] |} |};
  pf_query := {| AllowSourceText := false; AllowFiltering := true; AllowGroupBy := false; AllowSorting := true;
                 AllowedFilterOperators := ["gt"]; AllowedAggregates := []; AggregateShapes := [];
                 KeysetSelectShapes := [page_shape] |};
  pf_limits := some_limits |}.

Definition keyset_snapshot : Snapshot := {|
  sn_address := 1; sn_version := "v1"; sn_hash := "h1"; sn_hardLimits := some_limits;
  sn_principals := sn_principals example_snapshot; sn_profiles := {[ "reader" := keyset_profile ]} |}.

Definition keyset_binding : AuthorizedBinding :=
  minted keyset_snapshot "alice" "reader" "main" OperationSelectKeyset keyset_profile.

Definition authorized_page : AuthorizedKeysetSelect :=
  match AuthorizeKeysetSelect srev keyset_snapshot keyset_binding "basic" "mysql8" (keyset_stored example_keyset) insensitive with
  | Ok a => a
  | Err _ => {| ak_principal := EmptyString; ak_credentialIdentifier := EmptyString; ak_profile := EmptyString;
                ak_policyVersion := EmptyString; ak_policyHash := EmptyString; ak_datasource := EmptyString;
                ak_adapter := EmptyString; ak_operation := EmptyString; ak_limits := zero_limits;
                ak_query := keyset_stored example_keyset; ak_requiredIndex := EmptyString; ak_allowTemporaryTable := false;
                ak_allowFilesort := false; ak_maximumRowsExaminedPerScan := 0; ak_shapeName := EmptyString;
                ak_identifierSemantics := insensitive; ak_semanticsGeneration := EmptyString |}
  end.

Lemma authorized_keyset_reviewed_witness :
  exists profile shape,
    profileForBinding keyset_snapshot keyset_binding OperationSelectKeyset = Ok profile /\
    ak_limits authorized_page = Limits_Min (sn_hardLimits keyset_snapshot) (pf_limits profile) /\
    NormalizeKeysetIdentifiers srev (keyset_stored example_keyset) insensitive = Ok (ak_query authorized_page) /\
    ak_identifierSemantics authorized_page = insensitive /\
    keyset_permitted profile insensitive (vk_request (ak_query authorized_page)) /\
    findKeysetShape (KeysetSelectShapes (pf_query profile)) (kr_shape example_keyset) = Some shape /\
    reviewed_keyset insensitive (vk_request (ak_query authorized_page)) shape /\
    keyset_controls keyset_snapshot keyset_binding shape authorized_page /\
    Parameters (vk_stats (ak_query authorized_page)) <= MaxParameters (ak_limits authorized_page).
Proof.
  apply (authorized_keyset_reviewed srev example_keyset example_keyset_limits (keyset_stored example_keyset)
    keyset_snapshot keyset_binding "basic" "mysql8" insensitive authorized_page).
  - vm_compute. reflexivity.
  - vm_compute. reflexivity.
Defined.
