(* ===== verification/SqlKeyset.v ===== *)
(** The keyset statement (internal/adapters/mysql8/keyset.go and keyset_characters.go):
    the columns of its source, the types of its keys and filter values, the statement
    with its cursor predicate, and the check that character operands survive the
    conversion to their column. *)
From S2P Require Import Prelude Domain GoJson Number Portable Values QuerySpec Config Policy Sql Rows Aggregate AggregateNormal NumericBucket KeysetDecimal SqlAggregate Keyset KeysetBinds PolicyAggregate PolicyKeyset.
Local Open Scope string_scope.
Local Open Scope Z_scope.

(** ** The source *)

Definition keyset_columns := list (string * keysetSourceColumn).

Record keysetSource := {
  kx_columns : keyset_columns; kx_projectionColumns : list keysetSourceColumn;
  kx_keyColumns : list keysetSourceColumn; kx_keyKinds : list string; kx_keyIndexes : list nat;
}.

(** [columns[strings.ToLower(field)]] *)
Definition keyset_column (columns : keyset_columns) (field : string) : option keysetSourceColumn := map_get columns (to_lower field).

Definition with_column_nullable (column : keysetSourceColumn) (nullable : bool) : keysetSourceColumn := {|
  kc_representation := kc_representation column; kc_name := kc_name column; kc_dataType := kc_dataType column;
  kc_nativeType := kc_nativeType column; kc_nullable := nullable; kc_characterSet := kc_characterSet column;
  kc_collation := kc_collation column; kc_characterMaximumLength := kc_characterMaximumLength column;
  kc_characterOctetLength := kc_characterOctetLength column; kc_numericPrecision := kc_numericPrecision column;
  kc_numericScale := kc_numericScale column; kc_datetimePrecision := kc_datetimePrecision column |}.

Definition with_column_representation (column : keysetSourceColumn) (representation : string) : keysetSourceColumn := {|
  kc_representation := representation; kc_name := kc_name column; kc_dataType := kc_dataType column;
  kc_nativeType := kc_nativeType column; kc_nullable := kc_nullable column; kc_characterSet := kc_characterSet column;
  kc_collation := kc_collation column; kc_characterMaximumLength := kc_characterMaximumLength column;
  kc_characterOctetLength := kc_characterOctetLength column; kc_numericPrecision := kc_numericPrecision column;
  kc_numericScale := kc_numericScale column; kc_datetimePrecision := kc_datetimePrecision column |}.

(** One turn of the loop over the catalog rows: the schema, the table, the column and
    the text of [is_nullable]. *)
Definition keyset_column_step (source : ResourceRef) (wanted : list string) (caseInsensitiveObjects : bool)
    (scan : result (string * string * keysetSourceColumn * string)) (columns : keyset_columns) : result keyset_columns :=
  let? row := scan in
  let '(rowSchema, rowObject, column, nullable) := row in
  if? negb (tokenIdentifierMatches rowSchema (r_schema source) caseInsensitiveObjects) ||
      negb (tokenIdentifierMatches rowObject (r_name source) caseInsensitiveObjects)
  return metadata_mismatch then
  let key := lower_name (kc_name column) in
  if? negb (contains wanted key) return metadata_mismatch then
  if? contains (map fst columns) key return metadata_mismatch then
  Ok ((key, with_column_nullable column (String.eqb nullable "YES")) :: columns).

(** ** Types *)

Definition validateKeysetColumnType (column : keysetSourceColumn) : result string :=
  if is_source_text column then
    check? validateSourceTextType (kc_dataType column) then
    if equal_fold (kc_dataType column) "DATE" then Ok "string"
    else let? _ := mysqlKeysetTemporalPrecision column in Ok "string"
  else
    let dataType := normal_type column in
    if contains ["TINYINT"; "SMALLINT"; "MEDIUMINT"; "INT"; "INTEGER"; "BIGINT"] dataType then Ok "integer"
    else if contains ["CHAR"; "VARCHAR"] dataType then
      match kc_characterMaximumLength column with
      | Some length =>
          if? negb (validKeysetCharacterMetadata column) || (length <? 0) || (ProtocolMaxCursorStringRunes <? length)
          return invalid_error then Ok "string"
      | None => Err invalid_error
      end
    else if contains ["BINARY"; "VARBINARY"] dataType then
      match kc_characterOctetLength column with
      | Some length => if? (length <? 0) || (ProtocolMaxCursorBytes <? length) return invalid_error then Ok "bytes"
      | None => Err invalid_error
      end
    else if String.eqb dataType "DATE" then Ok "date"
    else if String.eqb dataType "DATETIME" then let? _ := mysqlKeysetTemporalPrecision column in Ok "datetime"
    else if String.eqb dataType "TIMESTAMP" then let? _ := mysqlKeysetTemporalPrecision column in Ok "timestamp"
    else Err invalid_error.

(** [strings.Fields] *)
Fixpoint fields_from (word text : string) : list string :=
  match text with
  | EmptyString => if nonempty word then [word] else []
  | String c text' =>
      if is_space c then ((if nonempty word then [word] else []) ++ fields_from EmptyString text')%list
      else fields_from (word +:+ String c EmptyString) text'
  end.
Definition text_fields (text : string) : list string := fields_from EmptyString text.

Definition isMySQLBooleanColumn (nativeType : string) : bool :=
  match text_fields (to_lower (trim_space nativeType)) with
  | [first] => String.eqb first "tinyint(1)"
  | [first; second] => String.eqb first "tinyint(1)" && String.eqb second "unsigned"
  | _ => false
  end.

Definition keysetFilterTypeCompatible (valueType operator : string) (column : keysetSourceColumn) : bool :=
  let dataType := normal_type column in
  if is_null_test operator then true
  else if String.eqb valueType "boolean" then String.eqb dataType "TINYINT" && isMySQLBooleanColumn (kc_nativeType column)
  else if String.eqb valueType "integer" then contains ["TINYINT"; "SMALLINT"; "MEDIUMINT"; "INT"; "INTEGER"; "BIGINT"] dataType
  else if String.eqb valueType "decimal" then is_ok (keysetDecimalDefinition column)
  else if String.eqb valueType "string" then
    validKeysetCharacterMetadata column &&
    (contains ["CHAR"; "VARCHAR"; "TINYTEXT"; "TEXT"; "MEDIUMTEXT"; "LONGTEXT"; "ENUM"; "SET"] dataType && negb (String.eqb operator "like") ||
     String.eqb operator "like" && contains ["CHAR"; "VARCHAR"; "TINYTEXT"; "TEXT"; "MEDIUMTEXT"; "LONGTEXT"] dataType)
  else if String.eqb valueType "uuid" then
    validKeysetCharacterMetadata column &&
    contains ["CHAR"; "VARCHAR"; "TINYTEXT"; "TEXT"; "MEDIUMTEXT"; "LONGTEXT"] dataType &&
    from_option (fun length => 36 <=? length) false (kc_characterMaximumLength column)
  else if String.eqb valueType "date" then String.eqb dataType "DATE"
  else if String.eqb valueType "datetime" then String.eqb dataType "DATETIME" || String.eqb dataType "TIMESTAMP"
  else if String.eqb valueType "bytes" then
    contains ["BINARY"; "VARBINARY"; "TINYBLOB"; "BLOB"; "MEDIUMBLOB"; "LONGBLOB"] dataType
  else false.

Fixpoint validateKeysetFilterTypes (columns : keyset_columns) (filter : Filter) : error :=
  if String.eqb (f_kind filter) "group" then
    each (fun _ child => validateKeysetFilterTypes columns child) (f_expressions filter)
  else
    match keyset_column columns (f_field filter) with
    | None => Err invalid_error
    | Some column =>
        if String.eqb (f_representation filter) RepresentationSourceText then validateSourceTextType (kc_dataType column)
        else
          each (fun _ value => if? negb (keysetFilterTypeCompatible (tv_type value) (f_operator filter) column)
                               return invalid_error then nil_error) (values_of filter)
    end.

Definition keysetNumericColumnHasZerofill (column : keysetSourceColumn) (normalizedDataType : string) : bool :=
  contains ["TINYINT"; "SMALLINT"; "MEDIUMINT"; "INT"; "INTEGER"; "BIGINT"; "DECIMAL"; "NUMERIC"] normalizedDataType &&
  existsb (fun modifier => equal_fold modifier "ZEROFILL") (text_fields (kc_nativeType column)).

Definition keyset_result_column (source : keysetSource) (projection : Selection) : result ResultColumn :=
  match keyset_column (kx_columns source) (s_field projection) with
  | None => Err invalid_error
  | Some column =>
      if? keysetNumericColumnHasZerofill column (normal_type column) return invalid_error then
      if? contains ["FLOAT"; "DOUBLE"; "REAL"] (normal_type column) return invalid_error then
      let text := String.eqb (s_representation projection) RepresentationSourceText in
      Ok {| rc_name := selection_output projection;
            rc_type := if text then "string" else portableColumnType (kc_dataType column);
            rc_encoding := if text then "string" else resultEncoding (kc_dataType column);
            rc_nullable := kc_nullable column |}
  end.

Definition keysetResultColumns (request : NormalizedKeysetRequest) (source : keysetSource) : result (list ResultColumn) :=
  results (keyset_result_column source) (k_projection (nk_query request)).

(** ** The checks of the source, once its columns are read *)

Definition projection_column (columns : keyset_columns) (projection : Selection) : result keysetSourceColumn :=
  match keyset_column columns (s_field projection) with
  | None => Err invalid_error
  | Some column =>
      check? (if String.eqb (s_representation projection) RepresentationSourceText then validateSourceTextType (kc_dataType column)
              else nil_error) then
      Ok (with_column_representation column (s_representation projection))
  end.

Definition key_column (columns : keyset_columns) (order : Sort) : result (keysetSourceColumn * string) :=
  match keyset_column columns (o_field order) with
  | None => Err invalid_error
  | Some column =>
      if? kc_nullable column return invalid_error then
      let column := with_column_representation column (o_representation order) in
      let? kind := validateKeysetColumnType column in
      Ok (column, kind)
  end.

(** The indexes of the selections that project the field [name]. *)
Fixpoint projected_at (index : nat) (projection : list Selection) (name : string) : list nat :=
  match projection with
  | [] => []
  | s :: projection' =>
      if equal_fold (s_field s) name then index :: projected_at (S index) projection' name
      else projected_at (S index) projection' name
  end.

Definition key_index (projection : list Selection) (column : keysetSourceColumn) : result nat :=
  match projected_at 0 projection (kc_name column) with
  | [index] => Ok index
  | _ => Err invalid_error
  end.

Definition source_cursor_step (item : KeysetCursorValue * (keysetSourceColumn * string)) : error :=
  let '(value, (column, kind)) := item in
  if? negb (String.eqb (cv_type value) kind) return invalid_error then
  let? _ := bindKeysetCursor value column in nil_error.

Definition keyset_source_of (request : NormalizedKeysetRequest) (columns : keyset_columns) : result keysetSource :=
  let query := nk_query request in
  check? from_option (validateKeysetFilterTypes columns) nil_error (k_filter query) then
  let? projectionColumns := results (projection_column columns) (k_projection query) in
  let? keys := results (key_column columns) (k_order_by query) in
  let? keyIndexes := results (key_index (k_projection query)) (map fst keys) in
  check? (if String.eqb (pg_kind (nk_page request)) "after"
          then each (fun _ item => source_cursor_step item) (combine (cursor_of (nk_page request)) keys) else nil_error) then
  Ok {| kx_columns := columns; kx_projectionColumns := projectionColumns; kx_keyColumns := map fst keys;
        kx_keyKinds := map snd keys; kx_keyIndexes := keyIndexes |}.

(** The checks of [validateKeysetSource] on the rows of its second query, with their final error. *)
Definition keyset_source_rows (request : NormalizedKeysetRequest) (caseInsensitiveObjects : bool)
    (rows : list (result (string * string * keysetSourceColumn * string))) (err : error) : result keysetSource :=
  let referenced := KeysetReferencedFields request in
  let? columns := iter (fun _ scan columns =>
    keyset_column_step (k_source (nk_query request)) (map to_lower referenced) caseInsensitiveObjects scan columns) rows [] in
  check? err then
  if? negb (len columns =? len referenced) return invalid_error then
  keyset_source_of request columns.

(** ** The statement *)

(** The loop over the values of a predicate: their binds and their placeholders. *)
Fixpoint bind_operands (column : keysetSourceColumn) (values : list TypedValue) : result (list string * list Bind) :=
  match values with
  | [] => Ok ([], [])
  | value :: values' =>
      let? bound := bindKeysetFilterValue value column in
      let? placeholder := keysetFilterPlaceholder value column in
      let? (placeholders, args) := bind_operands column values' in
      Ok (placeholder :: placeholders, bound :: args)
  end.

Fixpoint compileKeysetFilter (columns : keyset_columns) (filter : Filter) : result (string * list Bind) :=
  if String.eqb (f_representation filter) RepresentationSourceText then
    compileSourceTextFilter filter (qualifyAggregateField (f_field filter))
  else if String.eqb (f_kind filter) "group" then
    let? (parts, args) := compile_all (compileKeysetFilter columns) (f_expressions filter) in
    Ok ("(" +:+ join (" " +:+ to_upper (f_operator filter) +:+ " ") parts +:+ ")", args)
  else
    match assoc operators (f_operator filter) with
    | None => Err (ErrorString "unsupported keyset filter operator")
    | Some operator =>
        let field := qualifyAggregateField (f_field filter) in
        if is_null_test (f_operator filter) then Ok (field +:+ " " +:+ operator, [])
        else
          match keyset_column columns (f_field filter) with
          | None => Err (ErrorString "unknown keyset filter field")
          | Some column =>
              let? (placeholders, args) := bind_operands column (values_of filter) in
              if is_membership (f_operator filter) then
                Ok (field +:+ " " +:+ operator +:+ " (" +:+ join ", " placeholders +:+ ")", args)
              else
                match placeholders with
                | placeholder :: _ => Ok (field +:+ " " +:+ operator +:+ " " +:+ placeholder, args)
                | [] => Err (ErrorString "index out of range")
                end
          end
    end.

(** A key of the order with the value of the cursor and the column it is compared with. *)
Record cursor_key := { ck_order : Sort; ck_value : KeysetCursorValue; ck_column : keysetSourceColumn }.

Definition key_expression (order : Sort) : string :=
  representedField (qualifyAggregateField (o_field order)) (o_representation order) true.

Definition cursor_term (operator : string) (key : cursor_key) : result (string * list Bind) :=
  let? placeholder := keysetCursorPlaceholder (ck_value key) (ck_column key) in
  let? bound := bindKeysetCursor (ck_value key) (ck_column key) in
  Ok (key_expression (ck_order key) +:+ " " +:+ operator +:+ " " +:+ placeholder, [bound]).

Definition cursor_operator (order : Sort) : string := if String.eqb (o_direction order) "desc" then "<" else ">".

(** One turn of the outer loop: equality on the keys before, and the comparison on [key]. *)
Definition cursor_part (before : list cursor_key) (key : cursor_key) : result (string * list Bind) :=
  let? (terms, args) := compile_all (cursor_term "=") before in
  let? (term, bound) := cursor_term (cursor_operator (ck_order key)) key in
  Ok ("(" +:+ join " AND " (terms ++ [term]) +:+ ")", (args ++ bound)%list).

Fixpoint cursor_parts (before keys : list cursor_key) : result (list string * list Bind) :=
  match keys with
  | [] => Ok ([], [])
  | key :: keys' =>
      let? (part, args) := cursor_part before key in
      let? (parts, rest) := cursor_parts (before ++ [key]) keys' in
      Ok (part :: parts, (args ++ rest)%list)
  end.

Fixpoint cursor_keys (orderBy : list Sort) (cursor : list KeysetCursorValue) (columns : list keysetSourceColumn) : option (list cursor_key) :=
  match orderBy, cursor, columns with
  | [], _, _ => Some []
  | order :: orderBy', value :: cursor', column :: columns' =>
      keys ← cursor_keys orderBy' cursor' columns';
      Some ({| ck_order := order; ck_value := value; ck_column := column |} :: keys)
  | _, _, _ => None
  end.

(** An index out of range, which panics, is an error here. *)
Definition compileKeysetCursor (request : NormalizedKeysetRequest) (source : keysetSource) : result (string * list Bind) :=
  match cursor_keys (k_order_by (nk_query request)) (cursor_of (nk_page request)) (kx_keyColumns source) with
  | None => Err (ErrorString "index out of range")
  | Some keys =>
      let? (parts, args) := cursor_parts [] keys in
      Ok ("(" +:+ join " OR " parts +:+ ")", args)
  end.

Definition keyset_projection (selection : Selection) : string :=
  representedField (qualifyAggregateField (s_field selection)) (s_representation selection) false +:+
  (if nonempty (s_alias selection) then " AS " +:+ quote (s_alias selection) else EmptyString).

(** The hidden markers: one for each character key. *)
Fixpoint character_markers (columns : list keysetSourceColumn) (kinds : list string) : result (list string) :=
  match columns, kinds with
  | column :: columns', kind :: kinds' =>
      if negb (String.eqb kind "string") || is_source_text column then character_markers columns' kinds'
      else
        if? negb (validKeysetCharacterMetadata column) return invalid_error then
        let field := qualifyAggregateField (kc_name column) in
        let? markers := character_markers columns' kinds' in
        Ok (keysetCharacterRoundTrip field field "utf8mb4" (kc_characterSet column) :: markers)
  | _, _ => Ok []
  end.

Definition keyset_order_term (order : Sort) : string := key_expression order +:+ " " +:+ to_upper (o_direction order).

(** The conditions of the statement: the filter and, after a cursor, its predicate. *)
Definition keyset_where (request : NormalizedKeysetRequest) (source : keysetSource) : result (list string * list Bind) :=
  let? (conditions, args) :=
    match k_filter (nk_query request) with
    | None => Ok ([], [])
    | Some filter => let? (text, args) := compileKeysetFilter (kx_columns source) filter in Ok ([text], args)
    end in
  if String.eqb (pg_kind (nk_page request)) "after" then
    let? (text, cursorArgs) := compileKeysetCursor request source in
    Ok (conditions ++ [text], args ++ cursorArgs)%list
  else Ok (conditions, args).

Definition compileKeyset (request : NormalizedKeysetRequest) (source : keysetSource) (deadlineMS : Z) : result (string * list Bind) :=
  if? negb (len (kx_keyColumns source) =? len (kx_keyKinds source)) return upstream_error then
  let query := nk_query request in
  let? markers := character_markers (kx_keyColumns source) (kx_keyKinds source) in
  let? (conditions, args) := keyset_where request source in
  Ok (select_head deadlineMS +:+ join ", " (map keyset_projection (k_projection query) ++ markers) +:+ " FROM " +:+
      quote (r_schema (k_source query)) +:+ "." +:+ quote (r_name (k_source query)) +:+ " AS " +:+ quote aggregateSourceAlias +:+
      (if len conditions =? 0 then EmptyString else " WHERE " +:+ join " AND " conditions) +:+
      " ORDER BY " +:+ join ", " (map keyset_order_term (k_order_by query)) +:+ " LIMIT ?",
      (args ++ [BindInt (k_limit query + 1)])%list).

(** ** The round trip of character operands *)

(** The text of a check of one value, which is bound twice. *)
Definition character_check (value : string) (column : keysetSourceColumn) : result (string * list Bind) :=
  if? negb (validKeysetCharacterMetadata column) || negb (valid_utf8 value) return invalid_error then
  Ok (keysetCharacterRoundTrip "CAST(? AS CHAR CHARACTER SET utf8mb4)" "?" (kc_characterSet column) "utf8mb4",
      [BindString value; BindString value]).

(** [(checks, args)] of two runs of [add] in a row. *)
Definition then_checks (first second : result (list string * list Bind)) : result (list string * list Bind) :=
  let? (checks, args) := first in
  let? (checks', args') := second in
  Ok (checks ++ checks', args ++ args')%list.

Definition checked_value (columns : keyset_columns) (field : string) (value : TypedValue) : result (list string * list Bind) :=
  if negb (contains ["string"; "uuid"] (tv_type value)) then Ok ([], [])
  else
    match keyset_column columns field, TypedValue_BindValue value with
    | Some column, Ok (BindString text) => let? (check, args) := character_check text column in Ok ([check], args)
    | _, _ => Err invalid_error
    end.

Fixpoint filter_checks (columns : keyset_columns) (filter : Filter) : result (list string * list Bind) :=
  if String.eqb (f_kind filter) "group" then
    fold_right (fun child rest => then_checks (filter_checks columns child) rest) (Ok ([], [])) (f_expressions filter)
  else if String.eqb (f_representation filter) RepresentationSourceText then Ok ([], [])
  else fold_right (fun value rest => then_checks (checked_value columns (f_field filter) value) rest) (Ok ([], [])) (values_of filter).

Definition cursor_check (item : KeysetCursorValue * keysetSourceColumn) : result (list string * list Bind) :=
  let '(value, column) := item in
  if String.eqb (cv_type value) "string" && negb (is_source_text column) then
    let? (check, args) := character_check (cv_value value) column in Ok ([check], args)
  else Ok ([], []).

(** An empty statement when there is nothing to check. *)
Definition compileKeysetCharacterValidation (request : NormalizedKeysetRequest) (source : keysetSource) : result (string * list Bind) :=
  let cursor := cursor_of (nk_page request) in
  let? (checks, args) := then_checks
    (from_option (filter_checks (kx_columns source)) (Ok ([], [])) (k_filter (nk_query request)))
    (if String.eqb (pg_kind (nk_page request)) "after" then
       if? negb (len cursor =? len (kx_keyColumns source)) return invalid_error then
       fold_right (fun item rest => then_checks (cursor_check item) rest) (Ok ([], [])) (combine cursor (kx_keyColumns source))
     else Ok ([], [])) in
  if len checks =? 0 then Ok (EmptyString, [])
  else Ok ("SELECT " +:+ join ", " checks, args).

(** ** Reading the statement back *)

(** A one-byte rune of a text is that byte. *)
Definition rune_coded (r : rune) : Prop :=
  match r with Rune code (String c EmptyString) => code = byte c | _ => True end.

Lemma runes_coded s : Forall rune_coded (runes s).
Proof.
  induction s as [s IH] using (induction_ltof1 _ String.length). unfold ltof in IH.
  destruct s as [|c0 r0]; [constructor|]. cbn [runes].
  repeat match goal with |- context [match ?x with _ => _ end] => destruct x eqn:? end; subst;
    constructor; try done; apply IH; cbn; lia.
Qed.

Lemma lower_no_backtick c : Ascii.eqb (lower_ascii c) backtick = Ascii.eqb c backtick.
Proof.
  assert (Hb : all_bytes (fun c => Bool.eqb (Ascii.eqb (lower_ascii c) backtick) (Ascii.eqb c backtick)) = true) by (vm_compute; reflexivity).
  pose proof (all_bytes_spec _ Hb c) as H. by apply Bool.eqb_prop in H.
Qed.

Lemma high_no_backtick s : sforall high_byte s = true -> no_byte backtick s.
Proof. apply sforall_impl. intros c Hc. destruct (Ascii.eqb_spec c backtick) as [->|]; [discriminate Hc|done]. Qed.

(** A name of the catalog that matches an identifier has no backtick. *)
Lemma lower_name_no_backtick s : no_byte backtick (lower_name s) -> no_byte backtick s.
Proof.
  intros H. rewrite <- (proj1 (runes_bytes s)). destruct (runes_bytes s) as [_ Hs]. pose proof (runes_coded s) as Hc.
  unfold lower_name in H. revert H Hs Hc. generalize (runes s). intros l. unfold no_byte.
  induction l as [|r l IH]; intros H Hs Hc; [done|]. apply Forall_cons in Hs as [Hr Hs]. apply Forall_cons in Hc as [Hcode Hc].
  cbn [map] in *. rewrite !sconcat_cons, !sforall_app, !andb_true_iff in *. destruct H as [H1 H2]. split; [|by apply IH].
  destruct r as [code bytes|c]; [|done]. cbn [rune_bytes lower_rune] in *. destruct Hr as (c & rest & E & Hr & Hh). cbn in E. subst bytes.
  destruct (is_ascii c) eqn:Ha.
  - destruct Hr as [->|[=]]. cbn in Hcode. subst code. unfold is_ascii in Ha. apply Z.ltb_lt in Ha.
    rewrite (proj2 (Z.eqb_neq (byte c) 0x212A)), (proj2 (Z.eqb_neq (byte c) 0x130)) in H1 by lia.
    cbn [to_lower smap sforall] in *. by rewrite lower_no_backtick in H1.
  - apply high_no_backtick. cbn [sforall]. unfold high_byte at 1. by rewrite Ha.
Qed.

Lemma plain_text (p : ascii -> bool) s : all_bytes (fun c => implb (p c) (plain_char c && negb (Ascii.eqb c "?"))) = true ->
  sforall p s = true -> piece s [] 0.
Proof.
  intros Hp Hs. assert (H : forall c, p c = true -> plain_char c = true /\ Ascii.eqb c "?" = false).
  { intros c Hc. pose proof (all_bytes_spec _ Hp c) as H. cbv beta in H. rewrite Hc in H. cbn [implb] in H.
    apply andb_true_iff in H as [H1 H2]. by apply negb_true_iff in H2. }
  eapply piece_eq; [apply piece_plain; eapply sforall_impl; [|exact Hs]; intros c Hc; by apply H|done|].
  revert Hs. induction s as [|c s IH]; [done|]. cbn [sforall count_marks]. intros [Hc Hs]%andb_true_iff.
  rewrite (proj2 (H c Hc)), IH by done. lia.
Qed.

Lemma piece_character_name n : validMySQLCharacterName n = true -> piece n [] 0.
Proof.
  intros Hn. apply (plain_text is_name_char); [vm_compute; reflexivity|]. unfold validMySQLCharacterName in Hn.
  destruct n; [done|]. by apply andb_true_iff in Hn as [_ Hn].
Qed.

Lemma piece_mark pre post : piece pre [] 1 -> piece post [] 0 -> piece (pre +:+ post) [] 1.
Proof. intros H1 H2. exact (piece_app _ _ [] [] 1 0 H1 H2). Qed.

Lemma piece_character_operand column text : keysetCharacterOperand column = Ok text -> piece text [] 1.
Proof.
  unfold keysetCharacterOperand. intros [Hm [= <-]]%if_err_ok. apply negb_false_iff, andb_true_iff in Hm as [H1 H2].
  apply piece_mark; [piece_lit|]. apply piece_pre with (pre := kc_characterSet column); [by apply piece_character_name|].
  apply piece_pre; [piece_lit|by apply piece_character_name].
Qed.

Lemma piece_datetime_operand digits : piece (datetime_operand digits) [] 1.
Proof. apply piece_mark; [piece_lit|]. apply piece_pre; [apply piece_itoa|piece_lit]. Qed.

Lemma piece_filter_placeholder value column text : keysetFilterPlaceholder value column = Ok text -> piece text [] 1.
Proof.
  unfold keysetFilterPlaceholder. destruct (contains ["string"; "uuid"] (tv_type value)); [apply piece_character_operand|].
  destruct (String.eqb (tv_type value) "date"); [intros [= <-]; piece_lit|].
  destruct (String.eqb (tv_type value) "datetime").
  { intros (digits & _ & [= <-])%rbind_ok. apply piece_datetime_operand. }
  destruct (String.eqb (tv_type value) "decimal"); [|intros [= <-]; piece_lit].
  intros ([precision scale] & _ & [= <-])%rbind_ok. apply piece_mark; [piece_lit|].
  apply piece_pre; [apply piece_itoa|]. apply piece_pre; [piece_lit|]. apply piece_pre; [apply piece_itoa|piece_lit].
Qed.

Lemma piece_cursor_placeholder value column text : keysetCursorPlaceholder value column = Ok text -> piece text [] 1.
Proof.
  unfold keysetCursorPlaceholder. destruct (is_source_text column); [intros [= <-]; piece_lit|].
  destruct (String.eqb (cv_type value) "string"); [apply piece_character_operand|].
  destruct (String.eqb (cv_type value) "date"); [intros [= <-]; piece_lit|].
  destruct (contains ["datetime"; "timestamp"] (cv_type value)); [|intros [= <-]; piece_lit].
  intros (digits & _ & [= <-])%rbind_ok. apply piece_datetime_operand.
Qed.

Section KeysetPieces.
Context (P : string -> Prop) (Hsource : P aggregateSourceAlias).

Lemma bind_operands_ok column values placeholders args : bind_operands column values = Ok (placeholders, args) ->
  Forall (fun p => piece p [] 1) placeholders /\ len placeholders = len values /\ len args = len values.
Proof.
  revert placeholders args. induction values as [|v values IH]; intros placeholders args; cbn [bind_operands].
  - intros [= <- <-]. by split_and!.
  - intros H. apply rbind_ok in H as (b & _ & H). apply rbind_ok in H as (p & Hp%piece_filter_placeholder & H).
    apply rbind_ok in H as ([ps bs] & (H1 & H2 & H3)%IH & [= <- <-]). rewrite !len_cons. split_and!; [by constructor|lia|lia].
Qed.

Lemma piece_join_marks sep texts : piece sep [] 0 -> Forall (fun p => piece p [] 1) texts -> piece_in P (join sep texts) (len texts).
Proof.
  intros Hs Ht. eapply piece_in_eq; [apply (piece_in_join P sep (fun _ : string => 1) texts texts Hs)|].
  - induction Ht; constructor; [|done]. exists []. by split; [|constructor].
  - clear. induction texts as [|t l IH]; [done|]. rewrite len_cons, <- IH. done.
Qed.

(** A comparison of a field with operands. *)
Lemma piece_in_comparison expression operator text k : piece_in P expression 0 -> piece operator [] 0 -> piece_in P text k ->
  piece_in P (expression +:+ " " +:+ operator +:+ " " +:+ text) k.
Proof.
  intros He Ho Ht. apply (piece_in_eq _ _ (0 + k)); [|lia]. apply piece_in_app; [done|].
  apply piece_in_pre; [piece_lit|]. apply piece_in_pre; [done|]. by apply piece_in_pre; [piece_lit|].
Qed.

Lemma source_text_filter_ok field f text args : filter_ok f -> f_representation f = RepresentationSourceText -> f_field f = field -> P field ->
  compileSourceTextFilter f (qualifyAggregateField field) = Ok (text, args) -> piece_in P text (parameters_of f) /\ len args = parameters_of f.
Proof.
  intros Hok Hr <- HP Hc.
  destruct (compile_filter_ok qualifyAggregateField (fun x => [aggregateSourceAlias; x])) with (f := f) as (text' & args' & E & Hp & Hb); [|done|].
  { intros x Hx. unfold qualifyAggregateField. apply (piece_eq _ ([aggregateSourceAlias] ++ [x])%list (0 + 0)); [|done..].
    apply piece_app; [apply piece_quote; reflexivity|]. apply piece_pre; [piece_lit|]. by apply piece_quote, identifier_no_backtick. }
  assert (E' : compile_filter qualifyAggregateField f = compileSourceTextFilter f (qualifyAggregateField (f_field f))) by (destruct f; cbn in *; subst; done).
  rewrite E', Hc in E. injection E as <- <-. split.
  - eexists. split; [exact Hp|]. inversion Hok as [r fl op vs Hrep|]; subst; [|done]. unfold filter_names. cbn. by repeat constructor.
  - apply Forall2_length in Hb. unfold len. rewrite <- Hb. apply filter_values_len.
Qed.

Lemma keyset_filter_ok columns f : filter_ok f -> (forall x, In x (collectFields f) -> P x) ->
  forall text args, compileKeysetFilter columns f = Ok (text, args) -> piece_in P text (parameters_of f) /\ len args = parameters_of f.
Proof.
  induction f as [r k fl o vs es IH] using Filter_ind'. intros Hok HP text args. pose proof Hok as Hok'.
  inversion Hok' as [r' fl' op values Hrep Hf Hn Ha Hv|op exprs Ho Hl Hes]; subst; cbn [compileKeysetFilter f_representation f_kind f_field f_operator f_expressions].
  - assert (Hfield : P fl) by (apply HP; cbn; auto).
    destruct (String.eqb_spec r RepresentationSourceText) as [->|Hr]; [by apply (source_text_filter_ok fl)|].
    change (String.eqb "predicate" "group") with false. cbv iota.
    destruct (operator_text o (len values) Ha) as (t & Et & Hpt & Hcase). rewrite Et.
    pose proof (piece_in_field P Hsource fl Hf Hfield) as Hq.
    assert (Hpar : parameters_of (MkFilter r "predicate" fl o (Some values) []) = len values) by (cbn; unfold values_of; cbn; lia).
    rewrite Hpar. destruct (is_null_test o) eqn:Hnull.
    { intros [= <- <-]. rewrite (null_values o values Ha Hnull). split; [|done]. apply (piece_in_eq _ _ (0 + 0)); [|done].
      apply piece_in_app; [done|]. apply piece_in_pre; [piece_lit|by apply piece_in_lit]. }
    destruct (keyset_column columns fl) as [column|]; [|done]. rewrite values_of_some. intros ([ps bs] & (H1 & H2 & H3)%bind_operands_ok & H)%rbind_ok.
    destruct (is_membership o) eqn:Hm.
    + injection H as <- <-. split; [|done]. rewrite <- H2. apply (piece_in_eq _ _ (0 + len ps)); [|lia]. apply piece_in_app; [done|].
      apply piece_in_pre; [piece_lit|]. apply piece_in_pre; [done|]. apply piece_in_wrap; [piece_lit|piece_lit|]. by apply piece_join_marks; [piece_lit|].
    + destruct Hcase as [[[=] _]|[(_ & [=] & _)|(_ & _ & Hone)]]. destruct ps as [|p ps]; [done|]. injection H as <- <-. split; [|done].
      rewrite Hone. apply piece_in_comparison; [done|done|]. exists []. apply Forall_cons in H1 as [H1 _]. by split; [|constructor].
  - change (String.eqb EmptyString RepresentationSourceText) with false. rewrite String.eqb_refl. cbv iota.
    intros ([parts bs] & Hall & [= <- <-])%rbind_ok.
    assert (Hparts : Forall2 (fun e s => piece_in P s (parameters_of e)) es parts /\ len bs = sum_of parameters_of es).
    { clear Hok Hok' Hl. revert parts bs Hall. induction es as [|e es IHes]; intros parts bs Hall; cbn [compile_all] in Hall.
      - by injection Hall as <- <-.
      - apply rbind_ok in Hall as ([p b] & Hp & Hall). apply rbind_ok in Hall as ([ps bs'] & Hps & [= <- <-]).
        apply Forall_cons in IH as [IHe IH]. apply Forall_cons in Hes as [He Hes].
        destruct (IHe He ltac:(intros x Hx; apply HP; cbn; apply in_or_app; by left) _ _ Hp) as [Hp1 Hp2].
        destruct (IHes IH ltac:(intros x Hx; apply HP; cbn in *; apply in_or_app; by right) Hes _ _ Hps) as [Hq1 Hq2].
        rewrite len_app. split; [by constructor|]. change (sum_of parameters_of (e :: es)) with (parameters_of e + sum_of parameters_of es). lia. }
    destruct Hparts as [H1 H2]. change (parameters_of (MkFilter "" "group" "" o None es)) with (0 + sum_of parameters_of es).
    rewrite Z.add_0_l. split; [|done]. apply piece_in_wrap; [piece_lit|piece_lit|]. apply piece_in_join; [|done].
    cbn in Ho. destruct Ho as [<-|[<-|[]]]; piece_lit.
Qed.
End KeysetPieces.

(** ** The cursor predicate *)

(** The condition of a page after a cursor: one alternative for each key, equality on the
    keys before it and the comparison of its direction on itself. *)
Fixpoint cursor_predicate (before keys : list cursor_key) : list (list (string * cursor_key)) :=
  match keys with
  | [] => []
  | key :: keys' =>
      (map (pair "=") before ++ [(cursor_operator (ck_order key), key)])%list :: cursor_predicate (before ++ [key]) keys'
  end.

Definition comparison_text (term : string * cursor_key) : result (string * list Bind) := cursor_term term.1 term.2.

Definition conjunction_text (terms : list (string * cursor_key)) : result (string * list Bind) :=
  let? (texts, args) := compile_all comparison_text terms in
  Ok ("(" +:+ join " AND " texts +:+ ")", args).

Lemma compile_all_app {A} (f : A -> result (string * list Bind)) a b :
  compile_all f (a ++ b) =
  let? (texts, args) := compile_all f a in let? (texts', args') := compile_all f b in Ok (texts ++ texts', args ++ args')%list.
Proof.
  induction a as [|x a IH]; cbn [compile_all Datatypes.app].
  - cbn [rbind]. by destruct (compile_all f b) as [[]|].
  - destruct (f x) as [[t c]|]; [|done]. cbn [rbind]. rewrite IH. destruct (compile_all f a) as [[ts cs]|]; [|done].
    cbn [rbind]. destruct (compile_all f b) as [[us ds]|]; [|done]. cbn [rbind]. by rewrite app_assoc.
Qed.

Lemma compile_all_map {A B} (g : B -> A) (f : A -> result (string * list Bind)) l :
  compile_all f (map g l) = compile_all (fun x => f (g x)) l.
Proof. induction l as [|x l IH]; [done|]. cbn [map compile_all]. by rewrite IH. Qed.

Lemma cursor_part_predicate before key :
  cursor_part before key = conjunction_text (map (pair "=") before ++ [(cursor_operator (ck_order key), key)]).
Proof.
  unfold cursor_part, conjunction_text. rewrite compile_all_app, compile_all_map.
  change (fun x => comparison_text ("=", x)) with (cursor_term "=").
  destruct (compile_all (cursor_term "=") before) as [[ts bs]|]; [|done]. cbn [rbind compile_all]. unfold comparison_text; cbn [fst snd].
  destruct (cursor_term (cursor_operator (ck_order key)) key) as [[t b]|]; [|done]. cbn [rbind]. by rewrite app_nil_r.
Qed.

Lemma cursor_parts_predicate keys : forall before,
  cursor_parts before keys = compile_all conjunction_text (cursor_predicate before keys).
Proof.
  induction keys as [|key keys IH]; intros before; [done|]. cbn [cursor_parts cursor_predicate compile_all].
  by rewrite cursor_part_predicate, IH.
Qed.

(** What the condition means, for any comparison of a row with the operand of a key. *)
Section Meaning.
Context {Row : Type} (compare : Row -> cursor_key -> comparison).

Definition holds (row : Row) (term : string * cursor_key) : Prop :=
  let '(operator, key) := term in
  (operator = "=" /\ compare row key = Eq) \/ (operator = "<" /\ compare row key = Lt) \/ (operator = ">" /\ compare row key = Gt).

Definition satisfies (row : Row) (predicate : list (list (string * cursor_key))) : Prop :=
  Exists (Forall (holds row)) predicate.

(** The row comes strictly after the cursor in the order of the keys. *)
Fixpoint after_cursor (row : Row) (keys : list cursor_key) : Prop :=
  match keys with
  | [] => False
  | key :: keys' =>
      compare row key = (if String.eqb (o_direction (ck_order key)) "desc" then Lt else Gt) \/
      compare row key = Eq /\ after_cursor row keys'
  end.

Lemma holds_equal row key : holds row ("=", key) <-> compare row key = Eq.
Proof. unfold holds. naive_solver. Qed.

Lemma holds_directed row key :
  holds row (cursor_operator (ck_order key), key) <->
  compare row key = (if String.eqb (o_direction (ck_order key)) "desc" then Lt else Gt).
Proof. unfold holds, cursor_operator. destruct (String.eqb _ _); naive_solver. Qed.

Lemma cursor_predicate_meaning row keys : forall before,
  satisfies row (cursor_predicate before keys) <-> Forall (fun key => compare row key = Eq) before /\ after_cursor row keys.
Proof.
  induction keys as [|key keys IH]; intros before; unfold satisfies in *; cbn [cursor_predicate after_cursor].
  - rewrite Exists_nil. tauto.
  - rewrite Exists_cons, IH, !Forall_app, !Forall_singleton, Forall_map, holds_directed.
    setoid_rewrite holds_equal. tauto.
Qed.
End Meaning.

(** A value that binds has a placeholder. *)
Lemma bound_has_placeholder value column bound : bindKeysetCursor value column = Ok bound ->
  exists text, keysetCursorPlaceholder value column = Ok text.
Proof.
  unfold bindKeysetCursor, keysetCursorPlaceholder. destruct (is_source_text column); [by eauto|].
  destruct (String.eqb_spec (cv_type value) "integer") as [->|Hi]; [by eexists|].
  destruct (String.eqb_spec (cv_type value) "string") as [Hs|Hs].
  - destruct (kc_characterMaximumLength column); [|done]. intros [Hm _]%if_err_ok.
    apply orb_false_iff in Hm as [Hm _]. apply orb_false_iff in Hm as [Hm _]. unfold keysetCharacterOperand. rewrite Hm. eauto.
  - destruct (String.eqb_spec (cv_type value) "bytes") as [->|Hb]; [by eexists|].
    destruct (String.eqb_spec (cv_type value) "date") as [->|Hd]; [by eexists|].
    destruct (contains ["datetime"; "timestamp"] (cv_type value)) eqn:Ht; [|intros _; by eexists].
    assert (Hc : contains ["date"; "datetime"; "timestamp"] (cv_type value) = true) by (cbn in *; by rewrite Ht, orb_true_r).
    rewrite Hc. intros H. unfold bindMySQLKeysetTemporalCursor in H. rewrite (proj2 (String.eqb_neq _ _) Hd) in H.
    destruct (mysqlKeysetTemporalPrecision column) as [p|]; [by eexists|].
    repeat case_match; done.
Qed.

Lemma cursor_term_total operator key bound : bindKeysetCursor (ck_value key) (ck_column key) = Ok bound ->
  exists text, cursor_term operator key = Ok (text, [bound]).
Proof.
  intros H. destruct (bound_has_placeholder _ _ _ H) as [p Hp]. unfold cursor_term. rewrite Hp, H. by eexists.
Qed.

Lemma compile_all_total {A} (f : A -> result (string * list Bind)) l :
  Forall (fun x => exists y, f x = Ok y) l -> exists y, compile_all f l = Ok y.
Proof.
  induction 1 as [|x l [[t b] Hx] _ [[ts bs] IH]]; [by eexists|]. cbn [compile_all]. rewrite Hx. cbn [rbind]. rewrite IH. by eexists.
Qed.

Definition key_binds (key : cursor_key) : Prop := exists bound, bindKeysetCursor (ck_value key) (ck_column key) = Ok bound.

Lemma cursor_predicate_keys keys : forall before, Forall key_binds before -> Forall key_binds keys ->
  Forall (Forall (fun term => key_binds term.2)) (cursor_predicate before keys).
Proof.
  induction keys as [|key keys IH]; intros before Hb Hk; [constructor|]. apply Forall_cons in Hk as [H Hk]. cbn [cursor_predicate].
  constructor; [|apply IH; [by apply Forall_app; split; [|constructor]|done]].
  apply Forall_app. split; [by apply Forall_map|by repeat constructor].
Qed.

Lemma cursor_parts_total keys : Forall key_binds keys -> exists y, cursor_parts [] keys = Ok y.
Proof.
  intros H. rewrite cursor_parts_predicate. apply compile_all_total.
  eapply Forall_impl; [apply (cursor_predicate_keys keys []); [constructor|exact H]|].
  intros terms Hterms. unfold conjunction_text.
  destruct (compile_all_total comparison_text terms) as [[ts bs] ->]; [|by eexists].
  eapply Forall_impl; [exact Hterms|]. intros [operator key] [bound Hb]. cbn in Hb.
  destruct (cursor_term_total operator key bound Hb) as [t Ht]. exists (t, [bound]). exact Ht.
Qed.

(** ** What the checks of the source establish *)

Record source_checked (request : NormalizedKeysetRequest) (columns : keyset_columns) (source : keysetSource) : Prop := {
  sd_columns : kx_columns source = columns;
  sd_projection : Forall2 (fun s c => projection_column columns s = Ok c) (k_projection (nk_query request)) (kx_projectionColumns source);
  sd_keys : Forall2 (fun o key => key_column columns o = Ok key) (k_order_by (nk_query request)) (combine (kx_keyColumns source) (kx_keyKinds source));
  sd_kinds : len (kx_keyColumns source) = len (kx_keyKinds source);
  sd_indexes : Forall2 (fun c i => key_index (k_projection (nk_query request)) c = Ok i) (kx_keyColumns source) (kx_keyIndexes source);
  sd_cursor : pg_kind (nk_page request) = "after" ->
    Forall (fun item => source_cursor_step item = Ok tt)
      (combine (cursor_of (nk_page request)) (combine (kx_keyColumns source) (kx_keyKinds source)));
}.

Lemma combine_pairs {A B} (l : list (A * B)) : combine (map fst l) (map snd l) = l.
Proof. induction l as [|[a b] l IH]; [done|]. cbn. by rewrite IH. Qed.

Lemma keyset_source_of_checked request columns source : keyset_source_of request columns = Ok source -> source_checked request columns source.
Proof.
  unfold keyset_source_of. intros H. apply check_ok' in H as [_ H]. apply rbind_ok in H as (ps & Hp%results_iff & H).
  apply rbind_ok in H as (keys & Hk%results_iff & H). apply rbind_ok in H as (indexes & Hi%results_iff & H). apply check_ok' in H as [Hc [= <-]].
  constructor; cbn [kx_columns kx_projectionColumns kx_keyColumns kx_keyKinds kx_keyIndexes]; rewrite ?combine_pairs; try done.
  - by rewrite !len_map.
  - intros Ha. rewrite Ha, String.eqb_refl in Hc. by apply (each_ok_Forall _ (fun item => source_cursor_step item = Ok tt)) in Hc.
Qed.

(** The keys of the cursor predicate: the terms of the order with the values of the cursor. *)
Lemma cursor_keys_total orderBy : forall cursor columns, len cursor = len orderBy -> len columns = len orderBy ->
  exists keys, cursor_keys orderBy cursor columns = Some keys /\ map ck_order keys = orderBy /\ map ck_value keys = cursor /\ map ck_column keys = columns.
Proof.
  induction orderBy as [|o l IH]; intros [|v cursor] [|c columns]; rewrite ?len_cons, ?len_nil; intros H1 H2;
    try (exfalso; repeat match goal with H : context [len ?x] |- _ => lazymatch goal with _ : 0 <= len x |- _ => fail | _ => pose proof (len_nonneg x) end end; lia).
  - by exists [].
  - destruct (IH cursor columns) as (keys & E & <- & <- & <-); [lia..|]. eexists. cbn [cursor_keys]. rewrite E. by split_and!.
Qed.

Lemma compile_all_piece {A} P (f : A -> result (string * list Bind)) sep l : piece sep [] 0 ->
  Forall (fun x => forall t b, f x = Ok (t, b) -> piece_in P t (len b)) l ->
  forall ts bs, compile_all f l = Ok (ts, bs) -> piece_in P (join sep ts) (len bs).
Proof.
  intros Hsep. induction 1 as [|x l Hx _ IH]; intros ts bs; cbn [compile_all].
  - intros [= <- <-]. apply piece_in_lit, piece_nil.
  - intros H. apply rbind_ok in H as ([t b] & Et & H). apply rbind_ok in H as ([us cs] & Eu & [= <- <-]).
    specialize (Hx _ _ Et). specialize (IH _ _ Eu). rewrite len_app. destruct us as [|u us].
    + cbn [join]. assert (cs = []) as ->; [|by rewrite len_nil, Z.add_0_r].
      destruct l as [|y l]; cbn [compile_all] in Eu; [by injection Eu as <-|]. apply rbind_ok in Eu as ([] & _ & Eu). apply rbind_ok in Eu as ([] & _ & [=]).
    + change (join sep (t :: u :: us)) with (t +:+ sep +:+ join sep (u :: us)). apply piece_in_app; [done|by apply piece_in_pre].
Qed.

Lemma conjunction_args keys : forall before parts args, compile_all conjunction_text (cursor_predicate before keys) = Ok (parts, args) ->
  len args = sum_of Z.of_nat (seq (S (List.length before)) (List.length keys)).
Proof.
  assert (Hone : forall terms t b, conjunction_text terms = Ok (t, b) -> len b = len terms).
  { intros terms t b H. unfold conjunction_text in H. apply rbind_ok in H as ([ts bs] & H & [= <- <-]).
    revert ts bs H. induction terms as [|[o k] terms IH]; intros ts bs; cbn [compile_all]; [by intros [= <- <-]|].
    intros H. apply rbind_ok in H as ([u c] & Hu & H). apply rbind_ok in H as ([us cs] & Hus & [= <- <-]).
    unfold comparison_text, cursor_term in Hu. apply rbind_ok in Hu as (p & _ & Hu). apply rbind_ok in Hu as (b & _ & [= <- <-]).
    rewrite len_app, len_cons, len_nil, len_cons, (IH _ _ Hus). lia. }
  induction keys as [|key keys IH]; intros before parts args; cbn [cursor_predicate compile_all]; [by intros [= <- <-]|].
  intros H. apply rbind_ok in H as ([t b] & Ht%Hone & H). apply rbind_ok in H as ([ts bs] & Hts%IH & [= <- <-]).
  rewrite len_app, Ht, Hts, len_app, len_map, length_app. cbn [List.length seq]. rewrite Nat.add_1_r.
  change (sum_of Z.of_nat (S (List.length before) :: seq (S (S (List.length before))) (List.length keys)))
    with (Z.of_nat (S (List.length before)) + sum_of Z.of_nat (seq (S (S (List.length before))) (List.length keys))).
  unfold len. cbn [List.length]. lia.
Qed.

Lemma page_after orderBy page : page_ok orderBy page -> pg_kind page = "after" -> len (cursor_of page) = len orderBy.
Proof. intros H. destruct H as [|cursor H]; [done|]. intros _. unfold cursor_of; cbn. unfold len. by rewrite (Forall2_length _ _ _ H). Qed.

Lemma source_checked_length request columns source : source_checked request columns source ->
  len (kx_keyColumns source) = len (k_order_by (nk_query request)).
Proof.
  intros [_ _ Hk Hl _ _]. apply Forall2_length in Hk. rewrite length_combine in Hk. unfold len in *. lia.
Qed.

Lemma keyset_cursor_compiles request columns source : keyset_source_of request columns = Ok source ->
  page_ok (k_order_by (nk_query request)) (nk_page request) -> pg_kind (nk_page request) = "after" ->
  exists keys parts args,
    cursor_keys (k_order_by (nk_query request)) (cursor_of (nk_page request)) (kx_keyColumns source) = Some keys /\
    map ck_order keys = k_order_by (nk_query request) /\ map ck_value keys = cursor_of (nk_page request) /\
    map ck_column keys = kx_keyColumns source /\
    compile_all conjunction_text (cursor_predicate [] keys) = Ok (parts, args) /\
    compileKeysetCursor request source = Ok ("(" +:+ join " OR " parts +:+ ")", args) /\
    len args = page_parameters (nk_page request).
Proof.
  intros Hs%keyset_source_of_checked Hpage Ha. pose proof (page_after _ _ Hpage Ha) as Hc. pose proof (source_checked_length _ _ _ Hs) as Hl.
  destruct (cursor_keys_total _ _ _ Hc Hl) as (keys & Ek & Ho & Hv & Hcol).
  assert (Hbinds : Forall key_binds keys).
  { pose proof (sd_cursor _ _ _ Hs Ha) as Hall. pose proof (sd_kinds _ _ _ Hs) as Hk. rewrite <- Hv, <- Hcol in Hall. rewrite <- Hcol in Hk. clear -Hall Hk.
    revert Hall Hk. generalize (kx_keyKinds source). induction keys as [|key keys IH]; intros kinds Hall Hk; [constructor|].
    destruct kinds as [|kind kinds]; [cbn in Hk; rewrite len_cons, len_nil in Hk; pose proof (len_nonneg (map ck_column keys)); lia|].
    cbn in Hall. apply Forall_cons in Hall as [H Hall]. constructor; [|apply (IH kinds); [done|cbn in Hk; rewrite !len_cons in Hk; lia]].
    unfold source_cursor_step in H. apply if_err_ok in H as [_ H]. apply rbind_ok in H as (b & Hb & _). by exists b. }
  destruct (cursor_parts_total keys Hbinds) as [[parts args] Hparts]. exists keys, parts, args.
  rewrite cursor_parts_predicate in Hparts. split_and!; try done.
  - unfold compileKeysetCursor. by rewrite Ek, cursor_parts_predicate, Hparts.
  - rewrite (conjunction_args _ _ _ _ Hparts). unfold page_parameters. rewrite <- Hv. by rewrite length_map.
Qed.

(** C14: the condition of a page after a cursor. For a source that was checked, the cursor
    compiles, without an error, to the disjunction over the keys of: equality with
    the cursor on each key before and the comparison, in the direction of the order, on the
    key itself; every comparison is between a key of the order and the operand of
    its own cursor value, bound in the order of the text; and, however the database
    compares a row with an operand, the condition selects exactly the rows that come strictly
    after the cursor in the lexicographic order of the request. *)
Theorem keyset_cursor_exact request columns source : keyset_source_of request columns = Ok source ->
  page_ok (k_order_by (nk_query request)) (nk_page request) -> pg_kind (nk_page request) = "after" ->
  exists keys parts args,
    map ck_order keys = k_order_by (nk_query request) /\ map ck_value keys = cursor_of (nk_page request) /\
    map ck_column keys = kx_keyColumns source /\
    compile_all conjunction_text (cursor_predicate [] keys) = Ok (parts, args) /\
    compileKeysetCursor request source = Ok ("(" +:+ join " OR " parts +:+ ")", args) /\
    len args = page_parameters (nk_page request) /\
    forall (Row : Type) (compare : Row -> cursor_key -> comparison) row,
      satisfies compare row (cursor_predicate [] keys) <-> after_cursor compare row keys.
Proof.
  intros Hs Hp Ha. destruct (keyset_cursor_compiles request columns source Hs Hp Ha) as (keys & parts & args & _ & H1 & H2 & H3 & H4 & H5 & H6).
  exists keys, parts, args. split_and!; try done. intros Row compare row. rewrite cursor_predicate_meaning. split; [by intros [_ ?]|]. intros H. split; [constructor|done].
Qed.

(** ** The statement *)

Section Statement.
Context (P : string -> Prop) (Hsource : P aggregateSourceAlias).

Lemma piece_in_key order : sort_ok order -> P (o_field order) -> piece_in P (key_expression order) 0.
Proof. intros (_ & Hf & _) HP. apply piece_in_represented. by apply piece_in_field. Qed.

Definition term_ok (term : string * cursor_key) : Prop :=
  piece term.1 [] 0 /\ sort_ok (ck_order term.2) /\ P (o_field (ck_order term.2)).

Lemma comparison_piece term t b : term_ok term -> comparison_text term = Ok (t, b) -> piece_in P t (len b).
Proof.
  intros (Ho & Hs & HP) H. unfold comparison_text, cursor_term in H. apply rbind_ok in H as (p & Hp%piece_cursor_placeholder & H).
  apply rbind_ok in H as (bound & _ & [= <- <-]). rewrite len_cons, len_nil.
  apply piece_in_comparison; [by apply piece_in_key|done|]. exists []. by split; [|constructor].
Qed.

Lemma conjunction_piece terms t b : Forall term_ok terms -> conjunction_text terms = Ok (t, b) -> piece_in P t (len b).
Proof.
  intros Ht H. unfold conjunction_text in H. apply rbind_ok in H as ([ts bs] & H & [= <- <-]).
  apply piece_in_wrap; [piece_lit|piece_lit|]. eapply compile_all_piece; [piece_lit| |exact H].
  eapply Forall_impl; [exact Ht|]. intros term Hterm u c. by apply comparison_piece.
Qed.

Lemma cursor_predicate_terms keys : forall before,
  Forall (fun key => sort_ok (ck_order key) /\ P (o_field (ck_order key))) (before ++ keys) ->
  Forall (Forall term_ok) (cursor_predicate before keys).
Proof.
  induction keys as [|key keys IH]; intros before H; [constructor|]. cbn [cursor_predicate].
  pose proof H as H'. apply Forall_app in H' as [Hb Hk]. apply Forall_cons in Hk as [Hk Hks].
  constructor; [|apply IH; by rewrite <- app_assoc]. apply Forall_app. split.
  - apply Forall_map. eapply Forall_impl; [exact Hb|]. intros k [H1 H2]. split_and!; [piece_lit|done|done].
  - apply Forall_singleton. split_and!; [|apply Hk|apply Hk]. cbn [fst]. unfold cursor_operator. destruct (String.eqb _ _); piece_lit.
Qed.

Lemma markers_piece columns kinds markers : Forall (fun c => no_byte backtick (kc_name c) /\ P (kc_name c)) columns ->
  character_markers columns kinds = Ok markers -> Forall (fun m => piece_in P m 0) markers.
Proof.
  intros Hc. revert kinds markers. induction Hc as [|c columns [Hn HP] _ IH]; intros [|kind kinds] markers; cbn [character_markers];
    try (by intros [= <-]).
  destruct (negb (String.eqb kind "string") || is_source_text c); [apply IH|]. intros [Hm H]%if_err_ok.
  apply rbind_ok in H as (ms & Hms & [= <-]). apply negb_false_iff, andb_true_iff in Hm as [Hset _]. constructor; [|by apply (IH kinds)].
  assert (Hq : piece_in P (qualifyAggregateField (kc_name c)) 0).
  { unfold qualifyAggregateField. apply (piece_in_eq _ _ (0 + 0)); [|done].
    apply piece_in_app; [by apply piece_in_quote; [apply alias_no_backtick|]|]. apply piece_in_pre; [piece_lit|]. by apply piece_in_quote. }
  unfold keysetCharacterRoundTrip. apply piece_in_pre; [piece_lit|]. apply (piece_in_eq _ _ (0 + 0)); [|done]. apply piece_in_app; [done|].
  apply piece_in_pre; [piece_lit|]. apply piece_in_pre; [piece_lit|]. apply piece_in_pre; [piece_lit|].
  apply piece_in_pre; [by apply piece_character_name|]. apply piece_in_pre; [piece_lit|]. by apply piece_in_post; [piece_lit|].
Qed.

Lemma keyset_projection_piece s : keyset_selection_ok s -> P (s_field s) -> P (s_alias s) -> piece_in P (keyset_projection s) 0.
Proof.
  intros (_ & _ & _ & Hf & Ha) H1 H2. unfold keyset_projection. apply (piece_in_eq _ _ (0 + 0)); [|done]. apply piece_in_app.
  - apply piece_in_represented. by apply piece_in_field.
  - destruct Ha as [E|Ha]; [rewrite E; apply piece_in_lit, piece_nil|]. destruct (nonempty (s_alias s)); [|apply piece_in_lit, piece_nil].
    apply piece_in_pre; [piece_lit|]. by apply piece_in_quote; [apply identifier_no_backtick|].
Qed.

Lemma piece_in_join_zero sep texts : piece sep [] 0 -> Forall (fun t => piece_in P t 0) texts -> piece_in P (join sep texts) 0.
Proof.
  intros Hs Ht. eapply piece_in_eq; [apply (piece_in_join P sep (fun _ : string => 0) texts texts Hs)|].
  - induction Ht; by constructor.
  - apply sum_zero.
Qed.
End Statement.

(** *** What normalization keeps *)

Lemma normalized_keyset_page sha256 r l v m w : ValidateKeyset sha256 r l = Ok v -> NormalizeKeysetIdentifiers sha256 v m = Ok w ->
  page_ok (k_order_by (nk_query (vk_request w))) (nk_page (vk_request w)) /\
  Parameters (vk_stats w) = filter_parameters (k_filter (nk_query (vk_request w))) + page_parameters (nk_page (vk_request w)) + 1.
Proof.
  intros [Hok ->]%ValidateKeyset_iff (_ & f & _ & Hf & _ & _ & ->)%NormalizeKeysetIdentifiers_iff. destruct Hok.
  cbn [vk_request vk_stats canonical_keyset keyset_stored nk_query nk_page k_order_by k_filter Parameters] in *. split.
  - destruct kok_page as [|cursor Hc]; [constructor|]. constructor. clear -Hc. induction Hc as [|o c os cs Hoc _ IH]; [constructor|].
    cbn [map]. by constructor.
  - f_equal. f_equal. unfold filter_normalizes in Hf. destruct (k_filter (kr_query r)) as [g|]; [|by subst].
    destruct Hf as (e & He & ->). destruct kok_filter as [Hg _]. symmetry. by apply (normal_filter_ok sha256 (CaseInsensitiveFields m) g).
Qed.

(** The columns are kept under their lower-case names. *)
Definition keyed (columns : keyset_columns) : Prop := Forall (fun entry => entry.1 = lower_name (kc_name entry.2)) columns.

Lemma keyset_columns_keyed source wanted ci rows : forall i columns columns', keyed columns ->
  iter_from (fun _ scan columns => keyset_column_step source wanted ci scan columns) i rows columns = Ok columns' -> keyed columns'.
Proof.
  induction rows as [|row rows IH]; intros i columns columns' Hk; cbn [iter_from]; [by intros [= <-]|].
  intros (next & Hstep & H)%rbind_ok. apply (IH _ _ _) in H; [done|]. unfold keyset_column_step in Hstep.
  apply rbind_ok in Hstep as ([[[sc ob] column] nullable] & _ & Hstep). apply if_err_ok in Hstep as [_ Hstep].
  apply if_err_ok in Hstep as [_ Hstep]. apply if_err_ok in Hstep as [_ [= <-]]. by constructor.
Qed.

Lemma keyset_source_rows_inv request ci rows err source : keyset_source_rows request ci rows err = Ok source ->
  exists columns, keyed columns /\ keyset_source_of request columns = Ok source.
Proof.
  unfold keyset_source_rows. intros (columns & Hi & H)%rbind_ok. apply check_ok' in H as [_ H]. apply if_err_ok in H as [_ H].
  exists columns. split; [|done]. apply (keyset_columns_keyed _ _ _ _ _ [] columns) in Hi; [done|constructor].
Qed.

Lemma map_get_keyed columns key column : keyed columns -> map_get columns key = Some column -> lower_name (kc_name column) = key.
Proof.
  induction 1 as [|[k c] columns Hk _ IH]; [done|]. cbn [map_get]. destruct (String.eqb_spec key k) as [->|]; [by intros [= <-]|done].
Qed.

Lemma key_columns_named request columns source : keyed columns -> source_checked request columns source ->
  Forall sort_ok (k_order_by (nk_query request)) ->
  Forall (fun c => no_byte backtick (kc_name c) /\ exists o, In o (k_order_by (nk_query request)) /\ lower_name (kc_name c) = to_lower (o_field o))
    (kx_keyColumns source).
Proof.
  intros Hkeyed Hs Hsorts. apply Forall_forall. intros c Hc. pose proof (sd_keys _ _ _ Hs) as Hk. pose proof (sd_kinds _ _ _ Hs) as Hl.
  apply list_elem_of_lookup in Hc as [i Hi].
  assert (Hlt : (i < List.length (kx_keyKinds source))%nat) by (apply lookup_lt_Some in Hi; unfold len in Hl; lia).
  apply lookup_lt_is_Some in Hlt as [kind Hkind].
  assert (Hck : combine (kx_keyColumns source) (kx_keyKinds source) !! i = Some (c, kind)).
  { clear -Hi Hkind. revert i Hi Hkind. generalize (kx_keyKinds source). induction (kx_keyColumns source) as [|x xs IH]; intros [|y ys] [|i] Hx Hy; try done.
    - by injection Hx as ->; injection Hy as ->.
    - cbn in *. by apply IH. }
  destruct (Forall2_lookup_r _ _ _ _ _ Hk Hck) as (o & Ho & Hcolumn). apply list_elem_of_lookup_2, list_elem_of_In in Ho.
  unfold key_column in Hcolumn. destruct (keyset_column columns (o_field o)) as [c0|] eqn:E; [|done].
  apply if_err_ok in Hcolumn as [_ H]. apply rbind_ok in H as (kind' & _ & [= <- <-]).
  assert (Hname : lower_name (kc_name c0) = to_lower (o_field o)) by (by eapply map_get_keyed).
  rewrite Forall_forall in Hsorts. destruct (Hsorts o) as (_ & Hf & _); [by apply list_elem_of_In|].
  split; [|by exists o]. cbn [with_column_representation kc_name]. apply lower_name_no_backtick. rewrite Hname.
  by apply identifier_no_backtick, identifier_lower.
Qed.

(** The names that the statement of a keyset request may quote. *)
Definition keyset_name (request : NormalizedKeysetRequest) (x : string) : Prop :=
  In x [r_schema (k_source (nk_query request)); r_name (k_source (nk_query request)); aggregateSourceAlias] \/
  keyset_mentions request x \/
  (exists s, In s (k_projection (nk_query request)) /\ x = s_alias s) \/
  (exists o, In o (k_order_by (nk_query request)) /\ lower_name x = to_lower (o_field o)).

Lemma keyset_where_ok request columns source m : keyset_source_of request columns = Ok source -> keyset_canonical m request ->
  page_ok (k_order_by (nk_query request)) (nk_page request) ->
  forall conditions args, keyset_where request source = Ok (conditions, args) ->
  piece_in (keyset_name request) (join " AND " conditions) (len args) /\
  len args = filter_parameters (k_filter (nk_query request)) + page_parameters (nk_page request).
Proof.
  intros Hsource Hc Hpage conditions args. set (P := keyset_name request).
  assert (HS : P aggregateSourceAlias) by (left; cbn; auto).
  unfold keyset_where. intros ([cs bs] & Hfilter & H)%rbind_ok.
  assert (Hf : len bs = filter_parameters (k_filter (nk_query request)) /\
    (k_filter (nk_query request) = None /\ cs = [] /\ bs = [] \/ exists t, cs = [t] /\ piece_in P t (len bs))).
  { pose proof (kc_filter _ _ Hc) as Hok. unfold filter_parameters. destruct (k_filter (nk_query request)) as [f|] eqn:Ef; cbn [from_option] in *.
    - apply rbind_ok in Hfilter as ([t b] & Hcomp & [= <- <-]).
      destruct (keyset_filter_ok P HS (kx_columns source) f Hok) with (text := t) (args := b) as [H1 H2]; [|done|].
      { intros x Hx. right. left. right. left. exists f. apply collectFilterFields_spec in Hx as (p & Hp & Hx). by exists p. }
      split; [done|]. right. exists t. by rewrite H2.
    - injection Hfilter as <- <-. by split; [|left]. }
  destruct Hf as [Hlen Hf]. destruct (String.eqb_spec (pg_kind (nk_page request)) "after") as [Ha|Ha].
  - destruct (keyset_cursor_compiles request columns source Hsource Hpage Ha) as (keys & parts & cargs & _ & Ho & _ & _ & Hparts & Hcomp & Hn).
    rewrite Hcomp in H. cbn [rbind] in H. injection H as <- <-. rewrite len_app, Hlen, Hn. split; [|done].
    assert (Hcursor : piece_in P ("(" +:+ join " OR " parts +:+ ")") (len cargs)).
    { apply piece_in_wrap; [piece_lit|piece_lit|]. eapply compile_all_piece; [piece_lit| |exact Hparts].
      eapply Forall_impl; [apply (cursor_predicate_terms P keys [])|].
      - cbn [Datatypes.app]. pose proof (kc_keys _ _ Hc) as Hk. rewrite <- Ho, Forall_map in Hk. apply Forall_forall. intros key Hkey.
        rewrite Forall_forall in Hk. destruct (Hk key Hkey) as [Hs _]. split; [done|]. right. left. right. right.
        exists (ck_order key). split; [|done]. rewrite <- Ho. by apply in_map, list_elem_of_In.
      - intros terms Hterms u c. by apply conjunction_piece. }
    rewrite <- Hlen, <- Hn. destruct Hf as [(_ & -> & ->)|(t & -> & Ht)]; cbn [Datatypes.app join]; [done|].
    apply piece_in_app; [done|]. by apply piece_in_pre; [piece_lit|].
  - injection H as <- <-. assert (Hz : page_parameters (nk_page request) = 0) by (destruct Hpage; [done|by destruct Ha]).
    rewrite Hz, Z.add_0_r. split; [|done]. destruct Hf as [(_ & -> & ->)|(t & -> & Ht)]; [apply piece_in_lit, piece_nil|done].
Qed.

(** A compiled statement, read back. *)
Lemma compileKeyset_reads request columns source m deadlineMS text args : keyed columns ->
  keyset_source_of request columns = Ok source -> keyset_canonical m request ->
  page_ok (k_order_by (nk_query request)) (nk_page request) -> compileKeyset request source deadlineMS = Ok (text, args) ->
  piece_in (keyset_name request) text (len args) /\
  len args = filter_parameters (k_filter (nk_query request)) + page_parameters (nk_page request) + 1 /\
  last args = Some (BindInt (k_limit (nk_query request) + 1)).
Proof.
  intros Hkeyed Hsource Hc Hpage H. set (P := keyset_name request). pose proof (keyset_source_of_checked _ _ _ Hsource) as Hs.
  assert (HS : P aggregateSourceAlias) by (left; cbn; auto).
  assert (Hschema : P (r_schema (k_source (nk_query request))) /\ P (r_name (k_source (nk_query request)))) by (split; left; cbn; auto).
  unfold compileKeyset in H. apply if_err_ok in H as [_ H]. apply rbind_ok in H as (markers & Hmarkers & H).
  apply rbind_ok in H as ([conditions bound] & Hwhere & [= <- <-]).
  destruct (keyset_where_ok _ _ _ _ Hsource Hc Hpage _ _ Hwhere) as [Hcond Hlen].
  split_and!; [|by rewrite len_app, Hlen|by rewrite last_snoc].
  assert (Hcols : Forall (fun t => piece_in P t 0) markers).
  { eapply (markers_piece P HS); [|exact Hmarkers]. eapply Forall_impl; [apply (key_columns_named _ _ _ Hkeyed Hs)|].
    - eapply Forall_impl; [apply (kc_keys _ _ Hc)|]. by intros o [? _].
    - intros c [Hn Ho]. split; [done|]. by right; right; right. }
  assert (Hproj : Forall (fun t => piece_in P t 0) (map keyset_projection (k_projection (nk_query request)))).
  { apply Forall_map. pose proof (kc_selections _ _ Hc) as Hsel. rewrite Forall_forall in Hsel. apply Forall_forall. intros s Hin.
    destruct (Hsel s Hin) as [Hok _]. apply list_elem_of_In in Hin. apply (keyset_projection_piece P HS); [done| |].
    - right. left. left. by exists s.
    - right. right. left. by exists s. }
  assert (Horder : piece_in P (join ", " (map keyset_order_term (k_order_by (nk_query request)))) 0).
  { apply piece_in_join_zero; [piece_lit|]. apply Forall_map. pose proof (kc_keys _ _ Hc) as Hk. rewrite Forall_forall in Hk.
    apply Forall_forall. intros o Hin. destruct (Hk o Hin) as [Hok _]. apply list_elem_of_In in Hin. unfold keyset_order_term.
    apply (piece_in_eq _ _ (0 + 0)); [|done]. apply piece_in_app; [apply (piece_in_key P HS); [done|]; right; left; right; right; by exists o|].
    apply piece_in_lit. destruct Hok as (_ & _ & [-> | ->]); piece_lit. }
  rewrite len_app. change (len [BindInt (k_limit (nk_query request) + 1)]) with 1.
  apply piece_in_pre; [apply piece_head|].
  apply (piece_in_eq _ _ (0 + (0 + (0 + (0 + (len bound + (0 + 1))))))); [|lia].
  apply piece_in_app; [apply piece_in_join_zero; [piece_lit|by apply Forall_app]|].
  apply piece_in_pre; [piece_lit|]. destruct (kc_schema _ _ Hc) as [Hi _], (kc_object _ _ Hc) as [Hj _].
  apply piece_in_app; [apply piece_in_quote; [by apply identifier_no_backtick|apply Hschema]|].
  apply piece_in_pre; [piece_lit|]. apply piece_in_app; [apply piece_in_quote; [by apply identifier_no_backtick|apply Hschema]|].
  apply piece_in_pre; [piece_lit|]. apply piece_in_app; [by apply piece_in_quote; [apply alias_no_backtick|]|].
  apply piece_in_app.
  - destruct conditions as [|c cs].
    + exact Hcond.
    + rewrite len_cons. assert (Hz : (1 + len cs =? 0) = false) by (pose proof (len_nonneg cs); lia). rewrite Hz.
      by apply piece_in_pre; [piece_lit|].
  - apply piece_in_pre; [piece_lit|]. apply piece_in_app; [done|]. exists []. split; [piece_lit|constructor].
Qed.

(** C13: The statement of an authorized page. Whatever columns the database reports for
    the source, a statement that is compiled for an authorized keyset request is made of
    keywords, quoted identifiers, placeholders and checked character names only; each
    identifier is the source, its alias, an alias of the request or a column that the
    request names, and every column it names is permitted by the profile; the
    placeholders are exactly as many as the arguments and as the parameters that
    authorization counted against the limits; and the last argument asks for one row
    more than the page may hold. *)
Theorem authorized_keyset_statement sha256 r l q s b credential adapter m a ci rows err source deadlineMS text args :
  ValidateKeyset sha256 r l = Ok q -> AuthorizeKeysetSelect sha256 s b credential adapter q m = Ok a ->
  keyset_source_rows (vk_request (ak_query a)) ci rows err = Ok source ->
  compileKeyset (vk_request (ak_query a)) source deadlineMS = Ok (text, args) ->
  exists profile names,
    profileForBinding s b OperationSelectKeyset = Ok profile /\
    lex (Lexed Outside [] 0) text = Lexed Outside names (len args) /\
    Forall (keyset_name (vk_request (ak_query a))) names /\
    (forall field, keyset_mentions (vk_request (ak_query a)) field ->
      permits (Fields (pf_resources profile))
        [r_schema (k_source (nk_query (vk_request (ak_query a)))); r_name (k_source (nk_query (vk_request (ak_query a)))); field]
        (field_semantics m)) /\
    len args = Parameters (vk_stats (ak_query a)) /\ len args <= MaxParameters (ak_limits a) /\
    last args = Some (BindInt (k_limit (nk_query (vk_request (ak_query a))) + 1)).
Proof.
  intros Hv Ha (columns & Hk & Hs)%keyset_source_rows_inv Hc.
  destruct (AuthorizeKeysetSelect_inv _ _ _ _ _ _ _ _ _ _ Hv Ha) as (profile & shape & Hp & _ & Hn & _ & Hperm & _ & _ & _ & Hmax).
  destruct (normalized_keyset_page _ _ _ _ _ _ Hv Hn) as [Hpage Hpar].
  destruct (compileKeyset_reads _ _ _ m _ _ _ Hk Hs (normalized_keyset_canonical _ _ _ _ _ _ Hv Hn) Hpage Hc)
    as ((names & Hlex & Hnames) & Hlen & Hlast).
  exists profile, names. specialize (Hlex [] 0). rewrite Z.add_0_l, app_nil_l in Hlex.
  split_and!; try done; [apply Hperm|lia|lia].
Qed.

(** ** A page *)

Definition example_column (name dataType nativeType : string) (datetimePrecision : option Z) : keysetSourceColumn := {|
  kc_representation := EmptyString; kc_name := name; kc_dataType := dataType; kc_nativeType := nativeType; kc_nullable := false;
  kc_characterSet := EmptyString; kc_collation := EmptyString; kc_characterMaximumLength := None; kc_characterOctetLength := None;
  kc_numericPrecision := None; kc_numericScale := None; kc_datetimePrecision := datetimePrecision |}.

Definition example_catalog : list (result (string * string * keysetSourceColumn * string)) :=
  [Ok ("shop", "Orders", example_column "ID" "int" "int" None, "NO");
   Ok ("shop", "Orders", example_column "at" "datetime" "datetime" (Some 0), "NO");
   Ok ("shop", "Orders", example_column "state" "tinyint" "tinyint(1)" None, "YES")].

Definition example_source : keysetSource :=
  match keyset_source_rows (vk_request (ak_query authorized_page)) true example_catalog nil_error with
  | Ok source => source
  | Err _ => {| kx_columns := []; kx_projectionColumns := []; kx_keyColumns := []; kx_keyKinds := []; kx_keyIndexes := [] |}
  end.

Example example_page_statement :
  compileKeyset (vk_request (ak_query authorized_page)) example_source 250 =
  Ok ("SELECT /*+ MAX_EXECUTION_TIME(250) */ `__quordon_source`.`id`, `__quordon_source`.`state`, `__quordon_source`.`at` FROM `shop`.`orders` AS `__quordon_source` WHERE `__quordon_source`.`id` > ? AND ((`__quordon_source`.`at` < CAST(? AS DATETIME(0))) OR (`__quordon_source`.`at` = CAST(? AS DATETIME(0)) AND `__quordon_source`.`id` > ?)) ORDER BY `__quordon_source`.`at` DESC, `__quordon_source`.`id` ASC LIMIT ?",
      [BindInt 10; BindString "2024-01-31 10:00:00"; BindString "2024-01-31 10:00:00"; BindInt (-5); BindInt 21]).
Proof. vm_compute. reflexivity. Qed.

Lemma authorized_keyset_statement_witness :
  let page := vk_request (ak_query authorized_page) in
  exists text args profile names,
    compileKeyset page example_source 250 = Ok (text, args) /\
    profileForBinding keyset_snapshot keyset_binding OperationSelectKeyset = Ok profile /\
    lex (Lexed Outside [] 0) text = Lexed Outside names (len args) /\
    Forall (keyset_name page) names /\
    (forall field, keyset_mentions page field ->
      permits (Fields (pf_resources profile)) [r_schema (k_source (nk_query page)); r_name (k_source (nk_query page)); field]
        (field_semantics insensitive)) /\
    len args = Parameters (vk_stats (ak_query authorized_page)) /\ len args <= MaxParameters (ak_limits authorized_page) /\
    last args = Some (BindInt (k_limit (nk_query page) + 1)).
Proof.
  eexists _, _. cbv zeta.
  destruct (authorized_keyset_statement srev example_keyset example_keyset_limits (keyset_stored example_keyset)
    keyset_snapshot keyset_binding "basic" "mysql8" insensitive authorized_page true example_catalog nil_error example_source 250
    _ _ keyset_validates ltac:(vm_compute; reflexivity) ltac:(vm_compute; reflexivity) ltac:(apply example_page_statement))
    as (profile & names & H).
  exists profile, names. split; [apply example_page_statement|exact H].
Defined.

Lemma keyset_cursor_exact_witness :
  let page := vk_request (ak_query authorized_page) in
  exists keys parts args,
    map ck_order keys = k_order_by (nk_query page) /\ map ck_value keys = cursor_of (nk_page page) /\
    map ck_column keys = kx_keyColumns example_source /\
    compile_all conjunction_text (cursor_predicate [] keys) = Ok (parts, args) /\
    compileKeysetCursor page example_source = Ok ("(" +:+ join " OR " parts +:+ ")", args) /\
    len args = page_parameters (nk_page page) /\
    forall (Row : Type) (compare : Row -> cursor_key -> comparison) row,
      satisfies compare row (cursor_predicate [] keys) <-> after_cursor compare row keys.
Proof.
  cbv zeta. apply (keyset_cursor_exact (vk_request (ak_query authorized_page)) (kx_columns example_source) example_source).
  - vm_compute. reflexivity.
  - apply (normalized_keyset_page srev example_keyset example_keyset_limits (keyset_stored example_keyset) insensitive
             (ak_query authorized_page)); vm_compute; reflexivity.
  - vm_compute. reflexivity.
Defined.
