(* ===== verification/KeysetRows.v ===== *)
(** The rows of a keyset page (internal/adapters/mysql8/keyset.go): the checks of a row,
    the cursor that continues after it with its encoded size, and the loop that fills
    the page under a row limit and two byte budgets, one for the last page and one for
    a page with a cursor. *)
From S2P Require Import Prelude Domain GoJson Number Portable Values QuerySpec Config Policy Sql JsonText Rows Aggregate AggregateNormal NumericBucket KeysetDecimal SqlAggregate Keyset KeysetBinds PolicyAggregate PolicyKeyset SqlKeyset.
Local Open Scope string_scope.
Local Open Scope Z_scope.

(** ** Cells *)

Definition validIntegerCell (text : string) : bool :=
  match text with
  | EmptyString => false
  | String c rest =>
      if Ascii.eqb c "+" || String.eqb text "-0" || (20 <? slen text) || ((1 <? slen text) && Ascii.eqb c "0") then false
      else if Ascii.eqb c "-" && ((slen text =? 1) || bool_decide (byte_at 1 text = Some "0"%char)) then false
      else sforall is_digit (if Ascii.eqb c "-" then rest else text)
  end.

Definition validDecimalCell (text : string) : bool :=
  match text with
  | EmptyString => false
  | String c rest =>
      if negb (sforall (fun d => negb (Ascii.eqb d "e" || Ascii.eqb d "E" || Ascii.eqb d "+")) text) then false
      else
        let negative := Ascii.eqb c "-" in
        let parts := split_byte "." (if negative then rest else text) in
        let whole := hd EmptyString parts in
        if (2 <? len parts) || String.eqb whole EmptyString ||
            ((1 <? len parts) && String.eqb (nth 1 parts EmptyString) EmptyString) ||
            ((1 <? slen whole) && starts_with_zero whole) then false
        else if negb (forallb (sforall is_digit) parts) then false
        else negb negative || existsb (fun part => negb (sforall (Ascii.eqb "0") part)) parts
  end.

Definition validKeysetCell (value portableType : string) : bool :=
  if String.eqb portableType "integer" then validIntegerCell value
  else if String.eqb portableType "decimal" then validDecimalCell value
  else if String.eqb portableType "string" then valid_utf8 value
  else if String.eqb portableType "date" then bool_decide (is_Some (ParsePortableDate value))
  else if String.eqb portableType "datetime" then bool_decide (is_Some (ParsePortableDateTime value))
  else if String.eqb portableType "time" then ValidPortableTime value
  else if String.eqb portableType "json" then valid_utf8 value && bool_decide (is_Some (parse_json value))
  else String.eqb portableType "bytes".

Definition within (parsed minimum maximum : Time) : bool := negb (Before parsed minimum) && negb (After parsed maximum).

(** A date-time text of the column's own precision, within its range. *)
Definition validSourceInstant (value : string) (column : keysetSourceColumn) (minimum maximum : Time) : bool :=
  match ParsePortableDateTime value, mysqlKeysetTemporalPrecision column with
  | Some (parsed, digits), Ok precision => (digits =? precision) && within parsed minimum maximum
  | _, _ => false
  end.

Definition validKeysetSourceTemporalCell (value : string) (column : keysetSourceColumn) : bool :=
  if is_source_text column then valid_utf8 value
  else
    let dataType := normal_type column in
    if String.eqb dataType "DATE" then
      match ParsePortableDate value with Some parsed => within parsed mysqlDateMinimum mysqlDateMaximum | None => false end
    else if String.eqb dataType "DATETIME" then validSourceInstant value column mysqlDatetimeMinimum mysqlDatetimeMaximum
    else if String.eqb dataType "TIMESTAMP" then validSourceInstant value column mysqlTimestampMinimum mysqlTimestampMaximum
    else if String.eqb dataType "TIME" then
      ValidPortableTime value && match (cut_dot value).2 with None => true | Some fraction => slen fraction <=? 6 end
    else true.

(** ** Rows *)

(** The cell at an index; beyond the row there is no cell. *)
Definition cell (raw : raw_row) (index : nat) : option string := nth index raw None.

Definition valid_row_cell (item : option string * (ResultColumn * keysetSourceColumn)) : error :=
  let '(value, (column, sourceColumn)) := item in
  match value with
  | None => if? negb (rc_nullable column) return upstream_error then nil_error
  | Some value =>
      if? negb (validKeysetCell value (rc_type column)) || negb (validKeysetSourceTemporalCell value sourceColumn)
      return upstream_error then nil_error
  end.

Definition validateKeysetRow (raw : raw_row) (columns : list ResultColumn) (source : keysetSource) : error :=
  if? negb (len raw =? len columns) || negb (len (kx_projectionColumns source) =? len columns) return upstream_error then
  check? each (fun _ item => valid_row_cell item) (combine raw (combine columns (kx_projectionColumns source))) then
  each (fun _ projectionIndex => if? negb (bool_decide (is_Some (cell raw projectionIndex))) return upstream_error then nil_error)
    (kx_keyIndexes source).

Fixpoint guard_count (kinds : list string) (columns : list keysetSourceColumn) : Z :=
  match kinds with
  | [] => 0
  | kind :: kinds' =>
      (if String.eqb kind "string" && match columns with [] => true | column :: _ => negb (is_source_text column) end then 1 else 0) +
      guard_count kinds' (tl columns)
  end.

Definition keysetCharacterGuardCount (source : keysetSource) : Z := guard_count (kx_keyKinds source) (kx_keyColumns source).

Definition character_guard (value : option string) : error :=
  match value with
  | None => Err invalid_error
  | Some value =>
      if? String.eqb value "0" return invalid_error then
      if? negb (String.eqb value "1") return upstream_error then nil_error
  end.

Definition validateKeysetCharacterGuards (values : list (option string)) : error := each (fun _ value => character_guard value) values.

(** ** The cursor after a row *)

Definition mysqlKeysetCursorText (text kind : string) : option string :=
  if String.eqb kind "date" then if ParsePortableDate text is Some _ then Some text else None
  else if String.eqb kind "datetime" then if ParsePortableDateTime text is Some _ then Some text else None
  else if String.eqb kind "timestamp" then
    match ParsePortableDateTime text with
    | None => None
    | Some _ =>
        let result := stake 10 text +:+ "T" +:+ sdrop 11 text +:+ "Z" in
        if ParsePortableTimestamp result is Some _ then Some result else None
    end
  else Some text.

Definition key_cursor (raw : raw_row) (item : nat * string) : result KeysetCursorValue :=
  let '(projectionIndex, kind) := item in
  let value := default EmptyString (cell raw projectionIndex) in
  if String.eqb kind "bytes" then Ok {| cv_type := kind; cv_value := base64_encode value |}
  else
    match mysqlKeysetCursorText value kind with
    | Some text => Ok {| cv_type := kind; cv_value := text |}
    | None => Err upstream_error
    end.

Definition materializeKeysetCursor (raw : raw_row) (source : keysetSource) : result (list KeysetCursorValue) :=
  results (key_cursor raw) (combine (kx_keyIndexes source) (kx_keyKinds source)).

Definition encodedJSONStringLiteralSize (value : string) : Z := default 0 (encodedMetadataJSONStringSize value max_int).

(** One turn of the loop of [encodedKeysetCursorSize]. *)
Definition cursor_item_size (raw : raw_row) (first : bool) (size maximum : Z) (item : nat * string) : option Z :=
  let '(projectionIndex, kind) := item in
  let value := default EmptyString (cell raw projectionIndex) in
  valueSize ← if String.eqb kind "bytes" then Some (2 + base64_encoded_len (slen value))
              else cursorValue ← mysqlKeysetCursorText value kind; encodedJSONStringSize cursorValue (maximum - size);
  addEncodedSize size (frame_size ["type"; "value"] + encodedJSONStringLiteralSize kind + valueSize + (if first then 0 else 1)) maximum.

Fixpoint cursor_sizes (raw : raw_row) (first : bool) (size maximum : Z) (items : list (nat * string)) : option Z :=
  match items with
  | [] => Some size
  | item :: items' => size' ← cursor_item_size raw first size maximum item; cursor_sizes raw false size' maximum items'
  end.

Definition encodedKeysetCursorSize (raw : raw_row) (source : keysetSource) (maximum : Z) : option Z :=
  if maximum <? 0 then None else cursor_sizes raw true 0 maximum (combine (kx_keyIndexes source) (kx_keyKinds source)).

(** ** The page *)

Record KeysetSelectResult := {
  kt_rows : list raw_row; kt_rowCount : Z; kt_hasMore : bool; kt_nextCursor : list KeysetCursorValue; kt_bytes : Z;
}.

(** The variables of the loop; [pp_previous] is [provisionalPreviousSize] while a row is provisional. *)
Record page_state := {
  pp_rows : list raw_row; pp_final : Z; pp_safeSize : Z; pp_safeCursor : list KeysetCursorValue; pp_previous : option Z;
}.

Section Page.
Context (limit : Z) (columns : list ResultColumn) (source : keysetSource) (finalBase moreBase maximum : Z).

(** The body of the loop for a row that was read; [None] is [moreObserved] and the break. *)
Definition page_step (st : page_state) (raw : raw_row) : result (option page_state) :=
  check? validateKeysetCharacterGuards (drop (List.length columns) raw) then
  let rowValues := visible columns raw in
  check? validateKeysetRow rowValues columns source then
  let increment := separator (pp_rows st) + (decimalDigits (len (pp_rows st) + 1) - decimalDigits (len (pp_rows st))) in
  match encodedRowSize rowValues columns (maximum - pp_final st - increment) with
  | None => Ok None
  | Some rowSize =>
      let nextFinalSize := pp_final st + increment + rowSize in
      let rowsSize := nextFinalSize - finalBase in
      let rows := (pp_rows st ++ [encode_cells columns rowValues])%list in
      let provisional := {| pp_rows := rows; pp_final := nextFinalSize; pp_safeSize := pp_safeSize st;
                            pp_safeCursor := pp_safeCursor st; pp_previous := Some (pp_final st) |} in
      match encodedKeysetCursorSize rowValues source (maximum - moreBase - rowsSize) with
      | None => Ok (Some provisional)
      | Some cursorSize =>
          let moreSize := moreBase + rowsSize + cursorSize in
          if maximum <? moreSize then Ok (Some provisional)
          else
            let? cursor := materializeKeysetCursor rowValues source in
            Ok (Some {| pp_rows := rows; pp_final := nextFinalSize; pp_safeSize := moreSize; pp_safeCursor := cursor;
                        pp_previous := None |})
      end
  end.

(** The loop: the state, and whether more rows were observed. *)
Fixpoint page_loop (st : page_state) (rows : list (result raw_row)) : result (page_state * bool) :=
  match rows with
  | [] => Ok (st, false)
  | scan :: rows' =>
      if bool_decide (is_Some (pp_previous st)) || (len (pp_rows st) =? limit) then Ok (st, true)
      else
        let? raw := scan in
        let? next := page_step st raw in
        match next with
        | None => Ok (st, true)
        | Some st' => page_loop st' rows'
        end
  end.

Definition page_result (st : page_state) (moreObserved : bool) : result (KeysetSelectResult * bool) :=
  if moreObserved then
    let rows := if pp_previous st is Some _ then removelast (pp_rows st) else pp_rows st in
    if? (len rows =? 0) || (pp_safeSize st =? 0) || (len (pp_safeCursor st) =? 0) return result_too_large then
    Ok ({| kt_rows := rows; kt_rowCount := len rows; kt_hasMore := true; kt_nextCursor := pp_safeCursor st;
           kt_bytes := pp_safeSize st |}, true)
  else
    Ok ({| kt_rows := pp_rows st; kt_rowCount := len (pp_rows st); kt_hasMore := false; kt_nextCursor := [];
           kt_bytes := pp_final st |}, false).

(** [stopErr] is what [rows.Err] says when the loop was left before the last row. *)
Definition collectKeysetRows (rows : row_stream) (stopErr : error) : result (KeysetSelectResult * bool) :=
  let? (st, moreObserved) := page_loop {| pp_rows := []; pp_final := finalBase; pp_safeSize := 0; pp_safeCursor := []; pp_previous := None |}
                               (st_rows rows) in
  check? (if moreObserved then stopErr else st_err rows) then
  page_result st moreObserved.
End Page.

(** ** The encoded cursor *)

Definition cursor_value_json (value : KeysetCursorValue) : json := JObj [("type", JStr (cv_type value)); ("value", JStr (cv_value value))].
Definition cursor_json (cursor : list KeysetCursorValue) : json := JArr (map cursor_value_json cursor).

Definition cursor_kinds : list string := ["integer"; "string"; "bytes"; "date"; "datetime"; "timestamp"].

Lemma kind_literal_size kind : In kind cursor_kinds -> encodedJSONStringLiteralSize kind = slen (marshal_string kind).
Proof. intros H. repeat destruct H as [<-|H]; [vm_compute; reflexivity..|done]. Qed.

Lemma cursor_value_len value : slen (marshal (cursor_value_json value)) =
  frame_size ["type"; "value"] + slen (marshal_string (cv_type value)) + slen (marshal_string (cv_value value)).
Proof.
  unfold cursor_value_json. cbn [marshal map join]. rewrite !slen_app.
  change (frame_size ["type"; "value"]) with 18. change (slen (marshal_string "type")) with 6.
  change (slen (marshal_string "value")) with 7. change (slen "{") with 1. change (slen ":") with 1. change (slen ",") with 1. change (slen "}") with 1. lia.
Qed.

Lemma cursor_item_size_iff raw first size maximum item n : In item.2 cursor_kinds -> 0 <= size ->
  cursor_item_size raw first size maximum item = Some n <->
  exists value, key_cursor raw item = Ok value /\
    n = size + slen (marshal (cursor_value_json value)) + (if first : bool then 0 else 1) /\ n <= maximum.
Proof.
  destruct item as [index kind]. intros Hk Hs. cbn [snd] in Hk. unfold cursor_item_size, key_cursor. rewrite (kind_literal_size kind Hk).
  set (value := default EmptyString (cell raw index)). rewrite bind_Some. setoid_rewrite addEncodedSize_iff.
  pose proof (slen_nonneg (marshal_string kind)) as Hm. change (frame_size ["type"; "value"]) with 18.
  destruct (String.eqb_spec kind "bytes") as [->|_].
  - assert (E : 2 + base64_encoded_len (slen value) = slen (marshal_string (base64_encode value)))
      by (by rewrite marshal_string_len, escape_plain_len, base64_encode_len by apply base64_encode_plain).
    rewrite E. pose proof (slen_nonneg (marshal_string (base64_encode value))). split.
    + intros (x & [= <-] & ? & ? & -> & ?). eexists. split; [reflexivity|]. rewrite cursor_value_len. cbn [cv_type cv_value].
      change (frame_size ["type"; "value"]) with 18. lia.
    + intros (v & [= <-] & -> & Hn). rewrite cursor_value_len in *. cbn [cv_type cv_value] in *. change (frame_size ["type"; "value"]) with 18 in *.
      eexists. split; [reflexivity|]. destruct first; lia.
  - split.
    + intros (x & Hx & ? & ? & -> & ?). apply bind_Some in Hx as (text & Ht & [-> _]%encodedJSONStringSize_iff). rewrite Ht.
      eexists. split; [reflexivity|]. rewrite cursor_value_len. cbn [cv_type cv_value]. change (frame_size ["type"; "value"]) with 18. lia.
    + destruct (mysqlKeysetCursorText value kind) as [text|]; [|by intros (? & [=] & _)]. intros (v & [= <-] & -> & Hn).
      rewrite cursor_value_len in *. cbn [cv_type cv_value] in *. change (frame_size ["type"; "value"]) with 18 in *.
      pose proof (slen_nonneg (marshal_string text)). exists (slen (marshal_string text)). split.
      * apply bind_Some. exists text. split; [done|]. apply encodedJSONStringSize_iff. split; [done|]. destruct first; lia.
      * destruct first; lia.
Qed.

(** The size of a list of texts between commas. *)
Lemma join_len {A} (f : A -> string) l : slen (join "," (map f l)) = sum_of (fun x => slen (f x)) l + Z.max 0 (len l - 1).
Proof.
  induction l as [|a l IH]; [done|]. destruct l as [|b l]; [unfold sum_of, len; cbn; lia|].
  change (join "," (map f (a :: b :: l))) with (f a +:+ "," +:+ join "," (map f (b :: l))). rewrite !slen_app, IH. change (slen ",") with 1.
  change (sum_of (fun x => slen (f x)) (a :: b :: l)) with (slen (f a) + sum_of (fun x => slen (f x)) (b :: l)).
  rewrite !len_cons. pose proof (len_nonneg l). lia.
Qed.

Lemma cursor_sizes_iff raw items : forall first size maximum n, Forall (fun item => In item.2 cursor_kinds) items -> 0 <= size <= maximum ->
  cursor_sizes raw first size maximum items = Some n <->
  exists cursor, Forall2 (fun item value => key_cursor raw item = Ok value) items cursor /\
    n = size + sum_of (fun v => slen (marshal (cursor_value_json v))) cursor + (if first : bool then Z.max 0 (len cursor - 1) else len cursor) /\
    n <= maximum.
Proof.
  induction items as [|item items IH]; intros first size maximum n Hk Hs; cbn [cursor_sizes].
  - assert (H0 : sum_of (fun v => slen (marshal (cursor_value_json v))) [] + (if first then Z.max 0 (len (@nil KeysetCursorValue) - 1) else len (@nil KeysetCursorValue)) = 0)
      by (by destruct first).
    split.
    + intros [= <-]. exists []. split; [constructor|]. lia.
    + intros (cursor & H & -> & Hn). apply Forall2_nil_inv_l in H as ->. f_equal. lia.
  - apply Forall_cons in Hk as [Hi Hk]. rewrite bind_Some. setoid_rewrite (cursor_item_size_iff _ _ _ _ _ _ Hi (proj1 Hs)).
    assert (Hv : forall v cursor, sum_of (fun v => slen (marshal (cursor_value_json v))) (v :: cursor) + (if first then Z.max 0 (len (v :: cursor) - 1) else len (v :: cursor)) =
      slen (marshal (cursor_value_json v)) + (if first then 0 else 1) + sum_of (fun v => slen (marshal (cursor_value_json v))) cursor + len cursor).
    { intros v cursor. change (sum_of (fun v => slen (marshal (cursor_value_json v))) (v :: cursor))
        with (slen (marshal (cursor_value_json v)) + sum_of (fun v => slen (marshal (cursor_value_json v))) cursor).
      rewrite len_cons. pose proof (len_nonneg cursor). destruct first; lia. }
    assert (Hnonneg : forall v, 0 <= slen (marshal (cursor_value_json v))) by (intros; apply slen_nonneg).
    assert (Hsum : forall cursor, 0 <= sum_of (fun v => slen (marshal (cursor_value_json v))) cursor + len cursor).
    { intros cursor. assert (0 <= sum_of (fun v => slen (marshal (cursor_value_json v))) cursor) by (apply sum_nonneg, Forall_forall; intros; apply slen_nonneg).
      pose proof (len_nonneg cursor). lia. }
    split.
    + intros (size' & (v & Hkv & -> & Hle) & Hrest). apply IH in Hrest as (cursor & HF & -> & Hn); [|done|specialize (Hnonneg v); destruct first; lia].
      exists (v :: cursor). split; [by constructor|]. specialize (Hv v cursor). lia.
    + intros (cursor & HF & -> & Hn). apply Forall2_cons_inv_l in HF as (v & cursor' & Hkv & HF & ->). specialize (Hv v cursor'). specialize (Hsum cursor').
      specialize (Hnonneg v). eexists. split; [exists v; split_and!; [done|reflexivity|lia]|]. apply IH; [done|destruct first; lia|].
      exists cursor'. split; [done|]. lia.
Qed.

Definition cursor_bytes (cursor : list KeysetCursorValue) : Z := slen (marshal (cursor_json cursor)) - 2.

Lemma encodedKeysetCursorSize_iff raw source maximum n : Forall (fun kind => In kind cursor_kinds) (kx_keyKinds source) ->
  encodedKeysetCursorSize raw source maximum = Some n <->
  exists cursor, materializeKeysetCursor raw source = Ok cursor /\ n = cursor_bytes cursor /\ n <= maximum.
Proof.
  intros Hk. unfold encodedKeysetCursorSize, materializeKeysetCursor. setoid_rewrite results_iff.
  assert (Hb : forall cursor, cursor_bytes cursor = sum_of (fun v => slen (marshal (cursor_value_json v))) cursor + Z.max 0 (len cursor - 1)).
  { intros cursor. unfold cursor_bytes, cursor_json. cbn [marshal]. rewrite !slen_app, map_map, (join_len (fun v => marshal (cursor_value_json v))).
    change (slen "[") with 1. change (slen "]") with 1. lia. }
  assert (Hb0 : forall cursor, 0 <= cursor_bytes cursor).
  { intros cursor. rewrite Hb. assert (0 <= sum_of (fun v => slen (marshal (cursor_value_json v))) cursor) by (apply sum_nonneg, Forall_forall; intros; apply slen_nonneg). lia. }
  destruct (Z.ltb_spec maximum 0) as [Hm|Hm].
  - split; [done|]. intros (cursor & _ & -> & ?). specialize (Hb0 cursor). lia.
  - rewrite cursor_sizes_iff; [|clear -Hk; revert Hk; generalize (kx_keyIndexes source); induction (kx_keyKinds source) as [|k ks IH]; intros [|i idx] Hk; constructor|lia].
    + setoid_rewrite Hb. cbn [negb]. setoid_rewrite Z.add_0_l. done.
    + by apply Forall_cons in Hk as [? _].
    + apply IH. by apply Forall_cons in Hk as [_ ?].
Qed.

(** ** What a page holds *)

Section PageSpec.
Context (limit : Z) (columns : list ResultColumn) (source : keysetSource) (finalBase moreBase maximum : Z).
Context (Hkinds : Forall (fun kind => In kind cursor_kinds) (kx_keyKinds source)) (Hkeys : kx_keyIndexes source <> [])
  (Harity : len (kx_keyKinds source) = len (kx_keyIndexes source)) (Hlimit : 1 <= limit) (Hmore : 0 <= moreBase).

(** A row that passes the checks of the loop. *)
Definition acceptable (raw : raw_row) : Prop :=
  validateKeysetCharacterGuards (drop (List.length columns) raw) = Ok tt /\ validateKeysetRow (visible columns raw) columns source = Ok tt.

Definition cursor_after (raw : raw_row) : result (list KeysetCursorValue) := materializeKeysetCursor (visible columns raw) source.

(** The bytes of the envelope of a last page, and of a page that continues with a cursor. *)
Definition final_bytes (raws : list raw_row) : Z := envelope_bytes columns finalBase raws false.
Definition more_bytes (raws : list raw_row) (cursor : list KeysetCursorValue) : Z :=
  envelope_bytes columns moreBase raws false + cursor_bytes cursor.

(** The rows are within the limit and the budget of a last page. *)
Definition page_fits (raws : list raw_row) : Prop := len raws <= limit /\ final_bytes raws <= maximum.

(** The cursor after the last row of [kept ++ [raw]] fits beside these rows. *)
Definition cursor_fits (kept : list raw_row) (raw : raw_row) (cursor : list KeysetCursorValue) : Prop :=
  cursor_after raw = Ok cursor /\ more_bytes (kept ++ [raw])%list cursor <= maximum.

(** Rows that can end a page at each of them. *)
Inductive resumable : list raw_row -> Prop :=
| resumable_nil : resumable []
| resumable_snoc kept raw cursor : resumable kept -> page_fits (kept ++ [raw])%list -> cursor_fits kept raw cursor ->
    resumable (kept ++ [raw])%list.

(** The page of all rows, without a cursor, and a page that continues. *)
Definition final_page (raws : list raw_row) : KeysetSelectResult := {|
  kt_rows := aggregate_encoded columns raws; kt_rowCount := len raws; kt_hasMore := false; kt_nextCursor := []; kt_bytes := final_bytes raws |}.
Definition continued_page (raws : list raw_row) (cursor : list KeysetCursorValue) : KeysetSelectResult := {|
  kt_rows := aggregate_encoded columns raws; kt_rowCount := len raws; kt_hasMore := true; kt_nextCursor := cursor;
  kt_bytes := more_bytes raws cursor |}.

(** The row after the kept ones cannot be added: it breaks the limit or the budget, or it is not the last row and
    no cursor fits after it. *)
Definition page_ends (kept : list raw_row) (next : raw_row) (rest : list raw_row) : Prop :=
  ~ page_fits (kept ++ [next])%list \/ (rest <> [] /\ forall cursor, ~ cursor_fits kept next cursor).

Inductive page_outcome (raws : list raw_row) : result (KeysetSelectResult * bool) -> Prop :=
| outcome_final : (raws = [] \/ exists kept last, raws = (kept ++ [last])%list /\ resumable kept) -> page_fits raws ->
    page_outcome raws (Ok (final_page raws, false))
| outcome_continued kept last cursor next rest : raws = (kept ++ [last] ++ next :: rest)%list -> resumable (kept ++ [last])%list ->
    cursor_fits kept last cursor -> page_ends (kept ++ [last])%list next rest ->
    page_outcome raws (Ok (continued_page (kept ++ [last])%list cursor, true))
| outcome_too_large next rest : raws = next :: rest -> page_ends [] next rest -> page_outcome raws (Err result_too_large).

(** *** The loop *)

(** The state after the rows [done], each of which can end a page. *)
Definition resumable_state (done : list raw_row) (st : page_state) : Prop :=
  pp_rows st = aggregate_encoded columns done /\ pp_final st = final_bytes done /\ pp_previous st = None /\ page_fits done /\
  (done = [] \/ exists kept last cursor, done = (kept ++ [last])%list /\ cursor_fits kept last cursor /\
     pp_safeSize st = more_bytes done cursor /\ pp_safeCursor st = cursor).

(** The state after a last row that no cursor can follow: what is safe is the state before it. *)
Definition provisional_state (kept : list raw_row) (last : raw_row) (st : page_state) : Prop :=
  exists before, resumable_state kept before /\ page_fits (kept ++ [last])%list /\ (forall cursor, ~ cursor_fits kept last cursor) /\
    pp_rows st = aggregate_encoded columns (kept ++ [last])%list /\ pp_final st = final_bytes (kept ++ [last])%list /\
    pp_previous st = Some (final_bytes kept) /\ pp_safeSize st = pp_safeSize before /\ pp_safeCursor st = pp_safeCursor before.

Lemma final_bytes_snoc kept raw :
  final_bytes (kept ++ [raw])%list = final_bytes kept + separator (aggregate_encoded columns kept) +
    (decimalDigits (len kept + 1) - decimalDigits (len kept)) + slen (marshal (row_json (encode_cells columns (visible columns raw)))).
Proof. unfold final_bytes. rewrite envelope_snoc. unfold envelope_bytes. lia. Qed.

Lemma more_final raws : envelope_bytes columns moreBase raws false = moreBase + (final_bytes raws - finalBase).
Proof. unfold final_bytes, envelope_bytes. lia. Qed.

Lemma accepted_width raw : acceptable raw -> List.length (visible columns raw) = List.length columns.
Proof.
  intros [_ H]. unfold validateKeysetRow in H. apply if_err_ok in H as [H _]. apply orb_false_iff in H as [H _].
  apply negb_false_iff, Z.eqb_eq in H. unfold len in H. lia.
Qed.

(** One row more: it does not fit, it is kept provisionally, or a cursor can follow it. *)
Lemma page_step_cases done st raw : acceptable raw -> resumable_state done st -> len done < limit ->
  (page_step columns source finalBase moreBase maximum st raw = Ok None /\ ~ page_fits (done ++ [raw])%list) \/
  (exists st', page_step columns source finalBase moreBase maximum st raw = Ok (Some st') /\
     (provisional_state done raw st' \/
      (resumable_state (done ++ [raw])%list st' /\ exists cursor, cursor_fits done raw cursor))).
Proof.
  intros Hr Hst Hl. pose proof Hst as (Hrows & Hfinal & Hprev & Hfits & Hsafe). pose proof (accepted_width raw Hr) as Hw. destruct Hr as [Hg Hv].
  unfold page_step. rewrite Hg, Hv. cbn [rbind]. rewrite Hrows, Hfinal, aggregate_encoded_len.
  set (increment := separator _ + _). set (size := slen (marshal (row_json (encode_cells columns (visible columns raw))))).
  assert (Hsnoc : final_bytes (done ++ [raw])%list = final_bytes done + increment + size) by (rewrite final_bytes_snoc; unfold increment, size; lia).
  assert (Hlen : len (done ++ [raw])%list = len done + 1) by (by rewrite len_app).
  destruct (encodedRowSize _ _ _) as [n|] eqn:En.
  - apply encodedRowSize_iff in En as (_ & -> & Hn). fold size in Hn |- *. right.
    assert (Hfits' : page_fits (done ++ [raw])%list) by (split; lia).
    assert (Hprov : (forall cursor, ~ cursor_fits done raw cursor) -> provisional_state done raw
      {| pp_rows := (aggregate_encoded columns done ++ [encode_cells columns (visible columns raw)])%list;
         pp_final := final_bytes done + increment + size; pp_safeSize := pp_safeSize st; pp_safeCursor := pp_safeCursor st;
         pp_previous := Some (final_bytes done) |}).
    { intros Hno. exists st. rewrite <- Hsnoc, <- aggregate_encoded_snoc. split_and!; done. }
    assert (Hcf : forall cursor, cursor_fits done raw cursor <->
      cursor_after raw = Ok cursor /\ cursor_bytes cursor <= maximum - moreBase - (final_bytes done + increment + size - finalBase)).
    { intros cursor. unfold cursor_fits, more_bytes. rewrite more_final, Hsnoc. split; (intros [? ?]; split; [done|lia]). }
    destruct (encodedKeysetCursorSize _ _ _) as [m|] eqn:Em.
    + apply encodedKeysetCursorSize_iff in Em as (cursor & Hc & -> & Hm); [|done].
      rewrite (proj2 (Z.ltb_ge _ _)) by lia. rewrite Hc. cbn [rbind]. eexists. split; [reflexivity|]. right.
      assert (Hfit : cursor_fits done raw cursor) by (by apply Hcf). split; [|by exists cursor].
      split_and!; cbn [pp_rows pp_final pp_previous pp_safeSize pp_safeCursor]; [by rewrite aggregate_encoded_snoc|lia|done|done|].
      right. exists done, raw, cursor. split_and!; try done. unfold more_bytes. rewrite more_final, Hsnoc. lia.
    + eexists. split; [reflexivity|]. left. apply Hprov. intros cursor [Hc Hb]%Hcf.
      assert (Hs : encodedKeysetCursorSize (visible columns raw) source (maximum - moreBase - (final_bytes done + increment + size - finalBase)) = Some (cursor_bytes cursor))
        by (apply encodedKeysetCursorSize_iff; [done|by exists cursor]). congruence.
  - left. split; [done|]. intros [_ Hb]. rewrite Hsnoc in Hb.
    assert (Hs : encodedRowSize (visible columns raw) columns (maximum - final_bytes done - increment) = Some size)
      by (apply encodedRowSize_iff; split_and!; [done|done|lia]). congruence.
Qed.

Lemma cursor_nonempty raw cursor : cursor_after raw = Ok cursor -> len cursor <> 0.
Proof.
  unfold cursor_after, materializeKeysetCursor. intros H%results_iff%Forall2_length. rewrite length_combine in H. unfold len in *.
  destruct (kx_keyIndexes source); [done|]. cbn [List.length] in *. lia.
Qed.

Lemma more_bytes_positive kept raw cursor : more_bytes (kept ++ [raw])%list cursor <> 0.
Proof.
  unfold more_bytes, envelope_bytes. rewrite aggregate_encoded_snoc, rows_size_snoc.
  pose proof (rows_size_nonneg (aggregate_encoded columns kept)). pose proof (row_json_len (encode_cells columns (visible columns raw))).
  pose proof (digits_app [] (kept ++ [raw])%list) as Hd. cbn [Datatypes.app] in Hd. change (decimalDigits (len [])) with 1 in Hd.
  assert (Hc : 0 <= cursor_bytes cursor).
  { unfold cursor_bytes, cursor_json. cbn [marshal]. rewrite !slen_app. change (slen "[") with 1. change (slen "]") with 1. pose proof (slen_nonneg (join "," (map marshal (map cursor_value_json cursor)))). lia. }
  unfold separator. destruct (len _ =? 0); lia.
Qed.

(** A page that ends before [next] with the resumable rows [done]. *)
Lemma page_result_more done st next rest : resumable done -> resumable_state done st -> page_ends done next rest ->
  page_outcome (done ++ next :: rest)%list
    (if? (len (aggregate_encoded columns done) =? 0) || (pp_safeSize st =? 0) || (len (pp_safeCursor st) =? 0) return result_too_large then
     Ok ({| kt_rows := aggregate_encoded columns done; kt_rowCount := len (aggregate_encoded columns done); kt_hasMore := true;
            kt_nextCursor := pp_safeCursor st; kt_bytes := pp_safeSize st |}, true)).
Proof.
  intros Hres (_ & _ & _ & _ & Hsafe) Hend. destruct Hsafe as [->|(kept & last & cursor & -> & Hfit & -> & ->)].
  - change (len (aggregate_encoded columns []) =? 0) with true. by apply (outcome_too_large _ next rest).
  - rewrite aggregate_encoded_len. rewrite (proj2 (Z.eqb_neq _ _) (more_bytes_positive kept last cursor)).
    rewrite (proj2 (Z.eqb_neq _ _) (cursor_nonempty last cursor (proj1 Hfit))).
    assert (Hne : (len (kept ++ [last])%list =? 0) = false)
      by (apply Z.eqb_neq; rewrite len_app; change (len [last]) with 1; pose proof (len_nonneg kept); lia).
    rewrite Hne. cbn [orb]. apply (outcome_continued _ kept last cursor next rest); try done. by rewrite <- app_assoc.
Qed.

Lemma page_loop_outcome rest : forall done st, Forall acceptable rest -> resumable done -> resumable_state done st ->
  page_outcome (done ++ rest)%list
    (let? (st', moreObserved) := page_loop limit columns source finalBase moreBase maximum st (map Ok rest) in page_result st' moreObserved).
Proof.
  induction rest as [|raw rest IH]; intros done st Hacc Hres Hst; cbn [map page_loop].
  - cbn [rbind]. unfold page_result. destruct Hst as (Hrows & Hfinal & _ & Hfits & _). rewrite app_nil_r, Hrows, Hfinal, aggregate_encoded_len.
    apply outcome_final; [|done]. inversion Hres; [by left|right]; by eauto.
  - apply Forall_cons in Hacc as [Hr Hacc]. pose proof Hst as (Hrows & _ & Hprev & Hfits & _). rewrite Hprev, bool_decide_false by (by intros [? [=]]). cbn [orb].
    rewrite Hrows, aggregate_encoded_len. destruct (Z.eqb_spec (len done) limit) as [El|Nl].
    + cbn [rbind]. unfold page_result. rewrite Hprev, Hrows. apply page_result_more; [done|done|].
      left. intros [Hl _]. rewrite len_app in Hl. change (len [raw]) with 1 in Hl. lia.
    + cbn [rbind]. destruct (page_step_cases done st raw Hr Hst) as [[-> Hno]|(st' & -> & [Hp|[Hst' (cursor & Hfit)]])]; [destruct Hfits; lia|..]; cbn [rbind].
      * unfold page_result. rewrite Hprev, Hrows. apply page_result_more; [done|done|by left].
      * destruct Hp as (before & Hb & Hf & Hno & Er & Ef & Ep & Es & Ec). destruct rest as [|raw' rest]; cbn [map page_loop].
        -- cbn [rbind]. unfold page_result. rewrite Er, Ef, aggregate_encoded_len. apply outcome_final; [right; by eauto|done].
        -- rewrite Ep, bool_decide_true by done. cbn [orb rbind]. unfold page_result. rewrite Ep, Er, Es, Ec, aggregate_encoded_snoc, removelast_last.
           apply page_result_more; [done|done|]. by right.
      * replace (done ++ raw :: rest)%list with ((done ++ [raw]) ++ rest)%list by (by rewrite <- app_assoc).
        apply IH; [done| |done]. econstructor; [done|apply Hst'|exact Hfit].
Qed.
End PageSpec.

Lemma collected_page limit columns source finalBase moreBase maximum raws stopErr :
  Forall (fun kind => In kind cursor_kinds) (kx_keyKinds source) -> kx_keyIndexes source <> [] ->
  len (kx_keyKinds source) = len (kx_keyIndexes source) -> 1 <= limit -> 0 <= moreBase -> finalBase <= maximum ->
  Forall (acceptable columns source) raws -> stopErr = nil_error ->
  page_outcome limit columns source finalBase moreBase maximum raws
    (collectKeysetRows limit columns source finalBase moreBase maximum {| st_rows := map Ok raws; st_err := nil_error |} stopErr).
Proof.
  intros Hk Hi Ha Hl Hm Hf Hacc ->. unfold collectKeysetRows. cbn [st_rows st_err].
  assert (Hres : resumable limit columns source finalBase moreBase maximum []) by constructor.
  assert (Hst : resumable_state limit columns source finalBase moreBase maximum []
    {| pp_rows := []; pp_final := finalBase; pp_safeSize := 0; pp_safeCursor := []; pp_previous := None |}).
  { split_and!; try done; [by unfold final_bytes; rewrite envelope_nil| |by left].
    split; [rewrite len_nil; lia|]. unfold final_bytes. by rewrite envelope_nil. }
  pose proof (page_loop_outcome limit columns source finalBase moreBase maximum Hk Hi Ha Hm raws [] _ Hacc Hres Hst) as H.
  destruct (page_loop _ _ _ _ _ _ _ _) as [[st []]|e]; exact H.
Qed.

(** C16: What a keyset page holds. Of the rows of the answer, all of which pass the checks of the
    loop, the page holds either all of them, without a cursor, when they are within the limit
    and the budget of a last page; or the longest run of first rows each of which could
    end a page, followed by the cursor of the last of them, when the next row breaks the
    limit or the budget or is followed by more rows although no cursor fits after it; or
    there is an error when not even one row with its cursor fits. The byte count is the
    exact size of the envelope, row count and cursor included, and a page with a cursor
    is never empty. *)
Theorem collectKeysetRows_page limit columns source finalBase moreBase maximum raws stopErr :
  Forall (fun kind => In kind cursor_kinds) (kx_keyKinds source) -> kx_keyIndexes source <> [] ->
  len (kx_keyKinds source) = len (kx_keyIndexes source) -> 1 <= limit -> 0 <= moreBase -> finalBase <= maximum ->
  Forall (acceptable columns source) raws -> stopErr = nil_error ->
  page_outcome limit columns source finalBase moreBase maximum raws
    (collectKeysetRows limit columns source finalBase moreBase maximum {| st_rows := map Ok raws; st_err := nil_error |} stopErr).
Proof. apply collected_page. Qed.

(** ** A page of three orders *)

Definition example_columns : list ResultColumn :=
  match keysetResultColumns (vk_request (ak_query authorized_page)) example_source with Ok columns => columns | Err _ => [] end.

Definition example_orders : list raw_row :=
  [[Some "8"; Some "1"; Some "2024-01-31 10:00:00"]; [Some "9"; None; Some "2024-01-31 10:00:00"]; [Some "7"; Some "0"; Some "2024-01-30 23:59:59"]].

Definition example_collect (limit maximum : Z) : result (KeysetSelectResult * bool) :=
  collectKeysetRows limit example_columns example_source 10 12 maximum {| st_rows := map Ok example_orders; st_err := nil_error |} nil_error.

(** The third row breaks the limit; nothing breaks the budget; the cursor after the second row breaks it; and so does
    the one after the first row, an error although all three rows would fit a last page. *)
Example example_pages :
  map (fun '(limit, maximum) =>
         match example_collect limit maximum with
         | Ok (r, stopped) => Some (kt_rowCount r, kt_hasMore r, kt_bytes r, map cv_value (kt_nextCursor r), stopped)
         | Err _ => None
         end) [(2, 200); (3, 200); (3, 140); (3, 110)] =
  [Some (2, true, 156, ["2024-01-31 10:00:00"; "9"], true); Some (3, false, 106, [], false);
   Some (1, true, 123, ["2024-01-31 10:00:00"; "8"], true); None].
Proof. vm_compute. reflexivity. Qed.

Lemma collectKeysetRows_page_witness :
  page_outcome 2 example_columns example_source 10 12 200 example_orders (example_collect 2 200).
Proof.
  apply (collectKeysetRows_page 2 example_columns example_source 10 12 200 example_orders nil_error).
  - vm_compute. repeat constructor; tauto.
  - vm_compute. discriminate.
  - vm_compute. reflexivity.
  - lia.
  - lia.
  - lia.
  - repeat constructor; vm_compute; reflexivity.
  - reflexivity.
Defined.
