(* ===== verification/KeysetCursor.v ===== *)
(** The cursor of a page, taken back (internal/adapters/mysql8/keyset.go): the key columns of a
    checked source are projected columns, and the cursor that is printed for a row is
    accepted by the next request and bound to exactly the cells of that row. *)
From S2P Require Import Prelude Domain GoJson Number Portable Values QuerySpec Config Policy Sql JsonText Rows Aggregate AggregateNormal NumericBucket KeysetDecimal SqlAggregate Keyset KeysetBinds PolicyAggregate PolicyKeyset SqlKeyset KeysetRows.
Local Open Scope string_scope.
Local Open Scope Z_scope.

(** ** Type names *)

Lemma trim_left_smap (p : ascii -> bool) f s : (forall c, p (f c) = p c) -> trim_left_by p (smap f s) = smap f (trim_left_by p s).
Proof. intros H. induction s as [|c s IH]; [done|]. cbn [smap trim_left_by]. rewrite H. by destruct (p c). Qed.

Lemma srev_smap f s : srev (smap f s) = smap f (srev s).
Proof. induction s as [|c s IH]; [done|]. cbn [smap]. by rewrite !srev_cons, smap_app, IH. Qed.

Lemma trim_space_upper s : trim_space (to_upper s) = to_upper (trim_space s).
Proof.
  assert (H : forall c, is_space (upper_ascii c) = is_space c).
  { intros c. assert (Hb : all_bytes (fun c => Bool.eqb (is_space (upper_ascii c)) (is_space c)) = true) by (vm_compute; reflexivity).
    by apply Bool.eqb_prop, (all_bytes_spec _ Hb c). }
  unfold trim_space, to_upper, trim_right_by. by rewrite !trim_left_smap, srev_smap, trim_left_smap, srev_smap.
Qed.

(** A portable type depends on the normal type only. *)
Lemma portable_normal column : portableColumnType (kc_dataType column) = portableColumnType (normal_type column).
Proof.
  unfold normal_type, portableColumnType. rewrite !trim_space_upper. rewrite <- trim_space_upper, trim_space_upper.
  assert (H : forall s, to_upper (to_upper s) = to_upper s).
  { intros s. unfold to_upper. induction s as [|c s IH]; [done|]. cbn [smap]. rewrite IH. f_equal.
    assert (Hb : all_bytes (fun c => Ascii.eqb (upper_ascii (upper_ascii c)) (upper_ascii c)) = true) by (vm_compute; reflexivity).
    by apply Ascii.eqb_eq, (all_bytes_spec _ Hb c). }
  by rewrite <- (trim_space_upper (trim_space _)), trim_space_upper, trim_space_idem, H.
Qed.

(** ** Names under folding *)

Lemma fold_lower_head c s : is_ascii c = true -> fold (String c s) = byte (lower_ascii c) :: fold s.
Proof.
  intros Hc. unfold fold. rewrite runes_ascii by done. cbn [map fold_rune]. f_equal.
  assert (Hb : all_bytes (fun c => implb (is_ascii c) ((if between 65 (byte c) 90 then byte c + 32 else if byte c =? 0x212A then 107 else if byte c =? 0x17F then 115 else byte c) =? byte (lower_ascii c))) = true)
    by (vm_compute; reflexivity).
  pose proof (all_bytes_spec _ Hb c) as H. cbv beta in H. rewrite Hc in H. by apply Z.eqb_eq in H.
Qed.

(** An ASCII name is folded byte by byte. *)
Lemma fold_identifier s : ascii_string s = true -> fold s = map byte (list_ascii_of_string (to_lower s)).
Proof.
  induction s as [|c s IH]; [done|]. rewrite ascii_string_cons, andb_true_iff. intros [Hc Hs].
  rewrite fold_lower_head, IH by done. done.
Qed.

Lemma fold_identifier_lower a b : ascii_string a = true -> ascii_string b = true -> to_lower a = to_lower b -> fold a = fold b.
Proof. intros Ha Hb E. by rewrite !fold_identifier, E. Qed.

Lemma lower_ascii_high c : is_ascii (lower_ascii c) = is_ascii c.
Proof.
  assert (Hb : all_bytes (fun c => Bool.eqb (is_ascii (lower_ascii c)) (is_ascii c)) = true) by (vm_compute; reflexivity).
  by apply Bool.eqb_prop, (all_bytes_spec _ Hb c).
Qed.

Lemma fold_rune_byte c : is_ascii c = true ->
  (if between 65 (byte c) 90 then byte c + 32 else if byte c =? 0x212A then 107 else if byte c =? 0x17F then 115 else byte c) = byte (lower_ascii c).
Proof.
  intros Hc. pose proof (fold_lower_head c EmptyString Hc) as H. unfold fold in H. rewrite runes_ascii in H by done.
  cbn [map fold_rune] in H. injection H as H. exact H.
Qed.

(** A rune that folds to an ASCII letter, and whose lower case is ASCII, has that letter as its lower case. *)
Lemma fold_rune_lower r c : rune_starts r -> rune_coded r -> is_ascii c = true -> ascii_string (lower_rune r) = true ->
  fold_rune r = byte (lower_ascii c) -> lower_rune r = String (lower_ascii c) EmptyString.
Proof.
  intros Hs Hcode Hc Hl Hf. assert (Hlow : byte (lower_ascii c) < 0x80) by (rewrite <- (lower_ascii_high c) in Hc; apply Z.ltb_lt, Hc).
  destruct r as [code bytes|d]; [|cbn [fold_rune] in Hf; lia]. cbn [lower_rune fold_rune] in *.
  destruct Hs as (d & rest & E & Hd & _). cbn [rune_bytes] in E. subst bytes.
  destruct (Z.eqb_spec code 0x212A) as [->|N1].
  { change (between 65 0x212A 90) with false in Hf. change (0x212A =? 0x212A) with true in Hf. cbn iota in Hf. f_equal. apply byte_inj. by rewrite <- Hf. }
  destruct (Z.eqb_spec code 0x130) as [->|N2].
  { change (between 65 0x130 90) with false in Hf. change (0x130 =? 0x212A) with false in Hf. change (0x130 =? 0x17F) with false in Hf. cbn iota in Hf. lia. }
  cbn [to_lower smap] in Hl |- *. change (ascii_string (String (lower_ascii d) (smap lower_ascii rest)) = true) in Hl.
  rewrite ascii_string_cons, andb_true_iff, lower_ascii_high in Hl. destruct Hl as [Ha _]. rewrite Ha in Hd. destruct Hd as [->|[=]].
  cbn [rune_coded] in Hcode. subst code. cbn [smap]. f_equal. apply byte_inj. rewrite <- Hf, <- fold_rune_byte by done.
  by rewrite (proj2 (Z.eqb_neq _ _) N1).
Qed.

(** A name of the catalog that is an ASCII name in lower case and equal to a field under folding has its lower case. *)
Lemma fold_name_lower field name : ascii_string field = true -> ascii_string (lower_name name) = true ->
  equal_fold field name = true -> lower_name name = to_lower field.
Proof.
  intros Ha Hl He%equal_fold_spec. pose proof (runes_coded name) as Hc. destruct (runes_bytes name) as [_ Hs]. unfold fold in He at 2. unfold lower_name in *.
  revert field Ha He. induction (runes name) as [|r l IH]; intros field Ha He.
  - destruct field as [|c field]; [done|]. rewrite ascii_string_cons, andb_true_iff in Ha. rewrite fold_lower_head in He by apply Ha. discriminate He.
  - destruct field as [|c field]; [done|]. rewrite ascii_string_cons, andb_true_iff in Ha. destruct Ha as [Hac Ha].
    rewrite fold_lower_head in He by done. cbn [map] in He, Hl |- *. injection He as Hr He. rewrite sconcat_cons in *.
    unfold ascii_string in Hl. rewrite sforall_app, andb_true_iff in Hl. destruct Hl as [Hl1 Hl2].
    apply Forall_cons in Hc as [Hc Hcs], Hs as [Hs Hss]. rewrite (fold_rune_lower r c) by (done || by symmetry). rewrite (IH Hl2 Hcs Hss field Ha He). done.
Qed.

(** ** Key columns are projected *)

Lemma projected_at_spec name projection : forall i index,
  In index (projected_at i projection name) <-> exists j s, index = (i + j)%nat /\ projection !! j = Some s /\ equal_fold (s_field s) name = true.
Proof.
  induction projection as [|s projection IH]; intros i index; cbn [projected_at].
  - split; [done|]. by intros (j & s & _ & H & _).
  - assert (Hrest : In index (projected_at (S i) projection name) <->
      exists j s', index = (i + S j)%nat /\ projection !! j = Some s' /\ equal_fold (s_field s') name = true).
    { rewrite IH. split; intros (j & s' & -> & H); exists j, s'; (split; [lia|done]). }
    split.
    + intros H. destruct (equal_fold (s_field s) name) eqn:E.
      * destruct H as [<-|H]; [exists O, s; split_and!; [lia|done|done]|]. apply Hrest in H as (j & s' & -> & H). by exists (S j), s'.
      * apply Hrest in H as (j & s' & -> & H). by exists (S j), s'.
    + intros ([|j] & s' & -> & Hj & He).
      * injection Hj as <-. rewrite He. left. lia.
      * assert (H : In (i + S j)%nat (projected_at (S i) projection name)) by (apply Hrest; by exists j, s').
        destruct (equal_fold (s_field s) name); [by right|done].
Qed.

Lemma key_index_at projection column index : key_index projection column = Ok index ->
  exists s, projection !! index = Some s /\ equal_fold (s_field s) (kc_name column) = true /\
    forall j s', projection !! j = Some s' -> equal_fold (s_field s') (kc_name column) = true -> j = index.
Proof.
  unfold key_index. intros H. pose proof (projected_at_spec (kc_name column) projection 0) as Hspec.
  destruct (projected_at 0 projection (kc_name column)) as [|i [|]]; try done. injection H as ->.
  destruct (proj1 (Hspec index)) as (j & s & -> & Hj & He); [by left|]. exists s. split_and!; [done|done|].
  intros k s' Hk Hk'. destruct (proj2 (Hspec (0 + k)%nat)) as [E|[]]; [by exists k, s'|]. cbn in *. congruence.
Qed.

(** A term of the order, its key column with its kind and index, and the selection that projects it: the column of
    that selection is the key column. *)
Record key_projected (request : NormalizedKeysetRequest) (source : keysetSource) (order : Sort) (column : keysetSourceColumn)
    (kind : string) (index : nat) : Prop := {
  kj_kind : validateKeysetColumnType column = Ok kind;
  kj_representation : kc_representation column = o_representation order;
  kj_selection : exists s, k_projection (nk_query request) !! index = Some s /\ s_representation s = o_representation order /\
    keyset_column (kx_columns source) (s_field s) = keyset_column (kx_columns source) (o_field order) /\
    exists column0, keyset_column (kx_columns source) (o_field order) = Some column0 /\ kc_dataType column0 = kc_dataType column /\ kc_nullable column0 = false;
  kj_column : kx_projectionColumns source !! index = Some column;
}.

Lemma map_get_ascii columns field column : keyed columns -> is_identifier field = true -> keyset_column columns field = Some column ->
  lower_name (kc_name column) = to_lower field /\ ascii_string (lower_name (kc_name column)) = true.
Proof.
  intros Hk Hf H%map_get_keyed; [|done]. split; [done|]. rewrite H. by apply identifier_ascii, identifier_lower.
Qed.

Lemma key_is_projected request columns source order column kind index : keyed columns -> source_checked request columns source ->
  Forall (fun s => is_identifier (s_field s) = true) (k_projection (nk_query request)) ->
  names_key (k_projection (nk_query request)) order -> is_identifier (o_field order) = true ->
  key_column columns order = Ok (column, kind) -> key_index (k_projection (nk_query request)) column = Ok index ->
  key_projected request source order column kind index.
Proof.
  intros Hkeyed Hs Hids (s & Hfilter & Hrep) Ho Hcol Hindex. unfold key_column in Hcol.
  destruct (keyset_column columns (o_field order)) as [c0|] eqn:Hc0; [|done]. apply if_err_ok in Hcol as [Hnull Hcol].
  apply rbind_ok in Hcol as (kind' & Hkind & [= <- <-]). destruct (map_get_ascii _ _ _ Hkeyed Ho Hc0) as [Hname Hascii].
  apply key_index_at in Hindex as (s' & Hs' & He & Huniq). cbn [with_column_representation kc_name] in He, Huniq.
  assert (Hid' : is_identifier (s_field s') = true) by (by eapply Forall_lookup_1 in Hids).
  assert (Hlow : to_lower (s_field s') = to_lower (o_field order)).
  { rewrite <- Hname. symmetry. by apply fold_name_lower; [apply identifier_ascii|..]. }
  assert (Hin : In s (List.filter (fun s => String.eqb (s_field s) (o_field order)) (k_projection (nk_query request)))) by (rewrite Hfilter; by left).
  apply filter_In in Hin as [Hin Hfield%String.eqb_eq]. apply list_elem_of_In, list_elem_of_lookup in Hin as [j Hj].
  assert (j = index) as ->.
  { apply (Huniq j s Hj). apply equal_fold_spec in He. apply equal_fold_spec. rewrite <- He, Hfield. symmetry.
    by apply fold_identifier_lower; [apply identifier_ascii|apply identifier_ascii|]. }
  rewrite Hs' in Hj. injection Hj as ->. pose proof (sd_projection _ _ _ Hs) as Hp.
  destruct (Forall2_lookup_l _ _ _ _ _ Hp Hs') as (c & Hc & Hpc). rewrite <- (sd_columns _ _ _ Hs) in *.
  assert (Hsame : keyset_column (kx_columns source) (s_field s) = Some c0) by (unfold keyset_column in *; by rewrite Hlow).
  constructor; [done|done| |].
  - exists s. split_and!; [done|done|congruence|]. exists c0. split_and!; done.
  - rewrite Hc. unfold projection_column in Hpc. rewrite Hsame in Hpc. apply check_ok' in Hpc as [_ [= <-]]. by rewrite Hrep.
Qed.

(** ** A cell comes back *)

(** The text of an operand, which for MySQL is the value it denotes. *)
Definition bind_text (bound : Bind) : string :=
  match bound with
  | BindBool b => if b then "1" else "0"
  | BindInt z => itoa z
  | BindString s | BindBytes s => s
  end.

(** What MySQL documents of the value of a column: an integer is printed in decimal and within the width of its type, a
    character or binary value is no longer than its column, and the text of a temporal value has at most 26 characters. *)
Record stored_value (column : keysetSourceColumn) (text : string) : Prop := {
  sv_integer bits : is_source_text column = false -> integer_bits (normal_type column) = Some bits ->
    exists z, text = itoa z /\ (if is_unsigned column then 0 <= z < 2 ^ bits else - 2 ^ (bits - 1) <= z < 2 ^ (bits - 1));
  sv_characters maximum : is_source_text column = false -> kc_characterMaximumLength column = Some maximum -> rune_count text <= maximum;
  sv_octets maximum : is_source_text column = false -> kc_characterOctetLength column = Some maximum ->
    In (normal_type column) ["BINARY"; "VARBINARY"] -> slen text <= maximum;
  sv_source_text : is_source_text column = true -> rune_count text <= 26;
}.

Lemma timestamp_text text t k : ParsePortableDateTime text = Some (t, k) ->
  let result := stake 10 text +:+ "T" +:+ sdrop 11 text +:+ "Z" in
  ParsePortableTimestamp result = Some (t, k) /\
  stake 10 result +:+ " " +:+ sdrop 11 (stake (String.length result - 1) result) = text.
Proof.
  intros (ds & -> & Hv & Hy & Hd & -> & Hk & Hns)%parsePortableDateTime_sound. cbv zeta. cbn [utc_suffix]. rewrite sapp_nil_r.
  assert (E1 : stake 10 (base_text " " t +:+ Portable.fraction_text ds) = format_date t) by (unfold base_text; rewrite sapp_assoc; by apply stake_app).
  assert (E2 : sdrop 11 (base_text " " t +:+ Portable.fraction_text ds) = format_clock t +:+ Portable.fraction_text ds) by done.
  rewrite E1, E2. assert (Eresult : format_date t +:+ "T" +:+ (format_clock t +:+ Portable.fraction_text ds) +:+ "Z" =
    base_text "T" t +:+ Portable.fraction_text ds +:+ utc_suffix true) by (unfold base_text; by rewrite !sapp_assoc).
  split.
  - rewrite Eresult. by apply parsePortableDateTime_complete.
  - rewrite stake_app by done.
    assert (Hlast : forall a, stake (String.length (a +:+ "Z") - 1) (a +:+ "Z") = a).
    { intros a. rewrite length_app_s. cbn [String.length]. rewrite Nat.add_sub. by apply stake_app. }
    assert (Eb : format_date t +:+ "T" +:+ (format_clock t +:+ Portable.fraction_text ds) +:+ "Z" = (base_text "T" t +:+ Portable.fraction_text ds) +:+ "Z")
      by (unfold base_text; by rewrite !sapp_assoc).
    rewrite Eb, Hlast. assert (E3 : sdrop 11 (base_text "T" t +:+ Portable.fraction_text ds) = format_clock t +:+ Portable.fraction_text ds) by done.
    rewrite E3. unfold base_text. by rewrite sapp_assoc.
Qed.

(** A printed cell: its cursor value, accepted by the next request and bound to the cell. *)
Definition comes_back (column : keysetSourceColumn) (kind text : string) (value : KeysetCursorValue) : Prop :=
  cv_type value = kind /\ cursor_value_ok value /\ exists bound, bindKeysetCursor value column = Ok bound /\ bind_text bound = text.

Definition cursor_of_cell (kind text : string) : result KeysetCursorValue :=
  if String.eqb kind "bytes" then Ok {| cv_type := kind; cv_value := base64_encode text |}
  else match mysqlKeysetCursorText text kind with
       | Some text => Ok {| cv_type := kind; cv_value := text |}
       | None => Err upstream_error
       end.

Lemma integer_comes_back column text : is_source_text column = false ->
  In (normal_type column) ["TINYINT"; "SMALLINT"; "MEDIUMINT"; "INT"; "INTEGER"; "BIGINT"] -> stored_value column text ->
  exists value, cursor_of_cell "integer" text = Ok value /\ comes_back column "integer" text value.
Proof.
  intros Hs Hin Hv. assert (Hb : exists bits, integer_bits (normal_type column) = Some bits /\ 8 <= bits <= 64).
  { repeat destruct Hin as [<-|Hin]; [eexists; (split; [reflexivity|lia])..|done]. }
  destruct Hb as (bits & Hb & Hbits). destruct (sv_integer _ _ Hv bits Hs Hb) as (z & -> & Hz).
  eexists. split; [reflexivity|]. assert (Hwide : 2 ^ bits <= 2 ^ 64 /\ 2 ^ (bits - 1) <= 2 ^ 63) by (split; apply Z.pow_le_mono_r; lia).
  assert (Hrange : - 2 ^ 63 <= z < 2 ^ 64) by (destruct (is_unsigned column); lia).
  split; [done|]. split; [constructor; by exists z|]. exists (BindInt z). split; [|done].
  unfold bindKeysetCursor. rewrite Hs. cbn [cv_type cv_value]. change (String.eqb "integer" "integer") with true. cbn iota.
  unfold bindKeysetInteger. rewrite Hb. destruct (is_unsigned column).
  - assert (Hu : ParseUint bits (itoa z) = Some z).
    { destruct (itoa_canonical z ltac:(lia)) as [(Hne & Hd & _) Hval]. apply ParseUint_digits. split_and!; [done|done|done|lia]. }
    by rewrite Hu.
  - by rewrite ParseInt_itoa.
Qed.

Lemma string_comes_back column text : is_source_text column = false -> validKeysetCharacterMetadata column = true ->
  (exists maximum, kc_characterMaximumLength column = Some maximum /\ maximum <= ProtocolMaxCursorStringRunes) ->
  valid_utf8 text = true -> stored_value column text ->
  exists value, cursor_of_cell "string" text = Ok value /\ comes_back column "string" text value.
Proof.
  intros Hs Hm (maximum & Hmax & Hle) Hu Hv. pose proof (sv_characters _ _ Hv maximum Hs Hmax). eexists. split; [reflexivity|].
  split; [done|]. split; [constructor; [done|lia]|]. exists (BindString text). split; [|done].
  unfold bindKeysetCursor. rewrite Hs, Hmax, Hm. cbn [cv_type cv_value]. rewrite Hu, (proj2 (Z.ltb_ge _ _)) by done. reflexivity.
Qed.

Lemma bytes_comes_back column text : is_source_text column = false -> In (normal_type column) ["BINARY"; "VARBINARY"] ->
  (exists maximum, kc_characterOctetLength column = Some maximum /\ maximum <= ProtocolMaxCursorBytes) -> stored_value column text ->
  exists value, cursor_of_cell "bytes" text = Ok value /\ comes_back column "bytes" text value.
Proof.
  intros Hs Hin (maximum & Hmax & Hle) Hv. pose proof (sv_octets _ _ Hv maximum Hs Hmax Hin). eexists. split; [reflexivity|].
  split; [done|]. split; [constructor; lia|]. exists (BindBytes text). split; [|done].
  unfold bindKeysetCursor. rewrite Hs, Hmax. cbn [cv_type cv_value]. rewrite base64_decode_encode.
  cbn [default from_option id negb orb]. change (String.eqb "bytes" "integer") with false. change (String.eqb "bytes" "string") with false. change (String.eqb "bytes" "bytes") with true.
  cbn iota. rewrite (proj2 (Z.ltb_ge _ _)) by done. by rewrite String.eqb_refl.
Qed.

Lemma temporal_comes_back column text : is_source_text column = false ->
  validKeysetSourceTemporalCell text column = true -> forall kind, In (normal_type column, kind) [("DATE", "date"); ("DATETIME", "datetime"); ("TIMESTAMP", "timestamp")] ->
  exists value, cursor_of_cell kind text = Ok value /\ comes_back column kind text value.
Proof.
  intros Hs Hcell kind Hk. unfold validKeysetSourceTemporalCell in Hcell. rewrite Hs in Hcell.
  destruct Hk as [Hk|[Hk|[Hk|[]]]]; injection Hk as Ht <-; rewrite <- Ht in Hcell; unfold cursor_of_cell, mysqlKeysetCursorText;
    cbn [String.eqb Ascii.eqb Bool.eqb] in Hcell |- *.
  - destruct (ParsePortableDate text) as [t|] eqn:E; [|done]. eexists. split; [reflexivity|]. split; [done|]. split; [by econstructor|].
    exists (BindString text). split; [|done]. unfold bindKeysetCursor. rewrite Hs. cbn [cv_type contains existsb String.eqb Ascii.eqb Bool.eqb orb].
    unfold bindMySQLKeysetTemporalCursor. cbn [cv_type cv_value String.eqb Ascii.eqb Bool.eqb].
    rewrite E, <- Ht. cbn [String.eqb Ascii.eqb Bool.eqb negb orb]. unfold within in Hcell. by rewrite Hcell.
  - unfold validSourceInstant in Hcell. destruct (ParsePortableDateTime text) as [[t k]|] eqn:E; [|done].
    destruct (mysqlKeysetTemporalPrecision column) as [precision|] eqn:Ep; [|done]. apply andb_true_iff in Hcell as [Hd Hw].
    eexists. split; [reflexivity|]. split; [done|]. split; [by econstructor|]. exists (BindString text). split; [|done].
    unfold bindKeysetCursor. rewrite Hs. cbn [cv_type contains existsb String.eqb Ascii.eqb Bool.eqb orb].
    unfold bindMySQLKeysetTemporalCursor. cbn [cv_type cv_value String.eqb Ascii.eqb Bool.eqb]. rewrite E, Ep, <- Ht. cbn [String.eqb Ascii.eqb Bool.eqb negb orb].
    unfold within in Hw. by rewrite Hd, Hw.
  - unfold validSourceInstant in Hcell. destruct (ParsePortableDateTime text) as [[t k]|] eqn:E; [|done].
    destruct (mysqlKeysetTemporalPrecision column) as [precision|] eqn:Ep; [|done]. apply andb_true_iff in Hcell as [Hd Hw].
    destruct (timestamp_text text t k E) as [E1 E2]. rewrite E1. eexists. split; [reflexivity|]. split; [done|]. split; [by econstructor|].
    eexists (BindString _). split; [|exact E2]. unfold bindKeysetCursor. rewrite Hs. cbn [cv_type contains existsb String.eqb Ascii.eqb Bool.eqb orb].
    unfold bindMySQLKeysetTemporalCursor. cbn [cv_type cv_value String.eqb Ascii.eqb Bool.eqb]. rewrite E1, Ep, <- Ht. cbn [String.eqb Ascii.eqb Bool.eqb negb orb].
    unfold within in Hw. by rewrite Hd, Hw.
Qed.

Lemma cell_comes_back column kind text : validateKeysetColumnType column = Ok kind ->
  validKeysetCell text (if is_source_text column then "string" else portableColumnType (kc_dataType column)) = true ->
  validKeysetSourceTemporalCell text column = true -> stored_value column text ->
  exists value, cursor_of_cell kind text = Ok value /\ comes_back column kind text value.
Proof.
  intros Hkind Hcell Htime Hv. unfold validateKeysetColumnType in Hkind. destruct (is_source_text column) eqn:Hs.
  - apply check_ok' in Hkind as [_ Hkind].
    assert (kind = "string") as -> by (destruct (equal_fold _ _); [by injection Hkind|by apply rbind_ok in Hkind as (? & _ & [= <-])]).
    assert (Hu : valid_utf8 text = true) by (unfold validKeysetSourceTemporalCell in Htime; by rewrite Hs in Htime).
    pose proof (sv_source_text _ _ Hv Hs) as Hn.
    assert (Hmax : rune_count text <= ProtocolMaxCursorStringRunes) by (change ProtocolMaxCursorStringRunes with 3072; lia).
    eexists. split; [reflexivity|]. split; [done|]. split; [by constructor|]. exists (BindString text). split; [|done].
    unfold bindKeysetCursor. rewrite Hs. cbn [cv_type cv_value]. rewrite Hu, (proj2 (Z.ltb_ge _ _)) by done. reflexivity.
  - cbv zeta in Hkind. rewrite portable_normal in Hcell.
    destruct (contains ["TINYINT"; "SMALLINT"; "MEDIUMINT"; "INT"; "INTEGER"; "BIGINT"] (normal_type column)) eqn:E1.
    { injection Hkind as <-. apply integer_comes_back; [done|by apply contains_In|done]. }
    destruct (contains ["CHAR"; "VARCHAR"] (normal_type column)) eqn:E2.
    { destruct (kc_characterMaximumLength column) as [n|] eqn:En; [|done]. apply if_err_ok in Hkind as [Hn [= <-]].
      rewrite !orb_false_iff, negb_false_iff, !Z.ltb_ge in Hn. destruct Hn as [[Hm _] Hn].
      apply string_comes_back; [done|done|by exists n| |done]. apply contains_In in E2.
      destruct E2 as [E2|[E2|[]]]; rewrite <- E2 in Hcell; exact Hcell. }
    destruct (contains ["BINARY"; "VARBINARY"] (normal_type column)) eqn:E3.
    { destruct (kc_characterOctetLength column) as [n|] eqn:En; [|done]. apply if_err_ok in Hkind as [Hn [= <-]].
      rewrite !orb_false_iff, !Z.ltb_ge in Hn. apply bytes_comes_back; [done|by apply contains_In|exists n; by split; [|lia]|done]. }
    destruct (String.eqb_spec (normal_type column) "DATE") as [E4|_].
    { injection Hkind as <-. apply temporal_comes_back; [done|done|rewrite E4; by left]. }
    destruct (String.eqb_spec (normal_type column) "DATETIME") as [E5|_].
    { apply rbind_ok in Hkind as (? & _ & [= <-]). apply temporal_comes_back; [done|done|rewrite E5; right; by left]. }
    destruct (String.eqb_spec (normal_type column) "TIMESTAMP") as [E6|_]; [|done].
    apply rbind_ok in Hkind as (? & _ & [= <-]). apply temporal_comes_back; [done|done|rewrite E6; right; right; by left].
Qed.

(** ** All keys of a row *)

(** The terms of the order with their columns, kinds and indexes, side by side. *)
Inductive aligned (P : Sort -> keysetSourceColumn -> string -> nat -> Prop) :
    list Sort -> list keysetSourceColumn -> list string -> list nat -> Prop :=
| aligned_nil : aligned P [] [] [] []
| aligned_cons o c k x os cs ks xs : P o c k x -> aligned P os cs ks xs -> aligned P (o :: os) (c :: cs) (k :: ks) (x :: xs).

Lemma source_aligned request columns source : keyed columns -> source_checked request columns source ->
  Forall (fun s => is_identifier (s_field s) = true) (k_projection (nk_query request)) ->
  Forall (fun o => is_identifier (o_field o) = true) (k_order_by (nk_query request)) ->
  Forall (names_key (k_projection (nk_query request))) (k_order_by (nk_query request)) ->
  aligned (key_projected request source) (k_order_by (nk_query request)) (kx_keyColumns source) (kx_keyKinds source) (kx_keyIndexes source).
Proof.
  intros Hkeyed Hs Hids Hos Hnames. pose proof (sd_keys _ _ _ Hs) as Hk. pose proof (sd_indexes _ _ _ Hs) as Hi. pose proof (sd_kinds _ _ _ Hs) as Hl.
  assert (Hproj : forall o c k x, is_identifier (o_field o) = true -> names_key (k_projection (nk_query request)) o ->
    key_column columns o = Ok (c, k) -> key_index (k_projection (nk_query request)) c = Ok x -> key_projected request source o c k x)
    by (intros; by eapply key_is_projected).
  clear Hs. revert Hk Hi Hl Hos Hnames. generalize (k_order_by (nk_query request)) (kx_keyColumns source) (kx_keyKinds source) (kx_keyIndexes source).
  intros os. induction os as [|o os IH]; intros cs ks xs Hk Hi Hl Hos Hnames.
  - apply Forall2_nil_inv_l in Hk. destruct cs, ks; try discriminate; try (unfold len in Hl; cbn in Hl; lia).
    apply Forall2_nil_inv_l in Hi as ->. constructor.
  - apply Forall2_cons_inv_l in Hk as ([c k] & rest & Hck & Hk & E). destruct cs as [|c' cs], ks as [|k' ks]; try done. cbn [combine] in E.
    injection E as -> -> <-. apply Forall2_cons_inv_l in Hi as (x & xs' & Hx & Hi & ->). apply Forall_cons in Hos as [Ho Hos], Hnames as [Hn Hnames].
    constructor; [by apply Hproj|]. apply IH; try done. rewrite !len_cons in Hl. lia.
Qed.

Lemma aligned_in P os cs ks xs : aligned P os cs ks xs -> aligned (fun o c k x => P o c k x /\ In (c, x) (combine cs xs)) os cs ks xs.
Proof.
  intros H. enough (Hgen : forall cs' xs', (forall item, In item (combine cs xs) -> In item (combine cs' xs')) ->
    aligned (fun o c k x => P o c k x /\ In (c, x) (combine cs' xs')) os cs ks xs) by (by apply Hgen).
  induction H as [|o c k x os cs ks xs Hp _ IH]; intros cs' xs' Hincl; constructor.
  - split; [done|]. apply Hincl. by left.
  - apply IH. intros item Hi. apply Hincl. by right.
Qed.

(** The operand of a cursor value is the cell of the row. *)
Definition binds_cell (raw : raw_row) (item : keysetSourceColumn * nat) (value : KeysetCursorValue) : Prop :=
  exists text bound, cell raw item.2 = Some text /\ bindKeysetCursor value item.1 = Ok bound /\ bind_text bound = text.

Lemma aligned_cursor P raw orders columns kinds indexes : aligned P orders columns kinds indexes ->
  (forall o c k x, P o c k x -> exists text, cell raw x = Some text /\
     (o_representation o = RepresentationSourceText -> k = "string") /\
     exists value, cursor_of_cell k text = Ok value /\ comes_back c k text value) ->
  exists cursor, results (key_cursor raw) (combine indexes kinds) = Ok cursor /\ Forall2 cursor_item_ok orders cursor /\
    Forall (fun item => source_cursor_step item = Ok tt) (combine cursor (combine columns kinds)) /\
    Forall2 (binds_cell raw) (combine columns indexes) cursor.
Proof.
  intros H HP. induction H as [|o c k x os cs ks xs Hp _ IH]; [exists []; split_and!; constructor|].
  destruct IH as (cursor & Hr & Ho & Hs & Hb). destruct (HP o c k x Hp) as (text & Hcell & Hrep & value & Hv & Htype & Hok & bound & Hbound & Htext).
  exists (value :: cursor). split_and!.
  - cbn [combine results]. unfold key_cursor at 1. rewrite Hcell. cbn [default from_option id]. unfold cursor_of_cell in Hv. rewrite Hv. cbn [rbind]. by rewrite Hr.
  - constructor; [|done]. split; [|done]. intros E. rewrite Htype. by apply Hrep.
  - cbn [combine]. constructor; [|done]. unfold source_cursor_step. rewrite Htype, String.eqb_refl. cbn [negb]. by rewrite Hbound.
  - cbn [combine]. constructor; [|done]. by exists text, bound.
Qed.

(** ** The next request *)

Definition with_page (request : NormalizedKeysetRequest) (page : KeysetPage) : NormalizedKeysetRequest := {|
  nk_profile := nk_profile request; nk_datasource := nk_datasource request; nk_shape := nk_shape request;
  nk_query := nk_query request; nk_page := page |}.

Definition after (cursor : list KeysetCursorValue) : KeysetPage := {| pg_kind := "after"; pg_cursor := Some cursor |}.

Lemma keyset_source_page request columns source cursor : keyset_source_of request columns = Ok source ->
  Forall (fun item => source_cursor_step item = Ok tt) (combine cursor (combine (kx_keyColumns source) (kx_keyKinds source))) ->
  keyset_source_of (with_page request (after cursor)) columns = Ok source.
Proof.
  intros H Hc. unfold keyset_source_of in *. cbn [with_page nk_query nk_page after pg_kind cursor_of pg_cursor default from_option] in *.
  apply check_ok' in H as [H1 H]. apply rbind_ok in H as (ps & H2 & H). apply rbind_ok in H as (keys & H3 & H). apply rbind_ok in H as (indexes & H4 & H).
  apply check_ok' in H as [_ [= <-]]. rewrite H1, H2. cbn [rbind]. rewrite H3. cbn [rbind]. rewrite H4. cbn [rbind].
  cbn [kx_keyColumns kx_keyKinds] in Hc. rewrite combine_pairs in Hc. change (String.eqb "after" "after") with true. cbn iota.
  assert (Hok : each (fun _ item => source_cursor_step item) (combine cursor keys) = Ok tt)
    by (by apply (each_ok_Forall _ (fun item => source_cursor_step item = Ok tt))).
  unfold cursor_of. cbn [pg_cursor default from_option id]. by rewrite Hok.
Qed.

Lemma combine_lookup {A B} (a : list A) (b : list B) i x y : a !! i = Some x -> b !! i = Some y -> combine a b !! i = Some (x, y).
Proof.
  revert b i. induction a as [|x' a IH]; intros [|y' b] [|i] Hx Hy; try done; [by injection Hx as ->; injection Hy as ->|]. by apply IH.
Qed.

Lemma cell_lookup raw index text : cell raw index = Some text -> raw !! index = Some (Some text).
Proof.
  unfold cell. revert index. induction raw as [|x raw IH]; intros [|index] H; [discriminate H|discriminate H| |].
  - cbn [nth] in H. by subst.
  - by apply IH.
Qed.

(** The cell of a key in a checked row. *)
Lemma key_cell request source columns raw order column kind index : key_projected request source order column kind index ->
  In index (kx_keyIndexes source) -> keysetResultColumns request source = Ok columns -> validateKeysetRow raw columns source = Ok tt ->
  exists text, cell raw index = Some text /\
    validKeysetCell text (if is_source_text column then "string" else portableColumnType (kc_dataType column)) = true /\
    validKeysetSourceTemporalCell text column = true.
Proof.
  intros [Hkind Hrep (s & Hs & Hsrep & Hsame & c0 & Hc0 & Htype & _) Hcol] Hin Hcols Hrow.
  unfold validateKeysetRow in Hrow. apply if_err_ok in Hrow as [_ Hrow]. apply check_ok' in Hrow as [Hcells Hkeys].
  apply (each_ok_Forall _ (fun item => valid_row_cell item = Ok tt)) in Hcells; [|done].
  apply (each_ok_Forall _ (fun projectionIndex => is_Some (cell raw projectionIndex))) in Hkeys.
  2: { intros _ x. rewrite if_err_ok, negb_false_iff, bool_decide_eq_true. naive_solver. }
  rewrite Forall_forall in Hkeys. destruct (Hkeys index) as [text Htext]; [by apply list_elem_of_In|]. exists text. split; [done|].
  apply results_iff in Hcols. destruct (Forall2_lookup_l _ _ _ _ _ Hcols Hs) as (rc & Hrc & Hresult).
  assert (Hitem := combine_lookup _ _ _ _ _ (cell_lookup _ _ _ Htext) (combine_lookup _ _ _ _ _ Hrc Hcol)).
  eapply Forall_lookup_1 in Hcells; [|exact Hitem]. unfold valid_row_cell in Hcells. apply if_err_ok in Hcells as [Hok _].
  apply orb_false_iff in Hok as [H1%negb_false_iff H2%negb_false_iff]. split; [|done].
  assert (Htext' : rc_type rc = (if is_source_text column then "string" else portableColumnType (kc_dataType column))); [|by rewrite <- Htext'].
  unfold keyset_result_column in Hresult. rewrite Hsame, Hc0 in Hresult. apply if_err_ok in Hresult as [_ Hresult].
  apply if_err_ok in Hresult as [_ Hresult]. unfold is_source_text. rewrite Hrep, <- Hsrep, <- Htype. by destruct (String.eqb _ _); injection Hresult as <-.
Qed.

(** The keys of an accepted request, side by side. *)
Lemma accepted_aligned sha256 r l q m w ci rows err source :
  ValidateKeyset sha256 r l = Ok q -> NormalizeKeysetIdentifiers sha256 q m = Ok w ->
  keyset_source_rows (vk_request w) ci rows err = Ok source ->
  aligned (key_projected (vk_request w) source) (k_order_by (nk_query (vk_request w))) (kx_keyColumns source) (kx_keyKinds source) (kx_keyIndexes source).
Proof.
  intros Hv Hn Hsource. pose proof (normalized_keyset_canonical _ _ _ _ _ _ Hv Hn) as Hc.
  pose proof Hn as (_ & f & _ & _ & Hnames & _ & Ew)%NormalizeKeysetIdentifiers_iff.
  destruct (keyset_source_rows_inv _ _ _ _ _ Hsource) as (catalog & Hkeyed & Hof). pose proof (keyset_source_of_checked _ _ _ Hof) as Hs.
  apply (source_aligned _ catalog); try done.
  - eapply Forall_impl; [apply (kc_selections _ _ Hc)|]. intros s [(_ & _ & _ & Hi & _) _]. done.
  - eapply Forall_impl; [apply (kc_keys _ _ Hc)|]. intros o [(_ & Hi & _) _]. done.
  - by rewrite Ew.
Qed.

Lemma row_cursor_continues sha256 r l q m w ci rows err source columns raw :
  ValidateKeyset sha256 r l = Ok q -> NormalizeKeysetIdentifiers sha256 q m = Ok w ->
  keyset_source_rows (vk_request w) ci rows err = Ok source -> keysetResultColumns (vk_request w) source = Ok columns ->
  validateKeysetRow raw columns source = Ok tt ->
  (forall column index text, In (column, index) (combine (kx_keyColumns source) (kx_keyIndexes source)) -> cell raw index = Some text ->
     stored_value column text) ->
  exists cursor,
    materializeKeysetCursor raw source = Ok cursor /\
    page_ok (k_order_by (nk_query (vk_request w))) (after cursor) /\
    keyset_source_rows (with_page (vk_request w) (after cursor)) ci rows err = Ok source /\
    Forall2 (binds_cell raw) (combine (kx_keyColumns source) (kx_keyIndexes source)) cursor.
Proof.
  intros Hv Hn Hsource Hcols Hrow Hstored. pose proof (accepted_aligned _ _ _ _ _ _ _ _ _ _ Hv Hn Hsource) as Ha.
  destruct (keyset_source_rows_inv _ _ _ _ _ Hsource) as (catalog & Hkeyed & Hof). pose proof (keyset_source_of_checked _ _ _ Hof) as Hs.
  assert (Hcells : forall o c k x, key_projected (vk_request w) source o c k x /\ In (c, x) (combine (kx_keyColumns source) (kx_keyIndexes source)) ->
    exists text, cell raw x = Some text /\ (o_representation o = RepresentationSourceText -> k = "string") /\
      exists value, cursor_of_cell k text = Ok value /\ comes_back c k text value).
  { intros o c k x [Hp Hin]. destruct (key_cell _ _ _ _ _ _ _ _ Hp (in_combine_r _ _ _ _ Hin) Hcols Hrow) as (text & Htext & H1 & H2).
    exists text. split; [done|]. split; [|by apply cell_comes_back; [apply Hp|..|by eapply Hstored]].
    intros E. destruct Hp as [Hkind Hrep _ _]. unfold validateKeysetColumnType, is_source_text in Hkind. rewrite Hrep, E, String.eqb_refl in Hkind.
    apply check_ok' in Hkind as [_ Hkind]. destruct (equal_fold _ _); [by injection Hkind|by apply rbind_ok in Hkind as (? & _ & [= <-])]. }
  destruct (aligned_cursor _ raw _ _ _ _ (aligned_in _ _ _ _ _ Ha) Hcells) as (cursor & Hm & Hok & Hsteps & Hb).
  exists cursor. split_and!; [done|by constructor| |done].
  unfold keyset_source_rows in *. apply rbind_ok in Hsource as (catalog' & Hi & H). apply check_ok' in H as [He H]. apply if_err_ok in H as [Hl H].
  change (KeysetReferencedFields (with_page (vk_request w) (after cursor))) with (KeysetReferencedFields (vk_request w)).
  change (nk_query (with_page (vk_request w) (after cursor))) with (nk_query (vk_request w)). rewrite Hi. cbn [rbind]. rewrite He. cbn [rbind].
  rewrite Hl. by apply keyset_source_page.
Qed.

(** C17: A page continues exactly after its last row. Take a row that passes the checks of a page of an
    accepted request. When its key cells are values that MySQL documents for their columns, the
    cursor of the row exists; as the page of the next request it is valid and accepted for the same columns
    of the source, which are checked to the same result; and the operand bound for each cursor value is the
    very cell of the row, as an integer, a text or bytes. *)
Theorem cursor_continues_after_row sha256 r l q m w ci rows err source columns raw :
  ValidateKeyset sha256 r l = Ok q -> NormalizeKeysetIdentifiers sha256 q m = Ok w ->
  keyset_source_rows (vk_request w) ci rows err = Ok source -> keysetResultColumns (vk_request w) source = Ok columns ->
  validateKeysetRow raw columns source = Ok tt ->
  (forall column index text, In (column, index) (combine (kx_keyColumns source) (kx_keyIndexes source)) -> cell raw index = Some text ->
     stored_value column text) ->
  exists cursor,
    materializeKeysetCursor raw source = Ok cursor /\
    page_ok (k_order_by (nk_query (vk_request w))) (after cursor) /\
    keyset_source_rows (with_page (vk_request w) (after cursor)) ci rows err = Ok source /\
    Forall2 (binds_cell raw) (combine (kx_keyColumns source) (kx_keyIndexes source)) cursor.
Proof. apply row_cursor_continues. Qed.

Lemma cursor_continues_after_row_witness :
  let page := vk_request (ak_query authorized_page) in
  let row := [Some "9"; None; Some "2024-01-31 10:00:00"] in
  exists cursor,
    materializeKeysetCursor row example_source = Ok cursor /\
    page_ok (k_order_by (nk_query page)) (after cursor) /\
    keyset_source_rows (with_page page (after cursor)) true example_catalog nil_error = Ok example_source /\
    Forall2 (binds_cell row) (combine (kx_keyColumns example_source) (kx_keyIndexes example_source)) cursor.
Proof.
  cbv zeta. apply (cursor_continues_after_row srev example_keyset example_keyset_limits (keyset_stored example_keyset) insensitive
    (ak_query authorized_page) true example_catalog nil_error example_source example_columns [Some "9"; None; Some "2024-01-31 10:00:00"]).
  - exact keyset_validates.
  - vm_compute. reflexivity.
  - vm_compute. reflexivity.
  - vm_compute. reflexivity.
  - vm_compute. reflexivity.
  - intros column index text Hin Hcell. vm_compute in Hin. destruct Hin as [Hin|[Hin|[]]]; injection Hin as <- <-; vm_compute in Hcell; injection Hcell as <-.
    + constructor.
      * intros bits _ Hb. vm_compute in Hb. discriminate.
      * intros maximum _ H. vm_compute in H. discriminate.
      * intros maximum _ H. vm_compute in H. discriminate.
      * intros H. vm_compute in H. discriminate.
    + constructor.
      * intros bits _ Hb. vm_compute in Hb. injection Hb as <-. exists 9. split; [vm_compute; reflexivity|]. vm_compute. split; [discriminate|reflexivity].
      * intros maximum _ H. vm_compute in H. discriminate.
      * intros maximum _ H. vm_compute in H. discriminate.
      * intros H. vm_compute in H. discriminate.
Defined.
