(* ===== verification/KeysetWalk.v ===== *)
(** Reading a table page after page. The adapter's part of one request, without its
    session ([served]: the checks of the source, the columns, the statement and the rows), and
    a client that sends the cursor of each page with its next request. The database is a
    parameter: what rows it holds, in which order it returns them and how it compares a
    row with the operand of a cursor. *)
From Stdlib Require Import Sorting.Sorted.
From stdpp Require Import sorting.
From S2P Require Import Prelude Domain GoJson Number Portable Values QuerySpec Config Policy Sql JsonText Rows Aggregate AggregateNormal NumericBucket KeysetDecimal SqlAggregate Keyset KeysetBinds PolicyAggregate PolicyKeyset SqlKeyset KeysetRows KeysetCursor.
Local Open Scope string_scope.
Local Open Scope Z_scope.

#[export] Instance holds_decision {Row} (compare : Row -> cursor_key -> comparison) row term : Decision (holds compare row term).
Proof. destruct term as [operator key]. unfold holds. apply _. Defined.

Section Walk.
Context {Row : Type} (project : Row -> raw_row) (table : list Row) (compare : Row -> cursor_key -> comparison).
Context (request : NormalizedKeysetRequest) (caseInsensitiveObjects : bool)
  (catalog : list (result (string * string * keysetSourceColumn * string))) (catalogErr : error).
Context (deadlineMS finalBase moreBase maximum : Z).

(** The rows that the statement of a page selects: the first [limit + 1] of those the condition of its cursor holds for. *)
Definition selected (source : keysetSource) (page : KeysetPage) (row : Row) : Prop :=
  if String.eqb (pg_kind page) "after" then
    match cursor_keys (k_order_by (nk_query request)) (cursor_of page) (kx_keyColumns source) with
    | Some keys => satisfies compare row (cursor_predicate [] keys)
    | None => False
    end
  else True.

#[export] Instance selected_decision source page row : Decision (selected source page row).
Proof. unfold selected, satisfies. destruct (String.eqb _ _); [|apply _]. destruct (cursor_keys _ _ _); apply _. Defined.

Definition answer (source : keysetSource) (page : KeysetPage) : list Row :=
  take (Z.to_nat (k_limit (nk_query request) + 1)) (filter (selected source page) table).

(** One request. *)
Definition served (page : KeysetPage) : result KeysetSelectResult :=
  let current := with_page request page in
  let? source := keyset_source_rows current caseInsensitiveObjects catalog catalogErr in
  let? columns := keysetResultColumns current source in
  let? (statement, args) := compileKeyset current source deadlineMS in
  let? (r, stoppedEarly) := collectKeysetRows (k_limit (nk_query current)) columns source finalBase moreBase maximum
      {| st_rows := map (fun row => Ok (project row)) (answer source page); st_err := nil_error |} nil_error in
  Ok r.

(** The client: all rows of the pages from [page] on, in at most [fuel] requests. *)
Fixpoint walk (fuel : nat) (page : KeysetPage) : result (list raw_row) :=
  match fuel with
  | O => Err (ErrorString "more pages")
  | S fuel' =>
      let? r := served page in
      if kt_hasMore r then let? rest := walk fuel' (after (kt_nextCursor r)) in Ok (kt_rows r ++ rest)%list
      else Ok (kt_rows r)
  end.
End Walk.

(** ** The order of the rows *)

(** How the server compares two rows on a term of the order. *)
Fixpoint rows_after {Row} (compare_rows : Sort -> Row -> Row -> comparison) (orders : list Sort) (y x : Row) : Prop :=
  match orders with
  | [] => False
  | order :: orders' =>
      compare_rows order y x = (if String.eqb (o_direction order) "desc" then Lt else Gt) \/
      compare_rows order y x = Eq /\ rows_after compare_rows orders' y x
  end.

Lemma rows_after_asymmetric {Row} (compare_rows : Sort -> Row -> Row -> comparison) orders (x y : Row) :
  (forall order a b, compare_rows order a b = CompOpp (compare_rows order b a)) ->
  rows_after compare_rows orders y x -> ~ rows_after compare_rows orders x y.
Proof.
  intros Hanti. induction orders as [|o os IH]; [done|]. cbn [rows_after]. rewrite (Hanti o x y).
  intros [H|[H Hos]]; rewrite H; [by destruct (String.eqb _ _); intros [?|[? _]]|].
  intros [H'|[_ H']]; [by destruct (String.eqb _ _)|by apply IH].
Qed.

Lemma rows_after_irreflexive {Row} (compare_rows : Sort -> Row -> Row -> comparison) orders (x : Row) :
  (forall order a b, compare_rows order a b = CompOpp (compare_rows order b a)) -> ~ rows_after compare_rows orders x x.
Proof. intros Hanti H. by eapply rows_after_asymmetric. Qed.

(** After the cursor of a row are the rows after that row. *)
Lemma after_cursor_rows {Row} (compare : Row -> cursor_key -> comparison) (compare_rows : Sort -> Row -> Row -> comparison) raw x y :
  forall orders columns indexes cursor keys,
  cursor_keys orders cursor columns = Some keys -> List.length columns = List.length orders -> List.length indexes = List.length orders ->
  Forall2 (binds_cell raw) (combine columns indexes) cursor ->
  (forall order column index value, In (order, (column, index)) (combine orders (combine columns indexes)) -> binds_cell raw (column, index) value ->
     compare y {| ck_order := order; ck_value := value; ck_column := column |} = compare_rows order y x) ->
  after_cursor compare y keys <-> rows_after compare_rows orders y x.
Proof.
  induction orders as [|o os IH]; intros [|c cs] [|i ix] cursor keys Hk Hc Hi Hb Hcmp; try done; [by injection Hk as <-|].
  cbn [combine] in Hb. apply Forall2_cons_inv_l in Hb as (v & cursor' & Hv & Hb & ->). cbn [cursor_keys] in Hk.
  destruct (cursor_keys os cursor' cs) as [keys'|] eqn:E; [|done]. injection Hk as <-. cbn [after_cursor rows_after ck_order].
  injection Hc as Hc. injection Hi as Hi.
  rewrite (Hcmp o c i v); [|by left|done]. rewrite (IH cs ix cursor' keys' E Hc Hi Hb); [done|].
  intros order column index value Hin. apply Hcmp. by right.
Qed.

Lemma filter_none {A} (P : A -> Prop) `{forall x, Decision (P x)} l : Forall (fun x => ~ P x) l -> filter P l = [].
Proof. induction 1 as [|x l Hx _ IH]; [done|]. by rewrite filter_cons_False. Qed.

Lemma filter_all {A} (P : A -> Prop) `{forall x, Decision (P x)} l : Forall P l -> filter P l = l.
Proof. induction 1 as [|x l Hx _ IH]; [done|]. by rewrite filter_cons_True, IH. Qed.

(** ** The next request compiles *)

Lemma compileKeyset_page request source deadlineMS statement cursor part :
  compileKeyset request source deadlineMS = Ok statement ->
  compileKeysetCursor (with_page request (after cursor)) source = Ok part ->
  exists statement', compileKeyset (with_page request (after cursor)) source deadlineMS = Ok statement'.
Proof.
  intros H Hc. unfold compileKeyset in *. cbn [with_page nk_query]. apply if_err_ok in H as [Hl H]. rewrite Hl.
  apply rbind_ok in H as (markers & Hm & H). rewrite Hm. cbn [rbind]. apply rbind_ok in H as ([conditions args] & Hw & _).
  unfold keyset_where in *. cbn [with_page nk_query nk_page after pg_kind]. apply rbind_ok in Hw as ([cs bs] & Hf & _). rewrite Hf. cbn [rbind].
  change (String.eqb "after" "after") with true. cbn iota. change (nk_query (with_page request (after cursor))) with (nk_query request) in *.
  change (with_page request {| pg_kind := "after"; pg_cursor := Some cursor |}) with (with_page request (after cursor)).
  rewrite Hc. destruct part as [text more]. cbn [rbind]. by eexists.
Qed.

Lemma key_kinds request columns source : source_checked request columns source -> Forall (fun kind => In kind cursor_kinds) (kx_keyKinds source).
Proof.
  intros Hs. pose proof (sd_keys _ _ _ Hs) as Hk. pose proof (sd_kinds _ _ _ Hs) as Hl.
  assert (Hall : Forall (fun key => In key.2 cursor_kinds) (combine (kx_keyColumns source) (kx_keyKinds source))).
  { apply Forall_forall. intros key [i Hi]%list_elem_of_lookup. destruct (Forall2_lookup_r _ _ _ _ _ Hk Hi) as (o & _ & Ho).
    unfold key_column in Ho. destruct (keyset_column columns (o_field o)); [|done]. apply if_err_ok in Ho as [_ Ho]. apply rbind_ok in Ho as (kind & Hkind & [= <-]).
    cbn [snd]. unfold validateKeysetColumnType in Hkind. unfold cursor_kinds.
    repeat match type of Hkind with
           | (if? _ return _ then _) = Ok _ => apply if_err_ok in Hkind as [_ Hkind]
           | rbind _ _ = Ok _ => apply rbind_ok in Hkind as (? & _ & Hkind)
           | (if ?b then _ else _) = Ok _ => destruct b
           | match ?x with Some _ => _ | None => _ end = Ok _ => destruct x; [|done]
           end; try done; injection Hkind as <-; cbn; tauto. }
  clear -Hall Hl. revert Hl Hall. generalize (kx_keyKinds source). induction (kx_keyColumns source) as [|c cs IH]; intros [|k ks] Hl Hall; [constructor| |constructor|].
  - rewrite len_cons in Hl. change (len []) with 0 in Hl. pose proof (len_nonneg ks). lia.
  - apply Forall_cons in Hall as [Hk Hall]. constructor; [done|]. apply IH; [rewrite !len_cons in Hl; lia|done].
Qed.

Lemma cursor_after_unique columns source raw c1 c2 : cursor_after columns source raw = Ok c1 -> materializeKeysetCursor (visible columns raw) source = Ok c2 -> c1 = c2.
Proof. unfold cursor_after. congruence. Qed.

(** ** Every row, once *)

Definition first_page : KeysetPage := {| pg_kind := "first"; pg_cursor := None |}.

Section Complete.
Context {Row : Type} (project : Row -> raw_row) (table : list Row) (compare : Row -> cursor_key -> comparison)
  (compare_rows : Sort -> Row -> Row -> comparison).
Context (sha256 : string -> string) (r : KeysetRequest) (l : keyset_limits) (q w : ValidatedKeyset) (m : IdentifierSemantics).
Context (ci : bool) (catalog : list (result (string * string * keysetSourceColumn * string))) (catalogErr : error)
  (deadlineMS finalBase moreBase maximum : Z) (source : keysetSource) (columns : list ResultColumn) (statement : string * list Bind).
Abbreviation request := (vk_request w).
Abbreviation orders := (k_order_by (nk_query request)).
Abbreviation limit := (k_limit (nk_query request)).
Abbreviation keys := (combine (kx_keyColumns source) (kx_keyIndexes source)).

(** The first request is served up to its rows. *)
Context (Hvalid : ValidateKeyset sha256 r l = Ok q) (Hnormal : NormalizeKeysetIdentifiers sha256 q m = Ok w)
  (Hfirst : nk_page request = first_page)
  (Hsource : keyset_source_rows request ci catalog catalogErr = Ok source)
  (Hcolumns : keysetResultColumns request source = Ok columns)
  (Hstatement : compileKeyset request source deadlineMS = Ok statement)
  (Hbases : finalBase <= maximum /\ 0 <= moreBase).

(** The rows pass the checks of a page, hold documented values, and fit a page of one row with their cursor. *)
Context (Hrows : Forall (fun row => acceptable columns source (project row)) table)
  (Hstored : forall row column index text, In row table -> In (column, index) keys -> cell (visible columns (project row)) index = Some text ->
     stored_value column text)
  (Hfit : Forall (fun row => page_fits limit columns finalBase maximum [project row] /\
     exists cursor, cursor_fits columns source moreBase maximum [] (project row) cursor) table).

(** The server sorts by the terms of the order, in which no two rows are equal, and compares a row with the operand of
    another row's cell as it compares the two rows. *)
Context (Hopp : forall order a b, compare_rows order a b = CompOpp (compare_rows order b a))
  (Hsorted : StronglySorted (fun x y => rows_after compare_rows orders y x) table)
  (Hcompare : forall order column index value x y, In (order, (column, index)) (combine orders keys) ->
     binds_cell (visible columns (project x)) (column, index) value ->
     compare y {| ck_order := order; ck_value := value; ck_column := column |} = compare_rows order y x).

Abbreviation served_page := (served project table compare request ci catalog catalogErr deadlineMS finalBase moreBase maximum).

(** A page whose request is accepted and whose condition leaves the last rows of the table. *)
Definition leaves (page : KeysetPage) (rest : list Row) : Prop :=
  keyset_source_rows (with_page request page) ci catalog catalogErr = Ok source /\
  (exists statement', compileKeyset (with_page request page) source deadlineMS = Ok statement') /\
  filter (selected compare request source page) table = rest /\ exists done, table = (done ++ rest)%list.

Lemma first_leaves : leaves first_page table.
Proof.
  assert (E : with_page request first_page = request) by (rewrite <- Hfirst; by destruct (vk_request w)).
  split; [by rewrite E|]. split; [rewrite E; by exists statement|]. split; [|by exists []].
  apply filter_all, Forall_true. intros row. done.
Qed.

Lemma checked_source : exists catalog', source_checked request catalog' source.
Proof. destruct (keyset_source_rows_inv _ _ _ _ _ Hsource) as (c & _ & H). exists c. by apply keyset_source_of_checked. Qed.

Lemma keys_aligned : List.length (kx_keyColumns source) = List.length orders /\ List.length (kx_keyIndexes source) = List.length orders /\
  len (kx_keyKinds source) = len (kx_keyIndexes source).
Proof.
  destruct checked_source as (catalog' & Hs). pose proof (source_checked_length _ _ _ Hs) as H1. pose proof (sd_kinds _ _ _ Hs) as H2.
  pose proof (Forall2_length _ _ _ (sd_indexes _ _ _ Hs)) as H3. unfold len in *. lia.
Qed.

(** The rows that the cursor of a row leaves. *)
Lemma after_selects x y cursor : Forall2 (binds_cell (visible columns (project x))) keys cursor -> len cursor = len orders ->
  selected compare request source (after cursor) y <-> rows_after compare_rows orders y x.
Proof.
  intros Hb Hl. unfold selected. change (String.eqb (pg_kind (after cursor)) "after") with true. change (cursor_of (after cursor)) with cursor. cbn iota.
  destruct keys_aligned as (H1 & H2 & _).
  destruct (cursor_keys_total orders cursor (kx_keyColumns source) Hl) as (ks & Ek & _); [unfold len; lia|]. rewrite Ek.
  rewrite cursor_predicate_meaning, (after_cursor_rows compare compare_rows _ x y _ _ _ _ _ Ek H1 H2 Hb); [split; [by intros [_ ?]|by split]|].
  intros order column index value Hin Hv. by apply (Hcompare order column index value x y).
Qed.

Lemma after_leaves done x rest cursor : table = (done ++ x :: rest)%list ->
  materializeKeysetCursor (visible columns (project x)) source = Ok cursor -> leaves (after cursor) rest.
Proof.
  intros Et Hcursor. assert (Hin : In x table) by (rewrite Et; apply in_app_iff; right; by left).
  rewrite Forall_forall in Hrows. destruct (Hrows x) as [_ Hrow]; [by apply list_elem_of_In|].
  destruct (row_cursor_continues sha256 r l q m w ci catalog catalogErr source columns _ Hvalid Hnormal Hsource Hcolumns Hrow)
    as (cursor' & Hc & Hpage & Hnext & Hbinds); [by intros; eapply Hstored|].
  rewrite Hcursor in Hc. injection Hc as <-. split; [done|]. destruct (keyset_source_rows_inv _ _ _ _ _ Hnext) as (catalog' & _ & Hof).
  split.
  { destruct (keyset_cursor_compiles _ _ _ Hof Hpage eq_refl) as (? & parts & args & _ & _ & _ & _ & _ & Hpart & _). by eapply compileKeyset_page. }
  assert (Hlen : len cursor = len orders).
  { apply Forall2_length in Hbinds. rewrite length_combine in Hbinds. destruct keys_aligned as (H1 & H2 & _). unfold len. lia. }
  assert (Hsel := fun y => after_selects x y cursor Hbinds Hlen). split; [|exists (done ++ [x])%list; by rewrite <- app_assoc].
  rewrite Et in Hsorted. rewrite Et, filter_app, filter_cons. apply StronglySorted_app in Hsorted as (Hcross & _ & Hright).
  rewrite filter_none, decide_False; cbn [Datatypes.app].
  - apply filter_all. apply StronglySorted_inv in Hright as [_ Hx]. eapply Forall_impl; [exact Hx|]. intros y Hy. by apply Hsel.
  - rewrite Hsel. by apply rows_after_irreflexive.
  - apply Forall_forall. intros y Hy. rewrite Hsel. apply rows_after_asymmetric; [done|]. apply Hcross; [done|by left].
Qed.
Lemma limit_positive : 1 <= limit.
Proof.
  apply ValidateKeyset_iff in Hvalid as [Hok Eq]. apply NormalizeKeysetIdentifiers_iff in Hnormal as (_ & f & _ & _ & _ & _ & Ew).
  rewrite Ew, Eq. cbn. pose proof (kok_limit _ _ _ Hok). lia.
Qed.

Lemma keys_nonempty : kx_keyIndexes source <> [].
Proof.
  destruct keys_aligned as (_ & H & _). intros E. rewrite E in H. apply ValidateKeyset_iff in Hvalid as [Hok Eq].
  apply NormalizeKeysetIdentifiers_iff in Hnormal as (_ & f & _ & _ & _ & _ & Ew). pose proof (kok_order_by _ _ _ Hok) as [Hn _].
  rewrite Ew, Eq in H. cbn in H. rewrite length_map in H. unfold len in Hn. cbn in H. lia.
Qed.

(** A served page holds the remaining rows, or their beginning and a cursor that leaves the others. *)
Lemma served_leaves page rest : leaves page rest ->
  exists res, served_page page = Ok res /\
    ((kt_hasMore res = false /\ kt_rows res = aggregate_encoded columns (map project rest)) \/
     (kt_hasMore res = true /\ exists kept others, rest = (kept ++ others)%list /\ kept <> [] /\
        kt_rows res = aggregate_encoded columns (map project kept) /\ leaves (after (kt_nextCursor res)) others)).
Proof.
  intros (Hsrc & (statement' & Hst) & Hfilter & (before & Et)). unfold served. rewrite Hsrc. cbn [rbind].
  change (keysetResultColumns (with_page request page) source) with (keysetResultColumns request source). rewrite Hcolumns. cbn [rbind].
  rewrite Hst. destruct statement' as [text args]. cbn [rbind]. change (k_limit (nk_query (with_page request page))) with limit.
  unfold answer. rewrite Hfilter. set (n := Z.to_nat (limit + 1)). rewrite <- (map_map project Ok).
  assert (Hrest : Forall (fun row => In row table) rest) by (apply Forall_forall; intros x Hx; rewrite Et; apply in_app_iff; right; by apply list_elem_of_In).
  destruct checked_source as (catalog' & Hs). destruct keys_aligned as (_ & _ & Hk).
  assert (Hacc : Forall (acceptable columns source) (map project (take n rest))).
  { apply Forall_map, Forall_take. eapply Forall_impl; [exact Hrest|]. intros row Hin. rewrite Forall_forall in Hrows. by apply Hrows, list_elem_of_In. }
  pose proof limit_positive as Hl. destruct Hbases as [Hb1 Hb2].
  pose proof (collected_page limit columns source finalBase moreBase maximum (map project (take n rest)) nil_error
    (key_kinds _ _ _ Hs) keys_nonempty Hk Hl Hb2 Hb1 Hacc eq_refl) as Hout.
  inversion Hout as [_ Hfits E|kept last cursor next others Eraws _ Hcursor _ E|next others Eraws Hends E].
  - eexists. split; [reflexivity|]. left. split; [done|]. cbn [final_page kt_rows]. rewrite take_ge; [done|].
    destruct Hfits as [Hlen _]. rewrite len_map in Hlen. unfold len in Hlen. rewrite length_take in Hlen. lia.
  - eexists. split; [reflexivity|]. right. split; [done|]. cbn [continued_page kt_rows kt_nextCursor].
    rewrite app_assoc in Eraws. apply map_eq_app in Eraws as (d & o & Etake & Ed & Eo). apply map_eq_app in Ed as (d' & x' & -> & Ed' & Ex).
    destruct x' as [|x [|]]; try discriminate. injection Ex as Ex. exists (d' ++ [x])%list, (o ++ drop n rest)%list. split_and!.
    + by rewrite app_assoc, <- Etake, take_drop.
    + by destruct d'.
    + rewrite map_app, Ed'. cbn [map]. by rewrite Ex.
    + apply (after_leaves (before ++ d')%list x); [|subst last; apply Hcursor].
      rewrite Et, <- (take_drop n rest) at 1. rewrite Etake, <- !app_assoc. done.
  - exfalso. destruct (take n rest) as [|x xs] eqn:Ex; [done|]. injection Eraws as <- _.
    assert (Hin : In x table) by (rewrite Forall_forall in Hrest; apply Hrest; rewrite <- (take_drop n rest), Ex; by left).
    rewrite Forall_forall in Hfit. destruct (Hfit x) as [H1 (cursor & H2)]; [by apply list_elem_of_In|].
    destruct Hends as [H|[_ H]]; [by apply H|by apply (H cursor)].
Qed.

Lemma walk_leaves fuel : forall page rest, leaves page rest -> (List.length rest < fuel)%nat ->
  walk project table compare request ci catalog catalogErr deadlineMS finalBase moreBase maximum fuel page =
  Ok (aggregate_encoded columns (map project rest)).
Proof.
  induction fuel as [|fuel IH]; intros page rest Hp Hf; [lia|]. cbn [walk].
  destruct (served_leaves page rest Hp) as (res & -> & [[Hm Hr]|(Hm & kept & others & -> & Hne & Hr & Hnext)]); cbn [rbind]; rewrite Hm.
  - by rewrite Hr.
  - rewrite (IH _ others Hnext); [|rewrite length_app in Hf; destruct kept; [done|cbn in Hf; lia]]. cbn [rbind]. rewrite Hr. f_equal.
    unfold aggregate_encoded. by rewrite !map_app.
Qed.
End Complete.

(** C15: Following the cursors reads the whole table. Take an accepted first request and a server that sorts
    the rows of its answer by the terms of the order, no two rows being equal on them, compares a row
    with an operand as with the row whose cell the operand is, and holds in each column only
    what MySQL documents for it. When every row fits a page of its own together with its
    cursor, a client that continues with the cursor of each page receives every row exactly
    once, in order, and is done after at most one request more than there are rows: no page is
    refused, none repeats or skips a row, and none is empty before the end. *)
Theorem walk_reads_table {Row : Type} (project : Row -> raw_row) table compare compare_rows sha256 r l q w m ci catalog catalogErr
    deadlineMS finalBase moreBase maximum source columns statement fuel :
  ValidateKeyset sha256 r l = Ok q -> NormalizeKeysetIdentifiers sha256 q m = Ok w -> nk_page (vk_request w) = first_page ->
  keyset_source_rows (vk_request w) ci catalog catalogErr = Ok source -> keysetResultColumns (vk_request w) source = Ok columns ->
  compileKeyset (vk_request w) source deadlineMS = Ok statement -> finalBase <= maximum /\ 0 <= moreBase ->
  Forall (fun row => acceptable columns source (project row)) table ->
  (forall row column index text, In row table -> In (column, index) (combine (kx_keyColumns source) (kx_keyIndexes source)) ->
     cell (visible columns (project row)) index = Some text -> stored_value column text) ->
  Forall (fun row => page_fits (k_limit (nk_query (vk_request w))) columns finalBase maximum [project row] /\
     exists cursor, cursor_fits columns source moreBase maximum [] (project row) cursor) table ->
  (forall order a b, compare_rows order a b = CompOpp (compare_rows order b a)) ->
  StronglySorted (fun x y => rows_after compare_rows (k_order_by (nk_query (vk_request w))) y x) table ->
  (forall order column index value x y,
     In (order, (column, index)) (combine (k_order_by (nk_query (vk_request w))) (combine (kx_keyColumns source) (kx_keyIndexes source))) ->
     binds_cell (visible columns (project x)) (column, index) value ->
     compare y {| ck_order := order; ck_value := value; ck_column := column |} = compare_rows order y x) ->
  (List.length table < fuel)%nat ->
  walk project table compare (vk_request w) ci catalog catalogErr deadlineMS finalBase moreBase maximum fuel first_page =
  Ok (aggregate_encoded columns (map project table)).
Proof. intros. eapply (walk_leaves project table compare compare_rows); try eassumption. by eapply first_leaves. Qed.

(** ** Three orders on two pages *)

Definition walk_request : KeysetRequest := {|
  kr_kind := "keyset"; kr_profile := kr_profile example_keyset; kr_datasource := kr_datasource example_keyset;
  kr_shape := kr_shape example_keyset; kr_query := kr_query example_keyset; kr_page := first_page |}.

Definition walk_normal : ValidatedKeyset :=
  match NormalizeKeysetIdentifiers srev (keyset_stored walk_request) insensitive with Ok w => w | Err _ => keyset_stored walk_request end.

(** A server that compares the ids as numbers and the times as texts. *)
Definition order_cell (order : Sort) (row : raw_row) : string :=
  default EmptyString (cell row (if String.eqb (o_field order) "id" then 0 else 2)).
Definition compare_texts (order : Sort) (a b : string) : comparison :=
  if String.eqb (o_field order) "id" then Z.compare (default 0 (atoi a)) (default 0 (atoi b)) else String.compare a b.
Definition example_compare_rows (order : Sort) (y x : raw_row) : comparison := compare_texts order (order_cell order y) (order_cell order x).
Definition example_compare (y : raw_row) (key : cursor_key) : comparison :=
  compare_texts (ck_order key) (order_cell (ck_order key) y)
    (match bindKeysetCursor (ck_value key) (ck_column key) with Ok bound => bind_text bound | Err _ => EmptyString end).

Definition example_walk (fuel : nat) (page : KeysetPage) : result (list raw_row) :=
  walk (fun row => row) example_orders example_compare (vk_request walk_normal) true example_catalog nil_error 250 10 12 140 fuel page.

Example walk_by_cursor : example_walk 2 first_page = Ok example_orders /\ is_ok (example_walk 1 first_page) = false.
Proof. vm_compute. split; reflexivity. Qed.

Lemma walk_reads_table_witness : example_walk 4 first_page = Ok (aggregate_encoded example_columns (map (fun row => row) example_orders)).
Proof.
  apply (walk_reads_table (fun row : raw_row => row) example_orders example_compare example_compare_rows srev walk_request example_keyset_limits
    (keyset_stored walk_request) walk_normal insensitive true example_catalog nil_error 250 10 12 140 example_source example_columns
    (match compileKeyset (vk_request walk_normal) example_source 250 with Ok s => s | Err _ => (EmptyString, []) end) 4).
  - vm_compute. reflexivity.
  - vm_compute. reflexivity.
  - vm_compute. reflexivity.
  - vm_compute. reflexivity.
  - vm_compute. reflexivity.
  - vm_compute. reflexivity.
  - lia.
  - repeat constructor; vm_compute; reflexivity.
  - intros row column index text Hrow Hin Hcell. vm_compute in Hin. destruct Hin as [Hin|[Hin|[]]]; injection Hin as <- <-.
    + constructor; (intros ? _ H || intros H); vm_compute in H; discriminate.
    + constructor; [|intros ? _ H; vm_compute in H; discriminate|intros ? _ H; vm_compute in H; discriminate|intros H; vm_compute in H; discriminate].
      intros bits _ Hb. vm_compute in Hb. injection Hb as <-. change (is_unsigned _) with false. cbn iota.
      destruct Hrow as [<-|[<-|[<-|[]]]]; vm_compute in Hcell; injection Hcell as <-; [exists 8|exists 9|exists 7]; (split; [vm_compute; reflexivity|vm_compute; split; [discriminate|reflexivity]]).
  - apply List.Forall_forall. intros row [<-|[<-|[<-|[]]]]; (split; [split; vm_compute; discriminate|]).
    + exists [{| cv_type := "datetime"; cv_value := "2024-01-31 10:00:00" |}; {| cv_type := "integer"; cv_value := "8" |}]. split; vm_compute; [reflexivity|discriminate].
    + exists [{| cv_type := "datetime"; cv_value := "2024-01-31 10:00:00" |}; {| cv_type := "integer"; cv_value := "9" |}]. split; vm_compute; [reflexivity|discriminate].
    + exists [{| cv_type := "datetime"; cv_value := "2024-01-30 23:59:59" |}; {| cv_type := "integer"; cv_value := "7" |}]. split; vm_compute; [reflexivity|discriminate].
  - intros order a b. unfold example_compare_rows, compare_texts. destruct (String.eqb _ _); [apply Z.compare_antisym|apply String.compare_antisym].
  - repeat constructor; vm_compute; tauto.
  - intros order column index value x y Hin (text & bound & Hcell & Hbound & Htext). vm_compute in Hin.
    unfold example_compare, example_compare_rows. cbn [ck_order ck_value ck_column fst snd] in *. rewrite Hbound, Htext.
    destruct Hin as [Hin|[Hin|[]]]; injection Hin as <- <- <-.
    + assert (E : order_cell {| o_representation := EmptyString; o_field := "at"; o_direction := "desc" |} x = text); [|by rewrite E].
      unfold visible in Hcell. change (List.length example_columns) with 3%nat in Hcell.
      destruct x as [|? [|? [|? x]]]; cbn in Hcell; try discriminate. cbn. by rewrite Hcell.
    + assert (E : order_cell {| o_representation := EmptyString; o_field := "id"; o_direction := "asc" |} x = text); [|by rewrite E].
      unfold visible in Hcell. change (List.length example_columns) with 3%nat in Hcell.
      destruct x as [|? x]; cbn in Hcell; [discriminate|]. cbn. by rewrite Hcell.
  - cbn. lia.
Defined.
