(* ===== verification/KeysetContinuation.v ===== *)
(** The bound on the request for the page after a page (internal/adapters/mysql8/keyset.go):
    before a page is read, [keysetContinuationRequestFits] checks that the request which
    continues it will be within the size limit of requests, whatever its cursor. *)
From S2P Require Import Prelude Domain GoJson Number Portable Values QuerySpec Sql Rows Keyset KeysetBinds SqlKeyset KeysetRows KeysetCursor Aggregate AggregateNormal PolicyKeyset.
Local Open Scope string_scope.
Local Open Scope Z_scope.

(** ** The bound *)

Section Bound.
Context (maximum : Z).

(** The closures [add] and [addString]; [None] is [false]. *)
Definition add (value size : Z) : option Z := addEncodedSize size value maximum.
Definition add_len (text : string) : Z -> option Z := add (slen (lit text)).
Definition addString (value : string) (size : Z) : option Z :=
  encoded ← encodedMetadataJSONStringSize value (maximum - size); add encoded size.

(** [f && g && ...], and a range loop that is given whether its index is zero. *)
Fixpoint all_of (steps : list (Z -> option Z)) (size : Z) : option Z :=
  match steps with
  | [] => Some size
  | f :: steps' => size' ← f size; all_of steps' size'
  end.
Fixpoint add_each {A} (item : bool -> A -> Z -> option Z) (first : bool) (l : list A) (size : Z) : option Z :=
  match l with
  | [] => Some size
  | a :: l' => size' ← item first a size; add_each item false l' size'
  end.
Definition when (b : bool) (steps : list (Z -> option Z)) : Z -> option Z := if b then all_of steps else Some.

Definition add_filter_value (first : bool) (value : TypedValue) : Z -> option Z :=
  let length := slen (default EmptyString (tv_value value)) in
  all_of [when (negb first) [add 1]; add_len "{'type':"; addString (tv_type value); add_len ",'value':";
          (fun size => if Z.quot (maximum - size) 6 <? length then None else add (6 * length) size); add 1].

Fixpoint addKeysetFilterRequestBound (filter : Filter) : Z -> option Z :=
  all_of
    [when (nonempty (f_representation filter)) [add_len ",'representation':'source_text'"];
     add_len "{'kind':"; addString (f_kind filter);
     if String.eqb (f_kind filter) "predicate" then
       all_of [add_len ",'field':"; addString (f_field filter); add_len ",'operator':"; addString (f_operator filter);
               add_len ",'values':["; add_each add_filter_value true (values_of filter); add_len "]}"]
     else
       all_of [add_len ",'operator':"; addString (f_operator filter); add_len ",'expressions':[";
               add_each (fun first child => all_of [when (negb first) [add 1]; addKeysetFilterRequestBound child]) true (f_expressions filter);
               add_len "]}"]].

Definition add_projection (first : bool) (projection : Selection) : Z -> option Z :=
  all_of [when (negb first) [add 1]; add_len "{'kind':'field','field':"; addString (s_field projection);
          when (nonempty (s_representation projection)) [add_len ",'representation':'source_text'"];
          when (nonempty (s_alias projection)) [add_len ",'alias':"; addString (s_alias projection)]; add 1].

Definition add_order (first : bool) (order : Sort) : Z -> option Z :=
  all_of [when (nonempty (o_representation order)) [add_len ",'representation':'source_text'"]; when (negb first) [add 1];
          add_len "{'field':"; addString (o_field order); add_len ",'direction':"; addString (o_direction order); add 1].

(** [valueBytes] of a key column, or [false] from its switch. *)
Definition value_bytes (column : keysetSourceColumn) (kind : string) (size : Z) : option Z :=
  if String.eqb kind "string" then
    if is_source_text column then Some (2 + 26)
    else
      match kc_characterMaximumLength column with
      | Some length => if (length <? 0) || (Z.quot (maximum - size) 6 <? length) then None else Some (2 + length * 6)
      | None => None
      end
  else if String.eqb kind "bytes" then
    match kc_characterOctetLength column with
    | Some length => if (length <? 0) || (maximum - size <? length) then None else Some (2 + base64_encoded_len length)
    | None => None
    end
  else if String.eqb kind "date" then Some (2 + slen "0001-01-01")
  else if String.eqb kind "datetime" || String.eqb kind "timestamp" then
    match mysqlKeysetTemporalPrecision column with
    | Err _ => None
    | Ok precision =>
        Some (2 + (slen "0001-01-01 00:00:00" + (if String.eqb kind "timestamp" then 1 else 0) +
                   (if precision =? 0 then 0 else 1 + precision)))
    end
  else Some (20 + 2).

Definition add_cursor_value (first : bool) (key : keysetSourceColumn * string) : Z -> option Z :=
  let '(column, kind) := key in
  all_of [when (negb first) [add 1];
          (fun size => valueBytes ← value_bytes column kind size;
             all_of [add_len "{'type':"; addString kind; add_len ",'value':"; add valueBytes; add 1] size)].

Definition keysetContinuationRequestFits (request : NormalizedKeysetRequest) (source : keysetSource) : bool :=
  let query := nk_query request in
  bool_decide (is_Some (all_of
    [add_len "{'kind':'keyset','profile':"; addString (nk_profile request);
     add_len ",'datasource':"; addString (nk_datasource request);
     add_len ",'shape':"; addString (nk_shape request);
     add_len ",'query':{'source':{'schema':"; addString (r_schema (k_source query));
     add_len ",'name':"; addString (r_name (k_source query));
     add_len "},'projection':["; add_each add_projection true (k_projection query); add 1;
     match k_filter query with Some filter => all_of [add_len ",'filter':"; addKeysetFilterRequestBound filter] | None => Some end;
     add_len ",'order_by':["; add_each add_order true (k_order_by query);
     add_len "],'limit':"; add (slen (itoa (k_limit query)));
     add_len "},'page':{'kind':'after','cursor':[";
     add_each add_cursor_value true (combine (kx_keyColumns source) (kx_keyKinds source));
     add_len "]}}"] 0)).
End Bound.

(** ** The request as JSON text *)

(** An object and an array without white space; a filter value is [render] of its JSON text, for
    which a client may choose any escapes. *)
Definition member (key text : string) : string := marshal_string key +:+ ":" +:+ text.
Definition object (members : list string) : string := "{" +:+ join "," members +:+ "}".
Definition array (items : list string) : string := "[" +:+ join "," items +:+ "]".
Definition optional (key value : string) : list string := if nonempty value then [member key (marshal_string value)] else [].

Section Text.
Context (render : string -> string).

Definition value_text (value : TypedValue) : string :=
  object [member "type" (marshal_string (tv_type value)); member "value" (render (default EmptyString (tv_value value)))].

Fixpoint filter_text (filter : Filter) : string :=
  object (member "kind" (marshal_string (f_kind filter)) :: optional "representation" (f_representation filter) ++
    if String.eqb (f_kind filter) "predicate" then
      [member "field" (marshal_string (f_field filter)); member "operator" (marshal_string (f_operator filter));
       member "values" (array (map value_text (values_of filter)))]
    else
      [member "operator" (marshal_string (f_operator filter)); member "expressions" (array (map filter_text (f_expressions filter)))])%list.

Definition projection_text (s : Selection) : string :=
  object ([member "kind" (marshal_string (s_kind s)); member "field" (marshal_string (s_field s))] ++
          optional "representation" (s_representation s) ++ optional "alias" (s_alias s))%list.

Definition order_text (o : Sort) : string :=
  object ([member "field" (marshal_string (o_field o)); member "direction" (marshal_string (o_direction o))] ++
          optional "representation" (o_representation o))%list.

Definition query_text (query : KeysetSpec) : string :=
  object ([member "source" (object [member "schema" (marshal_string (r_schema (k_source query)));
                                    member "name" (marshal_string (r_name (k_source query)))]);
           member "projection" (array (map projection_text (k_projection query)))] ++
          (if k_filter query is Some filter then [member "filter" (filter_text filter)] else []) ++
          [member "order_by" (array (map order_text (k_order_by query))); member "limit" (itoa (k_limit query))])%list.

(** The request for the page after a cursor. *)
Definition continuation_text (request : NormalizedKeysetRequest) (cursor : list KeysetCursorValue) : string :=
  object [member "kind" (marshal_string "keyset"); member "profile" (marshal_string (nk_profile request));
          member "datasource" (marshal_string (nk_datasource request)); member "shape" (marshal_string (nk_shape request));
          member "query" (query_text (nk_query request));
          member "page" (object [member "kind" (marshal_string "after"); member "cursor" (marshal (cursor_json cursor))])].
End Text.

(** ** What the bound covers *)

(** When [f] succeeds the size has grown by [n] bytes or more. *)
Definition covers (f : Z -> option Z) (n : Z) : Prop := 0 <= n /\ forall size size', 0 <= size -> f size = Some size' -> size + n <= size'.

Lemma covers_weaken f n m : covers f m -> 0 <= n <= m -> covers f n.
Proof. intros [_ Hf] Hn. split; [lia|]. intros size size' Hs E. specialize (Hf size size' Hs E). lia. Qed.

Lemma covers_none : covers Some 0.
Proof. split; [lia|]. intros size size' _ [= <-]. lia. Qed.

Lemma covers_nil : covers (all_of []) 0.
Proof. exact covers_none. Qed.

Lemma covers_cons f fs n m : covers f n -> covers (all_of fs) m -> covers (all_of (f :: fs)) (n + m).
Proof.
  intros [Hn Hf] [Hm Hfs]. split; [lia|]. intros size size' Hs E. cbn [all_of] in E. apply bind_Some in E as (mid & E1 & E2).
  specialize (Hf size mid Hs E1). specialize (Hfs mid size' ltac:(lia) E2). lia.
Qed.

Lemma covers_add maximum v : 0 <= v -> covers (add maximum v) v.
Proof. intros Hv. split; [done|]. intros size size' Hs (_ & _ & -> & _)%addEncodedSize_iff. lia. Qed.

Lemma covers_len maximum text : covers (add_len maximum text) (slen text).
Proof. unfold add_len, lit. rewrite slen_smap. apply covers_add, slen_nonneg. Qed.

Lemma covers_string maximum value : covers (addString maximum value) (slen (marshal_string value)).
Proof.
  split; [apply slen_nonneg|]. intros size size' Hs E. apply bind_Some in E as (n & [-> _]%encodedMetadataJSONStringSize_iff & E).
  by apply (covers_add maximum _ (slen_nonneg _)).
Qed.

Lemma covers_when (b : bool) steps n : covers (all_of steps) n -> covers (when b steps) (if b then n else 0).
Proof. intros H. destruct b; [exact H|apply covers_none]. Qed.

Lemma sum_of_cons {A} (f : A -> Z) a l : sum_of f (a :: l) = f a + sum_of f l.
Proof. done. Qed.

Lemma sum_of_nonneg {A} (f : A -> Z) l : (forall a, 0 <= f a) -> 0 <= sum_of f l.
Proof. intros H. apply sum_nonneg, Forall_forall. intros; apply H. Qed.

Lemma covers_each2 {A B} (R : A -> B -> Prop) (item : bool -> A -> Z -> option Z) (size : B -> Z) l k : (forall b, 0 <= size b) ->
  (forall first a b, R a b -> covers (item first a) (size b + if first : bool then 0 else 1)) ->
  Forall2 R l k -> covers (add_each item true l) (sum_of size k + Z.max 0 (len k - 1)).
Proof.
  intros Hpos Hitem HR.
  assert (H : forall first, covers (add_each item first l) (sum_of size k + if first : bool then Z.max 0 (len k - 1) else len k)).
  { induction HR as [|a b l k Hab HR IH]; intros first.
    - replace (_ + _) with 0 by (by destruct first). apply covers_none.
    - pose proof (covers_cons _ [add_each item false l] _ _ (Hitem first a b Hab) (covers_cons _ _ _ _ (IH false) covers_nil)) as [H0 Hc].
      assert (E : forall s, add_each item first (a :: l) s = all_of [item first a; add_each item false l] s).
      { intros s. cbn. destruct (item first a s) as [s'|]; [|done]. cbn. by destruct (add_each item false l s'). }
      pose proof (sum_of_nonneg size k Hpos). pose proof (Hpos b). pose proof (len_nonneg k).
      rewrite sum_of_cons, len_cons. split; [destruct first; lia|]. intros s s' Hs Es. rewrite E in Es. specialize (Hc s s' Hs Es).
      destruct first; lia. }
  apply (H true).
Qed.

Lemma covers_each {A} (item : bool -> A -> Z -> option Z) (size : A -> Z) l : (forall a, 0 <= size a) ->
  (forall first a, In a l -> covers (item first a) (size a + if first : bool then 0 else 1)) ->
  covers (add_each item true l) (sum_of size l + Z.max 0 (len l - 1)).
Proof.
  intros Hpos Hitem. apply (covers_each2 (fun a b => a = b /\ In a l)); [done|by intros first a b [<- Hin]; auto|].
  apply Forall_Forall2_diag, Forall_forall. intros a Ha%list_elem_of_In. done.
Qed.

(** The same for the items of an array. *)
Lemma array_len {A} (text : A -> string) l : slen (array (map text l)) = 2 + (sum_of (fun a => slen (text a)) l + Z.max 0 (len l - 1)).
Proof. unfold array. rewrite !slen_app, join_len. change (slen "[") with 1. change (slen "]") with 1. lia. Qed.

Lemma covers_array {A} (item : bool -> A -> Z -> option Z) (text : A -> string) l :
  (forall first a, In a l -> covers (item first a) (slen (text a) + if first : bool then 0 else 1)) ->
  covers (add_each item true l) (slen (array (map text l)) - 2).
Proof.
  intros H. rewrite array_len. replace (_ - 2) with (sum_of (fun a => slen (text a)) l + Z.max 0 (len l - 1)) by lia.
  apply covers_each; [intros a; apply slen_nonneg|exact H].
Qed.

(** Lengths of the texts. *)
Lemma member_len key text : slen (member key text) = slen (marshal_string key) + 1 + slen text.
Proof. unfold member. rewrite !slen_app. change (slen ":") with 1. lia. Qed.

Lemma object_len members : slen (object members) = 2 + sum_of slen members + Z.max 0 (len members - 1).
Proof.
  unfold object. rewrite !slen_app. change (slen "{") with 1. change (slen "}") with 1.
  pose proof (join_len (fun x => x) members) as E. rewrite map_id in E. rewrite E.
  change (sum_of (fun x => slen x) members) with (sum_of slen members). lia.
Qed.

Lemma sum_of_app {A} (f : A -> Z) l k : sum_of f (l ++ k) = sum_of f l + sum_of f k.
Proof. induction l as [|a l IH]; [done|]. cbn [app]. rewrite !sum_of_cons, IH. lia. Qed.

(** [{"source_text"}] is the only representation that is written. *)
Lemma optional_representation r : representation_ok r ->
  sum_of slen (optional "representation" r) + len (optional "representation" r) = if nonempty r then 31 else 0.
Proof. intros [->| ->]; reflexivity. Qed.

Lemma optional_len key value : sum_of slen (optional key value) + len (optional key value) =
  if nonempty value then slen (marshal_string key) + 2 + slen (marshal_string value) else 0.
Proof.
  unfold optional. destruct (nonempty value); [|done]. rewrite sum_of_cons, len_cons, member_len. change (sum_of slen []) with 0. change (len (@nil string)) with 0. lia.
Qed.

Create HintDb covers.
#[export] Hint Resolve covers_none covers_nil covers_len covers_string covers_when : covers.
#[export] Hint Extern 1 (covers (add _ _) _) => apply covers_add; lia : covers.

(** The steps of a conjunction one by one; and the lengths of the fixed texts. *)
Ltac closed_lengths := repeat match goal with
  | |- context [slen (String ?c ?s)] => let v := eval vm_compute in (slen (String c s)) in change (slen (String c s)) with v
  | |- context [slen (marshal_string (String ?c ?s))] =>
      let v := eval vm_compute in (slen (marshal_string (String c s))) in change (slen (marshal_string (String c s))) with v
  end.
Ltac cover_steps := repeat first [apply covers_when | apply covers_cons | solve [auto with covers]].
Ltac text_lengths :=
  repeat first [rewrite object_len | rewrite sum_of_app | rewrite sum_of_cons | rewrite len_app | rewrite len_cons | rewrite member_len]; change (sum_of slen []) with 0;
  change (len (@nil string)) with 0; closed_lengths.

Lemma covers_projection maximum first s : keyset_selection_ok s ->
  covers (add_projection maximum first s) (slen (projection_text s) + if first : bool then 0 else 1).
Proof.
  intros (Hr & Hk & _). unfold add_projection. eapply covers_weaken; [cover_steps|].
  unfold projection_text. rewrite Hk. text_lengths.
  pose proof (optional_representation _ Hr). pose proof (optional_len "alias" (s_alias s)) as Ha.
  pose proof (len_nonneg (optional "representation" (s_representation s))). pose proof (len_nonneg (optional "alias" (s_alias s))).
  pose proof (sum_of_nonneg slen (optional "representation" (s_representation s)) slen_nonneg).
  pose proof (sum_of_nonneg slen (optional "alias" (s_alias s)) slen_nonneg). pose proof (slen_nonneg (marshal_string (s_field s))).
  change (slen (marshal_string "alias")) with 7 in Ha.
  destruct first, (nonempty (s_alias s)), (nonempty (s_representation s)); cbn [negb]; lia.
Qed.

Lemma covers_order maximum first o : sort_ok o -> covers (add_order maximum first o) (slen (order_text o) + if first : bool then 0 else 1).
Proof.
  intros (Hr & _ & _). unfold add_order. eapply covers_weaken; [cover_steps|].
  unfold order_text. text_lengths. pose proof (optional_representation _ Hr).
  pose proof (len_nonneg (optional "representation" (o_representation o))). pose proof (sum_of_nonneg slen (optional "representation" (o_representation o)) slen_nonneg).
  pose proof (slen_nonneg (marshal_string (o_field o))). pose proof (slen_nonneg (marshal_string (o_direction o))).
  destruct first, (nonempty (o_representation o)); cbn [negb]; lia.
Qed.

Section Filters.
Context (render : string -> string) (Hrender : forall raw, slen (render raw) <= 6 * slen raw).

Lemma covers_filter_value maximum first v :
  covers (add_filter_value maximum first v) (slen (value_text render v) + if first : bool then 0 else 1).
Proof.
  unfold add_filter_value. cbv zeta. set (raw := default EmptyString (tv_value v)).
  assert (Hraw : covers (fun size => if Z.quot (maximum - size) 6 <? slen raw then None else add maximum (6 * slen raw) size) (6 * slen raw)).
  { pose proof (slen_nonneg raw). split; [lia|]. intros size size' Hs E. destruct (_ <? _); [done|]. by apply (covers_add maximum (6 * slen raw)) in E; [|lia|]. }
  eapply covers_weaken; [cover_steps; [exact Hraw|..]; cover_steps|].
  unfold value_text. fold raw. text_lengths. pose proof (Hrender raw). pose proof (slen_nonneg (render raw)). pose proof (slen_nonneg (marshal_string (tv_type v))).
  destruct first; cbn [negb]; lia.
Qed.

Lemma array_nonneg items : 2 <= slen (array items).
Proof. unfold array. rewrite !slen_app. pose proof (slen_nonneg (join "," items)). change (slen "[") with 1. change (slen "]") with 1. lia. Qed.

Lemma covers_filter maximum f : filter_ok f -> covers (addKeysetFilterRequestBound maximum f) (slen (filter_text render f)).
Proof.
  induction f as [r k field op vs es IH] using Filter_ind'. intros Hok. inversion Hok as [? ? ? values Hr Hf Hl Har Hvs|? ? Hop Hlen Hes]; subst.
  - cbn [addKeysetFilterRequestBound f_representation f_kind f_field f_operator]. change (String.eqb "predicate" "predicate") with true. cbn iota.
    eapply covers_weaken; [cover_steps; [apply (covers_array _ (value_text render)); intros; apply covers_filter_value|..]; cover_steps|].
    cbn [filter_text f_kind f_representation f_field f_operator]. change (String.eqb "predicate" "predicate") with true. cbn iota. text_lengths.
    pose proof (optional_representation _ Hr). pose proof (len_nonneg (optional "representation" r)). pose proof (sum_of_nonneg slen (optional "representation" r) slen_nonneg).
    pose proof (slen_nonneg (marshal_string field)). pose proof (slen_nonneg (marshal_string op)).
    pose proof (array_nonneg (map (value_text render) (values_of (MkFilter r "predicate" field op (Some values) [])))).
    destruct (nonempty r); lia.
  - cbn [addKeysetFilterRequestBound f_representation f_kind f_field f_operator f_expressions]. change (String.eqb "group" "predicate") with false. cbn iota.
    eapply covers_weaken; [cover_steps; [apply (covers_array _ (filter_text render))|..]; cover_steps|].
    { intros first child Hin. eapply covers_weaken; [apply covers_cons; [apply covers_when; cover_steps|apply covers_cons; [|apply covers_nil]]|].
      - rewrite Forall_forall in IH, Hes. apply IH; [by apply list_elem_of_In|]. by apply Hes, list_elem_of_In.
      - pose proof (slen_nonneg (filter_text render child)). destruct first; cbn [negb]; lia. }
    cbn [filter_text f_kind f_representation f_field f_operator f_expressions]. change (String.eqb "group" "predicate") with false. cbn iota. text_lengths.
    change (optional "representation" "") with (@nil string). change (sum_of slen (@nil string)) with 0. change (len (@nil string)) with 0.
    change (nonempty "") with false. cbn iota.
    pose proof (slen_nonneg (marshal_string op)). pose proof (array_nonneg (map (filter_text render) es)). lia.
Qed.
End Filters.

(** ** The values of a cursor *)

Lemma runes_short s : Forall (fun r => rune_encoded_bytes r <= 6) (runes s).
Proof.
  induction s as [s IH] using (induction_ltof1 _ String.length). unfold ltof in IH.
  destruct s as [|c0 r0]; [constructor|]. cbn [runes].
  repeat match goal with |- context [match ?x with _ => _ end] => destruct x eqn:? end; subst;
    (constructor; [|apply IH; cbn; lia]); cbn [rune_encoded_bytes]; cbv zeta; try lia;
    repeat match goal with |- context [if ?b then _ else _] => destruct b end; try lia; rewrite ?slen_cons; change (slen EmptyString) with 0; lia.
Qed.

Lemma marshal_string_short s : slen (marshal_string s) <= 2 + 6 * rune_count s.
Proof.
  rewrite marshal_string_len, escape_len. unfold rune_count. pose proof (runes_short s) as H.
  induction H as [|r l Hr _ IH]; [unfold sum_of, len; cbn; lia|]. rewrite sum_of_cons, len_cons. lia.
Qed.

Lemma marshal_plain s : sforall json_plain s = true -> slen (marshal_string s) = 2 + slen s.
Proof. intros H. by rewrite marshal_string_len, escape_plain_len. Qed.

Lemma digits_plain s : sforall is_digit s = true -> sforall json_plain s = true.
Proof.
  apply sforall_impl. intros c Hc.
  assert (Hall : all_bytes (fun c => implb (is_digit c) (json_plain c)) = true) by (vm_compute; reflexivity).
  pose proof (all_bytes_spec _ Hall c) as H. cbv beta in H. by rewrite Hc in H.
Qed.

Lemma pad2_plain n : sforall json_plain (pad2 n) = true.
Proof. apply digits_plain. unfold pad2. cbn [sforall]. by rewrite !digit_char_digit. Qed.
Lemma pad4_plain n : sforall json_plain (pad4 n) = true.
Proof. apply digits_plain. unfold pad4, pad2. cbn [sforall]. by rewrite !digit_char_digit. Qed.

Lemma format_date_plain t : sforall json_plain (format_date t) = true.
Proof. unfold format_date. rewrite !sforall_app, pad4_plain, !pad2_plain. reflexivity. Qed.
Lemma format_clock_plain t : sforall json_plain (format_clock t) = true.
Proof. unfold format_clock. rewrite !sforall_app, !pad2_plain. reflexivity. Qed.

(** The text of an instant takes the bytes that its precision says, with and without the [T] and the [Z]. *)
Lemma instant_plain value separator utcSuffix t k : json_plain separator = true -> parsePortableDateTime value separator utcSuffix = Some (t, k) ->
  sforall json_plain value = true /\ slen value = 19 + (if k =? 0 then 0 else 1 + k) + (if utcSuffix : bool then 1 else 0).
Proof.
  intros Hp (ds & -> & _ & _ & Hd & -> & _ & _)%parsePortableDateTime_sound. unfold base_text. split.
  - rewrite !sforall_app. cbn [sforall]. rewrite format_date_plain, format_clock_plain, Hp. unfold Portable.fraction_text.
    destruct (String.eqb ds EmptyString); [by destruct utcSuffix|]. cbn [sforall]. rewrite (digits_plain ds Hd). by destruct utcSuffix.
  - rewrite !slen_app, slen_cons. change (slen (format_date t)) with 10. change (slen (format_clock t)) with 8.
    assert (Ez : slen (utc_suffix utcSuffix) = if utcSuffix then 1 else 0) by (by destruct utcSuffix).
    rewrite Ez. unfold Portable.fraction_text. destruct (String.eqb_spec ds EmptyString) as [->|Hne]; [change (slen EmptyString) with 0; change (0 =? 0) with true; destruct utcSuffix; lia|].
    rewrite slen_cons. assert (slen ds <> 0) by (destruct ds; [done|rewrite slen_cons; pose proof (slen_nonneg ds); lia]).
    rewrite (proj2 (Z.eqb_neq _ _)) by done. lia.
Qed.

Lemma integer_cell_plain text : validIntegerCell text = true -> sforall json_plain text = true /\ slen text <= 20.
Proof.
  unfold validIntegerCell. destruct text as [|c rest]; [done|]. destruct (_ || _ || _ || _) eqn:E; [done|].
  rewrite !orb_false_iff, Z.ltb_ge in E. destruct E as [[[_ _] Hl] _]. destruct (_ && _); [done|]. intros Hd. split; [|done].
  destruct (Ascii.eqb_spec c "-") as [->|_]; [|by apply digits_plain]. cbn [sforall]. by rewrite (digits_plain rest Hd).
Qed.

(** What MySQL documents of a printed value: besides the widths of [stored_value], the text of a temporal value is made
    of digits and separators. *)
Record printed_value (column : keysetSourceColumn) (text : string) : Prop := {
  pv_stored : stored_value column text;
  pv_temporal : is_source_text column = true -> sforall (fun c => is_digit c || contains ["-"; ":"; "."; " "] (String c EmptyString)) text = true /\ slen text <= 26;
}.

Lemma temporal_plain text : sforall (fun c => is_digit c || contains ["-"; ":"; "."; " "] (String c EmptyString)) text = true ->
  sforall json_plain text = true.
Proof.
  apply sforall_impl. intros c Hc.
  assert (Hall : all_bytes (fun c => implb (is_digit c || contains ["-"; ":"; "."; " "] (String c EmptyString)) (json_plain c)) = true)
    by (vm_compute; reflexivity).
  pose proof (all_bytes_spec _ Hall c) as H. cbv beta in H. by rewrite Hc in H.
Qed.

(** A value of a key column takes at most the bytes counted for it. *)
Definition bounded (column : keysetSourceColumn) (kind : string) (value : KeysetCursorValue) : Prop :=
  cv_type value = kind /\ forall maximum size n, value_bytes maximum column kind size = Some n -> slen (marshal_string (cv_value value)) <= n.

Lemma cell_bounded column kind text value : validateKeysetColumnType column = Ok kind ->
  validKeysetCell text (if is_source_text column then "string" else portableColumnType (kc_dataType column)) = true ->
  validKeysetSourceTemporalCell text column = true -> printed_value column text ->
  cursor_of_cell kind text = Ok value -> bounded column kind value.
Proof.
  intros Hkind Hcell Htime [Hv Ht] Hc. unfold validateKeysetColumnType in Hkind. destruct (is_source_text column) eqn:Hs.
  - assert (kind = "string") as ->.
    { apply check_ok' in Hkind as [_ Hkind]. destruct (equal_fold _ _); [by injection Hkind|by apply rbind_ok in Hkind as (? & _ & [= <-])]. }
    injection Hc as <-. destruct (Ht eq_refl) as [Hplain%temporal_plain Hl]. split; [done|]. intros maximum size n. unfold value_bytes. rewrite Hs.
    intros [= <-]. cbn [cv_value]. rewrite marshal_plain by done. lia.
  - cbv zeta in Hkind. rewrite portable_normal in Hcell. unfold validKeysetSourceTemporalCell in Htime. rewrite Hs in Htime. cbv zeta in Htime.
    destruct (contains ["TINYINT"; "SMALLINT"; "MEDIUMINT"; "INT"; "INTEGER"; "BIGINT"] (normal_type column)) eqn:E1.
    { injection Hkind as <-. injection Hc as <-. split; [done|]. intros maximum size n [= <-]. cbn [cv_value].
      assert (Hi : validIntegerCell text = true) by (apply contains_In in E1; repeat destruct E1 as [E1|E1]; try done; rewrite <- E1 in Hcell; exact Hcell).
      apply integer_cell_plain in Hi as [Hp Hl]. rewrite marshal_plain by done. lia. }
    destruct (contains ["CHAR"; "VARCHAR"] (normal_type column)) eqn:E2.
    { destruct (kc_characterMaximumLength column) as [length|] eqn:En; [|done]. apply if_err_ok in Hkind as [_ [= <-]].
      injection Hc as <-. split; [done|]. intros maximum size n. unfold value_bytes. rewrite Hs, En. cbn [String.eqb Ascii.eqb Bool.eqb cv_value].
      destruct (_ || _); [done|]. intros [= <-]. pose proof (sv_characters _ _ Hv length Hs En). pose proof (marshal_string_short text). lia. }
    destruct (contains ["BINARY"; "VARBINARY"] (normal_type column)) eqn:E3.
    { destruct (kc_characterOctetLength column) as [length|] eqn:En; [|done]. apply if_err_ok in Hkind as [_ [= <-]].
      injection Hc as <-. split; [done|]. intros maximum size n. unfold value_bytes. rewrite En. cbn [String.eqb Ascii.eqb Bool.eqb cv_value].
      destruct (_ || _); [done|]. intros [= <-]. rewrite marshal_plain, base64_encode_len by apply base64_encode_plain.
      pose proof (sv_octets _ _ Hv length Hs En ltac:(by apply contains_In)). pose proof (slen_nonneg text). unfold base64_encoded_len. div_lia. }
    destruct (String.eqb_spec (normal_type column) "DATE") as [E4|_].
    { injection Hkind as <-. unfold cursor_of_cell, mysqlKeysetCursorText in Hc. cbn [String.eqb Ascii.eqb Bool.eqb] in Hc.
      destruct (ParsePortableDate text) as [t|] eqn:E; [|done]. injection Hc as <-. apply ParsePortableDate_iff in E as [-> _].
      split; [done|]. intros maximum size n [= <-]. cbn [cv_value]. rewrite marshal_plain by apply format_date_plain. done. }
    assert (Hinstant : forall minimum maximum, validSourceInstant text column minimum maximum = true ->
      exists t k, ParsePortableDateTime text = Some (t, k) /\ mysqlKeysetTemporalPrecision column = Ok k).
    { intros lo hi H. unfold validSourceInstant in H. destruct (ParsePortableDateTime text) as [[t k]|]; [|done].
      destruct (mysqlKeysetTemporalPrecision column) as [precision|]; [|done]. apply andb_true_iff in H as [->%Z.eqb_eq _]. by exists t, precision. }
    destruct (String.eqb_spec (normal_type column) "DATETIME") as [E5|_].
    { apply rbind_ok in Hkind as (? & _ & [= <-]). apply Hinstant in Htime as (t & k & Et & Ep).
      unfold cursor_of_cell, mysqlKeysetCursorText in Hc. cbn [String.eqb Ascii.eqb Bool.eqb] in Hc. rewrite Et in Hc. injection Hc as <-.
      split; [done|]. intros maximum size n. unfold value_bytes. cbn [String.eqb Ascii.eqb Bool.eqb orb cv_value]. rewrite Ep. intros [= <-].
      destruct (instant_plain text " " false t k eq_refl Et) as [Hp Hl]. rewrite marshal_plain by done. rewrite Hl. change (slen "0001-01-01 00:00:00") with 19. lia. }
    destruct (String.eqb_spec (normal_type column) "TIMESTAMP") as [E6|_]; [|done].
    apply rbind_ok in Hkind as (? & _ & [= <-]). apply Hinstant in Htime as (t & k & Et & Ep).
    unfold cursor_of_cell, mysqlKeysetCursorText in Hc. cbn [String.eqb Ascii.eqb Bool.eqb] in Hc. rewrite Et in Hc.
    destruct (timestamp_text text t k Et) as [E _]. cbv zeta in Hc. rewrite E in Hc. injection Hc as <-.
    split; [done|]. intros maximum size n. unfold value_bytes. cbn [String.eqb Ascii.eqb Bool.eqb orb cv_value]. rewrite Ep. intros [= <-].
    destruct (instant_plain _ "T" true t k eq_refl E) as [Hp Hl].
    etransitivity; [apply Z.eq_le_incl; exact (eq_trans (marshal_plain _ Hp) (f_equal (Z.add 2) Hl))|]. change (slen "0001-01-01 00:00:00") with 19. lia.
Qed.

(** ** The whole request *)

Lemma covers_cursor_value maximum first column kind value : bounded column kind value ->
  covers (add_cursor_value maximum first (column, kind)) (slen (marshal (cursor_value_json value)) + if first : bool then 0 else 1).
Proof.
  intros [Ht Hb]. rewrite cursor_value_len, Ht. change (frame_size ["type"; "value"]) with 18.
  pose proof (slen_nonneg (marshal_string kind)). pose proof (slen_nonneg (marshal_string (cv_value value))) as Hv.
  assert (Hf : covers (fun size => valueBytes ← value_bytes maximum column kind size;
      all_of [add_len maximum "{'type':"; addString maximum kind; add_len maximum ",'value':"; add maximum valueBytes; add maximum 1] size)
      (18 + slen (marshal_string kind) + slen (marshal_string (cv_value value)))).
  { split; [lia|]. intros size size' Hs E. apply bind_Some in E as (n & En & E). specialize (Hb maximum size n En).
    assert (Hall : covers (all_of [add_len maximum "{'type':"; addString maximum kind; add_len maximum ",'value':"; add maximum n; add maximum 1])
      (8 + (slen (marshal_string kind) + (9 + (n + (1 + 0)))))) by cover_steps.
    destruct Hall as [_ Hall]. specialize (Hall size size' Hs E). lia. }
  unfold add_cursor_value. eapply covers_weaken; [cover_steps; exact Hf|]. destruct first; cbn [negb]; lia.
Qed.

Lemma cursor_json_array cursor : marshal (cursor_json cursor) = array (map (fun v => marshal (cursor_value_json v)) cursor).
Proof. unfold cursor_json, array. cbn [marshal]. by rewrite map_map. Qed.

Definition bounded_key (key : keysetSourceColumn * string) (value : KeysetCursorValue) : Prop := bounded key.1 key.2 value.

Lemma covers_cursor maximum keys cursor : Forall2 bounded_key keys cursor ->
  covers (add_each (add_cursor_value maximum) true keys) (slen (marshal (cursor_json cursor)) - 2).
Proof.
  intros H. rewrite cursor_json_array, array_len.
  replace (_ - 2) with (sum_of (fun v => slen (marshal (cursor_value_json v))) cursor + Z.max 0 (len cursor - 1)) by lia.
  apply (covers_each2 bounded_key); [intros v; apply slen_nonneg| |done]. intros first [column kind] value. apply covers_cursor_value.
Qed.

Lemma continuation_covered (render : string -> string) m request source maximum cursor : (forall raw, slen (render raw) <= 6 * slen raw) ->
  keyset_canonical m request -> Forall2 bounded_key (combine (kx_keyColumns source) (kx_keyKinds source)) cursor ->
  keysetContinuationRequestFits maximum request source = true -> slen (continuation_text render request cursor) <= maximum.
Proof.
  intros Hrender Hc Hcursor Hfits. unfold keysetContinuationRequestFits in Hfits. apply bool_decide_eq_true in Hfits as [size Hsize].
  assert (Hlast : size <= maximum).
  { revert Hsize. cbv zeta. generalize 0. intros start. cbn [all_of]. intros E.
    repeat (apply bind_Some in E as (? & ? & E)). injection E as <-.
    match goal with H : add_len _ _ _ = Some _ |- _ => by apply addEncodedSize_iff in H as (_ & _ & _ & ?) end. }
  etransitivity; [|exact Hlast].
  set (query := nk_query request) in *.
  assert (Hfilter : covers match k_filter query with
      | Some filter => all_of [add_len maximum ",'filter':"; addKeysetFilterRequestBound maximum filter] | None => Some end
    (match k_filter query with Some filter => 10 + (slen (filter_text render filter) + 0) | None => 0 end)).
  { pose proof (kc_filter _ _ Hc) as Hf. fold query in Hf. destruct (k_filter query) as [f|]; [|apply covers_none]. cbn in Hf.
    apply covers_cons; [apply covers_len|]. apply covers_cons; [by apply covers_filter|apply covers_nil]. }
  assert (Hprojection : covers (add_each (add_projection maximum) true (k_projection query)) (slen (array (map projection_text (k_projection query))) - 2)).
  { apply covers_array. intros first s Hs. apply covers_projection. pose proof (kc_selections _ _ Hc) as H. rewrite Forall_forall in H.
    by apply (H s), list_elem_of_In. }
  assert (Horder : covers (add_each (add_order maximum) true (k_order_by query)) (slen (array (map order_text (k_order_by query))) - 2)).
  { apply covers_array. intros first o Ho. apply covers_order. pose proof (kc_keys _ _ Hc) as H. rewrite Forall_forall in H.
    by apply (H o), list_elem_of_In. }
  pose proof (covers_cursor maximum _ _ Hcursor) as Hkeys. pose proof (slen_nonneg (itoa (k_limit query))) as Hlimit.
  eassert (Hall : covers (all_of _) _); [|destruct Hall as [_ Hall]; specialize (Hall 0 size ltac:(lia) Hsize); etransitivity; [|exact Hall]].
  { cover_steps; try exact Hprojection; try exact Hfilter; try exact Horder; try exact Hkeys; try (apply covers_add; lia); cover_steps;
      try exact Hprojection; try exact Hfilter; try exact Horder; try exact Hkeys; cover_steps. }
  unfold continuation_text, query_text. fold query. text_lengths.
  destruct (k_filter query); text_lengths; lia.
Qed.

Lemma aligned_bounded P raw orders columns kinds indexes : aligned P orders columns kinds indexes ->
  (forall o c k x, P o c k x -> exists text, cell raw x = Some text /\ forall value, cursor_of_cell k text = Ok value -> bounded c k value) ->
  forall cursor, results (key_cursor raw) (combine indexes kinds) = Ok cursor -> Forall2 bounded_key (combine columns kinds) cursor.
Proof.
  intros H HP. induction H as [|o c k x os cs ks xs Hp _ IH]; intros cursor E; apply results_iff in E.
  - apply Forall2_nil_inv_l in E as ->. constructor.
  - cbn [combine] in E. apply Forall2_cons_inv_l in E as (value & cursor' & Hv & E & ->). cbn [combine]. constructor; [|by apply IH, results_iff].
    destruct (HP o c k x Hp) as (text & Hcell & Hb). apply Hb. unfold key_cursor in Hv. by rewrite Hcell in Hv.
Qed.

(** C18: A page that is read can be continued. When the check on the continuation of an accepted request
    succeeds, the request for the page after any accepted row of the page, printed as JSON
    without white space, has at most the permitted number of bytes: whatever escapes the client chooses
    for the values of the filter (up to six bytes for one), and for every key value that MySQL
    documents for its column. *)
Theorem continuation_request_fits (render : string -> string) sha256 r l q m w ci rows err source columns raw cursor maximum :
  ValidateKeyset sha256 r l = Ok q -> NormalizeKeysetIdentifiers sha256 q m = Ok w ->
  keyset_source_rows (vk_request w) ci rows err = Ok source -> keysetResultColumns (vk_request w) source = Ok columns ->
  validateKeysetRow raw columns source = Ok tt ->
  (forall column index text, In (column, index) (combine (kx_keyColumns source) (kx_keyIndexes source)) -> cell raw index = Some text ->
     printed_value column text) ->
  (forall text, slen (render text) <= 6 * slen text) ->
  keysetContinuationRequestFits maximum (vk_request w) source = true ->
  materializeKeysetCursor raw source = Ok cursor ->
  slen (continuation_text render (vk_request w) cursor) <= maximum.
Proof.
  intros Hv Hn Hsource Hcols Hrow Hprinted Hrender Hfits Hcursor.
  apply (continuation_covered _ m _ source); try done; [by eapply normalized_keyset_canonical|].
  eapply aligned_bounded; [apply aligned_in; by eapply accepted_aligned| |exact Hcursor].
  intros o c k x [Hp Hin]. destruct (key_cell _ _ _ _ _ _ _ _ Hp (in_combine_r _ _ _ _ Hin) Hcols Hrow) as (text & Htext & H1 & H2).
  exists text. split; [done|]. intros value Hvalue. eapply cell_bounded; [apply Hp|done|done|by eapply Hprinted|done].
Qed.

(** ** Examples *)

(** The request of the page of the orders, which takes 577 bytes at most. *)
Example continuation_bound :
  map (fun maximum => keysetContinuationRequestFits maximum (vk_request (ak_query authorized_page)) example_source) [576; 577] = [false; true].
Proof. vm_compute. reflexivity. Qed.

Example continuation_example :
  continuation_text (fun text => text) (vk_request (ak_query authorized_page))
    [{| cv_type := "timestamp"; cv_value := "2024-01-31T10:00:00Z" |}; {| cv_type := "integer"; cv_value := "9" |}] =
  lit ("{'kind':'keyset','profile':'support','datasource':'main','shape':'orders_by_id'," +:+
       "'query':{'source':{'schema':'shop','name':'orders'}," +:+
       "'projection':[{'kind':'field','field':'id'},{'kind':'field','field':'state'},{'kind':'field','field':'at'}]," +:+
       "'filter':{'kind':'predicate','field':'id','operator':'gt','values':[{'type':'integer','value':10}]}," +:+
       "'order_by':[{'field':'at','direction':'desc'},{'field':'id','direction':'asc'}],'limit':20}," +:+
       "'page':{'kind':'after','cursor':[{'type':'timestamp','value':'2024-01-31T10:00:00Z'},{'type':'integer','value':'9'}]}}").
Proof. vm_compute. reflexivity. Qed.

Lemma continuation_request_fits_witness :
  slen (continuation_text (fun text => text) (vk_request (ak_query authorized_page))
    [{| cv_type := "datetime"; cv_value := "2024-01-31 10:00:00" |}; {| cv_type := "integer"; cv_value := "9" |}]) <= 577.
Proof.
  apply (continuation_request_fits (fun text => text) srev example_keyset example_keyset_limits (keyset_stored example_keyset) insensitive
    (ak_query authorized_page) true example_catalog nil_error example_source example_columns [Some "9"; None; Some "2024-01-31 10:00:00"]).
  - exact keyset_validates.
  - vm_compute. reflexivity.
  - vm_compute. reflexivity.
  - vm_compute. reflexivity.
  - vm_compute. reflexivity.
  - intros column index text Hin Hcell. vm_compute in Hin. destruct Hin as [Hin|[Hin|[]]]; injection Hin as <- <-; vm_compute in Hcell; injection Hcell as <-.
    + constructor; [constructor|].
      * intros bits _ Hb. vm_compute in Hb. discriminate.
      * intros maximum _ H. vm_compute in H. discriminate.
      * intros maximum _ H. vm_compute in H. discriminate.
      * intros H. vm_compute in H. discriminate.
      * intros H. vm_compute in H. discriminate.
    + constructor; [constructor|].
      * intros bits _ Hb. vm_compute in Hb. injection Hb as <-. exists 9. split; [vm_compute; reflexivity|]. vm_compute. split; [discriminate|reflexivity].
      * intros maximum _ H. vm_compute in H. discriminate.
      * intros maximum _ H. vm_compute in H. discriminate.
      * intros H. vm_compute in H. discriminate.
      * intros H. vm_compute in H. discriminate.
  - intros text. pose proof (slen_nonneg text). lia.
  - vm_compute. reflexivity.
  - vm_compute. reflexivity.
Defined.
