(* ===== verification/PublicShapes.v ===== *)
(** The public description of reviewed shapes (internal/policy/query_shapes.go and
    keyset_discovery.go): the shapes that list_query_shapes publishes, the exact
    size of their JSON counted before it is built, and the canonical text whose
    digest identifies the set. *)
From S2P Require Import Prelude Domain GoJson Number Portable Values QuerySpec Config Policy Sql Rows Aggregate AggregateNormal NumericBucket SqlAggregate PolicyAggregate PolicyKeyset.
Local Open Scope string_scope.
Local Open Scope Z_scope.

(** ** Structs as documents

    [struct_json] is what [json.Marshal] is given of a struct: its fields in
    declaration order, each with whether it is printed (a field tagged
    [omitempty] is not printed when it is empty). *)
Abbreviation field_of := (bool * string * json)%type.
Definition text_field (k v : string) : field_of := (true, k, JStr v).
Definition omit_text (k v : string) : field_of := (nonempty v, k, JStr v).

Definition printed (fields : list field_of) : list (string * json) :=
  map (fun f => (f.1.2, f.2)) (List.filter (fun f => f.1.1) fields).
Definition struct_json (fields : list field_of) : json := JObj (printed fields).

Definition resource_json (r : ResourceRef) : json :=
  struct_json [text_field "schema" (r_schema r); text_field "name" (r_name r)].

(** ** The public shapes *)

Record publicAggregateOutput := {
  po_boundaries : list string; po_representation : string; po_kind : string; po_field : string;
  po_function : string; po_alias : string; po_unit : string; po_timezone : string;
}.

Record publicAggregateOrder := {
  pr_representation : string; pr_kind : string; pr_field : string; pr_alias : string; pr_direction : string;
}.

Inductive publicAggregateFilter : Type := MkPublicFilter {
  pl_representation : string; pl_kind : string; pl_field : string; pl_operator : string;
  pl_value_types : list string; pl_expressions : list publicAggregateFilter;
}.

(** [ps_order_by] is [None] for a nil slice. *)
Record publicAggregateShapeSpec := {
  ps_mode : string; ps_source : ResourceRef; ps_projection : list publicAggregateOutput;
  ps_filter : option publicAggregateFilter; ps_order_by : option (list publicAggregateOrder); ps_maximum_limit : Z;
}.

Record publicAggregateQueryShape := {
  pa_name : string; pa_description : option string; pa_operation : string; pa_query : publicAggregateShapeSpec;
}.

Record publicKeysetShapeSpec := {
  pq_source : ResourceRef; pq_projection : list Selection; pq_filter : option publicAggregateFilter;
  pq_order_by : list Sort; pq_maximum_limit : Z;
}.

Record publicKeysetQueryShape := {
  pk_name : string; pk_description : option string; pk_operation : string; pk_query : publicKeysetShapeSpec;
}.

Record publicQueryShape := {
  pu_aggregate : option publicAggregateQueryShape; pu_keyset : option publicKeysetQueryShape;
}.

Section PublicFilterInd.
Context (P : publicAggregateFilter -> Prop).
Context (H : forall r k f o vs es, Forall P es -> P (MkPublicFilter r k f o vs es)).

Fixpoint public_filter_ind' (f : publicAggregateFilter) : P f :=
  match f with
  | MkPublicFilter r k fl o vs es =>
      H r k fl o vs es ((fix go l := match l return Forall P l with
                         | [] => Forall_nil_2 P
                         | x :: l' => Forall_cons_2 P x l' (public_filter_ind' x) (go l')
                         end) es)
  end.
End PublicFilterInd.

(** *** What [json.Marshal] prints of them *)

Definition output_json (o : publicAggregateOutput) : json := struct_json [
  (negb (len (po_boundaries o) =? 0), "boundaries", JArr (map JStr (po_boundaries o)));
  omit_text "representation" (po_representation o); text_field "kind" (po_kind o); omit_text "field" (po_field o);
  omit_text "function" (po_function o); omit_text "alias" (po_alias o); omit_text "unit" (po_unit o);
  omit_text "timezone" (po_timezone o)].

Definition public_order_json (o : publicAggregateOrder) : json := struct_json [
  omit_text "representation" (pr_representation o); text_field "kind" (pr_kind o); omit_text "field" (pr_field o);
  omit_text "alias" (pr_alias o); text_field "direction" (pr_direction o)].

Definition selection_json (s : Selection) : json := struct_json [
  omit_text "representation" (s_representation s); text_field "kind" (s_kind s); omit_text "field" (s_field s);
  omit_text "function" (s_function s); omit_text "alias" (s_alias s)].

Definition sort_json (s : Sort) : json := struct_json [
  omit_text "representation" (o_representation s); text_field "field" (o_field s);
  text_field "direction" (o_direction s)].

(** [publicAggregateFilter.MarshalJSON]; a shape's filter has value types, so
    that their slice is not nil. *)
Fixpoint public_filter_json (f : publicAggregateFilter) : result json :=
  if String.eqb (pl_kind f) "predicate" then
    Ok (struct_json [omit_text "representation" (pl_representation f); text_field "kind" (pl_kind f);
      text_field "field" (pl_field f); text_field "operator" (pl_operator f);
      (true, "value_types", JArr (map JStr (pl_value_types f)))])
  else if String.eqb (pl_kind f) "group" then
    let? expressions := results public_filter_json (pl_expressions f) in
    Ok (struct_json [text_field "kind" (pl_kind f); text_field "operator" (pl_operator f);
      (true, "expressions", JArr expressions)])
  else Err (ErrorString "unknown public aggregate filter kind").

(** A pointer that is [omitempty]. *)
Definition optional_json {A} (f : A -> result json) (o : option A) : result (bool * json) :=
  match o with
  | None => Ok (false, JNull)
  | Some a => let? j := f a in Ok (true, j)
  end.

Definition description_field (description : option string) : field_of :=
  match description with None => (false, "description", JNull) | Some d => text_field "description" d end.

Definition aggregate_spec_json (s : publicAggregateShapeSpec) : result json :=
  let? filter := optional_json public_filter_json (ps_filter s) in
  let order_by := default [] (ps_order_by s) in
  Ok (struct_json [text_field "mode" (ps_mode s); (true, "source", resource_json (ps_source s));
    (true, "projection", JArr (map output_json (ps_projection s)));
    (filter.1, "filter", filter.2); (negb (len order_by =? 0), "order_by", JArr (map public_order_json order_by));
    (negb (ps_maximum_limit s =? 0), "maximum_limit", JInt (ps_maximum_limit s))]).

Definition keyset_spec_json (s : publicKeysetShapeSpec) : result json :=
  let? filter := optional_json public_filter_json (pq_filter s) in
  Ok (struct_json [(true, "source", resource_json (pq_source s));
    (true, "projection", JArr (map selection_json (pq_projection s)));
    (filter.1, "filter", filter.2); (true, "order_by", JArr (map sort_json (pq_order_by s)));
    (true, "maximum_limit", JInt (pq_maximum_limit s))]).

Definition aggregate_shape_json (s : publicAggregateQueryShape) : result json :=
  let? query := aggregate_spec_json (pa_query s) in
  Ok (struct_json [text_field "name" (pa_name s); description_field (pa_description s);
    text_field "operation" (pa_operation s); (true, "query", query)]).

Definition keyset_shape_json (s : publicKeysetQueryShape) : result json :=
  let? query := keyset_spec_json (pk_query s) in
  Ok (struct_json [text_field "name" (pk_name s); description_field (pk_description s);
    text_field "operation" (pk_operation s); (true, "query", query)]).

(** [publicQueryShape.MarshalJSON] *)
Definition query_shape_json (s : publicQueryShape) : result json :=
  match pu_aggregate s, pu_keyset s with
  | Some aggregate, None => aggregate_shape_json aggregate
  | None, Some keyset => keyset_shape_json keyset
  | _, _ => Err (ErrorString "invalid public query-shape union")
  end.

(** ** Building the public shapes *)

Fixpoint publicFilterSignature (caseInsensitiveFields : bool) (filter : publicAggregateFilter) : aggregateShapeFilter :=
  MkSignature (pl_representation filter) (pl_kind filter)
    (canonicalPolicyIdentifier (pl_field filter) caseInsensitiveFields) (pl_operator filter)
    (pl_value_types filter) (map (publicFilterSignature caseInsensitiveFields) (pl_expressions filter)).

Section Shapes.
Context (sha256 : string -> string).

Fixpoint buildPublicAggregateFilter (caseInsensitiveFields : bool) (filter : ShapeFilter)
  : result (publicAggregateFilter * string) :=
  match configuredAggregateShapeFilter sha256 caseInsensitiveFields filter with
  | None => Err (ErrorString "invalid aggregate filter shape")
  | Some canonical =>
      if String.eqb (sf_kind filter) "predicate" then
        match sf_value_types filter with
        | None => Err (ErrorString "missing filter value types")
        | Some valueTypes =>
            Ok (MkPublicFilter (sf_representation filter) (sf_kind filter) (sf_field filter) (sf_operator filter) valueTypes [],
                aggregateShapeFilterKey sha256 canonical)
        end
      else
        let? children := results (buildPublicAggregateFilter caseInsensitiveFields) (sf_expressions filter) in
        let sorted := sort_func (fun a b => bytes_le a.2 b.2) children in
        if? adjacent_equal (map snd sorted) return ErrorString "duplicate aggregate filter shapes" then
        let result := MkPublicFilter (sf_representation filter) (sf_kind filter) (sf_field filter) (sf_operator filter) []
                        (map fst sorted) in
        let canonicalResult := MkSignature EmptyString (pl_kind result) EmptyString (pl_operator result) []
                                 (map (publicFilterSignature caseInsensitiveFields) (pl_expressions result)) in
        Ok (result, aggregateShapeFilterKey sha256 canonicalResult)
  end.

(** The filter of a shape, when it has one. *)
Definition public_filter (caseInsensitiveFields : bool) (filter : option ShapeFilter) : result (option publicAggregateFilter) :=
  match filter with
  | None => Ok None
  | Some f => let? built := buildPublicAggregateFilter caseInsensitiveFields f in Ok (Some built.1)
  end.

Definition bucket_or_measure (kind : string) : bool :=
  String.eqb kind "measure" || String.eqb kind "time_bucket" || String.eqb kind "numeric_bucket".

Definition output_name (output : AggregateShapeOutput) : string :=
  if bucket_or_measure (so_kind output) then so_alias output else so_field output.

Definition public_output (output : AggregateShapeOutput) : publicAggregateOutput := {|
  po_boundaries := so_boundaries output; po_representation := so_representation output; po_kind := so_kind output;
  po_field := so_field output; po_function := so_function output; po_alias := so_alias output;
  po_unit := so_unit output; po_timezone := so_timezone output |}.

(** One turn of the loop over the outputs: [seen] is [outputNames]. *)
Definition output_step (output : AggregateShapeOutput) (seen : list string) : result (list string) :=
  let name := output_name output in
  let canonicalName := canonicalPolicyIdentifier name true in
  if? negb (IsIdentifier name) return ErrorString "invalid aggregate output name" then
  if? contains seen canonicalName return ErrorString "colliding aggregate output names" then
  Ok (canonicalName :: seen).

Definition public_order (order : AggregateShapeOrder) : publicAggregateOrder := {|
  pr_representation := sd_representation order; pr_kind := sd_kind order; pr_field := sd_field order;
  pr_alias := sd_alias order; pr_direction := sd_direction order |}.

Definition buildPublicAggregateQueryShape (shape : AggregateShape) (semantics : IdentifierSemantics)
  : result publicAggregateQueryShape :=
  if? negb (IsIdentifier (sh_name shape)) || negb (IsIdentifier (r_schema (sh_source shape))) ||
      negb (IsIdentifier (r_name (sh_source shape)))
  return ErrorString "invalid public identifiers" then
  let scalar := String.eqb (sh_mode shape) AggregateModeScalar in
  if? negb scalar && (negb (String.eqb (sh_mode shape) AggregateModeGrouped) || (sh_maximum_limit shape <=? 0))
  return ErrorString "invalid aggregate mode or maximum limit" then
  let? _ := iter (fun _ => output_step) (sh_projection shape) [] in
  let? filter := public_filter (CaseInsensitiveFields semantics) (sh_filter shape) in
  Ok {| pa_name := sh_name shape; pa_description := sh_public_description shape; pa_operation := OperationAggregate;
        pa_query := {|
          ps_mode := sh_mode shape; ps_source := sh_source shape; ps_projection := map public_output (sh_projection shape);
          ps_filter := filter; ps_order_by := if scalar then None else map public_order <$> sh_order_by shape;
          ps_maximum_limit := if scalar then 0 else sh_maximum_limit shape |} |}.

Definition public_keyset (shape : KeysetSelectShape) (semantics : IdentifierSemantics) : result publicKeysetQueryShape :=
  if? negb (IsIdentifier (ks_name shape)) || negb (IsIdentifier (r_schema (ks_source shape))) ||
      negb (IsIdentifier (r_name (ks_source shape))) || (ks_maximum_limit shape <? 1)
  return ErrorString "keyset shape has invalid public members" then
  let? filter := public_filter (CaseInsensitiveFields semantics) (ks_filter shape) in
  Ok {| pk_name := ks_name shape; pk_description := ks_public_description shape; pk_operation := OperationSelectKeyset;
        pk_query := {|
          pq_source := ks_source shape;
          pq_projection := map (fun o => {| s_representation := kp_representation o; s_kind := kp_kind o;
            s_field := kp_field o; s_function := EmptyString; s_alias := kp_alias o |}) (ks_projection shape);
          pq_filter := filter;
          pq_order_by := map (fun o => {| o_representation := ko_representation o; o_field := ko_field o;
            o_direction := ko_direction o |}) (ks_order_by shape);
          pq_maximum_limit := ks_maximum_limit shape |} |}.

Definition buildPublicKeysetQueryShapes (configured : list KeysetSelectShape) (semantics : IdentifierSemantics)
  : result (list publicKeysetQueryShape) :=
  results (fun shape => public_keyset shape semantics)
    (sort_func (fun a b => bytes_le (ks_name a) (ks_name b)) configured).
End Shapes.

(** ** Sizes *)

Record boundedSize := { bs_value : Z; bs_maximum : Z; bs_ok : bool }.

Definition newBoundedSize (maximum : Z) : boundedSize :=
  {| bs_value := 0; bs_maximum := maximum; bs_ok := 0 <=? maximum |}.

Definition add (value : Z) (s : boundedSize) : boundedSize :=
  if negb (bs_ok s) || (value <? 0) || (bs_maximum s <? bs_value s) || (bs_maximum s - bs_value s <? value)
  then {| bs_value := bs_value s; bs_maximum := bs_maximum s; bs_ok := false |}
  else {| bs_value := bs_value s + value; bs_maximum := bs_maximum s; bs_ok := bs_ok s |}.

Definition encodedJSONStringSize (value : string) : Z := fold_left (fun size r => size + rune_encoded_bytes r) (runes value) 2.

Definition add_string (value : string) : boundedSize -> boundedSize := add (encodedJSONStringSize value).
Definition add_text (literal : string) : boundedSize -> boundedSize := add (slen (lit literal)).

(** [size |> step]: the next statement on the pointer [size]; [when] is an [if]
    without an [else], and [add_each] the loop that adds a comma between items. *)
Notation "size |> step" := (step size) (at level 50, left associativity, only parsing).
Definition when (b : bool) (steps : boundedSize -> boundedSize) (size : boundedSize) : boundedSize :=
  if b then steps size else size.
Definition add_each_from {A} (item : A -> boundedSize -> boundedSize) : Z -> list A -> boundedSize -> boundedSize :=
  fix go index l size :=
    match l with
    | [] => size
    | x :: l' => go (index + 1) l' (size |> when (negb (index =? 0)) (add 1) |> item x)
    end.
Definition add_each {A} (item : A -> boundedSize -> boundedSize) (l : list A) : boundedSize -> boundedSize :=
  add_each_from item 0 l.

Definition add_member (k v : string) (size : boundedSize) : boundedSize := size |> add_text k |> add_string v.
Definition add_optional (k v : string) : boundedSize -> boundedSize := when (nonempty v) (add_member k v).
Definition add_representation (representation : string) : boundedSize -> boundedSize :=
  when (nonempty representation) (add_text ",'representation':'source_text'").

Definition add_boundaries (boundaries : list string) : boundedSize -> boundedSize :=
  when (negb (len boundaries =? 0))
    (fun size => size |> add_text ",'boundaries':[" |> add_each add_string boundaries |> add 1).

Definition queryShapeOutputEncodedSize (output : publicAggregateOutput) (size : boundedSize) : boundedSize :=
  size |> add_boundaries (po_boundaries output)
       |> add_representation (po_representation output)
       |> add_member "{'kind':" (po_kind output)
       |> add_optional ",'field':" (po_field output)
       |> add_optional ",'function':" (po_function output)
       |> add_optional ",'alias':" (po_alias output)
       |> add_optional ",'unit':" (po_unit output)
       |> add_optional ",'timezone':" (po_timezone output)
       |> add 1.

Definition queryShapeOrderEncodedSize (order : publicAggregateOrder) (size : boundedSize) : boundedSize :=
  size |> add_representation (pr_representation order)
       |> add_member "{'kind':" (pr_kind order)
       |> add_optional ",'field':" (pr_field order)
       |> add_optional ",'alias':" (pr_alias order)
       |> add_member ",'direction':" (pr_direction order)
       |> add 1.

Fixpoint queryShapeFilterEncodedSize (filter : publicAggregateFilter) (size : boundedSize) : boundedSize :=
  let size := size |> add_representation (pl_representation filter) |> add_member "{'kind':" (pl_kind filter) in
  if String.eqb (pl_kind filter) "predicate" then
    size |> add_member ",'field':" (pl_field filter)
         |> add_member ",'operator':" (pl_operator filter)
         |> add_text ",'value_types':["
         |> add_each add_string (pl_value_types filter)
         |> add_text "]}"
  else
    size |> add_member ",'operator':" (pl_operator filter)
         |> add_text ",'expressions':["
         |> add_each queryShapeFilterEncodedSize (pl_expressions filter)
         |> add_text "]}".

Definition add_filter (filter : option publicAggregateFilter) (size : boundedSize) : boundedSize :=
  match filter with
  | None => size
  | Some f => size |> add_text ",'filter':" |> queryShapeFilterEncodedSize f
  end.

Definition add_order_by (order_by : option (list publicAggregateOrder)) (size : boundedSize) : boundedSize :=
  match order_by with
  | None => size
  | Some orders => size |> add_text ",'order_by':[" |> add_each queryShapeOrderEncodedSize orders |> add 1
  end.

Definition add_maximum_limit (limit : Z) : boundedSize -> boundedSize :=
  when (negb (limit =? 0)) (fun size => size |> add_text ",'maximum_limit':" |> add (slen (itoa limit))).

Definition queryShapeSpecEncodedSize (spec : publicAggregateShapeSpec) (size : boundedSize) : boundedSize :=
  size |> add_member "{'mode':" (ps_mode spec)
       |> add_member ",'source':{'schema':" (r_schema (ps_source spec))
       |> add_member ",'name':" (r_name (ps_source spec))
       |> add_text "},'projection':["
       |> add_each queryShapeOutputEncodedSize (ps_projection spec)
       |> add 1
       |> add_filter (ps_filter spec)
       |> add_order_by (ps_order_by spec)
       |> add_maximum_limit (ps_maximum_limit spec)
       |> add 1.

Definition add_description (description : option string) (size : boundedSize) : boundedSize :=
  match description with None => size | Some d => size |> add_member ",'description':" d end.

Definition queryShapeEncodedSize (shape : publicAggregateQueryShape) (size : boundedSize) : boundedSize :=
  size |> add_member "{'name':" (pa_name shape)
       |> add_description (pa_description shape)
       |> add_member ",'operation':" (pa_operation shape)
       |> add_text ",'query':"
       |> queryShapeSpecEncodedSize (pa_query shape)
       |> add 1.

Definition keyset_projection_size (projection : Selection) (size : boundedSize) : boundedSize :=
  size |> add_member "{'kind':" (s_kind projection)
       |> add_member ",'field':" (s_field projection)
       |> add_representation (s_representation projection)
       |> add_optional ",'alias':" (s_alias projection)
       |> add 1.

Definition keyset_order_size (order : Sort) (size : boundedSize) : boundedSize :=
  size |> add_member "{'field':" (o_field order)
       |> add_member ",'direction':" (o_direction order)
       |> add_representation (o_representation order)
       |> add 1.

Definition keysetQueryShapeEncodedSize (shape : publicKeysetQueryShape) (size : boundedSize) : boundedSize :=
  size |> add_member "{'name':" (pk_name shape)
       |> add_description (pk_description shape)
       |> add_member ",'operation':" (pk_operation shape)
       |> add_member ",'query':{'source':{'schema':" (r_schema (pq_source (pk_query shape)))
       |> add_member ",'name':" (r_name (pq_source (pk_query shape)))
       |> add_text "},'projection':["
       |> add_each keyset_projection_size (pq_projection (pk_query shape))
       |> add 1
       |> add_filter (pq_filter (pk_query shape))
       |> add_text ",'order_by':["
       |> add_each keyset_order_size (pq_order_by (pk_query shape))
       |> add_text "],'maximum_limit':"
       |> add (slen (itoa (pq_maximum_limit (pk_query shape))))
       |> add_text "}}".

Definition add_shape (shape : publicQueryShape) (size : boundedSize) : boundedSize :=
  match pu_aggregate shape, pu_keyset shape with
  | Some aggregate, None => queryShapeEncodedSize aggregate size
  | None, Some keyset => keysetQueryShapeEncodedSize keyset size
  | _, _ => {| bs_value := bs_value size; bs_maximum := bs_maximum size; bs_ok := false |}
  end.

Definition queryShapeArraySize (shapes : list publicQueryShape) (maximum : Z) : Z * bool :=
  let size := newBoundedSize maximum |> add 1 |> add_each add_shape shapes |> add 1 in (bs_value size, bs_ok size).

(** ** The canonical text

    The writers append to a digest; here they give the text that they append. A
    text that is not UTF-8 is an error. *)
Fixpoint jcs_escape (s : string) : string :=
  match s with
  | EmptyString => EmptyString
  | String c s' =>
      if (byte c =? 34) || (byte c =? 92) then String backslash (String c (jcs_escape s')) else String c (jcs_escape s')
  end.

Definition writeJCSString (value : string) : result string :=
  if? negb (valid_utf8 value) return ErrorString "invalid UTF-8 string" then Ok (dquote +:+ jcs_escape value +:+ dquote).

(** The members of an object, in the order they are written, each with whether
    it is there: [separator] is empty until a member has been written. *)
Abbreviation piece_of := (bool * string * result string)%type.

Fixpoint write_members (separator : string) (pieces : list piece_of) : result string :=
  match pieces with
  | [] => Ok EmptyString
  | (present, key, value) :: pieces' =>
      if present then
        let? text := value in
        let? rest := write_members "," pieces' in
        Ok (separator +:+ dquote +:+ key +:+ dquote +:+ ":" +:+ text +:+ rest)
      else write_members separator pieces'
  end.

Definition write_object (pieces : list piece_of) : result string :=
  let? members := write_members EmptyString pieces in Ok ("{" +:+ members +:+ "}").

Definition write_array {A} (item : A -> result string) (l : list A) : result string :=
  let? items := results item l in Ok ("[" +:+ join "," items +:+ "]").

Definition write_literal (value : string) : result string := Ok (dquote +:+ value +:+ dquote).
Definition write_text (key value : string) : piece_of := (true, key, writeJCSString value).
Definition write_optional (key value : string) : piece_of := (nonempty value, key, writeJCSString value).

Definition write_source (source : ResourceRef) : result string :=
  write_object [write_text "name" (r_name source); write_text "schema" (r_schema source)].

Definition writeJCSOutput (output : publicAggregateOutput) : result string := write_object [
  write_optional "alias" (po_alias output);
  (negb (len (po_boundaries output) =? 0), "boundaries", write_array writeJCSString (po_boundaries output));
  write_optional "field" (po_field output); write_optional "function" (po_function output);
  write_text "kind" (po_kind output); write_optional "representation" (po_representation output);
  write_optional "timezone" (po_timezone output); write_optional "unit" (po_unit output)].

Definition writeJCSOrder (order : publicAggregateOrder) : result string := write_object [
  write_optional "alias" (pr_alias order); write_text "direction" (pr_direction order);
  write_optional "field" (pr_field order); write_text "kind" (pr_kind order);
  write_optional "representation" (pr_representation order)].

Fixpoint writeJCSFilter (filter : publicAggregateFilter) : result string :=
  if String.eqb (pl_kind filter) "predicate" then
    write_object [write_text "field" (pl_field filter); (true, "kind", write_literal "predicate");
      write_text "operator" (pl_operator filter); write_optional "representation" (pl_representation filter);
      (true, "value_types", write_array writeJCSString (pl_value_types filter))]
  else
    write_object [(true, "expressions", write_array writeJCSFilter (pl_expressions filter));
      (true, "kind", write_literal "group"); write_text "operator" (pl_operator filter)].

Definition write_filter (filter : option publicAggregateFilter) : piece_of :=
  match filter with
  | None => (false, "filter", Ok EmptyString)
  | Some f => (true, "filter", writeJCSFilter f)
  end.

Definition writeJCSQuery (spec : publicAggregateShapeSpec) : result string := write_object [
  write_filter (ps_filter spec);
  (negb (ps_maximum_limit spec =? 0), "maximum_limit", Ok (itoa (ps_maximum_limit spec)));
  write_text "mode" (ps_mode spec);
  match ps_order_by spec with
  | None => (false, "order_by", Ok EmptyString)
  | Some orders => (true, "order_by", write_array writeJCSOrder orders)
  end;
  (true, "projection", write_array writeJCSOutput (ps_projection spec));
  (true, "source", write_source (ps_source spec))].

Definition write_description (description : option string) : piece_of :=
  match description with None => (false, "description", Ok EmptyString) | Some d => write_text "description" d end.

Definition writeJCSShape (shape : publicAggregateQueryShape) : result string := write_object [
  write_description (pa_description shape); write_text "name" (pa_name shape);
  (true, "operation", write_literal "aggregate"); (true, "query", writeJCSQuery (pa_query shape))].

Definition write_keyset_order (order : Sort) : result string := write_object [
  write_text "direction" (o_direction order); write_text "field" (o_field order);
  write_optional "representation" (o_representation order)].

Definition write_keyset_projection (projection : Selection) : result string := write_object [
  write_optional "alias" (s_alias projection); write_text "field" (s_field projection);
  (true, "kind", write_literal "field"); write_optional "representation" (s_representation projection)].

Definition writeJCSKeysetQuery (spec : publicKeysetShapeSpec) : result string := write_object [
  write_filter (pq_filter spec); (true, "maximum_limit", Ok (itoa (pq_maximum_limit spec)));
  (true, "order_by", write_array write_keyset_order (pq_order_by spec));
  (true, "projection", write_array write_keyset_projection (pq_projection spec));
  (true, "source", write_source (pq_source spec))].

Definition writeJCSKeysetShape (shape : publicKeysetQueryShape) : result string := write_object [
  write_description (pk_description shape); write_text "name" (pk_name shape);
  (true, "operation", write_literal "select_keyset"); (true, "query", writeJCSKeysetQuery (pk_query shape))].

Definition write_shape (shape : publicQueryShape) : result string :=
  match pu_aggregate shape, pu_keyset shape with
  | Some aggregate, None => writeJCSShape aggregate
  | None, Some keyset => writeJCSKeysetShape keyset
  | _, _ => Err (ErrorString "canonicalize invalid query-shape union")
  end.

Definition queryShapeHashDomain : string := "quordon/query-shapes" +:+ nul.

(** ** The published document *)

Section Document.
Context (sha256 : string -> string).

Definition publicQueryShapeSetHash (shapes : list publicQueryShape) : result string :=
  let? texts := write_array write_shape shapes in
  Ok (hex_text (sha256 (queryShapeHashDomain +:+ texts))).

Definition publicQueryShapeName (shape : publicQueryShape) : string :=
  match pu_aggregate shape, pu_keyset shape with
  | Some aggregate, _ => pa_name aggregate
  | None, Some keyset => pk_name keyset
  | None, None => EmptyString
  end.

Definition too_large : goerr := ErrorString "query-shape response exceeds max_result_bytes or is empty".

Definition public_shapes (aggregates : list publicAggregateQueryShape) (keysets : list publicKeysetQueryShape)
  : list publicQueryShape :=
  sort_func (fun a b => bytes_le (publicQueryShapeName a) (publicQueryShapeName b))
    (map (fun shape => {| pu_aggregate := Some shape; pu_keyset := None |}) aggregates ++
     map (fun shape => {| pu_aggregate := None; pu_keyset := Some shape |}) keysets).

Definition encodeQueryShapeDocument (aggregates : list publicAggregateQueryShape) (keysets : list publicKeysetQueryShape)
    (maximum : Z) : result (string * string) :=
  let shapes := public_shapes aggregates keysets in
  let '(encodedSize, ok) := queryShapeArraySize shapes maximum in
  if? negb ok || (len shapes =? 0) return too_large then
  let? documents := results query_shape_json shapes in
  let payload := marshal (JArr documents) in
  if? negb (slen payload =? encodedSize) return ErrorString "public query-shape size invariant failed" then
  let? shapeSetHash := publicQueryShapeSetHash shapes in
  Ok (payload, shapeSetHash).
End Document.

Definition appendQueryShapeJSONString (destination value : string) : string := destination +:+ marshal_string value.

Definition envelope_size (profileName policyVersion datasource adapter : string) (shapesPayloadBytes maximum : Z) : boundedSize :=
  newBoundedSize maximum
    |> add_member "{'policy_profile':" profileName |> add_member ",'policy_version':" policyVersion
    |> add_member ",'datasource':" datasource |> add_member ",'adapter':" adapter
    |> add_text ",'shapes':" |> add shapesPayloadBytes |> add 1.

Definition encodeQueryShapeEnvelope (profileName policyVersion datasource adapter : string)
    (shapesPayloadBytes maximum : Z) : result (string * Z) :=
  let size := envelope_size profileName policyVersion datasource adapter shapesPayloadBytes maximum in
  if? negb (bs_ok size) || (shapesPayloadBytes <? 0) return too_large then
  let prefixSize := bs_value size - shapesPayloadBytes - 1 in
  let prefix := appendQueryShapeJSONString (lit "{'policy_profile':") profileName in
  let prefix := appendQueryShapeJSONString (prefix +:+ lit ",'policy_version':") policyVersion in
  let prefix := appendQueryShapeJSONString (prefix +:+ lit ",'datasource':") datasource in
  let prefix := appendQueryShapeJSONString (prefix +:+ lit ",'adapter':") adapter in
  let prefix := prefix +:+ lit ",'shapes':" in
  if? negb (slen prefix =? prefixSize) return ErrorString "public query-shape envelope size invariant failed" then
  Ok (prefix, bs_value size).

Definition encodeQueryShapeResponse (sha256 : string -> string) (profileName policyVersion datasource adapter : string)
    (aggregates : list publicAggregateQueryShape) (keysets : list publicKeysetQueryShape) (maximum : Z)
  : result (string * string) :=
  let? (shapesPayload, shapeSetHash) := encodeQueryShapeDocument sha256 aggregates keysets maximum in
  let? (prefix, resultBytes) :=
    encodeQueryShapeEnvelope profileName policyVersion datasource adapter (slen shapesPayload) maximum in
  let payload := prefix +:+ shapesPayload +:+ "}" in
  if? negb (slen payload =? resultBytes) return ErrorString "public query-shape size invariant failed" then
  Ok (payload, shapeSetHash).
