(* ===== verification/ShapeSizes.v ===== *)
(** The counting pass over the public shapes is exact (internal/policy/query_shapes.go
    and keyset_discovery.go): what it counts is the length of the JSON that is then built. *)
From S2P Require Import Prelude Domain GoJson Number Portable Values QuerySpec Config Policy Sql Rows Aggregate AggregateNormal NumericBucket SqlAggregate PolicyAggregate PolicyKeyset PublicShapes.
Local Open Scope string_scope.
Local Open Scope Z_scope.

(** ** The counting pass is exact

    [grew s n s']: counting from [s] to [s'] adds [n] bytes, or finds that they
    do not fit. *)
Definition counted (s : boundedSize) : option Z := if bs_ok s then Some (bs_value s) else None.
Definition sound (s : boundedSize) : Prop := bs_ok s = true -> 0 <= bs_value s <= bs_maximum s.
Definition grew (s : boundedSize) (n : Z) (s' : boundedSize) : Prop :=
  sound s' /\ bs_maximum s' = bs_maximum s /\ 0 <= n /\
  counted s' = (v ← counted s; if v + n <=? bs_maximum s then Some (v + n) else None).

Lemma grew_refl s : sound s -> grew s 0 s.
Proof.
  intros H. split_and!; try done. unfold sound, counted in *. destruct (bs_ok s); [|done]. simpl.
  rewrite Z.add_0_r. by destruct (Z.leb_spec (bs_value s) (bs_maximum s)); [|lia].
Qed.

Lemma grew_add s n v s' : 0 <= v -> grew s n s' -> grew s (n + v) (add v s').
Proof.
  intros Hv (Hs & Hm & Hn & Hc). unfold add, grew, sound, counted in *. rewrite Hm in *.
  assert ((v <? 0) = false) as -> by lia.
  destruct (bs_ok s') eqn:Ho', (bs_ok s) eqn:Ho; cbn in *; try done; try (split_and!; [done|done|lia|done]).
  - destruct (bs_value s + n <=? bs_maximum s) eqn:E; simplify_eq. rewrite Hc in *. specialize (Hs eq_refl).
    replace (bs_maximum s <? bs_value s + n) with false by lia. cbn.
    destruct (Z.ltb_spec (bs_maximum s - (bs_value s + n)) v); cbn.
    + split_and!; [done|done|lia|]. by destruct (Z.leb_spec (bs_value s + (n + v)) (bs_maximum s)); [lia|].
    + split_and!; [lia|done|lia|]. rewrite Z.add_assoc. by destruct (Z.leb_spec (bs_value s + n + v) (bs_maximum s)); [|lia].
  - split_and!; [done|done|lia|]. destruct (bs_value s + n <=? bs_maximum s) eqn:E; [done|].
    by destruct (Z.leb_spec (bs_value s + (n + v)) (bs_maximum s)); [lia|].
Qed.

Lemma encodedJSONStringSize_len value : encodedJSONStringSize value = slen (marshal_string value).
Proof.
  rewrite marshal_string_len, escape_len. unfold encodedJSONStringSize.
  enough (forall l n, fold_left (fun size r => size + rune_encoded_bytes r) l n = n + sum_of rune_encoded_bytes l) as -> by done.
  induction l as [|r l IH]; intros n; [cbn; lia|]. cbn [fold_left].
  rewrite IH. change (sum_of rune_encoded_bytes (r :: l)) with (rune_encoded_bytes r + sum_of rune_encoded_bytes l). lia.
Qed.

Lemma grew_trans s n s' m s'' : grew s n s' -> grew s' m s'' -> grew s (n + m) s''.
Proof.
  intros (Hs & Hm & Hn & Hc) (Hs' & Hm' & Hn' & Hc'). split_and!; [done|by rewrite Hm', Hm|lia|].
  rewrite Hc', Hc, Hm. destruct (counted s) as [v|]; [|done]. cbn.
  destruct (Z.leb_spec (v + n) (bs_maximum s)); cbn; [by rewrite Z.add_assoc|].
  by destruct (Z.leb_spec (v + (n + m)) (bs_maximum s)); [lia|].
Qed.

Lemma grew_when s n s' (b : bool) steps m : (b = true -> sound s' -> grew s' m (steps s')) -> grew s n s' ->
  grew s (n + if b then m else 0) (when b steps s').
Proof.
  intros H Hs. destruct b; [|by rewrite Z.add_0_r]. eapply grew_trans; [exact Hs|]. apply H; [done|apply Hs].
Qed.

Lemma grew_text s n s' t : grew s n s' -> grew s (n + slen (lit t)) (add_text t s').
Proof. apply grew_add, slen_nonneg. Qed.

Lemma grew_string s n s' v : grew s n s' -> grew s (n + slen (marshal (JStr v))) (add_string v s').
Proof. unfold add_string. rewrite encodedJSONStringSize_len. apply grew_add, slen_nonneg. Qed.

Lemma grew_member s n s' k v : grew s n s' -> grew s (n + (slen (lit k) + slen (marshal (JStr v)))) (add_member k v s').
Proof. intros H. rewrite Z.add_assoc. by apply grew_string, grew_text. Qed.

Lemma grew_optional s n s' k v : grew s n s' ->
  grew s (n + if nonempty v then slen (lit k) + slen (marshal (JStr v)) else 0) (add_optional k v s').
Proof. intros H. apply grew_when; [|done]. intros _ Hs. by apply (grew_member s' 0), grew_refl. Qed.

(** The representations that a shape may have. *)
Definition known_representation (r : string) : Prop := r = EmptyString \/ r = "source_text".

Lemma grew_representation s n s' r : known_representation r -> grew s n s' ->
  grew s (n + if nonempty r then 1 + slen (marshal (JStr "representation")) + 1 + slen (marshal (JStr r)) else 0) (add_representation r s').
Proof. intros [->| ->] H; [by apply grew_when|]. by apply (grew_text s n s' ",'representation':'source_text'"). Qed.

Lemma grew_each {A} (item : A -> boundedSize -> boundedSize) (text : A -> string) l :
  Forall (fun x => forall s n s', grew s n s' -> grew s (n + slen (text x)) (item x s')) l ->
  forall s n s', grew s n s' -> grew s (n + slen (join "," (map text l))) (add_each item l s').
Proof.
  intros Hl. unfold add_each.
  assert (Hrest : forall l, Forall (fun x => forall s n s', grew s n s' -> grew s (n + slen (text x)) (item x s')) l ->
    forall i s n s', 0 < i -> grew s n s' -> grew s (n + slen (join_tail text l)) (add_each_from item i l s')).
  { clear. induction 1 as [|x l Hx Hl IH]; intros i s n s' Hi H; cbn [add_each_from join_tail].
    - change (slen EmptyString) with 0. by rewrite Z.add_0_r.
    - rewrite !slen_app. change (slen ",") with 1. rewrite !Z.add_assoc. apply IH; [lia|]. apply Hx.
      destruct (Z.eqb_spec i 0); [lia|]. cbn. by apply grew_add. }
  destruct Hl as [|x l Hx Hl]; intros s n s' H; [cbn [map join]; change (slen EmptyString) with 0; by rewrite Z.add_0_r|].
  rewrite join_cons, slen_app, Z.add_assoc. cbn [add_each_from]. apply Hrest; [done|lia|]. by apply Hx.
Qed.

(** *** The length of a struct's text *)

Definition field_bytes (f : field_of) : Z :=
  if f.1.1 then slen (marshal (JStr f.1.2)) + 2 + slen (marshal f.2) else 0.

Lemma sum_printed fields : sum_of field_bytes (List.filter (fun f => f.1.1) fields) = sum_of field_bytes fields.
Proof.
  unfold sum_of. induction fields as [|f fields IH]; [done|]. cbn [List.filter foldr].
  destruct f.1.1 eqn:E; cbn [foldr]; rewrite IH; [done|]. unfold field_bytes at 2. rewrite E. lia.
Qed.

Lemma struct_len fields : existsb (fun f => f.1.1) fields = true ->
  slen (marshal (struct_json fields)) = 1 + sum_of field_bytes fields.
Proof.
  unfold struct_json, printed. rewrite <- (sum_printed fields). cbn [marshal]. rewrite !slen_app. change (slen "{") with 1. change (slen "}") with 1.
  set (enc := fun '(k, v) => _). intros H.
  assert (exists f l, List.filter (fun f : field_of => f.1.1) fields = f :: l) as (f & l & E).
  { apply existsb_exists in H. setoid_rewrite <- (filter_In (fun f : field_of => f.1.1)) in H. destruct H as (f & Hf).
    destruct (List.filter (fun f : field_of => f.1.1) fields) as [|g l]; [done|]. by exists g, l. }
  assert (Hall : Forall (fun f : field_of => f.1.1 = true) (f :: l)).
  { rewrite <- E. apply Forall_forall. intros g Hg. by apply list_elem_of_In, filter_In in Hg as [_ Hg]. }
  rewrite E. clear H E. revert f Hall. induction l as [|g l IH]; intros f [Hf Hl]%Forall_cons.
  - unfold field_bytes. cbn. rewrite Hf, !slen_app. change (slen ":") with 1. lia.
  - specialize (IH g Hl).
    change (join "," (map enc (map (fun f : field_of => (f.1.2, f.2)) (f :: g :: l)))) with
      ((marshal_string f.1.2 +:+ ":" +:+ marshal f.2) +:+ "," +:+ join "," (map enc (map (fun f : field_of => (f.1.2, f.2)) (g :: l)))).
    rewrite !slen_app. change (slen ",") with 1. change (slen ":") with 1.
    change (sum_of field_bytes (f :: g :: l)) with (field_bytes f + sum_of field_bytes (g :: l)).
    unfold field_bytes at 1. rewrite Hf. cbn [marshal]. lia.
Qed.

(** Lengths of literals are computed; the length of a list of items is kept. *)
Ltac closed_lengths :=
  repeat match goal with
  | |- context [slen (lit ?t)] => let v := eval vm_compute in (slen (lit t)) in change (slen (lit t)) with v
  | |- context [slen (marshal (JStr (String ?c ?t)))] =>
      let v := eval vm_compute in (slen (marshal (JStr (String c t)))) in change (slen (marshal (JStr (String c t)))) with v
  end.

Lemma json_array_len l : slen (marshal (JArr l)) = 2 + slen (join "," (map marshal l)).
Proof. cbn [marshal]. rewrite !slen_app. change (slen "[") with 1. change (slen "]") with 1. lia. Qed.

Lemma grew_eq s n m s' : grew s n s' -> n = m -> grew s m s'.
Proof. by intros H <-. Qed.

(** The two sides count the same bytes: the steps of the counting pass, and the
    text of the struct. *)
Ltac same_bytes :=
  repeat (rewrite struct_len by (cbn; by rewrite ?orb_true_r); unfold field_bytes, sum_of, text_field, omit_text; cbn [foldr fst snd]);
  rewrite ?json_array_len, ?map_map; closed_lengths;
  repeat match goal with |- context [marshal (JInt ?z)] => change (marshal (JInt z)) with (itoa z) end;
  repeat match goal with |- context [if ?b then _ else _] => destruct b end; lia.

Lemma grew_output s n s' o : known_representation (po_representation o) -> grew s n s' ->
  grew s (n + slen (marshal (output_json o))) (queryShapeOutputEncodedSize o s').
Proof.
  intros Hr H. unfold queryShapeOutputEncodedSize, add_boundaries. eapply grew_eq.
  - apply grew_add; [done|]. do 5 apply grew_optional. apply grew_member, grew_representation; [done|].
    apply grew_when; [|exact H]. intros _ Hs. apply grew_add; [done|].
    apply (grew_each add_string (fun b => marshal (JStr b))), grew_text, grew_refl; [|exact Hs].
    apply Forall_forall. intros b _ t k t' Ht. by apply grew_string.
  - unfold output_json. same_bytes.
Qed.

Lemma grew_order s n s' o : known_representation (pr_representation o) -> grew s n s' ->
  grew s (n + slen (marshal (public_order_json o))) (queryShapeOrderEncodedSize o s').
Proof.
  intros Hr H. unfold queryShapeOrderEncodedSize. eapply grew_eq.
  - apply grew_add; [done|]. apply grew_member. do 2 apply grew_optional. by apply grew_member, grew_representation.
  - unfold public_order_json. same_bytes.
Qed.

Lemma grew_keyset_order s n s' o : known_representation (o_representation o) -> grew s n s' ->
  grew s (n + slen (marshal (sort_json o))) (keyset_order_size o s').
Proof.
  intros Hr H. unfold keyset_order_size. eapply grew_eq.
  - apply grew_add; [done|]. apply grew_representation; [done|]. by do 2 apply grew_member.
  - unfold sort_json. same_bytes.
Qed.

(** A selection of a keyset shape names a field and no function. *)
Definition keyset_selection (p : Selection) : Prop :=
  known_representation (s_representation p) /\ s_kind p = "field" /\ nonempty (s_field p) = true /\ s_function p = EmptyString.

Lemma grew_projection s n s' p : keyset_selection p -> grew s n s' ->
  grew s (n + slen (marshal (selection_json p))) (keyset_projection_size p s').
Proof.
  intros (Hr & Hk & Hf & He) H. unfold keyset_projection_size. eapply grew_eq.
  - apply grew_add; [done|]. apply grew_optional, grew_representation; [done|]. by do 2 apply grew_member.
  - unfold selection_json, omit_text. rewrite He, Hf. change (nonempty EmptyString) with false. same_bytes.
Qed.

(** A filter that the encoder prints, with representations that are known. *)
Inductive printable : publicAggregateFilter -> Prop :=
| printable_predicate f : pl_kind f = "predicate" -> known_representation (pl_representation f) -> printable f
| printable_group f : pl_kind f = "group" -> pl_representation f = EmptyString -> Forall printable (pl_expressions f) -> printable f.

Definition text_of {A} (f : A -> result json) (a : A) : string :=
  match f a with Ok j => marshal j | Err _ => EmptyString end.

(** [counts f item]: [item] counts the text of the document [f a]. *)
Definition counts {A} (f : A -> result json) (item : A -> boundedSize -> boundedSize) (a : A) : Prop :=
  exists j, f a = Ok j /\ forall s n s', grew s n s' -> grew s (n + slen (marshal j)) (item a s').

Lemma counts_each {A} (f : A -> result json) item l : Forall (counts f item) l ->
  exists js, results f l = Ok js /\
    forall s n s', grew s n s' -> grew s (n + slen (join "," (map marshal js))) (add_each item l s').
Proof.
  intros H. assert (exists js, results f l = Ok js /\ map marshal js = map (text_of f) l) as (js & Hjs & Ht).
  { induction H as [|a l (j & Hj & _) Hl IH]; [by exists []|]. destruct IH as (js & Hjs & Ht).
    exists (j :: js). cbn. unfold text_of at 1. by rewrite Hj, Hjs, Ht. }
  exists js. split; [done|]. rewrite Ht. apply grew_each. eapply Forall_impl; [exact H|].
  intros a (j & Hj & Hg). unfold text_of. by rewrite Hj.
Qed.

Lemma grew_filter f : printable f -> counts public_filter_json queryShapeFilterEncodedSize f.
Proof.
  induction f as [r k fl o vs es IH] using public_filter_ind'. intros Hf. inversion Hf as [? Hk Hr|? Hk Hr Hes]; subst; cbn in Hk, Hr; subst k.
  - eexists. split; [reflexivity|]. intros s n s' H. cbn [queryShapeFilterEncodedSize pl_kind]. eapply grew_eq.
    + apply grew_text, (grew_each add_string (fun b => marshal (JStr b))), grew_text.
      { apply Forall_forall. intros b _ t k t' Ht. by apply grew_string. }
      do 2 apply grew_member. by apply grew_member, grew_representation.
    + cbn [pl_representation pl_kind pl_field pl_operator pl_value_types]. same_bytes.
  - subst r. cbn in Hes. destruct (counts_each public_filter_json queryShapeFilterEncodedSize es) as (js & Hjs & Hg).
    { rewrite Forall_forall in *. auto. }
    eexists. cbn. rewrite Hjs. split; [reflexivity|]. intros s n s' H. cbn [queryShapeFilterEncodedSize pl_kind pl_representation].
    eapply grew_eq.
    + apply grew_text, Hg, grew_text. do 2 apply grew_member. exact H.
    + cbn [pl_operator]. same_bytes.
Qed.

(** What the encoder assumes of a public shape. *)
Definition filter_printable (f : option publicAggregateFilter) : Prop := from_option printable True f.

Record aggregate_printable (s : publicAggregateQueryShape) : Prop := {
  ap_outputs : Forall (fun o => known_representation (po_representation o)) (ps_projection (pa_query s));
  ap_filter : filter_printable (ps_filter (pa_query s));
  ap_orders : from_option (fun l => l <> [] /\ Forall (fun o => known_representation (pr_representation o)) l) True (ps_order_by (pa_query s));
  ap_operation : pa_operation s = OperationAggregate;
}.

Record keyset_printable (s : publicKeysetQueryShape) : Prop := {
  kp_outputs : Forall keyset_selection (pq_projection (pk_query s));
  kp_filter : filter_printable (pq_filter (pk_query s));
  kp_orders : Forall (fun o => known_representation (o_representation o)) (pq_order_by (pk_query s));
  kp_operation : pk_operation s = OperationSelectKeyset;
}.

Lemma grew_optional_filter f : filter_printable f -> exists b j, optional_json public_filter_json f = Ok (b, j) /\
  forall s n s', grew s n s' -> grew s (n + if b then 10 + slen (marshal j) else 0) (add_filter f s').
Proof.
  destruct f as [f|]; [|by exists false, JNull; split; [|intros; rewrite Z.add_0_r]].
  intros (j & Hj & Hg)%grew_filter. exists true, j. cbn. rewrite Hj. split; [done|]. intros s n s' H. rewrite Z.add_assoc. by apply Hg, (grew_text s n s' ",'filter':").
Qed.

Lemma grew_description s n s' d : grew s n s' -> grew s (n + field_bytes (description_field d)) (add_description d s').
Proof.
  intros H. destruct d as [d|]; [|by rewrite Z.add_0_r]. eapply grew_eq; [by apply grew_member|]. unfold field_bytes. cbn [description_field text_field fst snd]. closed_lengths. lia.
Qed.

Lemma grew_order_by o s n s' : from_option (fun l => l <> [] /\ Forall (fun o => known_representation (pr_representation o)) l) True o -> grew s n s' ->
  grew s (n + field_bytes (negb (len (default [] o) =? 0), "order_by", JArr (map public_order_json (default [] o)))) (add_order_by o s').
Proof.
  destruct o as [l|]; [|intros _ H; by rewrite Z.add_0_r]. cbn. intros [Hne Hl] H. eapply grew_eq.
  - apply grew_add; [done|]. apply (grew_each queryShapeOrderEncodedSize (fun o => marshal (public_order_json o))), grew_text; [|exact H].
    eapply Forall_impl; [exact Hl|]. intros o Ho t k t'. by apply grew_order.
  - unfold field_bytes. destruct (len l =? 0) eqn:E; [by apply len_zero in E|]. cbn [negb fst snd]. rewrite json_array_len, map_map. closed_lengths. lia.
Qed.

Lemma grew_aggregate s : aggregate_printable s -> counts aggregate_shape_json queryShapeEncodedSize s.
Proof.
  intros [Ho Hf Hord Hop]. destruct (grew_optional_filter _ Hf) as (b & j & Hj & Hg).
  unfold counts, aggregate_shape_json, aggregate_spec_json. rewrite Hj. cbn. eexists. split; [reflexivity|]. intros t n t' H.
  unfold queryShapeEncodedSize, queryShapeSpecEncodedSize, add_maximum_limit. eapply grew_eq.
  - apply grew_add; [done|]. apply grew_add; [done|].
    apply grew_when; [intros _ Hs; apply grew_add; [apply slen_nonneg|apply grew_text, grew_refl, Hs]|].
    apply grew_order_by; [done|]. apply Hg. apply grew_add; [done|].
    apply (grew_each queryShapeOutputEncodedSize (fun o => marshal (output_json o))).
    { eapply Forall_impl; [exact Ho|]. intros o Hr u k u'. by apply grew_output. }
    apply grew_text. do 3 apply grew_member. apply grew_text, grew_member, grew_description. by apply grew_member.
  - unfold resource_json. same_bytes.
Qed.

Lemma grew_keyset s : keyset_printable s -> counts keyset_shape_json keysetQueryShapeEncodedSize s.
Proof.
  intros [Ho Hf Hord Hop]. destruct (grew_optional_filter _ Hf) as (b & j & Hj & Hg).
  unfold counts, keyset_shape_json, keyset_spec_json. rewrite Hj. cbn. eexists. split; [reflexivity|]. intros t n t' H.
  unfold keysetQueryShapeEncodedSize. eapply grew_eq.
  - apply grew_text, grew_add; [apply slen_nonneg|]. apply grew_text.
    apply (grew_each keyset_order_size (fun o => marshal (sort_json o))).
    { eapply Forall_impl; [exact Hord|]. intros o Hr u k u'. by apply grew_keyset_order. }
    apply grew_text, Hg. apply grew_add; [done|].
    apply (grew_each keyset_projection_size (fun o => marshal (selection_json o))).
    { eapply Forall_impl; [exact Ho|]. intros o Hr u k u'. by apply grew_projection. }
    apply grew_text. do 3 apply grew_member. apply grew_description. by apply grew_member.
  - unfold resource_json. same_bytes.
Qed.

Lemma counted_new maximum : counted (newBoundedSize maximum) = if 0 <=? maximum then Some 0 else None.
Proof. done. Qed.
