(* ===== verification/ShapeDocument.v ===== *)
(** The published document of the public shapes (internal/policy/query_shapes.go and
    keyset_discovery.go): the canonical form of its JSON, whose digest identifies the
    set, and the exact bytes of the document and of its envelope. *)
From stdpp Require Import sorting.
From S2P Require Import Prelude Domain GoJson Number Portable Values QuerySpec Config Policy Sql Rows Aggregate AggregateNormal NumericBucket SqlAggregate PolicyAggregate PolicyKeyset PublicShapes ShapeSizes.
Local Open Scope string_scope.
Local Open Scope Z_scope.

(** ** The canonical form of a document

    The JSON Canonicalization Scheme (RFC 8785) of a document whose keys are
    ASCII: members in the order of their keys, and the shortest escapes. *)
Definition canonical_escape (c : ascii) : string :=
  let b := byte c in
  if (b =? 34) || (b =? 92) then String backslash (String c EmptyString)
  else if b =? 8 then String backslash "b"
  else if b =? 9 then String backslash "t"
  else if b =? 10 then String backslash "n"
  else if b =? 12 then String backslash "f"
  else if b =? 13 then String backslash "r"
  else if b <? 32 then String backslash ("u00" +:+ String (hex_digit (b / 16)) (String (hex_digit (b mod 16)) EmptyString))
  else String c EmptyString.

Fixpoint canonical_bytes (s : string) : string :=
  match s with EmptyString => EmptyString | String c s' => canonical_escape c +:+ canonical_bytes s' end.
Definition canonical_string (s : string) : string := dquote +:+ canonical_bytes s +:+ dquote.

Fixpoint canonical_text (j : json) : string :=
  match j with
  | JNull => "null"
  | JBool b => if b then "true" else "false"
  | JInt z => itoa z
  | JStr s => canonical_string s
  | JArr items => "[" +:+ join "," (map canonical_text items) +:+ "]"
  | JObj members =>
      "{" +:+ join "," (map snd (sort_func (fun a b => bytes_le a.1 b.1)
        (map (fun '(k, v) => (k, canonical_string k +:+ ":" +:+ canonical_text v)) members))) +:+ "}"
  end.

Definition no_control (s : string) : bool := sforall (fun c => 32 <=? byte c) s.
Definition plain_text (s : string) : bool := valid_utf8 s && no_control s.

Lemma canonical_bytes_plain s : no_control s = true -> canonical_bytes s = jcs_escape s.
Proof.
  unfold no_control. induction s as [|c s IH]; [done|]. cbn [sforall canonical_bytes jcs_escape]. bool_prop. intros [Hc Hs].
  rewrite IH by done. unfold canonical_escape. destruct ((byte c =? 34) || (byte c =? 92)); [done|].
  repeat match goal with |- context [if ?b then _ else _] => destruct b eqn:?; [bool_prop; lia|] end. done.
Qed.

Lemma writeJCSString_plain s : plain_text s = true -> writeJCSString s = Ok (canonical_string s).
Proof.
  unfold plain_text. bool_prop. intros [Hv Hc]. unfold writeJCSString, canonical_string. by rewrite Hv, canonical_bytes_plain.
Qed.

(** The keys of an object, in the order that the writers have them. *)
Fixpoint ascending (keys : list string) : bool :=
  match keys with
  | a :: ((b :: _) as keys') => bytes_le a b && negb (String.eqb a b) && ascending keys'
  | _ => true
  end.

Definition before (a b : string) : Prop := bytes_le a b = true /\ a <> b.
Definition key_before (a b : string * string) : Prop := before a.1 b.1.

Lemma ascending_sorted keys : ascending keys = true -> StronglySorted before keys.
Proof.
  intros H. apply Sorted_StronglySorted.
  - intros a b c [H1 H2] [H3 H4]. split; [by eapply leb_trans|]. intros ->. apply H2. by apply String.leb_antisym.
  - induction keys as [|a [|b l] IH]; [constructor|by repeat constructor|]. cbn [ascending] in H. bool_prop. destruct H as [[H1 H2] H3].
    constructor; [by apply IH|]. by constructor.
Qed.

Lemma sorted_keys_distinct l : StronglySorted key_before l -> NoDup (map fst l).
Proof.
  induction 1 as [|[k t] l Hl IH Hx]; [constructor|]. cbn. constructor; [|done]. intros Hin.
  apply list_elem_of_fmap in Hin as ([k' t'] & E & Hin). cbn in E. subst k'. rewrite Forall_forall in Hx.
  by destruct (Hx _ Hin) as [_ H].
Qed.

Lemma sort_members l k : l ≡ₚ k -> StronglySorted key_before k -> sort_func (fun a b => bytes_le a.1 b.1) l = k.
Proof.
  intros Hp Hk. apply (StronglySorted_unique_strong (fun a b : string * string => bytes_le a.1 b.1 = true)).
  - intros [x tx] [y ty] Hx Hy H1 H2. rewrite sort_func_perm, Hp in Hx. cbn in *.
    assert (x = y) as <- by (by apply String.leb_antisym).
    pose proof (sorted_keys_distinct k Hk) as Hn. apply list_elem_of_lookup in Hx as [i Hi], Hy as [j Hj].
    assert (i = j) as <-; [|congruence]. eapply NoDup_lookup; [exact Hn|by rewrite list_lookup_fmap, Hi|by rewrite list_lookup_fmap, Hj].
  - apply sort_func_sorted; [intros [a ?] [b ?]; apply String.leb_total|intros [a ?] [b ?] [c ?]; apply leb_trans].
  - clear Hp. induction Hk as [|a k Hk IH Ha]; constructor; [done|]. eapply Forall_impl; [exact Ha|]. by intros b [H _].
  - by rewrite sort_func_perm.
Qed.

(** [writes p f]: the piece [p] writes the member [f]. *)
Definition writes (p : piece_of) (f : field_of) : Prop :=
  p.1 = f.1 /\ canonical_string f.1.2 = dquote +:+ f.1.2 +:+ dquote /\ (f.1.1 = true -> p.2 = Ok (canonical_text f.2)).

Definition member_text (m : string * json) : string * string := (m.1, canonical_string m.1 +:+ ":" +:+ canonical_text m.2).

Lemma write_members_ok pieces fields : Forall2 writes pieces fields -> forall first : bool,
  write_members (if first then EmptyString else ",") pieces =
  Ok (match map (fun m => (member_text m).2) (printed fields) with
      | [] => EmptyString
      | l => if first then join "," l else "," +:+ join "," l
      end).
Proof.
  unfold printed. induction 1 as [|[[b k] r] [[b' k'] v] pieces fields [E [Hk Hv]] _ IH]; intros first; [done|].
  cbn in E, Hk, Hv. injection E as -> ->. cbn [write_members List.filter fst snd]. destruct b'; [|apply IH].
  rewrite Hv by done. cbn [rbind]. rewrite (IH false). cbn [rbind map fst snd].
  set (rest := map (fun m => (member_text m).2) _). unfold member_text. cbn [fst snd]. rewrite Hk. f_equal.
  destruct first, rest; cbn [join]; rewrite ?sapp_nil_l, ?sapp_nil_r, !sapp_assoc; done.
Qed.

Lemma printed_perm fields fields' : fields ≡ₚ fields' -> printed fields ≡ₚ printed fields'.
Proof.
  unfold printed. induction 1 as [|[[[] k] v] l l' _ IH|[[[] k] v] [[[] k'] v'] l|l l' l'' _ IH1 _ IH2]; cbn; try done.
  - by rewrite IH.
  - by constructor.
  - by rewrite IH1.
Qed.

Lemma printed_sorted fields : StronglySorted before (map (fun f : field_of => f.1.2) fields) ->
  StronglySorted key_before (map member_text (printed fields)).
Proof.
  unfold printed. induction fields as [|[[b k] v] fields IH]; intros H; [constructor|]. apply StronglySorted_inv in H as [H Hk].
  cbn in *. destruct b; [|by apply IH]. constructor; [by apply IH|]. apply Forall_forall. intros m Hm.
  apply list_elem_of_In, in_map_iff in Hm as (x & <- & Hx). apply in_map_iff in Hx as ([[b k'] v'] & <- & Hf). apply filter_In in Hf as [Hf _].
  rewrite Forall_forall in Hk. apply Hk. apply list_elem_of_In, in_map_iff. by exists (b, k', v').
Qed.

Lemma write_object_ok pieces sorted fields : Forall2 writes pieces sorted -> sorted ≡ₚ fields ->
  ascending (map (fun f : field_of => f.1.2) sorted) = true ->
  write_object pieces = Ok (canonical_text (struct_json fields)).
Proof.
  intros Hw Hp Ha. unfold write_object. rewrite (write_members_ok _ _ Hw true). cbn [rbind]. unfold struct_json. cbn [canonical_text].
  rewrite (sort_members _ (map member_text (printed sorted))).
  - rewrite map_map. by destruct (map _ (printed sorted)).
  - rewrite (map_ext _ member_text) by (by intros [k v]). apply Permutation_map, printed_perm. by symmetry.
  - by apply printed_sorted, ascending_sorted.
Qed.

Lemma write_array_ok {A} (item : A -> result string) (f : A -> json) l :
  Forall (fun x => item x = Ok (canonical_text (f x))) l ->
  write_array item l = Ok (canonical_text (JArr (map f l))).
Proof.
  intros H. unfold write_array. cbn [canonical_text].
  assert (results item l = Ok (map canonical_text (map f l))) as ->; [|done].
  induction H as [|x l Hx Hl IH]; [done|]. cbn. by rewrite Hx, IH.
Qed.

(** Every text of a document is plain. *)
Fixpoint plain_json (j : json) : bool :=
  match j with
  | JNull | JBool _ | JInt _ => true
  | JStr s => plain_text s
  | JArr items => forallb plain_json items
  | JObj members => forallb (fun '(k, v) => plain_json v) members
  end.

Lemma writes_text key v : canonical_string key = dquote +:+ key +:+ dquote -> plain_text v = true -> writes (write_text key v) (text_field key v).
Proof. intros Hk Hv. split_and!; [done|done|]. intros _. by apply writeJCSString_plain. Qed.

Lemma writes_optional key v : canonical_string key = dquote +:+ key +:+ dquote -> (nonempty v = true -> plain_text v = true) ->
  writes (write_optional key v) (omit_text key v).
Proof. intros Hk Hv. split_and!; [done|done|]. intros H. by apply writeJCSString_plain, Hv. Qed.

Lemma writes_literal key v v' : canonical_string key = dquote +:+ key +:+ dquote -> canonical_string v = dquote +:+ v +:+ dquote -> v' = v ->
  writes (true, key, write_literal v) (text_field key v').
Proof. intros Hk Hv ->. split_and!; [done|done|]. intros _. unfold write_literal. by cbn; rewrite Hv. Qed.

Lemma writes_value (b : bool) key r j : canonical_string key = dquote +:+ key +:+ dquote -> (b = true -> r = Ok (canonical_text j)) -> writes (b, key, r) (b, key, j).
Proof. intros Hk Hv. by split_and!. Qed.

Lemma writes_number b key z : canonical_string key = dquote +:+ key +:+ dquote -> writes (b, key, Ok (itoa z)) (b, key, JInt z).
Proof. intros Hk. by split_and!. Qed.

Lemma plain_struct fields : plain_json (struct_json fields) = true <-> Forall (fun f : field_of => f.1.1 = true -> plain_json f.2 = true) fields.
Proof.
  unfold struct_json, printed. cbn [plain_json]. rewrite forallb_forall, Forall_forall. split.
  - intros H [[b k] v] Hf Hb. cbn in Hb. subst b. apply (H (k, v)). apply in_map_iff. exists (true, k, v). split; [done|].
    apply filter_In. split; [by apply list_elem_of_In|done].
  - intros H [k v] Hm. apply in_map_iff in Hm as ([[b k'] v'] & [= -> ->] & Hf). apply filter_In in Hf as [Hf Hb].
    apply (H (b, k, v)); [by apply list_elem_of_In|done].
Qed.

Lemma plain_array {A} (f : A -> json) l : plain_json (JArr (map f l)) = true <-> Forall (fun x => plain_json (f x) = true) l.
Proof. cbn [plain_json]. rewrite forallb_forall, Forall_forall. setoid_rewrite in_map_iff. setoid_rewrite list_elem_of_In. naive_solver. Qed.

Lemma strings_ok l : plain_json (JArr (map JStr l)) = true -> write_array writeJCSString l = Ok (canonical_text (JArr (map JStr l))).
Proof. intros H%plain_array. apply write_array_ok. eapply Forall_impl; [exact H|]. intros s. apply writeJCSString_plain. Qed.

Lemma array_ok {A} (item : A -> result string) (f : A -> json) l :
  (forall x, x ∈ l -> plain_json (f x) = true -> item x = Ok (canonical_text (f x))) ->
  plain_json (JArr (map f l)) = true -> write_array item l = Ok (canonical_text (JArr (map f l))).
Proof. intros Hi H%plain_array. apply write_array_ok. rewrite Forall_forall in *. auto. Qed.

Create HintDb canonical.
#[export] Hint Resolve writes_text writes_optional writes_literal writes_number writes_value strings_ok array_ok : canonical.
#[export] Hint Extern 0 (canonical_string _ = _) => reflexivity : canonical.

(** A writer writes the canonical text of its struct: [sorted] lists the members
    in the order of the writer. *)
Ltac writer sorted :=
  apply (write_object_ok _ sorted); [repeat (apply List.Forall2_cons; [try solve [eauto with canonical]|]); try apply List.Forall2_nil|solve_Permutation|reflexivity].
Ltac plain_parts H := rewrite plain_struct, !Forall_cons in H; cbn [fst snd plain_json text_field omit_text] in H; destruct_and! H.

Lemma writeJCSOutput_ok o : plain_json (output_json o) = true -> writeJCSOutput o = Ok (canonical_text (output_json o)).
Proof.
  intros H. unfold output_json in *. plain_parts H.
  writer [omit_text "alias" (po_alias o); (negb (len (po_boundaries o) =? 0), "boundaries", JArr (map JStr (po_boundaries o)));
    omit_text "field" (po_field o); omit_text "function" (po_function o); text_field "kind" (po_kind o);
    omit_text "representation" (po_representation o); omit_text "timezone" (po_timezone o); omit_text "unit" (po_unit o)].
Qed.

Lemma writeJCSOrder_ok o : plain_json (public_order_json o) = true -> writeJCSOrder o = Ok (canonical_text (public_order_json o)).
Proof.
  intros H. unfold public_order_json in *. plain_parts H.
  writer [omit_text "alias" (pr_alias o); text_field "direction" (pr_direction o); omit_text "field" (pr_field o);
    text_field "kind" (pr_kind o); omit_text "representation" (pr_representation o)].
Qed.

Lemma write_source_ok r : plain_json (resource_json r) = true -> write_source r = Ok (canonical_text (resource_json r)).
Proof. intros H. unfold resource_json in *. plain_parts H. writer [text_field "name" (r_name r); text_field "schema" (r_schema r)]. Qed.

Lemma write_keyset_order_ok o : plain_json (sort_json o) = true -> write_keyset_order o = Ok (canonical_text (sort_json o)).
Proof.
  intros H. unfold sort_json in *. plain_parts H.
  writer [text_field "direction" (o_direction o); text_field "field" (o_field o); omit_text "representation" (o_representation o)].
Qed.

Lemma write_projection_ok p : keyset_selection p -> plain_json (selection_json p) = true ->
  write_keyset_projection p = Ok (canonical_text (selection_json p)).
Proof.
  intros (_ & Hk & Hf & He) H.
  replace (selection_json p) with (struct_json [omit_text "representation" (s_representation p); text_field "kind" (s_kind p);
    text_field "field" (s_field p); omit_text "alias" (s_alias p)]) in *
    by (unfold selection_json, omit_text, text_field; rewrite He, Hf; by destruct (nonempty (s_representation p))).
  plain_parts H.
  writer [omit_text "alias" (s_alias p); text_field "field" (s_field p); text_field "kind" (s_kind p);
    omit_text "representation" (s_representation p)].
Qed.

Lemma writeJCSFilter_ok f : printable f -> forall j, public_filter_json f = Ok j -> plain_json j = true ->
  writeJCSFilter f = Ok (canonical_text j).
Proof.
  induction f as [r k fl o vs es IH] using public_filter_ind'. intros Hf j Hj H. inversion Hf as [? Hk Hr|? Hk Hr Hes]; subst; cbn in Hk, Hr, Hj; subst k.
  - injection Hj as <-. cbn [String.eqb Ascii.eqb Bool.eqb writeJCSFilter pl_kind] in *. plain_parts H.
    writer [text_field "field" fl; text_field "kind" "predicate"; text_field "operator" o; omit_text "representation" r;
      (true, "value_types", JArr (map JStr vs))].
  - apply rbind_ok in Hj as (js & Hjs & [= <-]). plain_parts H. cbn [writeJCSFilter pl_kind pl_operator pl_expressions] in *.
    assert (write_array writeJCSFilter es = Ok (canonical_text (JArr js))) as Hw.
    { cbn in Hes. apply results_iff in Hjs. unfold write_array. cbn [canonical_text].
      enough (results writeJCSFilter es = Ok (map canonical_text js)) as -> by done.
      assert (Hplain : forallb plain_json js = true) by auto.
      clear -IH Hes Hjs Hplain. induction Hjs as [|e j es js Hj Hjs IHl]; [done|].
      apply Forall_cons in IH as [He IH], Hes as [Hpe Hes]. cbn [forallb] in Hplain. bool_prop. destruct Hplain as [H1 H2].
      cbn. rewrite (He Hpe _ Hj H1), IHl by done. done. }
    writer [(true, "expressions", JArr js); text_field "kind" "group"; text_field "operator" o].
Qed.

Lemma write_filter_ok f b j : filter_printable f -> optional_json public_filter_json f = Ok (b, j) ->
  (b = true -> plain_json j = true) -> writes (write_filter f) (b, "filter", j).
Proof.
  destruct f as [f|]; intros Hf Hj H.
  - apply rbind_ok in Hj as (j' & Hj & [= <- <-]). split_and!; [done|done|]. intros _. by apply writeJCSFilter_ok; [| |apply H].
  - injection Hj as <- <-. by split_and!.
Qed.

Lemma write_description_ok d : ((description_field d).1.1 = true -> plain_json (description_field d).2 = true) ->
  writes (write_description d) (description_field d).
Proof. destruct d as [t|]; intros H; [|by split_and!]. apply writes_text; [done|]. by apply H. Qed.

Lemma write_order_by_ok o : from_option (fun l => l <> [] /\ Forall (fun o => known_representation (pr_representation o)) l) True o ->
  (negb (len (default [] o) =? 0) = true -> plain_json (JArr (map public_order_json (default [] o))) = true) ->
  writes match o with
         | None => (false, "order_by", Ok EmptyString)
         | Some orders => (true, "order_by", write_array writeJCSOrder orders)
         end (negb (len (default [] o) =? 0), "order_by", JArr (map public_order_json (default [] o))).
Proof.
  destruct o as [l|]; [|intros _ _; by split_and!]. cbn. unfold id. intros [Hne _] H.
  destruct (len l =? 0) eqn:E; [by apply len_zero in E|]. apply writes_value; [done|]. intros _. apply array_ok; [|by apply H].
  intros x _. apply writeJCSOrder_ok.
Qed.

Lemma writeJCSQuery_ok spec j : filter_printable (ps_filter spec) ->
  from_option (fun l => l <> [] /\ Forall (fun o => known_representation (pr_representation o)) l) True (ps_order_by spec) ->
  aggregate_spec_json spec = Ok j -> plain_json j = true -> writeJCSQuery spec = Ok (canonical_text j).
Proof.
  intros Hf Hord Hj H. apply rbind_ok in Hj as ([b f] & Hfj & [= <-]). cbn [fst snd] in *.
  rewrite plain_struct, !Forall_cons in H. cbn [fst snd text_field] in H. destruct H as (Hm & Hs & Hp & Hpf & Hpo & Hpl & _).
  writer [(b, "filter", f); (negb (ps_maximum_limit spec =? 0), "maximum_limit", JInt (ps_maximum_limit spec));
    text_field "mode" (ps_mode spec);
    (negb (len (default [] (ps_order_by spec)) =? 0), "order_by", JArr (map public_order_json (default [] (ps_order_by spec))));
    (true, "projection", JArr (map output_json (ps_projection spec))); (true, "source", resource_json (ps_source spec))].
  - by apply write_filter_ok.
  - by apply write_order_by_ok.
  - apply writes_value; [done|]. intros _. apply array_ok; [|by apply Hp]. intros x _. apply writeJCSOutput_ok.
  - apply writes_value; [done|]. intros _. by apply write_source_ok, Hs.
Qed.

Lemma writeJCSKeysetQuery_ok spec j : Forall keyset_selection (pq_projection spec) -> filter_printable (pq_filter spec) ->
  keyset_spec_json spec = Ok j -> plain_json j = true -> writeJCSKeysetQuery spec = Ok (canonical_text j).
Proof.
  intros Ho Hf Hj H. apply rbind_ok in Hj as ([b f] & Hfj & [= <-]). cbn [fst snd] in *.
  rewrite plain_struct, !Forall_cons in H. cbn [fst snd] in H. destruct H as (Hs & Hp & Hpf & Hpo & Hpl & _).
  writer [(b, "filter", f); (true, "maximum_limit", JInt (pq_maximum_limit spec));
    (true, "order_by", JArr (map sort_json (pq_order_by spec)));
    (true, "projection", JArr (map selection_json (pq_projection spec))); (true, "source", resource_json (pq_source spec))].
  - by apply write_filter_ok.
  - apply writes_value; [done|]. intros _. apply array_ok; [|by apply Hpo]. intros x _. apply write_keyset_order_ok.
  - apply writes_value; [done|]. intros _. apply array_ok; [|by apply Hp]. intros x Hx.
    apply write_projection_ok. rewrite Forall_forall in Ho. auto.
  - apply writes_value; [done|]. intros _. by apply write_source_ok, Hs.
Qed.

(** The object of a shape around its query. *)
Lemma write_shape_object name description operation (query : result string) q :
  canonical_string operation = dquote +:+ operation +:+ dquote ->
  plain_json (struct_json [text_field "name" name; description_field description; text_field "operation" operation; (true, "query", q)]) = true ->
  (plain_json q = true -> query = Ok (canonical_text q)) ->
  write_object [write_description description; write_text "name" name; (true, "operation", write_literal operation); (true, "query", query)] =
  Ok (canonical_text (struct_json [text_field "name" name; description_field description; text_field "operation" operation; (true, "query", q)])).
Proof.
  intros Hop H Hq. rewrite plain_struct, !Forall_cons in H. cbn [fst snd text_field] in H. destruct H as (Hn & Hd & _ & Hpq & _).
  apply (write_object_ok _ [description_field description; text_field "name" name; text_field "operation" operation; (true, "query", q)]).
  - repeat apply List.Forall2_cons; [by apply write_description_ok|apply writes_text; [done|by apply Hn]|by apply writes_literal| |constructor].
    apply writes_value; [done|]. intros _. by apply Hq, Hpq.
  - solve_Permutation.
  - by destruct description.
Qed.

Lemma writeJCSShape_ok s j : aggregate_printable s -> aggregate_shape_json s = Ok j -> plain_json j = true ->
  writeJCSShape s = Ok (canonical_text j).
Proof.
  intros [Ho Hf Hord Hop] Hj H. apply rbind_ok in Hj as (q & Hq & [= <-]). rewrite Hop in *.
  apply write_shape_object; [done|done|]. by apply writeJCSQuery_ok.
Qed.

Lemma writeJCSKeysetShape_ok s j : keyset_printable s -> keyset_shape_json s = Ok j -> plain_json j = true ->
  writeJCSKeysetShape s = Ok (canonical_text j).
Proof.
  intros [Ho Hf Hord Hop] Hj H. apply rbind_ok in Hj as (q & Hq & [= <-]). rewrite Hop in *.
  apply write_shape_object; [done|done|]. by apply writeJCSKeysetQuery_ok.
Qed.

(** ** The published document *)

Definition shape_printable (s : publicQueryShape) : Prop :=
  match pu_aggregate s, pu_keyset s with
  | Some aggregate, None => aggregate_printable aggregate
  | None, Some keyset => keyset_printable keyset
  | _, _ => False
  end.

Lemma grew_shape s : shape_printable s -> counts query_shape_json add_shape s.
Proof.
  unfold shape_printable, counts, query_shape_json, add_shape. destruct (pu_aggregate s), (pu_keyset s); try done; intros H.
  - by apply grew_aggregate.
  - by apply grew_keyset.
Qed.

Lemma write_shape_ok s j : shape_printable s -> query_shape_json s = Ok j -> plain_json j = true -> write_shape s = Ok (canonical_text j).
Proof.
  unfold shape_printable, query_shape_json, write_shape. destruct (pu_aggregate s), (pu_keyset s); try done.
  - apply writeJCSShape_ok.
  - apply writeJCSKeysetShape_ok.
Qed.

(** The outcome of a count that started at zero. *)
Lemma grew_outcome maximum n size : grew (newBoundedSize maximum) n size ->
  bs_ok size = (n <=? maximum) /\ (n <= maximum -> bs_value size = n).
Proof.
  intros (_ & _ & Hn & Hc). unfold counted in Hc at 1. rewrite counted_new in Hc. cbn [bs_maximum newBoundedSize] in Hc.
  destruct (Z.leb_spec 0 maximum); cbn in Hc.
  - rewrite Z.add_0_l in Hc. destruct (Z.leb_spec n maximum), (bs_ok size); simplify_eq; (split; [done|lia]).
  - destruct (Z.leb_spec n maximum); [lia|]. destruct (bs_ok size); [done|]. split; [done|lia].
Qed.

Lemma queryShapeArraySize_exact shapes maximum : Forall shape_printable shapes ->
  exists js, results query_shape_json shapes = Ok js /\
    let bytes := slen (marshal (JArr js)) in
    (queryShapeArraySize shapes maximum).2 = (bytes <=? maximum) /\
    (bytes <= maximum -> (queryShapeArraySize shapes maximum).1 = bytes).
Proof.
  intros Hs. destruct (counts_each query_shape_json add_shape shapes) as (js & Hjs & Hg); [by eapply Forall_impl; [exact Hs|apply grew_shape]|].
  exists js. split; [done|]. cbn zeta. unfold queryShapeArraySize.
  assert (sound (newBoundedSize maximum)) as H0 by (unfold sound; cbn; lia).
  rewrite json_array_len. apply grew_outcome. eapply grew_eq; [apply grew_add, Hg, grew_add, grew_refl, H0; done|]. lia.
Qed.

Lemma public_shapes_printable aggregates keysets : Forall aggregate_printable aggregates -> Forall keyset_printable keysets ->
  Forall shape_printable (public_shapes aggregates keysets).
Proof.
  intros Ha Hk. unfold public_shapes. rewrite sort_func_perm. apply Forall_app. split; apply Forall_map; eapply Forall_impl; [exact Ha|done|exact Hk|done].
Qed.

(** C19: The published document of a profile's reviewed shapes is built with a
    size that was counted exactly before: for shapes as the configuration admits
    them, [encodeQueryShapeDocument] refuses when there are none or their JSON is
    longer than the limit, and otherwise returns that JSON, with the digest of
    its canonical form (RFC 8785); the two checks that the program keeps as
    invariants never fail. *)
Theorem document_is_exact sha256 aggregates keysets maximum :
  Forall aggregate_printable aggregates -> Forall keyset_printable keysets ->
  exists documents, results query_shape_json (public_shapes aggregates keysets) = Ok documents /\
    (plain_json (JArr documents) = true ->
     encodeQueryShapeDocument sha256 aggregates keysets maximum =
     if (maximum <? slen (marshal (JArr documents))) || (len (public_shapes aggregates keysets) =? 0) then Err too_large
     else Ok (marshal (JArr documents), hex_text (sha256 (queryShapeHashDomain +:+ canonical_text (JArr documents))))).
Proof.
  intros Ha Hk. pose proof (public_shapes_printable _ _ Ha Hk) as Hs.
  destruct (queryShapeArraySize_exact _ maximum Hs) as (js & Hjs & Hok & Hsize). exists js. split; [done|]. intros Hp.
  unfold encodeQueryShapeDocument. destruct (queryShapeArraySize _ _) as [n ok]. cbn [fst snd] in *. subst ok.
  rewrite <- Z.ltb_antisym. destruct ((maximum <? slen (marshal (JArr js))) || _) eqn:E; [done|]. bool_prop. destruct E as [E _].
  rewrite Hjs. cbn [rbind]. rewrite Hsize, Z.eqb_refl by lia. cbn [negb]. unfold publicQueryShapeSetHash.
  assert (write_array write_shape (public_shapes aggregates keysets) = Ok (canonical_text (JArr js))) as ->; [|done].
  cbn [plain_json] in Hp. unfold write_array. cbn [canonical_text].
  enough (results write_shape (public_shapes aggregates keysets) = Ok (map canonical_text js)) as -> by done.
  apply results_iff. apply results_iff in Hjs. revert Hs Hp. clear - Hjs. induction Hjs as [|s j shapes js Hj Hjs IH]; [constructor|].
  rewrite Forall_cons. cbn [forallb map]. bool_prop. intros [Hs Hr] [Hp Hpr]. constructor; [by apply write_shape_ok|by apply IH].
Qed.

(** *** The envelope *)

Definition envelope_prefix (profileName policyVersion datasource adapter : string) : string :=
  lit "{'policy_profile':" +:+ marshal_string profileName +:+ lit ",'policy_version':" +:+ marshal_string policyVersion +:+
  lit ",'datasource':" +:+ marshal_string datasource +:+ lit ",'adapter':" +:+ marshal_string adapter +:+ lit ",'shapes':".

Definition envelope_json (profileName policyVersion datasource adapter : string) (shapes : json) : json :=
  JObj [("policy_profile", JStr profileName); ("policy_version", JStr policyVersion); ("datasource", JStr datasource);
    ("adapter", JStr adapter); ("shapes", shapes)].

Lemma envelope_text profileName policyVersion datasource adapter shapes :
  envelope_prefix profileName policyVersion datasource adapter +:+ marshal shapes +:+ "}" =
  marshal (envelope_json profileName policyVersion datasource adapter shapes).
Proof. unfold envelope_prefix, envelope_json. cbn [marshal map join]. rewrite !sapp_assoc. reflexivity. Qed.

Lemma envelope_size_grew profileName policyVersion datasource adapter n maximum : 0 <= n ->
  grew (newBoundedSize maximum) (slen (envelope_prefix profileName policyVersion datasource adapter) + n + 1)
    (envelope_size profileName policyVersion datasource adapter n maximum).
Proof.
  intros Hn. unfold envelope_size. eapply grew_eq.
  - apply grew_add; [lia|]. apply grew_add; [exact Hn|]. apply grew_text. do 4 apply grew_member. apply grew_refl. unfold sound. cbn. lia.
  - unfold envelope_prefix. rewrite !slen_app. cbn [marshal]. closed_lengths. lia.
Qed.

Lemma prefix_text x y z w : appendQueryShapeJSONString (appendQueryShapeJSONString (appendQueryShapeJSONString
  (appendQueryShapeJSONString (lit "{'policy_profile':") x +:+ lit ",'policy_version':") y +:+ lit ",'datasource':") z +:+
  lit ",'adapter':") w +:+ lit ",'shapes':" = envelope_prefix x y z w.
Proof. unfold appendQueryShapeJSONString, envelope_prefix. by rewrite !sapp_assoc. Qed.

Lemma encodeQueryShapeEnvelope_exact profileName policyVersion datasource adapter n maximum : 0 <= n ->
  encodeQueryShapeEnvelope profileName policyVersion datasource adapter n maximum =
  let prefix := envelope_prefix profileName policyVersion datasource adapter in
  if maximum <? slen prefix + n + 1 then Err too_large else Ok (prefix, slen prefix + n + 1).
Proof.
  intros Hn. pose proof (grew_outcome _ _ _ (envelope_size_grew profileName policyVersion datasource adapter n maximum Hn)) as [Hok Hv].
  unfold encodeQueryShapeEnvelope. rewrite prefix_text. generalize dependent (envelope_size profileName policyVersion datasource adapter n maximum).
  generalize (envelope_prefix profileName policyVersion datasource adapter). intros prefix size Hok Hv. cbn zeta.
  rewrite Hok, <- Z.ltb_antisym. destruct (Z.ltb_spec maximum (slen prefix + n + 1)) as [|Hle]; [done|]. cbn [orb].
  destruct (Z.ltb_spec n 0); [lia|]. rewrite Hv by done. replace (slen prefix + n + 1 - n - 1) with (slen prefix) by lia.
  by rewrite Z.eqb_refl.
Qed.

(** What a document is made of, when it is built. *)
Lemma encodeQueryShapeDocument_ok sha256 aggregates keysets maximum payload digest :
  encodeQueryShapeDocument sha256 aggregates keysets maximum = Ok (payload, digest) ->
  exists documents, results query_shape_json (public_shapes aggregates keysets) = Ok documents /\
    payload = marshal (JArr documents) /\ len documents = len aggregates + len keysets /\ 0 < len documents.
Proof.
  intros H. unfold encodeQueryShapeDocument in H. destruct (queryShapeArraySize _ _).
  apply if_err_ok in H as [Hn H]. apply rbind_ok in H as (js & Hjs & H). remember (marshal (JArr js)) as text eqn:Ht in H.
  apply if_err_ok in H as [_ H]. apply rbind_ok in H as (h & _ & [= <- <-]). exists js. split_and!; [done|done|..].
  all: apply results_iff, Forall2_length in Hjs; assert (len js = len (public_shapes aggregates keysets)) as -> by (unfold len; by rewrite Hjs).
  - unfold public_shapes, len. rewrite sort_func_perm, length_app, !length_map. lia.
  - bool_prop. destruct Hn as [_ Hn]. pose proof (len_nonneg (public_shapes aggregates keysets)). lia.
Qed.

(** The published response as a whole: the envelope's document, or a refusal. *)
Lemma response_is_exact sha256 profileName policyVersion datasource adapter aggregates keysets maximum payload digest :
  encodeQueryShapeResponse sha256 profileName policyVersion datasource adapter aggregates keysets maximum = Ok (payload, digest) ->
  exists documents, results query_shape_json (public_shapes aggregates keysets) = Ok documents /\
    payload = marshal (envelope_json profileName policyVersion datasource adapter (JArr documents)) /\ slen payload <= maximum.
Proof.
  intros H. unfold encodeQueryShapeResponse in H. apply rbind_ok in H as ([shapes hash] & Hd & H).
  rewrite encodeQueryShapeEnvelope_exact in H by apply slen_nonneg. cbn zeta in H.
  set (prefix := envelope_prefix _ _ _ _) in *. destruct (Z.ltb_spec maximum (slen prefix + slen shapes + 1)) as [|Hle]; [done|].
  cbn [rbind] in H. apply if_err_ok in H as [_ [= <- <-]].
  apply encodeQueryShapeDocument_ok in Hd as (js & Hjs & -> & _). exists js. split; [done|].
  split; [exact (envelope_text profileName policyVersion datasource adapter (JArr js))|].
  rewrite !slen_app. change (slen "}") with 1. lia.
Qed.

(** ** An example *)

Definition example_aggregates : list publicAggregateQueryShape :=
  match buildPublicAggregateQueryShape srev reviewed_shape sensitive with Ok s => [s] | Err _ => [] end.
Definition example_keysets : list publicKeysetQueryShape :=
  match buildPublicKeysetQueryShapes srev [page_shape] sensitive with Ok l => l | Err _ => [] end.

Example example_keyset_text :
  map (fun s => match query_shape_json {| pu_aggregate := None; pu_keyset := Some s |} with Ok j => canonical_text j | Err _ => EmptyString end) example_keysets =
  [lit ("{'name':'orders_by_id','operation':'select_keyset','query':{'filter':{'field':'ID','kind':'predicate','operator':'gt'," +:+
    "'value_types':['integer']},'maximum_limit':50,'order_by':[{'direction':'desc','field':'at'},{'direction':'asc','field':'id'}]," +:+
    "'projection':[{'field':'id','kind':'field'},{'field':'state','kind':'field'},{'field':'AT','kind':'field'}]," +:+
    "'source':{'name':'orders','schema':'Shop'}}}")].
Proof. vm_compute. reflexivity. Qed.

Lemma example_aggregates_printable : Forall aggregate_printable example_aggregates.
Proof.
  set (l := example_aggregates). vm_compute in l. subst l.
  repeat constructor; cbn; try done; try (by left); try (by repeat constructor; left); by repeat (constructor; try by left).
Qed.

Lemma example_keysets_printable : Forall keyset_printable example_keysets.
Proof.
  set (l := example_keysets). vm_compute in l. subst l.
  repeat constructor; cbn; try done; by left.
Qed.

Lemma document_is_exact_witness : Forall aggregate_printable example_aggregates /\ Forall keyset_printable example_keysets /\
  exists documents, len documents = 2 /\ plain_json (JArr documents) = true /\
    encodeQueryShapeDocument srev example_aggregates example_keysets 4096 =
    Ok (marshal (JArr documents), hex_text (srev (queryShapeHashDomain +:+ canonical_text (JArr documents)))).
Proof.
  split; [exact example_aggregates_printable|]. split; [exact example_keysets_printable|].
  destruct (document_is_exact srev example_aggregates example_keysets 4096 example_aggregates_printable example_keysets_printable)
    as (documents & Hd & H).
  exists documents. vm_compute in Hd. injection Hd as Hd. subst documents. split; [reflexivity|]. split; [reflexivity|].
  exact (H eq_refl).
Defined.
