(* ===== verification/Discovery.v ===== *)
(** Query-shape discovery in the policy (internal/policy/query_shapes.go and
    keyset_discovery.go): the immutable document of the shapes that a profile
    publishes, the snapshot of it for one datasource, and the authorization to
    list it. *)
From stdpp Require Import sorting.
From S2P Require Import Prelude Domain GoJson Number Portable Values QuerySpec Config Policy Sql Rows Aggregate AggregateNormal NumericBucket SqlAggregate PolicyAggregate Keyset PolicyKeyset PublicShapes ShapeSizes ShapeDocument.
Local Open Scope string_scope.
Local Open Scope Z_scope.

Record QueryShapeResource := { qr_schema : string; qr_object : string }.

(** [owner] is the pointer to the snapshot of the policy that made the document. *)
Record QueryShapeDocument := {
  qd_owner : positive; qd_profile : string; qd_semantics : IdentifierSemantics; qd_shapeSetHash : string;
  qd_shapesPayload : string; qd_resources : list QueryShapeResource; qd_fields : list string; qd_shapeCount : Z;
}.

Record QueryShapeDiscovery := {
  dc_owner : positive; dc_profile : string; dc_policyVersion : string; dc_policyHash : string; dc_datasource : string;
  dc_adapter : string; dc_generation : string; dc_limits : Limits; dc_document : option QueryShapeDocument;
  dc_envelopePrefix : string; dc_resultBytes : Z;
}.

Record AuthorizedQueryShapeList := {
  ql_principal : string; ql_credentialIdentifier : string; ql_operation : string; ql_discovery : option QueryShapeDiscovery;
}.

Definition ql_document (a : AuthorizedQueryShapeList) : option QueryShapeDocument := ql_discovery a ≫= dc_document.
Definition ql_profile (a : AuthorizedQueryShapeList) : string := from_option dc_profile EmptyString (ql_discovery a).
Definition ql_datasource (a : AuthorizedQueryShapeList) : string := from_option dc_datasource EmptyString (ql_discovery a).
Definition ql_adapter (a : AuthorizedQueryShapeList) : string := from_option dc_adapter EmptyString (ql_discovery a).
Definition ql_limits (a : AuthorizedQueryShapeList) : Limits := from_option dc_limits zero_limits (ql_discovery a).
Definition ql_generation (a : AuthorizedQueryShapeList) : string := from_option dc_generation EmptyString (ql_discovery a).
Definition ShapeSetHash (a : AuthorizedQueryShapeList) : string := from_option qd_shapeSetHash EmptyString (ql_document a).
Definition ShapeCount (a : AuthorizedQueryShapeList) : Z := from_option qd_shapeCount 0 (ql_document a).
Definition ResultBytes (a : AuthorizedQueryShapeList) : Z := from_option dc_resultBytes 0 (ql_discovery a).
Definition ql_resources (a : AuthorizedQueryShapeList) : list QueryShapeResource := from_option qd_resources [] (ql_document a).
Definition ql_fields (a : AuthorizedQueryShapeList) : list string := from_option qd_fields [] (ql_document a).

Definition ResponsePayload (a : AuthorizedQueryShapeList) : result string :=
  match ql_discovery a with
  | None => Err (ErrorString "invalid list_query_shapes authorization")
  | Some discovery =>
      match dc_document discovery with
      | None => Err (ErrorString "invalid list_query_shapes authorization")
      | Some document =>
          if? negb (String.eqb (ql_operation a) OperationListQueryShapes) || (ShapeCount a =? 0) ||
              (dc_resultBytes discovery <=? 0) || (MaxResultBytes (dc_limits discovery) <? dc_resultBytes discovery)
          return ErrorString "invalid list_query_shapes authorization" then
          let payload := dc_envelopePrefix discovery +:+ qd_shapesPayload document +:+ "}" in
          if? negb (slen payload =? dc_resultBytes discovery)
          return ErrorString "query-shape response size invariant failed" then
          Ok payload
      end
  end.

Definition MatchesSemantics (d : QueryShapeDiscovery) (semantics : IdentifierSemantics) : bool :=
  match dc_document d with None => false | Some document => bool_decide (qd_semantics document = semantics) end.

(** ** What a shape refers to *)

Fixpoint filter_fields (filter : ShapeFilter) : list string :=
  if String.eqb (sf_kind filter) "predicate" then [sf_field filter] else flat_map filter_fields (sf_expressions filter).

Definition shape_filter_fields (filter : option ShapeFilter) : list string := from_option filter_fields [] filter.

(** [configuredAggregateShapeFields]: the keys of a map, sorted. *)
Definition string_set (l : list string) : list string := fold_left (fun acc field => insert_field field acc) l [].

Definition configuredAggregateShapeFields (shape : AggregateShape) : list string :=
  string_set (List.filter nonempty (map so_field (sh_projection shape)) ++ shape_filter_fields (sh_filter shape) ++
    map sd_field (List.filter (fun order => String.eqb (sd_kind order) "dimension" && nonempty (sd_field order))
      (default [] (sh_order_by shape)))).

Definition configuredKeysetShapeFields (shape : KeysetSelectShape) : list string :=
  compact (sort_func bytes_le (map kp_field (ks_projection shape) ++ shape_filter_fields (ks_filter shape) ++
    map ko_field (ks_order_by shape))).

Definition shape_function (output : AggregateShapeOutput) : string :=
  if String.eqb (so_function output) "count_all" then "count" else so_function output.

Fixpoint allowed_shape_filter (policy : QueryPolicy) (filter : ShapeFilter) : bool :=
  if String.eqb (sf_kind filter) "predicate" then contains (AllowedFilterOperators policy) (sf_operator filter)
  else forallb (allowed_shape_filter policy) (sf_expressions filter).

Definition aggregateShapeFeaturesAllowed (policy : QueryPolicy) (shape : AggregateShape) : bool :=
  if (String.eqb (sh_mode shape) AggregateModeGrouped && negb (AllowGroupBy policy)) ||
     (negb (len (default [] (sh_order_by shape)) =? 0) && negb (AllowSorting policy)) then false
  else if negb (forallb (fun output => negb (String.eqb (so_kind output) "measure") ||
                                       contains (AllowedAggregates policy) (shape_function output)) (sh_projection shape)) then false
  else
    match sh_filter shape with
    | None => true
    | Some filter => if negb (AllowFiltering policy) then false else allowed_shape_filter policy filter
    end.

Definition aggregateShapesContainTimeBucket (shapes : list AggregateShape) : bool :=
  existsb (fun shape => existsb (fun output => String.eqb (so_kind output) "time_bucket") (sh_projection shape)) shapes.

(** ** Building the document *)

(** [resourcesByKey] and [fieldsByKey]. *)
Record scope := { sc_resourcesByKey : gmap string QueryShapeResource; sc_fieldsByKey : gmap string string }.

Definition field_key (semantics : IdentifierSemantics) (field : string) : string :=
  canonicalPolicyIdentifier field (CaseInsensitiveFields semantics).

Definition canonical_resource (semantics : IdentifierSemantics) (source : ResourceRef) : QueryShapeResource := {|
  qr_schema := canonicalPolicyIdentifier (r_schema source) (CaseInsensitiveSchemas semantics);
  qr_object := canonicalPolicyIdentifier (r_name source) (CaseInsensitiveObjects semantics) |}.

Definition resource_key (r : QueryShapeResource) : string := qr_schema r +:+ nul +:+ qr_object r.

(** An aggregate shape keeps an entry that is already there; a keyset shape
    writes it again. *)
Definition put {V} (keep : bool) (key : string) (v : V) (m : gmap string V) : gmap string V :=
  if keep && bool_decide (is_Some (m !! key)) then m else <[key := v]> m.

(** One turn of the loop over the fields of a shape. *)
Definition scope_field (keep : bool) (resources : ResourcePolicy) (source : ResourceRef) (semantics : IdentifierSemantics) (field : string)
    (fields : gmap string string) : result (gmap string string) :=
  if? negb (allowed (Fields resources) [r_schema source; r_name source; field] (field_semantics semantics))
  return ErrorString "shape references a denied field" then
  let key := field_key semantics field in Ok (put keep key key fields).

Definition resource_allowed (resources : ResourcePolicy) (source : ResourceRef) (semantics : IdentifierSemantics) : bool :=
  allowed (Schemas resources) [r_schema source] (schema_semantics semantics) &&
  allowed (Objects resources) [r_schema source; r_name source] (object_semantics semantics).

(** What both loops do with a shape: its resource and its fields must be allowed,
    and become part of the scope. *)
Definition scope_shape (keep : bool) (resources : ResourcePolicy) (semantics : IdentifierSemantics) (source : ResourceRef) (fields : list string)
    (sc : scope) : result scope :=
  if? negb (resource_allowed resources source semantics) return ErrorString "shape references a denied resource" then
  let? fieldsByKey := iter (fun _ => scope_field keep resources source semantics) fields (sc_fieldsByKey sc) in
  let resource := canonical_resource semantics source in
  Ok {| sc_resourcesByKey := put keep (resource_key resource) resource (sc_resourcesByKey sc); sc_fieldsByKey := fieldsByKey |}.

Section Document.
Context (sha256 : string -> string).

(** One turn of the loop over the aggregate shapes. *)
Definition document_aggregate (profile : Profile) (semantics : IdentifierSemantics) (shape : AggregateShape)
    (st : scope * list publicAggregateQueryShape) : result (scope * list publicAggregateQueryShape) :=
  if? negb (aggregateShapeFeaturesAllowed (pf_query profile) shape)
  return ErrorString "aggregate shape references a denied query feature" then
  let? sc := scope_shape true (pf_resources profile) semantics (sh_source shape) (configuredAggregateShapeFields shape) st.1 in
  let? public := buildPublicAggregateQueryShape sha256 shape semantics in
  Ok (sc, (st.2 ++ [public])%list).

Definition resource_le (a b : QueryShapeResource) : bool :=
  match String.compare (qr_schema a) (qr_schema b) with
  | Eq => bytes_le (qr_object a) (qr_object b)
  | Lt => true
  | Gt => false
  end.

Definition publishes (profile : Profile) : bool :=
  contains (pf_operations profile) OperationListQueryShapes &&
  negb (len (AggregateShapes (pf_query profile)) + len (KeysetSelectShapes (pf_query profile)) =? 0).

Definition not_published : goerr := ErrorString "profile does not configure publishable query shapes".

Definition BuildQueryShapeDocument (s : Snapshot) (profileName : string) (semantics : IdentifierSemantics)
  : result QueryShapeDocument :=
  match sn_profiles s !! profileName with
  | None => Err not_published
  | Some profile =>
      if? negb (publishes profile) return not_published then
      let configuredShapes := sort_func (fun a b => bytes_le (sh_name a) (sh_name b)) (AggregateShapes (pf_query profile)) in
      let? (sc, publicShapes) :=
        iter (fun _ => document_aggregate profile semantics) configuredShapes
          ({| sc_resourcesByKey := ∅; sc_fieldsByKey := ∅ |}, []) in
      let? publicKeysetShapes := buildPublicKeysetQueryShapes sha256 (KeysetSelectShapes (pf_query profile)) semantics in
      let? sc :=
        iter (fun _ shape => scope_shape false (pf_resources profile) semantics (ks_source shape) (configuredKeysetShapeFields shape))
          (KeysetSelectShapes (pf_query profile)) sc in
      let resources := sort_func resource_le (map snd (map_to_list (sc_resourcesByKey sc))) in
      let fields := sort_func bytes_le (map snd (map_to_list (sc_fieldsByKey sc))) in
      let maximum := MaxResultBytes (Limits_Min (sn_hardLimits s) (pf_limits profile)) in
      let? (shapesPayload, shapeSetHash) := encodeQueryShapeDocument sha256 publicShapes publicKeysetShapes maximum in
      Ok {| qd_owner := sn_address s; qd_profile := profileName; qd_semantics := semantics; qd_shapeSetHash := shapeSetHash;
            qd_shapesPayload := shapesPayload; qd_resources := resources; qd_fields := fields;
            qd_shapeCount := len publicShapes + len publicKeysetShapes |}
  end.

Definition discovery_generation (s : Snapshot) (profileName datasource adapter : string) (semantics : IdentifierSemantics) : string :=
  sn_hash s +:+ nul +:+ (profileName +:+ nul +:+ datasource) +:+ nul +:+ adapter +:+ nul +:+
  bool_text (CaseInsensitiveSchemas semantics) +:+ bool_text (CaseInsensitiveObjects semantics) +:+
  bool_text (CaseInsensitiveFields semantics).

Definition BuildQueryShapeDiscoveryFromDocument (s : Snapshot) (profileName datasource adapter : string)
    (document : option QueryShapeDocument) : result QueryShapeDiscovery :=
  match sn_profiles s !! profileName with
  | None => Err not_published
  | Some profile =>
      if? negb (contains (pf_operations profile) OperationListQueryShapes) || negb (contains (pf_datasources profile) datasource) ||
          (len (AggregateShapes (pf_query profile)) + len (KeysetSelectShapes (pf_query profile)) =? 0)
      return not_published then
      if? String.eqb adapter EmptyString return ErrorString "profile cannot publish query shapes" then
      match document with
      | None => Err (ErrorString "query-shape document does not match policy")
      | Some document =>
          if? negb (bool_decide (qd_owner document = sn_address s)) || negb (String.eqb (qd_profile document) profileName) ||
              (qd_shapeCount document =? 0) || (slen (qd_shapesPayload document) =? 0)
          return ErrorString "query-shape document does not match policy" then
          let limits := Limits_Min (sn_hardLimits s) (pf_limits profile) in
          let? (envelopePrefix, resultBytes) :=
            encodeQueryShapeEnvelope profileName (sn_version s) datasource adapter (slen (qd_shapesPayload document))
              (MaxResultBytes limits) in
          Ok {| dc_owner := sn_address s; dc_profile := profileName; dc_policyVersion := sn_version s; dc_policyHash := sn_hash s;
                dc_datasource := datasource; dc_adapter := adapter;
                dc_generation := hex_text (sha256 (discovery_generation s profileName datasource adapter (qd_semantics document)));
                dc_limits := limits; dc_document := Some document; dc_envelopePrefix := envelopePrefix;
                dc_resultBytes := resultBytes |}
      end
  end.

Definition BuildQueryShapeDiscovery (s : Snapshot) (profileName datasource adapter : string) (semantics : IdentifierSemantics)
  : result QueryShapeDiscovery :=
  let? document := BuildQueryShapeDocument s profileName semantics in
  BuildQueryShapeDiscoveryFromDocument s profileName datasource adapter (Some document).

(** The zero value of [domain.IdentifierSemantics]. *)
Definition no_semantics : IdentifierSemantics := {|
  CaseInsensitiveSchemas := false; CaseInsensitiveObjects := false; CaseInsensitiveFields := false |}.

Definition ValidateQueryShapeDiscoveryStatic (s : Snapshot) (profileName datasource adapter : string) : error :=
  let? document := BuildQueryShapeDocument s profileName no_semantics in
  let? _ := BuildQueryShapeDiscoveryFromDocument s profileName datasource adapter (Some document) in nil_error.
End Document.

Definition AuthorizeQueryShapeList (s : Snapshot) (binding : AuthorizedBinding) (credentialIdentifier : string)
    (discovery : option QueryShapeDiscovery) : result AuthorizedQueryShapeList :=
  if? String.eqb credentialIdentifier EmptyString
  return ErrorString "query-shape authorization requires a credential identifier" then
  match profileForBinding s binding OperationListQueryShapes with
  | Err _ => Err (denied ReasonDeniedOperation)
  | Ok profile =>
      if? len (AggregateShapes (pf_query profile)) + len (KeysetSelectShapes (pf_query profile)) =? 0
      return denied ReasonDeniedOperation then
      let mismatch := ErrorString "query-shape discovery snapshot does not match policy" in
      match discovery with
      | None => Err mismatch
      | Some d =>
          match dc_document d with
          | None => Err mismatch
          | Some document =>
              if? negb (bool_decide (dc_owner d = sn_address s)) || negb (String.eqb (dc_profile d) (k_profile (ab_key binding))) ||
                  negb (String.eqb (dc_policyVersion d) (sn_version s)) || negb (String.eqb (dc_policyHash d) (sn_hash s)) ||
                  negb (String.eqb (dc_datasource d) (k_datasource (ab_key binding))) ||
                  negb (bool_decide (qd_owner document = sn_address s)) || negb (String.eqb (qd_profile document) (dc_profile d)) ||
                  (qd_shapeCount document =? 0) || (slen (qd_shapesPayload document) =? 0) ||
                  (slen (dc_envelopePrefix d) =? 0) || (dc_resultBytes d <=? 0)
              return mismatch then
              Ok {| ql_principal := ab_principal binding; ql_credentialIdentifier := credentialIdentifier;
                    ql_operation := OperationListQueryShapes; ql_discovery := Some d |}
          end
      end
  end.

(** ** What is published *)

(** A reviewed shape's source with the fields that it refers to. *)
Definition shape_scopes (profile : Profile) : list (ResourceRef * list string) :=
  map (fun shape => (sh_source shape, configuredAggregateShapeFields shape)) (AggregateShapes (pf_query profile)) ++
  map (fun shape => (ks_source shape, configuredKeysetShapeFields shape)) (KeysetSelectShapes (pf_query profile)).

(** Every resource and field of a shape is allowed. *)
Definition scope_allowed (resources : ResourcePolicy) (semantics : IdentifierSemantics) (x : ResourceRef * list string) : Prop :=
  resource_allowed resources x.1 semantics = true /\
  Forall (fun f => allowed (Fields resources) [r_schema x.1; r_name x.1; f] (field_semantics semantics) = true) x.2.

(** The scope holds what the shapes [l] refer to and nothing else. *)
Record scope_of (semantics : IdentifierSemantics) (l : list (ResourceRef * list string)) (sc : scope) : Prop := {
  so_resources : forall k r, sc_resourcesByKey sc !! k = Some r <->
    k = resource_key r /\ exists x, x ∈ l /\ r = canonical_resource semantics x.1;
  so_fields : forall k v, sc_fieldsByKey sc !! k = Some v <-> v = k /\ exists x f, x ∈ l /\ f ∈ x.2 /\ k = field_key semantics f;
}.

Lemma put_spec {V} keep (key : V -> string) (m : gmap string V) (v : V) :
  (forall w, m !! key v = Some w -> w = v) ->
  forall i w, put keep (key v) v m !! i = Some w <-> m !! i = Some w \/ i = key v /\ w = v.
Proof.
  intros Hm i w. unfold put. destruct (keep && _) eqn:E.
  - bool_prop. destruct E as [_ [u Hu]%bool_decide_eq_true]. rewrite (Hm _ Hu) in Hu. naive_solver.
  - rewrite lookup_insert_Some. destruct (decide (key v = i)) as [<-|]; [|naive_solver].
    split; [intros [[_ <-]|[? _]]; [by right|done]|]. intros [Hw%Hm|[_ ->]]; [subst|]; by left.
Qed.

Lemma scope_fields_ok keep resources source semantics fields m m' :
  (forall k v, m !! k = Some v -> v = k) ->
  iter (fun _ => scope_field keep resources source semantics) fields m = Ok m' ->
  Forall (fun f => allowed (Fields resources) [r_schema source; r_name source; f] (field_semantics semantics) = true) fields /\
  forall k v, m' !! k = Some v <-> m !! k = Some v \/ v = k /\ exists f, f ∈ fields /\ k = field_key semantics f.
Proof.
  unfold iter. generalize 0. revert m. induction fields as [|f fields IH]; intros m i Hm H; cbn [iter_from] in H.
  - injection H as <-. split; [constructor|]. intros k v. split; [by left|]. intros [?|(_ & f & Hf & _)]; [done|by apply elem_of_nil in Hf].
  - apply rbind_ok in H as (m1 & H1 & H). apply if_err_ok in H1 as [Ha [= <-]]. apply negb_false_iff in Ha.
    pose proof (put_spec keep (fun x => x) m (field_key semantics f) (Hm _)) as Hp. cbn in Hp.
    apply IH in H as [Hf Hk]; [|intros k v [Hv|[-> ->]]%Hp; [by apply Hm|done]].
    split; [by constructor|]. intros k v. rewrite Hk, Hp. setoid_rewrite elem_of_cons. naive_solver.
Qed.

Lemma canonical_no_nul value insensitive : is_identifier value = true -> no_byte (ascii_of_nat 0) (canonicalPolicyIdentifier value insensitive).
Proof. intros H. apply identifier_no_nul. unfold canonicalPolicyIdentifier. destruct insensitive; [by apply identifier_lower|done]. Qed.

Lemma resource_key_inj semantics a b : is_identifier (r_schema a) = true -> is_identifier (r_schema b) = true ->
  resource_key (canonical_resource semantics a) = resource_key (canonical_resource semantics b) ->
  canonical_resource semantics a = canonical_resource semantics b.
Proof.
  intros Ha Hb H. unfold resource_key, canonical_resource in *. cbn [qr_schema qr_object] in *.
  apply no_byte_app_inj in H as [-> H]; [|by apply canonical_no_nul..]. by rewrite H.
Qed.

Lemma scope_shape_ok keep resources semantics source fields l sc sc' :
  Forall (fun x => is_identifier (r_schema x.1) = true) l -> is_identifier (r_schema source) = true -> scope_of semantics l sc ->
  scope_shape keep resources semantics source fields sc = Ok sc' ->
  scope_allowed resources semantics (source, fields) /\ scope_of semantics (l ++ [(source, fields)]) sc'.
Proof.
  intros Hl Hi [Hr Hf] H. apply if_err_ok in H as [Ha%negb_false_iff H]. apply rbind_ok in H as (m' & Hm & [= <-]).
  apply scope_fields_ok in Hm as [Hall Hk]; [|by intros k v [-> _]%Hf]. split; [done|]. split; cbn [sc_resourcesByKey sc_fieldsByKey].
  - intros k r. rewrite put_spec.
    + rewrite Hr. setoid_rewrite elem_of_app. setoid_rewrite list_elem_of_singleton. naive_solver.
    + intros w (E & x & Hx & ->)%Hr. rewrite Forall_forall in Hl. symmetry in E. by apply resource_key_inj; [apply Hl| |].
  - intros k v. rewrite Hk, Hf. setoid_rewrite elem_of_app. setoid_rewrite list_elem_of_singleton. naive_solver.
Qed.

Section Published.
Context (sha256 : string -> string) (profile : Profile) (semantics : IdentifierSemantics).

Definition aggregate_scope (shape : AggregateShape) : ResourceRef * list string := (sh_source shape, configuredAggregateShapeFields shape).
Definition keyset_scope (shape : KeysetSelectShape) : ResourceRef * list string := (ks_source shape, configuredKeysetShapeFields shape).

Lemma public_aggregate_source shape public :
  buildPublicAggregateQueryShape sha256 shape semantics = Ok public -> is_identifier (r_schema (sh_source shape)) = true.
Proof. intros H. apply if_err_ok in H as [H _]. bool_prop. destruct H as [[_ H] _]. by apply IsIdentifier_iff. Qed.

Lemma public_keyset_source shape public :
  public_keyset sha256 shape semantics = Ok public -> is_identifier (r_schema (ks_source shape)) = true.
Proof. intros H. apply if_err_ok in H as [H _]. bool_prop. destruct H as [[[_ H] _] _]. by apply IsIdentifier_iff. Qed.

Lemma aggregates_ok shapes : forall i l sc publics sc' publics',
  Forall (fun x => is_identifier (r_schema x.1) = true) l -> scope_of semantics l sc ->
  iter_from (fun _ => document_aggregate sha256 profile semantics) i shapes (sc, publics) = Ok (sc', publics') ->
  Forall (fun shape => aggregateShapeFeaturesAllowed (pf_query profile) shape = true /\
    scope_allowed (pf_resources profile) semantics (aggregate_scope shape)) shapes /\
  Forall (fun x => is_identifier (r_schema x.1) = true) (l ++ map aggregate_scope shapes) /\
  scope_of semantics (l ++ map aggregate_scope shapes) sc' /\ len publics' = len publics + len shapes.
Proof.
  induction shapes as [|shape shapes IH]; intros i l sc publics sc' publics' Hl Hsc H; cbn [iter_from] in H.
  - injection H as <- <-. cbn. rewrite app_nil_r. split_and!; [constructor|done|done|rewrite len_nil; lia].
  - apply rbind_ok in H as ([sc1 p1] & H1 & H). apply if_err_ok in H1 as [Hf%negb_false_iff H1].
    apply rbind_ok in H1 as (sc2 & Hs & H1). apply rbind_ok in H1 as (public & Hp & [= -> <-]). cbn [fst snd] in *.
    pose proof (public_aggregate_source _ _ Hp) as Hi. apply (scope_shape_ok _ _ _ _ _ l) in Hs as [Ha Hsc1]; [|done..].
    apply (IH _ (l ++ [aggregate_scope shape])%list) in H as (Hall & Hid & Hsc' & Hn); [| |done].
    + rewrite <- !app_assoc in *. cbn in *. rewrite len_app, len_cons, len_nil in Hn. rewrite len_cons.
      split_and!; [by constructor|done|done|lia].
    + apply Forall_app. split; [done|]. by constructor; [|constructor].
Qed.

Lemma keysets_ok shapes : forall i l sc sc',
  Forall (fun x => is_identifier (r_schema x.1) = true) (l ++ map keyset_scope shapes) -> scope_of semantics l sc ->
  iter_from (fun _ shape => scope_shape false (pf_resources profile) semantics (ks_source shape) (configuredKeysetShapeFields shape)) i shapes sc = Ok sc' ->
  Forall (fun shape => scope_allowed (pf_resources profile) semantics (keyset_scope shape)) shapes /\
  scope_of semantics (l ++ map keyset_scope shapes) sc'.
Proof.
  induction shapes as [|shape shapes IH]; intros i l sc sc' Hl Hsc H; cbn [iter_from] in H.
  - injection H as <-. cbn. rewrite app_nil_r. by split.
  - cbn [map] in Hl. apply Forall_app in Hl as Hl'. destruct Hl' as [Hl1 [Hi Hl2]%Forall_cons].
    apply rbind_ok in H as (sc1 & Hs & H). apply (scope_shape_ok _ _ _ _ _ l) in Hs as [Ha Hsc1]; [|done..].
    apply (IH _ (l ++ [keyset_scope shape])%list) in H as [Hall Hsc']; [|by rewrite <- app_assoc|done].
    rewrite <- app_assoc in Hsc'. split; [by constructor|done].
Qed.
End Published.

Lemma scope_of_perm semantics l k sc : (forall x, x ∈ l <-> x ∈ k) -> scope_of semantics l sc -> scope_of semantics k sc.
Proof. intros H [Hr Hf]. split; [setoid_rewrite <- H|setoid_rewrite <- H]; done. Qed.

Lemma empty_scope semantics : scope_of semantics [] {| sc_resourcesByKey := ∅; sc_fieldsByKey := ∅ |}.
Proof. split; cbn; intros k v; rewrite lookup_empty; setoid_rewrite elem_of_nil; naive_solver. Qed.

(** The values of a map, sorted. *)
Lemma sorted_values_elem {V} (before : V -> V -> bool) (m : gmap string V) v :
  v ∈ sort_func before (map snd (map_to_list m)) <-> exists k, m !! k = Some v.
Proof.
  rewrite sort_func_perm, list_elem_of_fmap. setoid_rewrite <- (elem_of_map_to_list m). split.
  - intros ([k w] & -> & H). by exists k.
  - intros [k H]. by exists (k, v).
Qed.

Lemma sorted_values_NoDup {V} (before : V -> V -> bool) (key : V -> string) (m : gmap string V) :
  (forall k v, m !! k = Some v -> k = key v) -> NoDup (sort_func before (map snd (map_to_list m))).
Proof.
  intros H. rewrite sort_func_perm. apply (NoDup_fmap_1 key).
  assert (key <$> map snd (map_to_list m) = (map_to_list m).*1) as ->; [|apply NoDup_fst_map_to_list].
  change (map snd (map_to_list m)) with ((map_to_list m).*2). rewrite <- list_fmap_compose. apply list_fmap_ext.
  intros i [k v] Hi. cbn. symmetry. apply H. apply elem_of_map_to_list. by eapply list_elem_of_lookup_2.
Qed.

(** *** What shapes refer to, by their structure *)

(** [p] is a predicate somewhere in the filter. *)
Inductive predicate_in (p : ShapeFilter) : ShapeFilter -> Prop :=
| predicate_itself : sf_kind p = "predicate" -> predicate_in p p
| predicate_below f g : sf_kind f <> "predicate" -> g ∈ sf_expressions f -> predicate_in p g -> predicate_in p f.

Definition filters_by (filter : option ShapeFilter) (p : ShapeFilter) : Prop := exists f, filter = Some f /\ predicate_in p f.

(** Every feature that an aggregate shape uses is allowed. *)
Record features_permitted (policy : QueryPolicy) (shape : AggregateShape) : Prop := {
  fp_grouping : sh_mode shape = AggregateModeGrouped -> AllowGroupBy policy = true;
  fp_sorting : default [] (sh_order_by shape) <> [] -> AllowSorting policy = true;
  fp_functions : forall output, output ∈ sh_projection shape -> so_kind output = "measure" ->
    (if String.eqb (so_function output) "count_all" then "count" else so_function output) ∈ AllowedAggregates policy;
  fp_filtering : is_Some (sh_filter shape) -> AllowFiltering policy = true;
  fp_operators : forall p, filters_by (sh_filter shape) p -> sf_operator p ∈ AllowedFilterOperators policy;
}.

Definition aggregate_refers (shape : AggregateShape) (field : string) : Prop :=
  field <> EmptyString /\ (exists output, output ∈ sh_projection shape /\ so_field output = field) \/
  (exists p, filters_by (sh_filter shape) p /\ sf_field p = field) \/
  field <> EmptyString /\ (exists order, order ∈ default [] (sh_order_by shape) /\ sd_kind order = "dimension" /\ sd_field order = field).

Definition keyset_refers (shape : KeysetSelectShape) (field : string) : Prop :=
  (exists output, output ∈ ks_projection shape /\ kp_field output = field) \/
  (exists p, filters_by (ks_filter shape) p /\ sf_field p = field) \/
  (exists order, order ∈ ks_order_by shape /\ ko_field order = field).

(** A shape of the profile reads from [source], and refers to a field of it. *)
Definition profile_source (profile : Profile) (source : ResourceRef) : Prop :=
  (exists shape, shape ∈ AggregateShapes (pf_query profile) /\ sh_source shape = source) \/
  (exists shape, shape ∈ KeysetSelectShapes (pf_query profile) /\ ks_source shape = source).
Definition profile_field (profile : Profile) (source : ResourceRef) (field : string) : Prop :=
  (exists shape, shape ∈ AggregateShapes (pf_query profile) /\ sh_source shape = source /\ aggregate_refers shape field) \/
  (exists shape, shape ∈ KeysetSelectShapes (pf_query profile) /\ ks_source shape = source /\ keyset_refers shape field).

Definition folded (insensitive : bool) (name : string) : string := if insensitive then to_lower name else name.

(** What the document of a profile says of it. *)
Record document_of (s : Snapshot) (profileName : string) (semantics : IdentifierSemantics) (profile : Profile)
    (d : QueryShapeDocument) : Prop := {
  do_features : Forall (features_permitted (pf_query profile)) (AggregateShapes (pf_query profile));
  do_sources : forall source, profile_source profile source ->
    permits (Schemas (pf_resources profile)) [r_schema source] (schema_semantics semantics) /\
    permits (Objects (pf_resources profile)) [r_schema source; r_name source] (object_semantics semantics);
  do_permitted : forall source field, profile_field profile source field ->
    permits (Fields (pf_resources profile)) [r_schema source; r_name source; field] (field_semantics semantics);
  do_resources : forall r, r ∈ qd_resources d <-> exists source, profile_source profile source /\
    r = {| qr_schema := folded (CaseInsensitiveSchemas semantics) (r_schema source);
           qr_object := folded (CaseInsensitiveObjects semantics) (r_name source) |};
  do_resources_once : NoDup (qd_resources d);
  do_fields : forall f, f ∈ qd_fields d <-> exists source field, profile_field profile source field /\
    f = folded (CaseInsensitiveFields semantics) field;
  do_fields_sorted : NoDup (qd_fields d) /\ StronglySorted (fun a b => bytes_le a b = true) (qd_fields d);
  do_count : qd_shapeCount d = len (AggregateShapes (pf_query profile)) + len (KeysetSelectShapes (pf_query profile));
  do_identity : qd_owner d = sn_address s /\ qd_profile d = profileName /\ qd_semantics d = semantics;
}.

Lemma filter_fields_exact x f : In x (filter_fields f) <-> exists p, predicate_in p f /\ sf_field p = x.
Proof.
  induction f as [r k fl o vs es IH] using ShapeFilter_ind'. cbn [filter_fields sf_kind sf_field sf_expressions].
  destruct (String.eqb_spec k "predicate") as [->|Hk].
  - split; [intros [<-|[]]; eexists; by split; [apply predicate_itself|]|]. intros (p & Hp & <-). left. by inversion Hp.
  - rewrite in_flat_map. rewrite Forall_forall in IH. split.
    + intros (g & Hg%list_elem_of_In & Hx). apply (IH g Hg) in Hx as (p & Hp & <-). exists p. split; [|done].
      by apply (predicate_below p (MkShapeFilter r k fl o vs es) g).
    + intros (p & Hp & <-). inversion Hp as [|? g ? Hg Hp']; subst; [done|]. exists g. cbn in Hg. split; [by apply list_elem_of_In|].
      apply IH; [done|]. by exists p.
Qed.

Lemma allowed_shape_filter_exact policy f :
  allowed_shape_filter policy f = true <-> forall p, predicate_in p f -> sf_operator p ∈ AllowedFilterOperators policy.
Proof.
  induction f as [r k fl o vs es IH] using ShapeFilter_ind'. cbn [allowed_shape_filter sf_kind sf_operator sf_expressions].
  destruct (String.eqb_spec k "predicate") as [->|Hk].
  - rewrite contains_In, <- list_elem_of_In. split; [intros H p Hp; by inversion Hp|]. intros H.
    apply (H (MkShapeFilter r "predicate" fl o vs es)). by apply predicate_itself.
  - rewrite forallb_forall. rewrite Forall_forall in IH. split.
    + intros H p Hp. inversion Hp as [|? g ? Hg Hp']; subst; [done|]. cbn in Hg. by apply (IH g Hg); [apply H, list_elem_of_In|].
    + intros H g Hg%list_elem_of_In. apply IH; [done|]. intros p Hp. apply H. by apply (predicate_below p (MkShapeFilter r k fl o vs es) g).
Qed.

Lemma shape_filter_fields_exact x filter : In x (shape_filter_fields filter) <-> exists p, filters_by filter p /\ sf_field p = x.
Proof.
  unfold shape_filter_fields, filters_by. destruct filter as [f|]; cbn [from_option]; [rewrite filter_fields_exact; naive_solver|naive_solver].
Qed.

Lemma features_exact policy shape : aggregateShapeFeaturesAllowed policy shape = true <-> features_permitted policy shape.
Proof.
  unfold aggregateShapeFeaturesAllowed. split.
  - intros H. destruct (_ || _) eqn:E1 in H; [done|]. destruct (negb (forallb _ _)) eqn:E2 in H; [done|].
    apply orb_false_iff in E1 as [Eg Es]. apply negb_false_iff in E2. rewrite forallb_forall in E2. split.
    + intros Hm. rewrite Hm, String.eqb_refl in Eg. by apply negb_false_iff in Eg.
    + intros Hne. destruct (len _ =? 0) eqn:E in Es; [by apply len_zero in E|]. by apply negb_false_iff in Es.
    + intros output Ho%list_elem_of_In Hk. specialize (E2 output Ho). rewrite Hk, String.eqb_refl in E2. by apply list_elem_of_In, contains_In.
    + intros [f Hf]. rewrite Hf in H. by destruct (AllowFiltering policy).
    + intros p (f & Hf & Hp). rewrite Hf in H. destruct (AllowFiltering policy); [|done]. by apply (allowed_shape_filter_exact policy f).
  - intros [Hg Hs Ha Hf Ho].
    assert (E1 : (String.eqb (sh_mode shape) AggregateModeGrouped && negb (AllowGroupBy policy)) ||
      (negb (len (default [] (sh_order_by shape)) =? 0) && negb (AllowSorting policy)) = false).
    { apply orb_false_iff. split.
      - destruct (String.eqb_spec (sh_mode shape) AggregateModeGrouped) as [E|]; [|done]. by rewrite Hg.
      - destruct (len _ =? 0) eqn:E; [done|]. rewrite Hs; [done|]. intros En. by rewrite En in E. }
    rewrite E1.
    assert (E2 : forallb (fun output => negb (String.eqb (so_kind output) "measure") ||
      contains (AllowedAggregates policy) (shape_function output)) (sh_projection shape) = true).
    { apply forallb_forall. intros output Hout%list_elem_of_In. destruct (String.eqb_spec (so_kind output) "measure") as [E|]; [|done].
      by apply contains_In, list_elem_of_In, Ha. }
    rewrite E2. cbn [negb]. destruct (sh_filter shape) as [f|]; [|done]. rewrite Hf by done. cbn [negb].
    apply allowed_shape_filter_exact. intros p Hp. apply Ho. by exists f.
Qed.

Lemma string_set_In x l : In x (string_set l) <-> In x l.
Proof.
  unfold string_set. assert (H : forall acc, In x (fold_left (fun acc field => insert_field field acc) l acc) <-> In x acc \/ In x l).
  { induction l as [|y l IH]; intros acc; cbn [fold_left]; [cbn; tauto|]. rewrite IH, insert_field_In. cbn. intuition congruence. }
  rewrite H. cbn. tauto.
Qed.

Lemma aggregate_fields_exact shape x : x ∈ configuredAggregateShapeFields shape <-> aggregate_refers shape x.
Proof.
  unfold configuredAggregateShapeFields, aggregate_refers.
  rewrite list_elem_of_In, string_set_In, !in_app_iff, shape_filter_fields_exact, List.filter_In, !in_map_iff, nonempty_true.
  setoid_rewrite List.filter_In. setoid_rewrite andb_true_iff. setoid_rewrite String.eqb_eq. setoid_rewrite nonempty_true.
  setoid_rewrite list_elem_of_In. naive_solver.
Qed.

Lemma keyset_fields_exact shape x : x ∈ configuredKeysetShapeFields shape <-> keyset_refers shape x.
Proof.
  unfold configuredKeysetShapeFields, keyset_refers.
  rewrite list_elem_of_In, compact_In, sort_func_In, !in_app_iff, shape_filter_fields_exact, !in_map_iff.
  setoid_rewrite list_elem_of_In. naive_solver.
Qed.

Lemma profile_source_scopes profile source : profile_source profile source <-> exists x, x ∈ shape_scopes profile /\ x.1 = source.
Proof.
  unfold profile_source, shape_scopes. setoid_rewrite elem_of_app. setoid_rewrite list_elem_of_In. setoid_rewrite in_map_iff. split.
  - intros [(shape & Hs & <-)|(shape & Hs & <-)].
    + exists (aggregate_scope shape). split; [left; by exists shape|done].
    + exists (keyset_scope shape). split; [right; by exists shape|done].
  - intros (x & [(shape & <- & Hs)|(shape & <- & Hs)] & <-); [left|right]; by exists shape.
Qed.

Lemma profile_field_scopes profile source field :
  profile_field profile source field <-> exists x, x ∈ shape_scopes profile /\ x.1 = source /\ field ∈ x.2.
Proof.
  unfold profile_field, shape_scopes. setoid_rewrite elem_of_app. setoid_rewrite <- aggregate_fields_exact. setoid_rewrite <- keyset_fields_exact.
  setoid_rewrite list_elem_of_In. setoid_rewrite in_map_iff. split.
  - intros [(shape & Hs & <- & Hf)|(shape & Hs & <- & Hf)].
    + exists (aggregate_scope shape). split; [left; by exists shape|done].
    + exists (keyset_scope shape). split; [right; by exists shape|done].
  - intros (x & [(shape & <- & Hs)|(shape & <- & Hs)] & <- & Hf); [left|right]; by exists shape.
Qed.

Lemma document_built sha256 s profileName semantics d : BuildQueryShapeDocument sha256 s profileName semantics = Ok d ->
  exists profile, sn_profiles s !! profileName = Some profile /\ publishes profile = true /\ document_of s profileName semantics profile d.
Proof.
  unfold BuildQueryShapeDocument. destruct (sn_profiles s !! profileName) as [profile|]; [|done]. intros H.
  apply if_err_ok in H as [Hpub%negb_false_iff H]. exists profile. split_and!; [done|done|].
  apply rbind_ok in H as ([sc publics] & Ha & H). apply rbind_ok in H as (keysets & Hk & H). apply rbind_ok in H as (sc' & Hs & H).
  apply rbind_ok in H as ([payload hash] & _ & [= <-]).
  apply (aggregates_ok sha256 profile semantics _ 0 []) in Ha as (Hall & Hid & Hsc & Hn); [|constructor|apply empty_scope].
  set (sorted := sort_func _ (AggregateShapes (pf_query profile))) in *. cbn [app] in *.
  assert (Hperm : sorted ≡ₚ AggregateShapes (pf_query profile)) by apply sort_func_perm.
  apply results_iff in Hk.
  assert (Hks : Forall (fun shape => is_identifier (r_schema (ks_source shape)) = true) (KeysetSelectShapes (pf_query profile))).
  { rewrite <- (sort_func_perm (fun a b => bytes_le (ks_name a) (ks_name b))). clear - Hk. induction Hk; constructor; [by eapply public_keyset_source|done]. }
  apply (keysets_ok profile semantics _ 0 (map aggregate_scope sorted)) in Hs as [Hkall Hsc']; [| |done].
  2: { apply Forall_app. split; [done|]. by apply Forall_map. }
  assert (Hin : forall x, x ∈ (map aggregate_scope sorted ++ map keyset_scope (KeysetSelectShapes (pf_query profile)))%list <-> x ∈ shape_scopes profile).
  { intros x. unfold shape_scopes. rewrite !elem_of_app. by rewrite (Permutation_map aggregate_scope Hperm). }
  apply (scope_of_perm _ _ _ _ Hin) in Hsc' as [Hres Hfld].
  rewrite Forall_and in Hall. rewrite Hperm in Hall. destruct Hall as [Hfeat Hallowed].
  assert (Hpermitted : Forall (scope_allowed (pf_resources profile) semantics) (shape_scopes profile)) by (apply Forall_app; split; by apply Forall_map).
  rewrite Forall_forall in Hpermitted.
  split; cbn [qd_resources qd_fields qd_shapeCount qd_owner qd_profile qd_semantics].
  - eapply Forall_impl; [exact Hfeat|]. intros shape. apply features_exact.
  - intros source (x & Hx & <-)%profile_source_scopes. destruct (Hpermitted x Hx) as [Ha _].
    unfold resource_allowed in Ha. by rewrite andb_true_iff, !allowed_iff in Ha.
  - intros source field (x & Hx & <- & Hf)%profile_field_scopes. destruct (Hpermitted x Hx) as [_ Ha]. rewrite Forall_forall in Ha.
    by apply allowed_iff, Ha.
  - intros r. rewrite sorted_values_elem. setoid_rewrite Hres. setoid_rewrite profile_source_scopes. unfold canonical_resource. naive_solver.
  - apply (sorted_values_NoDup _ resource_key). intros k r [H _]%Hres. done.
  - intros f. rewrite sorted_values_elem. setoid_rewrite Hfld. setoid_rewrite profile_field_scopes. unfold field_key. naive_solver.
  - split; [apply (sorted_values_NoDup _ (fun x => x)); by intros k v [-> _]%Hfld|].
    apply sort_func_sorted; [apply String.leb_total|intros ???; apply leb_trans].
  - rewrite Hn. unfold sorted. assert (len sorted = len (AggregateShapes (pf_query profile))) as Hlen by (unfold len; by rewrite Hperm).
    fold sorted. rewrite Hlen. assert (len keysets = len (KeysetSelectShapes (pf_query profile))); [|rewrite len_nil; lia].
    unfold len. rewrite <- (Forall2_length _ _ _ Hk). by rewrite sort_func_perm.
  - done.
Qed.

(** C24: What a profile discloses through its query shapes stays within its
    policy: a document is built only for a profile that publishes its shapes; grouping,
    sorting, filtering, every function and every operator of an aggregate shape is one that
    the profile allows; the schema, object and every field that any shape selects, filters
    by or orders by is permitted under the identifier semantics; and the resources and fields
    that the document reports (and that the audit records) are exactly those of the
    shapes, in canonical form and each once. *)
Theorem document_within_policy sha256 s profileName semantics d :
  BuildQueryShapeDocument sha256 s profileName semantics = Ok d ->
  exists profile, sn_profiles s !! profileName = Some profile /\ publishes profile = true /\
    document_of s profileName semantics profile d.
Proof. intros H. by apply (document_built sha256). Qed.

(** ** Listing *)

Lemma discovery_built sha256 s profileName datasource adapter semantics d :
  BuildQueryShapeDiscovery sha256 s profileName datasource adapter semantics = Ok d ->
  exists documents document, BuildQueryShapeDocument sha256 s profileName semantics = Ok document /\
    dc_document d = Some document /\ qd_semantics document = semantics /\
    qd_shapesPayload document = marshal (JArr documents) /\ qd_shapeCount document = len documents /\ 0 < len documents /\
    dc_datasource d = datasource /\ dc_adapter d = adapter /\ dc_profile d = profileName /\ dc_policyVersion d = sn_version s /\
    dc_envelopePrefix d = envelope_prefix profileName (sn_version s) datasource adapter /\
    dc_resultBytes d = slen (dc_envelopePrefix d) + slen (qd_shapesPayload document) + 1 /\
    dc_resultBytes d <= MaxResultBytes (dc_limits d).
Proof.
  intros H. apply rbind_ok in H as (doc & Hd & H). pose proof Hd as Hdocument. unfold BuildQueryShapeDocument in Hd. unfold BuildQueryShapeDiscoveryFromDocument in H.
  destruct (sn_profiles s !! profileName) as [profile|]; [|done]. apply if_err_ok in Hd as [_ Hd].
  apply rbind_ok in Hd as ([sc publics] & _ & Hd). apply rbind_ok in Hd as (keysets & _ & Hd). apply rbind_ok in Hd as (sc' & _ & Hd).
  apply rbind_ok in Hd as ([payload hash] & He & [= <-]). apply encodeQueryShapeDocument_ok in He as (js & _ & -> & Hn & Hpos).
  apply if_err_ok in H as [_ H]. apply if_err_ok in H as [_ H]. apply if_err_ok in H as [_ H].
  cbn [qd_shapesPayload qd_semantics] in H. rewrite encodeQueryShapeEnvelope_exact in H by apply slen_nonneg. cbn zeta in H.
  set (prefix := envelope_prefix _ _ _ _) in *. remember (marshal (JArr js)) as text eqn:Ht.
  destruct (Z.ltb_spec (MaxResultBytes (Limits_Min (sn_hardLimits s) (pf_limits profile))) (slen prefix + slen text + 1)) as [|Hle]; [done|].
  cbn [rbind] in H. injection H as <-. eexists js, _. split; [exact Hdocument|]. split; [reflexivity|]. cbn. split_and!; try done; lia.
Qed.

(** An authorized listing of query shapes always yields the document that
    was published: for a discovery snapshot that the policy built, the payload is
    the JSON of the envelope with the snapshot's shapes, exactly as long as the
    byte count that was audited before, and within the effective result limit. *)
Theorem listing_is_published sha256 s profileName datasource adapter semantics d binding credential a :
  BuildQueryShapeDiscovery sha256 s profileName datasource adapter semantics = Ok d ->
  AuthorizeQueryShapeList s binding credential (Some d) = Ok a ->
  ab_key binding = {| k_profile := profileName; k_datasource := datasource |} /\
  MatchesSemantics d semantics = true /\
  exists document documents,
    BuildQueryShapeDocument sha256 s profileName semantics = Ok document /\ ql_document a = Some document /\
    qd_shapesPayload document = marshal (JArr documents) /\
    ResponsePayload a = Ok (marshal (envelope_json profileName (sn_version s) datasource adapter (JArr documents))) /\
    slen (marshal (envelope_json profileName (sn_version s) datasource adapter (JArr documents))) = ResultBytes a /\
    ResultBytes a <= MaxResultBytes (ql_limits a) /\ ShapeCount a = len documents.
Proof.
  intros Hd Ha. apply discovery_built in Hd as (js & doc & Hbuilt & Hdoc & Hsem & Hp & Hc & Hpos & Hds & Had & Hpr & Hv & He & Hb & Hle).
  unfold AuthorizeQueryShapeList in Ha. rewrite Hdoc in Ha. apply if_err_ok in Ha as [_ Ha].
  destruct (profileForBinding _ _ _) as [profile|]; [|done]. apply if_err_ok in Ha as [_ Ha]. apply if_err_ok in Ha as [Hg [= <-]].
  bool_prop. destruct_and! Hg. split; [destruct (ab_key binding); cbn in *; congruence|].
  split; [unfold MatchesSemantics; rewrite Hdoc; by apply bool_decide_eq_true|].
  exists doc, js. split; [exact Hbuilt|]. split; [unfold ql_document; cbn; exact Hdoc|]. split; [exact Hp|]. rewrite <- envelope_text, <- Hp, <- He.
  assert (Hlen : slen (dc_envelopePrefix d +:+ qd_shapesPayload doc +:+ "}") = dc_resultBytes d) by (rewrite Hb, !slen_app; change (slen "}") with 1; lia).
  unfold ResponsePayload, ResultBytes, ql_limits, ShapeCount, ql_document. cbn [ql_discovery ql_operation from_option mbind option_bind].
  rewrite Hdoc. cbn [from_option]. split_and!; [|done|done|done].
  rewrite Hlen, Z.eqb_refl. pose proof (slen_nonneg (qd_shapesPayload doc)). pose proof (slen_nonneg (dc_envelopePrefix d)).
  replace (qd_shapeCount doc =? 0) with false by lia. replace (dc_resultBytes d <=? 0) with false by lia.
  replace (MaxResultBytes (dc_limits d) <? dc_resultBytes d) with false by lia. done.
Qed.

(** ** An example *)

Definition published_profile : Profile := {|
  pf_datasources := ["main"]; pf_operations := [OperationListQueryShapes; OperationAggregate; OperationSelectKeyset];
  pf_resources := pf_resources keyset_profile;
  pf_query := {| AllowSourceText := false; AllowFiltering := true; AllowGroupBy := true; AllowSorting := true;
                 AllowedFilterOperators := ["gt"; "eq"]; AllowedAggregates := ["sum"; "count"];
                 AggregateShapes := [reviewed_shape]; KeysetSelectShapes := [page_shape] |};
  pf_limits := some_limits |}.

Definition published_snapshot : Snapshot := {|
  sn_address := 1; sn_version := "v1"; sn_hash := "h1"; sn_hardLimits := some_limits;
  sn_principals := sn_principals example_snapshot; sn_profiles := {[ "reader" := published_profile ]} |}.

Definition listing_binding : AuthorizedBinding :=
  minted published_snapshot "alice" "reader" "main" OperationListQueryShapes published_profile.

Definition zero_document : QueryShapeDocument := {|
  qd_owner := 1; qd_profile := EmptyString; qd_semantics := no_semantics; qd_shapeSetHash := EmptyString;
  qd_shapesPayload := EmptyString; qd_resources := []; qd_fields := []; qd_shapeCount := 0 |}.

Definition zero_discovery : QueryShapeDiscovery := {|
  dc_owner := 1; dc_profile := EmptyString; dc_policyVersion := EmptyString; dc_policyHash := EmptyString;
  dc_datasource := EmptyString; dc_adapter := EmptyString; dc_generation := EmptyString; dc_limits := zero_limits;
  dc_document := None; dc_envelopePrefix := EmptyString; dc_resultBytes := 0 |}.

Definition value_of {A} (otherwise : A) (r : result A) : A := match r with Ok a => a | Err _ => otherwise end.

Definition example_published : QueryShapeDocument :=
  value_of zero_document (BuildQueryShapeDocument srev published_snapshot "reader" insensitive).
Definition example_discovery : QueryShapeDiscovery :=
  value_of zero_discovery (BuildQueryShapeDiscovery srev published_snapshot "reader" "main" "mysql8" insensitive).
Definition example_listing : AuthorizedQueryShapeList :=
  value_of {| ql_principal := EmptyString; ql_credentialIdentifier := EmptyString; ql_operation := EmptyString; ql_discovery := None |}
    (AuthorizeQueryShapeList published_snapshot listing_binding "basic" (Some example_discovery)).

Example example_scope : (map qr_schema (qd_resources example_published), qd_fields example_published, qd_shapeCount example_published) =
  (["shop"], ["at"; "id"; "state"; "total"], 2).
Proof. vm_compute. reflexivity. Qed.

Lemma document_within_policy_witness :
  exists profile, sn_profiles published_snapshot !! "reader" = Some profile /\ publishes profile = true /\
    document_of published_snapshot "reader" insensitive profile example_published.
Proof. apply (document_within_policy srev). vm_compute. reflexivity. Defined.

Lemma listing_is_published_witness :
  ab_key listing_binding = {| k_profile := "reader"; k_datasource := "main" |} /\
  MatchesSemantics example_discovery insensitive = true /\
  exists document documents,
    BuildQueryShapeDocument srev published_snapshot "reader" insensitive = Ok document /\ ql_document example_listing = Some document /\
    qd_shapesPayload document = marshal (JArr documents) /\
    ResponsePayload example_listing = Ok (marshal (envelope_json "reader" "v1" "main" "mysql8" (JArr documents))) /\
    slen (marshal (envelope_json "reader" "v1" "main" "mysql8" (JArr documents))) = ResultBytes example_listing /\
    ResultBytes example_listing <= MaxResultBytes (ql_limits example_listing) /\ ShapeCount example_listing = len documents.
Proof.
  apply (listing_is_published srev published_snapshot "reader" "main" "mysql8" insensitive example_discovery listing_binding "basic" example_listing);
    vm_compute; reflexivity.
Defined.
