(* ===== verification/AuditEvents.v ===== *)
(** Audit events (internal/audit/audit.go: the event and its JSON) and the size that
    the query service counts for an event before it may ever be written
    (internal/queryservice/query_shapes_audit_size.go): the count is that of the JSON. *)
From S2P Require Import Prelude Domain GoJson Number Portable Values QuerySpec Config Policy Sql Rows Aggregate AggregateNormal NumericBucket SqlAggregate PolicyAggregate PolicyKeyset PublicShapes ShapeSizes ShapeDocument.
Local Open Scope string_scope.
Local Open Scope Z_scope.

(** ** Events *)

Record Resource := { re_schema : string; re_object : string }.

(** A value of [Metadata map[string]any]: [MetaInt] stands for [int] and [int64],
    [MetaOther] for a value of any other type, as the JSON it prints. *)
Inductive metadata := MetaBool (b : bool) | MetaInt (z : Z) | MetaString (s : string) | MetaOther (j : json).

(** [ev_timestamp] is the RFC 3339 text of the time, and [ev_duration_ms] is [None]
    for a nil pointer. *)
Record Event := {
  ev_timestamp : string; ev_type : string; ev_request_id : string; ev_query_id : string; ev_principal : string;
  ev_client_identifier : string; ev_policy_profile : string; ev_policy_version : string; ev_policy_hash : string;
  ev_datasource : string; ev_adapter : string; ev_operation : string; ev_decision : string; ev_reason_code : string;
  ev_outcome : string; ev_error_kind : string; ev_duration_ms : option Z; ev_result_bytes : Z;
  ev_query_shape_hash : string; ev_public_shape_set_hash : string; ev_shape_count : Z;
  ev_requested_profile_hash : string; ev_requested_profile_bytes : Z; ev_requested_datasource_hash : string;
  ev_requested_datasource_bytes : Z; ev_resources : list Resource; ev_fields : list string;
  ev_metadata : gmap string metadata;
}.

Definition audit_resource_json (r : Resource) : json :=
  struct_json [text_field "schema" (re_schema r); (nonempty (re_object r), "object", JStr (re_object r))].

Definition metadata_json (m : metadata) : json :=
  match m with MetaBool b => JBool b | MetaInt z => JInt z | MetaString s => JStr s | MetaOther j => j end.

(** The members of a map in the order of their keys, as [encoding/json] prints them. *)
Definition sorted_members {V} (m : gmap string V) : list (string * V) :=
  sort_func (fun a b => bytes_le a.1 b.1) (map_to_list m).

Definition omit_text_field (k v : string) : field_of := (nonempty v, k, JStr v).
Definition omit_int_field (k : string) (z : Z) : field_of := (negb (z =? 0), k, JInt z).

Definition event_fields (e : Event) : list field_of :=
  [text_field "timestamp" (ev_timestamp e); text_field "type" (ev_type e); text_field "request_id" (ev_request_id e);
   omit_text_field "query_id" (ev_query_id e); omit_text_field "principal" (ev_principal e);
   omit_text_field "client_identifier" (ev_client_identifier e); omit_text_field "policy_profile" (ev_policy_profile e);
   text_field "policy_version" (ev_policy_version e); text_field "policy_hash" (ev_policy_hash e);
   omit_text_field "datasource" (ev_datasource e); omit_text_field "adapter" (ev_adapter e);
   omit_text_field "operation" (ev_operation e); omit_text_field "decision" (ev_decision e);
   omit_text_field "reason_code" (ev_reason_code e); omit_text_field "outcome" (ev_outcome e);
   omit_text_field "error_kind" (ev_error_kind e);
   (bool_decide (is_Some (ev_duration_ms e)), "duration_ms", JInt (default 0 (ev_duration_ms e)));
   omit_int_field "result_bytes" (ev_result_bytes e); omit_text_field "query_shape_hash" (ev_query_shape_hash e);
   omit_text_field "public_shape_set_hash" (ev_public_shape_set_hash e); omit_int_field "shape_count" (ev_shape_count e);
   omit_text_field "requested_profile_hash" (ev_requested_profile_hash e);
   omit_int_field "requested_profile_bytes" (ev_requested_profile_bytes e);
   omit_text_field "requested_datasource_hash" (ev_requested_datasource_hash e);
   omit_int_field "requested_datasource_bytes" (ev_requested_datasource_bytes e);
   (negb (len (ev_resources e) =? 0), "resources", JArr (map audit_resource_json (ev_resources e)));
   (negb (len (ev_fields e) =? 0), "fields", JArr (map JStr (ev_fields e)));
   (negb (bool_decide (ev_metadata e = ∅)), "metadata",
     JObj (map (fun kv => (kv.1, metadata_json kv.2)) (sorted_members (ev_metadata e))))].

Definition event_json (e : Event) : json := struct_json (event_fields e).

(** ** The counter

    [boundedJSONSize] has the fields of [boundedSize]: the size, the maximum and
    whether everything fitted so far. *)
Definition newBoundedJSONSize (maximum : Z) : boundedSize := newBoundedSize maximum.

Definition counter_add (size : Z) (c : boundedSize) : boundedSize :=
  if negb (bs_ok c) then c
  else if (size <? 0) || (bs_maximum c - bs_value c <? size)
  then {| bs_value := bs_value c; bs_maximum := bs_maximum c; bs_ok := false |}
  else {| bs_value := bs_value c + size; bs_maximum := bs_maximum c; bs_ok := bs_ok c |}.

(** The loop stops when the bytes no longer fit. *)
Fixpoint count_runes (l : list rune) (c : boundedSize) : boundedSize :=
  match l with
  | [] => c
  | r :: l' => if negb (bs_ok c) then c else count_runes l' (counter_add (rune_encoded_bytes r) c)
  end.

Definition counter_string (value : string) (c : boundedSize) : boundedSize :=
  let c := counter_add 2 c in if negb (bs_ok c) then c else count_runes (runes value) c.

(** The counter with the flag [first] of the object it is in. *)
Definition object_field (name : string) (st : boundedSize * bool) : boundedSize * bool :=
  let '(c, first) := st in
  if negb (bs_ok c) then (c, first)
  else (counter_add 1 (counter_string name (if first then c else counter_add 1 c)), false).

(** The digits of a [uint64]; twenty are enough. *)
Fixpoint count_digits (fuel : nat) (magnitude size : Z) : Z :=
  match fuel with
  | O => size
  | S fuel' => if magnitude =? 0 then size else count_digits fuel' (Z.quot magnitude 10) (size + 1)
  end.

Definition u64 (z : Z) : Z := z mod 2 ^ 64.

Definition jsonIntegerSize (value : Z) : Z :=
  if value =? 0 then 1
  else if value <? 0 then count_digits 20 (u64 (u64 (- (value + 1)) + 1)) 1
  else count_digits 20 (u64 value) 0.

Definition counter_integer (value : Z) : boundedSize -> boundedSize := counter_add (jsonIntegerSize value).

Definition on_counter (f : boundedSize -> boundedSize) (st : boundedSize * bool) : boundedSize * bool := (f st.1, st.2).

(** The closures [addStringField] and [addIntegerField]. *)
Definition addStringField (name value : string) (omitEmpty : bool) (st : boundedSize * bool) : boundedSize * bool :=
  if omitEmpty && negb (nonempty value) then st else on_counter (counter_string value) (object_field name st).
Definition addIntegerField (name : string) (value : Z) (omitEmpty : bool) (st : boundedSize * bool) : boundedSize * bool :=
  if omitEmpty && (value =? 0) then st else on_counter (counter_integer value) (object_field name st).

(** A loop over a slice that stops when the bytes no longer fit. *)
Fixpoint count_each_from {A} (item : A -> boundedSize -> boundedSize) (index : Z) (l : list A) (c : boundedSize) : boundedSize :=
  match l with
  | [] => c
  | x :: l' =>
      if negb (bs_ok c) then c
      else count_each_from item (index + 1) l' (item x (if index =? 0 then c else counter_add 1 c))
  end.

Definition count_resource (r : Resource) (c : boundedSize) : boundedSize :=
  let st := on_counter (counter_string (re_schema r)) (object_field "schema" (counter_add 1 c, true)) in
  let st := if nonempty (re_object r) then on_counter (counter_string (re_object r)) (object_field "object" st) else st in
  counter_add 1 st.1.

Definition count_array {A} (item : A -> boundedSize -> boundedSize) (name : string) (l : list A) (st : boundedSize * bool)
  : boundedSize * bool :=
  if len l =? 0 then st
  else on_counter (fun c => counter_add 1 (count_each_from item 0 l (counter_add 1 c))) (object_field name st).

Definition unsupported_metadata : goerr := ErrorString "audit preflight encountered unsupported metadata".

Definition count_member (_ : Z) (kv : string * metadata) (st : boundedSize * bool) : result (boundedSize * bool) :=
  let st := object_field kv.1 st in
  match kv.2 with
  | MetaBool b => Ok (on_counter (counter_add (if b then 4 else 5)) st)
  | MetaInt z => Ok (on_counter (counter_integer z) st)
  | MetaString s => Ok (on_counter (counter_string s) st)
  | MetaOther _ => Err unsupported_metadata
  end.

Definition count_metadata (m : gmap string metadata) (st : boundedSize * bool) : result (boundedSize * bool) :=
  if bool_decide (m = ∅) then Ok st
  else
    let st := object_field "metadata" st in
    let? st' := iter count_member (sorted_members m) (counter_add 1 st.1, true) in
    Ok (counter_add 1 st'.1, st.2).

(** [MarshalJSON] of the time. *)
Definition timestamp_json (timestamp : string) : string := marshal (JStr timestamp).

Definition count_event (e : Event) (c : boundedSize) : result (boundedSize * bool) :=
  let st := on_counter (counter_add (slen (timestamp_json (ev_timestamp e)))) (object_field "timestamp" (counter_add 1 c, true)) in
  let st := addStringField "type" (ev_type e) false st in
  let st := addStringField "request_id" (ev_request_id e) false st in
  let st := addStringField "query_id" (ev_query_id e) true st in
  let st := addStringField "principal" (ev_principal e) true st in
  let st := addStringField "client_identifier" (ev_client_identifier e) true st in
  let st := addStringField "policy_profile" (ev_policy_profile e) true st in
  let st := addStringField "policy_version" (ev_policy_version e) false st in
  let st := addStringField "policy_hash" (ev_policy_hash e) false st in
  let st := addStringField "datasource" (ev_datasource e) true st in
  let st := addStringField "adapter" (ev_adapter e) true st in
  let st := addStringField "operation" (ev_operation e) true st in
  let st := addStringField "decision" (ev_decision e) true st in
  let st := addStringField "reason_code" (ev_reason_code e) true st in
  let st := addStringField "outcome" (ev_outcome e) true st in
  let st := addStringField "error_kind" (ev_error_kind e) true st in
  let st := from_option (fun d => addIntegerField "duration_ms" d false) id (ev_duration_ms e) st in
  let st := addIntegerField "result_bytes" (ev_result_bytes e) true st in
  let st := addStringField "query_shape_hash" (ev_query_shape_hash e) true st in
  let st := addStringField "public_shape_set_hash" (ev_public_shape_set_hash e) true st in
  let st := addIntegerField "shape_count" (ev_shape_count e) true st in
  let st := addStringField "requested_profile_hash" (ev_requested_profile_hash e) true st in
  let st := addIntegerField "requested_profile_bytes" (ev_requested_profile_bytes e) true st in
  let st := addStringField "requested_datasource_hash" (ev_requested_datasource_hash e) true st in
  let st := addIntegerField "requested_datasource_bytes" (ev_requested_datasource_bytes e) true st in
  let st := count_array count_resource "resources" (ev_resources e) st in
  let st := count_array counter_string "fields" (ev_fields e) st in
  count_metadata (ev_metadata e) st.

Definition queryShapeAuditEventJSONSizeWithin (e : Event) (maximum : Z) : result (Z * bool) :=
  let? st := count_event e (newBoundedJSONSize maximum) in
  let c := counter_add 1 st.1 in
  Ok (bs_value c, bs_ok c).

(** ** Bounds *)

Definition latest_timestamp : string := "9999-12-31T23:59:59.999999999Z".

Definition with_timestamp (t : string) (e : Event) : Event := {|
  ev_timestamp := t; ev_type := ev_type e; ev_request_id := ev_request_id e; ev_query_id := ev_query_id e;
  ev_principal := ev_principal e; ev_client_identifier := ev_client_identifier e; ev_policy_profile := ev_policy_profile e;
  ev_policy_version := ev_policy_version e; ev_policy_hash := ev_policy_hash e; ev_datasource := ev_datasource e;
  ev_adapter := ev_adapter e; ev_operation := ev_operation e; ev_decision := ev_decision e; ev_reason_code := ev_reason_code e;
  ev_outcome := ev_outcome e; ev_error_kind := ev_error_kind e; ev_duration_ms := ev_duration_ms e;
  ev_result_bytes := ev_result_bytes e; ev_query_shape_hash := ev_query_shape_hash e;
  ev_public_shape_set_hash := ev_public_shape_set_hash e; ev_shape_count := ev_shape_count e;
  ev_requested_profile_hash := ev_requested_profile_hash e; ev_requested_profile_bytes := ev_requested_profile_bytes e;
  ev_requested_datasource_hash := ev_requested_datasource_hash e; ev_requested_datasource_bytes := ev_requested_datasource_bytes e;
  ev_resources := ev_resources e; ev_fields := ev_fields e; ev_metadata := ev_metadata e |}.

(** One byte is left for the newline that the sink appends. *)
Definition queryShapeAuditEventWithinBound (e : Event) (maximum : Z) : result bool :=
  if maximum <? 1 then Ok false
  else let? (_, within) := queryShapeAuditEventJSONSizeWithin (with_timestamp latest_timestamp e) (maximum - 1) in Ok within.

Definition requireAuditEventBound (e : Event) (maximum : Z) : error :=
  let? (_, within) := queryShapeAuditEventJSONSizeWithin e (maximum - 1) in
  if? negb within return ErrorString "event exceeds the maximum" then nil_error.

(** ** Identities *)

Record queryShapeAuditIdentity := { ai_principal : string; ai_clientIdentifier : string }.

(** The largest [int]. *)
Definition max_int : Z := 2 ^ 63 - 1.

Definition auditIdentityJSONSize (identity : queryShapeAuditIdentity) : Z :=
  bs_value (counter_string (ai_clientIdentifier identity) (counter_string (ai_principal identity) (newBoundedJSONSize max_int))).

Definition identified (identity : queryShapeAuditIdentity) : bool :=
  nonempty (ai_principal identity) && nonempty (ai_clientIdentifier identity).

Definition moreConservativeAuditIdentity (candidate current : queryShapeAuditIdentity) : bool :=
  if negb (identified candidate) then false
  else if negb (identified current) then true
  else if negb (auditIdentityJSONSize candidate =? auditIdentityJSONSize current)
  then auditIdentityJSONSize current <? auditIdentityJSONSize candidate
  else match String.compare (ai_principal candidate) (ai_principal current) with
       | Gt => true
       | Lt => false
       | Eq => String.ltb (ai_clientIdentifier current) (ai_clientIdentifier candidate)
       end.

(** ** The count is exact *)

Lemma counter_add_spec v c : sound c -> counter_add v c = add v c.
Proof.
  unfold counter_add, add, sound. destruct c as [value maximum []]; cbn; [|done]. intros H. specialize (H eq_refl).
  by replace (maximum <? value) with false by lia; rewrite orb_false_r.
Qed.

Lemma grew_sound s n c : grew s n c -> sound c. Proof. by intros []. Qed.

Lemma grew_counter s n v c : 0 <= v -> grew s n c -> grew s (n + v) (counter_add v c).
Proof. intros Hv H. rewrite counter_add_spec by (by eapply grew_sound). by apply grew_add. Qed.

(** A counter that is over its maximum stays as it is, whatever else would be counted. *)
Lemma grew_stuck s n v c : 0 <= v -> bs_ok c = false -> grew s n c -> grew s (n + v) c.
Proof. intros Hv Hc H. apply (grew_counter _ _ v) in H; [|done]. unfold counter_add in H. by rewrite Hc in H. Qed.

Lemma sum_of_rune_bytes_nonneg l : 0 <= sum_of rune_encoded_bytes l.
Proof. unfold sum_of. induction l as [|r l IH]; cbn; [done|]. pose proof (rune_encoded_bytes_nonneg r). lia. Qed.

Lemma grew_runes l : forall s n c, grew s n c -> grew s (n + sum_of rune_encoded_bytes l) (count_runes l c).
Proof.
  induction l as [|r l IH]; intros s n c H; cbn [count_runes]; [by rewrite Z.add_0_r|].
  change (sum_of rune_encoded_bytes (r :: l)) with (rune_encoded_bytes r + sum_of rune_encoded_bytes l).
  destruct (bs_ok c) eqn:Hc; cbn [negb].
  - rewrite Z.add_assoc. by apply IH, grew_counter; [apply rune_encoded_bytes_nonneg|].
  - apply grew_stuck; [|done..]. pose proof (rune_encoded_bytes_nonneg r). pose proof (sum_of_rune_bytes_nonneg l). lia.
Qed.

Lemma marshal_string_bytes v : slen (marshal (JStr v)) = 2 + sum_of rune_encoded_bytes (runes v).
Proof. cbn [marshal]. rewrite marshal_string_len, escape_len. lia. Qed.

Lemma grew_counter_string s n c v : grew s n c -> grew s (n + slen (marshal (JStr v))) (counter_string v c).
Proof.
  intros H. unfold counter_string. cbv zeta. rewrite marshal_string_bytes, Z.add_assoc. apply (grew_counter _ _ 2) in H; [|done].
  destruct (bs_ok (counter_add 2 c)) eqn:Hc; cbn [negb]; [by apply grew_runes|].
  by apply grew_stuck; [apply sum_of_rune_bytes_nonneg|..].
Qed.

Lemma count_digits_spec fuel : forall n size k, 0 <= k <= Z.of_nat fuel -> (n = 0 /\ k = 0 \/ 0 < k /\ 10 ^ (k - 1) <= n < 10 ^ k) ->
  count_digits fuel n size = size + k.
Proof.
  induction fuel as [|fuel IH]; intros n size k Hk Hn; cbn [count_digits]; [lia|].
  destruct Hn as [[-> ->]|[Hp Hn]]; [by rewrite Z.add_0_r|].
  assert (Hpos : 0 < 10 ^ (k - 1)) by (apply Z.pow_pos_nonneg; lia).
  replace (n =? 0) with false by lia. rewrite (IH _ _ (k - 1)); [lia|lia|]. clear IH size. rewrite Z.quot_div_nonneg by lia.
  assert (Hpow : 10 ^ k = 10 * 10 ^ (k - 1)) by (rewrite <- Z.pow_succ_r by lia; f_equal; lia).
  destruct (Z.eq_dec k 1) as [->|]; [left; rewrite Z.pow_1_r in Hn; split; [apply Z.div_small; lia|done]|right].
  assert (10 ^ (k - 1) = 10 * 10 ^ (k - 1 - 1)) by (rewrite <- Z.pow_succ_r by lia; f_equal; lia).
  split; [lia|]. split; [apply Z.div_le_lower_bound; lia|apply Z.div_lt_upper_bound; lia].
Qed.

Lemma itoa_digit_count n size : 0 < n < 2 ^ 64 -> count_digits 20 n size = size + slen (itoa n).
Proof.
  intros Hn. destruct (itoa_canonical n) as [Hc Hv]; [lia|]. apply count_digits_spec.
  - assert (~ 20 < slen (itoa n)); [|pose proof (slen_nonneg (itoa n)); lia]. intros Hl.
    pose proof (canonical_length _ Hc) as Hb. rewrite Hv in Hb.
    assert (10 ^ 20 <= 10 ^ (slen (itoa n) - 1)) by (apply Z.pow_le_mono_r; lia). lia.
  - right. pose proof (canonical_length _ Hc) as Hb. rewrite Hv in Hb.
    pose proof (digits_value_bounds (itoa n)) as Hd. rewrite Hv in Hd.
    assert (Ha : all_digits (itoa n) = true) by apply Hc. specialize (Hd Ha).
    assert (slen (itoa n) <> 0) by (intros E; rewrite E in Hd; cbn in Hd; lia). pose proof (slen_nonneg (itoa n)). lia.
Qed.

Lemma jsonIntegerSize_exact z : in_int64 z -> jsonIntegerSize z = slen (marshal (JInt z)).
Proof.
  unfold in_int64, jsonIntegerSize, u64. intros Hz. cbn [marshal]. destruct (Z.eqb_spec z 0) as [->|Hn]; [done|].
  destruct (Z.ltb_spec z 0).
  - rewrite (Z.mod_small (- (z + 1))), Z.mod_small by lia. replace (- (z + 1) + 1) with (- z) by lia.
    rewrite itoa_digit_count by lia. 
    replace (itoa z) with (String "-" (itoa (- z))) by (rewrite <- itoa_opp by lia; f_equal; lia). by rewrite slen_cons.
  - rewrite Z.mod_small by lia. rewrite itoa_digit_count by lia. lia.
Qed.

Lemma grew_counter_integer s n c z : in_int64 z -> grew s n c -> grew s (n + slen (marshal (JInt z))) (counter_integer z c).
Proof. intros Hz. unfold counter_integer. rewrite jsonIntegerSize_exact by done. apply grew_counter, slen_nonneg. Qed.

(** [in_object s n first st]: counting from [s] to the counter of [st] adds [n] bytes,
    and while they fit [first] says whether the object at hand has no member yet. *)
Definition in_object (s : boundedSize) (n : Z) (first : bool) (st : boundedSize * bool) : Prop :=
  grew s n st.1 /\ (bs_ok st.1 = true -> st.2 = first).

Definition key_bytes (first : bool) (name : string) : Z := (if first then 0 else 1) + slen (marshal (JStr name)) + 1.

Lemma object_field_spec s n first st name :
  in_object s n first st -> in_object s (n + key_bytes first name) false (object_field name st).
Proof.
  destruct st as [c f]. unfold in_object, object_field, key_bytes. cbn [fst snd]. intros [H Hf].
  pose proof (slen_nonneg (marshal (JStr name))). destruct (bs_ok c) eqn:Hc; cbn [negb].
  - rewrite (Hf eq_refl). split; [|done]. rewrite !Z.add_assoc. cbn [fst]. apply grew_counter; [done|]. apply grew_counter_string.
    destruct first; [by rewrite Z.add_0_r|by apply grew_counter].
  - split; cbn [fst snd]; [|by rewrite Hc]. apply grew_stuck; [destruct first; lia|done..].
Qed.

(** A step of the counter on a counter that is over its maximum leaves it there. *)
Definition stays (f : boundedSize -> boundedSize) : Prop := forall c, bs_ok c = false -> bs_ok (f c) = false.

Lemma on_counter_spec s n m first st f : (forall c, grew s n c -> grew s m (f c)) -> stays f ->
  in_object s n first st -> in_object s m first (on_counter f st).
Proof.
  intros Hf Hs [H Hb]. split; [by apply Hf|]. cbn. intros Hok. apply Hb. destruct (bs_ok st.1) eqn:E; [done|]. by rewrite Hs in Hok.
Qed.

Lemma stays_add v : stays (counter_add v).
Proof. intros c Hc. unfold counter_add. by rewrite Hc. Qed.

Lemma stays_string v : stays (counter_string v).
Proof. intros c Hc. unfold counter_string, counter_add. rewrite Hc. cbn. by rewrite Hc. Qed.

Lemma stays_compose f g : stays f -> stays g -> stays (fun c => g (f c)).
Proof. intros Hf Hg c Hc. auto. Qed.

Create HintDb counts.
#[export] Hint Resolve stays_add stays_string grew_counter_string grew_counter_integer slen_nonneg : counts.

Lemma stays_integer z : stays (counter_integer z). Proof. apply stays_add. Qed.
#[export] Hint Resolve stays_integer : counts.

Lemma string_field_spec s n st name v : in_object s n false st ->
  in_object s (n + field_bytes (text_field name v)) false (addStringField name v false st).
Proof.
  intros H%(object_field_spec _ _ _ _ name). unfold addStringField, field_bytes, text_field. cbn [andb fst snd].
  eapply on_counter_spec, H; [|apply stays_string]. intros c Hc%(grew_counter_string _ _ _ v).
  eapply grew_eq; [exact Hc|]. unfold key_bytes. lia.
Qed.

Lemma omit_string_field_spec s n st name v : in_object s n false st ->
  in_object s (n + field_bytes (omit_text_field name v)) false (addStringField name v true st).
Proof.
  intros H. unfold addStringField, omit_text_field, field_bytes. cbn [fst snd]. destruct (nonempty v) eqn:Hv; cbn [andb negb].
  - by apply (string_field_spec s n st name v) in H.
  - by rewrite Z.add_0_r.
Qed.

Lemma integer_field_spec s n st name z : in_int64 z -> in_object s n false st ->
  in_object s (n + field_bytes (true, name, JInt z)) false (addIntegerField name z false st).
Proof.
  intros Hz H%(object_field_spec _ _ _ _ name). unfold addIntegerField, field_bytes. cbn [andb fst snd].
  eapply on_counter_spec, H; [|apply stays_integer]. intros c Hc%(grew_counter_integer _ _ _ z); [|done].
  eapply grew_eq; [exact Hc|]. unfold key_bytes. lia.
Qed.

Lemma omit_integer_field_spec s n st name z : in_int64 z -> in_object s n false st ->
  in_object s (n + field_bytes (omit_int_field name z)) false (addIntegerField name z true st).
Proof.
  intros Hz H. unfold addIntegerField, omit_int_field, field_bytes. cbn [fst snd]. destruct (Z.eqb_spec z 0) as [->|]; cbn [andb negb].
  - by rewrite Z.add_0_r.
  - by apply (integer_field_spec s n st name z) in H.
Qed.

(** *** Arrays and objects *)

Lemma grew_count_each {A} (item : A -> boundedSize -> boundedSize) (text : A -> string) l :
  Forall (fun x => forall s n c, grew s n c -> grew s (n + slen (text x)) (item x c)) l ->
  forall s n c, grew s n c -> grew s (n + slen (join "," (map text l))) (count_each_from item 0 l c).
Proof.
  intros Hl.
  assert (Hrest : forall l, Forall (fun x => forall s n c, grew s n c -> grew s (n + slen (text x)) (item x c)) l ->
    forall i s n c, 0 < i -> grew s n c -> grew s (n + slen (join_tail text l)) (count_each_from item i l c)).
  { clear. induction 1 as [|x l Hx Hl IH]; intros i s n c Hi H; cbn [count_each_from join_tail].
    - change (slen EmptyString) with 0. by rewrite Z.add_0_r.
    - destruct (bs_ok c) eqn:Hc; cbn [negb]; [|by apply grew_stuck; [apply slen_nonneg|..]].
      rewrite !slen_app. change (slen ",") with 1. rewrite !Z.add_assoc. apply IH; [lia|]. apply Hx.
      destruct (Z.eqb_spec i 0); [lia|]. by apply grew_counter. }
  destruct Hl as [|x l Hx Hl]; intros s n c H; cbn [count_each_from].
  - cbn [map join]. change (slen EmptyString) with 0. by rewrite Z.add_0_r.
  - rewrite join_cons, slen_app, Z.add_assoc.
    destruct (bs_ok c) eqn:Hc; cbn [negb]; [by apply Hrest; [|lia|apply Hx]|].
    apply grew_stuck; [apply slen_nonneg|done|]. by apply grew_stuck; [apply slen_nonneg|..].
Qed.

Lemma stays_each {A} (item : A -> boundedSize -> boundedSize) i l : stays (count_each_from item i l).
Proof. intros c Hc. destruct l; cbn; by rewrite ?Hc. Qed.

Lemma count_array_spec {A} (item : A -> boundedSize -> boundedSize) (j : A -> json) name l s n st :
  Forall (fun x => forall s n c, grew s n c -> grew s (n + slen (marshal (j x))) (item x c)) l ->
  in_object s n false st ->
  in_object s (n + field_bytes (negb (len l =? 0), name, JArr (map j l))) false (count_array item name l st).
Proof.
  intros Hl H. unfold count_array, field_bytes. cbn [fst snd]. destruct (len l =? 0); cbn [negb]; [by rewrite Z.add_0_r|].
  apply (object_field_spec _ _ _ _ name) in H. eapply on_counter_spec, H.
  - intros c Hc. apply (grew_counter _ _ 1) in Hc; [|done]. apply (grew_count_each item (fun x => marshal (j x)) l Hl) in Hc.
    apply (grew_counter _ _ 1) in Hc; [|done]. eapply grew_eq; [exact Hc|].
    rewrite json_array_len, map_map. unfold key_bytes. lia.
  - apply stays_compose; [apply stays_compose; [apply stays_add|apply stays_each]|apply stays_add].
Qed.

Lemma count_resource_spec r s n c : grew s n c -> grew s (n + slen (marshal (audit_resource_json r))) (count_resource r c).
Proof.
  intros H. unfold count_resource, audit_resource_json. apply (grew_counter _ _ 1) in H; [|done].
  assert (Ho : in_object s (n + 1) true (counter_add 1 c, true)) by done.
  apply (object_field_spec _ _ _ _ "schema") in Ho.
  assert (Hs : in_object s (n + 1 + key_bytes true "schema" + slen (marshal (JStr (re_schema r)))) false
    (on_counter (counter_string (re_schema r)) (object_field "schema" (counter_add 1 c, true)))).
  { eapply on_counter_spec, Ho; [|apply stays_string]. intros c'. apply grew_counter_string. }
  rewrite struct_len by done. unfold sum_of, field_bytes, text_field. cbn [foldr fst snd]. unfold key_bytes in Hs.
  destruct (nonempty (re_object r)).
  - apply (object_field_spec _ _ _ _ "object") in Hs. destruct Hs as [Hs _]. apply (grew_counter_string _ _ _ (re_object r)) in Hs.
    apply (grew_counter _ _ 1) in Hs; [|done]. eapply grew_eq; [exact Hs|]. unfold key_bytes. lia.
  - destruct Hs as [Hs _]. apply (grew_counter _ _ 1) in Hs; [|done]. eapply grew_eq; [exact Hs|]. lia.
Qed.

(** *** Metadata *)

(** A value that the preflight can size. *)
Definition countable_metadata (m : metadata) : Prop :=
  match m with MetaInt z => in_int64 z | MetaOther _ => False | _ => True end.

Definition member_field (kv : string * metadata) : field_of := (true, kv.1, metadata_json kv.2).

Lemma member_spec kv s n first st : countable_metadata kv.2 -> in_object s n first st ->
  exists st', count_member 0 kv st = Ok st' /\
    in_object s (n + field_bytes (member_field kv) - (if first then 1 else 0)) false st'.
Proof.
  destruct kv as [k m]. intros Hm H%(object_field_spec _ _ _ _ k). unfold count_member, member_field, field_bytes. cbn [fst snd] in *.
  assert (Hn : n + key_bytes first k + slen (marshal (metadata_json m)) =
    n + (slen (marshal (JStr k)) + 2 + slen (marshal (metadata_json m))) - (if first then 1 else 0)) by (unfold key_bytes; destruct first; lia).
  rewrite <- Hn. clear Hn. destruct m as [b|z|v|]; [..|done]; eexists; (split; [reflexivity|]); (eapply on_counter_spec, H; [|auto with counts]).
  - intros c Hc. apply (grew_counter _ _ (if b then 4 else 5)) in Hc; [|by destruct b]. eapply grew_eq; [exact Hc|]. by destruct b.
  - intros c. by apply grew_counter_integer.
  - intros c. apply grew_counter_string.
Qed.

Lemma members_spec l : Forall (fun kv => countable_metadata kv.2) l -> forall i s n first st, in_object s n first st ->
  exists st', iter_from count_member i l st = Ok st' /\
    grew s (n + sum_of field_bytes (map member_field l) - (if first then match l with [] => 0 | _ => 1 end else 0)) st'.1.
Proof.
  induction 1 as [|kv l Hkv Hl IH]; intros i s n first st H.
  - eexists. split; [reflexivity|]. eapply grew_eq; [apply H|]. cbn. destruct first; lia.
  - destruct (member_spec kv s n first st Hkv H) as (st1 & H1 & Hi). destruct (IH (i + 1) _ _ _ _ Hi) as (st' & H' & Hg).
    exists st'. split; [cbn [iter_from]; unfold count_member in H1 |- *; by rewrite H1|]. eapply grew_eq; [exact Hg|].
    change (sum_of field_bytes (map member_field (kv :: l))) with (field_bytes (member_field kv) + sum_of field_bytes (map member_field l)).
    destruct first; lia.
Qed.

Lemma printed_members l : JObj (map (fun kv => (kv.1, metadata_json kv.2)) l) = struct_json (map member_field l).
Proof. unfold struct_json, printed. f_equal. induction l as [|kv l IH]; [done|]. cbn. f_equal. exact IH. Qed.

Lemma sorted_members_perm {V} (m : gmap string V) : sorted_members m ≡ₚ map_to_list m.
Proof. apply sort_func_perm. Qed.

Definition metadata_field (m : gmap string metadata) : field_of :=
  (negb (bool_decide (m = ∅)), "metadata", JObj (map (fun kv => (kv.1, metadata_json kv.2)) (sorted_members m))).

Lemma count_metadata_spec m s n st : map_Forall (fun _ => countable_metadata) m -> in_object s n false st ->
  exists st', count_metadata m st = Ok st' /\ grew s (n + field_bytes (metadata_field m)) st'.1.
Proof.
  intros Hm H. unfold count_metadata, metadata_field, field_bytes. cbn [fst snd]. case_bool_decide as He.
  { eexists. split; [reflexivity|]. cbn [negb]. rewrite Z.add_0_r. apply H. }
  apply (object_field_spec _ _ _ _ "metadata") in H. cbn [negb].
  destruct (object_field "metadata" st) as [c f] eqn:Ec. cbn [fst snd]. destruct H as [H _]. cbn [fst] in H.
  apply (grew_counter _ _ 1) in H; [|done].
  destruct (members_spec (sorted_members m)) with (i := 0) (s := s) (n := n + key_bytes false "metadata" + 1) (first := true)
    (st := (counter_add 1 c, true)) as (st' & Hs & Hg); [|done|].
  { rewrite sorted_members_perm. apply map_Forall_to_list in Hm. eapply Forall_impl; [exact Hm|]. by intros [k v]. }
  unfold iter. rewrite Hs. cbn [rbind]. eexists. split; [reflexivity|]. cbn [fst]. apply (grew_counter _ _ 1) in Hg; [|done].
  eapply grew_eq; [exact Hg|]. rewrite printed_members.
  assert (Hne : exists kv l, sorted_members m = kv :: l).
  { destruct (sorted_members m) as [|kv l] eqn:E; [|by exists kv, l]. exfalso. apply He, map_to_list_empty_iff.
    apply Permutation_nil_r. rewrite <- E. symmetry. apply sorted_members_perm. }
  destruct Hne as (kv & l & ->). rewrite struct_len by done. unfold key_bytes. lia.
Qed.

(** ** The event *)

Record countable_event (e : Event) : Prop := {
  ce_duration : forall d, ev_duration_ms e = Some d -> in_int64 d;
  ce_result : in_int64 (ev_result_bytes e);
  ce_shapes : in_int64 (ev_shape_count e);
  ce_profile : in_int64 (ev_requested_profile_bytes e);
  ce_datasource : in_int64 (ev_requested_datasource_bytes e);
  ce_metadata : map_Forall (fun _ => countable_metadata) (ev_metadata e);
}.

Lemma resources_field_spec s n st l : in_object s n false st ->
  in_object s (n + field_bytes (negb (len l =? 0), "resources", JArr (map audit_resource_json l))) false
    (count_array count_resource "resources" l st).
Proof. apply count_array_spec, Forall_forall. intros r _ s' n' c. apply count_resource_spec. Qed.

Lemma strings_field_spec s n st l : in_object s n false st ->
  in_object s (n + field_bytes (negb (len l =? 0), "fields", JArr (map JStr l))) false (count_array counter_string "fields" l st).
Proof. apply count_array_spec, Forall_forall. intros r _ s' n' c. apply grew_counter_string. Qed.

Lemma duration_field_spec s n st d : (forall z, d = Some z -> in_int64 z) -> in_object s n false st ->
  in_object s (n + field_bytes (bool_decide (is_Some d), "duration_ms", JInt (default 0 d))) false
    (from_option (fun d => addIntegerField "duration_ms" d false) id d st).
Proof.
  intros Hd H. destruct d as [z|]; cbn [from_option default id].
  - rewrite bool_decide_eq_true_2 by done. apply integer_field_spec; auto.
  - rewrite bool_decide_eq_false_2 by (by intros []). unfold field_bytes. cbn [fst snd]. by rewrite Z.add_0_r.
Qed.

Lemma count_event_spec e s : sound s -> countable_event e -> exists st, count_event e s = Ok st /\
  grew s (sum_of field_bytes (event_fields e)) st.1.
Proof.
  intros Hs []. unfold count_event.
  assert (H : in_object s (0 + field_bytes (text_field "timestamp" (ev_timestamp e))) false
    (on_counter (counter_add (slen (timestamp_json (ev_timestamp e)))) (object_field "timestamp" (counter_add 1 s, true)))).
  { assert (H0 : in_object s (0 + 1) true (counter_add 1 s, true)) by (split; [apply grew_counter, grew_refl|]; done).
    apply (object_field_spec _ _ _ _ "timestamp") in H0. eapply on_counter_spec, H0; [|apply stays_add].
    intros c Hc. apply (grew_counter _ _ (slen (timestamp_json (ev_timestamp e)))) in Hc; [|apply slen_nonneg].
    eapply grew_eq; [exact Hc|]. unfold timestamp_json, field_bytes, text_field, key_bytes. cbn [fst snd]. lia. }
  revert H. generalize (on_counter (counter_add (slen (timestamp_json (ev_timestamp e)))) (object_field "timestamp" (counter_add 1 s, true))).
  intros st H. cbv zeta.
  edestruct (count_metadata_spec (ev_metadata e) s) as (st' & He & Hg); [done| |exists st'; split; [exact He|]].
  - apply strings_field_spec, resources_field_spec.
    apply omit_integer_field_spec, omit_string_field_spec, omit_integer_field_spec, omit_string_field_spec, omit_integer_field_spec; [done..|].
    do 2 apply omit_string_field_spec. apply omit_integer_field_spec, duration_field_spec; [done..|].
    do 7 apply omit_string_field_spec. do 2 apply string_field_spec. do 4 apply omit_string_field_spec. do 2 apply string_field_spec. exact H.
  - eapply grew_eq; [exact Hg|]. unfold event_fields, sum_of, metadata_field. cbn [foldr]. lia.
Qed.

Lemma event_len e : slen (marshal (event_json e)) = 1 + sum_of field_bytes (event_fields e).
Proof. unfold event_json. by rewrite struct_len. Qed.

Lemma event_counted e maximum : countable_event e ->
  exists size, queryShapeAuditEventJSONSizeWithin e maximum = Ok (size, slen (marshal (event_json e)) <=? maximum) /\
    (slen (marshal (event_json e)) <= maximum -> size = slen (marshal (event_json e))).
Proof.
  intros He. unfold queryShapeAuditEventJSONSizeWithin.
  destruct (count_event_spec e (newBoundedJSONSize maximum)) as (st & -> & Hg); [|done|].
  { intros H. cbn in *. lia. }
  cbn [rbind]. apply (grew_counter _ _ 1) in Hg; [|done]. rewrite Z.add_comm, <- event_len in Hg.
  apply grew_outcome in Hg as [Hok Hv]. eexists. split; [by rewrite Hok|]. exact Hv.
Qed.

(** C22: For an event whose numbers fit their types and whose metadata is of the
    types the gateway writes, the size that is counted without building the JSON is
    exact: the event is found to fit exactly when its JSON is no longer than the
    maximum, and then the count is the length of that JSON. *)
Theorem audit_size_exact e maximum : countable_event e ->
  exists size, queryShapeAuditEventJSONSizeWithin e maximum = Ok (size, slen (marshal (event_json e)) <=? maximum) /\
    (slen (marshal (event_json e)) <= maximum -> size = slen (marshal (event_json e))).
Proof. apply event_counted. Qed.

(** An event that is found within the bound leaves room for its newline. *)
Lemma within_bound e maximum : countable_event e -> queryShapeAuditEventWithinBound e maximum = Ok true ->
  slen (marshal (event_json (with_timestamp latest_timestamp e))) + 1 <= maximum.
Proof.
  intros He. unfold queryShapeAuditEventWithinBound. destruct (maximum <? 1); [done|].
  destruct (event_counted (with_timestamp latest_timestamp e) (maximum - 1)) as (size & -> & _); [by destruct He; constructor|].
  cbn [rbind]. generalize (slen (marshal (event_json (with_timestamp latest_timestamp e)))). intros n [= Hw%Z.leb_le]. lia.
Qed.

(** ** The most conservative identity *)

Definition conservative (current candidate : queryShapeAuditIdentity) : queryShapeAuditIdentity :=
  if moreConservativeAuditIdentity candidate current then candidate else current.

Lemma string_compare_refl a : String.compare a a = Eq.
Proof. induction a as [|c a IH]; [done|]. cbn. unfold Ascii.compare. by rewrite N.compare_refl. Qed.

Lemma string_lt_trans a b c : String.compare a b = Lt -> String.compare b c = Lt -> String.compare a c = Lt.
Proof.
  revert b c. induction a as [|x a IH]; intros [|y b] [|z c]; cbn; try done. unfold Ascii.compare.
  destruct (N.compare_spec (N_of_ascii x) (N_of_ascii y)), (N.compare_spec (N_of_ascii y) (N_of_ascii z)); try done; intros H1 H2.
  - rewrite H, H0, N.compare_refl. by apply IH with b.
  - rewrite H. by rewrite (proj2 (N.compare_lt_iff _ _) H0).
  - rewrite <- H0. by rewrite (proj2 (N.compare_lt_iff _ _) H).
  - assert (N_of_ascii x < N_of_ascii z)%N as ->%N.compare_lt_iff by lia. done.
Qed.

(** The order on identities with both names: by size, then by the names. *)
Definition identity_lt (a b : queryShapeAuditIdentity) : Prop :=
  auditIdentityJSONSize a < auditIdentityJSONSize b \/
  auditIdentityJSONSize a = auditIdentityJSONSize b /\
    (String.compare (ai_principal a) (ai_principal b) = Lt \/
     ai_principal a = ai_principal b /\ String.compare (ai_clientIdentifier a) (ai_clientIdentifier b) = Lt).

Lemma identity_lt_trans a b c : identity_lt a b -> identity_lt b c -> identity_lt a c.
Proof.
  unfold identity_lt. intros [H|(H & [H1|(H1 & H2)])] [G|(G & [G1|(G1 & G2)])]; try (left; lia); right; (split; [congruence|]).
  - left. by eapply string_lt_trans.
  - left. by rewrite <- G1.
  - left. by rewrite H1.
  - right. split; [congruence|]. by eapply string_lt_trans.
Qed.

Lemma identity_lt_irrefl a : ~ identity_lt a a.
Proof. intros [H|(_ & [H|(_ & H)])]; [lia|..]; by rewrite string_compare_refl in H. Qed.

Lemma identity_lt_total a b : identity_lt a b \/ a = b \/ identity_lt b a.
Proof.
  unfold identity_lt. destruct (Z.lt_total (auditIdentityJSONSize a) (auditIdentityJSONSize b)) as [H|[H|H]]; [by left; left| |by right; right; left].
  destruct (String.compare (ai_principal a) (ai_principal b)) eqn:E.
  - apply String.compare_eq_iff in E. destruct (String.compare (ai_clientIdentifier a) (ai_clientIdentifier b)) eqn:F.
    + apply String.compare_eq_iff in F. right; left. destruct a, b; cbn in *; congruence.
    + left; right. split; [done|]. by right.
    + right; right; right. split; [done|]. right. split; [done|]. by rewrite String.compare_antisym, F.
  - left; right. split; [done|]. by left.
  - right; right; right. split; [done|]. left. by rewrite String.compare_antisym, E.
Qed.

Lemma moreConservative_iff candidate current : moreConservativeAuditIdentity candidate current = true <->
  identified candidate = true /\ (identified current = true -> identity_lt current candidate).
Proof.
  unfold moreConservativeAuditIdentity. destruct (identified candidate); cbn [negb]; [|naive_solver].
  destruct (identified current); cbn [negb]; [|naive_solver]. unfold identity_lt.
  destruct (Z.eqb_spec (auditIdentityJSONSize candidate) (auditIdentityJSONSize current)) as [Hs|Hs]; cbn [negb].
  - rewrite (String.compare_antisym (ai_principal current)). destruct (String.compare _ _) eqn:E; cbn.
    + apply String.compare_eq_iff in E. unfold String.ltb.
      destruct (String.compare (ai_clientIdentifier current) (ai_clientIdentifier candidate)); split; intros H; try done; try (destruct H as [_ H]; specialize (H eq_refl)); naive_solver lia.
    + split; [done|]. intros [_ H]. specialize (H eq_refl). destruct H as [H|(_ & [H|(H & _)])]; [lia|done|].
      rewrite H, string_compare_refl in E. done.
    + split; [|done]. intros _. split; [done|]. intros _. right. split; [done|]. by left.
  - rewrite Z.ltb_lt. split; [naive_solver|]. intros [_ H]. destruct (H eq_refl) as [|[]]; lia.
Qed.

Lemma conservative_unidentified current candidate : identified candidate = false -> conservative current candidate = current.
Proof. intros H. unfold conservative, moreConservativeAuditIdentity. by rewrite H. Qed.

Lemma conservative_identified current candidate : identified candidate = true ->
  identified (conservative current candidate) = true.
Proof.
  intros H. unfold conservative. destruct (moreConservativeAuditIdentity candidate current) eqn:E; [done|].
  destruct (identified current) eqn:Hc; [done|]. exfalso. apply not_true_iff_false in E. apply E, moreConservative_iff. split; [done|congruence].
Qed.

Definition is_greatest (x : queryShapeAuditIdentity) (l : list queryShapeAuditIdentity) : Prop :=
  x ∈ l /\ forall y, y ∈ l -> ~ identity_lt x y.

Lemma greatest_unique x y l k : (forall z, z ∈ l <-> z ∈ k) -> is_greatest x l -> is_greatest y k -> x = y.
Proof. intros H [Hx Gx] [Hy Gy]. destruct (identity_lt_total x y) as [Hl|[->|Hl]]; [|done|]; exfalso; [eapply Gx|eapply Gy]; naive_solver. Qed.

Lemma greatest_one x : is_greatest x [x].
Proof. split; [by left|]. intros y ->%list_elem_of_singleton. apply identity_lt_irrefl. Qed.

Lemma greatest_step x l candidate : identified x = true -> identified candidate = true -> is_greatest x l ->
  is_greatest (conservative x candidate) (candidate :: l).
Proof.
  intros Hx Hc [Hin Hmax]. pose proof (moreConservative_iff candidate x) as Hm. unfold conservative.
  destruct (moreConservativeAuditIdentity candidate x).
  - destruct Hm as [[_ Hlt] _]; [done|]. specialize (Hlt Hx). split; [by left|].
    intros y [->|Hy]%elem_of_cons H; [by eapply identity_lt_irrefl|]. apply (Hmax y Hy). by eapply identity_lt_trans.
  - split; [by right|]. intros y [->|Hy]%elem_of_cons H; [|by eapply Hmax]. assert (false = true) as [=]. by apply Hm.
Qed.

Lemma conservative_first c candidate : identified c = false -> identified candidate = true -> conservative c candidate = candidate.
Proof.
  intros Hc Ha. unfold conservative. pose proof (moreConservative_iff candidate c) as Hm.
  destruct (moreConservativeAuditIdentity candidate c); [done|]. destruct Hm as [_ Hm]. discriminate Hm. split; [done|congruence].
Qed.

Lemma conservative_comm c a b : conservative (conservative c a) b = conservative (conservative c b) a.
Proof.
  destruct (identified a) eqn:Ha; [|by rewrite !(conservative_unidentified _ a)].
  destruct (identified b) eqn:Hb; [|by rewrite !(conservative_unidentified _ b)].
  destruct (identified c) eqn:Hc.
  - apply (greatest_unique _ _ [b; a; c] [a; b; c]); [set_solver|..];
      repeat first [apply greatest_step | apply greatest_one | apply conservative_identified]; done.
  - rewrite (conservative_first c a), (conservative_first c b) by done.
    apply (greatest_unique _ _ [b; a] [a; b]); [set_solver|..]; apply greatest_step, greatest_one; done.
Qed.

(** The identity that the preflight of the audit bounds takes for the worst one
    does not depend on the order in which Go ranges over the map of users. *)
Theorem worst_identity_unique users users' zero : users ≡ₚ users' ->
  fold_left conservative users zero = fold_left conservative users' zero.
Proof.
  intros H. revert zero. induction H as [|x l k _ IH|x y l|l k m _ IH1 _ IH2]; intros zero; cbn; [done|apply IH|by rewrite conservative_comm|].
  by rewrite IH1, IH2.
Qed.

(** ** An example *)

Definition no_event : Event := {|
  ev_timestamp := "0001-01-01T00:00:00Z"; ev_type := EmptyString; ev_request_id := EmptyString; ev_query_id := EmptyString;
  ev_principal := EmptyString; ev_client_identifier := EmptyString; ev_policy_profile := EmptyString; ev_policy_version := EmptyString;
  ev_policy_hash := EmptyString; ev_datasource := EmptyString; ev_adapter := EmptyString; ev_operation := EmptyString;
  ev_decision := EmptyString; ev_reason_code := EmptyString; ev_outcome := EmptyString; ev_error_kind := EmptyString;
  ev_duration_ms := None; ev_result_bytes := 0; ev_query_shape_hash := EmptyString; ev_public_shape_set_hash := EmptyString;
  ev_shape_count := 0; ev_requested_profile_hash := EmptyString; ev_requested_profile_bytes := 0;
  ev_requested_datasource_hash := EmptyString; ev_requested_datasource_bytes := 0; ev_resources := []; ev_fields := [];
  ev_metadata := ∅ |}.

Definition example_event : Event := {|
  ev_timestamp := "2026-01-02T03:04:05Z"; ev_type := "query_completion"; ev_request_id := "r1"; ev_query_id := "q1"; ev_principal := "alice";
  ev_client_identifier := "laptop"; ev_policy_profile := "reader"; ev_policy_version := "v1"; ev_policy_hash := "h1";
  ev_datasource := "main"; ev_adapter := "mysql8"; ev_operation := "select"; ev_decision := EmptyString; ev_reason_code := EmptyString;
  ev_outcome := "success"; ev_error_kind := EmptyString; ev_duration_ms := Some 12; ev_result_bytes := 345; ev_query_shape_hash := "ab";
  ev_public_shape_set_hash := EmptyString; ev_shape_count := 0; ev_requested_profile_hash := EmptyString; ev_requested_profile_bytes := 0;
  ev_requested_datasource_hash := EmptyString; ev_requested_datasource_bytes := -9223372036854775808;
  ev_resources := [{| re_schema := "shop"; re_object := "users" |}; {| re_schema := "a<b"; re_object := EmptyString |}];
  ev_fields := ["name"; "age"]; ev_metadata := {[ "row_count" := MetaInt 10; "truncated" := MetaBool false ]} |}.

Example example_event_sized :
  (queryShapeAuditEventJSONSizeWithin example_event 1000, slen (marshal (event_json example_event)),
   queryShapeAuditEventWithinBound example_event 554, queryShapeAuditEventWithinBound example_event 553) =
  (Ok (543, true), 543, Ok true, Ok false).
Proof. vm_compute. reflexivity. Qed.

Lemma audit_size_exact_witness :
  exists size, queryShapeAuditEventJSONSizeWithin example_event 1000 = Ok (size, slen (marshal (event_json example_event)) <=? 1000) /\
    (slen (marshal (event_json example_event)) <= 1000 -> size = slen (marshal (event_json example_event))).
Proof.
  apply (audit_size_exact example_event 1000). split; try (unfold in_int64; cbn; lia).
  - intros d [= <-]. unfold in_int64. lia.
  - cbn [ev_metadata example_event]. apply map_Forall_insert_2; [cbn; unfold in_int64; lia|]. by apply map_Forall_singleton.
Defined.

Lemma worst_identity_unique_witness :
  let users := [{| ai_principal := "alice"; ai_clientIdentifier := "laptop" |}; {| ai_principal := "bob"; ai_clientIdentifier := "terminal" |}] in
  let zero := {| ai_principal := EmptyString; ai_clientIdentifier := EmptyString |} in
  fold_left conservative users zero = fold_left conservative (rev users) zero.
Proof. intros users zero. apply worst_identity_unique. cbn. apply perm_swap. Defined.
