(* ===== verification/ShapeHash.v ===== *)
(** The hashes by which audit events name a query (internal/queryspec/shape.go,
    [AggregateShapeHash] and [KeysetShapeHash]): the shape of a query is what is left
    of it when the parameter values are forgotten. *)
From S2P Require Import Prelude Domain GoJson Number Portable Values QuerySpec Config Policy Sql Rows Aggregate AggregateNormal NumericBucket SqlAggregate PolicyAggregate Keyset PolicyKeyset PublicShapes ShapeSizes.
Local Open Scope string_scope.
Local Open Scope Z_scope.

Inductive filterShape : Type := MkFilterShape {
  fs_representation : string; fs_kind : string; fs_field : string; fs_operator : string;
  fs_value_types : list string; fs_expressions : list filterShape;
}.

(** [shapeFilter]; a nil filter has no shape. *)
Fixpoint shapeFilter (f : Filter) : filterShape :=
  if String.eqb (f_kind f) "predicate" then
    {| fs_representation := f_representation f; fs_kind := f_kind f; fs_field := f_field f; fs_operator := f_operator f;
       fs_value_types := map tv_type (default [] (f_values f)); fs_expressions := [] |}
  else
    {| fs_representation := f_representation f; fs_kind := f_kind f; fs_field := f_field f; fs_operator := f_operator f;
       fs_value_types := []; fs_expressions := map shapeFilter (f_expressions f) |}.

Record queryShape := {
  qs_source : ResourceRef; qs_projection : list Selection; qs_filter : option filterShape; qs_group_by : list string;
  qs_order_by : list Sort;
}.

Definition shape_of (spec : NormalizedSpec) : queryShape := {|
  qs_source := n_source spec; qs_projection := n_projection spec; qs_filter := shapeFilter <$> n_filter spec;
  qs_group_by := n_group_by spec; qs_order_by := n_order_by spec |}.

(** ** What is hashed *)

(** A slice that is nil when it is empty; one without [omitempty] prints [null] then. *)
Definition slice_json {A} (item : A -> json) (l : list A) : json :=
  match l with [] => JNull | _ => JArr (map item l) end.
Definition omit_slice {A} (k : string) (item : A -> json) (l : list A) : field_of := (negb (len l =? 0), k, JArr (map item l)).

Fixpoint filter_shape_json (f : filterShape) : json := struct_json [
  omit_text "representation" (fs_representation f); text_field "kind" (fs_kind f); omit_text "field" (fs_field f);
  text_field "operator" (fs_operator f); omit_slice "value_types" JStr (fs_value_types f);
  omit_slice "expressions" filter_shape_json (fs_expressions f)].

Definition omit_filter_shape (f : option filterShape) : field_of :=
  (bool_decide (is_Some f), "filter", from_option filter_shape_json JNull f).

Definition query_shape_fields (q : queryShape) : list field_of := [
  (true, "source", resource_json (qs_source q)); (true, "projection", slice_json selection_json (qs_projection q));
  omit_filter_shape (qs_filter q); omit_slice "group_by" JStr (qs_group_by q); omit_slice "order_by" sort_json (qs_order_by q)].

Definition aggregate_output_json (o : AggregateOutput) : json := struct_json [
  omit_text "representation" (ao_representation o); text_field "kind" (ao_kind o); omit_text "field" (ao_field o);
  omit_text "function" (ao_function o); omit_text "alias" (ao_alias o); omit_text "unit" (ao_unit o);
  omit_text "timezone" (ao_timezone o)].

Definition aggregate_sort_json (o : AggregateSort) : json := struct_json [
  omit_text "representation" (as_representation o); text_field "kind" (as_kind o); omit_text "field" (as_field o);
  omit_text "alias" (as_alias o); text_field "direction" (as_direction o)].

Definition aggregate_shape_fields (spec : NormalizedAggregateSpec) : list field_of := [
  text_field "mode" (a_mode spec); (true, "source", resource_json (a_source spec));
  (true, "projection", slice_json aggregate_output_json (a_projection spec));
  omit_filter_shape (shapeFilter <$> a_filter spec); omit_slice "order_by" aggregate_sort_json (a_order_by spec);
  (negb (a_limit spec =? 0), "limit", JInt (a_limit spec))].

(** [filterWithoutValues] *)
Fixpoint filterWithoutValues (f : Filter) : Filter :=
  if String.eqb (f_kind f) "predicate" then
    {| f_representation := f_representation f; f_kind := f_kind f; f_field := f_field f; f_operator := f_operator f;
       f_values := Some (map (fun v => {| tv_type := tv_type v; tv_value := Some "null" |}) (default [] (f_values f)));
       f_expressions := f_expressions f |}
  else
    {| f_representation := f_representation f; f_kind := f_kind f; f_field := f_field f; f_operator := f_operator f;
       f_values := f_values f; f_expressions := map filterWithoutValues (f_expressions f) |}.

Section Hashes.
(** SHA-256, and the tree of a [json.RawMessage] as [json.Marshal] prints it. *)
Context (sha256 : string -> string) (raw_json : string -> json).

Definition typed_value_json (value : TypedValue) : json :=
  struct_json [text_field "type" (tv_type value); (true, "value", from_option raw_json JNull (tv_value value))].

Fixpoint whole_filter_json (f : Filter) : json := struct_json [
  omit_text "representation" (f_representation f); text_field "kind" (f_kind f); omit_text "field" (f_field f);
  text_field "operator" (f_operator f); omit_slice "values" typed_value_json (default [] (f_values f));
  omit_slice "expressions" whole_filter_json (f_expressions f)].

(** The members of [KeysetSpec]; validation leaves no empty slice in it. *)
Definition whole_keyset_json (query : KeysetSpec) : json := struct_json [
  (true, "source", resource_json (k_source query)); (true, "projection", slice_json selection_json (k_projection query));
  (bool_decide (is_Some (k_filter query)), "filter", from_option whole_filter_json JNull (k_filter query));
  (true, "order_by", slice_json sort_json (k_order_by query)); (true, "limit", JInt (k_limit query))].

Definition keyset_shape_fields (request : NormalizedKeysetRequest) : list field_of :=
  let query := nk_query request in [
  text_field "shape" (nk_shape request);
  (true, "query", whole_keyset_json {| k_source := k_source query; k_projection := k_projection query;
     k_filter := filterWithoutValues <$> k_filter query; k_order_by := k_order_by query; k_limit := k_limit query |});
  text_field "page_kind" (pg_kind (nk_page request));
  omit_slice "cursor" (fun value => struct_json [text_field "type" (cv_type value)]) (cursor_of (nk_page request))].

Definition keysetShapeHashDomain : string := "quordon/keyset-shape/v1" +:+ nul.

Definition ShapeHash (spec : NormalizedSpec) : string :=
  hex_text (sha256 (marshal (struct_json (query_shape_fields (shape_of spec))))).

Definition AggregateShapeHash (spec : NormalizedAggregateSpec) : string :=
  hex_text (sha256 (marshal (struct_json (aggregate_shape_fields spec)))).

Definition KeysetShapeHash (request : NormalizedKeysetRequest) : string :=
  hex_text (sha256 (keysetShapeHashDomain +:+ marshal (struct_json (keyset_shape_fields request)))).
End Hashes.

(** ** Structs as documents are read back *)

Definition agree (f g : field_of) : Prop := f.1.1 = g.1.1 /\ (f.1.1 = true -> f.2 = g.2).

Lemma printed_keys k fields : (exists j, (k, j) ∈ printed fields) -> k ∈ map (fun f : field_of => f.1.2) fields.
Proof.
  intros [j H]. unfold printed in H. apply list_elem_of_In, in_map_iff in H as (f & [= <- <-] & Hf).
  apply list_elem_of_In, in_map_iff. exists f. split; [done|]. by apply List.filter_In in Hf as [? _].
Qed.

Lemma struct_inj fields : forall fields', map (fun f : field_of => f.1.2) fields = map (fun f : field_of => f.1.2) fields' ->
  NoDup (map (fun f : field_of => f.1.2) fields) -> struct_json fields = struct_json fields' -> Forall2 agree fields fields'.
Proof.
  assert (H : forall fields', map (fun f : field_of => f.1.2) fields = map (fun f : field_of => f.1.2) fields' ->
    NoDup (map (fun f : field_of => f.1.2) fields) -> printed fields = printed fields' -> Forall2 agree fields fields').
  { induction fields as [|[[b k] j] fields IH]; intros [|[[b' k'] j'] fields'] Hk Hn Hp; try done.
    cbn in Hk, Hn. injection Hk as <- Hk. apply NoDup_cons in Hn as [Hx Hn].
    unfold printed in Hp. cbn [List.filter fst snd] in Hp. destruct b, b'; cbn [map fst snd] in Hp.
    - injection Hp as <- Hp. constructor; [by split|]. by apply IH.
    - exfalso. apply Hx. rewrite Hk. apply printed_keys. exists j. unfold printed. rewrite <- Hp. by left.
    - exfalso. apply Hx. apply printed_keys. exists j'. unfold printed. rewrite Hp. by left.
    - constructor; [by split|]. by apply IH. }
  intros fields' Hk Hn [= Hp]. by apply H.
Qed.

Lemma agree_text k v w : agree (text_field k v) (text_field k w) -> v = w.
Proof. intros [_ H]. by injection (H eq_refl). Qed.

Lemma agree_omit k v w : agree (omit_text k v) (omit_text k w) -> v = w.
Proof.
  intros [Hb H]. unfold omit_text in *. cbn in *. destruct v, w; cbn in *; try done. specialize (H eq_refl). congruence.
Qed.

Lemma agree_slice {A} k (item : A -> json) l m : (forall x y, x ∈ l -> item x = item y -> x = y) ->
  agree (omit_slice k item l) (omit_slice k item m) -> l = m.
Proof.
  intros Hi [Hb H]. unfold omit_slice in *. cbn [fst snd] in *.
  assert (Hm : forall l m, (forall x y, x ∈ l -> item x = item y -> x = y) -> map item l = map item m -> l = m).
  { clear. induction l as [|x l IH]; intros [|y m] Hi H; try done. injection H as H1 H2. f_equal; [apply Hi; [left|]; done|].
    apply IH; [|done]. intros a b Ha. apply Hi. by right. }
  destruct (len l =? 0) eqn:El; cbn [negb] in *.
  - apply Z.eqb_eq in El. destruct l; [|rewrite len_cons in El; pose proof (len_nonneg l); lia].
    destruct m as [|y m]; [done|]. rewrite len_cons in Hb. pose proof (len_nonneg m). by destruct (Z.eqb_spec (1 + len m) 0); [lia|].
  - apply Hm; [done|]. by injection (H eq_refl).
Qed.

Lemma agree_value {A} k (item : A -> json) x y : (item x = item y -> x = y) -> agree (true, k, item x) (true, k, item y) -> x = y.
Proof. intros Hi [_ H]. by apply Hi, H. Qed.

Lemma slice_json_inj {A} (item : A -> json) l m : (forall x y, item x = item y -> x = y) -> slice_json item l = slice_json item m -> l = m.
Proof.
  intros Hi H. destruct l as [|x l], m as [|y m]; try done. cbn in H. injection H as H1 H2. f_equal; [by apply Hi|].
  revert m H2. induction l as [|a l IH]; intros [|b m] H2; try done. injection H2 as H2 H3. f_equal; [by apply Hi|by apply IH].
Qed.

(** Splits the agreement of two structs with the same keys. *)
Ltac read_struct H :=
  apply struct_inj in H; [|reflexivity|by apply (bool_decide_eq_true_1 (NoDup _)); vm_compute];
  repeat match goal with
  | H : Forall2 agree (_ :: _) (_ :: _) |- _ => apply Forall2_cons in H as [? H]
  | H : Forall2 agree [] [] |- _ => clear H
  end;
  repeat match goal with
  | H : agree (text_field _ _) _ |- _ => apply agree_text in H
  | H : agree (omit_text _ _) _ |- _ => apply agree_omit in H
  end.

Lemma selection_json_inj a b : selection_json a = selection_json b -> a = b.
Proof. intros H. read_struct H. destruct a, b. cbn in *. congruence. Qed.

Lemma sort_json_inj a b : sort_json a = sort_json b -> a = b.
Proof. intros H. read_struct H. destruct a, b. cbn in *. congruence. Qed.

Lemma resource_json_inj a b : resource_json a = resource_json b -> a = b.
Proof. intros H. read_struct H. destruct a, b. cbn in *. congruence. Qed.

Section FilterShapeInd.
Context (P : filterShape -> Prop).
Context (H : forall r k f o vs es, Forall P es -> P (MkFilterShape r k f o vs es)).

Fixpoint filterShape_ind' (f : filterShape) : P f :=
  match f with
  | MkFilterShape r k fl o vs es =>
      H r k fl o vs es ((fix go l := match l return Forall P l with
                         | [] => Forall_nil_2 P
                         | x :: l' => Forall_cons_2 P x l' (filterShape_ind' x) (go l')
                         end) es)
  end.
End FilterShapeInd.

Lemma filter_shape_json_inj f : forall g, filter_shape_json f = filter_shape_json g -> f = g.
Proof.
  induction f as [r k fl o vs es IH] using filterShape_ind'. intros [r' k' fl' o' vs' es'] H.
  cbn [filter_shape_json] in H. read_struct H. cbn [fs_representation fs_kind fs_field fs_operator fs_value_types fs_expressions] in *. subst.
  repeat match goal with
  | H : agree (omit_slice "value_types" _ _) _ |- _ => apply agree_slice in H; [subst|by intros x y _ [= ->]]
  | H : agree (omit_slice "expressions" _ _) _ |- _ => apply agree_slice in H; [by subst|]
  end.
  rewrite Forall_forall in IH. auto.
Qed.

Lemma query_shape_inj a b : struct_json (query_shape_fields a) = struct_json (query_shape_fields b) -> a = b.
Proof.
  intros H. unfold query_shape_fields in H. read_struct H. destruct a as [s p f g o], b as [s' p' f' g' o']. cbn [qs_source qs_projection qs_filter qs_group_by qs_order_by] in *.
  repeat match goal with
  | H : agree (true, "source", _) _ |- _ => apply (agree_value _ resource_json) in H; [subst|apply resource_json_inj]
  | H : agree (true, "projection", _) _ |- _ => apply (agree_value _ (slice_json selection_json)) in H;
      [subst|apply slice_json_inj, selection_json_inj]
  | H : agree (omit_slice "group_by" _ _) _ |- _ => apply agree_slice in H; [subst|by intros x y _ [= ->]]
  | H : agree (omit_slice "order_by" _ _) _ |- _ => apply agree_slice in H; [subst|intros x y _; apply sort_json_inj]
  end.
  f_equal. match goal with K : agree (omit_filter_shape _) _ |- _ => destruct K as [Hb Hv] end.
  destruct f as [f|], f' as [f'|]; cbn in *; try done. f_equal. by apply filter_shape_json_inj, Hv.
Qed.

Definition sixteen : list Z := map Z.of_nat (seq 0 16).

Lemma hex_digit_inj x y : 0 <= x < 16 -> 0 <= y < 16 -> hex_digit x = hex_digit y -> x = y.
Proof.
  intros Hx Hy H.
  assert (Hin : forall z, 0 <= z < 16 -> In z sixteen).
  { intros z Hz. apply in_map_iff. exists (Z.to_nat z). split; [lia|]. apply in_seq. lia. }
  assert (Hall : forallb (fun x => forallb (fun y => implb (Ascii.eqb (hex_digit x) (hex_digit y)) (x =? y)) sixteen) sixteen = true) by (vm_compute; reflexivity).
  rewrite forallb_forall in Hall. specialize (Hall x (Hin x Hx)). cbv beta in Hall. rewrite forallb_forall in Hall. specialize (Hall y (Hin y Hy)). cbv beta in Hall.
  rewrite H, Ascii.eqb_refl in Hall. by apply Z.eqb_eq.
Qed.

Lemma hex_text_inj a : forall b, hex_text a = hex_text b -> a = b.
Proof.
  induction a as [|c a IH]; intros [|d b] H; try done. cbn in H. injection H as H1 H2 H3. apply IH in H3 as ->. f_equal.
  assert (Hc : forall c, 0 <= byte c < 256) by (intros e; unfold byte; pose proof (N_ascii_bounded e); lia).
  pose proof (Hc c). pose proof (Hc d).
  apply hex_digit_inj in H1; [|div_lia..]. apply hex_digit_inj in H2; [|div_lia..].
  assert (byte c = byte d) as E by div_lia. unfold byte in E. apply N2Z.inj in E.
  by rewrite <- (ascii_N_embedding c), <- (ascii_N_embedding d), E.
Qed.

(** *** Shapes have no numbers *)

Lemma forallb_map {A B} (f : B -> bool) (g : A -> B) l : forallb f (map g l) = forallb (fun x => f (g x)) l.
Proof. induction l as [|x l IH]; cbn; by rewrite ?IH. Qed.

Lemma struct_text fields : Forall (fun f : field_of => json_text f.2 = true) fields -> json_text (struct_json fields) = true.
Proof.
  intros H. unfold struct_json, printed. cbn [json_text]. rewrite forallb_map. apply forallb_forall. intros f Hf. apply List.filter_In in Hf as [Hf _].
  rewrite Forall_forall in H. by apply H, list_elem_of_In.
Qed.

Lemma array_text {A} (item : A -> json) l : (forall x, x ∈ l -> json_text (item x) = true) -> json_text (JArr (map item l)) = true.
Proof. intros H. cbn. rewrite forallb_map. apply forallb_forall. intros x Hx. by apply H, list_elem_of_In. Qed.

Lemma slice_text {A} (item : A -> json) l : (forall x, json_text (item x) = true) -> json_text (slice_json item l) = true.
Proof. intros H. destruct l as [|x l]; [done|]. unfold slice_json. apply array_text. auto. Qed.

Lemma filter_shape_text f : json_text (filter_shape_json f) = true.
Proof.
  induction f as [r k fl o vs es IH] using filterShape_ind'. cbn [filter_shape_json]. rewrite Forall_forall in IH.
  apply struct_text. repeat constructor; unfold omit_slice; cbn [snd]; by apply array_text.
Qed.

Lemma query_shape_text q : json_text (struct_json (query_shape_fields q)) = true.
Proof.
  assert (Hs : forall s, json_text (selection_json s) = true) by (intros s; apply struct_text; repeat constructor).
  assert (Ho : forall s, json_text (sort_json s) = true) by (intros s; apply struct_text; repeat constructor).
  apply struct_text. unfold query_shape_fields, omit_filter_shape, omit_slice.
  rewrite !Forall_cons, Forall_nil. split_and!; cbn [snd]; [apply struct_text; repeat constructor|by apply slice_text| |by apply array_text..|done].
  destruct (qs_filter q); [apply filter_shape_text|done].
Qed.

(** ** What a hash says *)

(** [g] differs from [f] at most in the values of its parameters: the predicates have the
    same operator on the same field in the same representation, with values of the same
    types, and the other nodes have the same members in the same order. *)
Inductive same_but_values : Filter -> Filter -> Prop :=
| same_predicate f g :
    f_kind f = "predicate" -> f_kind g = "predicate" -> f_representation g = f_representation f -> f_field g = f_field f ->
    f_operator g = f_operator f -> Forall2 (fun v w => tv_type w = tv_type v) (default [] (f_values f)) (default [] (f_values g)) ->
    same_but_values f g
| same_group f g :
    f_kind f <> "predicate" -> f_kind g = f_kind f -> f_representation g = f_representation f -> f_field g = f_field f ->
    f_operator g = f_operator f -> Forall2 same_but_values (f_expressions f) (f_expressions g) ->
    same_but_values f g.

Lemma map_eq_Forall2 {A B} (f : A -> B) l k : map f l = map f k <-> Forall2 (fun x y => f y = f x) l k.
Proof.
  revert k. induction l as [|x l IH]; intros [|y k]; cbn; split; intros H; try done; try by inversion H.
  - injection H as H1 H2. constructor; [done|by apply IH].
  - apply Forall2_cons in H as [H1 H2%IH]. congruence.
Qed.

Lemma shapeFilter_exact f : forall g, shapeFilter f = shapeFilter g <-> same_but_values f g.
Proof.
  induction f as [r k fl o vs es IH] using Filter_ind'. intros g. destruct g as [r' k' fl' o' vs' es'].
  cbn [shapeFilter f_kind f_representation f_field f_operator f_values f_expressions]. split.
  - destruct (String.eqb_spec k "predicate") as [->|Hk], (String.eqb_spec k' "predicate") as [->|Hk']; intros H; injection H; try done.
    + intros Hv -> -> ->. apply same_predicate; try done. by apply map_eq_Forall2.
    + intros Hm -> -> -> ->. apply same_group; try done. cbn. clear H. revert es' Hm. induction IH as [|e es He _ IHes]; intros [|e' es'] Hm; try done.
      injection Hm as H1 H2. constructor; [by apply He|by apply IHes].
  - intros H. inversion H as [? ? H1 H2 H3 H4 H5 Hv|? ? H1 H2 H3 H4 H5 Hm]; cbn in *; subst.
    + cbn. f_equal. by apply map_eq_Forall2.
    + destruct (String.eqb_spec k "predicate"); [done|]. f_equal. clear H. induction Hm as [|e e' es es' He Hm IHes]; [done|].
      apply Forall_cons in IH as [IH1 IH2]. cbn. f_equal; [by apply IH1|by apply IHes].
Qed.

(** C23: The shape hash of a select or explain is a function of the query without its
    parameter values, limit and offset; and, as far as SHA-256 does not collide on the
    two texts, of nothing less: two queries, one of them with ASCII names only (as all
    validated identifiers are), have the same hash exactly when they agree on source,
    projection, grouping and order and their filters differ at most in parameter values, so
    that number, types, fields, operators, representations and nesting are the same. *)
Theorem ShapeHash_exact sha256 a b :
  let text spec := marshal (struct_json (query_shape_fields (shape_of spec))) in
  (sha256 (text a) = sha256 (text b) -> text a = text b) ->
  json_ascii (struct_json (query_shape_fields (shape_of b))) = true ->
  ShapeHash sha256 a = ShapeHash sha256 b <->
  n_source a = n_source b /\ n_projection a = n_projection b /\ option_Forall2 same_but_values (n_filter a) (n_filter b) /\
  n_group_by a = n_group_by b /\ n_order_by a = n_order_by b.
Proof.
  intros text Hsha Hascii. assert (Hfilter : shapeFilter <$> n_filter a = shapeFilter <$> n_filter b <-> option_Forall2 same_but_values (n_filter a) (n_filter b)).
  { destruct (n_filter a) as [f|], (n_filter b) as [g|]; cbn; split; intros H; try done; try by inversion H.
    - injection H as H. constructor. by apply shapeFilter_exact.
    - inversion H; subst. f_equal. by apply shapeFilter_exact.
    - constructor. }
  rewrite <- Hfilter. unfold ShapeHash. split.
  - intros H%hex_text_inj%Hsha. apply marshal_inj_text in H; [|apply query_shape_text|done].
    apply query_shape_inj in H. unfold shape_of in H. by injection H.
  - intros (H1 & H2 & H3 & H4 & H5). unfold shape_of. by rewrite H1, H2, H3, H4, H5.
Qed.

Definition with_bound (value : string) (limit : Z) : NormalizedSpec := {|
  n_source := {| r_schema := "shop"; r_name := "users" |};
  n_projection := [{| s_representation := EmptyString; s_kind := "field"; s_field := "name"; s_function := EmptyString; s_alias := EmptyString |}];
  n_filter := Some {| f_representation := EmptyString; f_kind := "predicate"; f_field := "age"; f_operator := "gt";
    f_values := Some [{| tv_type := "integer"; tv_value := Some value |}]; f_expressions := [] |};
  n_group_by := []; n_order_by := []; n_limit := limit; n_offset := 0 |}.

Example hashed_text : marshal (struct_json (query_shape_fields (shape_of (with_bound "7" 10)))) =
  lit "{'source':{'schema':'shop','name':'users'},'projection':[{'kind':'field','field':'name'}],'filter':{'kind':'predicate','field':'age','operator':'gt','value_types':['integer']}}".
Proof. vm_compute. reflexivity. Qed.

Lemma ShapeHash_exact_witness :
  ShapeHash id (with_bound "7" 10) = ShapeHash id (with_bound "18" 20) <->
  {| r_schema := "shop"; r_name := "users" |} = {| r_schema := "shop"; r_name := "users" |} /\
  n_projection (with_bound "7" 10) = n_projection (with_bound "18" 20) /\
  option_Forall2 same_but_values (n_filter (with_bound "7" 10)) (n_filter (with_bound "18" 20)) /\ ([] : list string) = [] /\ ([] : list Sort) = [].
Proof. apply (ShapeHash_exact id (with_bound "7" 10) (with_bound "18" 20)); [done|vm_compute; reflexivity]. Defined.
