(* ===== verification/Driver.v ===== *)
(** The MySQL connection as the adapter sees it (internal/adapters/mysql8): the
    calls of [database/sql] and of the driver as a class, the classification of
    their errors, the state that an operation threads through its calls, deferred
    calls, and the rules by which the operations are verified. The server and the
    driver are not modelled: an instance of [Driver] may answer anything; the laws
    [SessionLaws] say which calls may change the session. *)
From S2P Require Import Prelude Domain GoJson Number Portable Values QuerySpec Rows.
Local Open Scope string_scope.
Local Open Scope Z_scope.

(** ** Errors *)

(** What the adapter looks at in a failed call: whether the context of the request
    is done when the call returns; and of the error itself whether it is one of the
    two context errors, [sql.ErrNoRows] or [mysql.ErrReadPktTooLarge], the number of
    a [*mysql.MySQLError], and whether it is a network error, [driver.ErrBadConn],
    [mysql.ErrInvalidConn], [io.EOF] or [io.ErrUnexpectedEOF]. *)
Record failure := {
  fl_context : bool; fl_cancelled : bool; fl_no_rows : bool; fl_packet : bool; fl_number : option Z; fl_network : bool;
}.

Definition numbered (numbers : list Z) (f : failure) : bool :=
  match fl_number f with Some n => existsb (Z.eqb n) numbers | None => false end.

Definition timeout_error : goerr := DatabaseError "timeout".
Definition unavailable_error : goerr := DatabaseError "unavailable".

Definition unavailable_numbers : list Z := [1040; 1044; 1045; 1053; 1158; 1159; 1160; 1161; 1227; 1345; 2002; 2003; 2006; 2013].

Definition classifyExecutionError (f : failure) : goerr :=
  if fl_context f || fl_cancelled f then timeout_error
  else if fl_packet f then result_too_large
  else if numbered [3024] f then timeout_error
  else if numbered unavailable_numbers f then unavailable_error
  else if fl_network f then unavailable_error
  else upstream_error.

Definition classifyQueryError (f : failure) : goerr :=
  if numbered [1054; 1146; 1356] f then invalid_error else classifyExecutionError f.

(** ** The driver *)

(** The rows of an answer: the driver's column types, for each [Next] the row that
    [Scan] would read or its error, the error of [Err] after the last row, and the one
    of [Err] when the rows are left before the last one. *)
Record rowset := {
  rs_columns : list (string * string * option bool) + failure;
  rs_rows : list (raw_row + failure);
  rs_err : option failure;
  rs_stop : option failure;
}.

Inductive deadline := RequestDeadline (ms : Z) | CleanupDeadline | NoDeadline.

(** The calls, on a state [W] of everything outside the program. [None] is [nil]. *)
Class Driver (W : Type) := {
  context_done : W -> bool;                              (* ctx.Err() is set *)
  open_conn : W -> option failure * W;                   (* db.Conn *)
  close_conn : W -> W;                                   (* conn.Close: back to the pool *)
  set_deadline : deadline -> W -> option failure * W;    (* conn.Raw(mysql.SetConnectionDeadline) *)
  exec : string -> list Bind -> W -> option failure * W; (* conn.ExecContext *)
  query_row : string -> list Bind -> W -> (raw_row + failure) * W;  (* conn.QueryRowContext *)
  query : string -> list Bind -> W -> (rowset + failure) * W;       (* conn.QueryContext *)
  close_rows : W -> option failure * W;                  (* rows.Close *)
  drain_rows : W -> W;                                   (* drainAndCloseRows, its error ignored *)
  begin_tx : W -> option failure * W;                    (* conn.BeginTx, read only *)
  commit_tx : W -> option failure * W;
  rollback_tx : W -> option failure * W;
  discard : W -> W;                                      (* conn.Raw returning driver.ErrBadConn *)
  abort : W -> option failure * W;                       (* conn.Raw(mysql.AbortConnection) *)
}.

(** The statements that read the server's state. *)
Definition reads (statement : string) : bool := sprefix "SELECT" statement || sprefix "EXPLAIN" statement.

Definition set_timezone_statement : string := "SET SESSION time_zone = ?".
Definition get_timezone_statement : string := "SELECT @@session.time_zone".
Definition isolation_statement : string := "SET TRANSACTION ISOLATION LEVEL REPEATABLE READ".
Definition start_statement : string := "START TRANSACTION WITH CONSISTENT SNAPSHOT, READ ONLY".

(** [calls w w']: one call on a connection in hand took [w] to [w']. *)
Inductive calls {W} `{Driver W} (w : W) : W -> Prop :=
| calls_deadline d r w' : set_deadline d w = (r, w') -> calls w w'
| calls_exec text args r w' : exec text args w = (r, w') -> calls w w'
| calls_row text args r w' : query_row text args w = (r, w') -> calls w w'
| calls_query text args r w' : query text args w = (r, w') -> calls w w'
| calls_close_rows r w' : close_rows w = (r, w') -> calls w w'
| calls_drain : calls w (drain_rows w)
| calls_begin r w' : begin_tx w = (r, w') -> calls w w'
| calls_commit r w' : commit_tx w = (r, w') -> calls w w'
| calls_rollback r w' : rollback_tx w = (r, w') -> calls w w'
| calls_discard : calls w (discard w)
| calls_abort r w' : abort w = (r, w') -> calls w w'
| calls_close : calls w (close_conn w).

(** The session of the connection, and what the calls may do to it. The time zone
    and the open transaction are the server's; [discarded] says that the pool will
    not hand the connection out again. A failed call may have done anything that
    the same call could do. *)
Class SessionLaws (W : Type) `{Driver W} := {
  session_timezone : W -> string;
  in_transaction : W -> bool;
  discarded : W -> bool;

  same_session w w' := session_timezone w' = session_timezone w /\ in_transaction w' = in_transaction w;

  deadline_session d w r w' : set_deadline d w = (r, w') -> same_session w w';
  read_row_session text args w r w' : reads text = true -> query_row text args w = (r, w') -> same_session w w';
  read_session text args w r w' : reads text = true -> query text args w = (r, w') -> same_session w w';
  close_rows_session w r w' : close_rows w = (r, w') -> same_session w w';
  drain_session w : same_session w (drain_rows w);
  close_session w : same_session w (close_conn w);

  (** The time zone that the server reports is the session's; setting it may fail
      half way, and touches no transaction. *)
  timezone_read args w row w' : query_row get_timezone_statement args w = (inl row, w') -> row = [Some (session_timezone w')];
  timezone_set args w r w' : exec set_timezone_statement args w = (r, w') -> in_transaction w' = in_transaction w;

  (** The isolation level is that of the next transaction only. *)
  isolation_set args w r w' : exec isolation_statement args w = (r, w') -> same_session w w';
  start_session args w r w' : exec start_statement args w = (r, w') -> session_timezone w' = session_timezone w;
  end_session text args w r w' : In text ["COMMIT"; "ROLLBACK"] -> exec text args w = (r, w') ->
    session_timezone w' = session_timezone w /\ (r = None -> in_transaction w' = false);

  (** A transaction that [database/sql] cannot start is not open, or the driver gives the
      connection up. One that it cannot end may still be open: the driver answers the
      server's error to COMMIT or ROLLBACK and keeps the connection. *)
  begin_session w r w' : begin_tx w = (r, w') ->
    session_timezone w' = session_timezone w /\ (r <> None -> in_transaction w' = in_transaction w \/ discarded w' = true);
  commit_session w r w' : commit_tx w = (r, w') ->
    session_timezone w' = session_timezone w /\ (r = None -> in_transaction w' = false);
  rollback_session w r w' : rollback_tx w = (r, w') ->
    session_timezone w' = session_timezone w /\ (r = None -> in_transaction w' = false);

  discard_session w : discarded (discard w) = true;
  abort_session w w' : abort w = (None, w') -> discarded w' = true;

  (** A discarded connection stays so. *)
  discarded_stays w w' : discarded w = true -> calls w w' -> discarded w' = true;
}.

(** ** Operations

    An operation threads the world, the trace of its calls and the three captured
    variables of its deferred calls: whether the deadline is to be cleared, the
    session to be restored, and the transaction to be ended. *)

Inductive event : Type :=
| EvOpen (ok : bool)
| EvDeadline (d : deadline) (ok : bool)
| EvExec (text : string) (args : list Bind) (ok : bool)
| EvRow (text : string) (args : list Bind)
| EvQuery (text : string) (args : list Bind) (answer : rowset + failure)
| EvCloseRows (ok : bool)
| EvDrain
| EvBegin (ok : bool)
| EvCommit (ok : bool)
| EvRollback (ok : bool)
| EvDiscard
| EvAbort (ok : bool)
| EvRelease.

Record frame (W : Type) := {
  fr_world : W; fr_trace : list event;
  fr_clearDeadline : bool; fr_sessionMutated : bool; fr_transactionActive : bool;
}.
Arguments fr_world {W}.
Arguments fr_trace {W}.
Arguments fr_clearDeadline {W}.
Arguments fr_sessionMutated {W}.
Arguments fr_transactionActive {W}.

Definition M (W A : Type) : Type := frame W -> result A * frame W.

Section Monad.
Context {W : Type}.

Definition ret {A} (a : A) : M W A := fun s => (Ok a, s).
Definition fail {A} (e : goerr) : M W A := fun s => (Err e, s).
Definition lift {A} (r : result A) : M W A := fun s => (r, s).

Definition bind {A B} (m : M W A) (k : A -> M W B) : M W B := fun s =>
  match m s with
  | (Ok a, s') => k a s'
  | (Err e, s') => (Err e, s')
  end.

(** [defer f; m]: [f] runs however [m] returns, and may replace what it returns. *)
Definition deferred {A} (f : result A -> M W A) (m : M W A) : M W A := fun s => let '(r, s') := m s in f r s'.

(** A call whose own error the program drops. *)
Definition ignore {A B} (m : M W A) (r : result B) : M W B := fun s => (r, (m s).2).

Definition with_clearDeadline (b : bool) : M W unit := fun s =>
  (Ok tt, {| fr_world := fr_world s; fr_trace := fr_trace s; fr_clearDeadline := b;
             fr_sessionMutated := fr_sessionMutated s; fr_transactionActive := fr_transactionActive s |}).
Definition with_sessionMutated (b : bool) : M W unit := fun s =>
  (Ok tt, {| fr_world := fr_world s; fr_trace := fr_trace s; fr_clearDeadline := fr_clearDeadline s;
             fr_sessionMutated := b; fr_transactionActive := fr_transactionActive s |}).
Definition with_transactionActive (b : bool) : M W unit := fun s =>
  (Ok tt, {| fr_world := fr_world s; fr_trace := fr_trace s; fr_clearDeadline := fr_clearDeadline s;
             fr_sessionMutated := fr_sessionMutated s; fr_transactionActive := b |}).

Definition after (w : W) (e : event) (s : frame W) : frame W := {|
  fr_world := w; fr_trace := (fr_trace s ++ [e])%list; fr_clearDeadline := fr_clearDeadline s;
  fr_sessionMutated := fr_sessionMutated s; fr_transactionActive := fr_transactionActive s |}.

Definition failed (classify : failure -> goerr) (r : option failure) : error :=
  match r with None => nil_error | Some f => Err (classify f) end.
Definition answered {A} (classify : failure -> goerr) (r : A + failure) : result A :=
  match r with inl a => Ok a | inr f => Err (classify f) end.
Definition succeeded (r : option failure) : bool := match r with None => true | Some _ => false end.
Definition has_answer {A} (r : A + failure) : bool := match r with inl _ => true | inr _ => false end.
End Monad.

Notation "'let!' x := m 'in' k" := (bind m (fun x => k))
  (at level 10, x pattern, m at level 100, k at level 200) : go_scope.
Notation "'do!' m 'then' k" := (bind m (fun _ : unit => k))
  (at level 10, m at level 100, k at level 200) : go_scope.
Notation "'if!' b 'return' e 'then' k" := (if b then fail e else k)
  (at level 10, b at level 100, e at level 100, k at level 200) : go_scope.

Section Calls.
Context {W : Type} `{Driver W}.

(** An error of the program itself, classified with the context. *)
Definition plain_failure (w : W) : failure := {|
  fl_context := context_done w; fl_cancelled := false; fl_no_rows := false; fl_packet := false; fl_number := None;
  fl_network := false |}.

Definition call (event_of : bool -> event) (op : W -> option failure * W) (classify : failure -> goerr) : M W unit := fun s =>
  let '(r, w) := op (fr_world s) in (failed classify r, after w (event_of (succeeded r)) s).

Definition Conn : M W unit := call EvOpen open_conn classifyExecutionError.
Definition setDeadline (d : deadline) : M W unit := call (EvDeadline d) (set_deadline d) classifyExecutionError.
Definition ExecContext (text : string) (args : list Bind) : M W unit :=
  call (EvExec text args) (exec text args) classifyExecutionError.
Definition CloseRows : M W unit := call EvCloseRows close_rows classifyExecutionError.
Definition BeginTx : M W unit := call EvBegin begin_tx classifyExecutionError.
Definition Commit : M W unit := call EvCommit commit_tx classifyExecutionError.
Definition Rollback : M W unit := call EvRollback rollback_tx classifyExecutionError.
Definition AbortConnection : M W unit := call EvAbort abort classifyExecutionError.

Definition QueryRowContext (classify : failure -> goerr) (text : string) (args : list Bind) : M W raw_row := fun s =>
  let '(r, w) := query_row text args (fr_world s) in (answered classify r, after w (EvRow text args) s).
Definition QueryContext (classify : failure -> goerr) (text : string) (args : list Bind) : M W rowset := fun s =>
  let '(r, w) := query text args (fr_world s) in (answered classify r, after w (EvQuery text args r) s).

Definition effect (e : event) (op : W -> W) : M W unit := fun s => (Ok tt, after (op (fr_world s)) e s).
Definition discardSQLConnection : M W unit := effect EvDiscard discard.
Definition drainAndCloseRows : M W unit := effect EvDrain drain_rows.
Definition release : M W unit := effect EvRelease close_conn.

(** [if err != nil { discardSQLConnection(conn); return err }] *)
Definition or_discard {A} (m : M W A) : M W A := fun s =>
  match m s with
  | (Ok a, s') => (Ok a, s')
  | (Err e, s') => (Err e, (discardSQLConnection s').2)
  end.

(** [defer func() { _ = f() }()] *)
Definition defer_ignored {A} (f : M W unit) (m : M W A) : M W A := deferred (fun r => ignore f r) m.

(** Failing with an error of the program that is classified as the driver's are. *)
Definition classified_failure {A} : M W A := fun s => (Err (classifyExecutionError (plain_failure (fr_world s))), s).

(** What [Scan] reads into strings: a NULL or another number of columns is an error. *)
Fixpoint scan_strings (row : raw_row) : option (list string) :=
  match row with
  | [] => Some []
  | None :: _ => None
  | Some x :: row' => xs ← scan_strings row'; Some (x :: xs)
  end.

Definition row_result (classify : failure -> goerr) (row : raw_row + failure) : result raw_row := answered classify row.
Definition stream (classify : failure -> goerr) (rs : rowset) : row_stream := {|
  st_rows := map (row_result classify) (rs_rows rs); st_err := failed classify (rs_err rs) |}.
End Calls.

(** ** Rules

    A triple says what holds after an operation, whatever it returns, unless the
    frame is [dead]: a property that no operation undoes, here that the connection
    is discarded. *)
Section Rules.
Context {W : Type} (dead : frame W -> Prop).

Definition keeps {A} (m : M W A) : Prop := forall s, dead s -> dead (m s).2.

Definition triple {A} (P : frame W -> Prop) (m : M W A) (Q : result A -> frame W -> Prop) : Prop :=
  keeps m /\ forall s, P s -> dead (m s).2 \/ Q (m s).1 (m s).2.

Lemma triple_intro {A} P (m : M W A) Q :
  keeps m -> (forall s, P s -> dead (m s).2 \/ Q (m s).1 (m s).2) -> triple P m Q.
Proof. by split. Qed.

Lemma triple_weaken {A} P P' (m : M W A) Q Q' :
  triple P m Q -> (forall s, P' s -> P s) -> (forall r s, Q r s -> Q' r s) -> triple P' m Q'.
Proof. intros [Hk H] HP HQ. split; [done|]. intros s Hs. destruct (H s (HP s Hs)); auto. Qed.

Lemma triple_bind {A B} P (m : M W A) (k : A -> M W B) R Q :
  triple P m R -> (forall a, triple (R (Ok a)) (k a) Q) -> (forall e s, R (Err e) s -> Q (Err e) s) ->
  triple P (bind m k) Q.
Proof.
  intros [Hk Hm] Hb He. split.
  - intros s Hd. unfold bind. specialize (Hk s Hd). destruct (m s) as [[a|e] s']; [by apply Hb|done].
  - intros s Hs. unfold bind. specialize (Hm s Hs). destruct (m s) as [[a|e] s']; cbn [fst snd] in *.
    + destruct (Hb a) as [Hka Hba]. destruct Hm as [Hd|Hr]; [left; by apply Hka|by apply Hba].
    + destruct Hm as [Hd|Hr]; [by left|right; auto].
Qed.

Lemma triple_bind_ok {A B} P (a : A) (k : A -> M W B) Q : triple P (k a) Q -> triple P (bind (lift (Ok a)) k) Q.
Proof. intros H. exact H. Qed.

Lemma triple_bind_err {A B} P e (k : A -> M W B) (Q : result B -> frame W -> Prop) :
  (forall s, P s -> Q (Err e) s) -> triple P (bind (lift (Err e)) k) Q.
Proof. intros HQ. split; [intros s Hs; exact Hs|]. intros s Hs. right. by apply HQ. Qed.

Lemma triple_assuming {A} (F : Prop) P (m : M W A) Q : keeps m -> (F -> triple P m Q) -> triple (fun s => P s /\ F) m Q.
Proof. intros Hk H. split; [done|]. intros s [Hs HF]. by apply H. Qed.

(** The body of a block of deferred calls, then the deferred call. *)
Lemma triple_deferred {A} P (f : result A -> M W A) (m : M W A) R Q :
  triple P m R -> (forall r, triple (R r) (f r) Q) -> triple P (deferred f m) Q.
Proof.
  intros [Hk Hm] Hf. split.
  - intros s Hd. unfold deferred. specialize (Hk s Hd). destruct (m s) as [r s']. by apply Hf.
  - intros s Hs. unfold deferred. specialize (Hm s Hs). destruct (m s) as [r s']; cbn [fst snd] in *.
    destruct (Hf r) as [Hkr Hfr]. destruct Hm as [Hd|Hr]; [left; by apply Hkr|by apply Hfr].
Qed.

Lemma triple_pure {A} P (r : result A) Q : (forall s, P s -> Q r s) -> triple P (lift r) Q.
Proof. intros H. split; [intros s Hs; exact Hs|]. intros s Hs. right. by apply H. Qed.

Lemma triple_ret {A} P (a : A) Q : (forall s, P s -> Q (Ok a) s) -> triple P (ret a) Q.
Proof. apply triple_pure. Qed.

Lemma triple_fail {A} P e (Q : result A -> frame W -> Prop) : (forall s, P s -> Q (Err e) s) -> triple P (fail e) Q.
Proof. apply triple_pure. Qed.

Lemma triple_ignore {A B} P (m : M W A) (r : result B) Q : triple P m (fun _ s => Q r s) -> triple P (ignore m r) Q.
Proof. intros [Hk Hm]. by split. Qed.

Lemma triple_if {A} P (b : bool) (m k : M W A) Q :
  triple (fun s => b = true /\ P s) m Q -> triple (fun s => b = false /\ P s) k Q -> triple P (if b then m else k) Q.
Proof.
  intros [Hm1 Hm2] [Hk1 Hk2]. destruct b; split; try done; intros s Hs; [by apply Hm2|by apply Hk2].
Qed.

(** An assertion that every operation of a list keeps. *)
Definition invariant {A} (I : frame W -> Prop) (m : M W A) : Prop := triple I m (fun _ => I).

Lemma invariant_bind {A B} I (m : M W A) (k : A -> M W B) :
  invariant I m -> (forall a, invariant I (k a)) -> invariant I (bind m k).
Proof. intros Hm Hk. by apply (triple_bind _ _ _ (fun _ => I)). Qed.

Lemma invariant_pure {A} I (r : result A) : invariant I (lift r).
Proof. by apply triple_pure. Qed.

Lemma invariant_if {A} I (b : bool) (m k : M W A) : invariant I m -> invariant I k -> invariant I (if b then m else k).
Proof. by destruct b. Qed.
End Rules.

(** ** What the calls do to the session *)

(** Events that excuse an operation from what it promises about the session. *)
Class Excuse := excused : event -> Prop.

Section SessionRules.
Context {W : Type} `{SessionLaws W} {X : Excuse}.

(** The connection is discarded, or an excuse happened. *)
Definition gone (s : frame W) : Prop := discarded (fr_world s) = true \/ Exists excused (fr_trace s).

Lemma gone_after s w e : (discarded (fr_world s) = true -> discarded w = true) -> gone s -> gone (after w e s).
Proof. intros Hd [Hs|Hs]; [left; by apply Hd|right]. cbn. apply Exists_app. by left. Qed.

Lemma gone_frame s s' : fr_world s' = fr_world s -> fr_trace s' = fr_trace s -> gone s -> gone s'.
Proof. intros Hw Ht. unfold gone. by rewrite Hw, Ht. Qed.

Lemma gone_discard s : gone (discardSQLConnection s).2.
Proof. left. cbn. apply discard_session. Qed.

(** Assertions about the session and the captured variables only. *)
Definition stable (I : frame W -> Prop) : Prop :=
  forall s w e, same_session (fr_world s) w -> I s -> I (after w e s).

Lemma call_keeps event_of op classify : (forall w r w', op w = (r, w') -> calls w w') -> keeps gone (call event_of op classify).
Proof.
  intros Hop s Hs. unfold call. destruct (op (fr_world s)) as [r w] eqn:E. cbn.
  eapply gone_after; [|done]. intros Hd. by eapply discarded_stays, Hop.
Qed.

Lemma effect_keeps e op : (forall w, calls w (op w)) -> keeps gone (effect e op).
Proof. intros Hop s Hs. cbn. eapply gone_after; [|done]. intros Hd. by eapply discarded_stays. Qed.

Lemma QueryContext_keeps classify text args : keeps gone (QueryContext classify text args).
Proof.
  intros s Hs. unfold QueryContext. destruct (query text args (fr_world s)) as [r w] eqn:E. cbn.
  eapply gone_after; [|done]. intros Hd. by eapply discarded_stays, calls_query.
Qed.

Lemma QueryRowContext_keeps classify text args : keeps gone (QueryRowContext classify text args).
Proof.
  intros s Hs. unfold QueryRowContext. destruct (query_row text args (fr_world s)) as [r w] eqn:E. cbn.
  eapply gone_after; [|done]. intros Hd. by eapply discarded_stays, calls_row.
Qed.

Lemma keeps_or_discard {A} (m : M W A) : keeps gone m -> keeps gone (or_discard m).
Proof.
  intros Hm s Hs. unfold or_discard. specialize (Hm s Hs). destruct (m s) as [[a|e] s']; [done|].
  by apply (effect_keeps EvDiscard discard calls_discard).
Qed.

(** A call that the session does not feel. *)
Lemma call_session I event_of op classify :
  (forall w r w', op w = (r, w') -> calls w w') -> (forall w r w', op w = (r, w') -> same_session w w') ->
  stable I -> invariant gone I (call event_of op classify).
Proof.
  intros Hop Hsame HI. split; [by apply call_keeps|]. intros s Hs. right. unfold call.
  destruct (op (fr_world s)) as [r w] eqn:E. cbn. by apply HI; [eapply Hsame|].
Qed.

Lemma setDeadline_session I d : stable I -> invariant gone I (setDeadline d).
Proof. apply call_session; [intros w r w' E; by eapply calls_deadline|apply deadline_session]. Qed.

Lemma CloseRows_session I : stable I -> invariant gone I CloseRows.
Proof. apply call_session; [intros w r w' E; by eapply calls_close_rows|apply close_rows_session]. Qed.

Lemma drain_invariant I : stable I -> invariant gone I drainAndCloseRows.
Proof.
  intros HI. split; [apply effect_keeps, calls_drain|]. intros s Hs. right. cbn. by apply HI; [apply drain_session|].
Qed.

Lemma release_invariant I : stable I -> invariant gone I release.
Proof.
  intros HI. split; [apply effect_keeps, calls_close|]. intros s Hs. right. cbn. by apply HI; [apply close_session|].
Qed.

Lemma isolation_invariant I args : stable I -> invariant gone I (ExecContext isolation_statement args).
Proof. apply call_session; [intros w r w' E; by eapply calls_exec|apply isolation_set]. Qed.

Lemma QueryContext_session I classify text args : stable I -> reads text = true -> invariant gone I (QueryContext classify text args).
Proof.
  intros HI Ht. split; [apply QueryContext_keeps|]. intros s Hs. right. unfold QueryContext.
  destruct (query text args (fr_world s)) as [r w] eqn:E. cbn. by apply HI; [eapply read_session|].
Qed.

Lemma QueryRowContext_session I classify text args : stable I -> reads text = true -> invariant gone I (QueryRowContext classify text args).
Proof.
  intros HI Ht. split; [apply QueryRowContext_keeps|]. intros s Hs. right. unfold QueryRowContext.
  destruct (query_row text args (fr_world s)) as [r w] eqn:E. cbn. by apply HI; [eapply read_row_session|].
Qed.

(** After an error the connection is discarded. *)
Lemma triple_or_discard {A} P (m : M W A) Q : triple gone P m Q ->
  triple gone P (or_discard m) (fun r s => match r with Ok a => Q (Ok a) s | Err _ => False end).
Proof.
  intros [Hk Hm]. split; [by apply keeps_or_discard|]. intros s Hs. unfold or_discard. specialize (Hm s Hs).
  destruct (m s) as [[a|e] s']; cbn [fst snd] in *; [done|]. left. apply gone_discard.
Qed.

Lemma discard_triple {A} P (r : result A) Q : triple gone P (ignore discardSQLConnection r) Q.
Proof.
  apply triple_ignore. split; [apply effect_keeps, calls_discard|]. intros s _. left. apply gone_discard.
Qed.

Lemma classified_failure_triple {A} I : invariant gone I (classified_failure (A := A)).
Proof. split; [intros s Hs; exact Hs|]. intros s Hs. by right. Qed.

Lemma classified_failure_weaken {A} P (Q : result A -> frame W -> Prop) :
  (forall s e, P s -> Q (Err e) s) -> triple gone P classified_failure Q.
Proof. intros HQ. split; [intros s Hs; exact Hs|]. intros s Hs. right. by apply HQ. Qed.
End SessionRules.

(** ** A simulated server

    A server without failures, to show that the laws can hold: it answers row
    queries and queries from two tables, and keeps its session. *)
Record simulated := { sm_timezone : string; sm_transaction : bool; sm_discarded : bool }.

Definition with_transaction (b : bool) (w : simulated) : simulated := {|
  sm_timezone := sm_timezone w; sm_transaction := b; sm_discarded := sm_discarded w |}.

Section Simulated.
Context (rows : string -> raw_row) (answers : string -> rowset).

Definition simulated_exec (text : string) (args : list Bind) (w : simulated) : simulated :=
  if String.eqb text set_timezone_statement then
    {| sm_timezone := match args with [BindString z] => z | _ => sm_timezone w end;
       sm_transaction := sm_transaction w; sm_discarded := sm_discarded w |}
  else if String.eqb text start_statement then with_transaction true w
  else if contains ["COMMIT"; "ROLLBACK"] text then with_transaction false w
  else w.

Instance simulated_driver : Driver simulated := {|
  context_done _ := false;
  open_conn w := (None, {| sm_timezone := "SYSTEM"; sm_transaction := false; sm_discarded := false |});
  close_conn w := w;
  set_deadline _ w := (None, w);
  exec text args w := (None, simulated_exec text args w);
  query_row text _ w := (inl (if String.eqb text get_timezone_statement then [Some (sm_timezone w)] else rows text), w);
  query text _ w := (inl (answers text), w);
  close_rows w := (None, w);
  drain_rows w := w;
  begin_tx w := (None, with_transaction true w);
  commit_tx w := (None, with_transaction false w);
  rollback_tx w := (None, with_transaction false w);
  discard w := {| sm_timezone := sm_timezone w; sm_transaction := sm_transaction w; sm_discarded := true |};
  abort w := (None, {| sm_timezone := sm_timezone w; sm_transaction := sm_transaction w; sm_discarded := true |});
|}.

Lemma simulated_exec_discarded text args w : sm_discarded (simulated_exec text args w) = sm_discarded w.
Proof. unfold simulated_exec. repeat case_match; done. Qed.

#[refine] Instance simulated_session : SessionLaws simulated := {|
  session_timezone := sm_timezone; in_transaction := sm_transaction; discarded := sm_discarded |}.
Proof.
  all: try (intros; simpl in *; simplify_eq; done).
  - intros text args w r w' [<-|[<-|[]]] E; simpl in E; injection E as <- <-; done.
  - intros w w' Hd Hc. inversion Hc; simpl in *; simplify_eq; try done. by rewrite simulated_exec_discarded.
Defined.
End Simulated.
