(* ===== verification/Session.v ===== *)
(** The operations that run a query on one connection
    (internal/adapters/mysql8/mysql8.go, aggregate.go and source_text.go): pinning
    and restoring the session's time zone, the read-only transaction, the plan that
    is read and checked before the statement runs, and the deferred calls that clean
    up on every path. *)
From S2P Require Import Prelude Domain GoJson Number Portable Values QuerySpec Config Policy Sql JsonText Rows Plan Aggregate AggregateNormal NumericBucket SqlAggregate PolicyAggregate Driver.
Local Open Scope string_scope.
Local Open Scope Z_scope.

Definition newline : string := String (ascii_of_nat 10) EmptyString.

(** ** The server *)

Record serverInfo := { version : string; versionComment : string; lowerCaseTableNames : Z }.

Fixpoint has_substring (x s : string) : bool :=
  sprefix x s || match s with EmptyString => false | String _ s' => has_substring x s' end.

(** [strconv.Atoi], with the range of an [int]. *)
Definition Atoi (s : string) : option Z :=
  z ← atoi s; if (- max_int - 1 <=? z) && (z <=? max_int) then Some z else None.

Definition validateServerVersion (version versionComment : string) : error :=
  let identity := lower_name (version +:+ " " +:+ versionComment) in
  if? has_substring "mariadb" identity return ErrorString "MariaDB is not supported by the mysql8 adapter" then
  match split_byte "." version with
  | major :: minor :: _ =>
      match Atoi major, Atoi minor with
      | Some major, Some _ => if? negb (major =? 8) return ErrorString "unsupported MySQL server major version" then nil_error
      | _, _ => Err (ErrorString "invalid MySQL server version")
      end
  | _ => Err (ErrorString "invalid MySQL server version")
  end.

Definition semanticsForLowerCaseTableNames (value : Z) : result IdentifierSemantics :=
  if value =? 0 then
    Ok {| CaseInsensitiveSchemas := false; CaseInsensitiveObjects := false; CaseInsensitiveFields := true |}
  else if (value =? 1) || (value =? 2) then
    Ok {| CaseInsensitiveSchemas := true; CaseInsensitiveObjects := true; CaseInsensitiveFields := true |}
  else Err upstream_error.

Example server_versions :
  map (fun v => is_ok (validateServerVersion v "MySQL Community Server")) ["8.0.36"; "8.4"; "5.7.44"; "8"; "8.x"; "11.4.2-MariaDB"]
  = [true; true; false; false; false; false].
Proof. vm_compute. reflexivity. Qed.

Definition caseInsensitiveIdentifierCollation : string := "utf8mb4_0900_as_ci".

Definition metadataIdentifierComparison (left right : string) (caseInsensitive : bool) : string :=
  if negb caseInsensitive then "BINARY " +:+ left +:+ " = BINARY " +:+ right
  else "CONVERT(" +:+ left +:+ " USING utf8mb4) COLLATE " +:+ caseInsensitiveIdentifierCollation +:+
       " = CONVERT(" +:+ right +:+ " USING utf8mb4) COLLATE " +:+ caseInsensitiveIdentifierCollation.

Definition source_statement (caseInsensitiveObjects : bool) : string :=
  "SELECT t.table_schema, t.table_name" +:+ newline +:+ "FROM information_schema.tables t" +:+ newline +:+
  "WHERE " +:+ metadataIdentifierComparison "t.table_schema" "?" caseInsensitiveObjects +:+ " AND " +:+
  metadataIdentifierComparison "t.table_name" "?" caseInsensitiveObjects +:+ " LIMIT 1".

Definition columns_statement (caseInsensitiveObjects : bool) (referenced : list string) : string :=
  "SELECT c.table_schema, c.table_name, c.column_name, c.data_type, c.column_type, c.is_nullable" +:+ newline +:+
  "FROM information_schema.columns c" +:+ newline +:+
  "WHERE " +:+ metadataIdentifierComparison "c.table_schema" "?" caseInsensitiveObjects +:+ newline +:+
  "  AND " +:+ metadataIdentifierComparison "c.table_name" "?" caseInsensitiveObjects +:+ newline +:+
  "  AND (" +:+ join " OR " (map (fun _ => metadataIdentifierComparison "c.column_name" "?" true) referenced) +:+ ")" +:+ newline +:+
  "ORDER BY c.ordinal_position".

Definition classify_source_error (f : failure) : goerr := if fl_no_rows f then invalid_error else classifyQueryError f.

(** A row of the catalog: six texts, none of them NULL. *)
Definition catalog_row (upstream : goerr) (row : raw_row + failure) : result (string * string * aggregateSourceColumn * string) :=
  match row with
  | inr f => Err (classifyExecutionError f)
  | inl row =>
      match scan_strings row with
      | Some [schema; object; name; dataType; nativeType; nullable] =>
          Ok (schema, object, {| sc_name := name; sc_dataType := dataType; sc_nativeType := nativeType; sc_nullable := false |}, nullable)
      | _ => Err upstream
      end
  end.

Section Operations.
Context {W : Type} `{Driver W}.

Definition server_statement : string := "SELECT @@version, @@version_comment, @@lower_case_table_names".

Definition readServerInfo : M W serverInfo :=
  let! row := QueryRowContext classifyExecutionError server_statement [] in
  match scan_strings row with
  | Some [version; versionComment; lower] =>
      match Atoi lower with
      | None => classified_failure
      | Some lower =>
          if! negb (is_ok (validateServerVersion version versionComment)) return unavailable_error then
          let! _ := lift (semanticsForLowerCaseTableNames lower) in
          ret {| version := version; versionComment := versionComment; lowerCaseTableNames := lower |}
      end
  | _ => classified_failure
  end.

(** The error of the program's own that [classifyExecutionError] sees now. *)
Definition now_upstream : M W goerr := fun s => (Ok (classifyExecutionError (plain_failure (fr_world s))), s).

Definition validateAggregateSource (spec : NormalizedAggregateSpec) (lowerCaseTableNames : Z) : M W source_columns :=
  let caseInsensitiveObjects := negb (lowerCaseTableNames =? 0) in
  let source := a_source spec in
  let! row := QueryRowContext classify_source_error (source_statement caseInsensitiveObjects)
                [BindString (r_schema source); BindString (r_name source)] in
  match scan_strings row with
  | Some [actualSchema; actualObject] =>
      do! lift (source_resource source caseInsensitiveObjects actualSchema actualObject) then
      let referenced := AggregateReferencedFields spec in
      if len referenced =? 0 then ret []
      else
        let! rows := QueryContext classifyQueryError (columns_statement caseInsensitiveObjects referenced)
                       (map BindString (actualSchema :: actualObject :: referenced)) in
        defer_ignored drainAndCloseRows
          (let! upstream := now_upstream in
           lift (source_columns_of spec caseInsensitiveObjects (map (catalog_row upstream) (rs_rows rows))
                   (failed classifyExecutionError (rs_err rows))))
  | _ => classified_failure
  end.

(** ** The deadline *)

Definition bindConnectionDeadline (deadlineMS : Z) : M W unit :=
  if deadlineMS <=? 0 then classified_failure else setDeadline (RequestDeadline deadlineMS).

Definition clearDeadline : M W unit := setDeadline NoDeadline.

(** [defer conn.Close()], and the deferred call that clears the deadline. *)
Definition with_connection {A} (deadlineMS : Z) (m : M W A) : M W A :=
  do! Conn then
  defer_ignored release
    (do! bindConnectionDeadline deadlineMS then
     do! with_clearDeadline true then
     deferred (fun r s => if fr_clearDeadline s then ignore clearDeadline r s else (r, s)) m).

(** [if err := clearDeadline(); err != nil { ... }; clearDeadline = nil] *)
Definition finish_deadline : M W unit := do! clearDeadline then with_clearDeadline false.

(** ** The time zone of the session *)

Definition utc : string := "+00:00".

Definition timezone_of (row : raw_row) : option string :=
  match scan_strings row with Some [value] => Some value | _ => None end.

Definition read_timezone : M W string :=
  let! row := QueryRowContext classifyExecutionError get_timezone_statement [] in
  match timezone_of row with Some value => ret value | None => classified_failure end.

(** [strings.ContainsAny(original, ...)] for NUL, CR and LF. *)
Definition has_control (s : string) : bool :=
  negb (sforall (fun c => negb ((byte c =? 0) || (byte c =? 13) || (byte c =? 10))) s).

Definition setAggregateUTCSession : M W string :=
  let! original := read_timezone in
  do! or_discard (if! String.eqb original EmptyString || (64 <? slen original) || negb (valid_utf8 original) || has_control original
                  return upstream_error then ret tt) then
  do! or_discard (ExecContext set_timezone_statement [BindString utc]) then
  let! verified := or_discard read_timezone in
  do! or_discard (if! negb (String.eqb verified utc) return upstream_error then ret tt) then
  ret original.

Definition restoreAggregateSessionTimezone (original : string) : M W unit :=
  do! or_discard (setDeadline CleanupDeadline) then
  do! or_discard (ExecContext set_timezone_statement [BindString original]) then
  let! verified := or_discard read_timezone in
  or_discard (if! negb (String.eqb verified original) return upstream_error then ret tt).

(** ** The transaction *)

Definition startAggregateTransaction : M W unit :=
  do! ExecContext isolation_statement [] then
  or_discard (ExecContext start_statement []).

Definition finalizeAggregateTransaction (statement : string) : M W unit :=
  do! or_discard (setDeadline CleanupDeadline) then
  or_discard (ExecContext statement []).

(** ** The plan *)

(** The one text that the rows of an EXPLAIN hold, within [maximum] bytes. *)
Definition plan_text (maximum : Z) (malformed upstream : goerr) (rows : rowset) : result string :=
  match rs_rows rows with
  | [] => check? failed classifyExecutionError (rs_err rows) then Err upstream_error
  | inr f :: _ => Err (classifyExecutionError f)
  | inl [cell] :: rest =>
      let raw := default EmptyString cell in
      if? maximum <? slen raw return result_too_large then
      if? negb (bool_decide (is_Some (parse_json raw))) return malformed then
      if? negb (len rest =? 0) return upstream_error then
      check? failed classifyExecutionError (rs_err rows) then
      Ok raw
  | inl _ :: _ => Err upstream
  end.

Definition readAggregatePlan (statement : string) (args : list Bind) : M W string :=
  let! rows := QueryContext classifyQueryError statement args in
  defer_ignored drainAndCloseRows
    (let! upstream := now_upstream in lift (plan_text MaxSupportedResultBytes invalid_error upstream rows)).

(** ** Aggregate *)

Record AggregateAnswer := { an_mode : string; an_columns : list ResultColumn; an_result : AggregateResult; an_rowCount : Z }.

(** [&database.Error{Kind: ErrorUpstream, Err: err}] *)
Definition as_upstream {A} (r : result A) : result A := match r with Ok a => Ok a | Err _ => Err upstream_error end.

(** The deferred calls of the session and of the transaction. *)
Definition restore_session {A} (original : string) (r : result A) : M W A := fun s =>
  if negb (fr_sessionMutated s) then (r, s)
  else
    match r with
    | Err _ => ignore discardSQLConnection r s
    | Ok _ =>
        match restoreAggregateSessionTimezone original s with
        | (Ok _, s') => (r, s')
        | (Err e, s') => (Err e, s')
        end
    end.

Definition rollback_transaction {A} (r : result A) : M W A := fun s =>
  if fr_transactionActive s then ignore (finalizeAggregateTransaction "ROLLBACK") r s else (r, s).

Definition uses_utc (spec : NormalizedAggregateSpec) : bool := AggregateUsesTimeBucket spec || AggregateUsesSourceText spec.

Definition explain_prefix : string := "EXPLAIN FORMAT=JSON ".

Definition boundaries_of (query : AuthorizedAggregate) (alias : string) : list string :=
  default [] (aa_numericBoundaries query !! alias).

(** From the start of the transaction to the end: the last part of [Aggregate]. *)
Definition aggregate_transaction (query : AuthorizedAggregate) (resultColumns : list ResultColumn) (statement : string)
    (args : list Bind) (resultBytes : Z) (originalTimezone : string) : M W AggregateAnswer :=
  let spec := va_spec (aa_query query) in
  do! startAggregateTransaction then
  do! with_transactionActive true then
  deferred rollback_transaction
    (let! plan := readAggregatePlan (explain_prefix +:+ statement) args in
     do! lift (validateAggregatePlan plan (aa_requiredIndex query) (aa_maximumRowsExaminedPerScan query)
                 (aa_allowTemporaryTable query) (aa_allowFilesort query)) then
     let! rows := QueryContext classifyQueryError statement args in
     defer_ignored drainAndCloseRows
       (let! result := lift (collectAggregateRowsWithSpec spec resultColumns (MaxResultBytes (aa_limits query)) (boundaries_of query)
                          (stream classifyExecutionError rows)
                          {| ar_rows := []; ar_bytes := resultBytes; ar_truncated := false; ar_provisional := None |}) in
        do! CloseRows then
        do! finalizeAggregateTransaction "COMMIT" then
        do! with_transactionActive false then
        do! (if uses_utc spec then do! restoreAggregateSessionTimezone originalTimezone then with_sessionMutated false
             else ret tt) then
        do! finish_deadline then
        ret {| an_mode := a_mode spec; an_columns := resultColumns; an_result := result; an_rowCount := len (ar_rows result) |})).

Definition Aggregate (query : AuthorizedAggregate) (envelopeBaseBytes : Z) : M W AggregateAnswer :=
  let spec := va_spec (aa_query query) in
  let limits := aa_limits query in
  if! negb (String.eqb (aa_operation query) OperationAggregate) return upstream_error then
  if! MaxParameters limits <? aa_parameterCount query return invalid_error then
  with_connection (DeadlineMS limits)
    (let! info := readServerInfo in
     let! columnsByName := validateAggregateSource spec (lowerCaseTableNames info) in
     do! lift (validateNumericBucketSource spec columnsByName (boundaries_of query)) then
     let! resultColumns := lift (aggregateResultColumns spec columnsByName) in
     let! (statement, args) := lift (as_upstream (compileAggregate spec (DeadlineMS limits) (boundaries_of query))) in
     let! resultBytes := lift (addAggregateColumnsSize envelopeBaseBytes resultColumns (MaxResultBytes limits)) in
     let! originalTimezone :=
       (if uses_utc spec then
          let! original := setAggregateUTCSession in
          do! with_sessionMutated true then ret original
        else ret EmptyString) in
     deferred (restore_session originalTimezone)
       (aggregate_transaction query resultColumns statement args resultBytes originalTimezone)).

(** ** Select and explain *)

Definition dimension_of (field : string) : AggregateOutput := {|
  ao_representation := RepresentationSourceText; ao_kind := "dimension"; ao_field := field; ao_function := EmptyString;
  ao_alias := EmptyString; ao_unit := EmptyString; ao_timezone := EmptyString |}.

Definition validateLegacySourceText (spec : NormalizedSpec) (lowerCaseTableNames : Z) : M W unit :=
  let fields := sourceTextFields spec in
  if len fields =? 0 then ret tt
  else
    let! _ := validateAggregateSource
      {| a_mode := EmptyString; a_source := n_source spec; a_projection := map dimension_of fields; a_filter := None;
         a_order_by := []; a_limit := 0 |} lowerCaseTableNames in
    ret tt.

(** The cleanup that [prepareLegacySourceText] returns restores the time zone, or
    does nothing; it is represented by the time zone that it captured, and is only
    pending in the first case. *)
Definition prepareLegacySourceText (spec : NormalizedSpec) (lowerCaseTableNames : Z) : M W string :=
  do! validateLegacySourceText spec lowerCaseTableNames then
  if UsesSourceText spec then
    let! original := setAggregateUTCSession in
    do! with_sessionMutated true then ret original
  else ret EmptyString.

(** [tx.Commit] ends the [sql.Tx] whatever it returns, so that the deferred
    [tx.Rollback] is a call only before it. *)
Definition commit_sql : M W unit := fun s =>
  let '(r, s') := Commit s in (r, (with_transactionActive false s').2).
Definition rollback_sql {A} (r : result A) : M W A := fun s =>
  if fr_transactionActive s then ignore Rollback r s else (r, s).

(** The transaction of [database/sql] around [m], from the cleanup to the end: [m]
    reads the rows of the statement. *)
Definition sql_transaction {A} (uses : bool) (original statement : string) (args : list Bind) (m : rowset -> M W A) : M W A :=
  deferred (restore_session original)
    (do! BeginTx then
     do! with_transactionActive true then
     deferred rollback_sql
       (let! rows := QueryContext classifyQueryError statement args in
        defer_ignored drainAndCloseRows
          (let! answer := m rows in
           do! CloseRows then
           do! commit_sql then
           do! (if uses then do! restoreAggregateSessionTimezone original then with_sessionMutated false else ret tt) then
           do! finish_deadline then
           ret answer))).

Definition column_json (c : ResultColumn) : json :=
  JObj [("name", JStr (rc_name c)); ("type", JStr (rc_type c)); ("encoding", JStr (rc_encoding c)); ("nullable", JBool (rc_nullable c))].

Record SelectAnswer := { sa_columns : list ResultColumn; sa_result : SelectResult; sa_rowCount : Z }.

(** [len(`{...:`) + len(columnsJSON) + len(`,...:[]}`)] *)
Definition select_base_bytes (columns : list ResultColumn) : Z :=
  slen ("{" +:+ dquote +:+ "columns" +:+ dquote +:+ ":") + slen (marshal (JArr (map column_json columns))) +
  slen ("," +:+ dquote +:+ "rows" +:+ dquote +:+ ":[]}").

Definition select_rows (spec : NormalizedSpec) (maxResultBytes : Z) (rows : rowset) : result SelectAnswer :=
  let? columnTypes := answered classifyExecutionError (rs_columns rows) in
  let columns := source_text_columns (n_projection spec)
    (map (fun c => driver_column c.1.1 c.1.2 c.2) columnTypes) in
  let resultBytes := select_base_bytes columns in
  if? maxResultBytes <? resultBytes return result_too_large then
  let? r := collectSelectRows (stream classifyExecutionError rows) columns (n_limit spec) maxResultBytes
              {| sr_rows := []; sr_bytes := resultBytes; sr_truncated := false |} in
  Ok {| sa_columns := columns; sa_result := r; sa_rowCount := len (sr_rows r) |}.

Definition run_select (spec : NormalizedSpec) (limits : Limits) (statement : string) (args : list Bind) : M W SelectAnswer :=
  let! info := readServerInfo in
  let! original := prepareLegacySourceText spec (lowerCaseTableNames info) in
  sql_transaction (UsesSourceText spec) original statement args (fun rows => lift (select_rows spec (MaxResultBytes limits) rows)).

Definition Select (query : AuthorizedQuery) : M W SelectAnswer :=
  let spec := v_spec (aq_query query) in
  let limits := aq_limits query in
  if! negb (String.eqb (aq_operation query) OperationSelect) return upstream_error then
  match compileSelect spec (DeadlineMS limits) (n_limit spec + 1) with
  | Err _ => fail upstream_error
  | Ok (statement, args) => with_connection (DeadlineMS limits) (run_select spec limits statement args)
  end.

Definition run_explain (spec : NormalizedSpec) (limits : Limits) (statement : string) (args : list Bind) : M W string :=
  let! info := readServerInfo in
  let! original := prepareLegacySourceText spec (lowerCaseTableNames info) in
  sql_transaction (UsesSourceText spec) original statement args
    (fun rows => let! upstream := now_upstream in lift (plan_text (MaxResultBytes limits) upstream_error upstream rows)).

Definition Explain (query : AuthorizedQuery) : M W string :=
  let spec := v_spec (aq_query query) in
  let limits := aq_limits query in
  if! negb (String.eqb (aq_operation query) OperationExplainSelect) return upstream_error then
  match compile spec (DeadlineMS limits) with
  | Err _ => fail upstream_error
  | Ok (statement, args) => with_connection (DeadlineMS limits) (run_explain spec limits statement args)
  end.
End Operations.

(** ** The session is left as it was found *)

Section Clean.
Context {W : Type} `{SessionLaws W} {X : Excuse}.
Implicit Types (s : frame W) (z : string).

Definition timezone s : string := session_timezone (fr_world s).
Definition transaction s : bool := in_transaction (fr_world s).

(** The time zone is [z] unless it is to be restored; no transaction is open
    unless it is to be ended. *)
Definition zone_kept z s : Prop := fr_sessionMutated s = false -> timezone s = z.
Definition transaction_kept s : Prop := fr_transactionActive s = false -> transaction s = false.
Definition pending z s : Prop := zone_kept z s /\ transaction_kept s.
Definition settled z s : Prop := timezone s = z /\ transaction s = false.

(** Nothing is pending. *)
Definition fresh z s : Prop :=
  fr_sessionMutated s = false /\ fr_transactionActive s = false /\ timezone s = z /\ transaction s = false.

Lemma fresh_pending z s : fresh z s -> pending z s.
Proof. unfold fresh, pending, zone_kept, transaction_kept. naive_solver. Qed.

(** Assertions that only look at the session and the captured variables. *)
Ltac stable_tac := intros ?s ?w ?e [?E1 ?E2]; unfold fresh, pending, settled, zone_kept, transaction_kept, timezone, transaction in *;
  cbn [after fr_world fr_sessionMutated fr_transactionActive]; rewrite ?E1, ?E2; done.

Lemma stable_fresh z : stable (fresh z). Proof. stable_tac. Qed.
Lemma stable_pending z : stable (pending z). Proof. stable_tac. Qed.
Lemma stable_zone z : stable (zone_kept z). Proof. stable_tac. Qed.
Lemma stable_settled z : stable (settled z). Proof. stable_tac. Qed.
Lemma stable_and (I J : frame W -> Prop) : stable I -> stable J -> stable (fun s => I s /\ J s).
Proof. intros HI HJ s w e E [? ?]. split; [by apply HI|by apply HJ]. Qed.
Lemma stable_flag (f : bool -> bool -> bool -> Prop) :
  stable (fun s => f (fr_clearDeadline s) (fr_sessionMutated s) (fr_transactionActive s)).
Proof. by intros s w e _ Hf. Qed.
Lemma stable_transaction (f : bool -> bool -> Prop) : stable (fun s => f (fr_transactionActive s) (transaction s)).
Proof. intros s w e [_ E] Hf. unfold transaction in *. cbn. by rewrite E. Qed.

(** *** Reads *)

Lemma readServerInfo_session I : stable I -> invariant gone I readServerInfo.
Proof.
  intros HI. apply invariant_bind; [by apply QueryRowContext_session|]. intros row.
  destruct (scan_strings row) as [[|v [|c [|l [|? ?]]]]|]; try apply classified_failure_triple.
  destruct (Atoi l); [|apply classified_failure_triple]. apply invariant_if; [by apply invariant_pure|].
  apply invariant_bind; [by apply invariant_pure|]. intros sem. by apply invariant_pure.
Qed.

Lemma source_statement_reads ci : reads (source_statement ci) = true.
Proof. by destruct ci. Qed.
Lemma columns_statement_reads ci fields : reads (columns_statement ci fields) = true.
Proof. reflexivity. Qed.

Lemma now_upstream_session I : invariant gone I now_upstream.
Proof. split; [intros s Hs; exact Hs|]. intros s Hs. by right. Qed.

Lemma drained I {A} (m : M W A) : stable I -> invariant gone I m -> invariant gone I (defer_ignored drainAndCloseRows m).
Proof.
  intros HI Hm. eapply triple_deferred; [exact Hm|]. intros r. cbn beta. apply triple_ignore.
  eapply triple_weaken; [by apply (drain_invariant I)|done|done].
Qed.

Lemma validateAggregateSource_session I spec lower : stable I -> invariant gone I (validateAggregateSource spec lower).
Proof.
  intros HI. apply invariant_bind; [apply QueryRowContext_session; [done|apply source_statement_reads]|]. intros row.
  destruct (scan_strings row) as [[|x [|y [|? ?]]]|]; try apply classified_failure_triple.
  apply invariant_bind; [by apply invariant_pure|]. intros _. apply invariant_if; [by apply invariant_pure|].
  apply invariant_bind; [by apply QueryContext_session|]. intros rows. apply drained; [done|].
  apply invariant_bind; [apply now_upstream_session|]. intros u. by apply invariant_pure.
Qed.

Lemma readAggregatePlan_session I statement args : stable I -> reads statement = true ->
  invariant gone I (readAggregatePlan statement args).
Proof.
  intros HI Hs. apply invariant_bind; [by apply QueryContext_session|]. intros rows. apply drained; [done|].
  apply invariant_bind; [apply now_upstream_session|]. intros u. by apply invariant_pure.
Qed.

(** *** The time zone *)

Lemma read_timezone_triple I : stable I ->
  triple gone I read_timezone (fun r s => I s /\ forall v, r = Ok v -> timezone s = v).
Proof.
  intros HI. unfold read_timezone.
  apply (triple_bind _ _ _ _ (fun r s => I s /\ forall row, r = Ok row -> row = [Some (timezone s)])).
  - split; [apply QueryRowContext_keeps|]. intros s Hs. right. unfold QueryRowContext.
    destruct (query_row get_timezone_statement [] (fr_world s)) as [r w] eqn:E. cbn [fst snd]. split.
    + apply HI; [exact (read_row_session get_timezone_statement _ _ _ _ eq_refl E)|done].
    + intros row Hr. destruct r as [row'|]; [|done]. injection Hr as <-. by apply timezone_read in E.
  - intros row. unfold timezone_of. destruct (scan_strings row) as [[|v [|? ?]]|] eqn:E;
      try (apply classified_failure_weaken; intros ? ? [? _]; by split).
    apply triple_ret. intros s [Hs Hr]. split; [done|]. intros v' [= <-]. specialize (Hr row eq_refl). subst row.
    cbn in E. by injection E as E.
  - intros e s [Hs _]. split; [done|]. by intros v.
Qed.

(** Setting the time zone touches no transaction. *)
Lemma set_timezone_triple args (f : bool -> bool -> bool -> Prop) :
  triple gone (fun s => f (fr_sessionMutated s) (fr_transactionActive s) (transaction s)) (ExecContext set_timezone_statement args)
    (fun _ s => f (fr_sessionMutated s) (fr_transactionActive s) (transaction s)).
Proof.
  split; [apply call_keeps; intros w r w' E; by eapply calls_exec|]. intros s Hs. right. unfold ExecContext, call.
  destruct (exec set_timezone_statement args (fr_world s)) as [r w] eqn:E. cbn [fst snd]. unfold transaction in *. cbn.
  apply timezone_set in E. by rewrite E.
Qed.

Lemma guard_discard_triple P (b : bool) e (Q : frame W -> Prop) : (forall s, P s -> b = false -> Q s) ->
  triple gone P (or_discard (if! b return e then ret tt)) (fun r s => match r with Ok _ => Q s | Err _ => False end).
Proof.
  intros HQ.
  assert (Hm : triple gone P (if b then fail e else ret tt) (fun r s => match r with Ok _ => Q s | Err _ => True end)).
  { apply triple_if; [by apply triple_fail|]. apply triple_ret. intros s [Hb Hs]. by apply HQ. }
  apply (triple_or_discard _ _ _ Hm).
Qed.

(** What [setAggregateUTCSession] leaves behind: on success the time zone that the
    session had is what it returns; on an error the session is untouched, or the
    connection is discarded. *)
Lemma setAggregateUTCSession_triple z :
  triple gone (fresh z) setAggregateUTCSession
    (fun r s => match r with
                | Ok original => original = z /\ fr_sessionMutated s = false /\ fr_transactionActive s = false /\ transaction s = false
                | Err _ => fresh z s
                end).
Proof.
  set (quiet := fun m a t => m = false /\ a = false /\ t = false).
  set (Q := fun s => quiet (fr_sessionMutated s) (fr_transactionActive s) (transaction s)).
  assert (HQ : stable Q).
  { intros s w e [_ E] Hs. unfold Q, transaction in *. cbn. by rewrite E. }
  apply (triple_bind _ _ _ _ (fun r s => fresh z s /\ forall v, r = Ok v -> v = z)).
  - eapply triple_weaken; [apply (read_timezone_triple (fresh z)), stable_fresh|done|].
    intros r s [Hs Hr]. split; [done|]. intros v E. rewrite <- (Hr v E). apply Hs.
  - intros original.
    apply (triple_bind _ _ _ _ (fun r s => match r with Ok _ => original = z /\ Q s | Err _ => False end)); [|intros _|done].
    { apply guard_discard_triple. intros s [Hs Hr] _. split; [by apply Hr|]. unfold fresh in Hs. unfold Q, quiet. naive_solver. }
    apply (triple_bind _ _ _ _ (fun r s => match r with Ok _ => original = z /\ Q s | Err _ => False end)); [|intros _|done].
    { apply (triple_or_discard _ _ (fun _ s => original = z /\ Q s)).
      split; [apply (set_timezone_triple _ quiet)|]. intros s [E Hs]. destruct (set_timezone_triple [BindString utc] quiet) as [_ Ht].
      destruct (Ht s Hs); auto. }
    apply (triple_bind _ _ _ _ (fun r s => match r with Ok _ => original = z /\ Q s | Err _ => False end)); [|intros verified|done].
    { apply (triple_or_discard _ _ (fun _ s => original = z /\ Q s)).
      eapply triple_weaken; [apply (read_timezone_triple (fun s => original = z /\ Q s))|done|by intros r s [? _]].
      intros s w e E [? ?]. split; [done|by apply HQ]. }
    apply (triple_bind _ _ _ _ (fun r s => match r with Ok _ => original = z /\ Q s | Err _ => False end)); [|intros _|done].
    { by apply guard_discard_triple. }
    apply triple_ret. intros s [E Hs]. split; [done|]. exact Hs.
  - intros e s [Hs _]. exact Hs.
Qed.

(** Restoring either brings the time zone back or discards the connection. *)
Lemma restoreAggregateSessionTimezone_triple z (f : bool -> bool -> bool -> Prop) :
  triple gone (fun s => f (fr_sessionMutated s) (fr_transactionActive s) (transaction s)) (restoreAggregateSessionTimezone z)
    (fun r s => match r with
                | Ok _ => timezone s = z /\ f (fr_sessionMutated s) (fr_transactionActive s) (transaction s)
                | Err _ => False
                end).
Proof.
  set (Q := fun s => f (fr_sessionMutated s) (fr_transactionActive s) (transaction s)).
  assert (HQ : stable Q).
  { intros s w e [_ E] Hs. unfold Q, transaction in *. cbn. by rewrite E. }
  apply (triple_bind _ _ _ _ (fun r s => match r with Ok _ => Q s | Err _ => False end)); [|intros _|done].
  { by apply (triple_or_discard _ _ (fun _ => Q)), setDeadline_session. }
  apply (triple_bind _ _ _ _ (fun r s => match r with Ok _ => Q s | Err _ => False end)); [|intros _|done].
  { apply (triple_or_discard _ _ (fun _ => Q)), set_timezone_triple. }
  apply (triple_bind _ _ _ _ (fun r s => match r with Ok v => Q s /\ timezone s = v | Err _ => False end)); [|intros verified|done].
  { eapply triple_weaken; [apply (triple_or_discard _ _ _ (read_timezone_triple Q HQ))|done|].
    intros [v|] s; [|done]. intros [Hs Hv]. split; [done|by apply Hv]. }
  apply guard_discard_triple. intros s [Hs Hv] Hb. apply negb_false_iff, String.eqb_eq in Hb. split; [congruence|done].
Qed.

(** *** The transaction *)

Lemma startAggregateTransaction_triple (f : string -> bool -> bool -> Prop) :
  triple gone (fun s => f (timezone s) (fr_sessionMutated s) (fr_transactionActive s) /\ transaction s = false) startAggregateTransaction
    (fun r s => f (timezone s) (fr_sessionMutated s) (fr_transactionActive s) /\ match r with Ok _ => True | Err _ => transaction s = false end).
Proof.
  set (I := fun s => f (timezone s) (fr_sessionMutated s) (fr_transactionActive s)).
  apply (triple_bind _ _ _ _ (fun _ s => I s /\ transaction s = false)).
  - apply isolation_invariant. intros s w e [E1 E2] [H1 H2]. unfold I, timezone, transaction in *. cbn. by rewrite E1, E2.
  - intros _. assert (Hm : triple gone I (ExecContext start_statement []) (fun _ => I)).
    { split; [apply call_keeps; intros w r w' E; by eapply calls_exec|]. intros s Hs. right. unfold ExecContext, call.
      destruct (exec start_statement [] (fr_world s)) as [r w] eqn:E. cbn [fst snd]. unfold I, timezone in *. cbn.
      apply start_session in E. by rewrite E. }
    eapply triple_weaken; [apply (triple_or_discard _ _ _ Hm)|by intros s [? _]|by intros [[]|] s ?].
  - done.
Qed.

Lemma finalizeAggregateTransaction_triple text (f : string -> bool -> bool -> Prop) : In text ["COMMIT"; "ROLLBACK"] ->
  triple gone (fun s => f (timezone s) (fr_sessionMutated s) (fr_transactionActive s)) (finalizeAggregateTransaction text)
    (fun r s => match r with
                | Ok _ => f (timezone s) (fr_sessionMutated s) (fr_transactionActive s) /\ transaction s = false
                | Err _ => False
                end).
Proof.
  set (I := fun s => f (timezone s) (fr_sessionMutated s) (fr_transactionActive s)). intros Ht.
  apply (triple_bind _ _ _ _ (fun r s => match r with Ok _ => I s | Err _ => False end)); [|intros _|done].
  { apply (triple_or_discard _ _ (fun _ => I)), setDeadline_session. intros s w e [E _] Hs. unfold I, timezone in *. cbn. by rewrite E. }
  assert (Hm : triple gone I (ExecContext text []) (fun r s => match r with Ok _ => I s /\ transaction s = false | Err _ => True end)).
  { split; [apply call_keeps; intros w r w' E; by eapply calls_exec|]. intros s Hs. right. unfold ExecContext, call.
    destruct (exec text [] (fr_world s)) as [r w] eqn:E. cbn [fst snd]. apply (end_session _ _ _ _ _ Ht) in E as [Ez Ex].
    destruct r; cbn; [done|]. unfold I, timezone, transaction in *. cbn. rewrite Ez. split; [done|by apply Ex]. }
  apply (triple_or_discard _ _ _ Hm).
Qed.

(** *** The deferred calls *)

Lemma with_flag_triple {P Q : frame W -> Prop} (m : M W unit) :
  (forall s, fr_world (m s).2 = fr_world s /\ fr_trace (m s).2 = fr_trace s) -> (forall s, P s -> Q (m s).2) ->
  triple gone P m (fun _ => Q).
Proof.
  intros Hw HQ. split; [|intros s Hs; right; by apply HQ]. intros s Hs. destruct (Hw s). by eapply gone_frame.
Qed.

Lemma flag_then {A} (P R : frame W -> Prop) (m : M W unit) (k : unit -> M W A) Q :
  (forall s, fr_world (m s).2 = fr_world s /\ fr_trace (m s).2 = fr_trace s /\ (m s).1 = Ok tt) -> (forall s, P s -> R (m s).2) ->
  triple gone R (k tt) Q -> triple gone P (bind m k) Q.
Proof.
  intros Hm HR Hk. apply (triple_bind _ _ _ _ (fun r s => match r with Ok _ => R s | Err _ => False end)); [|by intros []|done].
  split; [intros s Hs; destruct (Hm s) as (? & ? & _); by eapply gone_frame|].
  intros s Hs. right. destruct (Hm s) as (_ & _ & ->). by apply HR.
Qed.

Lemma finish_deadline_session I : stable I ->
  (forall s b, I s -> I (with_clearDeadline b s).2) -> invariant gone I finish_deadline.
Proof.
  intros HI Hb. apply invariant_bind; [by apply setDeadline_session|]. intros _. apply with_flag_triple; [done|]. intros s. apply Hb.
Qed.

(** The invariant of the block between the deferred calls. *)
Definition restorable z original s : Prop := fr_sessionMutated s = true -> original = z.
Definition block z original s : Prop := pending z s /\ restorable z original s.

Lemma rollback_triple {A} z original (r : result A) :
  triple gone (block z original) (rollback_transaction r)
    (fun _ s => zone_kept z s /\ transaction s = false /\ restorable z original s).
Proof.
  destruct (finalizeAggregateTransaction_triple "ROLLBACK" (fun t m _ => (m = false -> t = z) /\ (m = true -> original = z))
    ltac:(simpl; auto)) as [Hk Hf]. split.
  - intros s Hs. unfold rollback_transaction. destruct (fr_transactionActive s); [by apply Hk|done].
  - intros s [[Hz Ht] Hr]. unfold rollback_transaction. destruct (fr_transactionActive s) eqn:E; [|right; cbn; auto].
    unfold ignore. cbn [fst snd]. destruct (Hf s (conj Hz Hr)) as [Hd|Hd]; [by left|]. right.
    destruct (finalizeAggregateTransaction "ROLLBACK" s) as [[[]|] s']; [|done]. destruct Hd as [[? ?] ?]. by split_and!.
Qed.

Lemma restore_triple {A} z original (r : result A) :
  triple gone (fun s => zone_kept z s /\ transaction s = false /\ restorable z original s) (restore_session original r)
    (fun _ => settled z).
Proof.
  destruct (restoreAggregateSessionTimezone_triple original (fun _ _ t => t = false)) as [Hk Hr]. split.
  - intros s Hs. unfold restore_session. destruct (negb (fr_sessionMutated s)); [done|]. destruct r as [a|e].
    + specialize (Hk s Hs). by destruct (restoreAggregateSessionTimezone original s) as [[[]|] s'].
    + by apply (effect_keeps EvDiscard discard calls_discard).
  - intros s (Hz & Ht & Ho). unfold restore_session. destruct (fr_sessionMutated s) eqn:E; cbn [negb].
    2: { right. split; [by apply Hz|done]. }
    destruct r as [a|e].
    + specialize (Hr s Ht). destruct (restoreAggregateSessionTimezone original s) as [[[]|] s']; cbn [fst snd] in *.
      * destruct Hr as [Hd|[Hr Hx]]; [by left|]. right. split; [|done]. by rewrite Hr, Ho.
      * destruct Hr as [Hd|[]]. by left.
    + left. apply gone_discard.
Qed.

(** *** Aggregate *)

Lemma compileAggregate_head spec deadlineMS boundaries text args :
  compileAggregate spec deadlineMS boundaries = Ok (text, args) -> exists rest, text = select_head deadlineMS +:+ rest.
Proof.
  unfold compileAggregate. intros H1. err_inv.
  repeat match goal with H : (let '(_, _) := ?x in _) = _ |- _ => destruct x; err_inv end.
  by eexists.
Qed.

Lemma head_reads deadlineMS rest : reads (select_head deadlineMS +:+ rest) = true /\
  reads (explain_prefix +:+ select_head deadlineMS +:+ rest) = true.
Proof. split; reflexivity. Qed.

Lemma zone_commit_pending z s : zone_kept z s /\ transaction s = false -> pending z s.
Proof. intros [? ?]. split; [done|by intros _]. Qed.

Lemma stable_block z original : stable (block z original).
Proof. apply stable_and; [apply stable_pending|apply (stable_flag (fun _ m _ => m = true -> original = z))]. Qed.

Lemma block_deadline z original s b : block z original s -> block z original (with_clearDeadline b s).2.
Proof. done. Qed.

Lemma finish_session {A} z original (uses : bool) (answer : A) :
  (uses = true -> original = z) ->
  triple gone (fun s => zone_kept z s /\ transaction s = false /\ restorable z original s)
    (do! (if uses then do! restoreAggregateSessionTimezone original then with_sessionMutated false else ret tt) then
     do! finish_deadline then ret answer)
    (fun _ => block z original).
Proof.
  intros Ho. apply (triple_bind _ _ _ _ (fun r s => block z original s)); [|intros _|done].
  - destruct uses.
    + apply (triple_bind _ _ _ _ (fun r s => match r with Ok _ => timezone s = z /\ transaction s = false | Err _ => False end)); [| |done].
      * rewrite <- (Ho eq_refl). eapply triple_weaken; [apply (restoreAggregateSessionTimezone_triple original (fun _ _ t => t = false))|by intros s (_ & ? & _)|done].
      * intros _. apply with_flag_triple; [done|]. intros s [Hz Ht]. split; [split; by intros _|by intros E].
    + apply triple_ret. intros s (Hz & Ht & Hr). split; [by apply zone_commit_pending|done].
  - apply invariant_bind; [|intros _; by apply invariant_pure].
    apply finish_deadline_session; [apply stable_block|]. intros s b. apply block_deadline.
Qed.

(** COMMIT, and the calls after it. *)
Lemma commit_triple z original uses {A} (answer : A) : (uses = true -> original = z) ->
  triple gone (block z original)
    (do! finalizeAggregateTransaction "COMMIT" then
     do! with_transactionActive false then
     do! (if uses then do! restoreAggregateSessionTimezone original then with_sessionMutated false else ret tt) then
     do! finish_deadline then
     ret answer)
    (fun _ => block z original).
Proof.
  intros Ho.
  set (I := fun s => zone_kept z s /\ transaction s = false /\ restorable z original s).
  apply (triple_bind _ _ _ _ (fun r s => match r with Ok _ => I s | Err _ => False end)); [| |done].
  - eapply triple_weaken; [apply (finalizeAggregateTransaction_triple "COMMIT" (fun t m _ => (m = false -> t = z) /\ (m = true -> original = z))
      ltac:(simpl; auto))| |].
    + intros s [[Hz _] Hr]. by split.
    + intros [[]|] s; [|done]. intros [[? ?] ?]. by split_and!.
  - intros _. apply (triple_bind _ _ _ _ (fun _ s => I s)); [by apply with_flag_triple| |].
    2: { intros e s (Hz & Ht & Hr). split; [by apply zone_commit_pending|done]. }
    intros _. by apply finish_session.
Qed.

Lemma aggregate_transaction_triple z query columns statement args bytes original :
  reads statement = true -> reads (explain_prefix +:+ statement) = true ->
  (uses_utc (va_spec (aa_query query)) = true -> original = z) ->
  triple gone (fun s => block z original s /\ fr_transactionActive s = false)
    (aggregate_transaction query columns statement args bytes original)
    (fun _ s => zone_kept z s /\ transaction s = false /\ restorable z original s).
Proof.
  intros Hs He Ho. set (f := fun t m (_ : bool) => (m = false -> t = z) /\ (m = true -> original = z)).
  set (I := fun s => f (timezone s) (fr_sessionMutated s) (fr_transactionActive s)).
  apply (triple_bind _ _ _ _ (fun r s => I s /\ match r with Ok _ => True | Err _ => transaction s = false end)).
  - eapply triple_weaken; [apply (startAggregateTransaction_triple f)| |done].
    intros s [[[Hz Ht] Hr] Ha]. split; [by split|by apply Ht].
  - intros _. apply (flag_then _ (block z original)); [done| |].
    + intros s [[Hz Hr] _]. split; [split; [exact Hz|done]|exact Hr].
    + eapply triple_deferred; [|intros r; apply rollback_triple].
      apply invariant_bind; [by apply readAggregatePlan_session; [apply stable_block|]|]. intros plan.
      apply invariant_bind; [by apply invariant_pure|]. intros _.
      apply invariant_bind; [by apply QueryContext_session; [apply stable_block|]|]. intros rows.
      apply drained; [apply stable_block|]. apply invariant_bind; [by apply invariant_pure|]. intros result.
      apply invariant_bind; [apply CloseRows_session, stable_block|]. intros _. by apply commit_triple.
  - intros e s [[Hz Hr] Ht]. by split_and!.
Qed.

(** *** The connection *)

Definition start (w : W) : frame W := {|
  fr_world := w; fr_trace := []; fr_clearDeadline := false; fr_sessionMutated := false; fr_transactionActive := false |}.

Lemma fresh_settled z s : fresh z s -> settled z s.
Proof. by intros (_ & _ & ? & ?). Qed.

(** An operation on a fresh session that leaves nothing behind. *)
Definition tidy {A} (m : M W A) : Prop := forall z, triple gone (fresh z) m (fun _ => settled z).

Definition connection_body {A} (deadlineMS : Z) (m : M W A) : M W A :=
  do! bindConnectionDeadline deadlineMS then
  do! with_clearDeadline true then
  deferred (fun r s => if fr_clearDeadline s then ignore clearDeadline r s else (r, s)) m.

Lemma connection_body_tidy {A} deadlineMS (m : M W A) : tidy m -> tidy (connection_body deadlineMS m).
Proof.
  intros Hm z. unfold connection_body.
  apply (triple_bind _ _ _ _ (fun _ => fresh z)); [|intros _|intros e s; apply fresh_settled].
  { unfold bindConnectionDeadline. apply invariant_if; [apply classified_failure_triple|apply setDeadline_session, stable_fresh]. }
  apply (flag_then _ (fresh z)); [done|done|].
  eapply triple_deferred; [apply Hm|]. intros r. cbn beta.
  destruct (setDeadline_session (settled z) NoDeadline (stable_settled z)) as [Hk Hd]. split.
  - intros s Hs. destruct (fr_clearDeadline s); [by apply Hk|done].
  - intros s Hs. destruct (fr_clearDeadline s); [by apply Hd|by right].
Qed.

(** However [m] returns, the connection is released last, with the session it came
    with or to be closed. *)
Lemma with_connection_leaves {A} deadlineMS (m : M W A) w w1 r s : tidy m ->
  open_conn w = (None, w1) -> in_transaction w1 = false -> with_connection deadlineMS m (start w) = (r, s) ->
  (exists t, fr_trace s = (t ++ [EvRelease])%list) /\ (gone s \/ settled (session_timezone w1) s).
Proof.
  intros Hm Ho Htx Hr. unfold with_connection, bind at 1, Conn, call in Hr. cbn [fr_world start] in Hr. rewrite Ho in Hr. cbn [failed] in Hr.
  change (defer_ignored release (connection_body deadlineMS m) (after w1 (EvOpen (succeeded None)) (start w)) = (r, s)) in Hr.
  set (s1 := after w1 (EvOpen (succeeded None)) (start w)) in *.
  assert (Hf : fresh (session_timezone w1) s1) by (by split_and!).
  destruct (connection_body_tidy deadlineMS m Hm (session_timezone w1)) as [_ Hb]. specialize (Hb s1 Hf).
  unfold defer_ignored, deferred, ignore in Hr. destruct (connection_body deadlineMS m s1) as [r2 s2]. cbn [fst snd] in *.
  injection Hr as _ <-. split; [by eexists|].
  destruct Hb as [Hd|[Hz Ht]].
  - left. eapply gone_after; [|exact Hd]. intros Hc. eapply discarded_stays; [exact Hc|apply calls_close].
  - right. unfold settled, timezone, transaction in *. cbn. destruct (close_session (fr_world s2)) as [E1 E2]. rewrite E1, E2. by split.
Qed.

(** The session is pinned to UTC when the query needs it. *)
Lemma utc_triple z (uses : bool) :
  triple gone (fresh z)
    (if uses then let! original := setAggregateUTCSession in do! with_sessionMutated true then ret original else ret EmptyString)
    (fun r s => match r with
                | Ok o => (block z o s /\ fr_transactionActive s = false) /\ (uses = true -> o = z)
                | Err _ => settled z s
                end).
Proof.
  destruct uses.
  - apply (triple_bind _ _ _ _ _ _ (setAggregateUTCSession_triple z)); [intros o|intros e s; apply fresh_settled].
    apply (flag_then _ (fun s => o = z /\ fr_sessionMutated s = true /\ fr_transactionActive s = false /\ transaction s = false)); [done| |].
    + by intros s (? & _ & ? & ?).
    + apply triple_ret. intros s (-> & Hm & Ha & Ht). split; [|done]. split; [|done]. unfold block, pending, zone_kept, transaction_kept, restorable.
      split; [split|]; try done. congruence.
  - apply triple_ret. intros s Hs. split; [|done]. split; [|apply Hs]. split; [by apply fresh_pending|].
    intros E. unfold fresh in Hs. destruct Hs as [Hs _]. congruence.
Qed.

Lemma Aggregate_tidy query base : tidy (
  let spec := va_spec (aa_query query) in
  let limits := aa_limits query in
  let! info := readServerInfo in
  let! columnsByName := validateAggregateSource spec (lowerCaseTableNames info) in
  do! lift (validateNumericBucketSource spec columnsByName (boundaries_of query)) then
  let! resultColumns := lift (aggregateResultColumns spec columnsByName) in
  let! (statement, args) := lift (as_upstream (compileAggregate spec (DeadlineMS limits) (boundaries_of query))) in
  let! resultBytes := lift (addAggregateColumnsSize base resultColumns (MaxResultBytes limits)) in
  let! originalTimezone :=
    (if uses_utc spec then
       let! original := setAggregateUTCSession in
       do! with_sessionMutated true then ret original
     else ret EmptyString) in
  deferred (restore_session originalTimezone)
    (aggregate_transaction query resultColumns statement args resultBytes originalTimezone)).
Proof.
  intros z. cbv zeta. set (spec := va_spec (aa_query query)).
  apply (triple_bind _ _ _ _ (fun _ => fresh z)); [apply readServerInfo_session, stable_fresh|intros info|intros e s; apply fresh_settled].
  apply (triple_bind _ _ _ _ (fun _ => fresh z)); [apply validateAggregateSource_session, stable_fresh|intros source|intros e s; apply fresh_settled].
  apply (triple_bind _ _ _ _ (fun _ => fresh z)); [by apply invariant_pure|intros _|intros e s; apply fresh_settled].
  apply (triple_bind _ _ _ _ (fun _ => fresh z)); [by apply invariant_pure|intros columns|intros e s; apply fresh_settled].
  destruct (compileAggregate spec _ _) as [[statement args]|e] eqn:E; cbn [as_upstream].
  2: { apply triple_bind_err. intros s. apply fresh_settled. }
  apply triple_bind_ok.
  apply compileAggregate_head in E as [rest ->]. destruct (head_reads (DeadlineMS (aa_limits query)) rest) as [Hr He].
  apply (triple_bind _ _ _ _ (fun _ => fresh z)); [by apply invariant_pure|intros bytes|intros e s; apply fresh_settled].
  apply (triple_bind _ _ _ _ _ _ (utc_triple z (uses_utc spec))); [intros original|done].
  assert (Ht : forall z', (uses_utc spec = true -> original = z') ->
    triple gone (fun s => block z' original s /\ fr_transactionActive s = false)
      (deferred (restore_session original) (aggregate_transaction query columns (select_head (DeadlineMS (aa_limits query)) +:+ rest) args bytes original))
      (fun _ => settled z')).
  { intros z' Ho. eapply triple_deferred; [by apply aggregate_transaction_triple|]. intros r. apply restore_triple. }
  apply triple_assuming; [by apply (Ht original)|apply Ht].
Qed.


(** What a run of an operation on a connection without a transaction ends with: the
    connection is released at last, and then it is gone or settled. *)
Definition released {A} (operation : M W A) : Prop := forall w w1 r s,
  open_conn w = (None, w1) -> in_transaction w1 = false -> operation (start w) = (r, s) -> fr_trace s <> [] ->
  (exists t, fr_trace s = (t ++ [EvRelease])%list) /\ (gone s \/ settled (session_timezone w1) s).

(** *** Select and explain *)

Section Sql.
(** A transaction of [database/sql] that could not be ended is excused. *)
Context (commit_ends : forall w r w', commit_tx w = (r, w') -> in_transaction w' = false \/ excused (EvCommit (succeeded r))).
Context (rollback_ends : forall w r w', rollback_tx w = (r, w') -> in_transaction w' = false \/ excused (EvRollback (succeeded r))).

Lemma gone_event s w e : excused e -> gone (after w e s).
Proof. intros He. right. cbn. apply Exists_app. right. by constructor. Qed.

Lemma BeginTx_triple z original :
  triple gone (fun s => block z original s /\ fr_transactionActive s = false) BeginTx
    (fun r s => zone_kept z s /\ restorable z original s /\ match r with Ok _ => True | Err _ => transaction s = false end).
Proof.
  split; [apply call_keeps; intros w r w' E; by eapply calls_begin|]. intros s [[[Hz Ht] Hr] Ha]. unfold BeginTx, call.
  destruct (begin_tx (fr_world s)) as [r w] eqn:E. cbn [fst snd]. apply begin_session in E as [Ez Ex].
  unfold zone_kept, restorable, timezone, transaction in *. cbn. rewrite Ez.
  destruct r as [f|]; cbn [failed]; [|right; by split_and!]. destruct (Ex ltac:(done)) as [Et|Hd]; [right|by left; left].
  split_and!; try done. rewrite Et. by apply Ht.
Qed.

Lemma commit_sql_triple z original :
  triple gone (block z original) commit_sql (fun _ s => zone_kept z s /\ transaction s = false /\ restorable z original s).
Proof.
  unfold commit_sql, Commit, call. split.
  - intros s Hs. destruct (commit_tx (fr_world s)) as [r w] eqn:E.
    assert (Hg : gone (after w (EvCommit (succeeded r)) s)) by (eapply gone_after; [|done]; intros Hd; by eapply discarded_stays, calls_commit).
    by eapply gone_frame; [..|exact Hg].
  - intros s [[Hz Ht] Hr]. destruct (commit_tx (fr_world s)) as [r w] eqn:E. destruct (commit_session _ _ _ E) as [Ez _].
    destruct (commit_ends _ _ _ E) as [Ex|He]; [right|left; eapply gone_frame; [..|exact (gone_event s w _ He)]; done].
    unfold zone_kept, restorable, timezone, transaction in *. cbn. by rewrite Ez.
Qed.

Lemma rollback_sql_triple {A} z original (r : result A) :
  triple gone (block z original) (rollback_sql r) (fun _ s => zone_kept z s /\ transaction s = false /\ restorable z original s).
Proof.
  unfold rollback_sql, ignore, Rollback, call. split.
  - intros s Hs. destruct (fr_transactionActive s); [|done]. destruct (rollback_tx (fr_world s)) as [o w] eqn:E.
    eapply gone_after; [|done]. intros Hd. by eapply discarded_stays, calls_rollback.
  - intros s [[Hz Ht] Hr]. destruct (fr_transactionActive s) eqn:Ea; [|right; cbn; split_and!; auto].
    destruct (rollback_tx (fr_world s)) as [o w] eqn:E. destruct (rollback_session _ _ _ E) as [Ez _].
    destruct (rollback_ends _ _ _ E) as [Ex|He]; [right|left; exact (gone_event s w _ He)].
    unfold zone_kept, restorable, timezone, transaction in *. cbn. by rewrite Ez.
Qed.

Lemma sql_transaction_triple {A} z uses original statement args (m : rowset -> M W A) :
  reads statement = true -> (forall I rows, invariant gone I (m rows)) -> (uses = true -> original = z) ->
  triple gone (fun s => block z original s /\ fr_transactionActive s = false)
    (sql_transaction uses original statement args m) (fun _ => settled z).
Proof.
  intros Hs Hm Ho. eapply triple_deferred; [|intros r; apply (restore_triple z)].
  apply (triple_bind _ _ _ _ _ _ (BeginTx_triple z original)); [intros _|by intros e s (? & ? & ?)].
  apply (flag_then _ (block z original)); [done|by intros s (Hz & Hr & _)|].
  eapply triple_deferred; [|intros r; apply rollback_sql_triple].
  apply invariant_bind; [by apply QueryContext_session; [apply stable_block|]|]. intros rows.
  apply drained; [apply stable_block|]. apply invariant_bind; [apply Hm|]. intros answer.
  apply invariant_bind; [apply CloseRows_session, stable_block|]. intros _.
  apply (triple_bind _ _ _ _ _ _ (commit_sql_triple z original)); [intros _; by apply finish_session|].
  intros e s (Hz & Ht & Hr). split; [by apply zone_commit_pending|done].
Qed.

Lemma validateLegacySourceText_session I spec lower : stable I -> invariant gone I (validateLegacySourceText spec lower).
Proof.
  intros HI. apply invariant_if; [by apply invariant_pure|]. apply invariant_bind; [by apply validateAggregateSource_session|].
  intros _. by apply invariant_pure.
Qed.

Lemma prepared_tidy {A} spec statement args (m : rowset -> M W A) :
  reads statement = true -> (forall I rows, invariant gone I (m rows)) ->
  tidy (let! info := readServerInfo in
        let! original := prepareLegacySourceText spec (lowerCaseTableNames info) in
        sql_transaction (UsesSourceText spec) original statement args m).
Proof.
  intros Hs Hm z.
  apply (triple_bind _ _ _ _ (fun _ => fresh z)); [apply readServerInfo_session, stable_fresh|intros info|intros e s; apply fresh_settled].
  apply (triple_bind _ _ _ _ (fun r s => match r with
    | Ok o => (block z o s /\ fr_transactionActive s = false) /\ (UsesSourceText spec = true -> o = z) | Err _ => settled z s end)); [|intros original|done].
  - apply (triple_bind _ _ _ _ (fun _ => fresh z)); [apply validateLegacySourceText_session, stable_fresh|intros _|intros e s; apply fresh_settled].
    apply (utc_triple z (UsesSourceText spec)).
  - apply triple_assuming; [by apply (sql_transaction_triple original (UsesSourceText spec))|intros Ho]. by apply sql_transaction_triple.
Qed.

Lemma compile_reads spec deadlineMS text args : compile spec deadlineMS = Ok (text, args) -> reads text = true.
Proof.
  unfold compile. intros H1. err_inv.
  repeat match goal with H : (let '(_, _) := ?x in _) = _ |- _ => destruct x; err_inv end. by subst text.
Qed.

Lemma compileSelect_reads spec deadlineMS n text args : compileSelect spec deadlineMS n = Ok (text, args) -> reads text = true.
Proof.
  unfold compileSelect. intros H1. err_inv.
  repeat match goal with H : (let '(_, _) := ?x in _) = _ |- _ => destruct x; err_inv end. by subst text.
Qed.

Lemma Select_released query : released (Select query).
Proof.
  intros w w1 r s Ho Htx Hr Ht. unfold Select in Hr. cbv zeta in Hr. destruct (negb _); [injection Hr as _ <-; done|].
  destruct (compileSelect _ _ _) as [[statement args]|] eqn:E; [|injection Hr as _ <-; done].
  eapply with_connection_leaves; [|exact Ho|exact Htx|exact Hr]. apply prepared_tidy; [by eapply compileSelect_reads|].
  intros I rows. by apply invariant_pure.
Qed.

Lemma Explain_released query : released (Explain query).
Proof.
  intros w w1 r s Ho Htx Hr Ht. unfold Explain in Hr. cbv zeta in Hr. destruct (negb _); [injection Hr as _ <-; done|].
  destruct (compile _ _) as [[statement args]|] eqn:E; [|injection Hr as _ <-; done].
  eapply with_connection_leaves; [|exact Ho|exact Htx|exact Hr]. apply prepared_tidy; [by eapply compile_reads|].
  intros I rows. apply invariant_bind; [apply now_upstream_session|]. intros u. by apply invariant_pure.
Qed.
End Sql.

Lemma Aggregate_released query base : released (Aggregate query base).
Proof.
  intros w w1 r s Ho Htx Hr Ht. unfold Aggregate in Hr. cbv zeta in Hr.
  destruct (negb _); [injection Hr as _ <-; done|]. destruct (_ <? _); [injection Hr as _ <-; done|].
  eapply with_connection_leaves; [|exact Ho|exact Htx|exact Hr]. apply Aggregate_tidy.
Qed.
End Clean.

(** ** What is left in the pool *)

Definition no_excuse : Excuse := fun _ => False.
Definition failed_end : Excuse := fun e => e = EvCommit false \/ e = EvRollback false.

Section Pool.
Context {W : Type} `{SessionLaws W}.

(** An operation leaves nothing behind: a connection that it opened without a transaction
    is released at last, with the time zone that it had and no transaction, unless
    the pool is told to close it. *)
Definition leaves_session {A} (operation : M W A) : Prop := forall w w1 r s,
  open_conn w = (None, w1) -> in_transaction w1 = false -> operation (start w) = (r, s) -> fr_trace s <> [] ->
  (exists t, fr_trace s = (t ++ [EvRelease])%list) /\
  (discarded (fr_world s) = true \/
   session_timezone (fr_world s) = session_timezone w1 /\ in_transaction (fr_world s) = false).

(** The same, but for a transaction of [database/sql] that could not be ended. *)
Definition leaves_timezone {A} (operation : M W A) : Prop := forall w w1 r s,
  open_conn w = (None, w1) -> in_transaction w1 = false -> operation (start w) = (r, s) -> fr_trace s <> [] ->
  (exists t, fr_trace s = (t ++ [EvRelease])%list) /\
  (discarded (fr_world s) = true \/
   session_timezone (fr_world s) = session_timezone w1 /\
   (in_transaction (fr_world s) = false \/ EvCommit false ∈ fr_trace s \/ EvRollback false ∈ fr_trace s)).

Lemma released_leaves {A} (operation : M W A) : released (X := no_excuse) operation -> leaves_session operation.
Proof.
  intros Hr w w1 r s Ho Htx Hrun Ht. destruct (Hr w w1 r s Ho Htx Hrun Ht) as [He [[Hd|Hx] | Hs]]; (split; [done|]); auto.
  by apply Exists_exists in Hx as (e & _ & []).
Qed.

(** The laws hold when no transaction is looked at. *)
#[refine] Definition zone_laws : SessionLaws W := {|
  session_timezone := session_timezone; in_transaction _ := false; discarded := discarded |}.
Proof.
  - intros d w r w' E. by destruct (deadline_session _ _ _ _ E).
  - intros text args w r w' Ht E. by destruct (read_row_session _ _ _ _ _ Ht E).
  - intros text args w r w' Ht E. by destruct (read_session _ _ _ _ _ Ht E).
  - intros w r w' E. by destruct (close_rows_session _ _ _ E).
  - intros w. by destruct (drain_session w).
  - intros w. by destruct (close_session w).
  - exact timezone_read.
  - done.
  - intros args w r w' E. by destruct (isolation_set _ _ _ _ E).
  - exact start_session.
  - intros text args w r w' Ht E. by destruct (end_session _ _ _ _ _ Ht E).
  - intros w r w' E. destruct (begin_session _ _ _ E). split; [done|by left].
  - intros w r w' E. by destruct (commit_session _ _ _ E).
  - intros w r w' E. by destruct (rollback_session _ _ _ E).
  - exact discard_session.
  - exact abort_session.
  - exact discarded_stays.
Defined.

Lemma released_zone {A} (operation : M W A) :
  released (H0 := zone_laws) (X := no_excuse) operation -> released (X := failed_end) operation -> leaves_timezone operation.
Proof.
  intros Hz Hr w w1 r s Ho Htx Hrun Ht. destruct (Hr w w1 r s Ho Htx Hrun Ht) as [He Hend]. split; [done|].
  destruct (Hz w w1 r s Ho eq_refl Hrun Ht) as [_ [[Hd|Hx] | [Hzone _]]]; [by left| |].
  { by apply Exists_exists in Hx as (e & _ & []). }
  destruct Hend as [[Hd|Hx] | [_ Hno]]; [by left|right; split; [exact Hzone|right]|right; split; [exact Hzone|by left]].
  apply Exists_exists in Hx as (e & Hin & [-> | ->]); auto.
Qed.

Lemma ends_or_fails w r w' : commit_tx w = (r, w') -> in_transaction w' = false \/ failed_end (EvCommit (succeeded r)).
Proof. intros E. destruct (commit_session _ _ _ E) as [_ Hc]. destruct r as [f|]; [right; by left|left; by apply Hc]. Qed.
Lemma rolls_back_or_fails w r w' : rollback_tx w = (r, w') -> in_transaction w' = false \/ failed_end (EvRollback (succeeded r)).
Proof. intros E. destruct (rollback_session _ _ _ E) as [_ Hc]. destruct r as [f|]; [right; by right|left; by apply Hc]. Qed.

Lemma Select_leaves query : leaves_timezone (Select query).
Proof.
  apply released_zone; [apply Select_released; by left|].
  apply Select_released; [apply ends_or_fails|apply rolls_back_or_fails].
Qed.

Lemma Explain_leaves query : leaves_timezone (Explain query).
Proof.
  apply released_zone; [apply Explain_released; by left|].
  apply Explain_released; [apply ends_or_fails|apply rolls_back_or_fails].
Qed.

Lemma Aggregate_leaves query base : leaves_session (Aggregate query base).
Proof. apply released_leaves, Aggregate_released. Qed.
End Pool.

(** The laws hold for the simulated server, which pins its time zone. *)
Definition simulated_rows (text : string) : raw_row :=
  if String.eqb text server_statement then [Some "8.0.36"; Some "MySQL Community Server"; Some "0"]
  else [Some "shop"; Some "orders"].

Definition simulated_answers (text : string) : rowset := {|
  rs_columns := inl [("id", "INT", Some false); ("total", "DECIMAL", Some true)];
  rs_rows := [inl [Some "12"; None]; inl [Some "13"; Some "0.50"]]; rs_err := None; rs_stop := None |}.

Definition simulated_world : simulated := {| sm_timezone := EmptyString; sm_transaction := false; sm_discarded := false |}.

Definition simulated_select : result SelectAnswer * frame simulated :=
  @Select _ (simulated_driver simulated_rows simulated_answers) Sql.example_authorized (start simulated_world).

Example simulated_select_answer :
  match simulated_select with
  | (Ok a, s) => sr_rows (sa_result a) = [[Some "12"; None]; [Some "13"; Some "0.50"]] /\ sm_timezone (fr_world s) = "SYSTEM"
  | _ => False
  end.
Proof. vm_compute. by split. Qed.
