(* ===== verification/PlanFirst.v ===== *)
(** The order of the calls of an operation that inspects its plan, whatever the driver
    answers: the compiled statement is run at most once, after the plan of the same
    statement was read and accepted inside the same read-only transaction; and the
    answer is made of the rows of that one call. The first part holds for any such
    operation, the second is the aggregate. The development needs no law of the driver. *)
From S2P Require Import Prelude Domain GoJson Number Portable Values QuerySpec Config Policy Sql JsonText Rows Plan Aggregate AggregateNormal NumericBucket SqlAggregate PolicyAggregate Driver Session.
Local Open Scope string_scope.
Local Open Scope Z_scope.

(** ** The plan comes first *)

Section Quiet.
Context {W : Type} `{Driver W}.
Implicit Types (s : frame W).

(** Running a compiled statement: the query of a text with the optimizer hint. *)
Definition runs (e : event) : bool := match e with EvQuery text _ _ => sprefix "SELECT /*+" text | _ => false end.
Definition quiet (e : event) : Prop := runs e = false.

(** [m] runs no compiled statement. *)
Definition quietly {A} (m : M W A) : Prop :=
  forall s, exists new, fr_trace (m s).2 = (fr_trace s ++ new)%list /\ Forall quiet new.

Lemma quietly_one {A} (m : M W A) : (forall s, exists w e, (m s).2 = after w e s /\ quiet e) -> quietly m.
Proof. intros Hm s. destruct (Hm s) as (w & e & -> & He). exists [e]. split; [done|by repeat constructor]. Qed.

Lemma quietly_none {A} (m : M W A) : (forall s, fr_trace (m s).2 = fr_trace s) -> quietly m.
Proof. intros Hm s. exists []. by rewrite Hm, app_nil_r. Qed.

Lemma quietly_then {A} (m : M W A) s s' new : quietly m -> fr_trace s = (fr_trace s' ++ new)%list -> Forall quiet new ->
  exists new', fr_trace (m s).2 = (fr_trace s' ++ new')%list /\ Forall quiet new'.
Proof.
  intros Hm E Hn. destruct (Hm s) as (k & -> & Hk). exists (new ++ k)%list. rewrite E, app_assoc. split; [done|by apply Forall_app].
Qed.

Lemma quietly_bind {A B} (m : M W A) (k : A -> M W B) : quietly m -> (forall a, quietly (k a)) -> quietly (bind m k).
Proof.
  intros Hm Hk s. unfold bind. destruct (Hm s) as (n & E & Hn). destruct (m s) as [[a|e] s']; cbn [snd] in *.
  - by eapply quietly_then.
  - by exists n.
Qed.

Lemma quietly_deferred {A} (f : result A -> M W A) (m : M W A) : (forall r, quietly (f r)) -> quietly m -> quietly (deferred f m).
Proof.
  intros Hf Hm s. unfold deferred. destruct (Hm s) as (n & E & Hn). destruct (m s) as [r s']; cbn [snd] in *. by eapply quietly_then.
Qed.

Lemma quietly_ignore {A B} (m : M W A) (r : result B) : quietly m -> quietly (ignore m r).
Proof. intros Hm s. exact (Hm s). Qed.

Lemma quietly_if {A} (b : bool) (m k : M W A) : quietly m -> quietly k -> quietly (if b then m else k).
Proof. by destruct b. Qed.

Lemma quietly_or_discard {A} (m : M W A) : quietly m -> quietly (or_discard m).
Proof.
  intros Hm s. unfold or_discard. destruct (Hm s) as (n & E & Hn). destruct (m s) as [[a|e] s']; cbn [snd] in *; [by exists n|].
  exists (n ++ [EvDiscard])%list. cbn. rewrite E, app_assoc. split; [done|]. apply Forall_app. split; [done|by repeat constructor].
Qed.

Lemma quietly_call event_of op classify : (forall b, quiet (event_of b)) -> quietly (call event_of op classify).
Proof. intros He. apply quietly_one. intros s. unfold call. destruct (op (fr_world s)) as [r w]. by exists w, (event_of (succeeded r)). Qed.

Lemma quietly_row classify text args : quietly (QueryRowContext classify text args).
Proof.
  apply quietly_one. intros s. unfold QueryRowContext. destruct (query_row text args (fr_world s)) as [r w].
  by exists w, (EvRow text args).
Qed.

Lemma quietly_query classify text args : sprefix "SELECT /*+" text = false -> quietly (QueryContext classify text args).
Proof.
  intros Ht. apply quietly_one. intros s. unfold QueryContext. destruct (query text args (fr_world s)) as [r w].
  by exists w, (EvQuery text args r).
Qed.

Lemma quietly_effect e op : quiet e -> quietly (effect e op).
Proof. intros He. apply quietly_one. intros s. by exists (op (fr_world s)), e. Qed.

Lemma quietly_drained {A} (m : M W A) : quietly m -> quietly (defer_ignored drainAndCloseRows m).
Proof. intros Hm. apply quietly_deferred; [intros r; by apply quietly_ignore, quietly_effect|done]. Qed.
End Quiet.

Create HintDb quiet.
#[export] Hint Resolve quietly_bind quietly_deferred quietly_ignore quietly_if quietly_or_discard quietly_row quietly_drained : quiet.
#[export] Hint Extern 1 (quietly (lift _)) => by apply quietly_none : quiet.
#[export] Hint Extern 1 (quietly (ret _)) => by apply quietly_none : quiet.
#[export] Hint Extern 1 (quietly (fail _)) => by apply quietly_none : quiet.
#[export] Hint Extern 1 (quietly classified_failure) => by apply quietly_none : quiet.
#[export] Hint Extern 1 (quietly now_upstream) => by apply quietly_none : quiet.
#[export] Hint Extern 1 (quietly (with_clearDeadline _)) => by apply quietly_none : quiet.
#[export] Hint Extern 1 (quietly (with_sessionMutated _)) => by apply quietly_none : quiet.
#[export] Hint Extern 1 (quietly (with_transactionActive _)) => by apply quietly_none : quiet.
#[export] Hint Extern 1 (quietly (setDeadline _)) => by apply quietly_call : quiet.
#[export] Hint Extern 1 (quietly (ExecContext _ _)) => by apply quietly_call : quiet.
#[export] Hint Extern 1 (quietly CloseRows) => by apply quietly_call : quiet.
#[export] Hint Extern 1 (quietly Conn) => by apply quietly_call : quiet.
#[export] Hint Extern 1 (quietly drainAndCloseRows) => by apply quietly_effect : quiet.
#[export] Hint Extern 1 (quietly release) => by apply quietly_effect : quiet.
#[export] Hint Extern 1 (quietly discardSQLConnection) => by apply quietly_effect : quiet.


(** [quiet_tac] goes through an operation call by call. *)
Ltac quiet_tac := repeat first
  [ solve [auto 3 with quiet]
  | apply quietly_bind; [|intros ?]
  | apply quietly_or_discard | apply quietly_if | apply quietly_drained | apply quietly_ignore
  | match goal with |- quietly (match ?x with _ => _ end) => destruct x end ].

Section PlanFirst.
Context {W : Type} `{Driver W}.
Implicit Types (s : frame W).

Lemma readServerInfo_quiet : quietly readServerInfo.
Proof. unfold readServerInfo. quiet_tac. Qed.

Lemma validateAggregateSource_quiet spec lower : quietly (validateAggregateSource spec lower).
Proof. unfold validateAggregateSource. quiet_tac. by apply quietly_query. Qed.

Lemma read_timezone_quiet : quietly read_timezone.
Proof. unfold read_timezone. quiet_tac. Qed.
Hint Resolve read_timezone_quiet : quiet.

Lemma set_timezone_quiet : quietly setAggregateUTCSession.
Proof. unfold setAggregateUTCSession. quiet_tac. Qed.

Lemma restore_timezone_quiet original : quietly (restoreAggregateSessionTimezone original).
Proof. unfold restoreAggregateSessionTimezone. quiet_tac. Qed.

Lemma finalize_quiet text : quietly (finalizeAggregateTransaction text).
Proof. unfold finalizeAggregateTransaction. quiet_tac. Qed.

Lemma startAggregateTransaction_quiet : quietly startAggregateTransaction.
Proof. unfold startAggregateTransaction. quiet_tac. Qed.
Hint Resolve readServerInfo_quiet validateAggregateSource_quiet set_timezone_quiet restore_timezone_quiet finalize_quiet
  startAggregateTransaction_quiet : quiet.

Lemma rollback_quiet {A} (r : result A) : quietly (rollback_transaction r).
Proof.
  intros s. unfold rollback_transaction. destruct (fr_transactionActive s); [apply (finalize_quiet "ROLLBACK" s)|].
  exists []. by rewrite app_nil_r.
Qed.

Lemma restore_quiet {A} original (r : result A) : quietly (restore_session original r).
Proof.
  intros s. unfold restore_session. destruct (negb (fr_sessionMutated s)); [exists []; by rewrite app_nil_r|].
  destruct r as [a|e].
  - destruct (restore_timezone_quiet original s) as (n & E & Hn). exists n.
    destruct (restoreAggregateSessionTimezone original s) as [[[]|e] s']; cbn [snd] in *; done.
  - exists [EvDiscard]. split; [done|by repeat constructor].
Qed.

(** *** Exact traces of the calls before the statement *)

Lemma start_trace s : (startAggregateTransaction s).1 = Ok tt ->
  fr_trace (startAggregateTransaction s).2 =
    (fr_trace s ++ [EvExec isolation_statement [] true; EvExec start_statement [] true])%list.
Proof.
  unfold startAggregateTransaction, bind, ExecContext, call. destruct (exec isolation_statement [] (fr_world s)) as [[f|] w]; [done|].
  cbn [failed succeeded]. unfold or_discard. cbn [after fr_world]. destruct (exec start_statement [] w) as [[f|] w']; [done|].
  intros _. cbn. by rewrite <- app_assoc.
Qed.

Lemma plan_trace s statement args plan : (readAggregatePlan statement args s).1 = Ok plan ->
  exists rows upstream,
    fr_trace (readAggregatePlan statement args s).2 = (fr_trace s ++ [EvQuery statement args (inl rows); EvDrain])%list /\
    plan_text MaxSupportedResultBytes invalid_error upstream rows = Ok plan.
Proof.
  unfold readAggregatePlan, bind, QueryContext. destruct (query statement args (fr_world s)) as [[rows|f] w]; [|done].
  cbn [answered]. unfold defer_ignored, deferred, now_upstream, lift, ignore. cbn [fst snd]. intros E. exists rows. eexists. split; [|exact E].
  cbn. by rewrite <- app_assoc.
Qed.
End PlanFirst.
#[export] Hint Resolve readServerInfo_quiet validateAggregateSource_quiet set_timezone_quiet restore_timezone_quiet finalize_quiet
  startAggregateTransaction_quiet read_timezone_quiet : quiet.

Section Results.
Context {W : Type} `{Driver W}.
Implicit Types (s : frame W).

Lemma rollback_result {A} (r : result A) s : (rollback_transaction r s).1 = r.
Proof. unfold rollback_transaction. by destruct (fr_transactionActive s). Qed.

Lemma restore_result {A} original (r : result A) s a : (restore_session original r s).1 = Ok a -> r = Ok a.
Proof.
  unfold restore_session. destruct (negb _); [done|]. destruct r as [b|e]; [|done].
  by destruct (restoreAggregateSessionTimezone original s) as [[[]|e] s'].
Qed.

Lemma bind_ok {A B} (m : M W A) (k : A -> M W B) s b : (bind m k s).1 = Ok b ->
  exists a, (m s).1 = Ok a /\ (k a (m s).2).1 = Ok b.
Proof. unfold bind. destruct (m s) as [[a|e] s']; [|done]. intros E. by exists a. Qed.

Lemma lift_ok {A} (r : result A) s a s1 : lift r s = (Ok a, s1) -> r = Ok a.
Proof. unfold lift. by intros [= -> _]. Qed.

Lemma QueryContext_trace classify text args s :
  exists answer, fr_trace (QueryContext classify text args s).2 = (fr_trace s ++ [EvQuery text args answer])%list /\
    (QueryContext classify text args s).1 = answered classify answer.
Proof. unfold QueryContext. destruct (query text args (fr_world s)) as [r w]. by exists r. Qed.
End Results.

(** *** The transaction around a statement

    [validate] is the check of the plan; [good] relates an answer to the rows of the
    statement. *)
Section Planned.
Context {W : Type} `{Driver W} {A : Type} (validate : string -> result unit).
Implicit Types (s : frame W) (r : result A).

(** The statement that the calls of [new] ran, and what they did before. *)
Record planned (statement : string) (args : list Bind) (new : list event) (answer : rowset + failure) : Prop := {
  pl_new : exists rows upstream plan post,
    new = ([EvExec isolation_statement [] true; EvExec start_statement [] true;
            EvQuery (explain_prefix +:+ statement) args (inl rows); EvDrain; EvQuery statement args answer] ++ post)%list /\
    Forall quiet post /\
    plan_text MaxSupportedResultBytes invalid_error upstream rows = Ok plan /\
    validate plan = Ok tt;
}.

Lemma planned_more statement args new answer more : planned statement args new answer -> Forall quiet more ->
  planned statement args (new ++ more) answer.
Proof.
  intros [(rows & u & plan & post & -> & Hp & H1 & H2)] Hm. constructor. exists rows, u, plan, (post ++ more)%list.
  split_and!; try done; by apply Forall_app.
Qed.

Section Transaction.
Context (good : A -> rowset -> Prop) (statement : string) (args : list Bind).

(** What the body of the transaction did, and the answer it gave. *)
Definition body_outcome r (new : list event) : Prop :=
  (Forall quiet new /\ is_ok r = false) \/
  exists answer, planned statement args new answer /\ forall a, r = Ok a -> exists rows, answer = inl rows /\ good a rows.

Lemma body_outcome_quiet r r' new more :
  body_outcome r new -> Forall quiet more -> (forall a, r' = Ok a -> r = Ok a) -> body_outcome r' (new ++ more).
Proof.
  intros [[Hn Hr]|(answer & Hp & Ha)] Hm Hr'.
  - left. split; [by apply Forall_app|]. destruct r' as [a|]; [|done]. rewrite (Hr' a eq_refl) in Hr. done.
  - right. exists answer. split; [by apply planned_more|intros a E; by apply Ha, Hr'].
Qed.

(** After the calls [pre] of the block, [m] completes an outcome. *)
Definition completes (pre : list event) s (m : M W A) : Prop :=
  exists new, fr_trace (m s).2 = (fr_trace s ++ new)%list /\ body_outcome (m s).1 (pre ++ new)%list.

Lemma completes_ok {B} pre (m : M W B) (k : B -> M W A) s s1 b n :
  m s = (Ok b, s1) -> fr_trace s1 = (fr_trace s ++ n)%list -> completes (pre ++ n) s1 (k b) -> completes pre s (bind m k).
Proof.
  intros E Et (new & E' & Ho). exists (n ++ new)%list. unfold bind. rewrite E.
  split; [by rewrite E', Et, <- app_assoc|by rewrite app_assoc].
Qed.

Lemma completes_err {B} pre (m : M W B) (k : B -> M W A) s s1 e :
  m s = (Err e, s1) -> quietly m -> Forall quiet pre -> completes pre s (bind m k).
Proof.
  intros E Hq Hp. destruct (Hq s) as (new & E' & Hn). rewrite E in E'. cbn [snd] in E'. exists new. unfold bind. rewrite E.
  split; [done|]. left. split; [by apply Forall_app|done].
Qed.

Lemma completes_deferred pre (f : result A -> M W A) m s :
  (forall r, quietly (f r)) -> (forall r s a, (f r s).1 = Ok a -> r = Ok a) -> completes pre s m -> completes pre s (deferred f m).
Proof.
  intros Hq Hf (new & E & Ho). unfold completes, deferred. destruct (m s) as [r s']; cbn [fst snd] in *.
  destruct (Hq r s') as (more & E' & Hm). exists (new ++ more)%list. rewrite E', E, !app_assoc. split; [done|].
  eapply body_outcome_quiet; [exact Ho|done|apply Hf].
Qed.

Context (classify : failure -> goerr) (body : rowset -> M W A).
Hypothesis body_quiet : forall rows, quietly (body rows).
Hypothesis body_good : forall rows s a, (body rows s).1 = Ok a -> good a rows.

Lemma statement_outcome plan rows upstream s :
  plan_text MaxSupportedResultBytes invalid_error upstream rows = Ok plan -> validate plan = Ok tt ->
  completes [EvExec isolation_statement [] true; EvExec start_statement [] true; EvQuery (explain_prefix +:+ statement) args (inl rows); EvDrain] s
    (let! rows := QueryContext classify statement args in body rows).
Proof.
  intros Hp Hv. unfold completes, bind. destruct (QueryContext_trace classify statement args s) as (answer & E & Ea).
  destruct (QueryContext classify statement args s) as [r s1]; cbn [fst snd] in *.
  assert (Hplan : forall post, Forall quiet post -> planned statement args
    ([EvExec isolation_statement [] true; EvExec start_statement [] true; EvQuery (explain_prefix +:+ statement) args (inl rows); EvDrain] ++
     [EvQuery statement args answer] ++ post) answer).
  { intros post Hq. constructor. exists rows, upstream, plan, post. by split_and!. }
  destruct answer as [answer|f]; subst r; cbn [answered].
  - destruct (body_quiet answer s1) as (new & E' & Hq).
    exists ([EvQuery statement args (inl answer)] ++ new)%list. rewrite E', E, <- app_assoc. split; [done|]. right.
    exists (inl answer). split; [by apply Hplan|]. intros a Ha. exists answer. split; [done|]. by eapply body_good.
  - exists [EvQuery statement args (inr f)]. cbn [fst snd]. rewrite E. split; [done|]. right. exists (inr f). split; [|done].
    specialize (Hplan [] ltac:(constructor)). by rewrite app_nil_r in Hplan.
Qed.

Lemma plan_quiet : quietly (readAggregatePlan (W := W) (explain_prefix +:+ statement) args).
Proof. unfold readAggregatePlan. quiet_tac. by apply quietly_query. Qed.

Lemma planned_transaction_outcome s :
  completes [] s
    (do! startAggregateTransaction then
     do! with_transactionActive true then
     deferred rollback_transaction
       (let! plan := readAggregatePlan (explain_prefix +:+ statement) args in
        do! lift (validate plan) then
        let! rows := QueryContext classify statement args in body rows)).
Proof.
  destruct (startAggregateTransaction s) as [[[]|e] s1] eqn:Es; [|by eapply completes_err; [exact Es|apply startAggregateTransaction_quiet|constructor]].
  pose proof (start_trace s) as Ht. rewrite Es in Ht. eapply completes_ok; [exact Es|by apply Ht|]. clear Ht Es.
  eapply (completes_ok _ _ _ _ _ tt []); [reflexivity|symmetry; apply app_nil_r|]. rewrite app_nil_r. set (s2 := {| fr_world := fr_world s1; fr_trace := _ |}).
  clearbody s2. apply completes_deferred; [intros r; apply rollback_quiet|intros r s0 a; by rewrite rollback_result|].
  destruct (readAggregatePlan (explain_prefix +:+ statement) args s2) as [[plan|e] s3] eqn:Ep;
    [|by eapply completes_err; [exact Ep|apply plan_quiet|repeat constructor]].
  pose proof (plan_trace s2 (explain_prefix +:+ statement) args plan) as Ht. rewrite Ep in Ht.
  destruct (Ht eq_refl) as (rows & upstream & E & Hp). eapply completes_ok; [exact Ep|exact E|]. clear Ht Ep E.
  destruct (validate plan) as [[]|e] eqn:Ev.
  2: { eapply completes_err; [reflexivity|by apply quietly_none|by repeat constructor]. }
  eapply (completes_ok _ _ _ _ _ tt []); [reflexivity|symmetry; apply app_nil_r|]. rewrite app_nil_r.
  by apply (statement_outcome plan rows upstream s3 Hp).
Qed.
End Transaction.

(** What an operation may conclude with: nothing was run, or one planned statement.
    [compiled x statement args] says that the statement was compiled in the context [x]. *)
Section Concludes.
Context {X : Type} (compiled : X -> string -> list Bind -> Prop) (good : X -> A -> rowset -> Prop).

Definition ran_planned r (trace : list event) : Prop :=
  exists front new x statement args answer,
    trace = (front ++ new)%list /\ Forall quiet front /\ compiled x statement args /\ planned statement args new answer /\
    forall a, r = Ok a -> exists rows, answer = inl rows /\ good x a rows.

Definition concludes s (m : M W A) : Prop :=
  exists new, fr_trace (m s).2 = (fr_trace s ++ new)%list /\ (Forall quiet new /\ is_ok (m s).1 = false \/ ran_planned (m s).1 new).

Lemma ran_front r front new : Forall quiet front -> ran_planned r new -> ran_planned r (front ++ new).
Proof.
  intros Hq (front' & new' & x & statement & args & answer & -> & Hf & Hc & Hp & Ha).
  exists (front ++ front')%list, new', x, statement, args, answer. rewrite app_assoc. split_and!; try done. by apply Forall_app.
Qed.

Lemma concludes_bind {B} (m : M W B) k s : quietly m -> (forall b s1, m s = (Ok b, s1) -> concludes s1 (k b)) -> concludes s (bind m k).
Proof.
  intros Hm Hk. destruct (Hm s) as (n & E & Hn). unfold concludes, bind. destruct (m s) as [[a|e] s1]; cbn [fst snd] in *.
  - destruct (Hk a s1 eq_refl) as (new & E' & Ho). exists (n ++ new)%list. rewrite E', E, app_assoc. split; [done|].
    destruct Ho as [[Hq Hr]|Hr]; [left; split; [by apply Forall_app|done]|right; by apply ran_front].
  - exists n. split; [done|]. by left.
Qed.

Lemma concludes_lift {B} (r : result B) k s : (forall b, r = Ok b -> concludes s (k b)) -> concludes s (bind (lift r) k).
Proof. intros Hk. apply concludes_bind; [auto with quiet|]. intros b s1 [= -> ->]. by apply Hk. Qed.

Lemma concludes_deferred f m s : (forall r, quietly (f r)) -> (forall r s a, (f r s).1 = Ok a -> r = Ok a) ->
  concludes s m -> concludes s (deferred f m).
Proof.
  intros Hf Hok (new & E & Ho). unfold concludes, deferred. destruct (m s) as [r s1]; cbn [fst snd] in *.
  destruct (Hf r s1) as (more & E' & Hq). exists (new ++ more)%list. rewrite E', E, app_assoc. split; [done|].
  assert (Hr : forall a, (f r s1).1 = Ok a -> r = Ok a) by (intros a; apply Hok).
  destruct Ho as [[Hn Hb]|(front & n & x & statement & args & answer & -> & Hfr & Hc & Hp & Ha)].
  - left. split; [by apply Forall_app|]. destruct (f r s1).1 as [a|]; [|done]. by rewrite (Hr a eq_refl) in Hb.
  - right. exists front, (n ++ more)%list, x, statement, args, answer. split_and!; try done.
    + by rewrite <- app_assoc.
    + by apply planned_more.
    + intros a E1. apply Ha. by apply Hr.
Qed.

Lemma concludes_completed x statement args m s : compiled x statement args -> completes (good x) statement args [] s m -> concludes s m.
Proof.
  intros Hc (new & E & Ho). exists new. split; [done|]. destruct Ho as [Ho|(answer & Hp & Ha)]; [by left|right].
  exists [], new, x, statement, args, answer. by split_and!.
Qed.

Lemma concludes_fail e s : concludes s (fail e).
Proof. exists []. rewrite app_nil_r. by split; [|left]. Qed.

(** Opening the connection and releasing it runs nothing. *)
Lemma concludes_connection deadlineMS m s : (forall s1, concludes s1 m) -> concludes s (with_connection deadlineMS m).
Proof.
  intros Hm. unfold with_connection. apply concludes_bind; [auto with quiet|]. intros [] s1 _.
  apply concludes_deferred; [intros r; auto with quiet|done|].
  apply concludes_bind; [unfold bindConnectionDeadline; quiet_tac|]. intros [] s2 _.
  apply concludes_bind; [auto with quiet|]. intros [] s3 _.
  apply concludes_deferred; [| |apply Hm].
  - intros r s0. destruct (fr_clearDeadline s0); [|exists []; by rewrite app_nil_r].
    assert (Hq : quietly (ignore clearDeadline r)) by (unfold clearDeadline; auto with quiet). apply Hq.
  - intros r s0 a. by destruct (fr_clearDeadline s0).
Qed.
End Concludes.
End Planned.

(** ** Aggregate *)

Section AggregatePlan.
Context {W : Type} `{Driver W}.
Context (query : AuthorizedAggregate) (base : Z).
Implicit Types (s : frame W).

Definition accepts_plan (plan : string) : result unit :=
  validateAggregatePlan plan (aa_requiredIndex query) (aa_maximumRowsExaminedPerScan query) (aa_allowTemporaryTable query) (aa_allowFilesort query).

(** The answer is made of the rows, collected within the bytes that the columns leave. *)
Definition answer_of (columns : list ResultColumn) (bytes : Z) (a : AggregateAnswer) (rows : rowset) : Prop :=
  an_columns a = columns /\
  collectAggregateRowsWithSpec (va_spec (aa_query query)) columns (MaxResultBytes (aa_limits query)) (boundaries_of query)
    (stream classifyExecutionError rows)
    {| ar_rows := []; ar_bytes := bytes; ar_truncated := false; ar_provisional := None |} = Ok (an_result a).

(** The calls after the statement. *)
Definition after_statement (columns : list ResultColumn) (bytes : Z) (original : string) (rows : rowset) : M W AggregateAnswer :=
  let spec := va_spec (aa_query query) in
  let! result := lift (collectAggregateRowsWithSpec spec columns (MaxResultBytes (aa_limits query)) (boundaries_of query)
                     (stream classifyExecutionError rows)
                     {| ar_rows := []; ar_bytes := bytes; ar_truncated := false; ar_provisional := None |}) in
  do! CloseRows then
  do! finalizeAggregateTransaction "COMMIT" then
  do! with_transactionActive false then
  do! (if uses_utc spec then do! restoreAggregateSessionTimezone original then with_sessionMutated false
       else ret tt) then
  do! finish_deadline then
  ret {| an_mode := a_mode spec; an_columns := columns; an_result := result; an_rowCount := len (ar_rows result) |}.

Lemma after_statement_quiet columns bytes original rows : quietly (after_statement columns bytes original rows).
Proof. unfold after_statement, finish_deadline, clearDeadline. quiet_tac. Qed.

Lemma after_statement_result columns bytes original rows s a :
  (after_statement columns bytes original rows s).1 = Ok a -> answer_of columns bytes a rows.
Proof.
  unfold after_statement, answer_of. intros (result & Hr & E)%bind_ok. cbn [lift fst] in Hr. rewrite Hr.
  repeat match goal with E : (bind _ _ _).1 = Ok _ |- _ => apply bind_ok in E as (? & _ & E) end.
  cbn in E. injection E as <-. done.
Qed.

Lemma aggregate_transaction_outcome columns statement args bytes original s :
  completes accepts_plan (answer_of columns bytes) statement args [] s (aggregate_transaction query columns statement args bytes original).
Proof.
  apply (planned_transaction_outcome accepts_plan (answer_of columns bytes) statement args classifyQueryError
    (fun rows => defer_ignored drainAndCloseRows (after_statement columns bytes original rows))).
  - intros rows. apply quietly_drained, after_statement_quiet.
  - intros rows s0 a. unfold defer_ignored, deferred. destruct (after_statement columns bytes original rows s0) as [r s1] eqn:E.
    cbn [ignore fst]. intros ->. apply (after_statement_result columns bytes original rows s0). by rewrite E.
Qed.

(** In the context of its columns and the bytes that they take. *)
Definition aggregate_compiled (x : list ResultColumn * Z) (statement : string) (args : list Bind) : Prop :=
  compileAggregate (va_spec (aa_query query)) (DeadlineMS (aa_limits query)) (boundaries_of query) = Ok (statement, args) /\
  addAggregateColumnsSize base x.1 (MaxResultBytes (aa_limits query)) = Ok x.2.

Definition ran : result AggregateAnswer -> list event -> Prop :=
  ran_planned accepts_plan aggregate_compiled (fun x => answer_of x.1 x.2).

Lemma Aggregate_concludes s : concludes accepts_plan aggregate_compiled (fun x => answer_of x.1 x.2) s (Aggregate query base).
Proof.
  unfold Aggregate. cbv zeta. destruct (negb _); [apply concludes_fail|]. destruct (_ <? _); [apply concludes_fail|].
  apply concludes_connection. intros s3.
  apply concludes_bind; [auto with quiet|]. intros info s4 _.
  apply concludes_bind; [auto with quiet|]. intros source s5 _.
  apply concludes_lift. intros [] _. apply concludes_lift. intros columns _.
  apply concludes_lift. intros [statement args] Hc. destruct (compileAggregate _ _ _) as [c|] eqn:Ec; [|done]. injection Hc as ->.
  apply concludes_lift. intros bytes Hb.
  apply concludes_bind; [destruct (uses_utc _); quiet_tac|]. intros original s10 _.
  apply concludes_deferred; [intros r; apply restore_quiet|intros r s0 a; apply restore_result|].
  eapply (concludes_completed _ _ _ (columns, bytes)); [by split|apply aggregate_transaction_outcome].
Qed.
End AggregatePlan.

(** C7: No aggregate runs unplanned. Whatever the driver answers, [Aggregate] either
    fails without having run a compiled statement, or it ran exactly one: the
    statement compiled from the authorized query with its arguments, directly after
    the read-only snapshot transaction was started and the EXPLAIN of the same
    statement and arguments was read and accepted for the required index and the row
    bound of the query. A returned answer holds the rows of that one call, collected
    within the byte budget. *)
Theorem aggregate_runs_its_plan {W : Type} `{Driver W} query envelopeBaseBytes (w : W) r s :
  Aggregate query envelopeBaseBytes (start w) = (r, s) ->
  Forall quiet (fr_trace s) /\ is_ok r = false \/ ran query envelopeBaseBytes r (fr_trace s).
Proof.
  intros E. destruct (Aggregate_concludes query envelopeBaseBytes (start w)) as (new & En & Ho). rewrite E in *.
  cbn [fst snd start fr_trace] in *. rewrite app_nil_l in En. by rewrite En.
Qed.

(** ** A run on the simulated server *)

(** A plan that reads [orders] through the index [by_state]. *)
Definition example_plan : string :=
  let field k v := quoted k +:+ ":" +:+ v in
  "{" +:+ field "query_block" ("{" +:+ field "select_id" "1" +:+ "," +:+
     field "table" ("{" +:+ join "," [field "table_name" (quoted "orders"); field "access_type" (quoted "ref");
        field "key" (quoted "by_state"); field "rows_examined_per_scan" "12"] +:+ "}") +:+ "}") +:+ "}".

Definition example_row (text : string) : raw_row :=
  if String.eqb text server_statement then [Some "8.0.36"; Some "MySQL Community Server"; Some "0"]
  else [Some "shop"; Some "orders"].

Definition one_row (row : raw_row) : rowset := {| rs_columns := inl []; rs_rows := [inl row]; rs_err := None; rs_stop := None |}.

Definition catalog_column (name dataType : string) : raw_row + failure :=
  inl [Some "shop"; Some "orders"; Some name; Some dataType; Some dataType; Some "NO"].

(** The answers by the first words of the query; [plan] to an EXPLAIN. *)
Definition example_answers (plan : string) (results : list raw_row) (text : string) : rowset :=
  if sprefix "EXPLAIN" text then one_row [Some plan]
  else if sprefix "SELECT /*+" text then
    {| rs_columns := inl [("id", "INT", Some false); ("total", "DECIMAL", Some true)]; rs_rows := map inl results; rs_err := None; rs_stop := None |}
  else {| rs_columns := inl []; rs_rows := [catalog_column "state" "varchar"; catalog_column "total" "decimal"; catalog_column "id" "int"];
          rs_err := None; rs_stop := None |}.

Definition example_world : simulated := {| sm_timezone := EmptyString; sm_transaction := false; sm_discarded := false |}.

Definition run_example (plan : string) : result AggregateAnswer * frame simulated :=
  @Aggregate _ (simulated_driver example_row (example_answers plan [[Some "open"; Some "10.50"; Some "3"]]))
    PolicyAggregate.example_authorized 100 (start example_world).

(** The reviewed aggregate of the example returns its row, and is not run when the
    server plans to read the table without the index. *)
Example example_run :
  match run_example example_plan with
  | (Ok a, s) => ar_rows (an_result a) = [[Some "open"; Some "10.50"; Some "3"]] /\ List.length (fr_trace s) = 17%nat
  | _ => False
  end /\
  match run_example "{}" with
  | (Err e, s) => e = invalid_error /\ existsb runs (fr_trace s) = false
  | _ => False
  end.
Proof. vm_compute. repeat split. Qed.

Lemma aggregate_runs_its_plan_witness :
  Forall quiet (fr_trace (run_example example_plan).2) /\ is_ok (run_example example_plan).1 = false \/
  ran PolicyAggregate.example_authorized 100 (run_example example_plan).1 (fr_trace (run_example example_plan).2).
Proof.
  apply (@aggregate_runs_its_plan _ (simulated_driver example_row (example_answers example_plan [[Some "open"; Some "10.50"; Some "3"]]))
    PolicyAggregate.example_authorized 100 example_world). apply surjective_pairing.
Defined.
