(* ===== verification/KeysetSession.v ===== *)
(** [SelectKeyset] (internal/adapters/mysql8/keyset.go): a keyset page on one connection. The source is
    read and checked, the continuation of the page is bounded, the character operands are
    checked by the server, and the statement runs after its plan in a read-only transaction. A page
    that stops before the last row closes the connection instead of reading the rest. *)
From S2P Require Import Prelude Domain GoJson Number Portable Values QuerySpec Config Policy Sql JsonText Rows Plan Keyset KeysetBinds SqlKeyset PolicyAggregate PolicyKeyset KeysetRows KeysetContinuation SqlAggregate Driver Session PlanFirst.
Local Open Scope string_scope.
Local Open Scope Z_scope.

(** ** The source *)

Definition keyset_source_statement (caseInsensitiveObjects : bool) : string :=
  "SELECT table_schema, table_name FROM information_schema.tables WHERE " +:+
  metadataIdentifierComparison "table_schema" "?" caseInsensitiveObjects +:+ " AND " +:+
  metadataIdentifierComparison "table_name" "?" caseInsensitiveObjects +:+ " LIMIT 1".

Definition keyset_columns_statement (caseInsensitiveObjects : bool) (referenced : list string) : string :=
  "SELECT table_schema, table_name, column_name, data_type, column_type, is_nullable," +:+ newline +:+
  "       COALESCE(character_set_name, ''), COALESCE(collation_name, '')," +:+ newline +:+
  "       character_maximum_length, character_octet_length, numeric_precision, numeric_scale," +:+ newline +:+
  "       datetime_precision" +:+ newline +:+
  "FROM information_schema.columns" +:+ newline +:+
  "WHERE " +:+ metadataIdentifierComparison "table_schema" "?" caseInsensitiveObjects +:+ newline +:+
  "  AND " +:+ metadataIdentifierComparison "table_name" "?" caseInsensitiveObjects +:+ newline +:+
  "  AND (" +:+ join " OR " (map (fun _ => metadataIdentifierComparison "column_name" "?" true) referenced) +:+ ")" +:+ newline +:+
  "ORDER BY ordinal_position".

(** What [Scan] reads into a [sql.NullInt64]; [None] is its error. *)
Definition scan_int (cell : option string) : option (option Z) :=
  match cell with
  | None => Some None
  | Some text => match ParseInt 64 text with Some z => Some (Some z) | None => None end
  end.

(** A row of the catalog: eight texts and five numbers. *)
Definition keyset_catalog_row (upstream : goerr) (row : raw_row + failure) : result (string * string * keysetSourceColumn * string) :=
  match row with
  | inr f => Err (classifyExecutionError f)
  | inl row =>
      match scan_strings (firstn 8 row), map scan_int (skipn 8 row) with
      | Some [schema; object; name; dataType; nativeType; nullable; characterSet; collation],
        [Some characterMaximumLength; Some characterOctetLength; Some numericPrecision; Some numericScale; Some datetimePrecision] =>
          Ok (schema, object,
              {| kc_representation := EmptyString; kc_name := name; kc_dataType := dataType; kc_nativeType := nativeType;
                 kc_nullable := false; kc_characterSet := characterSet; kc_collation := collation;
                 kc_characterMaximumLength := characterMaximumLength; kc_characterOctetLength := characterOctetLength;
                 kc_numericPrecision := numericPrecision; kc_numericScale := numericScale; kc_datetimePrecision := datetimePrecision |},
              nullable)
      | _, _ => Err upstream
      end
  end.

(** ** Errors *)

(** Invalid character data, or a conversion that is impossible. *)
Definition classifyKeysetCharacterError (f : failure) : goerr :=
  if fl_context f || fl_cancelled f then classifyExecutionError f
  else if numbered [1300; 1366; 3854; 3988] f then invalid_error
  else classifyQueryError f.

Definition request_too_large : goerr := DatabaseError "request_too_large".

Definition classifyKeysetCompileError (e : goerr) : goerr :=
  match e with DatabaseError _ => e | _ => upstream_error end.

Definition classified {A} (classify : goerr -> goerr) (r : result A) : result A :=
  match r with Ok a => Ok a | Err e => Err (classify e) end.

(** ** The rows *)

(** [Scan] into [width] destinations. *)
Definition scan_width (upstream : goerr) (width : Z) (row : raw_row + failure) : result raw_row :=
  match row with
  | inr f => Err (classifyKeysetCharacterError f)
  | inl raw => if? negb (len raw =? width) return upstream then Ok raw
  end.

Definition keyset_stream (upstream : goerr) (width : Z) (rows : rowset) : row_stream := {|
  st_rows := map (scan_width upstream width) (rs_rows rows); st_err := failed classifyKeysetCharacterError (rs_err rows) |}.

(** The one row of markers that the character operands come back as. *)
Definition character_markers_row (upstream : goerr) (width : Z) (rows : rowset) : error :=
  match rs_rows rows with
  | [] => check? failed classifyKeysetCharacterError (rs_err rows) then Err upstream_error
  | row :: rest =>
      let? values := scan_width upstream width row in
      check? validateKeysetCharacterGuards values then
      if? negb (len rest =? 0) return upstream_error then
      failed classifyKeysetCharacterError (rs_err rows)
  end.

Record KeysetEnvelopeBudget := { FinalBaseBytes : Z; MoreBaseBytes : Z }.

Record KeysetAnswer := { ka_columns : list ResultColumn; ka_result : KeysetSelectResult }.

Definition addKeysetColumnsSize (base : Z) (columns : list ResultColumn) (maximum : Z) : result Z :=
  addAggregateColumnsSize base columns maximum.

(** ** The operation *)

Section Operations.
Context {W : Type} `{Driver W}.

Definition validateKeysetSource (request : NormalizedKeysetRequest) (lowerCaseTableNames : Z) : M W keysetSource :=
  let caseInsensitiveObjects := negb (lowerCaseTableNames =? 0) in
  let source := k_source (nk_query request) in
  let! row := QueryRowContext classify_source_error (keyset_source_statement caseInsensitiveObjects)
                [BindString (r_schema source); BindString (r_name source)] in
  match scan_strings row with
  | Some [actualSchema; actualObject] =>
      do! lift (source_resource source caseInsensitiveObjects actualSchema actualObject) then
      let referenced := KeysetReferencedFields request in
      let! rows := QueryContext classifyQueryError (keyset_columns_statement caseInsensitiveObjects referenced)
                     (map BindString (actualSchema :: actualObject :: referenced)) in
      defer_ignored drainAndCloseRows
        (let! upstream := now_upstream in
         lift (keyset_source_rows request caseInsensitiveObjects (map (keyset_catalog_row upstream) (rs_rows rows))
                 (failed classifyExecutionError (rs_err rows))))
  | _ => classified_failure
  end.

Definition validateKeysetCharacterBindings (request : NormalizedKeysetRequest) (source : keysetSource) : M W unit :=
  let! (statement, args) := lift (compileKeysetCharacterValidation request source) in
  if String.eqb statement EmptyString then ret tt
  else
    let! rows := QueryContext classifyKeysetCharacterError statement args in
    defer_ignored drainAndCloseRows
      (let! upstream := now_upstream in lift (character_markers_row upstream (Z.quot (len args) 2) rows)).

Definition abortKeysetRows : M W unit := do! AbortConnection then ignore CloseRows (Ok tt).

(** [transactionActive = false; sessionMutated = false; clearDeadline = nil] *)
Definition forget_session : M W unit :=
  do! with_transactionActive false then do! with_sessionMutated false then with_clearDeadline false.

(** From the rows of the statement to the end. *)
Definition keyset_rows (query : AuthorizedKeysetSelect) (columns : list ResultColumn) (source : keysetSource) (finalBase moreBase : Z)
    (originalTimezone : string) (rows : rowset) : M W KeysetAnswer :=
  let! upstream := now_upstream in
  match collectKeysetRows (k_limit (nk_query (vk_request (ak_query query)))) columns source finalBase moreBase (MaxResultBytes (ak_limits query))
          (keyset_stream upstream (len columns + keysetCharacterGuardCount source) rows)
          (failed classifyKeysetCharacterError (rs_stop rows)) with
  | Err e => do! abortKeysetRows then do! forget_session then fail e
  | Ok (page, true) => do! abortKeysetRows then do! forget_session then ret {| ka_columns := columns; ka_result := page |}
  | Ok (page, false) =>
      do! CloseRows then
      do! finalizeAggregateTransaction "COMMIT" then
      do! with_transactionActive false then
      do! (do! restoreAggregateSessionTimezone originalTimezone then with_sessionMutated false) then
      do! finish_deadline then
      ret {| ka_columns := columns; ka_result := page |}
  end.

(** From the start of the transaction to the end: the last part of [SelectKeyset]. *)
Definition keyset_transaction (query : AuthorizedKeysetSelect) (columns : list ResultColumn) (source : keysetSource) (finalBase moreBase : Z)
    (statement : string) (args : list Bind) (originalTimezone : string) : M W KeysetAnswer :=
  do! startAggregateTransaction then
  do! with_transactionActive true then
  deferred rollback_transaction
    (let! plan := readAggregatePlan (explain_prefix +:+ statement) args in
     do! lift (validateAggregatePlan plan (ak_requiredIndex query) (ak_maximumRowsExaminedPerScan query)
                 (ak_allowTemporaryTable query) (ak_allowFilesort query)) then
     let! rows := QueryContext classifyKeysetCharacterError statement args in
     keyset_rows query columns source finalBase moreBase originalTimezone rows).

(** The part of [SelectKeyset] between opening and releasing the connection. *)
Definition keyset_body (query : AuthorizedKeysetSelect) (budget : KeysetEnvelopeBudget) : M W KeysetAnswer :=
  let limits := ak_limits query in
  let request := vk_request (ak_query query) in
  let! info := readServerInfo in
  let! semantics := lift (semanticsForLowerCaseTableNames (lowerCaseTableNames info)) in
  if! negb (bool_decide (semantics = ak_identifierSemantics query)) return unavailable_error then
  let! source := validateKeysetSource request (lowerCaseTableNames info) in
  let! columns := lift (keysetResultColumns request source) in
  let! finalBase := lift (addKeysetColumnsSize (FinalBaseBytes budget) columns (MaxResultBytes limits)) in
  let! moreBase := lift (addKeysetColumnsSize (MoreBaseBytes budget) columns (MaxResultBytes limits)) in
  if! negb (keysetContinuationRequestFits (MaxRequestBytes limits) request source) return request_too_large then
  let! (statement, args) := lift (classified classifyKeysetCompileError (compileKeyset request source (DeadlineMS limits))) in
  do! validateKeysetCharacterBindings request source then
  let! originalTimezone := setAggregateUTCSession in
  do! with_sessionMutated true then
  deferred (restore_session originalTimezone)
    (keyset_transaction query columns source finalBase moreBase statement args originalTimezone).

Definition SelectKeyset (query : AuthorizedKeysetSelect) (budget : KeysetEnvelopeBudget) : M W KeysetAnswer :=
  let limits := ak_limits query in
  if! negb (String.eqb (ak_operation query) OperationSelectKeyset) || negb (String.eqb (ak_adapter query) AdapterMySQL8)
  return upstream_error then
  if! (FinalBaseBytes budget <? 0) || (MoreBaseBytes budget <? 0) || (MaxResultBytes limits <? FinalBaseBytes budget) ||
      (MaxResultBytes limits <? MoreBaseBytes budget)
  return result_too_large then
  with_connection (DeadlineMS limits) (keyset_body query budget).
End Operations.

(** ** The statement that checks the character operands *)

Definition is_check (check : string) : Prop := exists rest, check = "CAST(" +:+ rest.

Lemma then_checks_all (first second : result (list string * list Bind)) checks args : then_checks first second = Ok (checks, args) ->
  (forall c a, first = Ok (c, a) -> Forall is_check c) -> (forall c a, second = Ok (c, a) -> Forall is_check c) -> Forall is_check checks.
Proof.
  unfold then_checks. intros E H1 H2. apply rbind_ok in E as ([c1 a1] & E1 & E). apply rbind_ok in E as ([c2 a2] & E2 & E). injection E as <- _.
  apply Forall_app. split; [by eapply H1|by eapply H2].
Qed.

Lemma all_checks {A} (f : A -> result (list string * list Bind)) l : (forall x, In x l -> forall c a, f x = Ok (c, a) -> Forall is_check c) ->
  forall checks args, fold_right (fun x rest => then_checks (f x) rest) (Ok ([], [])) l = Ok (checks, args) -> Forall is_check checks.
Proof.
  induction l as [|x l IH]; intros Hf checks args E; cbn [fold_right] in E; [by injection E as <- _|].
  eapply then_checks_all; [exact E|by apply Hf; left|]. apply IH. intros y Hy. apply Hf. by right.
Qed.

Lemma character_check_is value column check args : character_check value column = Ok (check, args) -> is_check check.
Proof. unfold character_check. intros E. apply if_err_ok in E as [_ E]. injection E as <- _. by eexists. Qed.

Lemma filter_checks_all columns f : forall checks args, filter_checks columns f = Ok (checks, args) -> Forall is_check checks.
Proof.
  induction f as [r k field op vs es IH] using Filter_ind'. intros checks args E. cbn [filter_checks f_kind f_representation f_field f_expressions] in E.
  rewrite Forall_forall in IH. destruct (String.eqb k "group").
  { eapply all_checks; [|exact E]. intros x Hx. apply IH. by apply list_elem_of_In. }
  destruct (String.eqb r _); [by injection E as <- _|]. eapply all_checks; [|exact E]. intros v _ c a. unfold checked_value.
  destruct (negb _); [by intros [= <- _]|]. destruct (keyset_column columns field) as [column|]; [|done].
  destruct (TypedValue_BindValue v) as [[b|z|text|text]|]; try done. intros Hc. apply rbind_ok in Hc as ([check cargs] & Hc & Hr). injection Hr as <- _.
  constructor; [|constructor]. by eapply character_check_is.
Qed.

Lemma character_validation_text request source statement args : compileKeysetCharacterValidation request source = Ok (statement, args) ->
  statement = EmptyString \/ exists rest, statement = "SELECT CAST(" +:+ rest.
Proof.
  unfold compileKeysetCharacterValidation. cbv zeta. intros E. apply rbind_ok in E as ([checks cargs] & Hc & E).
  assert (Hall : Forall is_check checks).
  { eapply then_checks_all; [exact Hc| |].
    - intros c a. destruct (k_filter _) as [f|]; [apply filter_checks_all|by intros [= <- _]].
    - intros c a Hcursor. destruct (String.eqb _ _); [|by injection Hcursor as <- _]. apply if_err_ok in Hcursor as [_ Hcursor].
      eapply all_checks; [|exact Hcursor]. intros [value column] _ c' a' Hv. unfold cursor_check in Hv. destruct (_ && _); [|by injection Hv as <- _].
      apply rbind_ok in Hv as ([check cargs'] & Hv & Hr). injection Hr as <- _. constructor; [|constructor]. by eapply character_check_is. }
  destruct checks as [|check checks]; [by injection E as <- _; left|]. right.
  rewrite len_cons in E. pose proof (len_nonneg checks). rewrite (proj2 (Z.eqb_neq _ _)) in E by lia. injection E as <- _.
  apply Forall_cons in Hall as [[rest ->] _]. destruct checks as [|c2 checks]; by eexists.
Qed.

(** ** The session is left as it was found *)

Section Clean.
Context {W : Type} `{SessionLaws W} {X : Excuse}.
Implicit Types (s : frame W) (z : string).

Lemma validateKeysetSource_session I request lower : stable I -> invariant gone I (validateKeysetSource request lower).
Proof.
  intros HI. apply invariant_bind; [by apply QueryRowContext_session|]. intros row.
  destruct (scan_strings row) as [[|x [|y [|? ?]]]|]; try apply classified_failure_triple.
  apply invariant_bind; [by apply invariant_pure|]. intros _.
  apply invariant_bind; [by apply QueryContext_session|]. intros rows. apply drained; [done|].
  apply invariant_bind; [apply now_upstream_session|]. intros u. by apply invariant_pure.
Qed.

Lemma validateKeysetCharacterBindings_session I request source : stable I -> invariant gone I (validateKeysetCharacterBindings request source).
Proof.
  intros HI. unfold validateKeysetCharacterBindings.
  destruct (compileKeysetCharacterValidation request source) as [[statement args]|e] eqn:E.
  2: { by apply triple_bind_err. }
  apply triple_bind_ok. apply character_validation_text in E as [->|[rest ->]]; [by apply invariant_pure|].
  change (String.eqb ("SELECT CAST(" +:+ rest) EmptyString) with false. cbn iota.
  apply invariant_bind; [by apply QueryContext_session|]. intros rows. apply drained; [done|].
  apply invariant_bind; [apply now_upstream_session|]. intros u. by apply invariant_pure.
Qed.

(** When the connection was not aborted its session is still to be restored. *)
Lemma abort_triple : triple gone (fun s => fr_sessionMutated s = true) abortKeysetRows
  (fun r s => match r with Ok _ => False | Err _ => fr_sessionMutated s = true end).
Proof.
  split.
  - intros s Hs. unfold abortKeysetRows, bind. pose proof (call_keeps EvAbort abort classifyExecutionError calls_abort s Hs) as Hk.
    fold AbortConnection in Hk. destruct (AbortConnection s) as [[[]|e] s1]; cbn [snd] in *; [|done].
    apply (call_keeps EvCloseRows close_rows classifyExecutionError calls_close_rows s1 Hk).
  - intros s Hs. unfold abortKeysetRows, bind, AbortConnection, call. destruct (abort (fr_world s)) as [[f|] w] eqn:E; cbn [failed]; [by right|].
    left. unfold ignore. cbn [snd]. apply (call_keeps EvCloseRows close_rows classifyExecutionError calls_close_rows).
    left. cbn. by eapply abort_session.
Qed.

(** What the body leaves: a session to clean up, or an error on a session to be discarded. *)
Definition left_over z original {A} (r : result A) s : Prop := block z original s \/ (is_ok r = false /\ fr_sessionMutated s = true).

Definition rolled_back z original {A} (r : result A) s : Prop :=
  (zone_kept z s /\ transaction s = false /\ restorable z original s) \/ (is_ok r = false /\ fr_sessionMutated s = true).

Lemma aborted_triple {A} z original (m : M W A) : (forall s, (m s).2 = s) ->
  triple gone (fun s => block z original s /\ fr_sessionMutated s = true) (do! abortKeysetRows then do! forget_session then m) (left_over z original).
Proof.
  intros Hm. destruct abort_triple as [Hk Ha].
  assert (E : forall s, (bind abortKeysetRows (fun _ => do! forget_session then m) s).2 =
    match abortKeysetRows s with (Ok _, s1) => (forget_session s1).2 | (Err _, s1) => s1 end).
  { intros s. unfold bind at 1. destruct (abortKeysetRows s) as [[[]|e] s1]; [|done]. unfold bind, forget_session. cbn. by rewrite Hm. }
  split.
  - intros s Hs. rewrite E. specialize (Hk s Hs). by destruct (abortKeysetRows s) as [[[]|e] s1].
  - intros s [_ Hs]. unfold left_over. rewrite E. specialize (Ha s Hs).
    assert (Er : is_ok (abortKeysetRows s).1 = false -> is_ok (bind abortKeysetRows (fun _ => do! forget_session then m) s).1 = false).
    { unfold bind at 1. by destruct (abortKeysetRows s) as [[[]|e] s1]. }
    destruct (abortKeysetRows s) as [[[]|e] s1]; cbn [fst snd] in *.
    + destruct Ha as [Hg|[]]. by left.
    + destruct Ha as [Hg|Hf]; [by left|right]. right. split; [by apply Er|done].
Qed.

Lemma keyset_rows_triple z query columns source finalBase moreBase rows :
  triple gone (fun s => block z z s /\ fr_sessionMutated s = true)
    (keyset_rows query columns source finalBase moreBase z rows) (left_over z z).
Proof.
  unfold keyset_rows.
  assert (HI : stable (fun s => block z z s /\ fr_sessionMutated s = true)).
  { apply stable_and; [apply stable_block|apply (stable_flag (fun _ m _ => m = true))]. }
  apply (triple_bind _ _ _ _ (fun _ s => block z z s /\ fr_sessionMutated s = true)); [apply now_upstream_session| |intros e s [Hs _]; by left].
  intros upstream. destruct (collectKeysetRows _ _ _ _ _ _ _ _) as [[page [|]]|e]; [by apply aborted_triple| |by apply aborted_triple].
  eapply triple_weaken; [|intros s [Hs _]; exact Hs|intros r s Hs; left; exact Hs].
  apply invariant_bind; [apply CloseRows_session, stable_block|]. intros _. by apply (commit_triple z z true).
Qed.

Lemma rollback_left_over {A} z original (r : result A) :
  triple gone (left_over z original r) (rollback_transaction r) (rolled_back z original).
Proof.
  destruct (rollback_triple z original r) as [Hk Hb].
  destruct (finalizeAggregateTransaction_triple "ROLLBACK" (fun _ m _ => m = true) ltac:(simpl; auto)) as [_ Hf].
  split; [done|]. intros s [Hs|[Hr Hs]].
  - destruct (Hb s Hs) as [?|Hc]; [by left|right; by left].
  - unfold rollback_transaction. destruct (fr_transactionActive s); [|right; by right].
    unfold ignore. cbn [fst snd]. destruct (Hf s Hs) as [?|Hc]; [by left|]. right. right. split; [done|].
    destruct (finalizeAggregateTransaction "ROLLBACK" s) as [[[]|] s']; [apply Hc|destruct Hc].
Qed.

Lemma restore_rolled_back {A} z original (r : result A) :
  triple gone (rolled_back z original r) (restore_session original r) (fun _ => settled z).
Proof.
  destruct (restore_triple z original r) as [Hk Hb]. split; [done|]. intros s [Hs|[Hr Hs]]; [by apply Hb|].
  left. unfold restore_session. rewrite Hs. destruct r; [done|]. apply gone_discard.
Qed.

Lemma compileKeyset_head request source deadlineMS text args :
  compileKeyset request source deadlineMS = Ok (text, args) -> exists rest, text = select_head deadlineMS +:+ rest.
Proof.
  unfold compileKeyset. intros H1. apply if_err_ok in H1 as [_ H1]. apply rbind_ok in H1 as (markers & _ & H1).
  apply rbind_ok in H1 as ([conditions cargs] & _ & H1). injection H1 as <- _. by eexists.
Qed.

Lemma keyset_transaction_triple z query columns source finalBase moreBase statement args :
  reads statement = true -> reads (explain_prefix +:+ statement) = true ->
  triple gone (fun s => block z z s /\ fr_transactionActive s = false /\ fr_sessionMutated s = true)
    (keyset_transaction query columns source finalBase moreBase statement args z) (rolled_back z z).
Proof.
  intros Hs He. set (f := fun t m (_ : bool) => ((m = false -> t = z) /\ (m = true -> z = z)) /\ m = true).
  set (I := fun s => f (timezone s) (fr_sessionMutated s) (fr_transactionActive s)).
  apply (triple_bind _ _ _ _ (fun r s => I s /\ match r with Ok _ => True | Err _ => transaction s = false end)).
  - eapply triple_weaken; [apply (startAggregateTransaction_triple f)| |done].
    intros s ([[Hz Ht] Hr] & Ha & Hm). split; [by split|by apply Ht].
  - intros _. apply (flag_then _ (fun s => block z z s /\ fr_sessionMutated s = true)); [done| |].
    + intros s [[[Hz Hr] Hm] _]. split; [|done]. split; [split; [exact Hz|done]|exact Hr].
    + assert (HI : stable (fun s => block z z s /\ fr_sessionMutated s = true)).
      { apply stable_and; [apply stable_block|apply (stable_flag (fun _ m _ => m = true))]. }
      eapply triple_deferred; [|intros r; apply rollback_left_over].
      apply (triple_bind _ _ _ _ (fun _ s => block z z s /\ fr_sessionMutated s = true)); [by apply readAggregatePlan_session| |intros e s [Hl _]; by left].
      intros plan. apply (triple_bind _ _ _ _ (fun _ s => block z z s /\ fr_sessionMutated s = true)); [by apply invariant_pure| |intros e s [Hl _]; by left].
      intros _. apply (triple_bind _ _ _ _ (fun _ s => block z z s /\ fr_sessionMutated s = true)); [by apply QueryContext_session| |intros e s [Hl _]; by left].
      intros rows. apply keyset_rows_triple.
  - intros e s [[[Hz Hr] Hm] Ht]. left. by split_and!.
Qed.

Lemma keyset_body_tidy query budget : tidy (keyset_body query budget).
Proof.
  intros z. unfold keyset_body. cbv zeta. set (request := vk_request (ak_query query)).
  apply (triple_bind _ _ _ _ (fun _ => fresh z)); [apply readServerInfo_session, stable_fresh|intros info|intros e s; apply fresh_settled].
  apply (triple_bind _ _ _ _ (fun _ => fresh z)); [by apply invariant_pure|intros semantics|intros e s; apply fresh_settled].
  destruct (negb (bool_decide _)); [apply triple_fail; intros s; apply fresh_settled|].
  apply (triple_bind _ _ _ _ (fun _ => fresh z)); [apply validateKeysetSource_session, stable_fresh|intros source|intros e s; apply fresh_settled].
  apply (triple_bind _ _ _ _ (fun _ => fresh z)); [by apply invariant_pure|intros columns|intros e s; apply fresh_settled].
  apply (triple_bind _ _ _ _ (fun _ => fresh z)); [by apply invariant_pure|intros finalBase|intros e s; apply fresh_settled].
  apply (triple_bind _ _ _ _ (fun _ => fresh z)); [by apply invariant_pure|intros moreBase|intros e s; apply fresh_settled].
  destruct (negb (keysetContinuationRequestFits _ _ _)); [apply triple_fail; intros s; apply fresh_settled|].
  destruct (compileKeyset request source _) as [[statement args]|e] eqn:E; cbn [classified].
  2: { apply triple_bind_err. intros s. apply fresh_settled. }
  apply triple_bind_ok. apply compileKeyset_head in E as [rest ->]. destruct (head_reads (DeadlineMS (ak_limits query)) rest) as [Hr He].
  apply (triple_bind _ _ _ _ (fun _ => fresh z)); [apply validateKeysetCharacterBindings_session, stable_fresh|intros _|intros e s; apply fresh_settled].
  apply (triple_bind _ _ _ _ _ _ (setAggregateUTCSession_triple z)); [intros original|intros e s; apply fresh_settled].
  apply (flag_then _ (fun s => (block z z s /\ fr_transactionActive s = false /\ fr_sessionMutated s = true) /\ original = z)); [done| |].
  - intros s (-> & _ & Ha & Ht). split; [|done]. unfold block, pending, zone_kept, transaction_kept, restorable. by split_and!.
  - assert (Hm : forall z', original = z' -> triple gone (fun s => block z' z' s /\ fr_transactionActive s = false /\ fr_sessionMutated s = true)
      (deferred (restore_session original)
        (keyset_transaction query columns source finalBase moreBase (select_head (DeadlineMS (ak_limits query)) +:+ rest) args original))
      (fun _ => settled z')).
    { intros z' <-. eapply triple_deferred; [by apply keyset_transaction_triple|]. intros r. apply restore_rolled_back. }
    apply triple_assuming; [by apply (Hm original)|apply Hm].
Qed.

Lemma SelectKeyset_released query budget : released (SelectKeyset query budget).
Proof.
  intros w w1 r s Ho Htx Hr Ht. unfold SelectKeyset in Hr. cbv zeta in Hr.
  destruct (_ || _); [injection Hr as _ <-; done|]. destruct (_ || _ || _ || _); [injection Hr as _ <-; done|].
  eapply with_connection_leaves; [apply (keyset_body_tidy query budget)|exact Ho|exact Htx|exact Hr].
Qed.
End Clean.

(** ** The plan comes first *)

Section KeysetPlan.
Context {W : Type} `{Driver W}.
Context (query : AuthorizedKeysetSelect) (budget : KeysetEnvelopeBudget).
Implicit Types (s : frame W).
Let request : NormalizedKeysetRequest := vk_request (ak_query query).
Let limits : Limits := ak_limits query.

Definition accepts_keyset_plan (plan : string) : result unit :=
  validateAggregatePlan plan (ak_requiredIndex query) (ak_maximumRowsExaminedPerScan query) (ak_allowTemporaryTable query) (ak_allowFilesort query).

(** What the page was prepared with: the checked source, the columns and the bytes that both envelopes take with them. *)
Record prepared := { pr_source : keysetSource; pr_columns : list ResultColumn; pr_final : Z; pr_more : Z }.

Record keyset_compiled (x : prepared) (statement : string) (args : list Bind) : Prop := {
  kd_source : exists caseInsensitiveObjects rows err, keyset_source_rows request caseInsensitiveObjects rows err = Ok (pr_source x);
  kd_columns : keysetResultColumns request (pr_source x) = Ok (pr_columns x);
  kd_final : addAggregateColumnsSize (FinalBaseBytes budget) (pr_columns x) (MaxResultBytes limits) = Ok (pr_final x);
  kd_more : addAggregateColumnsSize (MoreBaseBytes budget) (pr_columns x) (MaxResultBytes limits) = Ok (pr_more x);
  kd_fits : keysetContinuationRequestFits (MaxRequestBytes limits) request (pr_source x) = true;
  kd_statement : compileKeyset request (pr_source x) (DeadlineMS limits) = Ok (statement, args);
}.

(** The answer is the page that the rows make. *)
Definition page_of (x : prepared) (a : KeysetAnswer) (rows : rowset) : Prop :=
  ka_columns a = pr_columns x /\
  exists upstream stopped,
    collectKeysetRows (k_limit (nk_query request)) (pr_columns x) (pr_source x) (pr_final x) (pr_more x) (MaxResultBytes limits)
      (keyset_stream upstream (len (pr_columns x) + keysetCharacterGuardCount (pr_source x)) rows)
      (failed classifyKeysetCharacterError (rs_stop rows)) = Ok (ka_result a, stopped).

Lemma validateKeysetSource_quiet lower : quietly (validateKeysetSource (W := W) request lower).
Proof. unfold validateKeysetSource. quiet_tac. by apply quietly_query. Qed.

Lemma validateKeysetSource_result lower s source s1 : validateKeysetSource request lower s = (Ok source, s1) ->
  exists caseInsensitiveObjects rows err, keyset_source_rows request caseInsensitiveObjects rows err = Ok source.
Proof.
  intros E. assert (E1 : (validateKeysetSource request lower s).1 = Ok source) by (by rewrite E). clear E. unfold validateKeysetSource in E1.
  apply bind_ok in E1 as (row & _ & E1). destruct (scan_strings row) as [[|x [|y [|? ?]]]|]; try discriminate.
  apply bind_ok in E1 as ([] & _ & E1). apply bind_ok in E1 as (rows & _ & E1). unfold defer_ignored, deferred, bind, now_upstream, lift, ignore in E1.
  cbn [fst] in E1. eauto.
Qed.

Lemma validateKeysetCharacterBindings_quiet source : quietly (validateKeysetCharacterBindings (W := W) request source).
Proof.
  unfold validateKeysetCharacterBindings. destruct (compileKeysetCharacterValidation request source) as [[statement args]|e] eqn:E.
  2: { apply quietly_none. intros s. reflexivity. }
  assert (Hq : quietly (if String.eqb statement EmptyString then ret tt else
    let! rows := QueryContext (W := W) classifyKeysetCharacterError statement args in
    defer_ignored drainAndCloseRows (let! upstream := now_upstream in lift (character_markers_row upstream (Z.quot (len args) 2) rows)))); [|exact Hq].
  apply character_validation_text in E as [->|[rest ->]]; [apply quietly_none; intros s; reflexivity|].
  quiet_tac. by apply quietly_query.
Qed.

Lemma keyset_rows_quiet columns source finalBase moreBase original rows : quietly (keyset_rows (W := W) query columns source finalBase moreBase original rows).
Proof.
  unfold keyset_rows, abortKeysetRows, forget_session, finish_deadline, clearDeadline, AbortConnection. apply quietly_bind; [auto with quiet|]. intros upstream.
  destruct (collectKeysetRows _ _ _ _ _ _ _ _) as [[page [|]]|e]; quiet_tac; by apply quietly_call.
Qed.

Lemma keyset_rows_result x original rows s a :
  (keyset_rows query (pr_columns x) (pr_source x) (pr_final x) (pr_more x) original rows s).1 = Ok a -> page_of x a rows.
Proof.
  unfold keyset_rows. intros (upstream & _ & E)%bind_ok. unfold page_of.
  destruct (collectKeysetRows _ _ _ _ _ _ _ _) as [[page [|]]|e] eqn:Ec;
    repeat match goal with E : (bind _ _ _).1 = Ok _ |- _ => apply bind_ok in E as (? & _ & E) end; cbn in E; try discriminate; injection E as <-; cbn; eauto.
Qed.

Lemma SelectKeyset_concludes s : concludes accepts_keyset_plan keyset_compiled page_of s (SelectKeyset query budget).
Proof.
  unfold SelectKeyset. cbv zeta. destruct (_ || _); [apply concludes_fail|]. destruct (_ || _ || _ || _); [apply concludes_fail|].
  apply concludes_connection. intros s1. unfold keyset_body. cbv zeta. fold request limits.
  apply concludes_bind; [auto with quiet|]. intros info s2 _. apply concludes_lift. intros semantics _.
  destruct (negb (bool_decide _)); [apply concludes_fail|].
  apply concludes_bind; [apply validateKeysetSource_quiet|]. intros source s3 Hsource%validateKeysetSource_result.
  apply concludes_lift. intros columns Hcolumns. apply concludes_lift. intros finalBase Hfinal. apply concludes_lift. intros moreBase Hmore.
  destruct (keysetContinuationRequestFits _ _ _) eqn:Hfits; [|apply concludes_fail]. cbn [negb].
  apply concludes_lift. intros [statement args] Hc. destruct (compileKeyset _ _ _) as [c|] eqn:Ec; [|done]. injection Hc as ->.
  apply concludes_bind; [apply validateKeysetCharacterBindings_quiet|]. intros [] s4 _.
  apply concludes_bind; [auto with quiet|]. intros original s5 _. apply concludes_bind; [auto with quiet|]. intros [] s6 _.
  apply concludes_deferred; [intros r; apply restore_quiet|intros r s0 a; apply restore_result|].
  set (x := {| pr_source := source; pr_columns := columns; pr_final := finalBase; pr_more := moreBase |}).
  eapply (concludes_completed _ _ _ x); [by split|].
  apply (planned_transaction_outcome accepts_keyset_plan (page_of x) statement args classifyKeysetCharacterError
    (keyset_rows query columns source finalBase moreBase original)).
  - intros rows. apply keyset_rows_quiet.
  - intros rows s0 a. apply (keyset_rows_result x).
Qed.
End KeysetPlan.

(** C8: No page runs unplanned. Whatever the driver answers, [SelectKeyset] either fails without having
    run a compiled statement, or it ran exactly one: the statement compiled from the authorized request for a source
    that passed its checks, after the continuation of the page was found to fit, and directly
    after the plan of the same statement and arguments was read and accepted inside the read-only transaction. An answer that is
    returned is the page that the rows of that one call make. *)
Theorem keyset_runs_its_plan {W : Type} `{Driver W} query budget (w : W) r s :
  SelectKeyset query budget (start w) = (r, s) ->
  Forall quiet (fr_trace s) /\ is_ok r = false \/
  ran_planned (accepts_keyset_plan query) (keyset_compiled query budget) (page_of query) r (fr_trace s).
Proof.
  intros E. destruct (SelectKeyset_concludes query budget (start w)) as (new & En & Ho). rewrite E in *.
  cbn [fst snd start fr_trace] in *. rewrite app_nil_l in En. by rewrite En.
Qed.

(** ** Pages of the simulated server *)

Definition page_plan : string :=
  let field k v := quoted k +:+ ":" +:+ v in
  "{" +:+ field "query_block" ("{" +:+ field "select_id" "1" +:+ "," +:+
     field "table" ("{" +:+ join "," [field "table_name" (quoted "orders"); field "access_type" (quoted "range");
        field "key" (quoted "by_time"); field "rows_examined_per_scan" "12"] +:+ "}") +:+ "}") +:+ "}".

Definition page_row (text : string) : raw_row :=
  if String.eqb text server_statement then [Some "8.0.36"; Some "MySQL Community Server"; Some "1"]
  else [Some "shop"; Some "Orders"].

Definition page_column (name dataType nativeType nullable : string) (precision : option string) : raw_row + failure :=
  inl (map Some ["shop"; "Orders"; name; dataType; nativeType; nullable; EmptyString; EmptyString] ++ [None; None; None; None; precision])%list.

Definition page_answers (results : list raw_row) (text : string) : rowset :=
  {| rs_columns := inl [];
     rs_rows := if sprefix "EXPLAIN" text then [inl [Some page_plan]]
                else if sprefix "SELECT /*+" text then map inl results
                else [page_column "ID" "int" "int" "NO" None; page_column "at" "datetime" "datetime" "NO" (Some "0");
                      page_column "state" "tinyint" "tinyint(1)" "YES" None];
     rs_err := None; rs_stop := None |}.

Definition page_budget : KeysetEnvelopeBudget := {| FinalBaseBytes := 100; MoreBaseBytes := 120 |}.

Definition run_page (results : list raw_row) : result KeysetAnswer * frame simulated :=
  @SelectKeyset _ (simulated_driver page_row (page_answers results)) authorized_page page_budget (start simulated_world).

(** One row ends the table: the transaction is committed and the time zone restored. With more rows than the limit the
    page stops early, and the connection is closed instead. *)
Example page_runs :
  (match run_page [[Some "8"; Some "1"; Some "2024-01-31 10:00:00"]] with
   | (Ok a, s) => (kt_rowCount (ka_result a), kt_hasMore (ka_result a), sm_timezone (fr_world s), sm_discarded (fr_world s), List.length (fr_trace s))
   | _ => (-1, false, EmptyString, false, O)
   end,
   match run_page (repeat [Some "8"; Some "1"; Some "2024-01-31 10:00:00"] 21) with
   | (Ok a, s) => (kt_rowCount (ka_result a), kt_hasMore (ka_result a), sm_discarded (fr_world s), List.length (fr_trace s))
   | _ => (-1, false, false, O)
   end) = ((1, false, "SYSTEM", false, 22%nat), (20, true, true, 17%nat)).
Proof. vm_compute. reflexivity. Qed.

Lemma keyset_runs_its_plan_witness :
  let pages := run_page [[Some "8"; Some "1"; Some "2024-01-31 10:00:00"]] in
  Forall quiet (fr_trace pages.2) /\ is_ok pages.1 = false \/
  ran_planned (accepts_keyset_plan authorized_page) (keyset_compiled authorized_page page_budget) (page_of authorized_page) pages.1 (fr_trace pages.2).
Proof.
  cbv zeta. apply (@keyset_runs_its_plan _ (simulated_driver page_row (page_answers [[Some "8"; Some "1"; Some "2024-01-31 10:00:00"]]))
    authorized_page page_budget simulated_world). apply surjective_pairing.
Defined.
