(* ===== verification/Manager.v ===== *)
(** The database manager (internal/database/database.go): the registry of
    datasources with the adapters that serve them, and the dispatch of an
    authorized operation to the adapter of its datasource. *)
From S2P Require Import Prelude Domain GoJson Number Portable Values QuerySpec Config Policy Sql Rows Aggregate AggregateNormal NumericBucket SqlAggregate PolicyAggregate Keyset KeysetBinds PolicyKeyset SqlKeyset KeysetRows Driver Session KeysetSession.
Local Open Scope string_scope.
Local Open Scope Z_scope.

(** ** Errors *)

Definition not_implemented_error : goerr := DatabaseError "not_implemented".

Definition IsKind (err : goerr) (kind : string) : bool :=
  match err with DatabaseError k => String.eqb k kind | _ => false end.

(** ** Results of table statistics *)

Record UnsignedMetric := { um_value : string; um_estimated : bool }.
Record TableStatistics := {
  ts_estimatedRows : option UnsignedMetric; ts_dataBytes : option UnsignedMetric; ts_indexBytes : option UnsignedMetric;
  ts_autoIncrement : option UnsignedMetric;
}.
Record PartitionStatistics := {
  pn_estimatedRows : option UnsignedMetric; pn_dataBytes : option UnsignedMetric; pn_indexBytes : option UnsignedMetric;
}.
Record PartitionEntry := { pe_name : string; pe_ordinal : Z; pe_statistics : PartitionStatistics }.
Record SubpartitionEntry := { se_name : string; se_ordinal : Z; se_statistics : PartitionStatistics }.
Record PartitionGroup := { pg_name : string; pg_ordinal : Z; pg_subpartitions : list SubpartitionEntry }.
Record PartitioningResult := {
  pt_kind : string; pt_method : string; pt_subpartitionMethod : string; pt_partitions : list PartitionEntry;
  pt_partitionGroups : list PartitionGroup;
}.
Record ObjectStatisticsResult := {
  ot_observedAt : string; ot_engine : string; ot_table : TableStatistics; ot_partitioning : PartitioningResult;
  ot_resultBytes : Z; ot_partitionCount : Z; ot_subpartitionCount : Z;
}.

(** ** Adapters

    An operation of an adapter acts on the world: the database and what lies
    between. [DB] is the type of handles ([sql.DB]). *)
Record ExplainResult := { er_format : string; er_plan : string }.
Record SchemaObject := { so_name : string }.
Record ObjectDescription := { od_schema : string; od_name : string; od_columns : list ColumnDescription }.

(** ** Filters and permissions *)

#[export] Instance permits_dec policy value ci : Decision (permits policy value ci).
Proof. refine (cast_if (decide (allowed policy value ci = true))); by rewrite <- allowed_iff. Defined.

(** A filter by a boolean is that by what the boolean decides. *)
Lemma List_filter_decides {A} (f : A -> bool) (P : A -> Prop) `{forall x, Decision (P x)} l :
  (forall x, f x = true <-> P x) -> List.filter f l = filter P l.
Proof.
  intros Hf. induction l as [|x l IH]; [done|]. cbn [List.filter]. rewrite filter_cons, IH. specialize (Hf x).
  destruct (f x), (decide (P x)); try done; exfalso; intuition congruence.
Qed.

Lemma omap_nil {A B} (f : A -> option B) l : omap f l = [] <-> Forall (fun x => f x = None) l.
Proof.
  induction l as [|x l IH]; cbn; [by split; [constructor|]|]. rewrite Forall_cons, <- IH. destruct (f x); naive_solver.
Qed.

Section Manager.
Context {W DB : Type}.

Definition op (A : Type) : Type := W -> result A * W.

Record SchemaAdapter := {
  sa_ListObjects : DB -> string -> op (list SchemaObject);
  sa_DescribeObject : DB -> ResourceRef -> op ObjectDescription;
}.

(** The interface [Adapter], with the optional interfaces that the adapter may
    implement as well. *)
Record Adapter := {
  ad_Name : string;
  ad_Capabilities : list string;
  ad_Validate : DB -> op unit;
  ad_IdentifierSemantics : DB -> op IdentifierSemantics;
  ad_Open : string -> Datasource -> result DB;
  ad_Explain : DB -> AuthorizedQuery -> op ExplainResult;
  ad_features : option (list string);
  ad_schema : option SchemaAdapter;
  ad_select : option (DB -> AuthorizedQuery -> op SelectAnswer);
  ad_keyset : option (DB -> AuthorizedKeysetSelect -> KeysetEnvelopeBudget -> op KeysetAnswer);
  ad_aggregate : option (DB -> AuthorizedAggregate -> Z -> op AggregateAnswer);
  ad_statistics : option (DB -> AuthorizedObjectStatistics -> Z -> op ObjectStatisticsResult);
}.

(** [src_failed] is [initErr != nil]. *)
Record source := {
  src_adapter : option Adapter; src_adapterName : string; src_capabilities : list string; src_features : list string;
  src_db : option DB; src_failed : bool; src_required : bool;
}.

(** [Manager.sources]; the map does not change after the manager is made. *)
Definition Manager : Type := gmap string source.

(** ** Making a manager *)

Definition Feature_Valid (f : string) : bool := contains ["numeric_bucket_exact"; "time_bucket_utc"; "source_text"] f.

Definition feature_step (feature : string) (seen : list string) : result (list string) :=
  if? negb (Feature_Valid feature) return ErrorString "advertises unknown feature" then
  if? contains seen feature return ErrorString "advertises duplicate feature" then
  Ok (feature :: seen).

Definition validateAdapterFeatures (adapter : Adapter) : result (list string) :=
  match ad_features adapter with
  | None => Ok []
  | Some features => let? _ := iter (fun _ => feature_step) features [] in Ok features
  end.

(** The interface that an advertised operation needs. *)
Definition implements (adapter : Adapter) (operation : string) : bool :=
  if String.eqb operation OperationListObjects || String.eqb operation OperationDescribeObject then
    bool_decide (is_Some (ad_schema adapter))
  else if String.eqb operation OperationSelect then bool_decide (is_Some (ad_select adapter))
  else if String.eqb operation OperationSelectKeyset then bool_decide (is_Some (ad_keyset adapter))
  else if String.eqb operation OperationAggregate then bool_decide (is_Some (ad_aggregate adapter))
  else if String.eqb operation OperationDescribeObjectStatistics then bool_decide (is_Some (ad_statistics adapter))
  else true.

Definition capability_step (adapter : Adapter) (operation : string) (seen : list string) : result (list string) :=
  if? negb (Operation_Valid operation) return ErrorString "advertises unknown capability" then
  if? String.eqb operation OperationListQueryShapes return ErrorString "advertises core-owned capability" then
  if? contains seen operation return ErrorString "advertises duplicate capability" then
  if? negb (implements adapter operation) return ErrorString "advertises an operation without implementing its interface" then
  Ok (operation :: seen).

Definition validateAdapterCapabilities (adapter : Adapter) : result (list string) :=
  let? _ := iter (fun _ => capability_step adapter) (ad_Capabilities adapter) [] in Ok (ad_Capabilities adapter).

Definition FeatureSourceText : string := "source_text".

Section New.
Context (cfg : Config) (resolve : string -> result string) (adapters : list Adapter).

(** A later adapter of the same name replaces an earlier one. *)
Definition registry : gmap string Adapter := fold_left (fun m adapter => <[ad_Name adapter := adapter]> m) adapters ∅.

(** A source without a database: the error is returned and recorded. *)
Definition failed_source (datasource : Datasource) (adapter : option Adapter) (adapterName : string)
    (capabilities features : list string) (problem : goerr) : source * option goerr :=
  ({| src_adapter := adapter; src_adapterName := adapterName; src_capabilities := capabilities; src_features := features;
      src_db := None; src_failed := true; src_required := ds_requiredForReadiness datasource |}, Some problem).

Definition source_text_missing (name : string) (features : list string) : bool :=
  existsb (fun '(_, profile) => contains (pf_datasources profile) name && QueryPolicyUsesSourceText (pf_query profile) &&
                                negb (contains features FeatureSourceText)) (map_to_list (cfg_profiles cfg)).

Definition datasource_dsn (datasource : Datasource) : result string :=
  if String.eqb (ds_dsn datasource) EmptyString then resolve (ds_dsnSecretRef datasource) else Ok (ds_dsn datasource).

(** One turn of the loop over the configured datasources. *)
Definition new_source (name : string) (datasource : Datasource) : source * option goerr :=
  match registry !! ds_adapter datasource with
  | None => failed_source datasource None EmptyString [] [] (ErrorString "datasource uses unknown adapter")
  | Some adapter =>
      match validateAdapterCapabilities adapter with
      | Err e => failed_source datasource (Some adapter) (ds_adapter datasource) [] [] e
      | Ok capabilities =>
          match validateAdapterFeatures adapter with
          | Err e => failed_source datasource (Some adapter) (ds_adapter datasource) capabilities [] e
          | Ok features =>
              if source_text_missing name features then
                failed_source datasource (Some adapter) (ds_adapter datasource) capabilities features
                  (ErrorString "profile requires unsupported source_text feature")
              else
                match datasource_dsn datasource with
                | Err _ => failed_source datasource (Some adapter) (ds_adapter datasource) capabilities features
                             (ErrorString "datasource DSN is unavailable")
                | Ok dsn =>
                    match ad_Open adapter dsn datasource with
                    | Err e => failed_source datasource (Some adapter) (ds_adapter datasource) capabilities features e
                    | Ok db =>
                        ({| src_adapter := Some adapter; src_adapterName := ds_adapter datasource;
                            src_capabilities := capabilities; src_features := features; src_db := Some db;
                            src_failed := false; src_required := ds_requiredForReadiness datasource |}, None)
                    end
                end
          end
      end
  end.

Definition NewManager : Manager * list goerr :=
  (map_imap (fun name datasource => Some (new_source name datasource).1) (cfg_datasources cfg),
   omap (fun '(name, datasource) => (new_source name datasource).2) (map_to_list (cfg_datasources cfg))).
End New.

(** ** Dispatch *)

(** What [availableSource] finds when it succeeds. *)
Definition available (s : source) : option (Adapter * DB) :=
  if src_failed s then None else db ← src_db s; adapter ← src_adapter s; Some (adapter, db).

Section Dispatch.
Context (m : Manager).

Definition availableSource (datasource : string) : result (source * Adapter * DB) :=
  match m !! datasource with
  | None => Err unavailable_error
  | Some s =>
      match available s with
      | None => Err unavailable_error
      | Some (adapter, db) => Ok (s, adapter, db)
      end
  end.

Definition requireCapability (s : source) (operation : string) : error :=
  if? negb (contains (src_capabilities s) operation) return not_implemented_error then nil_error.

(** The results of the manager: what the adapter returns, and its name. *)
Definition named (A : Type) : Type := result A * string.

Definition refused {A} (e : goerr) (adapterName : string) (w : W) : named A * W := ((Err e, adapterName), w).

Definition answered_by {A} (call : op A) (adapterName : string) (w : W) : named A * W :=
  let '(r, w') := call w in ((r, adapterName), w').

(** The steps that the operations share: the authorization, the source, the name
    of the adapter where it is part of the authorization, the capability and the
    interface. [call] is the method of the interface. *)
Definition dispatch {I A} (authorized : bool) (datasource : string) (adapterName : option string) (operation : string)
    (interface : Adapter -> option I) (call : I -> DB -> op A) (w : W) : named A * W :=
  if negb authorized then refused upstream_error EmptyString w
  else
    match availableSource datasource with
    | Err e => refused e EmptyString w
    | Ok (s, adapter, db) =>
        if from_option (fun name => negb (String.eqb (src_adapterName s) name)) false adapterName
        then refused upstream_error (src_adapterName s) w
        else
          match requireCapability s operation with
          | Err e => refused e (src_adapterName s) w
          | Ok _ =>
              match interface adapter with
              | None => refused upstream_error (src_adapterName s) w
              | Some i => answered_by (call i db) (src_adapterName s) w
              end
          end
    end.

Definition manager_IdentifierSemantics (datasource : string) : op IdentifierSemantics := fun w =>
  match availableSource datasource with
  | Err e => (Err e, w)
  | Ok (_, adapter, db) => ad_IdentifierSemantics adapter db w
  end.

Definition within_result_limit (bytes : Z) (limits : Limits) : bool := (0 <=? bytes) && (bytes <=? MaxResultBytes limits).

Definition manager_DescribeObjectStatistics (authorized : AuthorizedObjectStatistics) (envelopeBaseBytes : Z)
  : W -> named ObjectStatisticsResult * W :=
  dispatch (String.eqb (os_operation authorized) OperationDescribeObjectStatistics && nonempty (os_schema authorized) &&
            nonempty (os_object authorized) && within_result_limit envelopeBaseBytes (os_limits authorized))
    (os_datasource authorized) (Some (os_adapter authorized)) OperationDescribeObjectStatistics ad_statistics
    (fun call db => call db authorized envelopeBaseBytes).

Definition manager_Explain (query : AuthorizedQuery) : W -> named ExplainResult * W :=
  dispatch (String.eqb (aq_operation query) OperationExplainSelect) (aq_datasource query) None OperationExplainSelect
    Some (fun adapter db => ad_Explain adapter db query).

Definition manager_Select (query : AuthorizedQuery) : W -> named SelectAnswer * W :=
  dispatch (String.eqb (aq_operation query) OperationSelect) (aq_datasource query) None OperationSelect
    ad_select (fun call db => call db query).

Definition manager_SelectKeyset (query : AuthorizedKeysetSelect) (budget : KeysetEnvelopeBudget) : W -> named KeysetAnswer * W :=
  dispatch (String.eqb (ak_operation query) OperationSelectKeyset && nonempty (ak_adapter query) &&
            within_result_limit (FinalBaseBytes budget) (ak_limits query) && within_result_limit (MoreBaseBytes budget) (ak_limits query))
    (ak_datasource query) (Some (ak_adapter query)) OperationSelectKeyset ad_keyset (fun call db => call db query budget).

Definition manager_Aggregate (query : AuthorizedAggregate) (envelopeBaseBytes : Z) : W -> named AggregateAnswer * W :=
  dispatch (String.eqb (aa_operation query) OperationAggregate && within_result_limit envelopeBaseBytes (aa_limits query))
    (aa_datasource query) None OperationAggregate ad_aggregate (fun call db => call db query envelopeBaseBytes).

Definition visible_objects (authorized : AuthorizedSchema) (objects : list SchemaObject) : list SchemaObject :=
  List.filter (fun o => IsIdentifier (so_name o) && AllowsObject authorized (so_name o)) objects.

Definition visible_columns (authorized : AuthorizedSchema) (columns : list ColumnDescription) : list ColumnDescription :=
  List.filter (fun c => IsIdentifier (cd_name c) && AllowsField authorized (cd_name c)) columns.

Definition manager_ListObjects (authorized : AuthorizedSchema) : W -> named (list SchemaObject) * W :=
  dispatch (String.eqb (sc_operation authorized) OperationListObjects && nonempty (sc_schema authorized) && negb (nonempty (sc_object authorized)))
    (sc_datasource authorized) None OperationListObjects ad_schema
    (fun schema db w =>
       let '(r, w') := sa_ListObjects schema db (sc_schema authorized) w in
       (let? objects := r in Ok (visible_objects authorized objects), w')).

Definition manager_DescribeObject (authorized : AuthorizedSchema) : W -> named ObjectDescription * W :=
  dispatch (String.eqb (sc_operation authorized) OperationDescribeObject && nonempty (sc_schema authorized) && nonempty (sc_object authorized))
    (sc_datasource authorized) None OperationDescribeObject ad_schema
    (fun schema db w =>
       let '(r, w') := sa_DescribeObject schema db {| r_schema := sc_schema authorized; r_name := sc_object authorized |} w in
       (let? description := r in
        Ok {| od_schema := od_schema description; od_name := od_name description;
              od_columns := visible_columns authorized (od_columns description) |}, w')).

(** *** What a client may ask of a datasource *)

Definition served (datasource : string) : option source := s ← m !! datasource; _ ← src_adapter s; Some s.
Definition AdapterName (datasource : string) : string := from_option src_adapterName EmptyString (served datasource).
Definition Capabilities (datasource : string) : list string := from_option src_capabilities [] (served datasource).
Definition Features (datasource : string) : list string := from_option src_features [] (served datasource).

Fixpoint ready_sources (sources : list source) : op unit := fun w =>
  match sources with
  | [] => (Ok tt, w)
  | s :: sources' =>
      if src_failed s then (Err unavailable_error, w)
      else
        match src_db s, src_adapter s with
        | Some db, Some adapter =>
            let '(r, w') := ad_Validate adapter db w in
            match r with
            | Ok _ => ready_sources sources' w'
            | Err _ => (Err unavailable_error, w')
            end
        | _, _ => (Err unavailable_error, w)
        end
  end.

Definition Ready : op unit := ready_sources (List.filter src_required (map snd (map_to_list m))).
End Dispatch.

(** ** What a made manager keeps *)

Record capable (adapter : Adapter) (operation : string) : Prop := {
  cb_valid : Operation_Valid operation = true;
  cb_not_core : operation <> OperationListQueryShapes;
  cb_implemented : implements adapter operation = true;
}.

Lemma validateAdapterCapabilities_exact adapter capabilities :
  validateAdapterCapabilities adapter = Ok capabilities <->
  capabilities = ad_Capabilities adapter /\ Forall (capable adapter) capabilities /\ NoDup capabilities.
Proof.
  unfold validateAdapterCapabilities. rewrite rbind_ok.
  assert (H : forall seen, iter (fun _ => capability_step adapter) (ad_Capabilities adapter) [] = Ok seen <->
    Forall (capable adapter) (ad_Capabilities adapter) /\ NoDup (map id (ad_Capabilities adapter)) /\ seen = rev (map id (ad_Capabilities adapter))).
  { intros seen. apply iter_seen_nil, Forall_forall. intros operation _ _ s s'. unfold capability_step.
    rewrite !if_err_ok, !negb_false_iff, String.eqb_neq, contains_false_elem. split.
    - intros (? & ? & ? & ? & [= <-]). done.
    - intros ([] & ? & ->). done. }
  setoid_rewrite H. rewrite map_id. split.
  - intros (seen & (Hf & Hn & _) & [= <-]). done.
  - intros (-> & Hf & Hn). by eexists.
Qed.

Definition known_features (features : list string) : Prop := Forall (fun f => Feature_Valid f = true) features /\ NoDup features.

Lemma validateAdapterFeatures_exact adapter features :
  validateAdapterFeatures adapter = Ok features <-> features = default [] (ad_features adapter) /\ known_features features.
Proof.
  unfold validateAdapterFeatures, known_features. destruct (ad_features adapter) as [l|]; cbn [default].
  - rewrite rbind_ok.
    assert (H : forall seen, iter (fun _ => feature_step) l [] = Ok seen <->
      Forall (fun f => Feature_Valid f = true) l /\ NoDup (map id l) /\ seen = rev (map id l)).
    { intros seen. apply iter_seen_nil, Forall_forall. intros f _ _ s s'. unfold feature_step.
      rewrite !if_err_ok, negb_false_iff, contains_false_elem. naive_solver. }
    setoid_rewrite H. rewrite map_id. naive_solver.
  - split; [intros [= <-]|intros [-> _]; done]. split_and!; [done|constructor..].
Qed.

(** What a datasource that can be used is known to satisfy: its adapter is one of
    those given, under the configured name; it advertises distinct known operations
    whose interfaces it implements, and distinct known features, with stored text
    among them where a profile of the datasource asks for it. *)
Record well_typed (cfg : Config) (adapters : list Adapter) (name : string) (s : source) (adapter : Adapter) : Prop := {
  wt_adapter : adapter ∈ adapters;
  wt_name : ad_Name adapter = src_adapterName s;
  wt_configured : exists datasource, cfg_datasources cfg !! name = Some datasource /\ ds_adapter datasource = src_adapterName s /\
                    ds_requiredForReadiness datasource = src_required s;
  wt_capabilities : Forall (capable adapter) (src_capabilities s) /\ NoDup (src_capabilities s);
  wt_features : known_features (src_features s);
  wt_text : forall profileName profile, cfg_profiles cfg !! profileName = Some profile ->
              contains (pf_datasources profile) name = true -> QueryPolicyUsesSourceText (pf_query profile) = true ->
              contains (src_features s) FeatureSourceText = true;
}.

Lemma registry_spec adapters name adapter : registry adapters !! name = Some adapter -> adapter ∈ adapters /\ ad_Name adapter = name.
Proof.
  unfold registry. assert (H : forall m : gmap string Adapter, fold_left (fun m a => <[ad_Name a := a]> m) adapters m !! name = Some adapter ->
    m !! name = Some adapter \/ adapter ∈ adapters /\ ad_Name adapter = name).
  { induction adapters as [|a l IH]; intros m H; [by left|]. apply IH in H as [H|[H1 H2]]; [|right; by split; [right|]].
    apply lookup_insert_Some in H as [[<- <-]|[_ H]]; [right; split; [left|]; done|by left]. }
  intros [Hm|Hm]%H; [|done]. by rewrite lookup_empty in Hm.
Qed.

Lemma source_text_known cfg name features : source_text_missing cfg name features = false ->
  forall profileName profile, cfg_profiles cfg !! profileName = Some profile ->
  contains (pf_datasources profile) name = true -> QueryPolicyUsesSourceText (pf_query profile) = true ->
  contains features FeatureSourceText = true.
Proof.
  intros H profileName profile Hp Hn Hu. unfold source_text_missing in H.
  destruct (contains features FeatureSourceText) eqn:Hf; [done|]. exfalso. apply not_true_iff_false in H. apply H.
  apply existsb_exists. exists (profileName, profile). split.
  - by apply list_elem_of_In, elem_of_map_to_list.
  - by rewrite Hn, Hu.
Qed.

Lemma new_source_available cfg resolve adapters name datasource :
  cfg_datasources cfg !! name = Some datasource ->
  let '(s, problem) := new_source cfg resolve adapters name datasource in
  (problem = None <-> is_Some (available s)) /\
  forall adapter db, available s = Some (adapter, db) -> well_typed cfg adapters name s adapter.
Proof.
  intros Hd. unfold new_source, failed_source.
  assert (Hfail : forall s e, src_failed s = true -> ((Some e : option goerr) = None <-> is_Some (available s)) /\
    forall adapter db, available s = Some (adapter, db) -> well_typed cfg adapters name s adapter).
  { intros s e Hs. unfold available. rewrite Hs. split; [split; [done|intros [? [=]]]|done]. }
  destruct (registry adapters !! _) as [adapter|] eqn:Hr; [|by apply Hfail].
  destruct (validateAdapterCapabilities adapter) as [capabilities|] eqn:Hc; [|by apply Hfail].
  destruct (validateAdapterFeatures adapter) as [features|] eqn:Hf; [|by apply Hfail].
  destruct (source_text_missing _ _ _) eqn:Ht; [by apply Hfail|].
  destruct (datasource_dsn _ _); [|by apply Hfail]. destruct (ad_Open _ _ _) as [db|]; [|by apply Hfail].
  apply registry_spec in Hr as [? ?]. apply validateAdapterCapabilities_exact in Hc as (_ & ? & ?).
  apply validateAdapterFeatures_exact in Hf as [_ ?].
  split; [by split|]. intros adapter' db' [= <- <-]. split; try done; [by exists datasource|by eapply source_text_known].
Qed.

Lemma manager_lookup cfg resolve adapters name s : (NewManager cfg resolve adapters).1 !! name = Some s ->
  exists datasource, cfg_datasources cfg !! name = Some datasource /\ s = (new_source cfg resolve adapters name datasource).1.
Proof.
  unfold NewManager, Manager. cbn [fst]. rewrite map_lookup_imap. destruct (cfg_datasources cfg !! name) as [d|]; cbn; [|done].
  intros [= <-]. by exists d.
Qed.

Lemma capable_has adapter operation l : Forall (capable adapter) l -> contains l operation = true -> implements adapter operation = true.
Proof. rewrite contains_In, Forall_forall. intros H Hi. by apply H, list_elem_of_In. Qed.

(** ** What the operations do with it *)

Lemma dispatch_reaches {I A} (m : Manager) name s adapter db authorized adapterName operation (interface : Adapter -> option I)
    (call : I -> DB -> op A) i w :
  m !! name = Some s -> available s = Some (adapter, db) -> authorized = true ->
  from_option (fun n => negb (String.eqb (src_adapterName s) n)) false adapterName = false ->
  contains (src_capabilities s) operation = true -> interface adapter = Some i ->
  dispatch m authorized name adapterName operation interface call w = answered_by (call i db) (src_adapterName s) w.
Proof.
  intros Hm Ha -> Hn Hc Hi. unfold dispatch, availableSource, requireCapability. cbn [negb].
  by rewrite Hm, Ha, Hn, Hc, Hi.
Qed.

(** The calls that the operations of the manager end in, for an adapter [adapter]
    with handle [db] behind the datasource [name]. *)
Record serves (m : Manager) (name : string) (s : source) (adapter : Adapter) (db : DB) : Prop := {
  sv_explain : contains (src_capabilities s) OperationExplainSelect = true -> forall query w,
    aq_operation query = OperationExplainSelect -> aq_datasource query = name ->
    manager_Explain m query w = answered_by (ad_Explain adapter db query) (src_adapterName s) w;
  sv_select : contains (src_capabilities s) OperationSelect = true -> exists call, ad_select adapter = Some call /\
    forall query w, aq_operation query = OperationSelect -> aq_datasource query = name ->
    manager_Select m query w = answered_by (call db query) (src_adapterName s) w;
  sv_keyset : contains (src_capabilities s) OperationSelectKeyset = true -> exists call, ad_keyset adapter = Some call /\
    forall query budget w, ak_operation query = OperationSelectKeyset -> ak_datasource query = name ->
    ak_adapter query = src_adapterName s -> nonempty (ak_adapter query) = true ->
    within_result_limit (FinalBaseBytes budget) (ak_limits query) = true ->
    within_result_limit (MoreBaseBytes budget) (ak_limits query) = true ->
    manager_SelectKeyset m query budget w = answered_by (call db query budget) (src_adapterName s) w;
  sv_aggregate : contains (src_capabilities s) OperationAggregate = true -> exists call, ad_aggregate adapter = Some call /\
    forall query bytes w, aa_operation query = OperationAggregate -> aa_datasource query = name ->
    within_result_limit bytes (aa_limits query) = true ->
    manager_Aggregate m query bytes w = answered_by (call db query bytes) (src_adapterName s) w;
  sv_statistics : contains (src_capabilities s) OperationDescribeObjectStatistics = true -> exists call,
    ad_statistics adapter = Some call /\ forall a bytes w, os_operation a = OperationDescribeObjectStatistics ->
    os_datasource a = name -> os_adapter a = src_adapterName s -> nonempty (os_schema a) = true -> nonempty (os_object a) = true ->
    within_result_limit bytes (os_limits a) = true ->
    manager_DescribeObjectStatistics m a bytes w = answered_by (call db a bytes) (src_adapterName s) w;
  sv_list : contains (src_capabilities s) OperationListObjects = true -> exists schema, ad_schema adapter = Some schema /\
    forall a w, sc_operation a = OperationListObjects -> sc_datasource a = name -> sc_schema a <> EmptyString -> sc_object a = EmptyString ->
    manager_ListObjects m a w =
      (let '(r, w') := sa_ListObjects schema db (sc_schema a) w in
       ((match r with
         | Ok objects => Ok (filter (fun o => IsIdentifier (so_name o) = true /\ AllowsObject a (so_name o) = true) objects)
         | Err e => Err e
         end, src_adapterName s), w'));
  sv_describe : contains (src_capabilities s) OperationDescribeObject = true -> exists schema, ad_schema adapter = Some schema /\
    forall a w, sc_operation a = OperationDescribeObject -> sc_datasource a = name -> sc_schema a <> EmptyString -> sc_object a <> EmptyString ->
    manager_DescribeObject m a w =
      (let '(r, w') := sa_DescribeObject schema db {| r_schema := sc_schema a; r_name := sc_object a |} w in
       ((match r with
         | Ok d => Ok {| od_schema := od_schema d; od_name := od_name d;
             od_columns := filter (fun c => IsIdentifier (cd_name c) = true /\ AllowsField a (cd_name c) = true) (od_columns d) |}
         | Err e => Err e
         end, src_adapterName s), w'));
  sv_semantics : forall w, manager_IdentifierSemantics m name w = ad_IdentifierSemantics adapter db w;
}.

Lemma well_typed_serves m name s adapter db :
  m !! name = Some s -> available s = Some (adapter, db) -> Forall (capable adapter) (src_capabilities s) -> serves m name s adapter db.
Proof.
  intros Hm Ha Hc. assert (Hi := fun operation => capable_has adapter operation _ Hc).
  split; [intros Ho query w H1 H2|intros Ho; pose proof (Hi _ Ho) as H; apply bool_decide_eq_true in H as [call Hcall]; exists call; split; [done|]..|intros w].
  - subst name. apply (dispatch_reaches m _ s adapter db _ None OperationExplainSelect Some (fun a d => ad_Explain a d query) adapter); try done.
    by rewrite H1.
  - intros query w H1 <-. apply (dispatch_reaches m _ s adapter db _ None OperationSelect ad_select (fun i d => i d query) call); try done. by rewrite H1.
  - intros query budget w H1 <- H3 H4 H5 H6.
    apply (dispatch_reaches m _ s adapter db _ (Some (ak_adapter query)) OperationSelectKeyset ad_keyset (fun i d => i d query budget) call); try done.
    + by rewrite H1, H4, H5, H6.
    + cbn. by rewrite H3, String.eqb_refl.
  - intros query bytes w H1 <- H3.
    apply (dispatch_reaches m _ s adapter db _ None OperationAggregate ad_aggregate (fun i d => i d query bytes) call); try done. by rewrite H1, H3.
  - intros a bytes w H1 <- H3 H4 H5 H6.
    apply (dispatch_reaches m _ s adapter db _ (Some (os_adapter a)) OperationDescribeObjectStatistics ad_statistics (fun i d => i d a bytes) call); try done.
    + by rewrite H1, H4, H5, H6.
    + cbn. by rewrite H3, String.eqb_refl.
  - intros a w H1 <- H3 H4. unfold manager_ListObjects.
    rewrite (dispatch_reaches m _ s adapter db _ None OperationListObjects ad_schema _ call) by (try done; rewrite H1, H4; by destruct (sc_schema a)).
    unfold answered_by. destruct (sa_ListObjects _ _ _ _) as [[objects|e] w']; [|done]. cbn [rbind]. do 3 f_equal.
    apply List_filter_decides. intros o. by rewrite andb_true_iff.
  - intros a w H1 <- H3 H4. unfold manager_DescribeObject.
    rewrite (dispatch_reaches m _ s adapter db _ None OperationDescribeObject ad_schema _ call) by (try done; rewrite H1; by destruct (sc_schema a), (sc_object a)).
    unfold answered_by. destruct (sa_DescribeObject _ _ _ _) as [[d|e] w']; [|done]. cbn [rbind]. do 4 f_equal.
    apply List_filter_decides. intros c. by rewrite andb_true_iff.
  - unfold manager_IdentifierSemantics, availableSource. by rewrite Hm, Ha.
Qed.

(** C20: The datasources of a new manager are well typed: there is no problem to
    report exactly when each configured datasource can be used, and one that can be
    used has a configured adapter, advertises only distinct known operations and
    features, supports what its profiles ask of stored text, and answers every
    operation it advertises (explain, select, keyset select, aggregate, statistics, and the
    listings of objects and of columns with what the grant permits) by the method of its
    adapter on its own handle, so that the assertions on the adapter's interfaces never fail. *)
Theorem NewManager_well_typed cfg resolve adapters m problems :
  NewManager cfg resolve adapters = (m, problems) ->
  (problems = [] <-> forall name, is_Some (cfg_datasources cfg !! name) -> exists s, m !! name = Some s /\ is_Some (available s)) /\
  forall name s adapter db, m !! name = Some s -> available s = Some (adapter, db) ->
    well_typed cfg adapters name s adapter /\ serves m name s adapter db.
Proof.
  intros H. pose proof (manager_lookup cfg resolve adapters) as Hl. rewrite H in Hl. injection H as Hm Hp. split.
  - rewrite <- Hp. assert (Hi : forall name, is_Some (cfg_datasources cfg !! name) <-> is_Some (m !! name)).
    { intros name. rewrite <- Hm. unfold Manager. rewrite map_lookup_imap. destruct (_ !! name); cbn; [by split; intros _; eexists|done]. }
    rewrite omap_nil, Forall_forall. split.
    + intros Hnone name [d Hd]. assert (is_Some (m !! name)) as [s Hs] by (apply Hi; by eexists). exists s. split; [done|].
      apply Hl in Hs as (d' & Hd' & ->). pose proof (new_source_available cfg resolve adapters name d' Hd') as Hav.
      specialize (Hnone (name, d')). cbn in Hnone. destruct (new_source _ _ _ _ _) as [s e]. apply Hav, Hnone. by apply elem_of_map_to_list.
    + intros Hall [name d] Hd%elem_of_map_to_list. destruct (Hall name) as (s & Hs & Hav); [by eexists|].
      apply Hl in Hs as (d' & Hd' & ->). rewrite Hd in Hd'. injection Hd' as <-.
      pose proof (new_source_available cfg resolve adapters name d Hd) as Hs. cbn. destruct (new_source _ _ _ _ _). by apply Hs.
  - intros name s adapter db Hs Ha. destruct (Hl _ _ Hs) as (d & Hd & ->).
    pose proof (new_source_available cfg resolve adapters name d Hd) as Hw. destruct (new_source _ _ _ _ _) as [s e]. cbn in *.
    destruct Hw as [_ Hw]. specialize (Hw _ _ Ha). split; [done|]. apply well_typed_serves; [done..|]. by destruct (wt_capabilities _ _ _ _ _ Hw).
Qed.

(** ** What a listing shows *)

Lemma grant_schema sn binding operation resource semantics a : authorizeSchema sn binding operation resource semantics = Ok a ->
  exists profile, profileForBinding sn binding operation = Ok profile /\
    permits (Schemas (pf_resources profile)) [r_schema resource] (schema_semantics semantics) /\
    (operation = OperationDescribeObject ->
     permits (Objects (pf_resources profile)) [r_schema resource; r_name resource] (object_semantics semantics)) /\
    a = {| sc_principal := ab_principal binding; sc_profile := k_profile (ab_key binding);
           sc_datasource := k_datasource (ab_key binding); sc_operation := operation;
           sc_schema := r_schema resource; sc_object := r_name resource;
           sc_limits := Limits_Min (sn_hardLimits sn) (pf_limits profile);
           sc_resources := pf_resources profile; sc_semantics := semantics |}.
Proof.
  unfold authorizeSchema. rewrite check_ok'. intros [Hop H]. destruct (profileForBinding _ _ _) as [profile|]; [|done]. exists profile.
  rewrite !if_err_ok, negb_false_iff, allowed_iff in H. destruct H as (Hs & Ho & [= <-]). split_and!; try done.
  intros ->. cbn in Hop. apply guard_ok in Hop. rewrite orb_false_iff, !negb_false_iff, !IsIdentifier_iff in Hop. destruct Hop as [_ Hn].
  assert (Hne : nonempty (r_name resource) = true) by (unfold is_identifier in Hn; by destruct (nonempty (r_name resource))).
  rewrite Hne in Ho. by apply negb_false_iff, allowed_iff in Ho.
Qed.

Lemma answered_by_ok {A} (call : op A) adapterName w a n w' :
  answered_by call adapterName w = ((Ok a, n), w') -> call w = (Ok a, w') /\ n = adapterName.
Proof. unfold answered_by. destruct (call w). by intros [= -> <- ->]. Qed.

Lemma dispatch_ok {I A} (m : Manager) authorized datasource adapterName operation (interface : Adapter -> option I) (call : I -> DB -> op A) w a n w' :
  dispatch m authorized datasource adapterName operation interface call w = ((Ok a, n), w') ->
  exists s adapter db i, m !! datasource = Some s /\ available s = Some (adapter, db) /\ interface adapter = Some i /\
    call i db w = (Ok a, w') /\ n = src_adapterName s /\ authorized = true /\ contains (src_capabilities s) operation = true.
Proof.
  unfold dispatch, availableSource, requireCapability, refused. destruct authorized; cbn [negb]; [|done].
  destruct (m !! datasource) as [s|] eqn:Hm; [|done]. destruct (available s) as [[adapter db]|] eqn:Ha; [|done].
  destruct (from_option _ _ _); [done|]. destruct (contains _ _) eqn:Hc; cbn [negb]; [|done].
  destruct (interface adapter) as [i|] eqn:Hi; [|done]. intros [H ->]%answered_by_ok. by exists s, adapter, db, i.
Qed.

(** C21: Whatever an adapter answers, a listing under a grant shows exactly what the
    profile permits of it. The adapter of the binding's datasource was asked once, on its own
    handle, for the granted schema or object; what is returned is its answer, in its order,
    less the objects that are not identifiers or that the policy does not permit in the
    schema, or less the columns that it does not permit in the object. *)
Theorem listings_confined sn binding semantics m w n w' :
  (forall schema a objects, AuthorizeListObjects sn binding schema semantics = Ok a ->
   manager_ListObjects m a w = ((Ok objects, n), w') ->
   exists profile s adapter db api found,
     profileForBinding sn binding OperationListObjects = Ok profile /\
     permits (Schemas (pf_resources profile)) [schema] (schema_semantics semantics) /\
     m !! k_datasource (ab_key binding) = Some s /\ available s = Some (adapter, db) /\ ad_schema adapter = Some api /\
     n = src_adapterName s /\ sa_ListObjects api db schema w = (Ok found, w') /\
     objects = filter (fun o => is_identifier (so_name o) = true /\
       permits (Objects (pf_resources profile)) [schema; so_name o] (object_semantics semantics)) found) /\
  (forall object a description, AuthorizeDescribeObject sn binding object semantics = Ok a ->
   manager_DescribeObject m a w = ((Ok description, n), w') ->
   exists profile s adapter db api found,
     profileForBinding sn binding OperationDescribeObject = Ok profile /\
     permits (Schemas (pf_resources profile)) [r_schema object] (schema_semantics semantics) /\
     permits (Objects (pf_resources profile)) [r_schema object; r_name object] (object_semantics semantics) /\
     m !! k_datasource (ab_key binding) = Some s /\ available s = Some (adapter, db) /\ ad_schema adapter = Some api /\
     n = src_adapterName s /\ sa_DescribeObject api db object w = (Ok found, w') /\
     description = {| od_schema := od_schema found; od_name := od_name found;
       od_columns := filter (fun c => is_identifier (cd_name c) = true /\
         permits (Fields (pf_resources profile)) [r_schema object; r_name object; cd_name c] (field_semantics semantics)) (od_columns found) |}).
Proof.
  split.
  - intros schema a objects (profile & Hp & Hs & _ & ->)%grant_schema H.
    apply dispatch_ok in H as (s & adapter & db & api & Hm & Hav & Hi & H & Hn & Ha & _). cbn in Ha, H, Hm.
    destruct (sa_ListObjects _ _ _ _) as [[found|] w1] eqn:E; [|done]. injection H as <- <-. exists profile, s, adapter, db, api, found.
    split_and!; [done..|]. apply List_filter_decides. intros o.
    unfold AllowsObject. cbn. by rewrite andb_true_iff, IsIdentifier_iff, allowed_iff.
  - intros object a description (profile & Hp & Hs & Ho & ->)%grant_schema H.
    apply dispatch_ok in H as (s & adapter & db & api & Hm & Hav & Hi & H & Hn & Ha & _). cbn in Ha, H, Hm.
    destruct (sa_DescribeObject _ _ _ _) as [[found|] w1] eqn:E; [|done]. injection H as <- <-. exists profile, s, adapter, db, api, found.
    split_and!; [done|done|by apply Ho|done..|by destruct object|]. f_equal. apply List_filter_decides. intros c.
    unfold AllowsField. cbn.
    apply andb_true_iff in Ha as [Ha Hname]. cbn in Hname. rewrite Hname. cbn. by rewrite andb_true_iff, IsIdentifier_iff, allowed_iff.
Qed.
End Manager.

(** ** A small manager *)

(** An adapter that counts its calls and lists three objects. *)
Definition counting_adapter : @Adapter Z string := {|
  ad_Name := AdapterMySQL8;
  ad_Capabilities := [OperationListObjects; OperationDescribeObject; OperationExplainSelect; OperationSelect];
  ad_Validate := fun _ w => (Ok tt, w + 1);
  ad_IdentifierSemantics := fun _ w => (Ok sensitive, w + 1);
  ad_Open := fun dsn _ => if nonempty dsn then Ok dsn else Err upstream_error;
  ad_Explain := fun _ _ w => (Ok {| er_format := "json"; er_plan := "{}" |}, w + 1);
  ad_features := Some [FeatureSourceText];
  ad_schema := Some {|
    sa_ListObjects := fun _ schema w => (Ok [{| so_name := "users" |}; {| so_name := "secrets" |}; {| so_name := "no way" |}], w + 1);
    sa_DescribeObject := fun _ object w =>
      (Ok {| od_schema := r_schema object; od_name := r_name object;
             od_columns := map (fun n => {| cd_name := n; cd_type := "string"; cd_native_type := "text"; cd_nullable := false;
                                            cd_primary_key := false; cd_indexed := false |}) ["name"; "Password"] |}, w + 1) |};
  ad_select := Some (fun _ _ w => (Err upstream_error, w + 1));
  ad_keyset := None; ad_aggregate := None; ad_statistics := None;
|}.

Definition small_config (adapterName : string) : Config := {|
  cfg_version := 1; cfg_listen := EmptyString; cfg_hardLimits := some_limits;
  cfg_basic := {| ba_realm := EmptyString; ba_users := {[ "laptop" := {| bu_principal := "alice"; bu_passwordHash := "x"; bu_passwordHashSecretRef := EmptyString |} ]} |};
  cfg_principals := {[ "alice" := {| p_profiles := ["reader"]; p_datasources := ["main"] |} ]};
  cfg_datasources := {[ "main" := {| ds_adapter := adapterName; ds_dsn := EmptyString; ds_dsnSecretRef := "env"; ds_tlsRequired := None;
    ds_requiredForReadiness := true;
    ds_pool := {| pc_maxOpenConnections := 4; pc_maxIdleConnections := 2; pc_maxConnectionLifetimeSeconds := 60 |} |} ]};
  cfg_profiles := {[ "reader" := example_profile ]}; cfg_policyHash := "h1" |}.

Definition resolved (_ : string) : result string := Ok "dsn".

Definition small_manager : Manager := (NewManager (small_config AdapterMySQL8) resolved [counting_adapter]).1.

Definition listing_grant : AuthorizedSchema := {|
  sc_principal := "alice"; sc_profile := "reader"; sc_datasource := "main"; sc_operation := OperationDescribeObject;
  sc_schema := "shop"; sc_object := "users"; sc_limits := Limits_Min some_limits some_limits;
  sc_resources := pf_resources example_profile; sc_semantics := sensitive |}.

Example small_manager_listings :
  ((NewManager (small_config AdapterMySQL8) resolved [counting_adapter]).2,
   len (NewManager (small_config "mysql9") resolved [counting_adapter]).2,
   match manager_DescribeObject small_manager listing_grant 0 with ((Ok d, n), w) => (map cd_name (od_columns d), n, w) | _ => ([], EmptyString, -1) end,
   Ready small_manager 7) = ([], 1, (["name"], AdapterMySQL8, 1), (Ok tt, 8)).
Proof. vm_compute. reflexivity. Qed.

Lemma NewManager_well_typed_witness :
  (([] : list goerr) = [] <-> forall name, is_Some (cfg_datasources (small_config AdapterMySQL8) !! name) ->
     exists s, small_manager !! name = Some s /\ is_Some (available s)) /\
  forall name s adapter db, small_manager !! name = Some s -> available s = Some (adapter, db) ->
    well_typed (small_config AdapterMySQL8) [counting_adapter] name s adapter /\ serves small_manager name s adapter db.
Proof. apply (NewManager_well_typed (small_config AdapterMySQL8) resolved [counting_adapter] small_manager []). vm_compute. reflexivity. Defined.

Definition name_column : ColumnDescription :=
  {| cd_name := "name"; cd_type := "string"; cd_native_type := "text"; cd_nullable := false; cd_primary_key := false; cd_indexed := false |}.

Lemma listings_confined_witness :
  exists profile s adapter db api found,
    profileForBinding example_snapshot (example_binding OperationDescribeObject) OperationDescribeObject = Ok profile /\
    permits (Schemas (pf_resources profile)) ["shop"] (schema_semantics sensitive) /\
    permits (Objects (pf_resources profile)) ["shop"; "users"] (object_semantics sensitive) /\
    small_manager !! "main" = Some s /\ available s = Some (adapter, db) /\ ad_schema adapter = Some api /\
    AdapterMySQL8 = src_adapterName s /\ sa_DescribeObject api db {| r_schema := "shop"; r_name := "users" |} 0 = (Ok found, 1) /\
    {| od_schema := "shop"; od_name := "users"; od_columns := [name_column] |} =
      {| od_schema := od_schema found; od_name := od_name found;
         od_columns := filter (fun c => is_identifier (cd_name c) = true /\
           permits (Fields (pf_resources profile)) ["shop"; "users"; cd_name c] (field_semantics sensitive)) (od_columns found) |}.
Proof.
  destruct (listings_confined example_snapshot (example_binding OperationDescribeObject) sensitive small_manager 0 AdapterMySQL8 1) as [_ H].
  apply (H {| r_schema := "shop"; r_name := "users" |} listing_grant {| od_schema := "shop"; od_name := "users"; od_columns := [name_column] |});
    vm_compute; reflexivity.
Defined.
