(* ===== verification/ServiceCore.v ===== *)
(** The query service, its state and the steps its operations share
    (internal/queryservice/service.go, operations.go, source_text.go, audit_hash.go):
    errors, the capacity gates, the audit log, the call of the database manager, and the
    discovery snapshots with their invalidation. *)
From S2P Require Import Prelude Domain GoJson Number Portable Values QuerySpec Config Policy Sql Rows Aggregate AggregateNormal NumericBucket SqlAggregate PolicyAggregate Keyset KeysetBinds PolicyKeyset SqlKeyset KeysetRows PublicShapes Discovery AuditEvents ShapeHash Driver Session KeysetSession Manager.
Local Open Scope string_scope.
Local Open Scope Z_scope.

#[export] Instance BindingKey_countable : Countable BindingKey.
Proof.
  refine (inj_countable' (fun k => (k_profile k, k_datasource k)) (fun p => {| k_profile := p.1; k_datasource := p.2 |}) _). by intros [].
Defined.

(** ** Errors *)

Record service_error := { se_kind : string; se_reason : string }.

Definition fault (kind : string) : service_error := {| se_kind := kind; se_reason := EmptyString |}.
Definition denied_for (reason : string) : service_error := {| se_kind := "denied"; se_reason := reason |}.
Definition audit_unavailable : service_error := fault "service_unavailable".

Definition classifyDatabaseError (err : goerr) : string :=
  if IsKind err "not_found" then "not_found"
  else if IsKind err "invalid" then "invalid"
  else if IsKind err "not_implemented" then "not_implemented"
  else if IsKind err "unavailable" then "unavailable"
  else if IsKind err "timeout" then "timeout"
  else if IsKind err "request_too_large" then "too_large"
  else if IsKind err "result_too_large" then "result_too_large"
  else "upstream".

Definition classifyDatabaseAuditError (err : goerr) : string :=
  if IsKind err "request_too_large" || IsKind err "not_found" then "invalid" else classifyDatabaseError err.

Definition mapDatabaseError (err : goerr) : service_error := fault (classifyDatabaseError err).

(** [policy.IsDenial]: the reason of a denial; [otherwise] is what the variable held. *)
Definition denial_reason (otherwise : string) (err : goerr) : string :=
  match err with Denial reason => reason | _ => otherwise end.
Definition is_denial (err : goerr) : bool := match err with Denial _ => true | _ => false end.

(** ** What is asked, and of whom *)

(** The four texts that every operation passes along. The listings, the descriptions
    and the table statistics have no query identifier: theirs is empty. *)
Record caller := { cl_requestID : string; cl_queryID : string; cl_principal : string; cl_clientIdentifier : string }.

(** An authorization that the manager is given, with the byte budget of the answer. *)
Inductive grant :=
| GrantExplain (query : AuthorizedQuery)
| GrantSelect (query : AuthorizedQuery)
| GrantAggregate (query : AuthorizedAggregate) (envelopeBaseBytes : Z)
| GrantKeyset (query : AuthorizedKeysetSelect) (budget : KeysetEnvelopeBudget)
| GrantObjects (authorized : AuthorizedSchema)
| GrantObject (authorized : AuthorizedSchema)
| GrantStatistics (authorized : AuthorizedObjectStatistics) (envelopeBaseBytes : Z).

(** What an operation does that others can see, in order. [Audited detached event ok]
    is a write to the audit sink, [ok] when it succeeded; it is [detached] when it
    outlives the request's context. *)
Inductive action :=
| Audited (detached : bool) (event : Event) (ok : bool)
| Probed (datasource : string) (answer : result IdentifierSemantics)
| Acquired (key : BindingKey) (ok : bool)
| Called (g : grant)
| Released (key : BindingKey).

(** ** The service *)

(** A buffered channel of empty structs: its capacity and how many it holds. *)
Record gate := { gt_capacity : Z; gt_held : Z }.

Definition send (g : gate) : option gate :=
  if gt_held g <? gt_capacity g then Some {| gt_capacity := gt_capacity g; gt_held := gt_held g + 1 |} else None.
Definition receive (g : gate) : gate := {| gt_capacity := gt_capacity g; gt_held := gt_held g - 1 |}.

Record configuredQueryShapeSupport := { cs_count : Z; cs_supported : bool }.

(** What does not change after [New]. *)
Record Service {W DB : Type} := {
  sv_policy : Snapshot;
  sv_databases : @Manager W DB;
  sv_serviceVersion : string;
  sv_discoveryNeeded : gmap BindingKey bool;
  sv_queryShapeSupport : gmap BindingKey configuredQueryShapeSupport;
  sv_queryShapeAuditIdentity : queryShapeAuditIdentity;
  sv_bindingAuditIdentities : gmap BindingKey queryShapeAuditIdentity;
}.
Arguments Service : clear implicits.

(** What the service needs of its host: the audit sink, and the clock in nanoseconds. *)
Class Host (W : Type) := {
  sink_write : bool -> Event -> W -> bool * W;
  sink_ready : W -> bool;
  clock : W -> Z;
}.

Record state {W : Type} := {
  st_world : W;
  st_global : gate;
  st_bindings : gmap BindingKey gate;
  st_queryShapes : gmap BindingKey QueryShapeDiscovery;
  st_trace : list action;
}.
Arguments state : clear implicits.

(** An operation: its answer or its error, and the state it leaves. *)
Definition P (W A : Type) : Type := state W -> (service_error + A) * state W.

#[export] Instance P_ret {W} : MRet (P W) := fun A a s => (inr a, s).
#[export] Instance P_bind {W} : MBind (P W) := fun A B k m s =>
  match m s with (inl e, s') => (inl e, s') | (inr a, s') => k a s' end.

Definition fail {W A} (e : service_error) : P W A := fun s => (inl e, s).

(** [r, err := f(); if err != nil { handler }] *)
Definition on_error {W A} (r : result A) (handler : goerr -> P W A) : P W A :=
  match r with Ok a => mret a | Err e => handler e end.

(** [if !b { handler }] *)
Definition require {W} (b : bool) (handler : P W unit) : P W unit := if b then mret tt else handler.

Section Core.
Context {W DB : Type} `{Host W} (sha256 : string -> string).

Definition with_world (w : W) (s : state W) : state W := {|
  st_world := w; st_global := st_global s; st_bindings := st_bindings s; st_queryShapes := st_queryShapes s; st_trace := st_trace s |}.
Definition log_action (a : action) (s : state W) : state W := {|
  st_world := st_world s; st_global := st_global s; st_bindings := st_bindings s; st_queryShapes := st_queryShapes s;
  st_trace := st_trace s ++ [a] |}.
Definition with_gates (global : gate) (bindings : gmap BindingKey gate) (s : state W) : state W := {|
  st_world := st_world s; st_global := global; st_bindings := bindings; st_queryShapes := st_queryShapes s; st_trace := st_trace s |}.
Definition with_shapes (shapes : gmap BindingKey QueryShapeDiscovery) (s : state W) : state W := {|
  st_world := st_world s; st_global := st_global s; st_bindings := st_bindings s; st_queryShapes := shapes; st_trace := st_trace s |}.

(** [s.writeAudit]; the error of a failed write is only wrapped. *)
Definition writeAudit (detached : bool) (event : Event) : P W bool := fun s =>
  let '(ok, w) := sink_write detached event (st_world s) in (inr ok, log_action (Audited detached event ok) (with_world w s)).

(** [if err := s.writeAudit(..); err != nil { return &Error{Kind: ErrorServiceUnavailable} }] *)
Definition audited (detached : bool) (event : Event) : P W unit :=
  ok ← writeAudit detached event; if ok : bool then mret tt else fail audit_unavailable.

Definition time_now : P W Z := fun s => (inr (clock (st_world s)), s).

(** [durationMilliseconds] *)
Definition durationMilliseconds (started : Z) : P W Z := fun s => (inr (Z.quot (clock (st_world s) - started) 1000000), s).

(** ** Capacity *)

(** The two sends of [acquireCapacity], neither of which waits; a binding without a
    gate, or whose gate is full, gives the global token back. *)
Definition acquireCapacity (key : BindingKey) : P W bool := fun s =>
  let '(ok, s') :=
    match send (st_global s) with
    | None => (false, s)
    | Some global =>
        match st_bindings s !! key with
        | None => (false, with_gates (receive global) (st_bindings s) s)
        | Some profileGate =>
            match send profileGate with
            | Some profileGate => (true, with_gates global (<[key := profileGate]> (st_bindings s)) s)
            | None => (false, with_gates (receive global) (st_bindings s) s)
            end
        end
    end in
  (inr ok, log_action (Acquired key ok) s').

Definition releaseCapacity (key : BindingKey) (s : state W) : state W :=
  let bindings := match st_bindings s !! key with Some g => <[key := receive g]> (st_bindings s) | None => st_bindings s end in
  log_action (Released key) (with_gates (receive (st_global s)) bindings s).

(** [defer releaseCapacity()] and the rest of the function. *)
Definition holding {A} (key : BindingKey) (rest : P W A) : P W A := fun s =>
  let '(r, s') := rest s in (r, releaseCapacity key s').

Context (sv : Service W DB).

(** ** The manager *)

(** The manager's method for a grant, with what it answers. *)
Definition method_answer (g : grant) : Type :=
  match g with
  | GrantExplain _ => ExplainResult
  | GrantSelect _ => SelectAnswer
  | GrantAggregate _ _ => AggregateAnswer
  | GrantKeyset _ _ => KeysetAnswer
  | GrantObjects _ => list SchemaObject
  | GrantObject _ => ObjectDescription
  | GrantStatistics _ _ => ObjectStatisticsResult
  end.
Definition method_of (g : grant) : W -> named (method_answer g) * W :=
  match g with
  | GrantExplain query => manager_Explain (sv_databases sv) query
  | GrantSelect query => manager_Select (sv_databases sv) query
  | GrantAggregate query envelopeBaseBytes => manager_Aggregate (sv_databases sv) query envelopeBaseBytes
  | GrantKeyset query budget => manager_SelectKeyset (sv_databases sv) query budget
  | GrantObjects authorized => manager_ListObjects (sv_databases sv) authorized
  | GrantObject authorized => manager_DescribeObject (sv_databases sv) authorized
  | GrantStatistics authorized envelopeBaseBytes => manager_DescribeObjectStatistics (sv_databases sv) authorized envelopeBaseBytes
  end.

(** [s.databases.Explain(ctx, authorized)] and its like: what the trace names is what the manager is given. *)
Definition call (g : grant) : P W (named (method_answer g)) := fun s =>
  let '(r, w) := method_of g (st_world s) in (inr r, log_action (Called g) (with_world w s)).

Definition probe (datasource : string) : P W (result IdentifierSemantics) := fun s =>
  let '(r, w) := manager_IdentifierSemantics (sv_databases sv) datasource (st_world s) in
  (inr r, log_action (Probed datasource r) (with_world w s)).

Definition adapter_of (binding : AuthorizedBinding) : string := AdapterName (sv_databases sv) (k_datasource (ab_key binding)).
Definition capable_of (binding : AuthorizedBinding) (operation : string) : bool :=
  contains (Capabilities (sv_databases sv) (k_datasource (ab_key binding))) operation.
Definition featured (binding : AuthorizedBinding) (feature : string) : bool :=
  contains (Features (sv_databases sv) (k_datasource (ab_key binding))) feature.

(** Every discovery of the datasource that was made under other semantics is dropped. *)
Definition still_valid (datasource : string) (semantics : IdentifierSemantics) (d : QueryShapeDiscovery) : bool :=
  negb (String.eqb (dc_datasource d) datasource) || MatchesSemantics d semantics.

Definition observeIdentifierSemantics (key : BindingKey) (semantics : IdentifierSemantics) : P W unit := fun s =>
  (inr tt, with_shapes (filter (fun kv => still_valid (k_datasource key) semantics kv.2 = true) (st_queryShapes s)) s).

(** ** Audit events *)

(** The members that an event of the service may have, in the order of [audit.Event]. *)
Definition service_event (who : caller) (type profile datasource adapter operation decision reason outcome errorKind : string)
    (duration : option Z) (resultBytes : Z) (shapeHash : string) (resources : list Resource) (fields : list string)
    (meta : gmap string metadata) : Event := {|
  ev_timestamp := ev_timestamp no_event; ev_type := type; ev_request_id := cl_requestID who; ev_query_id := cl_queryID who;
  ev_principal := cl_principal who; ev_client_identifier := cl_clientIdentifier who; ev_policy_profile := profile;
  ev_policy_version := sn_version (sv_policy sv); ev_policy_hash := sn_hash (sv_policy sv); ev_datasource := datasource;
  ev_adapter := adapter; ev_operation := operation; ev_decision := decision; ev_reason_code := reason; ev_outcome := outcome;
  ev_error_kind := errorKind; ev_duration_ms := duration; ev_result_bytes := resultBytes; ev_query_shape_hash := shapeHash;
  ev_public_shape_set_hash := EmptyString; ev_shape_count := 0; ev_requested_profile_hash := EmptyString;
  ev_requested_profile_bytes := 0; ev_requested_datasource_hash := EmptyString; ev_requested_datasource_bytes := 0;
  ev_resources := resources; ev_fields := fields; ev_metadata := meta |}.

(** An event about names that are not attributed to any binding: only their digests
    and lengths are kept. *)
Definition requested_names (profileHash datasourceHash : string) (profileBytes datasourceBytes : Z) (e : Event) : Event := {|
  ev_timestamp := ev_timestamp e; ev_type := ev_type e; ev_request_id := ev_request_id e; ev_query_id := ev_query_id e;
  ev_principal := ev_principal e; ev_client_identifier := ev_client_identifier e; ev_policy_profile := ev_policy_profile e;
  ev_policy_version := ev_policy_version e; ev_policy_hash := ev_policy_hash e; ev_datasource := ev_datasource e;
  ev_adapter := ev_adapter e; ev_operation := ev_operation e; ev_decision := ev_decision e; ev_reason_code := ev_reason_code e;
  ev_outcome := ev_outcome e; ev_error_kind := ev_error_kind e; ev_duration_ms := ev_duration_ms e;
  ev_result_bytes := ev_result_bytes e; ev_query_shape_hash := ev_query_shape_hash e;
  ev_public_shape_set_hash := ev_public_shape_set_hash e; ev_shape_count := ev_shape_count e;
  ev_requested_profile_hash := profileHash; ev_requested_profile_bytes := profileBytes;
  ev_requested_datasource_hash := datasourceHash; ev_requested_datasource_bytes := datasourceBytes;
  ev_resources := ev_resources e; ev_fields := ev_fields e; ev_metadata := ev_metadata e |}.

Definition requestedProfileHashDomain : string := "quordon/requested-profile/v1" +:+ nul.
Definition requestedDatasourceHashDomain : string := "quordon/requested-datasource/v1" +:+ nul.

(** [hashStringWriter.WriteString] hands the text to the digest in blocks of 64 bytes;
    the fuel is the length of the text. *)
Fixpoint blocks (fuel : nat) (value : string) : list string :=
  match fuel with
  | O => []
  | S fuel' => if String.eqb value EmptyString then [] else stake 64 value :: blocks fuel' (sdrop 64 value)
  end.
Definition written (value : string) : string := sconcat (blocks (String.length value) value).

Definition auditIdentifierHash (domain identifier : string) : string := hex_text (sha256 (written domain +:+ written identifier)).

Definition decision_type (who : caller) : string :=
  if nonempty (cl_queryID who) then "query_decision" else "operation_decision".

Definition denial_event (who : caller) (profile datasource operation reason shapeHash : string) : Event :=
  match AuthorizeBinding (sv_policy sv) (cl_principal who) profile datasource operation with
  | Ok binding =>
      service_event who (decision_type who) (k_profile (ab_key binding)) (k_datasource (ab_key binding)) (adapter_of binding)
        operation "deny" reason EmptyString EmptyString None 0 shapeHash [] [] ∅
  | Err _ =>
      requested_names (auditIdentifierHash requestedProfileHashDomain profile)
        (auditIdentifierHash requestedDatasourceHashDomain datasource) (slen profile) (slen datasource)
        (service_event who (decision_type who) EmptyString EmptyString EmptyString operation "deny" reason EmptyString EmptyString
           None 0 shapeHash [] [] ∅)
  end.

(** [writeDenial], with the error that its callers return when the write fails. *)
Definition writeDenial (who : caller) (profile datasource operation reason shapeHash : string) : P W unit :=
  audited true (denial_event who profile datasource operation reason shapeHash).

Definition allow_event (who : caller) (type profile datasource adapter operation : string) (resources : list Resource)
    (fields : list string) (shapeHash : string) (meta : gmap string metadata) : Event :=
  service_event who type profile datasource adapter operation "allow" EmptyString EmptyString EmptyString None 0
    shapeHash resources fields meta.

Definition writeAllowDecisionWithMetadata (who : caller) (profile datasource adapter operation : string)
    (resources : list Resource) (fields : list string) (shapeHash : string) (meta : gmap string metadata) : P W unit :=
  audited false (allow_event who (decision_type who) profile datasource adapter operation resources fields shapeHash meta).

Definition writeAllowDecision (who : caller) (profile datasource adapter operation : string) (resources : list Resource)
    (fields : list string) (shapeHash : string) : P W unit :=
  writeAllowDecisionWithMetadata who profile datasource adapter operation resources fields shapeHash ∅.

(** The events that report how an operation ended. *)
Definition completion_event (who : caller) (type profile datasource adapter operation outcome errorKind : string)
    (duration : option Z) (resultBytes : Z) (shapeHash : string) (resources : list Resource) (fields : list string)
    (meta : gmap string metadata) : Event :=
  service_event who type profile datasource adapter operation EmptyString EmptyString outcome errorKind duration resultBytes
    shapeHash resources fields meta.

Definition query_completion : string := "query_completion".
Definition operation_completion : string := "operation_completion".

(** [completeQueryError] and [completeSchemaError]: the error to return. *)
Definition complete_error (type : string) (who : caller) (profile datasource adapter operation shapeHash : string)
    (resources : list Resource) (fields : list string) (meta : gmap string metadata) (started : Z) (databaseErr : goerr)
  : P W service_error :=
  duration ← durationMilliseconds started;
  ok ← writeAudit true (completion_event who type profile datasource adapter operation "error"
         (classifyDatabaseAuditError databaseErr) (Some duration) 0 shapeHash resources fields meta);
  mret (if ok : bool then mapDatabaseError databaseErr else audit_unavailable).

Definition completeQueryError (who : caller) (profile datasource adapter operation shapeHash : string)
    (resources : list Resource) (fields : list string) (meta : gmap string metadata) (started : Z) (databaseErr : goerr)
  : P W service_error :=
  complete_error query_completion who profile datasource adapter operation shapeHash resources fields meta started databaseErr.

Definition completeSchemaError (who : caller) (profile datasource adapter operation : string)
    (resources : list Resource) (fields : list string) (started : Z) (databaseErr : goerr) : P W service_error :=
  complete_error operation_completion who profile datasource adapter operation EmptyString resources fields ∅ started databaseErr.

(** [return ..., s.completeQueryError(...)] *)
Definition fail_with {A} (m : P W service_error) : P W A := e ← m; fail e.

(** ** Steps that several operations share *)

Definition AllowsSourceText (snapshot : Snapshot) (profile : string) : bool :=
  from_option (fun p => AllowSourceText (pf_query p)) false (sn_profiles snapshot !! profile).

(** No binding, no service. *)
Definition assignedBinding (who : caller) (profile datasource operation : string) : P W AuthorizedBinding :=
  on_error (AuthorizeBinding (sv_policy sv) (cl_principal who) profile datasource operation)
    (fun _ => writeDenial who profile datasource operation ReasonDeniedOperation EmptyString ≫= fun _ =>
              fail (denied_for ReasonDeniedOperation)).

Definition precheckSourceText (who : caller) (binding : AuthorizedBinding) (operation shapeHash : string) (used : bool) : P W unit :=
  if negb used then mret tt
  else
    started ← time_now;
    if negb (AllowsSourceText (sv_policy sv) (k_profile (ab_key binding))) then
      writeDenial who (k_profile (ab_key binding)) (k_datasource (ab_key binding)) operation ReasonDeniedQueryFeature shapeHash ≫= fun _ =>
      fail (denied_for ReasonDeniedQueryFeature)
    else if negb (featured binding FeatureSourceText) then
      duration ← durationMilliseconds started;
      audited true (completion_event who query_completion (k_profile (ab_key binding)) (k_datasource (ab_key binding))
        (adapter_of binding) operation "not_implemented" EmptyString (Some duration) 0 shapeHash [] [] ∅) ≫= fun _ =>
      fail (fault "not_implemented")
    else mret tt.

(** What is written when the adapter does not offer the operation. *)
Definition not_offered {A} (who : caller) (type profile : string) (binding : AuthorizedBinding) (operation shapeHash : string) : P W A :=
  audited true (completion_event who type profile (k_datasource (ab_key binding)) (adapter_of binding) operation
    "not_implemented" EmptyString None 0 shapeHash [] [] ∅) ≫= fun _ =>
  fail (fault "not_implemented").

(** What is written when the policy denies the query. *)
Definition refused_by_policy {A} (who : caller) (binding : AuthorizedBinding) (operation reason shapeHash : string) (e : service_error) : P W A :=
  writeDenial who (k_profile (ab_key binding)) (k_datasource (ab_key binding)) operation reason shapeHash ≫= fun _ => fail e.
End Core.
