(* ===== verification/Service.v ===== *)
(** The operations of the query service that answer queries and describe schemas
    (internal/queryservice/service.go, operations.go, aggregate.go): [Explain], [Select],
    [ListObjects], [DescribeObject] and [Aggregate], each from the request to the
    answer, with every audit event, gate and call on the way. *)
From S2P Require Import Prelude Domain GoJson Number Portable Values QuerySpec Config Policy Sql Rows Aggregate AggregateNormal NumericBucket SqlAggregate PolicyAggregate Keyset KeysetBinds PolicyKeyset SqlKeyset KeysetRows PublicShapes Discovery AuditEvents ShapeHash Driver Session KeysetSession Manager ServiceCore.
Local Open Scope string_scope.
Local Open Scope Z_scope.

(** ** Requests and answers *)

Record Request := { rq_profile : string; rq_datasource : string; rq_query : Spec }.
Record AggregateRequest := { gq_profile : string; gq_datasource : string; gq_query : AggregateSpec }.

(** The members that the answers to queries share; the warnings are always empty. *)
Record envelope := {
  en_queryID : string; en_profile : string; en_policyVersion : string; en_datasource : string; en_adapter : string; en_limits : Limits;
}.

Record ExplainAnswer := { xa_envelope : envelope; xa_result : ExplainResult }.
Record SelectResponse := { la_envelope : envelope; la_result : Session.SelectAnswer }.
Record AggregateResponse := { ga_envelope : envelope; ga_result : Session.AggregateAnswer }.
Record ObjectListResult := {
  ol_profile : string; ol_policyVersion : string; ol_datasource : string; ol_adapter : string; ol_schema : string;
  ol_objects : list SchemaObject;
}.
Record ObjectDescriptionResult := {
  or_profile : string; or_policyVersion : string; or_datasource : string; or_adapter : string; or_description : ObjectDescription;
}.

Definition resource_of (source : ResourceRef) : list Resource := [{| re_schema := r_schema source; re_object := r_name source |}].

(** ** Sizes of schema answers *)

(** [addBoundedSize]; [None] is the Go pair [(0, false)]. *)
Definition addBoundedSize (current increment maximum : Z) : option Z :=
  if (current <? 0) || (increment <? 0) || (maximum <? current) || (maximum - current <? increment) then None
  else Some (current + increment).

(** [encodedJSONStringSize] of this package. *)
Definition string_size (value : string) : Z := fold_left (fun size r => size + rune_encoded_bytes r) (runes value) 2.
Definition encodedJSONBooleanSize (value : bool) : Z := if value then slen "true" else slen "false".

Definition or_too_large (size : option Z) : result Z := match size with Some n => Ok n | None => Err result_too_large end.

Definition boundedObjectListResult (objects : list SchemaObject) (maxResultBytes : Z) : result Z :=
  let? size := or_too_large (addBoundedSize 0 (slen (lit "{'objects':[]}")) maxResultBytes) in
  iter (fun index object size =>
          let increment := slen (lit "{'name':}") + string_size (so_name object) + (if index =? 0 then 0 else 1) in
          or_too_large (addBoundedSize size increment maxResultBytes)) objects size.

Definition encodedColumnDescriptionSize (column : ColumnDescription) : Z :=
  slen (lit "{'name':,'type':,'native_type':,'nullable':,'primary_key':,'indexed':}") +
  string_size (cd_name column) + string_size (cd_type column) + string_size (cd_native_type column) +
  encodedJSONBooleanSize (cd_nullable column) + encodedJSONBooleanSize (cd_primary_key column) +
  encodedJSONBooleanSize (cd_indexed column).

Definition boundedObjectDescriptionResult (description : ObjectDescription) (maxResultBytes : Z) : result Z :=
  let size := slen (lit "{'schema':,'name':,'columns':[]}") + string_size (od_schema description) + string_size (od_name description) in
  if? maxResultBytes <? size return result_too_large then
  iter (fun index column size =>
          or_too_large (addBoundedSize size (encodedColumnDescriptionSize column + (if index =? 0 then 0 else 1)) maxResultBytes))
    (od_columns description) size.

(** ** The envelope of an aggregate *)

Definition limits_json (l : Limits) : json := struct_json [
  (true, "deadline_ms", JInt (DeadlineMS l)); (true, "max_request_bytes", JInt (MaxRequestBytes l));
  (true, "max_projection_fields", JInt (MaxProjectionFields l)); (true, "max_group_by_fields", JInt (MaxGroupByFields l));
  (true, "max_order_by_fields", JInt (MaxOrderByFields l)); (true, "max_predicates", JInt (MaxPredicates l));
  (true, "max_expression_depth", JInt (MaxExpressionDepth l)); (true, "max_parameters", JInt (MaxParameters l));
  (true, "max_rows", JInt (MaxRows l)); (true, "max_result_bytes", JInt (MaxResultBytes l));
  (true, "max_offset", JInt (MaxOffset l)); (true, "max_concurrency", JInt (MaxConcurrency l))].

Definition aggregate_answer_json (mode : string) (e : envelope) (columns : list ResultColumn) (rows : list raw_row) (rowCount : Z)
    (truncated : bool) : json := struct_json [
  text_field "mode" mode; text_field "query_id" (en_queryID e); text_field "policy_profile" (en_profile e);
  text_field "policy_version" (en_policyVersion e); text_field "datasource" (en_datasource e); text_field "adapter" (en_adapter e);
  (true, "columns", JArr (map column_json columns)); (true, "rows", JArr (map row_json rows)); (true, "row_count", JInt rowCount);
  (true, "truncated", JBool truncated); (true, "limits", limits_json (en_limits e)); (true, "warnings", JArr [])].

Definition aggregateEnvelopeBaseBytes (mode : string) (e : envelope) : Z :=
  slen (marshal (aggregate_answer_json mode e [] [] (if String.eqb mode AggregateModeScalar then 1 else 0) false)).

Section Operations.
Context {W DB : Type} `{Host W} (sha256 : string -> string) (sv : Service W DB).
Context (who : caller).

Definition envelope_of (profile datasource adapter : string) (limits : Limits) : envelope := {|
  en_queryID := cl_queryID who; en_profile := profile; en_policyVersion := sn_version (sv_policy sv);
  en_datasource := datasource; en_adapter := adapter; en_limits := limits |}.

(** ** Explain *)

Definition Explain (bodyBytes : Z) (request : Request) : P W ExplainAnswer :=
  binding ← assignedBinding sha256 sv who (rq_profile request) (rq_datasource request) OperationExplainSelect;
  let limits := ab_limits binding in
  let datasource := k_datasource (ab_key binding) in
  require (bodyBytes <=? MaxRequestBytes limits) (fail (fault "too_large")) ≫= fun _ =>
  validated ← on_error (Validate (rq_query request) (select_limits limits)) (fun _ => fail (fault "invalid"));
  let hash := ShapeHash sha256 (v_spec validated) in
  precheckSourceText sha256 sv who binding OperationExplainSelect hash (UsesSourceText (v_spec validated)) ≫= fun _ =>
  let adapterName := adapter_of sv binding in
  require (capable_of sv binding OperationExplainSelect)
    (not_offered sv who query_completion (rq_profile request) binding OperationExplainSelect hash) ≫= fun _ =>
  semanticsStarted ← time_now;
  probed ← probe sv datasource;
  semantics ← on_error probed (fun e => fail_with
    (complete_error sv query_completion who (rq_profile request) datasource adapterName OperationExplainSelect hash [] [] ∅ semanticsStarted e));
  observeIdentifierSemantics (ab_key binding) semantics ≫= fun _ =>
  authorized ← on_error (AuthorizeExplain (sv_policy sv) binding validated semantics) (fun e =>
    let reason := denial_reason ReasonDeniedOperation e in
    refused_by_policy sha256 sv who binding OperationExplainSelect reason hash (denied_for reason));
  let resources := resource_of (n_source (v_spec (aq_query authorized))) in
  let fields := referencedFields (v_spec (aq_query authorized)) in
  audited false (allow_event sv who "query_decision" (rq_profile request) datasource adapterName OperationExplainSelect resources fields hash ∅) ≫= fun _ =>
  ok ← acquireCapacity (ab_key binding);
  require ok (fail (fault "capacity")) ≫= fun _ =>
  holding (ab_key binding)
    (started ← time_now;
     answer ← call sv (GrantExplain authorized);
     let '(databaseResult, adapterName) := answer in
     duration ← durationMilliseconds started;
     let outcome := match databaseResult with Ok _ => ("success", EmptyString) | Err e => ("error", classifyDatabaseAuditError e) end in
     let bytes := match databaseResult with Ok r => slen (er_plan r) | Err _ => 0 end in
     audited true (completion_event sv who query_completion (rq_profile request) datasource adapterName OperationExplainSelect
       outcome.1 outcome.2 (Some duration) bytes hash resources fields ∅) ≫= fun _ =>
     r ← on_error databaseResult (fun e => fail (mapDatabaseError e));
     mret {| xa_envelope := envelope_of (rq_profile request) datasource adapterName limits; xa_result := r |}).

(** ** Select *)

Definition select_metadata (rowCount : Z) (truncated : bool) : gmap string metadata :=
  {[ "row_count" := MetaInt rowCount; "truncated" := MetaBool truncated ]}.

Definition Select (bodyBytes : Z) (request : Request) : P W SelectResponse :=
  binding ← assignedBinding sha256 sv who (rq_profile request) (rq_datasource request) OperationSelect;
  let limits := ab_limits binding in
  let datasource := k_datasource (ab_key binding) in
  require (bodyBytes <=? MaxRequestBytes limits) (fail (fault "too_large")) ≫= fun _ =>
  validated ← on_error (Validate (rq_query request) (select_limits limits)) (fun _ => fail (fault "invalid"));
  on_error (ValidateSimpleSelect validated) (fun _ => fail (fault "invalid")) ≫= fun _ =>
  let hash := ShapeHash sha256 (v_spec validated) in
  precheckSourceText sha256 sv who binding OperationSelect hash (UsesSourceText (v_spec validated)) ≫= fun _ =>
  let adapterName := adapter_of sv binding in
  require (capable_of sv binding OperationSelect)
    (not_offered sv who query_completion (rq_profile request) binding OperationSelect hash) ≫= fun _ =>
  semanticsStarted ← time_now;
  probed ← probe sv datasource;
  semantics ← on_error probed (fun e => fail_with
    (completeQueryError sv who (rq_profile request) datasource adapterName OperationSelect hash [] [] ∅ semanticsStarted e));
  observeIdentifierSemantics (ab_key binding) semantics ≫= fun _ =>
  authorized ← on_error (AuthorizeSelect (sv_policy sv) binding validated semantics) (fun e =>
    let reason := denial_reason ReasonDeniedOperation e in
    refused_by_policy sha256 sv who binding OperationSelect reason hash (denied_for reason));
  let resources := resource_of (n_source (v_spec (aq_query authorized))) in
  let fields := referencedFields (v_spec (aq_query authorized)) in
  writeAllowDecision sv who (rq_profile request) datasource adapterName OperationSelect resources fields hash ≫= fun _ =>
  ok ← acquireCapacity (ab_key binding);
  require ok (fail (fault "capacity")) ≫= fun _ =>
  holding (ab_key binding)
    (started ← time_now;
     answer ← call sv (GrantSelect authorized);
     let '(databaseResult, adapterName) := answer in
     r ← on_error databaseResult (fun e => fail_with
       (completeQueryError sv who (rq_profile request) datasource adapterName OperationSelect hash resources fields ∅ started e));
     duration ← durationMilliseconds started;
     audited true (completion_event sv who query_completion (rq_profile request) datasource adapterName OperationSelect
       "success" EmptyString (Some duration) (sr_bytes (sa_result r)) hash resources fields
       (select_metadata (sa_rowCount r) (sr_truncated (sa_result r)))) ≫= fun _ =>
     mret {| la_envelope := envelope_of (rq_profile request) datasource adapterName limits; la_result := r |}).

(** ** Schema operations *)

Definition validSchemaCoordinates (operation schema object : string) : bool :=
  if String.eqb operation OperationListObjects then IsIdentifier schema && negb (nonempty object)
  else if String.eqb operation OperationDescribeObject then IsIdentifier schema && IsIdentifier object
  else false.

Definition prepareSchemaOperation (profile datasource operation schema object : string) : P W AuthorizedBinding :=
  require (validSchemaCoordinates operation schema object) (fail (fault "invalid")) ≫= fun _ =>
  binding ← assignedBinding sha256 sv who profile datasource operation;
  require (capable_of sv binding operation) (not_offered sv who operation_completion profile binding operation EmptyString) ≫= fun _ =>
  mret binding.

Definition found_metadata (name : string) (n : Z) : gmap string metadata := {[ name := MetaInt n ]}.

(** What both schema operations do before they call the database. *)
Definition authorized_schema (profile operation : string) (binding : AuthorizedBinding)
    (authorize : IdentifierSemantics -> result AuthorizedSchema) : P W AuthorizedSchema :=
  let datasource := k_datasource (ab_key binding) in
  semanticsStarted ← time_now;
  probed ← probe sv datasource;
  semantics ← on_error probed (fun e => fail_with
    (completeSchemaError sv who profile datasource (adapter_of sv binding) operation [] [] semanticsStarted e));
  observeIdentifierSemantics (ab_key binding) semantics ≫= fun _ =>
  on_error (authorize semantics) (fun e =>
    refused_by_policy sha256 sv who binding operation (denial_reason ReasonDeniedOperation e) EmptyString (fault "not_found")).

Definition ListObjects (profile datasource schema : string) : P W ObjectListResult :=
  binding ← prepareSchemaOperation profile datasource OperationListObjects schema EmptyString;
  let limits := ab_limits binding in
  let datasource := k_datasource (ab_key binding) in
  authorized ← authorized_schema profile OperationListObjects binding (AuthorizeListObjects (sv_policy sv) binding schema);
  let resources := [{| re_schema := schema; re_object := EmptyString |}] in
  writeAllowDecision sv who profile datasource (adapter_of sv binding) OperationListObjects resources [] EmptyString ≫= fun _ =>
  ok ← acquireCapacity (ab_key binding);
  require ok (fail (fault "capacity")) ≫= fun _ =>
  holding (ab_key binding)
    (started ← time_now;
     answer ← call sv (GrantObjects authorized);
     let '(databaseResult, adapterName) := answer in
     let complete_error := completeSchemaError sv who profile datasource adapterName OperationListObjects resources [] started in
     objects ← on_error databaseResult (fun e => fail_with (complete_error e));
     resultBytes ← on_error (boundedObjectListResult objects (MaxResultBytes limits)) (fun e => fail_with (complete_error e));
     duration ← durationMilliseconds started;
     audited true (completion_event sv who operation_completion profile datasource adapterName OperationListObjects
       "success" EmptyString (Some duration) resultBytes EmptyString resources [] (found_metadata "object_count" (len objects))) ≫= fun _ =>
     mret {| ol_profile := profile; ol_policyVersion := sn_version (sv_policy sv); ol_datasource := datasource;
             ol_adapter := adapterName; ol_schema := schema; ol_objects := objects |}).

(** A description of what the database finds invalid is not found, unless the
    completion could not be written. *)
Definition describe_error (databaseErr : goerr) (completionErr : service_error) : service_error :=
  if IsKind databaseErr "invalid" then
    if String.eqb (se_kind completionErr) "service_unavailable" then completionErr else fault "not_found"
  else completionErr.

Definition DescribeObject (profile datasource : string) (object : ResourceRef) : P W ObjectDescriptionResult :=
  binding ← prepareSchemaOperation profile datasource OperationDescribeObject (r_schema object) (r_name object);
  let limits := ab_limits binding in
  let datasource := k_datasource (ab_key binding) in
  authorized ← authorized_schema profile OperationDescribeObject binding (AuthorizeDescribeObject (sv_policy sv) binding object);
  let resources := resource_of object in
  writeAllowDecision sv who profile datasource (adapter_of sv binding) OperationDescribeObject resources [] EmptyString ≫= fun _ =>
  ok ← acquireCapacity (ab_key binding);
  require ok (fail (fault "capacity")) ≫= fun _ =>
  holding (ab_key binding)
    (started ← time_now;
     answer ← call sv (GrantObject authorized);
     let '(databaseResult, adapterName) := answer in
     description ← on_error databaseResult (fun e =>
       completionErr ← completeSchemaError sv who profile datasource adapterName OperationDescribeObject resources [] started e;
       fail (describe_error e completionErr));
     let fields := compact (sort_func bytes_le (map cd_name (od_columns description))) in
     resultBytes ← on_error (boundedObjectDescriptionResult description (MaxResultBytes limits)) (fun e => fail_with
       (completeSchemaError sv who profile datasource adapterName OperationDescribeObject resources fields started e));
     duration ← durationMilliseconds started;
     audited true (completion_event sv who operation_completion profile datasource adapterName OperationDescribeObject
       "success" EmptyString (Some duration) resultBytes EmptyString resources fields
       (found_metadata "column_count" (len (od_columns description)))) ≫= fun _ =>
     mret {| or_profile := profile; or_policyVersion := sn_version (sv_policy sv); or_datasource := datasource;
             or_adapter := adapterName; or_description := description |}).

(** ** Aggregate *)

Definition aggregateAuditMetadata (authorized : AuthorizedAggregate) (mode : string) : gmap string metadata :=
  {[ "mode" := MetaString mode; "aggregate_shape" := MetaString (aa_shapeName authorized) ]}.

Definition aggregate_success_metadata (authorized : AuthorizedAggregate) (r : Session.AggregateAnswer) : gmap string metadata :=
  {[ "mode" := MetaString (an_mode r); "row_count" := MetaInt (an_rowCount r);
     "truncated" := MetaBool (ar_truncated (an_result r)); "aggregate_shape" := MetaString (aa_shapeName authorized) ]}.

(** Whether the adapter has what the query needs. *)
Definition aggregate_offered (binding : AuthorizedBinding) (spec : NormalizedAggregateSpec) : bool :=
  capable_of sv binding OperationAggregate &&
  (negb (AggregateUsesTimeBucket spec) || featured sv binding "time_bucket_utc") &&
  (negb (AggregateUsesNumericBucket spec) || featured sv binding "numeric_bucket_exact").

Definition Aggregate (bodyBytes : Z) (request : AggregateRequest) : P W AggregateResponse :=
  validated ← on_error (ValidateAggregate (gq_query request) (aggregate_limits_of (sn_hardLimits (sv_policy sv))))
    (fun _ => fail (fault "invalid"));
  binding ← assignedBinding sha256 sv who (gq_profile request) (gq_datasource request) OperationAggregate;
  let limits := ab_limits binding in
  let datasource := k_datasource (ab_key binding) in
  let profile := gq_profile request in
  require (bodyBytes <=? MaxRequestBytes limits) (fail (fault "too_large")) ≫= fun _ =>
  validated ← on_error (RevalidateAggregate validated (aggregate_limits_of limits)) (fun _ => fail (fault "invalid"));
  let hash := AggregateShapeHash sha256 (va_spec validated) in
  precheckSourceText sha256 sv who binding OperationAggregate hash (AggregateUsesSourceText (va_spec validated)) ≫= fun _ =>
  let adapterName := adapter_of sv binding in
  require (aggregate_offered binding (va_spec validated))
    (not_offered sv who query_completion profile binding OperationAggregate hash) ≫= fun _ =>
  semanticsStarted ← time_now;
  probed ← probe sv datasource;
  let mode := {[ "mode" := MetaString (g_mode (gq_query request)) ]} in
  let complete_error hash := completeQueryError sv who profile datasource adapterName OperationAggregate hash [] [] mode semanticsStarted in
  semantics ← on_error probed (fun e => fail_with (complete_error hash e));
  observeIdentifierSemantics (ab_key binding) semantics ≫= fun _ =>
  normalized ← on_error (NormalizeAggregateIdentifiers sha256 validated semantics) (fun _ => fail_with (complete_error hash invalid_error));
  let hash := AggregateShapeHash sha256 (va_spec normalized) in
  authorized ← on_error (AuthorizeAggregate sha256 (sv_policy sv) binding normalized semantics) (fun e =>
    if is_denial e
    then refused_by_policy sha256 sv who binding OperationAggregate (denial_reason EmptyString e) hash (denied_for (denial_reason EmptyString e))
    else fail_with (complete_error hash invalid_error));
  let spec := va_spec (aa_query authorized) in
  let hash := AggregateShapeHash sha256 spec in
  let resources := resource_of (a_source spec) in
  let fields := AggregateReferencedFields spec in
  let meta := aggregateAuditMetadata authorized (a_mode spec) in
  writeAllowDecision sv who profile datasource adapterName OperationAggregate resources fields hash ≫= fun _ =>
  let baseBytes := aggregateEnvelopeBaseBytes (a_mode spec) (envelope_of profile datasource adapterName limits) in
  require (baseBytes <=? MaxResultBytes limits)
    (started ← time_now;
     fail_with (completeQueryError sv who profile datasource adapterName OperationAggregate hash resources fields meta started result_too_large)) ≫= fun _ =>
  ok ← acquireCapacity (ab_key binding);
  require ok
    (capacityStarted ← time_now;
     duration ← durationMilliseconds capacityStarted;
     audited true (completion_event sv who query_completion profile datasource adapterName OperationAggregate "error" "capacity"
       (Some duration) 0 hash resources fields meta) ≫= fun _ =>
     fail (fault "capacity")) ≫= fun _ =>
  holding (ab_key binding)
    (started ← time_now;
     answer ← call sv (GrantAggregate authorized baseBytes);
     let '(databaseResult, adapterName) := answer in
     r ← on_error databaseResult (fun e => fail_with
       (completeQueryError sv who profile datasource adapterName OperationAggregate hash resources fields meta started e));
     duration ← durationMilliseconds started;
     audited true (completion_event sv who query_completion profile datasource adapterName OperationAggregate "success" EmptyString
       (Some duration) (ar_bytes (an_result r)) hash resources fields (aggregate_success_metadata authorized r)) ≫= fun _ =>
     mret {| ga_envelope := envelope_of profile datasource adapterName limits; ga_result := r |}).
End Operations.
