(* ===== verification/ServiceKeyset.v ===== *)
(** The keyset selection of the query service (internal/queryservice/keyset.go): the
    response and its byte budget, the checks that a response passes before it is sent,
    and [SelectKeyset] with its audit events. *)
From S2P Require Import Prelude Domain GoJson Number Portable Values QuerySpec Config Policy Sql JsonText Rows Aggregate AggregateNormal NumericBucket SqlAggregate PolicyAggregate Keyset KeysetBinds PolicyKeyset SqlKeyset KeysetRows PublicShapes Discovery AuditEvents ShapeHash Driver Session KeysetSession Manager ServiceCore Service.
Local Open Scope string_scope.
Local Open Scope Z_scope.

(** ** The response *)

Record KeysetPageResult := { kp_hasMore : bool; kp_nextCursor : option (list KeysetCursorValue) }.

(** The warnings are always empty; the rows are never nil. *)
Record KeysetResponse := {
  ky_kind : string; ky_queryID : string; ky_profile : string; ky_policyVersion : string; ky_shape : string; ky_datasource : string;
  ky_adapter : string; ky_columns : list ResultColumn; ky_rows : list raw_row; ky_rowCount : Z; ky_truncated : bool;
  ky_page : KeysetPageResult; ky_limits : Limits;
}.

Definition makeKeysetResponse (queryID profile policyVersion shape datasource adapter : string) (limits : Limits) (r : KeysetAnswer)
  : KeysetResponse := {|
  ky_kind := "keyset"; ky_queryID := queryID; ky_profile := profile; ky_policyVersion := policyVersion; ky_shape := shape;
  ky_datasource := datasource; ky_adapter := adapter; ky_columns := ka_columns r; ky_rows := kt_rows (ka_result r);
  ky_rowCount := kt_rowCount (ka_result r); ky_truncated := kt_hasMore (ka_result r);
  ky_page := {| kp_hasMore := kt_hasMore (ka_result r);
                kp_nextCursor := if kt_hasMore (ka_result r) then Some (kt_nextCursor (ka_result r)) else None |};
  ky_limits := limits |}.

Definition page_json (page : KeysetPageResult) : json := struct_json [
  (true, "has_more", JBool (kp_hasMore page));
  (bool_decide (is_Some (kp_nextCursor page)), "next_cursor", cursor_json (default [] (kp_nextCursor page)))].

Definition response_json (r : KeysetResponse) : json := struct_json [
  text_field "kind" (ky_kind r); text_field "query_id" (ky_queryID r); text_field "policy_profile" (ky_profile r);
  text_field "policy_version" (ky_policyVersion r); text_field "shape" (ky_shape r); text_field "datasource" (ky_datasource r);
  text_field "adapter" (ky_adapter r); (true, "columns", JArr (map column_json (ky_columns r)));
  (true, "rows", JArr (map row_json (ky_rows r))); (true, "row_count", JInt (ky_rowCount r));
  (true, "truncated", JBool (ky_truncated r)); (true, "page", page_json (ky_page r));
  (true, "limits", limits_json (ky_limits r)); (true, "warnings", JArr [])].

(** [json.Marshal(response)], which cannot fail: all texts are strings. *)
Definition payload_of (r : KeysetResponse) : string := marshal (response_json r).

(** An answer without rows. *)
Definition empty_answer (hasMore : bool) : KeysetAnswer := {|
  ka_columns := []; ka_result := {| kt_rows := []; kt_rowCount := 0; kt_hasMore := hasMore; kt_nextCursor := []; kt_bytes := 0 |} |}.

Definition keysetEnvelopeBudget (queryID profile policyVersion shape datasource adapter : string) (limits : Limits) : KeysetEnvelopeBudget :=
  let base hasMore := slen (payload_of (makeKeysetResponse queryID profile policyVersion shape datasource adapter limits (empty_answer hasMore))) in
  {| FinalBaseBytes := base false; MoreBaseBytes := base true |}.

(** ** The checks of a response *)

Definition leading_byte (c : ascii) (s : string) : bool := bool_decide (byte_at 0 s = Some c).

Definition canonical_base64 (value : string) : option string :=
  decoded ← base64_decode value; if String.eqb (base64_encode decoded) value then Some decoded else None.

Definition valid_integer_text (value : string) : bool :=
  if String.eqb value EmptyString || leading_byte "+" value || String.eqb value "-0" || (20 <? slen value) ||
     ((1 <? slen value) && leading_byte "0" value) then false
  else if leading_byte "-" value then
    bool_decide (is_Some (ParseInt 64 value)) && (1 <? slen value) && negb (bool_decide (byte_at 1 value = Some "0"%char))
  else bool_decide (is_Some (ParseUint 64 value)).

(** The decimals are checked as the adapter checks them. *)
Definition validKeysetResponseCell (value : string) (column : ResultColumn) : bool :=
  let type := rc_type column in
  if String.eqb type "bytes" then bool_decide (is_Some (canonical_base64 value))
  else if String.eqb type "integer" then valid_integer_text value
  else if String.eqb type "decimal" then validDecimalCell value
  else if String.eqb type "string" then valid_utf8 value
  else if String.eqb type "date" then bool_decide (is_Some (ParsePortableDate value))
  else if String.eqb type "datetime" then bool_decide (is_Some (ParsePortableDateTime value))
  else if String.eqb type "time" then ValidPortableTime value
  else if String.eqb type "json" then valid_utf8 value && bool_decide (is_Some (parse_json value))
  else false.

Definition integer_column : ResultColumn := {| rc_name := EmptyString; rc_type := "integer"; rc_encoding := EmptyString; rc_nullable := false |}.

Definition validKeysetResponseCursor (value : KeysetCursorValue) : bool :=
  let text := cv_value value in
  if String.eqb (cv_type value) "integer" then validKeysetResponseCell text integer_column
  else if String.eqb (cv_type value) "string" then valid_utf8 text && (rune_count text <=? ProtocolMaxCursorStringRunes)
  else if String.eqb (cv_type value) "bytes" then from_option (fun decoded => slen decoded <=? ProtocolMaxCursorBytes) false (canonical_base64 text)
  else if String.eqb (cv_type value) "date" then bool_decide (is_Some (ParsePortableDate text))
  else if String.eqb (cv_type value) "datetime" then bool_decide (is_Some (ParsePortableDateTime text))
  else if String.eqb (cv_type value) "timestamp" then bool_decide (is_Some (ParsePortableTimestamp text))
  else false.

Definition keysetCursorMatchesCell (value : KeysetCursorValue) (column : ResultColumn) (cell : string) : bool :=
  if negb (validKeysetResponseCursor value) then false
  else if contains ["integer"; "string"; "bytes"; "date"; "datetime"] (cv_type value) then
    String.eqb (cv_type value) (rc_type column) && String.eqb (cv_value value) cell
  else if String.eqb (cv_type value) "timestamp" then
    if negb (String.eqb (rc_type column) "datetime") then false
    else String.eqb (stake 10 (cv_value value) +:+ " " +:+ stake (String.length (cv_value value) - 12) (sdrop 11 (cv_value value))) cell
  else false.

Definition response_types : list string := ["integer"; "decimal"; "string"; "date"; "datetime"; "time"; "json"].

(** The loop over the columns: [outputs] are the names seen. *)
Definition response_column (item : ResultColumn * Selection) (outputs : list string) : result (list string) :=
  let '(column, projection) := item in
  if? String.eqb (s_representation projection) RepresentationSourceText &&
      (negb (String.eqb (rc_type column) "string") || negb (String.eqb (rc_encoding column) "string"))
  return ErrorString "invalid source_text result column" then
  let expected := if nonempty (s_alias projection) then s_alias projection else s_field projection in
  if? negb (String.eqb (rc_name column) expected) || negb (IsIdentifier (rc_name column))
  return ErrorString "invalid keyset result column" then
  if? contains outputs (rc_name column) return ErrorString "duplicate keyset result column" then
  if? if String.eqb (rc_type column) "bytes" then negb (String.eqb (rc_encoding column) "base64")
      else negb (contains response_types (rc_type column)) || negb (String.eqb (rc_encoding column) "string")
  return ErrorString "invalid keyset result encoding" then
  Ok (rc_name column :: outputs).

Definition response_cell (item : option string * ResultColumn) : error :=
  let '(value, column) := item in
  match value with
  | None => if? negb (rc_nullable column) return ErrorString "invalid null keyset cell" then nil_error
  | Some value => if? negb (validKeysetResponseCell value column) return ErrorString "invalid keyset cell" then nil_error
  end.

Definition response_row (columns : list ResultColumn) (row : raw_row) : error :=
  if? negb (len row =? len columns) return ErrorString "invalid keyset row width" then
  each (fun _ item => response_cell item) (combine row columns).

(** The indexes of the projections of a field. *)
Fixpoint field_indexes (index : nat) (projection : list Selection) (field : string) : list nat :=
  match projection with
  | [] => []
  | s :: projection' =>
      if String.eqb (s_field s) field then index :: field_indexes (S index) projection' field
      else field_indexes (S index) projection' field
  end.

Definition response_key (columns : list ResultColumn) (projection : list Selection) (lastRow : raw_row) (item : Sort * KeysetCursorValue) : error :=
  let '(order, cursor) := item in
  match field_indexes 0 projection (o_field order) with
  | _ :: _ :: _ => Err (ErrorString "ambiguous keyset response key field")
  | [] => Err (ErrorString "missing keyset response key field")
  | [index] =>
      match cell lastRow index with
      | None => Err (ErrorString "missing keyset response key field")
      | Some text =>
          if? negb (from_option (fun column => keysetCursorMatchesCell cursor column text) false (columns !! index))
          return ErrorString "keyset response cursor does not match the last row" then nil_error
      end
  end.

Definition response_envelope (r : KeysetResponse) (request : NormalizedKeysetRequest) : bool :=
  String.eqb (ky_kind r) "keyset" && nonempty (ky_queryID r) && nonempty (ky_profile r) && nonempty (ky_policyVersion r) &&
  String.eqb (ky_profile r) (nk_profile request) && String.eqb (ky_shape r) (nk_shape request) &&
  nonempty (ky_datasource r) && nonempty (ky_adapter r) &&
  (len (ky_columns r) =? len (k_projection (nk_query request))) && (ky_rowCount r =? len (ky_rows r)) &&
  (len (ky_rows r) <=? k_limit (nk_query request)) && Bool.eqb (ky_truncated r) (kp_hasMore (ky_page r)) &&
  Bool.eqb (kp_hasMore (ky_page r)) (bool_decide (is_Some (kp_nextCursor (ky_page r)))).

Definition validateKeysetResponse (r : KeysetResponse) (request : NormalizedKeysetRequest) : error :=
  let cursor := default [] (kp_nextCursor (ky_page r)) in
  let orders := k_order_by (nk_query request) in
  if? negb (response_envelope r request) return ErrorString "invalid keyset result envelope" then
  if? kp_hasMore (ky_page r) && ((len (ky_rows r) =? 0) || negb (len cursor =? len orders))
  return ErrorString "invalid keyset continuation state" then
  let? _ := iter (fun _ => response_column) (combine (ky_columns r) (k_projection (nk_query request))) [] in
  check? each (fun _ => response_row (ky_columns r)) (ky_rows r) then
  if kp_hasMore (ky_page r) then
    each (fun _ => response_key (ky_columns r) (k_projection (nk_query request)) (List.last (ky_rows r) [])) (combine orders cursor)
  else nil_error.

(** ** Audit *)

Definition requestedKeysetProfileHashDomain : string := "quordon/keyset-requested-profile/v1" +:+ nul.
Definition requestedKeysetDatasourceHashDomain : string := "quordon/keyset-requested-datasource/v1" +:+ nul.

Definition keysetShapeAuditMetadata (shapeName : string) : gmap string metadata := {[ "keyset_shape" := MetaString shapeName ]}.
Definition keysetSuccessAuditMetadata (shapeName : string) (hasMore : bool) (rowCount : Z) : gmap string metadata :=
  {[ "keyset_shape" := MetaString shapeName; "row_count" := MetaInt rowCount; "has_more" := MetaBool hasMore; "truncated" := MetaBool hasMore ]}.

Section Operation.
Context {W DB : Type} `{Host W} (sha256 : string -> string) (raw_json : string -> json) (sv : Service W DB).
Context (who : caller).

(** The arguments are the digests and lengths of the names that were asked for. *)
Definition keysetOperationDenialEvent (profileHash : string) (profileBytes : Z) (datasourceHash : string) (datasourceBytes : Z) : Event :=
  requested_names profileHash datasourceHash profileBytes datasourceBytes
    (service_event sv who "query_decision" EmptyString EmptyString EmptyString OperationSelectKeyset "deny" ReasonDeniedOperation
       EmptyString EmptyString None 0 EmptyString [] [] ∅).

Definition writeKeysetOperationDenial (profile datasource : string) : P W unit :=
  audited true (keysetOperationDenialEvent (auditIdentifierHash sha256 requestedKeysetProfileHashDomain profile) (slen profile)
    (auditIdentifierHash sha256 requestedKeysetDatasourceHashDomain datasource) (slen datasource)).

Definition preAuthorizationKeysetShapeHash (request : ValidatedKeyset) : string :=
  match NormalizeKeysetIdentifiers sha256 request insensitive with
  | Ok normalized => KeysetShapeHash sha256 raw_json (vk_request normalized)
  | Err _ => KeysetShapeHash sha256 raw_json (vk_request request)
  end.

(** The completions that [SelectKeyset] writes itself. *)
Definition keyset_completion (profile datasource adapter outcome errorKind : string) (started resultBytes : Z) (hash : string)
    (resources : list Resource) (fields : list string) (meta : gmap string metadata) : P W unit :=
  duration ← durationMilliseconds started;
  audited true (completion_event sv who query_completion profile datasource adapter OperationSelectKeyset outcome errorKind
    (Some duration) resultBytes hash resources fields meta).

Definition SelectKeyset (bodyBytes : Z) (request : KeysetRequest) : P W (KeysetResponse * string) :=
  require (0 <=? bodyBytes) (fail (fault "invalid")) ≫= fun _ =>
  validated ← on_error (ValidateKeyset sha256 request (keyset_limits_of (sn_hardLimits (sv_policy sv)))) (fun _ => fail (fault "invalid"));
  binding ← on_error (AuthorizeBinding (sv_policy sv) (cl_principal who) (kr_profile request) (kr_datasource request) OperationSelectKeyset)
    (fun _ => writeKeysetOperationDenial (kr_profile request) (kr_datasource request) ≫= fun _ => fail (denied_for ReasonDeniedOperation));
  let limits := ab_limits binding in
  let datasource := k_datasource (ab_key binding) in
  let profile := kr_profile request in
  require (bodyBytes <=? MaxRequestBytes limits) (fail (fault "too_large")) ≫= fun _ =>
  validated ← on_error (RevalidateKeyset validated (keyset_limits_of limits)) (fun _ => fail (fault "invalid"));
  let hash := preAuthorizationKeysetShapeHash validated in
  precheckSourceText sha256 sv who binding OperationSelectKeyset hash (KeysetUsesSourceText (vk_request validated)) ≫= fun _ =>
  on_error (PrecheckKeysetSelect sha256 (sv_policy sv) binding validated) (fun e =>
    if is_denial e
    then refused_by_policy sha256 sv who binding OperationSelectKeyset (denial_reason ReasonDeniedQueryFeature e) hash
           (denied_for (denial_reason ReasonDeniedQueryFeature e))
    else fail (fault "invalid")) ≫= fun _ =>
  let adapterName := adapter_of sv binding in
  let meta := {[ "keyset_shape" := MetaString (kr_shape request) ]} in
  started ← time_now;
  require (capable_of sv binding OperationSelectKeyset)
    (keyset_completion profile datasource adapterName "not_implemented" EmptyString started 0 hash [] [] meta ≫= fun _ =>
     fail (fault "not_implemented")) ≫= fun _ =>
  let budget := keysetEnvelopeBudget (cl_queryID who) profile (sn_version (sv_policy sv)) (kr_shape request) datasource adapterName limits in
  let complete_error := completeQueryError sv who profile datasource adapterName OperationSelectKeyset hash [] [] meta started in
  require ((FinalBaseBytes budget <=? MaxResultBytes limits) && (MoreBaseBytes budget <=? MaxResultBytes limits))
    (fail_with (complete_error result_too_large)) ≫= fun _ =>
  probed ← probe sv datasource;
  semantics ← on_error probed (fun e => fail_with (complete_error e));
  observeIdentifierSemantics (ab_key binding) semantics ≫= fun _ =>
  authorized ← on_error (AuthorizeKeysetSelect sha256 (sv_policy sv) binding (cl_clientIdentifier who) adapterName validated semantics) (fun e =>
    if is_denial e
    then refused_by_policy sha256 sv who binding OperationSelectKeyset (denial_reason EmptyString e) hash (denied_for (denial_reason EmptyString e))
    else fail_with (complete_error invalid_error));
  let authorizedRequest := vk_request (ak_query authorized) in
  let hash := KeysetShapeHash sha256 raw_json authorizedRequest in
  let resources := resource_of (k_source (nk_query authorizedRequest)) in
  let fields := KeysetReferencedFields authorizedRequest in
  let meta := keysetShapeAuditMetadata (ak_shapeName authorized) in
  writeAllowDecisionWithMetadata sv who profile (ak_datasource authorized) (ak_adapter authorized) OperationSelectKeyset resources fields hash meta ≫= fun _ =>
  ok ← acquireCapacity (ab_key binding);
  require ok
    (keyset_completion profile (ak_datasource authorized) (ak_adapter authorized) "error" "capacity" started 0 hash resources fields meta ≫= fun _ =>
     fail (fault "capacity")) ≫= fun _ =>
  holding (ab_key binding)
    (answer ← call sv (GrantKeyset authorized budget);
     let '(databaseResult, adapterName) := answer in
     r ← on_error databaseResult (fun e => fail_with
       (completeQueryError sv who profile (ak_datasource authorized) adapterName OperationSelectKeyset hash resources fields meta started e));
     let response := makeKeysetResponse (cl_queryID who) profile (sn_version (sv_policy sv)) (ak_shapeName authorized)
                       (ak_datasource authorized) adapterName limits r in
     let payload := payload_of response in
     require (is_ok (validateKeysetResponse response authorizedRequest) && (slen payload =? kt_bytes (ka_result r)) &&
              (slen payload <=? MaxResultBytes limits))
       (keyset_completion profile (ak_datasource authorized) adapterName "error" "internal" started 0 hash resources fields meta ≫= fun _ =>
        fail (fault "internal")) ≫= fun _ =>
     keyset_completion profile (ak_datasource authorized) adapterName "success" EmptyString started (kt_bytes (ka_result r)) hash resources fields
       (keysetSuccessAuditMetadata (ak_shapeName authorized) (kt_hasMore (ka_result r)) (kt_rowCount (ka_result r))) ≫= fun _ =>
     mret (response, payload)).
End Operation.
