(* ===== verification/ServiceStatistics.v ===== *)
(** The table statistics of the query service (internal/queryservice/table_statistics.go,
    with the wire form of internal/database/database.go): the checks of what an adapter
    answers, the smallest envelope of an answer, and [DescribeObjectStatistics] with its
    audit events. *)
From S2P Require Import Prelude Domain GoJson Number Portable Values QuerySpec Config Policy Sql JsonText Rows Aggregate AggregateNormal NumericBucket SqlAggregate PolicyAggregate Keyset KeysetBinds PolicyKeyset SqlKeyset KeysetRows PublicShapes KeysetDecimal Discovery AuditEvents ShapeHash Driver Session KeysetSession Manager ServiceCore Service.
Local Open Scope string_scope.
Local Open Scope Z_scope.

(** ** Texts *)

(** [t.Format(time.RFC3339Nano)] of a time in UTC: the fraction has no zeros at its end. *)
Definition format_rfc3339nano (t : Time) : string :=
  base_text "T" t +:+ Portable.fraction_text (trim_right_by (Ascii.eqb "0") (pad 9 (Nanosecond t))) +:+ "Z".

(** The location of a parsed time is UTC only when the text ends in [Z]; a text with another
    zone of offset zero is not what [Format] prints. *)
Definition canonical_observation (value : string) : bool :=
  match time_parse_rfc3339nano value with
  | Some (t, offset) => (offset =? 0) && String.eqb (format_rfc3339nano t) value
  | None => false
  end.

Definition maxPhysicalPartitionAuditCount : Z := 8192.

Definition validStatisticsMetric (metric : option UnsignedMetric) (estimated : bool) : bool :=
  match metric with
  | None => true
  | Some metric =>
      let value := um_value metric in
      if negb (Bool.eqb (um_estimated metric) estimated) || (slen value =? 0) || (20 <? slen value) ||
         ((1 <? slen value) && bool_decide (byte_at 0 value = Some "0"%char)) then false
      else if negb (sforall is_digit value) then false
      else bool_decide (is_Some (ParseUint 64 value))
  end.

Definition validPartitionStatistics (statistics : PartitionStatistics) : bool :=
  validStatisticsMetric (pn_estimatedRows statistics) true && validStatisticsMetric (pn_dataBytes statistics) true &&
  validStatisticsMetric (pn_indexBytes statistics) true.

(** [unicode.IsControl] and the marks that change the direction of a text. *)
Definition forbidden_character (code : Z) : bool :=
  between 0 code 0x1F || between 0x7F code 0x9F || (code =? 0x061C) || (code =? 0x200E) || (code =? 0x200F) ||
  between 0x202A code 0x202E || between 0x2066 code 0x2069.

Definition rune_code (r : rune) : Z := match r with Rune code _ => code | BadByte _ => 0xFFFD end.

Definition validStatisticsMetadataName (value : string) : bool :=
  if String.eqb value EmptyString || (256 <? slen value) || negb (valid_utf8 value) || (64 <? rune_count value) then false
  else forallb (fun r => negb (forbidden_character (rune_code r))) (runes value).

Definition validStatisticsSubpartitionParentMethod (value : string) : bool :=
  contains ["range"; "range_columns"; "list"; "list_columns"] value.
Definition validStatisticsSubpartitionMethod (value : string) : bool :=
  contains ["hash"; "linear_hash"; "key"; "linear_key"] value.
Definition validStatisticsPartitionMethod (value : string) : bool :=
  contains ["hash"; "linear_hash"; "key"; "linear_key"; "range"; "range_columns"; "list"; "list_columns"] value.

(** ** Partitions *)

Section Partitions.
(** [unicode.SimpleFold]: the table of the standard library that leads through the runes
    that are equal under folding, in a circle. *)
Context (SimpleFold : Z -> Z).

(** The least rune on the circle of [character]; no circle is as long as the fuel. *)
Fixpoint least_on_circle (fuel : nat) (character folded canonical : Z) : Z :=
  match fuel with
  | O => canonical
  | S fuel' =>
      if folded =? character then canonical
      else least_on_circle fuel' character (SimpleFold folded) (Z.min folded canonical)
  end.
Definition canonical_rune (character : Z) : Z := least_on_circle 8 character (SimpleFold character) character.

(** The canonical name, as its runes: [names] is a map from these. *)
Definition folded_name (value : string) : list Z := map (fun r => canonical_rune (rune_code r)) (runes value).

(** [insertStatisticsMetadataName]: [None] when the name was there. *)
Definition insertStatisticsMetadataName (names : list (list Z)) (value : string) : option (list (list Z)) :=
  if bool_decide (folded_name value ∈ names) then None else Some (folded_name value :: names).

(** One entry of a loop, with the text of its error. *)
Definition named_entry (text : string) (index ordinal : Z) (name : string) (good : bool) (names : list (list Z)) : result (list (list Z)) :=
  if? negb (ordinal =? index + 1) || negb (validStatisticsMetadataName name) return ErrorString text then
  match insertStatisticsMetadataName names name with
  | None => Err (ErrorString text)
  | Some names => if? negb good return ErrorString text then Ok names
  end.

Definition partition_step (index : Z) (entry : PartitionEntry) (names : list (list Z)) : result (list (list Z)) :=
  named_entry "adapter returned an invalid partition entry" index (pe_ordinal entry) (pe_name entry)
    (validPartitionStatistics (pe_statistics entry)) names.

Definition subpartition_step (index : Z) (entry : SubpartitionEntry) (names : list (list Z)) : result (list (list Z)) :=
  named_entry "adapter returned an invalid subpartition entry" index (se_ordinal entry) (se_name entry)
    (validPartitionStatistics (se_statistics entry)) names.

Record group_state := { gs_partitionNames : list (list Z); gs_subpartitionNames : list (list Z); gs_leafCount : Z }.

Definition group_step (index : Z) (group : PartitionGroup) (st : group_state) : result group_state :=
  let? names := named_entry "adapter returned an invalid partition group" index (pg_ordinal group) (pg_name group)
                  (negb (len (pg_subpartitions group) =? 0)) (gs_partitionNames st) in
  if? maxPhysicalPartitionAuditCount - gs_leafCount st <? len (pg_subpartitions group)
  return ErrorString "adapter returned too many subpartitions" then
  let? leaves := iter subpartition_step (pg_subpartitions group) (gs_subpartitionNames st) in
  Ok {| gs_partitionNames := names; gs_subpartitionNames := leaves; gs_leafCount := gs_leafCount st + len (pg_subpartitions group) |}.

Definition validatePartitioningResult (p : PartitioningResult) : result (Z * Z) :=
  if String.eqb (pt_kind p) "none" then
    if? nonempty (pt_method p) || nonempty (pt_subpartitionMethod p) || negb (len (pt_partitions p) =? 0) ||
        negb (len (pt_partitionGroups p) =? 0)
    return ErrorString "adapter returned an invalid unpartitioned branch" then Ok (0, 0)
  else if String.eqb (pt_kind p) "partitioned" then
    if? negb (validStatisticsPartitionMethod (pt_method p)) || nonempty (pt_subpartitionMethod p) ||
        negb (len (pt_partitionGroups p) =? 0) || (len (pt_partitions p) =? 0) || (maxPhysicalPartitionAuditCount <? len (pt_partitions p))
    return ErrorString "adapter returned an invalid partitioned branch" then
    let? _ := iter partition_step (pt_partitions p) [] in Ok (len (pt_partitions p), 0)
  else if String.eqb (pt_kind p) "subpartitioned" then
    if? negb (validStatisticsSubpartitionParentMethod (pt_method p)) || negb (validStatisticsSubpartitionMethod (pt_subpartitionMethod p)) ||
        negb (len (pt_partitions p) =? 0) || (len (pt_partitionGroups p) =? 0) || (maxPhysicalPartitionAuditCount <? len (pt_partitionGroups p))
    return ErrorString "adapter returned an invalid subpartitioned branch" then
    let? st := iter group_step (pt_partitionGroups p) {| gs_partitionNames := []; gs_subpartitionNames := []; gs_leafCount := 0 |} in
    Ok (len (pt_partitionGroups p), gs_leafCount st)
  else Err (ErrorString "adapter returned an unknown partitioning branch").

Definition validateObjectStatisticsResult (r : ObjectStatisticsResult) : error :=
  if? (slen (ot_observedAt r) <? slen "0000-00-00T00:00:00Z") || (slen "0000-00-00T00:00:00.000000000Z" <? slen (ot_observedAt r))
  return ErrorString "adapter returned a noncanonical statistics timestamp" then
  if? negb (canonical_observation (ot_observedAt r)) return ErrorString "adapter returned a noncanonical statistics timestamp" then
  if? negb (String.eqb (ot_engine r) "InnoDB") || negb (validStatisticsMetric (ts_estimatedRows (ot_table r)) true) ||
      negb (validStatisticsMetric (ts_dataBytes (ot_table r)) true) || negb (validStatisticsMetric (ts_indexBytes (ot_table r)) true) ||
      negb (validStatisticsMetric (ts_autoIncrement (ot_table r)) false)
  return ErrorString "adapter returned invalid table statistics" then
  let? (partitionCount, subpartitionCount) := validatePartitioningResult (ot_partitioning r) in
  if? negb (ot_partitionCount r =? partitionCount) || negb (ot_subpartitionCount r =? subpartitionCount)
  return ErrorString "adapter returned inconsistent partition counts" then nil_error.
End Partitions.

(** ** The wire form *)

Definition metric_json (m : option UnsignedMetric) : json :=
  match m with
  | None => JNull
  | Some m => struct_json [text_field "value" (um_value m); (true, "estimated", JBool (um_estimated m))]
  end.

Definition table_json (t : TableStatistics) : json := struct_json [
  (true, "estimated_rows", metric_json (ts_estimatedRows t)); (true, "data_bytes", metric_json (ts_dataBytes t));
  (true, "index_bytes", metric_json (ts_indexBytes t)); (true, "auto_increment", metric_json (ts_autoIncrement t))].

Definition partition_statistics_json (s : PartitionStatistics) : json := struct_json [
  (true, "estimated_rows", metric_json (pn_estimatedRows s)); (true, "data_bytes", metric_json (pn_dataBytes s));
  (true, "index_bytes", metric_json (pn_indexBytes s))].

Definition entry_json (name : string) (ordinal : Z) (statistics : PartitionStatistics) : json := struct_json [
  text_field "name" name; (true, "ordinal", JInt ordinal); (true, "statistics", partition_statistics_json statistics)].

Definition group_json (g : PartitionGroup) : json := struct_json [
  text_field "name" (pg_name g); (true, "ordinal", JInt (pg_ordinal g));
  (true, "subpartitions", JArr (map (fun e => entry_json (se_name e) (se_ordinal e) (se_statistics e)) (pg_subpartitions g)))].

(** [PartitioningResult.MarshalJSON] *)
Definition partitioning_json (p : PartitioningResult) : option json :=
  if String.eqb (pt_kind p) "none" then Some (struct_json [text_field "kind" (pt_kind p)])
  else if String.eqb (pt_kind p) "partitioned" then Some (struct_json [
    text_field "kind" (pt_kind p); text_field "method" (pt_method p);
    (true, "partitions", JArr (map (fun e => entry_json (pe_name e) (pe_ordinal e) (pe_statistics e)) (pt_partitions p)))])
  else if String.eqb (pt_kind p) "subpartitioned" then Some (struct_json [
    text_field "kind" (pt_kind p); text_field "method" (pt_method p); text_field "subpartition_method" (pt_subpartitionMethod p);
    (true, "partitions", JArr (map group_json (pt_partitionGroups p)))])
  else None.

Record tableStatisticsResponse := {
  tr_profile : string; tr_policyVersion : string; tr_datasource : string; tr_adapter : string; tr_schema : string; tr_name : string;
  tr_observedAt : string; tr_engine : string; tr_table : TableStatistics; tr_partitioning : PartitioningResult;
}.

Definition statistics_json (r : tableStatisticsResponse) (partitioning : json) : json := struct_json [
  text_field "policy_profile" (tr_profile r); text_field "policy_version" (tr_policyVersion r); text_field "datasource" (tr_datasource r);
  text_field "adapter" (tr_adapter r); text_field "schema" (tr_schema r); text_field "name" (tr_name r);
  text_field "observed_at" (tr_observedAt r); text_field "engine" (tr_engine r); (true, "table", table_json (tr_table r));
  (true, "partitioning", partitioning)].

(** [json.Marshal(response)] *)
Definition statistics_payload (r : tableStatisticsResponse) : option string :=
  partitioning ← partitioning_json (tr_partitioning r); Some (marshal (statistics_json r partitioning)).

Definition minimum_frame : string :=
  lit "{'policy_profile':,'policy_version':,'datasource':,'adapter':,'schema':,'name':,'observed_at':,'engine':,'table':{'estimated_rows':null,'data_bytes':null,'index_bytes':null,'auto_increment':null},'partitioning':{'kind':'none'}}".

Fixpoint add_string_sizes (values : list string) (size maximum : Z) : option Z :=
  match values with
  | [] => Some size
  | value :: values' => size' ← addBoundedSize size (string_size value) maximum; add_string_sizes values' size' maximum
  end.

Definition tableStatisticsMinimumEnvelopeSize (profile policyVersion datasource adapter schema object : string) (maximum : Z) : option Z :=
  if maximum <? slen minimum_frame then None
  else add_string_sizes [profile; policyVersion; datasource; adapter; schema; object; "0000-00-00T00:00:00Z"; "InnoDB"] (slen minimum_frame) maximum.

(** ** The operation *)

Section Operation.
Context {W DB : Type} `{Host W} (sha256 sha256_hex : string -> string) (SimpleFold : Z -> Z) (sv : Service W DB).
Context (who : caller).

(** [completeObjectStatistics] *)
Definition completeObjectStatistics (profile datasource adapter outcome errorKind : string) (started resultBytes : Z)
    (resources : list Resource) (partitionCount subpartitionCount : Z) : P W unit :=
  duration ← durationMilliseconds started;
  audited true (completion_event sv who operation_completion profile datasource adapter OperationDescribeObjectStatistics outcome errorKind
    (Some duration) resultBytes EmptyString resources []
    (if String.eqb outcome "success" then {[ "partition_count" := MetaInt partitionCount; "subpartition_count" := MetaInt subpartitionCount ]} else ∅)).

(** [writeObjectStatisticsDenial] *)
Definition writeObjectStatisticsDenial (profile datasource adapter reason : string) : P W unit :=
  audited true (service_event sv who "operation_decision" profile datasource adapter OperationDescribeObjectStatistics "deny" reason
    EmptyString EmptyString None 0 EmptyString [] [] ∅).

(** The payload of a response that encodes as the adapter counted. *)
Definition counted_payload (response : tableStatisticsResponse) (resultBytes maximum : Z) : option string :=
  payload ← statistics_payload response;
  if (slen payload =? resultBytes) && (slen payload <=? maximum) then Some payload else None.

Definition DescribeObjectStatistics (profile datasource : string) (object : ResourceRef) : P W string :=
  started ← time_now;
  require (IsIdentifier (r_schema object) && IsIdentifier (r_name object)) (fail (fault "invalid")) ≫= fun _ =>
  binding ← assignedBinding sha256 sv who profile datasource OperationDescribeObjectStatistics;
  let limits := ab_limits binding in
  let datasource := k_datasource (ab_key binding) in
  let adapterName := adapter_of sv binding in
  require (capable_of sv binding OperationDescribeObjectStatistics)
    (completeObjectStatistics profile datasource adapterName "not_implemented" EmptyString started 0 [] 0 0 ≫= fun _ =>
     fail (fault "not_implemented")) ≫= fun _ =>
  probed ← probe sv datasource;
  semantics ← on_error probed (fun e =>
    completeObjectStatistics profile datasource adapterName "error" (classifyDatabaseAuditError e) started 0 [] 0 0 ≫= fun _ =>
    fail (mapDatabaseError e));
  observeIdentifierSemantics (ab_key binding) semantics ≫= fun _ =>
  authorized ← on_error (AuthorizeObjectStatistics sha256_hex (sv_policy sv) binding (cl_clientIdentifier who) adapterName object semantics) (fun e =>
    let reason := denial_reason ReasonDeniedOperation e in
    writeObjectStatisticsDenial profile datasource adapterName reason ≫= fun _ =>
    fail (if String.eqb reason ReasonDeniedResource then fault "not_found" else denied_for reason));
  let resources := [{| re_schema := os_schema authorized; re_object := os_object authorized |}] in
  writeAllowDecision sv who profile (os_datasource authorized) (os_adapter authorized) OperationDescribeObjectStatistics resources [] EmptyString ≫= fun _ =>
  let complete adapter outcome errorKind := completeObjectStatistics profile (os_datasource authorized) adapter outcome errorKind started in
  match tableStatisticsMinimumEnvelopeSize profile (sn_version (sv_policy sv)) (os_datasource authorized) (os_adapter authorized)
          (os_schema authorized) (os_object authorized) (MaxResultBytes limits) with
  | None =>
      complete (os_adapter authorized) "error" (classifyDatabaseAuditError result_too_large) 0 resources 0 0 ≫= fun _ =>
      fail (mapDatabaseError result_too_large)
  | Some envelopeBaseBytes =>
      ok ← acquireCapacity (ab_key binding);
      require ok (complete (os_adapter authorized) "error" "capacity" 0 resources 0 0 ≫= fun _ => fail (fault "capacity")) ≫= fun _ =>
      holding (ab_key binding)
        (answer ← call sv (GrantStatistics authorized envelopeBaseBytes);
         let '(databaseResult, adapterName) := answer in
         r ← on_error databaseResult (fun e =>
           complete adapterName "error" (classifyDatabaseAuditError e) 0 resources 0 0 ≫= fun _ => fail (mapDatabaseError e));
         let internal := complete adapterName "error" "internal" 0 resources 0 0 in
         on_error (validateObjectStatisticsResult SimpleFold r) (fun _ => internal ≫= fun _ => fail (fault "internal")) ≫= fun _ =>
         let response := {| tr_profile := profile; tr_policyVersion := sn_version (sv_policy sv); tr_datasource := os_datasource authorized;
                            tr_adapter := adapterName; tr_schema := os_schema authorized; tr_name := os_object authorized;
                            tr_observedAt := ot_observedAt r; tr_engine := ot_engine r; tr_table := ot_table r;
                            tr_partitioning := ot_partitioning r |} in
         match counted_payload response (ot_resultBytes r) (MaxResultBytes limits) with
         | None => internal ≫= fun _ => fail (fault "internal")
         | Some payload =>
             complete adapterName "success" EmptyString (slen payload) resources (ot_partitionCount r) (ot_subpartitionCount r) ≫= fun _ =>
             mret payload
         end)
  end.
End Operation.
