(* ===== verification/TableStatistics.v ===== *)
(** The table statistics of the MySQL adapter (internal/adapters/mysql8/table_statistics.go): the
    catalog rows of the table and of its partitions, which are checked, counted and
    assembled one by one, and [DescribeObjectStatistics] on one connection. What it
    answers is what the query service accepts, and the bytes it counts are those of the
    response. *)
From S2P Require Import Prelude Domain GoJson Number Portable Values QuerySpec Config Policy Sql JsonText Rows Plan Keyset KeysetBinds SqlKeyset PolicyAggregate PolicyKeyset KeysetRows KeysetContinuation NumericBucket SqlAggregate PublicShapes ShapeSizes KeysetDecimal Discovery AuditEvents ShapeHash Driver Session KeysetSession Manager ServiceCore Service ServiceStatistics.
Local Open Scope string_scope.
Local Open Scope Z_scope.

(** ** Texts of the catalog *)

Definition maxPhysicalPartitionLeaves : Z := 8192.

Definition invalidStatisticsMetadata : goerr := DatabaseError "upstream".
Definition statisticsNotFoundError : goerr := DatabaseError "not_found".
Definition view_unsupported : goerr := DatabaseError "invalid".

(** [string(raw)]; a nil slice is the empty text. *)
Definition raw_text (raw : option string) : string := default EmptyString raw.

Definition parseUnsignedMetric (raw : option string) (estimated : bool) : result (option UnsignedMetric) :=
  match raw with
  | None => Ok None
  | Some raw =>
      if? (slen raw =? 0) || (20 <? slen raw) || ((1 <? slen raw) && bool_decide (byte_at 0 raw = Some "0"%char))
      return invalidStatisticsMetadata then
      if? negb (sforall is_digit raw) return invalidStatisticsMetadata then
      match ParseUint 64 raw with
      | None => Err invalidStatisticsMetadata
      | Some _ => Ok (Some {| um_value := raw; um_estimated := estimated |})
      end
  end.

Definition parseOrdinal (raw : option string) : result Z :=
  match parseUnsignedMetric raw false with
  | Ok (Some metric) =>
      match ParseUint 14 (um_value metric) with
      | Some value => if? (value =? 0) || (maxPhysicalPartitionLeaves <? value) return invalidStatisticsMetadata then Ok value
      | None => Err invalidStatisticsMetadata
      end
  | _ => Err invalidStatisticsMetadata
  end.

Definition isBidiFormattingRune (r : Z) : bool :=
  (r =? 0x061C) || (r =? 0x200E) || (r =? 0x200F) || between 0x202A r 0x202E || between 0x2066 r 0x2069.

(** [unicode.IsControl] *)
Definition is_control (r : Z) : bool := between 0 r 0x1F || between 0x7F r 0x9F.

Definition validatedMetadataName (raw : option string) : result string :=
  let raw := raw_text raw in
  if? (slen raw =? 0) || (256 <? slen raw) || negb (valid_utf8 raw) || (64 <? rune_count raw) return invalidStatisticsMetadata then
  if? existsb (fun r => is_control (rune_code r) || isBidiFormattingRune (rune_code r)) (runes raw) return invalidStatisticsMetadata then
  Ok raw.

Definition mapPartitionMethod (raw : option string) : option string :=
  let method := raw_text raw in
  if String.eqb method "HASH" then Some "hash"
  else if String.eqb method "LINEAR HASH" then Some "linear_hash"
  else if String.eqb method "KEY" then Some "key"
  else if String.eqb method "LINEAR KEY" then Some "linear_key"
  else if String.eqb method "RANGE" then Some "range"
  else if String.eqb method "RANGE COLUMNS" then Some "range_columns"
  else if String.eqb method "LIST" then Some "list"
  else if String.eqb method "LIST COLUMNS" then Some "list_columns"
  else None.

Definition validSubpartitionParentMethod (method : string) : bool := contains ["range"; "range_columns"; "list"; "list_columns"] method.
Definition validSubpartitionMethod (method : string) : bool := contains ["hash"; "linear_hash"; "key"; "linear_key"] method.
Definition validTopPartitionMethod (method : string) : bool :=
  contains ["hash"; "linear_hash"; "key"; "linear_key"; "range"; "range_columns"; "list"; "list_columns"] method.

(** [len(strconv.Quote(text))] of digits and of the names of methods. *)
Definition quoted_size (text : string) : Z := slen text + 2.

(** ** Sizes *)

Fixpoint boundedRawTotal (current : Z) (values : list (option string)) : option Z :=
  match values with
  | [] => Some current
  | value :: values' => current' ← addEncodedSize current (slen (raw_text value)) MaxSupportedResultBytes; boundedRawTotal current' values'
  end.

Definition json_frame (s : string) : Z := slen (lit s).

Definition table_metric_size (metric : UnsignedMetric) : Z :=
  json_frame "{'value':,'estimated':}" + quoted_size (um_value metric) + (if um_estimated metric then 4 else 5).

Fixpoint add_table_metrics (current : Z) (metrics : list (option UnsignedMetric)) (maximum : Z) : result Z :=
  match metrics with
  | [] => Ok current
  | None :: metrics' => add_table_metrics current metrics' maximum
  | Some metric :: metrics' =>
      match addEncodedSize current (table_metric_size metric - 4) maximum with
      | None => Err result_too_large
      | Some current => add_table_metrics current metrics' maximum
      end
  end.

Definition addTableStatisticsSize (current : Z) (table : TableStatistics) (maximum : Z) : result Z :=
  add_table_metrics current [ts_estimatedRows table; ts_dataBytes table; ts_indexBytes table; ts_autoIncrement table] maximum.

Definition partition_metric_size (metric : option UnsignedMetric) : Z :=
  match metric with None => 4 | Some metric => json_frame "{'value':,'estimated':true}" + quoted_size (um_value metric) end.

Fixpoint add_metric_sizes (size : Z) (metrics : list (option UnsignedMetric)) (maximum : Z) : option Z :=
  match metrics with
  | [] => Some size
  | metric :: metrics' => size' ← addEncodedSize size (partition_metric_size metric) maximum; add_metric_sizes size' metrics' maximum
  end.

Definition encodedPartitionStatisticsSize (statistics : PartitionStatistics) (maximum : Z) : option Z :=
  let size := json_frame "{'estimated_rows':,'data_bytes':,'index_bytes':}" in
  if maximum <? size then None
  else add_metric_sizes size [pn_estimatedRows statistics; pn_dataBytes statistics; pn_indexBytes statistics] maximum.

Definition encodedPartitionEntrySize (entry : PartitionEntry) (maximum : Z) : option Z :=
  let size := json_frame "{'name':,'ordinal':,'statistics':}" + slen (itoa (pe_ordinal entry)) in
  nameBytes ← encodedMetadataJSONStringSize (pe_name entry) (maximum - size);
  let size := size + nameBytes in
  statisticsBytes ← encodedPartitionStatisticsSize (pe_statistics entry) (maximum - size);
  addEncodedSize size statisticsBytes maximum.

Definition encodedSubpartitionEntrySize (entry : SubpartitionEntry) (maximum : Z) : option Z :=
  encodedPartitionEntrySize {| pe_name := se_name entry; pe_ordinal := se_ordinal entry; pe_statistics := se_statistics entry |} maximum.

(** A loop that adds the size of each item, and of a comma before all but the first. *)
Fixpoint add_items {A} (item : A -> Z -> option Z) (index size : Z) (l : list A) (maximum : Z) : option Z :=
  match l with
  | [] => Some size
  | x :: l' =>
      increment ← item x (maximum - size);
      size' ← addEncodedSize size (if index =? 0 then increment else increment + 1) maximum;
      add_items item (index + 1) size' l' maximum
  end.

Definition encodedPartitionGroupSize (group : PartitionGroup) (maximum : Z) : option Z :=
  let size := json_frame "{'name':,'ordinal':,'subpartitions':[]}" + slen (itoa (pg_ordinal group)) in
  nameBytes ← encodedMetadataJSONStringSize (pg_name group) (maximum - size);
  add_items encodedSubpartitionEntrySize 0 (size + nameBytes) (pg_subpartitions group) maximum.

Definition encodedPartitioningSize (p : PartitioningResult) (maximum : Z) : option Z :=
  if String.eqb (pt_kind p) "none" then addEncodedSize 0 (json_frame "{'kind':'none'}") maximum
  else if String.eqb (pt_kind p) "partitioned" then
    let size := json_frame "{'kind':'partitioned','method':,'partitions':[]}" + quoted_size (pt_method p) in
    if maximum <? size then None else add_items encodedPartitionEntrySize 0 size (pt_partitions p) maximum
  else if String.eqb (pt_kind p) "subpartitioned" then
    let size := json_frame "{'kind':'subpartitioned','method':,'subpartition_method':,'partitions':[]}" +
                quoted_size (pt_method p) + quoted_size (pt_subpartitionMethod p) in
    if maximum <? size then None else add_items encodedPartitionGroupSize 0 size (pt_partitionGroups p) maximum
  else None.

(** ** The rows of the partitions *)

Record partitionRow := {
  pr_partitionName : option string; pr_partitionOrdinal : option string; pr_partitionMethod : option string;
  pr_subpartitionName : option string; pr_subpartitionOrdinal : option string; pr_subpartitionMethod : option string;
  pr_estimatedRows : option string; pr_dataBytes : option string; pr_indexBytes : option string;
}.

Definition makePartitionStatistics (row : partitionRow) : result PartitionStatistics :=
  let? estimatedRows := parseUnsignedMetric (pr_estimatedRows row) true in
  let? dataBytes := parseUnsignedMetric (pr_dataBytes row) true in
  let? indexBytes := parseUnsignedMetric (pr_indexBytes row) true in
  Ok {| pn_estimatedRows := estimatedRows; pn_dataBytes := dataBytes; pn_indexBytes := indexBytes |}.

Definition makePartitionEntry (row : partitionRow) : result (PartitionEntry * string) :=
  let? name := validatedMetadataName (pr_partitionName row) in
  let? ordinal := parseOrdinal (pr_partitionOrdinal row) in
  match mapPartitionMethod (pr_partitionMethod row) with
  | None => Err invalidStatisticsMetadata
  | Some method =>
      let? statistics := makePartitionStatistics row in
      Ok ({| pe_name := name; pe_ordinal := ordinal; pe_statistics := statistics |}, method)
  end.

(** [r, ok := f(); if !ok { return err }] *)
Definition or_error {A} (o : option A) (e : goerr) : result A := match o with Some a => Ok a | None => Err e end.

Definition nonePartitioningBytes : Z := json_frame "{'kind':'none'}".

(** The variables of the loop; [rawTotal] counts what was read, [partitioningBytes] what is to be written. *)
Record partition_state := {
  ps_partitioning : PartitioningResult; ps_partitioningBytes : Z; ps_rawTotal : Z;
  ps_partitionNames : list (list Z); ps_subpartitionNames : list (list Z); ps_leafCount : Z;
}.

Definition is_nil (raw : option string) : bool := match raw with None => true | Some _ => false end.
Definition all_nil (l : list (option string)) : bool := forallb is_nil l.
Definition none_nil (l : list (option string)) : bool := forallb (fun raw => negb (is_nil raw)) l.

Definition top_columns (row : partitionRow) : list (option string) := [pr_partitionName row; pr_partitionOrdinal row; pr_partitionMethod row].
Definition sub_columns (row : partitionRow) : list (option string) := [pr_subpartitionName row; pr_subpartitionOrdinal row; pr_subpartitionMethod row].

(** The kind is settled by the first row. *)
Definition partitioning_kind (row : partitionRow) : string :=
  if is_nil (pr_partitionName row) then "none" else if is_nil (pr_subpartitionName row) then "partitioned" else "subpartitioned".

Definition of_kind (kind : string) (p : PartitioningResult) : PartitioningResult := {|
  pt_kind := kind; pt_method := pt_method p; pt_subpartitionMethod := pt_subpartitionMethod p; pt_partitions := pt_partitions p;
  pt_partitionGroups := pt_partitionGroups p |}.
Definition of_methods (method subpartitionMethod : string) (p : PartitioningResult) : PartitioningResult := {|
  pt_kind := pt_kind p; pt_method := method; pt_subpartitionMethod := subpartitionMethod; pt_partitions := pt_partitions p;
  pt_partitionGroups := pt_partitionGroups p |}.

(** A method that was seen before is the same. *)
Definition other_method (before method : string) : bool := nonempty before && negb (String.eqb before method).

Definition zero_partitioning : PartitioningResult := {|
  pt_kind := EmptyString; pt_method := EmptyString; pt_subpartitionMethod := EmptyString; pt_partitions := []; pt_partitionGroups := [] |}.

Section Partitions.
(** [unicode.SimpleFold] *)
Context (SimpleFold : Z -> Z).

Fixpoint smallest_fold (fuel : nat) (value folded canonical : Z) : Z :=
  match fuel with
  | O => canonical
  | S fuel' => if folded =? value then canonical else smallest_fold fuel' value (SimpleFold folded) (if folded <? canonical then folded else canonical)
  end.

(** The canonical name, as its runes; no circle of [SimpleFold] is as long as the fuel. *)
Definition canonicalMetadataName (name : string) : list Z :=
  map (fun r => let value := rune_code r in smallest_fold 8 value (SimpleFold value) value) (runes name).

Definition availableMetadataName (names : list (list Z)) (name : string) : option (list Z) :=
  let key := canonicalMetadataName name in if bool_decide (key ∈ names) then None else Some key.

(** [available] is [maxResultBytes-envelopeWithoutPartitioning]. *)
Definition partitioned_row (row : partitionRow) (available : Z) (st : partition_state) : result partition_state :=
  let p := ps_partitioning st in
  if? negb (none_nil (top_columns row)) || negb (all_nil (sub_columns row)) return invalidStatisticsMetadata then
  let? (entry, method) := makePartitionEntry row in
  if? negb (validTopPartitionMethod method) || other_method (pt_method p) method || negb (pe_ordinal entry =? len (pt_partitions p) + 1)
  return invalidStatisticsMetadata then
  let? key := or_error (availableMetadataName (ps_partitionNames st) (pe_name entry)) invalidStatisticsMetadata in
  let p := of_methods method (pt_subpartitionMethod p) p in
  let first := len (pt_partitions p) =? 0 in
  let? partitioningBytes := (if first then or_error (encodedPartitioningSize p available) result_too_large else Ok (ps_partitioningBytes st)) in
  let? entryBytes := or_error (encodedPartitionEntrySize entry (available - partitioningBytes)) result_too_large in
  let? partitioningBytes := or_error (addEncodedSize partitioningBytes (if first then entryBytes else entryBytes + 1) available) result_too_large in
  Ok {| ps_partitioning := {| pt_kind := pt_kind p; pt_method := pt_method p; pt_subpartitionMethod := pt_subpartitionMethod p;
                              pt_partitions := (pt_partitions p ++ [entry])%list; pt_partitionGroups := pt_partitionGroups p |};
        ps_partitioningBytes := partitioningBytes; ps_rawTotal := ps_rawTotal st;
        ps_partitionNames := key :: ps_partitionNames st; ps_subpartitionNames := ps_subpartitionNames st; ps_leafCount := ps_leafCount st |}.

(** The group that a row of a subpartitioned table belongs to. *)
Record group_place := { gp_new : bool; gp_key : option (list Z); gp_count : Z }.

Definition place_of (p : PartitioningResult) (names : list (list Z)) (name : string) (ordinal : Z) : result group_place :=
  let opens :=
    let? key := or_error (availableMetadataName names name) invalidStatisticsMetadata in
    if? negb (ordinal =? len (pt_partitionGroups p) + 1) return invalidStatisticsMetadata then
    Ok {| gp_new := true; gp_key := Some key; gp_count := 0 |} in
  match last (pt_partitionGroups p) with
  | None => opens
  | Some group =>
      if negb (pg_ordinal group =? ordinal) then opens
      else
        if? negb (String.eqb (pg_name group) name) || negb (pg_ordinal group =? ordinal) return invalidStatisticsMetadata then
        Ok {| gp_new := false; gp_key := None; gp_count := len (pg_subpartitions group) |}
  end.

(** [group.Subpartitions = append(group.Subpartitions, entry)] for the last group. *)
Fixpoint append_entry (groups : list PartitionGroup) (entry : SubpartitionEntry) : list PartitionGroup :=
  match groups with
  | [] => []
  | [group] => [{| pg_name := pg_name group; pg_ordinal := pg_ordinal group; pg_subpartitions := (pg_subpartitions group ++ [entry])%list |}]
  | group :: groups' => group :: append_entry groups' entry
  end.

Definition subpartition_methods (row : partitionRow) : result (string * string) :=
  let? method := or_error (mapPartitionMethod (pr_partitionMethod row)) invalidStatisticsMetadata in
  if? negb (validSubpartitionParentMethod method) return invalidStatisticsMetadata then
  let? subMethod := or_error (mapPartitionMethod (pr_subpartitionMethod row)) invalidStatisticsMetadata in
  if? negb (validSubpartitionMethod subMethod) return invalidStatisticsMetadata then
  Ok (method, subMethod).

(** The bytes that a row adds: those of its entry, and of its group when it is the first of one. *)
Definition subpartition_bytes (p : PartitioningResult) (place : group_place) (group : PartitionGroup) (entry : SubpartitionEntry)
    (partitioningBytes available : Z) : option Z :=
  increment ← (if gp_new place then
                 groupBytes ← encodedPartitionGroupSize group (available - partitioningBytes);
                 Some (if len (pt_partitionGroups p) =? 0 then groupBytes else groupBytes + 1)
               else Some 0);
  entryBytes ← encodedSubpartitionEntrySize entry (available - partitioningBytes - increment);
  addEncodedSize partitioningBytes (increment + (if gp_count place =? 0 then entryBytes else entryBytes + 1)) available.

Definition subpartitioned_row (row : partitionRow) (available : Z) (st : partition_state) : result partition_state :=
  let p := ps_partitioning st in
  if? negb (none_nil (top_columns row)) || negb (none_nil (sub_columns row)) return invalidStatisticsMetadata then
  let? partitionName := validatedMetadataName (pr_partitionName row) in
  let? partitionOrdinal := parseOrdinal (pr_partitionOrdinal row) in
  let? (method, subMethod) := subpartition_methods row in
  if? other_method (pt_method p) method || other_method (pt_subpartitionMethod p) subMethod return invalidStatisticsMetadata then
  let p := of_methods method subMethod p in
  let? place := place_of p (ps_partitionNames st) partitionName partitionOrdinal in
  let? subName := validatedMetadataName (pr_subpartitionName row) in
  let? subKey := or_error (availableMetadataName (ps_subpartitionNames st) subName) invalidStatisticsMetadata in
  let? subOrdinal := parseOrdinal (pr_subpartitionOrdinal row) in
  if? negb (subOrdinal =? gp_count place + 1) return invalidStatisticsMetadata then
  let? statistics := makePartitionStatistics row in
  let entry := {| se_name := subName; se_ordinal := subOrdinal; se_statistics := statistics |} in
  let group := {| pg_name := partitionName; pg_ordinal := partitionOrdinal; pg_subpartitions := [] |} in
  let? partitioningBytes := (if len (pt_partitionGroups p) =? 0 then or_error (encodedPartitioningSize p available) result_too_large
                             else Ok (ps_partitioningBytes st)) in
  let? partitioningBytes := or_error (subpartition_bytes p place group entry partitioningBytes available) result_too_large in
  let groups := if gp_new place then (pt_partitionGroups p ++ [group])%list else pt_partitionGroups p in
  Ok {| ps_partitioning := {| pt_kind := pt_kind p; pt_method := pt_method p; pt_subpartitionMethod := pt_subpartitionMethod p;
                              pt_partitions := pt_partitions p; pt_partitionGroups := append_entry groups entry |};
        ps_partitioningBytes := partitioningBytes; ps_rawTotal := ps_rawTotal st;
        ps_partitionNames := from_option (fun key => key :: ps_partitionNames st) (ps_partitionNames st) (gp_key place);
        ps_subpartitionNames := subKey :: ps_subpartitionNames st; ps_leafCount := ps_leafCount st |}.

Definition none_row (row : partitionRow) (st : partition_state) : result partition_state :=
  if? negb (ps_leafCount st =? 1) || negb (all_nil (top_columns row)) || negb (all_nil (sub_columns row)) return invalidStatisticsMetadata then Ok st.

Definition row_columns (row : partitionRow) : list (option string) :=
  (top_columns row ++ sub_columns row ++ [pr_estimatedRows row; pr_dataBytes row; pr_indexBytes row])%list.

Record tableIdentity := { ti_schema : string; ti_name : string; ti_engine : string }.

(** One row of the loop. *)
Definition partition_row_step (identity : tableIdentity) (caseInsensitive : bool) (available : Z)
    (scan : result (option string * option string * partitionRow)) (st : partition_state) : result partition_state :=
  let? (actual, row) := scan in
  let? rawTotal := or_error (boundedRawTotal (ps_rawTotal st) (actual.1 :: actual.2 :: row_columns row)) result_too_large in
  if? negb (tokenIdentifierMatches (raw_text actual.1) (ti_schema identity) caseInsensitive) ||
      negb (tokenIdentifierMatches (raw_text actual.2) (ti_name identity) caseInsensitive)
  return metadata_mismatch then
  let leafCount := ps_leafCount st + 1 in
  if? maxPhysicalPartitionLeaves <? leafCount return result_too_large then
  let p := if leafCount =? 1 then of_kind (partitioning_kind row) (ps_partitioning st) else ps_partitioning st in
  let st := {| ps_partitioning := p; ps_partitioningBytes := ps_partitioningBytes st; ps_rawTotal := rawTotal;
               ps_partitionNames := ps_partitionNames st; ps_subpartitionNames := ps_subpartitionNames st; ps_leafCount := leafCount |} in
  if String.eqb (pt_kind p) "none" then none_row row st
  else if String.eqb (pt_kind p) "partitioned" then partitioned_row row available st
  else if String.eqb (pt_kind p) "subpartitioned" then subpartitioned_row row available st
  else Err invalidStatisticsMetadata.

Definition first_partition_state (rawTotal : Z) : partition_state := {|
  ps_partitioning := zero_partitioning; ps_partitioningBytes := nonePartitioningBytes; ps_rawTotal := rawTotal; ps_partitionNames := [];
  ps_subpartitionNames := []; ps_leafCount := 0 |}.

(** What the loop leaves when the rows end without an error: the partitioning, its
    bytes, and how many partitions and subpartitions it has. *)
Definition partitions_of (st : partition_state) : result (PartitioningResult * Z * Z * Z) :=
  let p := ps_partitioning st in
  if? (ps_leafCount st =? 0) || (String.eqb (pt_kind p) "none" && negb (ps_leafCount st =? 1)) return invalidStatisticsMetadata then
  if String.eqb (pt_kind p) "none" then Ok (p, ps_partitioningBytes st, 0, 0)
  else Ok (p, ps_partitioningBytes st, len (pt_partitions p) + len (pt_partitionGroups p), ps_leafCount st - len (pt_partitions p)).

Definition partition_rows (identity : tableIdentity) (caseInsensitive : bool) (available rawTotal : Z)
    (scans : list (result (option string * option string * partitionRow))) : result partition_state :=
  iter (fun _ => partition_row_step identity caseInsensitive available) scans (first_partition_state rawTotal).
End Partitions.

(** ** The statements *)

Definition identity_statement (caseInsensitive : bool) : string :=
  "SELECT table_schema, table_name, table_type, engine" +:+ newline +:+
  "FROM information_schema.tables" +:+ newline +:+
  "WHERE " +:+ metadataIdentifierComparison "table_schema" "?" caseInsensitive +:+ newline +:+
  "  AND " +:+ metadataIdentifierComparison "table_name" "?" caseInsensitive +:+ newline +:+
  "LIMIT 2".

Definition statistics_statement (caseInsensitive : bool) : string :=
  "SELECT table_schema, table_name, table_type, engine," +:+ newline +:+
  "       table_rows, data_length, index_length, auto_increment" +:+ newline +:+
  "FROM information_schema.tables" +:+ newline +:+
  "WHERE " +:+ metadataIdentifierComparison "table_schema" "?" caseInsensitive +:+ newline +:+
  "  AND " +:+ metadataIdentifierComparison "table_name" "?" caseInsensitive +:+ newline +:+
  "LIMIT 2".

Definition partitions_statement (caseInsensitive : bool) : string :=
  "SELECT table_schema, table_name," +:+ newline +:+
  "       partition_name, partition_ordinal_position, partition_method," +:+ newline +:+
  "       subpartition_name, subpartition_ordinal_position, subpartition_method," +:+ newline +:+
  "       table_rows, data_length, index_length" +:+ newline +:+
  "FROM information_schema.partitions" +:+ newline +:+
  "WHERE " +:+ metadataIdentifierComparison "table_schema" "?" caseInsensitive +:+ newline +:+
  "  AND " +:+ metadataIdentifierComparison "table_name" "?" caseInsensitive +:+ newline +:+
  "ORDER BY partition_ordinal_position, subpartition_ordinal_position".

(** What [Scan] reads into eleven [sql.RawBytes]. *)
Definition partition_scan (upstream : goerr) (row : raw_row + failure) : result (option string * option string * partitionRow) :=
  match row with
  | inr f => Err (classifyExecutionError f)
  | inl [schema; name; partitionName; partitionOrdinal; partitionMethod; subpartitionName; subpartitionOrdinal; subpartitionMethod;
         estimatedRows; dataBytes; indexBytes] =>
      Ok (schema, name, {| pr_partitionName := partitionName; pr_partitionOrdinal := partitionOrdinal; pr_partitionMethod := partitionMethod;
                           pr_subpartitionName := subpartitionName; pr_subpartitionOrdinal := subpartitionOrdinal;
                           pr_subpartitionMethod := subpartitionMethod; pr_estimatedRows := estimatedRows; pr_dataBytes := dataBytes;
                           pr_indexBytes := indexBytes |})
  | inl _ => Err upstream
  end.

(** The only row of an answer: none is [statisticsNotFoundError], a second one is ambiguous. *)
Definition only_row (upstream : goerr) (width : Z) (rows : rowset) : result raw_row :=
  match rs_rows rows with
  | [] => check? failed classifyExecutionError (rs_err rows) then Err statisticsNotFoundError
  | row :: rest =>
      let? raw := (match row with inr f => Err (classifyExecutionError f) | inl raw => if? negb (len raw =? width) return upstream then Ok raw end) in
      if? negb (len rest =? 0) return metadata_mismatch then
      check? failed classifyExecutionError (rs_err rows) then Ok raw
  end.

Definition innodb (engine : option string) : bool := equal_fold (raw_text engine) "InnoDB".

(** The row of the table's identity. *)
Definition identity_of (schema object : string) (caseInsensitive : bool) (row : raw_row) : result (tableIdentity * Z) :=
  match row with
  | [actualSchema; actualName; tableType; engine] =>
      if? negb (tokenIdentifierMatches (raw_text actualSchema) schema caseInsensitive) ||
          negb (tokenIdentifierMatches (raw_text actualName) object caseInsensitive)
      return metadata_mismatch then
      if? String.eqb (raw_text tableType) "VIEW" return view_unsupported then
      if? negb (String.eqb (raw_text tableType) "BASE TABLE") || negb (innodb engine) return statisticsNotFoundError then
      let? rawTotal := or_error (boundedRawTotal 0 row) result_too_large in
      Ok ({| ti_schema := raw_text actualSchema; ti_name := raw_text actualName; ti_engine := "InnoDB" |}, rawTotal)
  | _ => Err upstream_error
  end.

(** The row of the table's statistics. *)
Definition table_of (identity : tableIdentity) (caseInsensitive : bool) (rawTotal : Z) (row : raw_row) : result (TableStatistics * Z) :=
  match row with
  | [actualSchema; actualName; tableType; engine; rowEstimate; dataBytes; indexBytes; autoIncrement] =>
      if? negb (tokenIdentifierMatches (raw_text actualSchema) (ti_schema identity) caseInsensitive) ||
          negb (tokenIdentifierMatches (raw_text actualName) (ti_name identity) caseInsensitive) ||
          negb (String.eqb (raw_text tableType) "BASE TABLE") || negb (innodb engine)
      return statisticsNotFoundError then
      let? rawTotal := or_error (boundedRawTotal rawTotal row) result_too_large in
      let? estimatedRows := parseUnsignedMetric rowEstimate true in
      let? dataMetric := parseUnsignedMetric dataBytes true in
      let? indexMetric := parseUnsignedMetric indexBytes true in
      let? autoMetric := parseUnsignedMetric autoIncrement false in
      Ok ({| ts_estimatedRows := estimatedRows; ts_dataBytes := dataMetric; ts_indexBytes := indexMetric; ts_autoIncrement := autoMetric |}, rawTotal)
  | _ => Err upstream_error
  end.

(** ** The operation *)

Section Operation.
(** [now] is [time.Now().UTC()] when the operation asks for it. *)
Context {W : Type} `{Driver W} (SimpleFold : Z -> Z) (now : W -> Time).

Definition time_now_utc : M W Time := fun s => (Ok (now (fr_world s)), s).

(** The answer of a catalog query that is to have one row; the rows are closed before it is looked at. *)
Definition read_only_row (statement : string) (args : list Bind) (width : Z) : M W raw_row :=
  let! rows := QueryContext classifyQueryError statement args in
  defer_ignored drainAndCloseRows
    (let! upstream := now_upstream in
     let! row := lift (only_row upstream width rows) in
     do! CloseRows then ret row).

Definition readInnoDBBaseTableIdentity (authorized : AuthorizedObjectStatistics) (lowerCaseTableNames : Z) : M W (tableIdentity * Z) :=
  let caseInsensitive := negb (lowerCaseTableNames =? 0) in
  let! row := read_only_row (identity_statement caseInsensitive) [BindString (os_schema authorized); BindString (os_object authorized)] 4 in
  lift (identity_of (os_schema authorized) (os_object authorized) caseInsensitive row).

Definition readTableStatistics (authorized : AuthorizedObjectStatistics) (identity : tableIdentity) (lowerCaseTableNames rawTotal : Z)
  : M W (TableStatistics * Z) :=
  let caseInsensitive := negb (lowerCaseTableNames =? 0) in
  let! row := read_only_row (statistics_statement caseInsensitive) [BindString (os_schema authorized); BindString (os_object authorized)] 8 in
  lift (table_of identity caseInsensitive rawTotal row).

Definition readPartitionStatistics (authorized : AuthorizedObjectStatistics) (identity : tableIdentity)
    (lowerCaseTableNames rawTotal resultBytes maxResultBytes : Z) : M W (PartitioningResult * Z * Z * Z) :=
  let caseInsensitive := negb (lowerCaseTableNames =? 0) in
  let! rows := QueryContext classifyQueryError (partitions_statement caseInsensitive)
                 [BindString (os_schema authorized); BindString (os_object authorized)] in
  defer_ignored drainAndCloseRows
    (if! resultBytes <? nonePartitioningBytes return invalidStatisticsMetadata then
     let envelopeWithoutPartitioning := resultBytes - nonePartitioningBytes in
     let! upstream := now_upstream in
     let! st := lift (partition_rows SimpleFold identity caseInsensitive (maxResultBytes - envelopeWithoutPartitioning) rawTotal
                        (map (partition_scan upstream) (rs_rows rows))) in
     do! lift (failed classifyExecutionError (rs_err rows)) then
     do! CloseRows then
     let! (p, partitioningBytes, partitions, subpartitions) := lift (partitions_of st) in
     ret (p, envelopeWithoutPartitioning + partitioningBytes, partitions, subpartitions)).

(** The part between opening and releasing the connection. *)
Definition statistics_body (authorized : AuthorizedObjectStatistics) (envelopeBaseBytes : Z) : M W ObjectStatisticsResult :=
  let maximum := MaxResultBytes (os_limits authorized) in
  let! info := readServerInfo in
  let! semantics := lift (semanticsForLowerCaseTableNames (lowerCaseTableNames info)) in
  if! negb (bool_decide (semantics = os_semantics authorized)) return metadata_mismatch then
  let! (identity, rawBytes) := readInnoDBBaseTableIdentity authorized (lowerCaseTableNames info) in
  let! (table, rawBytes) := readTableStatistics authorized identity (lowerCaseTableNames info) rawBytes in
  let! resultBytes := lift (addTableStatisticsSize envelopeBaseBytes table maximum) in
  let! (partitioning, resultBytes, partitionCount, subpartitionCount) :=
    readPartitionStatistics authorized identity (lowerCaseTableNames info) rawBytes resultBytes maximum in
  let! time := time_now_utc in
  let observedAt := format_rfc3339nano time in
  let! resultBytes := lift (or_error (addEncodedSize resultBytes (slen observedAt - slen "0000-00-00T00:00:00Z") maximum) result_too_large) in
  do! or_discard clearDeadline then
  do! with_clearDeadline false then
  ret {| ot_observedAt := observedAt; ot_engine := "InnoDB"; ot_table := table; ot_partitioning := partitioning;
         ot_resultBytes := resultBytes; ot_partitionCount := partitionCount; ot_subpartitionCount := subpartitionCount |}.

Definition adapter_DescribeObjectStatistics (authorized : AuthorizedObjectStatistics) (envelopeBaseBytes : Z) : M W ObjectStatisticsResult :=
  let limits := os_limits authorized in
  if! negb (String.eqb (os_operation authorized) OperationDescribeObjectStatistics) ||
      negb (String.eqb (os_adapter authorized) AdapterMySQL8) || String.eqb (os_semanticsGeneration authorized) EmptyString ||
      (envelopeBaseBytes <? 0) || (MaxResultBytes limits <? envelopeBaseBytes)
  return upstream_error then
  with_connection (DeadlineMS limits) (statistics_body authorized envelopeBaseBytes).
End Operation.

(** ** Valid texts *)

Lemma smallest_fold_least SimpleFold fuel : forall value folded canonical,
  smallest_fold SimpleFold fuel value folded canonical = least_on_circle SimpleFold fuel value folded canonical.
Proof.
  induction fuel as [|fuel IH]; intros value folded canonical; cbn [smallest_fold least_on_circle]; [done|].
  destruct (folded =? value); [done|]. rewrite IH. f_equal. destruct (Z.ltb_spec folded canonical); lia.
Qed.

Lemma canonical_folded SimpleFold name : canonicalMetadataName SimpleFold name = folded_name SimpleFold name.
Proof. unfold canonicalMetadataName, folded_name. apply map_ext. intros r. apply smallest_fold_least. Qed.

Lemma available_name SimpleFold names name key : availableMetadataName SimpleFold names name = Some key ->
  insertStatisticsMetadataName SimpleFold names name = Some (key :: names).
Proof.
  unfold availableMetadataName, insertStatisticsMetadataName. cbv zeta. rewrite canonical_folded.
  destruct (bool_decide _); [done|]. by intros [= <-].
Qed.

Lemma forbidden_split code : forbidden_character code = is_control code || isBidiFormattingRune code.
Proof. unfold forbidden_character, is_control, isBidiFormattingRune. by rewrite !orb_assoc. Qed.

Lemma metadata_name raw name : validatedMetadataName raw = Ok name -> validStatisticsMetadataName name = true.
Proof.
  unfold validatedMetadataName. cbv zeta. intros [Hb H]%if_err_ok. apply if_err_ok in H as [Hr [= <-]].
  rewrite !orb_false_iff in Hb. destruct Hb as (((Hn & Hl) & Hv) & Hc). unfold validStatisticsMetadataName.
  rewrite Hl, Hv, Hc, !orb_false_r. destruct (String.eqb_spec (raw_text raw) EmptyString) as [E|]; [by rewrite E in Hn|]. cbn [orb].
  apply forallb_forall. intros r Hin. rewrite forbidden_split. apply negb_true_iff. destruct (_ || _) eqn:E; [|done].
  enough (Ht : existsb (fun r => is_control (rune_code r) || isBidiFormattingRune (rune_code r)) (runes (raw_text raw)) = true) by congruence.
  apply existsb_exists. by exists r.
Qed.

(** A metric that was parsed: digits, with the mark that was asked for. *)
Definition good_metric (estimated : bool) (m : option UnsignedMetric) : Prop :=
  validStatisticsMetric m estimated = true /\ from_option (fun m => um_estimated m = estimated /\ sforall is_digit (um_value m) = true) True m.

Lemma parsed_metric raw estimated m : parseUnsignedMetric raw estimated = Ok m -> good_metric estimated m.
Proof.
  unfold parseUnsignedMetric. destruct raw as [raw|]; [|by intros [= <-]]. intros [Hb H]%if_err_ok. apply if_err_ok in H as [Hd%negb_false_iff H].
  destruct (ParseUint 64 raw) as [v|] eqn:Hp; [|done]. injection H as <-. rewrite !orb_false_iff in Hb. destruct Hb as ((Hn & Hl) & Hz).
  split; [|done]. unfold validStatisticsMetric. cbn [um_value um_estimated]. rewrite Hn, Hl, Hz, Hd, Hp, eqb_reflx. done.
Qed.

Lemma partition_statistics row s : makePartitionStatistics row = Ok s ->
  validPartitionStatistics s = true /\ Forall (good_metric true) [pn_estimatedRows s; pn_dataBytes s; pn_indexBytes s].
Proof.
  unfold makePartitionStatistics. intros (a & Ha & H)%rbind_ok. apply rbind_ok in H as (b & Hb & H). apply rbind_ok in H as (c & Hc & [= <-]).
  apply parsed_metric in Ha, Hb, Hc. split; [|by rewrite !Forall_cons]. unfold validPartitionStatistics. cbn.
  destruct Ha as [-> _], Hb as [-> _], Hc as [-> _]. done.
Qed.

Definition top_methods : list string := ["hash"; "linear_hash"; "key"; "linear_key"; "range"; "range_columns"; "list"; "list_columns"].

Lemma method_plain method : In method top_methods -> slen (marshal (JStr method)) = quoted_size method.
Proof. intros H. repeat destruct H as [<-|H]; [reflexivity..|done]. Qed.

(** ** Exact sizes *)

Lemma digits_len v : sforall is_digit v = true -> slen (marshal (JStr v)) = quoted_size v.
Proof. intros Hd. unfold quoted_size. change (marshal (JStr v)) with (marshal_string v). rewrite marshal_plain by by apply digits_plain. lia. Qed.

Lemma metric_len m : sforall is_digit (um_value m) = true -> slen (marshal (metric_json (Some m))) = table_metric_size m.
Proof.
  intros Hd. unfold metric_json, table_metric_size, json_frame. rewrite struct_len by done.
  unfold sum_of, field_bytes, text_field. cbn [foldr fst snd]. rewrite (digits_len (um_value m)) by done. closed_lengths.
  destruct (um_estimated m); cbn [marshal]; [change (slen "true") with 4|change (slen "false") with 5]; lia.
Qed.

Lemma partition_metric_len m : good_metric true m -> slen (marshal (metric_json m)) = partition_metric_size m.
Proof.
  destruct m as [m|]; intros [_ H]; [|reflexivity]. destruct H as [He Hd]. rewrite metric_len by done.
  unfold table_metric_size, partition_metric_size, json_frame. rewrite He. closed_lengths. lia.
Qed.

Lemma add_metric_sizes_exact l : forall size maximum n, Forall (good_metric true) l -> add_metric_sizes size l maximum = Some n ->
  n = size + sum_of (fun m => slen (marshal (metric_json m))) l.
Proof.
  induction l as [|m l IH]; intros size maximum n Hl; cbn [add_metric_sizes].
  - intros [= <-]. cbn. lia.
  - apply Forall_cons in Hl as [Hm Hl]. intros (size' & (_ & _ & -> & _)%addEncodedSize_iff & Hn)%bind_Some. apply IH in Hn; [|done].
    rewrite sum_of_cons, partition_metric_len by done. lia.
Qed.

Definition good_statistics (s : PartitionStatistics) : Prop := Forall (good_metric true) [pn_estimatedRows s; pn_dataBytes s; pn_indexBytes s].

Lemma statistics_exact s maximum n : good_statistics s -> encodedPartitionStatisticsSize s maximum = Some n ->
  n = slen (marshal (partition_statistics_json s)).
Proof.
  intros Hs. unfold encodedPartitionStatisticsSize. cbv zeta. destruct (maximum <? _); [done|]. intros Hn. apply add_metric_sizes_exact in Hn; [|done].
  rewrite Hn. unfold partition_statistics_json, json_frame. rewrite struct_len by done. unfold sum_of, field_bytes. cbn [foldr fst snd].
  closed_lengths. lia.
Qed.

Definition entry_text (e : PartitionEntry) : json := entry_json (pe_name e) (pe_ordinal e) (pe_statistics e).

Lemma entry_exact e maximum n : good_statistics (pe_statistics e) -> encodedPartitionEntrySize e maximum = Some n ->
  n = slen (marshal (entry_text e)).
Proof.
  intros Hs. unfold encodedPartitionEntrySize. cbv zeta. intros (nameBytes & [-> _]%encodedMetadataJSONStringSize_iff & H)%bind_Some.
  apply bind_Some in H as (statisticsBytes & Hb & H). apply statistics_exact in Hb as ->; [|done].
  apply addEncodedSize_iff in H as (_ & _ & -> & _). unfold entry_text, entry_json, json_frame. rewrite struct_len by done.
  unfold sum_of, field_bytes, text_field. cbn [foldr fst snd]. closed_lengths. change (marshal (JInt (pe_ordinal e))) with (itoa (pe_ordinal e)).
  change (marshal_string (pe_name e)) with (marshal (JStr (pe_name e))). lia.
Qed.

Lemma array_snoc l x : slen (marshal (JArr (l ++ [x])%list)) = slen (marshal (JArr l)) + slen (marshal x) + (if len l =? 0 then 0 else 1).
Proof.
  rewrite !json_array_len. induction l as [|y l IH]; [cbn [map join app]; change (len (@nil json) =? 0) with true; cbv iota; change (slen EmptyString) with 0; lia|].
  rewrite len_cons. pose proof (len_nonneg l). replace (1 + len l =? 0) with false by lia.
  destruct l as [|z l].
  - cbn [map join app]. rewrite !slen_app. change (slen ",") with 1. lia.
  - rewrite len_cons in IH. pose proof (len_nonneg l). replace (1 + len l =? 0) with false in IH by lia.
    cbn [app map] in *. change (join "," (marshal y :: marshal z :: map marshal (l ++ [x])%list)) with (marshal y +:+ "," +:+ join "," (marshal z :: map marshal (l ++ [x])%list)).
    change (join "," (marshal y :: marshal z :: map marshal l)) with (marshal y +:+ "," +:+ join "," (marshal z :: map marshal l)).
    rewrite !slen_app. change (slen ",") with 1. lia.
Qed.

(** Replacing the last item changes the length by the difference. *)
Lemma array_last l x y : slen (marshal (JArr (l ++ [y])%list)) = slen (marshal (JArr (l ++ [x])%list)) + slen (marshal y) - slen (marshal x).
Proof. rewrite !array_snoc. lia. Qed.

(** ** The loop over the partitions *)

Lemma or_error_ok {A} (o : option A) e a : or_error o e = Ok a <-> o = Some a.
Proof. destruct o; cbn; split; congruence. Qed.

Lemma entry_named SimpleFold text index ordinal name (good : bool) names key : ordinal = index + 1 ->
  validStatisticsMetadataName name = true -> availableMetadataName SimpleFold names name = Some key -> good = true ->
  named_entry SimpleFold text index ordinal name good names = Ok (key :: names).
Proof.
  intros -> Hn Hk ->. unfold named_entry. rewrite Z.eqb_refl, Hn. cbn [negb orb]. by rewrite (available_name _ _ _ _ Hk).
Qed.

Section Loop.
Context (SimpleFold : Z -> Z).

Definition partitioned_json (method : string) (entries : list json) : json := struct_json [
  text_field "kind" "partitioned"; text_field "method" method; (true, "partitions", JArr entries)].

(** A partitioned table as far as it was read. *)
Record partitioned_so_far (st : partition_state) : Prop := {
  pa_kind : pt_kind (ps_partitioning st) = "partitioned";
  pa_none : pt_subpartitionMethod (ps_partitioning st) = EmptyString /\ pt_partitionGroups (ps_partitioning st) = [];
  pa_entries : iter (partition_step SimpleFold) (pt_partitions (ps_partitioning st)) [] = Ok (ps_partitionNames st);
  pa_begun : pt_partitions (ps_partitioning st) <> [] -> In (pt_method (ps_partitioning st)) top_methods /\
    ps_partitioningBytes st = slen (marshal (partitioned_json (pt_method (ps_partitioning st)) (map entry_text (pt_partitions (ps_partitioning st)))));
}.

Lemma partitioned_len method entries :
  slen (marshal (partitioned_json method entries)) =
  json_frame "{'kind':'partitioned','method':,'partitions':[]}" + slen (marshal (JStr method)) + slen (marshal (JArr entries)) - 2.
Proof.
  unfold partitioned_json, json_frame. rewrite struct_len by done. unfold sum_of, field_bytes, text_field. cbn [foldr fst snd]. closed_lengths. lia.
Qed.

Lemma same_method before method : In before top_methods -> other_method before method = false -> before = method.
Proof.
  intros Hb Ho. unfold other_method in Ho. apply andb_false_iff in Ho as [Hn|He]; [|by apply negb_false_iff, String.eqb_eq in He].
  exfalso. repeat destruct Hb as [<-|Hb]; try discriminate Hn. done.
Qed.

Lemma valid_top method : validTopPartitionMethod method = true -> In method top_methods.
Proof. apply contains_In. Qed.

Lemma partitioned_row_ok row available st st' : partitioned_so_far st -> partitioned_row SimpleFold row available st = Ok st' ->
  partitioned_so_far st' /\ len (pt_partitions (ps_partitioning st')) = len (pt_partitions (ps_partitioning st)) + 1 /\
  ps_leafCount st' = ps_leafCount st.
Proof.
  intros [Hkind [Hsub Hgroups] Hentries Hbegun] H. unfold partitioned_row in H. cbv zeta in H. set (p := ps_partitioning st) in *.
  apply if_err_ok in H as [_ H]. apply rbind_ok in H as ([entry method] & Hentry & H). apply if_err_ok in H as [Hmeth H].
  apply rbind_ok in H as (key & Hkey%or_error_ok & H). apply rbind_ok in H as (base & Hbase & H).
  apply rbind_ok in H as (entryBytes & Hbytes%or_error_ok & H). apply rbind_ok in H as (total & Htotal%or_error_ok & [= <-]).
  rewrite !orb_false_iff, !negb_false_iff in Hmeth. destruct Hmeth as ((Htop & Hother) & Hord%Z.eqb_eq). apply valid_top in Htop.
  unfold makePartitionEntry in Hentry. apply rbind_ok in Hentry as (name & Hname & Hentry). apply rbind_ok in Hentry as (ordinal & _ & Hentry).
  destruct (mapPartitionMethod _) as [method'|]; [|done]. apply rbind_ok in Hentry as (stats & Hstats & [= <- ->]). cbn [pe_name pe_ordinal] in *.
  apply metadata_name in Hname. apply partition_statistics in Hstats as [Hvalid Hgood]. apply entry_exact in Hbytes; [|exact Hgood].
  apply addEncodedSize_iff in Htotal as (_ & _ & Htotal & _). cbn [ps_partitioning ps_partitioningBytes ps_partitionNames ps_leafCount pt_partitions
    pt_method pt_kind pt_subpartitionMethod pt_partitionGroups of_methods] in *.
  split; [|split; [by rewrite len_app|done]]. split; cbn [ps_partitioning ps_partitioningBytes ps_partitionNames pt_partitions pt_method pt_kind pt_subpartitionMethod pt_partitionGroups].
  - done.
  - done.
  - unfold iter. rewrite iter_from_app. unfold iter in Hentries. rewrite Hentries. cbn [rbind iter_from]. unfold partition_step. cbn [pe_ordinal pe_name pe_statistics].
    rewrite (entry_named SimpleFold _ _ _ _ _ _ key); [done|lia|done|done|done].
  - intros _. split; [done|]. rewrite map_app, partitioned_len. cbn [map]. rewrite array_snoc, method_plain by done. subst total.
    rewrite <- Hbytes.
    assert (Hmap : len (map entry_text (pt_partitions p)) = len (pt_partitions p)) by (unfold len; by rewrite length_map). rewrite Hmap.
    destruct (len (pt_partitions p) =? 0) eqn:E.
    + apply len_zero in E. rewrite E in *. apply or_error_ok in Hbase. revert Hbase. unfold encodedPartitioningSize. cbn [pt_kind pt_method pt_partitions of_methods]. rewrite Hkind, E.
      change (String.eqb "partitioned" "none") with false. change (String.eqb "partitioned" "partitioned") with true. cbv iota zeta.
      destruct (available <? _); [done|]. cbn [add_items]. intros [= <-]. cbn [map]. change (slen (marshal (JArr []))) with 2. lia.
    + injection Hbase as <-. destruct Hbegun as [Hm Hb]; [by intros E'; rewrite E' in E|]. rewrite partitioned_len in Hb.
      pose proof (same_method _ _ Hm Hother) as Hsame.
      rewrite Hsame, method_plain in Hb by done. lia.
Qed.

(** A subpartitioned table as far as it was read: [n] subpartitions. *)
Definition sub_text (e : SubpartitionEntry) : json := entry_json (se_name e) (se_ordinal e) (se_statistics e).
Definition subpartitioned_json (method subMethod : string) (groups : list json) : json := struct_json [
  text_field "kind" "subpartitioned"; text_field "method" method; text_field "subpartition_method" subMethod; (true, "partitions", JArr groups)].

Definition no_groups : group_state := {| gs_partitionNames := []; gs_subpartitionNames := []; gs_leafCount := 0 |}.

Record subpartitioned_so_far (n : Z) (st : partition_state) : Prop := {
  sp_kind : pt_kind (ps_partitioning st) = "subpartitioned";
  sp_none : pt_partitions (ps_partitioning st) = [];
  sp_groups : iter (group_step SimpleFold) (pt_partitionGroups (ps_partitioning st)) no_groups =
    Ok {| gs_partitionNames := ps_partitionNames st; gs_subpartitionNames := ps_subpartitionNames st; gs_leafCount := n |};
  sp_begun : pt_partitionGroups (ps_partitioning st) <> [] ->
    validSubpartitionParentMethod (pt_method (ps_partitioning st)) = true /\
    validSubpartitionMethod (pt_subpartitionMethod (ps_partitioning st)) = true /\
    ps_partitioningBytes st = slen (marshal (subpartitioned_json (pt_method (ps_partitioning st)) (pt_subpartitionMethod (ps_partitioning st))
      (map group_json (pt_partitionGroups (ps_partitioning st)))));
}.

Lemma subpartitioned_len method subMethod groups :
  slen (marshal (subpartitioned_json method subMethod groups)) =
  json_frame "{'kind':'subpartitioned','method':,'subpartition_method':,'partitions':[]}" + slen (marshal (JStr method)) +
  slen (marshal (JStr subMethod)) + slen (marshal (JArr groups)) - 2.
Proof.
  unfold subpartitioned_json, json_frame. rewrite struct_len by done. unfold sum_of, field_bytes, text_field. cbn [foldr fst snd]. closed_lengths. lia.
Qed.

Lemma group_len g : slen (marshal (group_json g)) =
  json_frame "{'name':,'ordinal':,'subpartitions':[]}" + slen (itoa (pg_ordinal g)) + slen (marshal (JStr (pg_name g))) +
  slen (marshal (JArr (map sub_text (pg_subpartitions g)))) - 2.
Proof.
  unfold group_json, json_frame. fold sub_text. rewrite struct_len by done. unfold sum_of, field_bytes, text_field. cbn [foldr fst snd]. closed_lengths.
  change (marshal (JInt (pg_ordinal g))) with (itoa (pg_ordinal g)). lia.
Qed.

Lemma group_exact name ordinal maximum n :
  encodedPartitionGroupSize {| pg_name := name; pg_ordinal := ordinal; pg_subpartitions := [] |} maximum = Some n ->
  n = slen (marshal (group_json {| pg_name := name; pg_ordinal := ordinal; pg_subpartitions := [] |})).
Proof.
  unfold encodedPartitionGroupSize. cbn [pg_name pg_ordinal pg_subpartitions add_items].
  intros (nameBytes & [-> _]%encodedMetadataJSONStringSize_iff & [= <-])%bind_Some. rewrite group_len. cbn [pg_name pg_ordinal pg_subpartitions map].
  change (slen (marshal (JArr []))) with 2. change (marshal (JStr name)) with (marshal_string name). lia.
Qed.

Lemma append_entry_snoc front g e : append_entry (front ++ [g])%list e =
  (front ++ [{| pg_name := pg_name g; pg_ordinal := pg_ordinal g; pg_subpartitions := (pg_subpartitions g ++ [e])%list |}])%list.
Proof.
  induction front as [|h front IH]; [done|]. cbn [app]. rewrite <- IH. destruct front; done.
Qed.

Lemma named_entry_good text index ordinal name good names names' :
  named_entry SimpleFold text index ordinal name good names = Ok names' -> named_entry SimpleFold text index ordinal name true names = Ok names'.
Proof.
  unfold named_entry. intros [Hb H]%if_err_ok. rewrite Hb. destruct (insertStatisticsMetadataName _ _ _); [|done]. cbn [negb].
  by apply if_err_ok in H as [_ H].
Qed.

Lemma subpartition_entry subs e names names' key : iter (subpartition_step SimpleFold) subs names = Ok names' ->
  se_ordinal e = len subs + 1 -> validStatisticsMetadataName (se_name e) = true -> validPartitionStatistics (se_statistics e) = true ->
  availableMetadataName SimpleFold names' (se_name e) = Some key ->
  iter (subpartition_step SimpleFold) (subs ++ [e])%list names = Ok (key :: names').
Proof.
  intros Hi Ho Hn Hs Hk. unfold iter in *. rewrite iter_from_app, Hi. cbn [rbind iter_from]. unfold subpartition_step.
  rewrite (entry_named SimpleFold _ _ _ _ _ _ key); [done|lia|done|done|done].
Qed.

(** One more entry in the last group. *)
Lemma group_grows front g e names subNames subNames' n key :
  iter (group_step SimpleFold) (front ++ [g])%list no_groups = Ok {| gs_partitionNames := names; gs_subpartitionNames := subNames; gs_leafCount := n |} ->
  n + 1 <= maxPhysicalPartitionAuditCount -> subNames' = key :: subNames ->
  se_ordinal e = len (pg_subpartitions g) + 1 -> validStatisticsMetadataName (se_name e) = true -> validPartitionStatistics (se_statistics e) = true ->
  availableMetadataName SimpleFold subNames (se_name e) = Some key ->
  iter (group_step SimpleFold) (append_entry (front ++ [g])%list e) no_groups =
    Ok {| gs_partitionNames := names; gs_subpartitionNames := subNames'; gs_leafCount := n + 1 |}.
Proof.
  intros Hi Hn -> Ho Hv Hs Hk. rewrite append_entry_snoc. unfold iter in *. rewrite iter_from_app in Hi |- *.
  apply rbind_ok in Hi as (s0 & Hfront & Hg). rewrite Hfront. cbn [rbind iter_from] in *. apply rbind_ok in Hg as (s1 & Hg & [= ->]).
  unfold group_step in *. cbn [pg_name pg_ordinal pg_subpartitions]. apply rbind_ok in Hg as (names0 & Hnamed & Hg).
  apply if_err_ok in Hg as [Hlimit Hg]. apply rbind_ok in Hg as (leaves & Hleaves & [= -> -> <-]).
  assert (Hl : len (pg_subpartitions g ++ [e])%list = len (pg_subpartitions g) + 1) by by rewrite len_app.
  pose proof (len_nonneg (pg_subpartitions g)). rewrite Hl. replace (len (pg_subpartitions g) + 1 =? 0) with false by lia. change (negb false) with true. rewrite (named_entry_good _ _ _ _ _ _ _ Hnamed). cbn [rbind].
  replace (maxPhysicalPartitionAuditCount - gs_leafCount s0 <? len (pg_subpartitions g) + 1) with false by lia.
  rewrite (subpartition_entry _ _ _ _ _ Hleaves Ho Hv Hs Hk). cbn [rbind]. do 2 f_equal. lia.
Qed.

(** A new group with its first entry. *)
Lemma group_opens groups name ordinal e names subNames n key subKey :
  iter (group_step SimpleFold) groups no_groups = Ok {| gs_partitionNames := names; gs_subpartitionNames := subNames; gs_leafCount := n |} ->
  n + 1 <= maxPhysicalPartitionAuditCount -> ordinal = len groups + 1 -> validStatisticsMetadataName name = true ->
  availableMetadataName SimpleFold names name = Some key ->
  se_ordinal e = 1 -> validStatisticsMetadataName (se_name e) = true -> validPartitionStatistics (se_statistics e) = true ->
  availableMetadataName SimpleFold subNames (se_name e) = Some subKey ->
  iter (group_step SimpleFold) (append_entry (groups ++ [{| pg_name := name; pg_ordinal := ordinal; pg_subpartitions := [] |}])%list e) no_groups =
    Ok {| gs_partitionNames := key :: names; gs_subpartitionNames := subKey :: subNames; gs_leafCount := n + 1 |}.
Proof.
  intros Hi Hn Hord Hname Hkey Ho Hv Hs Hk. rewrite append_entry_snoc. unfold iter in *. rewrite iter_from_app, Hi. cbn [rbind iter_from].
  unfold group_step. cbn [pg_name pg_ordinal pg_subpartitions app]. rewrite (entry_named SimpleFold _ _ _ _ _ _ key); [|lia|done|done|done]. cbn [rbind].
  cbn [gs_leafCount gs_subpartitionNames]. change (len [e]) with 1. replace (maxPhysicalPartitionAuditCount - n <? 1) with false by lia.
  pose proof (subpartition_entry [] e subNames subNames subKey eq_refl) as Hone. cbn [app] in Hone. rewrite Hone by done. cbn [rbind]. done.
Qed.

(** The bytes that a row adds are those that its entry and its group add to the text. *)
Lemma groups_len groups name ordinal e :
  slen (marshal (JArr (map group_json (append_entry (groups ++ [{| pg_name := name; pg_ordinal := ordinal; pg_subpartitions := [] |}])%list e)))) =
  slen (marshal (JArr (map group_json groups))) +
  slen (marshal (group_json {| pg_name := name; pg_ordinal := ordinal; pg_subpartitions := [] |})) +
  (if len groups =? 0 then 0 else 1) + slen (marshal (sub_text e)).
Proof.
  rewrite append_entry_snoc, map_app. cbn [map]. rewrite array_snoc, !group_len. cbn [pg_name pg_ordinal pg_subpartitions app map].
  assert (Hmap : len (map group_json groups) = len groups) by (unfold len; by rewrite length_map). rewrite Hmap.
  pose proof (array_snoc [] (sub_text e)) as Hone. cbn [app] in Hone. rewrite Hone. change (len (@nil json) =? 0) with true.
  change (slen (marshal (JArr []))) with 2. cbv iota. lia.
Qed.

Lemma groups_len_last front g e :
  slen (marshal (JArr (map group_json (append_entry (front ++ [g])%list e)))) =
  slen (marshal (JArr (map group_json (front ++ [g])%list))) + (if len (pg_subpartitions g) =? 0 then 0 else 1) + slen (marshal (sub_text e)).
Proof.
  rewrite append_entry_snoc, !map_app. cbn [map]. rewrite (array_last _ (group_json g)), !group_len. cbn [pg_name pg_ordinal pg_subpartitions].
  rewrite map_app. cbn [map]. rewrite (array_snoc (map sub_text (pg_subpartitions g))).
  assert (Hmap : len (map sub_text (pg_subpartitions g)) = len (pg_subpartitions g)) by (unfold len; by rewrite length_map). rewrite Hmap. lia.
Qed.

Lemma parent_top method : validSubpartitionParentMethod method = true -> In method top_methods.
Proof. intros H%contains_In. cbn in *. tauto. Qed.
Lemma sub_top method : validSubpartitionMethod method = true -> In method top_methods.
Proof. intros H%contains_In. cbn in *. tauto. Qed.

Lemma subpartition_methods_ok row method subMethod : subpartition_methods row = Ok (method, subMethod) ->
  validSubpartitionParentMethod method = true /\ validSubpartitionMethod subMethod = true.
Proof.
  unfold subpartition_methods. intros (m & _ & H)%rbind_ok. apply if_err_ok in H as [Hm%negb_false_iff H].
  apply rbind_ok in H as (m' & _ & H). by apply if_err_ok in H as [Hm'%negb_false_iff [= <- <-]].
Qed.

Lemma sub_entry_exact e maximum n : good_statistics (se_statistics e) -> encodedSubpartitionEntrySize e maximum = Some n ->
  n = slen (marshal (sub_text e)).
Proof. intros Hs. by apply entry_exact. Qed.

(** Where a row belongs, and what its bytes are. *)
Lemma place_new p names name ordinal place : place_of SimpleFold p names name ordinal = Ok place -> gp_new place = true ->
  exists key, availableMetadataName SimpleFold names name = Some key /\ ordinal = len (pt_partitionGroups p) + 1 /\
    place = {| gp_new := true; gp_key := Some key; gp_count := 0 |}.
Proof.
  unfold place_of. cbv zeta. set (opens := rbind _ _).
  assert (Hopens : opens = Ok place -> exists key, availableMetadataName SimpleFold names name = Some key /\
    ordinal = len (pt_partitionGroups p) + 1 /\ place = {| gp_new := true; gp_key := Some key; gp_count := 0 |}).
  { intros (key & Hk%or_error_ok & H)%rbind_ok. apply if_err_ok in H as [Ho%negb_false_iff%Z.eqb_eq [= <-]]. by exists key. }
  clearbody opens. destruct (last _) as [g|]; [|by intros H _; apply Hopens]. destruct (negb _); [by intros H _; apply Hopens|].
  intros H Hnew. apply if_err_ok in H as [_ H]. injection H as <-. done.
Qed.

Lemma place_old p names name ordinal place : place_of SimpleFold p names name ordinal = Ok place -> gp_new place = false ->
  exists front g, pt_partitionGroups p = (front ++ [g])%list /\ place = {| gp_new := false; gp_key := None; gp_count := len (pg_subpartitions g) |}.
Proof.
  unfold place_of. cbv zeta. set (opens := rbind _ _).
  assert (Hopens : opens = Ok place -> gp_new place = true).
  { intros (key & _ & H)%rbind_ok. by apply if_err_ok in H as [_ [= <-]]. }
  clearbody opens. destruct (last _) as [g|] eqn:Hl; [|by intros H%Hopens ?; congruence]. destruct (negb _); [by intros H%Hopens ?; congruence|].
  intros H _. apply if_err_ok in H as [_ H]. injection H as <-. apply last_Some in Hl as [front Hf]. by exists front, g.
Qed.

Lemma subpartition_bytes_new p name ordinal key e base available total : good_statistics (se_statistics e) ->
  subpartition_bytes p {| gp_new := true; gp_key := key; gp_count := 0 |} {| pg_name := name; pg_ordinal := ordinal; pg_subpartitions := [] |} e base available = Some total ->
  total = base + slen (marshal (group_json {| pg_name := name; pg_ordinal := ordinal; pg_subpartitions := [] |})) +
    (if len (pt_partitionGroups p) =? 0 then 0 else 1) + slen (marshal (sub_text e)).
Proof.
  intros Hs. unfold subpartition_bytes. cbn [gp_new gp_count]. intros (inc & Hinc & H)%bind_Some. apply bind_Some in Hinc as (gb & Hg%group_exact & [= <-]).
  apply bind_Some in H as (eb & He%sub_entry_exact & H); [|done]. apply addEncodedSize_iff in H as (_ & _ & -> & _).
  change (0 =? 0) with true. cbv iota. destruct (len (pt_partitionGroups p) =? 0); lia.
Qed.

Lemma subpartition_bytes_old p key count group e base available total : good_statistics (se_statistics e) ->
  subpartition_bytes p {| gp_new := false; gp_key := key; gp_count := count |} group e base available = Some total ->
  total = base + (if count =? 0 then 0 else 1) + slen (marshal (sub_text e)).
Proof.
  intros Hs. unfold subpartition_bytes. cbn [gp_new gp_count]. intros (inc & [= <-] & H)%bind_Some.
  apply bind_Some in H as (eb & He%sub_entry_exact & H); [|done]. apply addEncodedSize_iff in H as (_ & _ & -> & _).
  destruct (count =? 0); lia.
Qed.

Lemma fresh_bytes p method subMethod available base : pt_kind p = "subpartitioned" -> pt_partitionGroups p = [] ->
  validSubpartitionParentMethod method = true -> validSubpartitionMethod subMethod = true ->
  encodedPartitioningSize (of_methods method subMethod p) available = Some base ->
  base = slen (marshal (subpartitioned_json method subMethod [])).
Proof.
  intros Hkind Hnone Hm Hs. unfold encodedPartitioningSize. cbn [pt_kind pt_method pt_subpartitionMethod pt_partitions pt_partitionGroups of_methods]. rewrite Hkind, Hnone.
  change (String.eqb "subpartitioned" "none") with false. change (String.eqb "subpartitioned" "partitioned") with false. change (String.eqb "subpartitioned" "subpartitioned") with true. cbv iota zeta.
  destruct (available <? _); [done|]. cbn [add_items]. intros [= <-]. rewrite subpartitioned_len. change (slen (marshal (JArr []))) with 2.
  rewrite (method_plain method (parent_top _ Hm)), (method_plain subMethod (sub_top _ Hs)). lia.
Qed.

Lemma subpartitioned_row_ok n row available st st' : subpartitioned_so_far n st -> n + 1 <= maxPhysicalPartitionAuditCount ->
  subpartitioned_row SimpleFold row available st = Ok st' ->
  subpartitioned_so_far (n + 1) st' /\ pt_partitionGroups (ps_partitioning st') <> [] /\ ps_leafCount st' = ps_leafCount st.
Proof.
  intros [Hkind Hnone Hgroups Hbegun] Hn H. unfold subpartitioned_row in H. cbv zeta in H. set (p := ps_partitioning st) in *.
  apply if_err_ok in H as [_ H]. apply rbind_ok in H as (name & Hname%metadata_name & H). apply rbind_ok in H as (ordinal & _ & H).
  apply rbind_ok in H as ([method subMethod] & Hmethods & H). apply if_err_ok in H as [Hsame H]. apply rbind_ok in H as (place & Hplace & H).
  apply rbind_ok in H as (subName & Hsub%metadata_name & H). apply rbind_ok in H as (subKey & Hkey%or_error_ok & H).
  apply rbind_ok in H as (subOrdinal & _ & H). apply if_err_ok in H as [Hord%negb_false_iff%Z.eqb_eq H].
  apply rbind_ok in H as (stats & Hstats & H). apply rbind_ok in H as (base & Hbase & H). apply rbind_ok in H as (total & Htotal%or_error_ok & [= <-]).
  apply subpartition_methods_ok in Hmethods as [Hm Hs]. apply partition_statistics in Hstats as [Hvalid Hgood].
  apply orb_false_iff in Hsame as [Hmeth Hsubmeth]. set (e := {| se_name := subName; se_ordinal := subOrdinal; se_statistics := stats |}) in *.
  cbn [pt_partitionGroups of_methods] in Hbase, Htotal, Hplace |- *.
  assert (Hb : base = slen (marshal (subpartitioned_json method subMethod (map group_json (pt_partitionGroups p))))).
  { destruct (len (pt_partitionGroups p) =? 0) eqn:E.
    - apply len_zero in E. rewrite E. apply or_error_ok in Hbase. by apply (fresh_bytes p _ _ available).
    - injection Hbase as <-. destruct Hbegun as (Hm' & Hs' & Hb); [by intros E'; rewrite E' in E|].
      rewrite (same_method _ _ (parent_top _ Hm') Hmeth), (same_method _ _ (sub_top _ Hs') Hsubmeth) in Hb. exact Hb. }
  destruct (gp_new place) eqn:Hnew.
  - destruct (place_new _ _ _ _ _ Hplace Hnew) as (key & Hk & Ho & ->). cbn [pt_partitionGroups of_methods gp_key gp_count] in *.
    apply subpartition_bytes_new in Htotal; [|exact Hgood]. split; [|split; [|done]].
    + split; cbn [ps_partitioning ps_partitioningBytes ps_partitionNames ps_subpartitionNames pt_partitions pt_method pt_kind pt_subpartitionMethod pt_partitionGroups of_methods from_option].
      * done.
      * done.
      * apply group_opens with (n := n); [exact Hgroups|done|done|done|done|cbn; lia|done|done|done].
      * intros _. split; [done|]. split; [done|]. rewrite subpartitioned_len, groups_len. rewrite subpartitioned_len in Hb. cbn [pt_partitionGroups of_methods] in Htotal. lia.
    + cbn. rewrite append_entry_snoc. by destruct (pt_partitionGroups p).
  - destruct (place_old _ _ _ _ _ Hplace Hnew) as (front & g & Hfront & ->). cbn [pt_partitionGroups of_methods gp_key gp_count] in *.
    apply subpartition_bytes_old in Htotal; [|exact Hgood]. split; [|split; [|done]].
    + split; cbn [ps_partitioning ps_partitioningBytes ps_partitionNames ps_subpartitionNames pt_partitions pt_method pt_kind pt_subpartitionMethod pt_partitionGroups of_methods from_option].
      * done.
      * done.
      * rewrite Hfront in *. apply group_grows with (subNames := ps_subpartitionNames st) (key := subKey); [exact Hgroups|done|done|done|done|done|done].
      * intros _. split; [done|]. split; [done|]. rewrite Hfront in *. rewrite subpartitioned_len, groups_len_last. rewrite subpartitioned_len in Hb. lia.
    + cbn. rewrite Hfront, append_entry_snoc. by destruct front.
Qed.

(** ** What the rows give *)

Record rows_so_far (st : partition_state) : Prop := {
  rw_count : 0 <= ps_leafCount st <= maxPhysicalPartitionLeaves;
  rw_shape :
    (ps_leafCount st = 0 /\ ps_partitioning st = zero_partitioning /\ ps_partitioningBytes st = nonePartitioningBytes /\
      ps_partitionNames st = [] /\ ps_subpartitionNames st = []) \/
    (ps_leafCount st = 1 /\ ps_partitioning st = of_kind "none" zero_partitioning /\ ps_partitioningBytes st = nonePartitioningBytes) \/
    (partitioned_so_far st /\ pt_partitions (ps_partitioning st) <> [] /\ len (pt_partitions (ps_partitioning st)) = ps_leafCount st) \/
    (subpartitioned_so_far (ps_leafCount st) st /\ pt_partitionGroups (ps_partitioning st) <> [] /\ 1 <= ps_leafCount st);
}.

Lemma row_step_ok identity caseInsensitive available scan st st' : rows_so_far st ->
  partition_row_step SimpleFold identity caseInsensitive available scan st = Ok st' -> rows_so_far st'.
Proof.
  intros [Hcount Hshape] H. unfold partition_row_step in H. apply rbind_ok in H as ([actual row] & _ & H).
  apply rbind_ok in H as (rawTotal & _ & H). apply if_err_ok in H as [_ H]. cbv zeta in H. apply if_err_ok in H as [Hleaf%Z.ltb_ge H].
  destruct Hshape as [(Hz & Hp & Hb & Hnames & Hsubs)|[(H1 & Hp & Hb)|[(Hpart & Hne & Hl)|(Hsub & Hne & H1)]]].
  - rewrite Hz, Hp, Hb, Hnames, Hsubs in H. change (0 + 1 =? 1) with true in H. cbv iota in H. cbn [pt_kind of_kind] in H.
    unfold partitioning_kind in H. destruct (is_nil (pr_partitionName row)); [|destruct (is_nil (pr_subpartitionName row))];
      cbn [String.eqb Ascii.eqb Bool.eqb] in H.
    + unfold none_row in H. apply if_err_ok in H as [_ [= <-]]. split; [cbn; lia|]. right; left. done.
    + apply partitioned_row_ok in H as (Hp' & Hlen & Hcnt); [|by split]. cbn [ps_partitioning ps_leafCount of_kind zero_partitioning pt_partitions] in *.
      rewrite len_nil in Hlen. split; [lia|]. right; right; left. split; [done|]. split; [by intros E; rewrite E in Hlen|lia].
    + apply (subpartitioned_row_ok 0) in H as (Hs' & Hg & Hcnt); [|by split|done]. cbn [ps_leafCount] in *. split; [lia|].
      right; right; right. rewrite Hcnt. split_and!; [done|done|lia].
  - rewrite H1, Hp, Hb in H. change (1 + 1 =? 1) with false in H. cbv iota in H. cbn [pt_kind of_kind] in H. by change (String.eqb "none" "none") with true in H.
  - rewrite Z.add_comm in H. pose proof (len_nonneg (pt_partitions (ps_partitioning st))).
    destruct (Z.eqb_spec (len (pt_partitions (ps_partitioning st))) 0) as [E|Hn]; [by apply Z.eqb_eq, len_zero in E|].
    replace (1 + ps_leafCount st =? 1) with false in H by lia. rewrite (pa_kind _ Hpart) in H. cbn [String.eqb Ascii.eqb Bool.eqb] in H.
    apply partitioned_row_ok in H as (Hp' & Hlen & Hcnt); [|by destruct Hpart; split]. cbn [ps_partitioning ps_leafCount] in *. split; [lia|].
    right; right; left. split; [done|]. split; [intros E; rewrite E, len_nil in Hlen; lia|lia].
  - replace (ps_leafCount st + 1 =? 1) with false in H by lia. rewrite (sp_kind _ _ Hsub) in H. cbn [String.eqb Ascii.eqb Bool.eqb] in H.
    apply (subpartitioned_row_ok (ps_leafCount st)) in H as (Hs' & Hg & Hcnt); [|by destruct Hsub; split|done]. cbn [ps_leafCount] in *. split; [lia|].
    right; right; right. rewrite Hcnt. split_and!; [done|done|lia].
Qed.

Lemma rows_ok identity caseInsensitive available rawTotal scans st :
  partition_rows SimpleFold identity caseInsensitive available rawTotal scans = Ok st -> rows_so_far st.
Proof.
  unfold partition_rows, iter. generalize 0. assert (H0 : rows_so_far (first_partition_state rawTotal)) by (split; [done|by left]).
  revert H0. generalize (first_partition_state rawTotal). induction scans as [|scan scans IH]; intros s Hs i; cbn [iter_from]; [by intros [= <-]|].
  intros (s' & Hs'%row_step_ok & H)%rbind_ok; [|done]. by apply IH in H.
Qed.

Lemma groups_counted groups s s' : iter (group_step SimpleFold) groups s = Ok s' -> len groups + gs_leafCount s <= gs_leafCount s'.
Proof.
  unfold iter. generalize 0. revert s. induction groups as [|g groups IH]; intros s i; cbn [iter_from]; [intros [= <-]; by rewrite len_nil|].
  intros (s1 & Hg & H)%rbind_ok. apply IH in H. unfold group_step in Hg. apply rbind_ok in Hg as (names & Hn & Hg).
  apply if_err_ok in Hg as [_ Hg]. apply rbind_ok in Hg as (subs & _ & [= <-]). cbn [gs_leafCount] in H.
  assert (len (pg_subpartitions g) <> 0).
  { intros E. rewrite E in Hn. unfold named_entry in Hn. apply if_err_ok in Hn as [_ Hn]. destruct (insertStatisticsMetadataName _ _ _); [|done]. done. }
  pose proof (len_nonneg (pg_subpartitions g)). rewrite len_cons. lia.
Qed.

(** The partitioning that is returned passes the service's validation with the counts that are
    returned, and its bytes are those of its JSON text. *)
Lemma partitions_valid identity caseInsensitive available rawTotal scans st p bytes partitions subpartitions :
  partition_rows SimpleFold identity caseInsensitive available rawTotal scans = Ok st ->
  partitions_of st = Ok (p, bytes, partitions, subpartitions) ->
  validatePartitioningResult SimpleFold p = Ok (partitions, subpartitions) /\
  exists text, partitioning_json p = Some text /\ bytes = slen (marshal text).
Proof.
  intros [Hcount Hshape]%rows_ok. unfold partitions_of. cbv zeta. intros [Hz H]%if_err_ok. apply orb_false_iff in Hz as [Hz _].
  destruct Hshape as [(H0 & _)|[(H1 & Hp & Hb)|[(Hpart & Hne & Hl)|(Hsub & Hne & H1)]]]; [lia|..].
  - rewrite Hp, Hb in H. cbn in H. injection H as <- <- <- <-. split; [done|]. eexists. split; [reflexivity|]. reflexivity.
  - destruct Hpart as [Hkind [Hs Hg] Hentries Hbegun]. destruct (Hbegun Hne) as [Hm Hb]. rewrite Hkind, Hg, Hl in H. cbn [String.eqb Ascii.eqb Bool.eqb] in H.
    injection H as <- <- <- <-. rewrite len_nil, Z.add_0_r, Z.sub_diag. unfold validatePartitioningResult, partitioning_json. rewrite Hkind, Hs, Hg.
    cbn [String.eqb Ascii.eqb Bool.eqb]. rewrite len_nil, Hentries, Hl. cbn [rbind].
    replace (validStatisticsPartitionMethod _) with true by (symmetry; by apply contains_In).
    replace (ps_leafCount st =? 0) with false by lia.
    replace (maxPhysicalPartitionAuditCount <? ps_leafCount st) with false by (unfold maxPhysicalPartitionLeaves, maxPhysicalPartitionAuditCount in *; lia).
    cbn [negb orb nonempty]. split; [done|]. eexists. split; [reflexivity|]. exact Hb.
  - destruct Hsub as [Hkind Hnone Hgroups Hbegun]. destruct (Hbegun Hne) as (Hm & Hs & Hb). rewrite Hkind, Hnone in H. cbn [String.eqb Ascii.eqb Bool.eqb] in H.
    injection H as <- <- <- <-. rewrite len_nil, Z.add_0_l, Z.sub_0_r. unfold validatePartitioningResult, partitioning_json. rewrite Hkind, Hnone.
    cbn [String.eqb Ascii.eqb Bool.eqb]. rewrite len_nil. fold no_groups. rewrite Hgroups. cbn [rbind gs_leafCount].
    apply groups_counted in Hgroups. cbn [gs_leafCount no_groups] in Hgroups.
    destruct (Z.eqb_spec (len (pt_partitionGroups (ps_partitioning st))) 0) as [E|Hn]; [by apply Z.eqb_eq, len_zero in E|].
    replace (maxPhysicalPartitionAuditCount <? len (pt_partitionGroups (ps_partitioning st))) with false
      by (unfold maxPhysicalPartitionLeaves, maxPhysicalPartitionAuditCount in *; lia).
    unfold validSubpartitionParentMethod in Hm. unfold validSubpartitionMethod in Hs.
    unfold validStatisticsSubpartitionParentMethod, validStatisticsSubpartitionMethod. rewrite Hm, Hs. cbn [negb orb].
    split; [done|]. eexists. split; [reflexivity|]. exact Hb.
Qed.
End Loop.

(** ** The time of the observation *)

Lemma parse_fraction_nanos ns rest : 0 <= ns < 10 ^ 9 -> starts_with is_digit rest = false -> parse_fraction rest = (0, rest) ->
  parse_fraction (Portable.fraction_text (trim_right_by zero_byte (pad 9 ns)) +:+ rest) = (ns, rest).
Proof.
  intros Hb Hrest Hnone. change (10 ^ 9) with 1000000000 in Hb. destruct (pad_spec 9 ns) as (Hd & Hl & Hv); [lia|].
  destruct (trim_right_zeros _ Hd) as (Hf & _ & Hle & Hval). set (f := trim_right_by zero_byte (pad 9 ns)) in *.
  assert (Hlen : slen (pad 9 ns) = 9) by (unfold slen; by rewrite Hl).
  change (10 ^ Z.of_nat 9) with 1000000000 in Hv. rewrite Z.mod_small in Hv by lia.
  assert (Hns : ns = digits_value f * 10 ^ (9 - slen f)) by (rewrite <- Hv, Hval, Hlen; done).
  destruct f as [|c f]; [change (Portable.fraction_text EmptyString +:+ rest) with rest; rewrite Hnone; f_equal; rewrite Hns; done|].
  change (Portable.fraction_text (String c f)) with (String "." (String c f)). rewrite !sapp_cons. unfold parse_fraction.
  pose proof Hf as Hc. cbn [sforall] in Hc. apply andb_true_iff in Hc as [Hc _]. rewrite Hc.
  assert (Hspan : span is_digit (String c (f +:+ rest)) = (String c f, rest)) by (by apply span_spec).
  unfold comma_or_period. cbn [Ascii.eqb Bool.eqb orb andb]. rewrite Hspan. f_equal. unfold slen in Hle, Hlen.
  rewrite stake_zeros, digits_value_app, slen_zeros, zeros_no_value by lia. rewrite Hns.
  unfold slen. rewrite Nat2Z.inj_sub by lia. change (Z.of_nat 9) with 9. lia.
Qed.

Lemma rfc3339_round_trip t : valid_civil t = true -> 0 <= Nanosecond t < 10 ^ 9 ->
  time_parse_rfc3339nano (format_rfc3339nano t) = Some (t, 0).
Proof.
  intros Hv Hn. unfold time_parse_rfc3339nano, format_rfc3339nano, base_text. rewrite !sapp_assoc, parse_date_format by done. cbn [mbind option_bind].
  rewrite sapp_cons. cbn [skip_byte Ascii.eqb Bool.eqb]. cbn [mbind option_bind]. rewrite parse_clock_format by done.
  rewrite (parse_fraction_nanos (Nanosecond t) "Z") by done. cbn [mbind option_bind parse_zone String.eqb andb].
  replace (day_in_range (Year t) (Month t) (Day t)) with true.
  - by destruct t.
  - unfold valid_civil in Hv. rewrite !andb_true_iff in Hv. unfold day_in_range. symmetry. apply andb_true_iff. tauto.
Qed.

Lemma observation_canonical t : valid_civil t = true -> 0 <= Nanosecond t < 10 ^ 9 -> canonical_observation (format_rfc3339nano t) = true.
Proof. intros Hv Hn. unfold canonical_observation. rewrite rfc3339_round_trip by done. by rewrite String.eqb_refl. Qed.

Lemma observation_len t : 0 <= Nanosecond t -> 20 <= slen (format_rfc3339nano t) <= 30.
Proof.
  intros Hn. unfold format_rfc3339nano, base_text. rewrite !slen_app. change (slen (format_date t)) with 10. rewrite slen_cons. change (slen (format_clock t)) with 8.
  change (slen "Z") with 1. assert (0 <= slen (Portable.fraction_text (trim_right_by zero_byte (pad 9 (Nanosecond t)))) <= 10); [|lia].
  assert (Hl : slen (trim_right_by zero_byte (pad 9 (Nanosecond t))) <= 9).
  { destruct (pad_spec 9 (Nanosecond t)) as (Hd & Hlen & _); [done|]. destruct (trim_right_zeros _ Hd) as (_ & _ & Hle & _). unfold slen in *. lia. }
  unfold Portable.fraction_text. destruct (String.eqb _ _); [done|]. rewrite slen_cons. pose proof (slen_nonneg (trim_right_by zero_byte (pad 9 (Nanosecond t)))). lia.
Qed.

(** ** What the operation answers *)

Definition digits_metric (m : option UnsignedMetric) : Prop := from_option (fun m => sforall is_digit (um_value m) = true) True m.

Lemma good_digits estimated m : good_metric estimated m -> digits_metric m.
Proof. destruct m; [|done]. by intros [_ [_ H]]. Qed.

Lemma add_table_metrics_exact l : forall current maximum n, Forall digits_metric l -> add_table_metrics current l maximum = Ok n ->
  n = current + sum_of (fun m => slen (marshal (metric_json m)) - 4) l.
Proof.
  induction l as [|[m|] l IH]; intros current maximum n Hl; cbn [add_table_metrics].
  - intros [= <-]. change (sum_of _ []) with 0. lia.
  - apply Forall_cons in Hl as [Hm Hl]. destruct (addEncodedSize _ _ _) as [next|] eqn:Hnext; [|done].
    apply addEncodedSize_iff in Hnext as (_ & _ & -> & _). intros Hn%IH; [|done]. rewrite sum_of_cons, metric_len by done. lia.
  - apply Forall_cons in Hl as [_ Hl]. intros Hn%IH; [|done]. rewrite sum_of_cons. change (slen (marshal (metric_json None))) with 4. lia.
Qed.

Definition table_metrics (t : TableStatistics) : list (option UnsignedMetric) :=
  [ts_estimatedRows t; ts_dataBytes t; ts_indexBytes t; ts_autoIncrement t].

Definition good_table (t : TableStatistics) : Prop :=
  good_metric true (ts_estimatedRows t) /\ good_metric true (ts_dataBytes t) /\ good_metric true (ts_indexBytes t) /\
  good_metric false (ts_autoIncrement t).

Definition no_metrics : string := "{'estimated_rows':null,'data_bytes':null,'index_bytes':null,'auto_increment':null}".

Lemma table_exact current t maximum n : good_table t -> addTableStatisticsSize current t maximum = Ok n ->
  n = current + slen (marshal (table_json t)) - json_frame no_metrics.
Proof.
  intros (Ha & Hb & Hc & Hd) Hn. unfold addTableStatisticsSize in Hn. apply add_table_metrics_exact in Hn.
  2: { rewrite !Forall_cons. split_and!; [by eapply good_digits..|constructor]. }
  rewrite Hn. unfold table_json, json_frame. rewrite struct_len by done. unfold sum_of, field_bytes. cbn [foldr fst snd]. closed_lengths. lia.
Qed.

Lemma table_of_good identity caseInsensitive rawTotal row t total : table_of identity caseInsensitive rawTotal row = Ok (t, total) -> good_table t.
Proof.
  unfold table_of. intros H. do 9 (destruct row as [|? row]; try done). apply if_err_ok in H as [_ H]. apply rbind_ok in H as (raw & _ & H).
  apply rbind_ok in H as (a & Ha & H). apply rbind_ok in H as (b & Hb & H). apply rbind_ok in H as (c & Hc & H). apply rbind_ok in H as (d & Hd & [= <- _]).
  apply parsed_metric in Ha, Hb, Hc, Hd. done.
Qed.

Lemma add_strings_exact values : forall size maximum n, add_string_sizes values size maximum = Some n ->
  n = size + sum_of (fun v => slen (marshal (JStr v))) values.
Proof.
  induction values as [|v values IH]; intros size maximum n; cbn [add_string_sizes].
  - intros [= <-]. change (sum_of _ []) with 0. lia.
  - intros (size' & Hs & Hn)%bind_Some. apply IH in Hn. rewrite sum_of_cons. unfold addBoundedSize in Hs.
    change (string_size v) with (encodedJSONStringSize v) in Hs. rewrite encodedJSONStringSize_len in Hs. change (marshal (JStr v)) with (marshal_string v).
    destruct (_ || _); [done|]. injection Hs as <-. lia.
Qed.

Lemma payload_len response text :
  slen (marshal (statistics_json response text)) =
  slen minimum_frame + sum_of (fun v => slen (marshal (JStr v))) [tr_profile response; tr_policyVersion response; tr_datasource response;
    tr_adapter response; tr_schema response; tr_name response; tr_observedAt response; tr_engine response] +
  (slen (marshal (table_json (tr_table response))) - json_frame no_metrics) + (slen (marshal text) - nonePartitioningBytes).
Proof.
  unfold statistics_json, json_frame. rewrite struct_len by done. unfold sum_of, field_bytes, text_field. cbn [foldr fst snd].
  let n := eval vm_compute in (slen minimum_frame) in change (slen minimum_frame) with n.
  let n := eval vm_compute in (slen (lit no_metrics)) in change (slen (lit no_metrics)) with n.
  let n := eval vm_compute in nonePartitioningBytes in change nonePartitioningBytes with n. closed_lengths. lia.
Qed.

(** What an operation answers when it succeeds. *)
Definition yields {W A} (m : M W A) (Q : A -> Prop) : Prop := forall s a s', m s = (Ok a, s') -> Q a.

Section Yields.
Context {W : Type}.

Lemma yields_bind {A B} (m : M W A) (k : A -> M W B) P Q : yields m P -> (forall a, P a -> yields (k a) Q) -> yields (bind m k) Q.
Proof.
  intros Hm Hk s b s'. unfold bind. destruct (m s) as [[a|e] s1] eqn:E; [|done]. apply Hk. by eapply Hm.
Qed.

Lemma yields_any {A} (m : M W A) : yields m (fun _ => True).
Proof. done. Qed.

Lemma yields_then {A B} (m : M W A) (k : A -> M W B) Q : (forall a, yields (k a) Q) -> yields (bind m k) Q.
Proof. intros Hk. eapply yields_bind; [apply yields_any|]. intros a _. apply Hk. Qed.

Lemma yields_lift {A} (r : result A) Q : (forall a, r = Ok a -> Q a) -> yields (lift (W := W) r) Q.
Proof. intros H s a s' [= -> _]. by apply H. Qed.

Lemma yields_ret {A} (a : A) (Q : A -> Prop) : Q a -> yields (ret (W := W) a) Q.
Proof. intros H s b s' [= <- _]. done. Qed.

Lemma yields_guard {A} (b : bool) e (m : M W A) Q : (b = false -> yields m Q) -> yields (if b then Driver.fail e else m) Q.
Proof. destruct b; [by intros _ s a s'|auto]. Qed.

Lemma yields_deferred {A} (f : M W unit) (m : M W A) Q : yields m Q -> yields (defer_ignored f m) Q.
Proof.
  intros Hm s a s'. unfold defer_ignored, deferred, ignore. destruct (m s) as [r s1] eqn:E. intros [= -> _]. by eapply Hm.
Qed.
End Yields.

Lemma yields_connection {W} `{Driver W} {A} deadlineMS (m : M W A) Q : yields m Q -> yields (with_connection deadlineMS m) Q.
Proof.
  intros Hm. apply yields_then. intros _. apply yields_deferred, yields_then. intros _. apply yields_then. intros _.
  intros s a s'. unfold deferred. destruct (m s) as [r s1] eqn:E. destruct (fr_clearDeadline s1).
  - unfold ignore. intros [= -> _]. by eapply Hm.
  - intros [= -> _]. by eapply Hm.
Qed.

Section Answer.
Context {W : Type} `{Driver W} (SimpleFold : Z -> Z) (now : W -> Time).
(** [time.Now] is a civil time. *)
Context (Hnow : forall w, valid_civil (now w) = true /\ 0 <= Nanosecond (now w) < 10 ^ 9).

Lemma table_yields authorized identity lower rawTotal :
  yields (readTableStatistics authorized identity lower rawTotal) (fun answer => good_table answer.1).
Proof. apply yields_then. intros row. apply yields_lift. intros [t total]. apply table_of_good. Qed.

(** The partitioning of an answer: valid, with its counts, and with the bytes of its text. *)
Definition good_partitioning (before : Z) (answer : PartitioningResult * Z * Z * Z) : Prop :=
  let '(p, resultBytes, partitions, subpartitions) := answer in
  validatePartitioningResult SimpleFold p = Ok (partitions, subpartitions) /\
  exists text, partitioning_json p = Some text /\ resultBytes = before - nonePartitioningBytes + slen (marshal text).

Lemma partitions_yields authorized identity lower rawTotal before maximum :
  yields (readPartitionStatistics SimpleFold authorized identity lower rawTotal before maximum) (good_partitioning before).
Proof.
  apply yields_then. intros rows. apply yields_deferred, yields_guard. intros _. cbv zeta. apply yields_then. intros upstream.
  apply (yields_bind _ _ (fun st => partition_rows SimpleFold identity (negb (lower =? 0)) (maximum - (before - nonePartitioningBytes)) rawTotal
    (map (partition_scan upstream) (rs_rows rows)) = Ok st)); [by apply yields_lift|]. intros st Hst.
  apply yields_then. intros _. apply yields_then. intros _.
  apply (yields_bind _ _ (fun answer => partitions_of st = Ok answer)); [by apply yields_lift|].
  intros [[[p bytes] partitions] subpartitions] Hp. apply yields_ret.
  destruct (partitions_valid _ _ _ _ _ _ _ _ _ _ _ Hst Hp) as [Hv (text & Ht & ->)]. split; [exact Hv|]. by exists text.
Qed.

Definition statistics_response (profile version : string) (authorized : AuthorizedObjectStatistics) (r : ObjectStatisticsResult) : tableStatisticsResponse := {|
  tr_profile := profile; tr_policyVersion := version; tr_datasource := os_datasource authorized; tr_adapter := os_adapter authorized;
  tr_schema := os_schema authorized; tr_name := os_object authorized; tr_observedAt := ot_observedAt r; tr_engine := ot_engine r;
  tr_table := ot_table r; tr_partitioning := ot_partitioning r |}.

(** An answer that the query service accepts: it passes the validation, and its payload is
    as long as was counted. *)
Definition accepted (profile version : string) (authorized : AuthorizedObjectStatistics) (r : ObjectStatisticsResult) : Prop :=
  validateObjectStatisticsResult SimpleFold r = nil_error /\
  exists payload, counted_payload (statistics_response profile version authorized r) (ot_resultBytes r) (MaxResultBytes (os_limits authorized)) = Some payload.

Definition observed_answer t table partitioning resultBytes partitions subpartitions : ObjectStatisticsResult := {|
  ot_observedAt := format_rfc3339nano t; ot_engine := "InnoDB"; ot_table := table; ot_partitioning := partitioning;
  ot_resultBytes := resultBytes; ot_partitionCount := partitions; ot_subpartitionCount := subpartitions |}.

Lemma answer_valid t table p resultBytes partitions subpartitions : valid_civil t = true -> 0 <= Nanosecond t < 10 ^ 9 -> good_table table ->
  validatePartitioningResult SimpleFold p = Ok (partitions, subpartitions) ->
  validateObjectStatisticsResult SimpleFold (observed_answer t table p resultBytes partitions subpartitions) = nil_error.
Proof.
  intros Hv Hn (Ha & Hb & Hc & Hd) Hp. unfold validateObjectStatisticsResult, observed_answer. cbn [ot_observedAt ot_engine ot_table ot_partitioning ot_partitionCount ot_subpartitionCount].
  pose proof (observation_len t (proj1 Hn)) as Hl. change (slen "0000-00-00T00:00:00Z") with 20. change (slen "0000-00-00T00:00:00.000000000Z") with 30.
  replace (slen (format_rfc3339nano t) <? 20) with false by lia. replace (30 <? slen (format_rfc3339nano t)) with false by lia.
  rewrite (observation_canonical t Hv Hn), (proj1 Ha), (proj1 Hb), (proj1 Hc), (proj1 Hd), Hp. cbn [orb negb rbind String.eqb Ascii.eqb Bool.eqb].
  by rewrite !Z.eqb_refl.
Qed.

Lemma observation_quoted t : 0 <= Nanosecond t -> slen (marshal (JStr (format_rfc3339nano t))) = slen (format_rfc3339nano t) + 2.
Proof.
  intros Hn. destruct (pad_spec 9 (Nanosecond t)) as (Hd & _ & _); [done|]. destruct (trim_right_zeros _ Hd) as (Hf & _).
  change (marshal (JStr (format_rfc3339nano t))) with (marshal_string (format_rfc3339nano t)). rewrite marshal_plain; [lia|].
  unfold format_rfc3339nano, base_text. rewrite !sforall_app. cbn [sforall]. rewrite format_date_plain, format_clock_plain.
  unfold Portable.fraction_text. destruct (String.eqb _ _); [done|]. cbn [sforall]. rewrite (digits_plain _ Hf). done.
Qed.

Lemma answer_counted profile version authorized base table p text t resultBytes partitions subpartitions maximum n :
  tableStatisticsMinimumEnvelopeSize profile version (os_datasource authorized) (os_adapter authorized) (os_schema authorized) (os_object authorized)
    maximum = Some base -> 0 <= Nanosecond t ->
  good_table table -> addTableStatisticsSize base table maximum = Ok n -> partitioning_json p = Some text ->
  addEncodedSize (n - nonePartitioningBytes + slen (marshal text)) (slen (format_rfc3339nano t) - slen "0000-00-00T00:00:00Z") maximum = Some resultBytes ->
  exists payload, counted_payload (statistics_response profile version authorized (observed_answer t table p resultBytes partitions subpartitions))
    resultBytes maximum = Some payload.
Proof.
  intros Hbase Hns Ht Hn%table_exact Htext Hr; [|done]. unfold tableStatisticsMinimumEnvelopeSize in Hbase. destruct (maximum <? _); [done|].
  apply add_strings_exact in Hbase. apply addEncodedSize_iff in Hr as (_ & _ & Hr & Hmax). unfold counted_payload, statistics_payload, statistics_response, observed_answer.
  cbn [tr_partitioning ot_partitioning]. rewrite Htext. cbn [mbind option_bind].
  pose proof (payload_len (statistics_response profile version authorized (observed_answer t table p resultBytes partitions subpartitions)) text) as Hl.
  unfold statistics_response, observed_answer in Hl. cbn [tr_profile tr_policyVersion tr_datasource tr_adapter tr_schema tr_name tr_observedAt tr_engine
    tr_table ot_observedAt ot_engine ot_table ot_partitioning] in Hl |- *.
  rewrite !sum_of_cons in Hbase, Hl. change (sum_of _ []) with 0 in Hbase at 1. change (sum_of _ []) with 0 in Hl at 1.
  set (payload := marshal _) in Hl |- *. rewrite observation_quoted in Hl by done.
  assert (Hlen : slen payload = resultBytes).
  { change (slen "0000-00-00T00:00:00Z") with 20 in Hr. change (slen (marshal (JStr "0000-00-00T00:00:00Z"))) with 22 in Hbase. lia. }
  exists payload. rewrite Hlen, Z.eqb_refl, (proj2 (Z.leb_le _ _)) by lia. done.
Qed.

(** C40: whatever the catalog answers, the table statistics that the MySQL adapter returns pass
    the validation of the query service, and their response encodes to exactly the bytes that
    the adapter counted, within the limit: the service never answers an internal error for them. *)
Theorem statistics_answer_accepted profile version authorized base s r s' :
  tableStatisticsMinimumEnvelopeSize profile version (os_datasource authorized) (os_adapter authorized) (os_schema authorized) (os_object authorized)
    (MaxResultBytes (os_limits authorized)) = Some base ->
  adapter_DescribeObjectStatistics SimpleFold now authorized base s = (Ok r, s') -> accepted profile version authorized r.
Proof.
  intros Hbase Hr. revert s r s' Hr. change (yields (adapter_DescribeObjectStatistics SimpleFold now authorized base) (accepted profile version authorized)).
  apply yields_guard. intros _. apply yields_connection, yields_then. intros info. apply yields_then. intros semantics. apply yields_guard. intros _.
  apply yields_then. intros [identity raw]. eapply yields_bind; [apply table_yields|]. intros [table raw'] Ht. cbn [fst] in Ht.
  apply (yields_bind _ _ (fun n => addTableStatisticsSize base table (MaxResultBytes (os_limits authorized)) = Ok n)); [by apply yields_lift|]. intros n Hn.
  eapply yields_bind; [apply partitions_yields|]. intros [[[p bytes] partitions] subpartitions] (Hp & text & Htext & ->).
  apply (yields_bind _ _ (fun t => valid_civil t = true /\ 0 <= Nanosecond t < 10 ^ 9)); [by intros s t s' [= <- _]|]. intros t [Hv Hns].
  eapply yields_bind; [by apply yields_lift; intros b Hb%or_error_ok; exact Hb|]. intros resultBytes Hsize.
  apply yields_then. intros _. apply yields_then. intros _. apply yields_ret. split.
  - by apply answer_valid.
  - eapply answer_counted; [exact Hbase|exact (proj1 Hns)|done..].
Qed.
End Answer.

(** ** The session *)

Section Leaves.
Context {W : Type} `{SessionLaws W} {X : Excuse} (SimpleFold : Z -> Z) (now : W -> Time).

Lemma or_discard_session {A} I (m : M W A) : invariant gone I m -> invariant gone I (or_discard m).
Proof. intros Hm. eapply triple_weaken; [by apply triple_or_discard|done|]. by intros [a|e] s. Qed.

Lemma only_row_session I statement args width : stable I -> reads statement = true -> invariant gone I (read_only_row statement args width).
Proof.
  intros HI Hs. apply invariant_bind; [by apply QueryContext_session|]. intros rows. apply drained; [done|].
  apply invariant_bind; [apply now_upstream_session|]. intros upstream. apply invariant_bind; [by apply invariant_pure|]. intros row.
  apply invariant_bind; [by apply CloseRows_session|]. intros _. by apply invariant_pure.
Qed.

Lemma partitions_session I authorized identity lower rawTotal before maximum : stable I ->
  invariant gone I (readPartitionStatistics SimpleFold authorized identity lower rawTotal before maximum).
Proof.
  intros HI. apply invariant_bind; [by apply QueryContext_session|]. intros rows. apply drained; [done|].
  apply invariant_if; [by apply invariant_pure|]. apply invariant_bind; [apply now_upstream_session|]. intros upstream.
  apply invariant_bind; [by apply invariant_pure|]. intros st. apply invariant_bind; [by apply invariant_pure|]. intros _.
  apply invariant_bind; [by apply CloseRows_session|]. intros _. apply invariant_bind; [by apply invariant_pure|].
  intros [[[p bytes] partitions] subpartitions]. by apply invariant_pure.
Qed.

Lemma statistics_body_tidy authorized base : tidy (statistics_body SimpleFold now authorized base).
Proof.
  intros z. apply (triple_weaken gone (fresh z) (fresh z) _ (fun _ => fresh z)); [|done|intros r s; apply fresh_settled].
  pose proof (stable_fresh z) as HI. unfold statistics_body. cbv zeta.
  apply invariant_bind; [by apply readServerInfo_session|]. intros info. apply invariant_bind; [by apply invariant_pure|]. intros semantics.
  apply invariant_if; [by apply invariant_pure|]. apply invariant_bind.
  { apply invariant_bind; [by apply only_row_session|]. intros row. by apply invariant_pure. }
  intros [identity raw]. apply invariant_bind.
  { apply invariant_bind; [by apply only_row_session|]. intros row. by apply invariant_pure. }
  intros [table raw']. apply invariant_bind; [by apply invariant_pure|]. intros n. apply invariant_bind; [by apply partitions_session|].
  intros [[[p bytes] partitions] subpartitions]. apply invariant_bind; [split; [by intros s|by right]|]. intros time.
  apply invariant_bind; [by apply invariant_pure|]. intros resultBytes.
  apply invariant_bind; [apply or_discard_session, setDeadline_session, HI|]. intros _.
  apply invariant_bind; [by apply with_flag_triple|]. intros _. by apply invariant_pure.
Qed.

Lemma statistics_released authorized base : released (adapter_DescribeObjectStatistics SimpleFold now authorized base).
Proof.
  intros w w1 r s Ho Htx Hr Ht. unfold adapter_DescribeObjectStatistics in Hr. cbv zeta in Hr. destruct (_ || _); [injection Hr as _ <-; done|].
  eapply with_connection_leaves; [|exact Ho|exact Htx|exact Hr]. apply statistics_body_tidy.
Qed.
End Leaves.

(** C9: No operation leaks session state into the pool. Whatever the server and the
    driver answer, and on every path (errors, failed cleanups and pages that stop before the
    last row included), a connection that was opened is released as the last call. After
    [Aggregate], [SelectKeyset] and [DescribeObjectStatistics] on a connection without an open
    transaction, either the pool is told to close it, or its session has the time zone that it
    came with and no open transaction. The same holds after [Select] and [Explain], except that
    their transaction may still be open when the COMMIT or ROLLBACK of [database/sql] itself
    failed: the code gives such a connection back. *)
Theorem operations_leave_session {W : Type} `{SessionLaws W} SimpleFold now aggregate select explain keyset statistics envelopeBaseBytes budget :
  leaves_session (Session.Aggregate aggregate envelopeBaseBytes) /\ leaves_session (KeysetSession.SelectKeyset keyset budget) /\
  leaves_session (adapter_DescribeObjectStatistics SimpleFold now statistics envelopeBaseBytes) /\
  leaves_timezone (Session.Select select) /\ leaves_timezone (Session.Explain explain).
Proof.
  split_and!; [apply Aggregate_leaves|apply released_leaves, SelectKeyset_released|apply released_leaves, statistics_released|
    apply Select_leaves|apply Explain_leaves].
Qed.

(** ** An example: a table of two partitions of two subpartitions each *)

Definition statistics_limits : Limits := {|
  DeadlineMS := 5000; MaxRequestBytes := 4096; MaxProjectionFields := 1; MaxGroupByFields := 1; MaxOrderByFields := 1; MaxPredicates := 1;
  MaxExpressionDepth := 1; MaxParameters := 1; MaxRows := 1; MaxResultBytes := 4096; MaxOffset := 0; MaxConcurrency := 1 |}.

Definition statistics_grant : AuthorizedObjectStatistics := {|
  os_principal := "alice"; os_credentialIdentifier := "laptop"; os_profile := "reader"; os_policyVersion := "v1"; os_policyHash := "hash";
  os_datasource := "main"; os_adapter := AdapterMySQL8; os_operation := OperationDescribeObjectStatistics; os_schema := "shop"; os_object := "orders";
  os_limits := statistics_limits; os_semantics := {| CaseInsensitiveSchemas := false; CaseInsensitiveObjects := false; CaseInsensitiveFields := true |}; os_semanticsGeneration := "generation" |}.

Definition subpartition_row (name subName ordinal subOrdinal : string) : raw_row + failure :=
  inl [Some "shop"; Some "orders"; Some name; Some ordinal; Some "RANGE COLUMNS"; Some subName; Some subOrdinal; Some "HASH"; Some "120";
       Some "16384"; None].

Definition statistics_answers (text : string) : rowset := {|
  rs_columns := inl [];
  rs_rows := if String.eqb text (identity_statement false) then [inl [Some "shop"; Some "orders"; Some "BASE TABLE"; Some "InnoDB"]]
             else if String.eqb text (statistics_statement false) then
               [inl [Some "shop"; Some "orders"; Some "BASE TABLE"; Some "InnoDB"; Some "480"; Some "65536"; Some "0"; Some "12"]]
             else [subpartition_row "p0" "p0sp0" "1" "1"; subpartition_row "p0" "p0sp1" "1" "2";
                   subpartition_row "p1" "p1sp0" "2" "1"; subpartition_row "p1" "p1sp1" "2" "2"];
  rs_err := None; rs_stop := None |}.

Definition statistics_time : Time := {| Year := 2024; Month := 2; Day := 29; Hour := 12; Minute := 0; Second := 5; Nanosecond := 120000000 |}.

Definition statistics_base : Z :=
  default 0 (tableStatisticsMinimumEnvelopeSize "reader" "v1" "main" AdapterMySQL8 "shop" "orders" 4096).

Definition run_statistics : result ObjectStatisticsResult * frame simulated :=
  @adapter_DescribeObjectStatistics _ (simulated_driver simulated_rows statistics_answers) (fun r => r) (fun _ => statistics_time)
    statistics_grant statistics_base (start simulated_world).

Definition statistics_found : ObjectStatisticsResult :=
  match run_statistics.1 with Ok r => r | Err _ => observed_answer statistics_time
    {| ts_estimatedRows := None; ts_dataBytes := None; ts_indexBytes := None; ts_autoIncrement := None |} zero_partitioning 0 0 0 end.

Example statistics_run :
  (ot_observedAt statistics_found, pt_kind (ot_partitioning statistics_found), ot_partitionCount statistics_found,
   ot_subpartitionCount statistics_found, ot_resultBytes statistics_found) = ("2024-02-29T12:00:05.12Z", "subpartitioned", 2, 4, 1223).
Proof. vm_compute. reflexivity. Qed.

Lemma statistics_now (w : simulated) : valid_civil statistics_time = true /\ 0 <= Nanosecond statistics_time < 10 ^ 9.
Proof. split; [reflexivity|]. cbn. lia. Qed.

Lemma statistics_answer_accepted_witness : accepted (fun r => r) "reader" "v1" statistics_grant statistics_found.
Proof.
  assert (Hbase : tableStatisticsMinimumEnvelopeSize "reader" "v1" "main" AdapterMySQL8 "shop" "orders" 4096 = Some statistics_base)
    by (vm_compute; reflexivity).
  assert (Hrun : run_statistics = (Ok statistics_found, run_statistics.2)) by (vm_compute; reflexivity).
  exact (@statistics_answer_accepted _ (simulated_driver simulated_rows statistics_answers) (fun r => r) (fun _ => statistics_time)
    statistics_now "reader" "v1" statistics_grant statistics_base (start simulated_world) statistics_found run_statistics.2 Hbase Hrun).
Defined.

Lemma operations_leave_session_witness :
  (exists t, fr_trace run_statistics.2 = (t ++ [EvRelease])%list) /\
  (sm_discarded (fr_world run_statistics.2) = true \/
   sm_timezone (fr_world run_statistics.2) = "SYSTEM" /\ sm_transaction (fr_world run_statistics.2) = false).
Proof.
  destruct (@operations_leave_session _ _ (simulated_session simulated_rows statistics_answers) (fun r => r) (fun _ => statistics_time)
    PolicyAggregate.example_authorized Sql.example_authorized Sql.example_authorized authorized_page statistics_grant statistics_base page_budget)
    as (_ & _ & Hs & _).
  assert (Hne : fr_trace run_statistics.2 <> []) by (vm_compute; discriminate).
  exact (Hs simulated_world {| sm_timezone := "SYSTEM"; sm_transaction := false; sm_discarded := false |}
    run_statistics.1 run_statistics.2 eq_refl eq_refl (surjective_pairing _) Hne).
Defined.
