(* ===== verification/ServiceShapes.v ===== *)
(** The construction of the query service and its listing of query shapes
    (internal/queryservice/service.go: [New], [Capabilities], [Ready]; query_shapes.go;
    keyset_audit.go; the preflight of table_statistics.go): the state that [New] makes from
    the configuration, the preflights that bound every audit event before the listener
    starts, the discovery snapshots, and [ListQueryShapes] with its audit events. *)
From S2P Require Import Prelude Domain GoJson Number Portable Values QuerySpec Config Policy Sql Rows Aggregate AggregateNormal NumericBucket SqlAggregate PolicyAggregate Keyset KeysetBinds PolicyKeyset SqlKeyset KeysetRows PublicShapes ShapeDocument Discovery AuditEvents ShapeHash Driver Session KeysetSession Manager ServiceCore Service ServiceKeyset ServiceStatistics.
Local Open Scope string_scope.
Local Open Scope Z_scope.

(** ** The snapshot of the policy *)

Definition PolicyVersion (cfg : Config) : string := itoa (cfg_version cfg).

(** [policy.NewSnapshot]; [address] is the pointer of the new snapshot. The clones of the
    maps are the maps. *)
Definition NewSnapshot (address : positive) (cfg : Config) : Snapshot := {|
  sn_address := address; sn_version := PolicyVersion cfg; sn_hash := cfg_policyHash cfg; sn_hardLimits := cfg_hardLimits cfg;
  sn_principals := cfg_principals cfg; sn_profiles := cfg_profiles cfg |}.

(** ** New *)

Definition no_identity : queryShapeAuditIdentity := {| ai_principal := EmptyString; ai_clientIdentifier := EmptyString |}.

(** A map is ranged over in the order of [map_to_list]; Go's own order is any. *)
Definition user_identities (cfg : Config) : list queryShapeAuditIdentity :=
  map (fun kv => {| ai_principal := bu_principal kv.2; ai_clientIdentifier := kv.1 |}) (map_to_list (ba_users (cfg_basic cfg))).

Definition worst_identity (cfg : Config) : queryShapeAuditIdentity := fold_left conservative (user_identities cfg) no_identity.

(** [if moreConservative(identity, m[key]) { m[key] = identity }] *)
Definition raise_identity {K} `{Countable K} (key : K) (identity : queryShapeAuditIdentity) (m : gmap K queryShapeAuditIdentity)
  : gmap K queryShapeAuditIdentity :=
  if moreConservativeAuditIdentity identity (default no_identity (m !! key)) then <[key := identity]> m else m.

Definition identity_by_principal (cfg : Config) : gmap string queryShapeAuditIdentity :=
  fold_left (fun m identity => raise_identity (ai_principal identity) identity m) (user_identities cfg) ∅.

(** The bindings that a principal is assigned, in the order of its profiles and of their datasources. *)
Definition assigned_keys (cfg : Config) (principal : Principal) : list BindingKey :=
  flat_map (fun profileName =>
    match cfg_profiles cfg !! profileName with
    | None => []
    | Some profile =>
        map (fun datasource => {| k_profile := profileName; k_datasource := datasource |})
          (List.filter (contains (p_datasources principal)) (pf_datasources profile))
    end) (p_profiles principal).

Definition binding_identities (cfg : Config) : gmap BindingKey queryShapeAuditIdentity :=
  fold_left (fun m kv =>
    match identity_by_principal cfg !! kv.1 with
    | None => m
    | Some identity => fold_left (fun m key => raise_identity key identity m) (assigned_keys cfg kv.2) m
    end) (map_to_list (cfg_principals cfg)) ∅.

(** The bindings of a configuration, each with its profile. *)
Definition profile_keys (kv : string * Profile) : list (BindingKey * Profile) :=
  map (fun datasource => ({| k_profile := kv.1; k_datasource := datasource |}, kv.2)) (pf_datasources kv.2).
Definition configured_keys (cfg : Config) : list (BindingKey * Profile) := flat_map profile_keys (map_to_list (cfg_profiles cfg)).

Definition shape_count (profile : Profile) : Z := len (AggregateShapes (pf_query profile)) + len (KeysetSelectShapes (pf_query profile)).

Definition has_bucket (kind : string) (profile : Profile) : bool :=
  existsb (fun shape => existsb (fun output => String.eqb (so_kind output) kind) (sh_projection shape)) (AggregateShapes (pf_query profile)).

Section New.
Context {W DB : Type}.

Definition shapes_supported (databases : @Manager W DB) (datasource : string) (profile : Profile) : bool :=
  let capabilities := Capabilities databases datasource in
  let features := Features databases datasource in
  ((len (AggregateShapes (pf_query profile)) =? 0) ||
   contains capabilities OperationAggregate && (negb (has_bucket "time_bucket" profile) || contains features "time_bucket_utc") &&
   (negb (has_bucket "numeric_bucket" profile) || contains features "numeric_bucket_exact")) &&
  ((len (KeysetSelectShapes (pf_query profile)) =? 0) || contains capabilities OperationSelectKeyset).

Definition made_gate (limits : Limits) : gate := {| gt_capacity := MaxConcurrency limits; gt_held := 0 |}.

Definition binding_gates (cfg : Config) : gmap BindingKey gate :=
  list_to_map (map (fun kp => (kp.1, made_gate (Limits_Min (cfg_hardLimits cfg) (pf_limits kp.2)))) (configured_keys cfg)).

Definition discovery_needed (cfg : Config) : gmap BindingKey bool :=
  list_to_map (map (fun kp => (kp.1, from_option ds_requiredForReadiness false (cfg_datasources cfg !! k_datasource kp.1)))
    (List.filter (fun kp => contains (pf_operations kp.2) OperationListQueryShapes) (configured_keys cfg))).

Definition shape_support (databases : @Manager W DB) (cfg : Config) : gmap BindingKey configuredQueryShapeSupport :=
  list_to_map (map (fun kp => (kp.1, {| cs_count := shape_count kp.2; cs_supported := shapes_supported databases (k_datasource kp.1) kp.2 |}))
    (List.filter (fun kp => negb (shape_count kp.2 =? 0)) (configured_keys cfg))).

(** [New], and the state that the new service starts in. *)
Definition New (snapshot : Snapshot) (databases : @Manager W DB) (cfg : Config) (serviceVersion : string) : Service W DB := {|
  sv_policy := snapshot; sv_databases := databases; sv_serviceVersion := serviceVersion; sv_discoveryNeeded := discovery_needed cfg;
  sv_queryShapeSupport := shape_support databases cfg; sv_queryShapeAuditIdentity := worst_identity cfg;
  sv_bindingAuditIdentities := binding_identities cfg |}.

Definition new_state (cfg : Config) (w : W) : state W := {|
  st_world := w; st_global := made_gate (cfg_hardLimits cfg); st_bindings := binding_gates cfg; st_queryShapes := ∅; st_trace := [] |}.
End New.

(** ** Capabilities and readiness *)

Record DatasourceCapability := { dcap_name : string; dcap_adapter : string; dcap_operations : list string }.
Record ProfileCapability := { pcap_name : string; pcap_limits : Limits; pcap_datasources : list DatasourceCapability }.

Definition profile_le (a b : ProfileCapability) : bool := bytes_le (pcap_name a) (pcap_name b).
Definition datasource_le (a b : DatasourceCapability) : bool := bytes_le (dcap_name a) (dcap_name b).

Section Shapes.
Context {W DB : Type} `{Host W} (sha256 : string -> string) (sv : Service W DB).

Definition supportsConfiguredQueryShapes (key : BindingKey) : bool :=
  from_option (fun configured => negb (cs_count configured =? 0) && cs_supported configured) false (sv_queryShapeSupport sv !! key).

Definition hasQueryShapeDiscovery (s : state W) (key : BindingKey) : bool := bool_decide (is_Some (st_queryShapes s !! key)).

Definition offered (s : state W) (key : BindingKey) (operation : string) : bool :=
  if String.eqb operation OperationListQueryShapes then supportsConfiguredQueryShapes key && hasQueryShapeDiscovery s key
  else contains (Capabilities (sv_databases sv) (k_datasource key)) operation.

Definition datasource_capability (s : state W) (profile : string) (operations : list string) (datasource : string) : DatasourceCapability := {|
  dcap_name := datasource; dcap_adapter := AdapterName (sv_databases sv) datasource;
  dcap_operations := List.filter (offered s {| k_profile := profile; k_datasource := datasource |}) operations |}.

Definition profile_capability (s : state W) (datasources : list string) (name : string) : list ProfileCapability :=
  match sn_profiles (sv_policy sv) !! name with
  | None => []
  | Some profile =>
      let found := map (datasource_capability s name (pf_operations profile)) (List.filter (contains datasources) (pf_datasources profile)) in
      if len found =? 0 then []
      else [{| pcap_name := name; pcap_limits := Limits_Min (sn_hardLimits (sv_policy sv)) (pf_limits profile);
               pcap_datasources := sort_func datasource_le found |}]
  end.

(** [Capabilities]: the profiles of the answer; the versions are constants of the service. *)
Definition service_Capabilities (principal : string) (s : state W) : list ProfileCapability :=
  sort_func profile_le (flat_map (profile_capability s (PrincipalDatasources (sv_policy sv) principal)) (PrincipalProfiles (sv_policy sv) principal)).

(** The bindings whose discovery readiness requires. *)
Definition required_keys : list BindingKey :=
  List.filter supportsConfiguredQueryShapes (map fst (List.filter (fun kv => kv.2) (map_to_list (sv_discoveryNeeded sv)))).

(** One probe for each datasource, for the last of its bindings. *)
Definition required_by_datasource : gmap string BindingKey :=
  fold_left (fun m key => <[k_datasource key := key]> m) required_keys ∅.

Fixpoint probe_required (l : list (string * BindingKey)) : P W error :=
  match l with
  | [] => mret nil_error
  | (datasource, key) :: l' =>
      probed ← probe sv datasource;
      match probed with
      | Err e => mret (Err e)
      | Ok semantics => observeIdentifierSemantics key semantics ≫= fun _ => probe_required l'
      end
  end.

(** The snapshots that readiness requires are published. *)
Definition required_published : P W error := fun s =>
  (inr (if forallb (hasQueryShapeDiscovery s) required_keys then nil_error
        else Err (ErrorString "required query-shape discovery snapshot is unavailable")), s).

Definition manager_ready : P W error := fun s =>
  let '(r, w) := Ready (sv_databases sv) (st_world s) in (inr r, with_world w s).

(** [r, err := m; if err != nil { return err }; rest] *)
Definition unless_error (m rest : P W error) : P W error :=
  r ← m; match r return P W error with Err e => mret (Err e) | Ok _ => rest end.

Definition service_Ready : P W error := fun s =>
  if negb (sink_ready (st_world s)) then (inr (Err (ErrorString "audit sink is unavailable")), s)
  else unless_error manager_ready (unless_error (probe_required (map_to_list required_by_datasource)) required_published) s.

(** ** Audit events of a listing *)

Record queryShapeAuditData := { qa_resources : list Resource; qa_fields : list string; qa_shapeSetHash : string; qa_shapeCount : Z; qa_resultBytes : Z }.

Definition queryShapeAuditScope (authorized : AuthorizedQueryShapeList) : list Resource * list string :=
  (map (fun r => {| re_schema := qr_schema r; re_object := qr_object r |}) (ql_resources authorized), ql_fields authorized).

Definition audit_data (authorized : AuthorizedQueryShapeList) : queryShapeAuditData := {|
  qa_resources := (queryShapeAuditScope authorized).1; qa_fields := (queryShapeAuditScope authorized).2;
  qa_shapeSetHash := ShapeSetHash authorized; qa_shapeCount := ShapeCount authorized; qa_resultBytes := ResultBytes authorized |}.

(** The members of a published set of shapes. *)
Definition with_shape_set (hash : string) (count : Z) (e : Event) : Event := {|
  ev_timestamp := ev_timestamp e; ev_type := ev_type e; ev_request_id := ev_request_id e; ev_query_id := ev_query_id e;
  ev_principal := ev_principal e; ev_client_identifier := ev_client_identifier e; ev_policy_profile := ev_policy_profile e;
  ev_policy_version := ev_policy_version e; ev_policy_hash := ev_policy_hash e; ev_datasource := ev_datasource e;
  ev_adapter := ev_adapter e; ev_operation := ev_operation e; ev_decision := ev_decision e; ev_reason_code := ev_reason_code e;
  ev_outcome := ev_outcome e; ev_error_kind := ev_error_kind e; ev_duration_ms := ev_duration_ms e;
  ev_result_bytes := ev_result_bytes e; ev_query_shape_hash := ev_query_shape_hash e;
  ev_public_shape_set_hash := hash; ev_shape_count := count;
  ev_requested_profile_hash := ev_requested_profile_hash e; ev_requested_profile_bytes := ev_requested_profile_bytes e;
  ev_requested_datasource_hash := ev_requested_datasource_hash e; ev_requested_datasource_bytes := ev_requested_datasource_bytes e;
  ev_resources := ev_resources e; ev_fields := ev_fields e; ev_metadata := ev_metadata e |}.

(** A listing has no query identifier. *)
Definition lister (requestID principal clientIdentifier : string) : caller := {|
  cl_requestID := requestID; cl_queryID := EmptyString; cl_principal := principal; cl_clientIdentifier := clientIdentifier |}.

Definition queryShapeAllowEvent (who : caller) (profile : string) (authorized : AuthorizedQueryShapeList) (data : queryShapeAuditData) : Event :=
  with_shape_set (qa_shapeSetHash data) (qa_shapeCount data)
    (service_event sv who "operation_decision" profile (ql_datasource authorized) (ql_adapter authorized) OperationListQueryShapes
       "allow" EmptyString EmptyString EmptyString None (qa_resultBytes data) EmptyString (qa_resources data) (qa_fields data) ∅).

Definition no_audit_data : queryShapeAuditData := {| qa_resources := []; qa_fields := []; qa_shapeSetHash := EmptyString; qa_shapeCount := 0; qa_resultBytes := 0 |}.

Definition queryShapeCompletionEvent (who : caller) (profile datasource adapter outcome errorKind : string) (duration : option Z)
    (data : option queryShapeAuditData) : Event :=
  let data := default no_audit_data data in
  with_shape_set (qa_shapeSetHash data) (qa_shapeCount data)
    (completion_event sv who "operation_completion" profile datasource adapter OperationListQueryShapes outcome errorKind duration
       (qa_resultBytes data) EmptyString (qa_resources data) (qa_fields data) ∅).

Definition queryShapeDenialEvent (who : caller) (profileHash : string) (profileBytes : Z) (datasourceHash : string) (datasourceBytes : Z) : Event :=
  requested_names profileHash datasourceHash profileBytes datasourceBytes
    (service_event sv who "operation_decision" EmptyString EmptyString EmptyString OperationListQueryShapes "deny" ReasonDeniedOperation
       EmptyString EmptyString None 0 EmptyString [] [] ∅).

Definition writeQueryShapeDenial (who : caller) (profile datasource : string) : P W unit :=
  audited true (queryShapeDenialEvent who (auditIdentifierHash sha256 requestedProfileHashDomain profile) (slen profile)
    (auditIdentifierHash sha256 requestedDatasourceHashDomain datasource) (slen datasource)).

Definition writeQueryShapeCompletion (who : caller) (profile datasource adapter outcome errorKind : string) (started : Z)
    (data : option queryShapeAuditData) : P W unit :=
  duration ← durationMilliseconds started;
  audited true (queryShapeCompletionEvent who profile datasource adapter outcome errorKind (Some duration) data).

(** ** The listing *)

Definition ListQueryShapes (requestID principal clientIdentifier profile datasource : string) : P W string :=
  let who := lister requestID principal clientIdentifier in
  started ← time_now;
  require (nonempty profile && valid_utf8 profile) (fail (fault "invalid")) ≫= fun _ =>
  let key := {| k_profile := profile; k_datasource := datasource |} in
  let configured := from_option (fun c => negb (cs_count c =? 0)) false (sv_queryShapeSupport sv !! key) in
  let denied {A} : P W A := writeQueryShapeDenial who profile datasource ≫= fun _ => fail (denied_for ReasonDeniedOperation) in
  binding ← on_error (AuthorizeBinding (sv_policy sv) principal profile datasource OperationListQueryShapes) (fun _ => denied);
  require (configured && String.eqb (ab_operation binding) OperationListQueryShapes) denied ≫= fun _ =>
  let adapterName := adapter_of sv binding in
  let complete := writeQueryShapeCompletion who profile in
  require (supportsConfiguredQueryShapes key)
    (complete (k_datasource (ab_key binding)) adapterName "not_implemented" EmptyString started None ≫= fun _ => fail (fault "not_implemented")) ≫= fun _ =>
  found ← (fun s => (inr (st_queryShapes s !! key), s));
  match found with
  | None =>
      complete (k_datasource (ab_key binding)) adapterName "error" "unavailable" started None ≫= fun _ => fail (fault "service_unavailable")
  | Some discovery =>
      authorized ← on_error (AuthorizeQueryShapeList (sv_policy sv) binding clientIdentifier (Some discovery)) (fun _ =>
        complete (k_datasource (ab_key binding)) adapterName "error" "internal" started None ≫= fun _ => fail (fault "internal"));
      let postToken := audit_data authorized in
      audited false (queryShapeAllowEvent who profile authorized postToken) ≫= fun _ =>
      ok ← acquireCapacity (ab_key binding);
      let complete outcome errorKind := complete (ql_datasource authorized) (ql_adapter authorized) outcome errorKind started (Some postToken) in
      require ok (complete "error" "capacity" ≫= fun _ => fail (fault "capacity")) ≫= fun _ =>
      holding (ab_key binding)
        (payload ← on_error (ResponsePayload authorized) (fun _ => complete "error" "internal" ≫= fun _ => fail (fault "internal"));
         require (slen payload =? ResultBytes authorized) (complete "error" "internal" ≫= fun _ => fail (fault "internal")) ≫= fun _ =>
         complete "success" EmptyString ≫= fun _ =>
         mret payload)
  end.
End Shapes.
