(* ===== verification/AuditBounds.v ===== *)
(** The preparation of the query service before its listener starts
    (internal/queryservice/query_shapes.go, keyset_audit.go, and the preflight of
    table_statistics.go): the audit events that a configuration can lead to are bounded, and
    the discovery snapshots are built and published. *)
From S2P Require Import Prelude Domain GoJson Number Portable Values QuerySpec Config Policy Sql Rows Aggregate AggregateNormal NumericBucket SqlAggregate PolicyAggregate Keyset KeysetBinds PolicyKeyset SqlKeyset KeysetRows KeysetCursor KeysetContinuation PublicShapes ShapeSizes ShapeDocument Discovery AuditEvents ShapeHash Driver Session KeysetSession Manager ServiceCore Service ServiceKeyset ServiceStatistics ServiceShapes.
Local Open Scope string_scope.
Local Open Scope Z_scope.

(** ** The scope of a configured keyset shape *)

Fixpoint configured_filter_fields (filter : ShapeFilter) : list string :=
  if String.eqb (sf_kind filter) "predicate" then [to_lower (sf_field filter)]
  else flat_map configured_filter_fields (sf_expressions filter).

(** [collectConfiguredKeysetAuditFilterFields] appends to [fields]. *)
Definition collectConfiguredKeysetAuditFilterFields (filter : ShapeFilter) (fields : list string) : list string :=
  (fields ++ configured_filter_fields filter)%list.

Definition configuredKeysetAuditScope (shape : KeysetSelectShape) : list Resource * list string :=
  let fields := map (fun p => to_lower (kp_field p)) (ks_projection shape) in
  let fields := from_option (fun filter => collectConfiguredKeysetAuditFilterFields filter fields) fields (ks_filter shape) in
  let fields := (fields ++ map (fun o => to_lower (ko_field o)) (ks_order_by shape))%list in
  ([{| re_schema := to_lower (r_schema (ks_source shape)); re_object := to_lower (r_name (ks_source shape)) |}],
   compact (sort_func bytes_le fields)).

(** ** The preflights *)

Definition maxQueryShapeAuditEventBytes : Z := MaxSupportedResultBytes.

(** [strings.Repeat] of one byte *)
Fixpoint repeated (count : nat) (c : ascii) : string :=
  match count with O => EmptyString | S count' => String c (repeated count' c) end.

Definition event_too_large : goerr := ErrorString "audit event exceeds the maximum".

Definition require_bound (e : Event) (maximum : Z) : error :=
  let? within := queryShapeAuditEventWithinBound e maximum in if? negb within return event_too_large then nil_error.

(** The identifiers have 64 bytes at most. *)
Definition worst_caller (identity : queryShapeAuditIdentity) (queryID : string) : caller := {|
  cl_requestID := repeated 64 "r"; cl_queryID := queryID; cl_principal := ai_principal identity;
  cl_clientIdentifier := ai_clientIdentifier identity |}.

(** [int64(math.MaxInt64)] *)
Definition maximumDuration : Z := 2 ^ 63 - 1.

Section Preflight.
Context {W DB : Type} (sv : Service W DB).

Definition pre_token_outcomes : list (string * string) :=
  [("not_implemented", EmptyString); ("error", "unavailable"); ("error", "internal")].

Definition adapter_name (key : BindingKey) : string := AdapterName (sv_databases sv) (k_datasource key).

Definition validateQueryShapePreTokenAuditBounds (bindings : list BindingKey) (maximum : Z) : error :=
  let identity := sv_queryShapeAuditIdentity sv in
  check? (if identified identity then
            require_bound (queryShapeDenialEvent sv (worst_caller identity EmptyString) (repeated 64 "f") max_int (repeated 64 "d") max_int) maximum
          else nil_error) then
  each (fun _ key =>
    match sv_bindingAuditIdentities sv !! key with
    | None => nil_error
    | Some identity =>
        each (fun _ outcome =>
          require_bound (queryShapeCompletionEvent sv (worst_caller identity EmptyString) (k_profile key) (k_datasource key)
            (adapter_name key) outcome.1 outcome.2 (Some maximumDuration) None) maximum) pre_token_outcomes
    end) bindings.

Definition validateQueryShapeAuditBound (key : BindingKey) (discovery : QueryShapeDiscovery) (maximum : Z) : error :=
  match sv_bindingAuditIdentities sv !! key with
  | None => nil_error
  | Some identity =>
      if? maximum <? 1 return event_too_large then
      let? binding := AuthorizeBinding (sv_policy sv) (ai_principal identity) (k_profile key) (k_datasource key) OperationListQueryShapes in
      let? authorized := AuthorizeQueryShapeList (sv_policy sv) binding (ai_clientIdentifier identity) (Some discovery) in
      let data := audit_data authorized in
      let who := worst_caller identity EmptyString in
      each (fun _ event => require_bound event maximum)
        [queryShapeAllowEvent sv who (k_profile key) authorized data;
         queryShapeCompletionEvent sv who (k_profile key) (ql_datasource authorized) (ql_adapter authorized) "error" "internal"
           (Some maximumDuration) (Some data)]
  end.

(** The preflight of the table statistics. *)
Definition statistics_event (who : caller) (type profile datasource adapter decision reason outcome errorKind : string)
    (duration : option Z) (resultBytes : Z) (resources : list Resource) (meta : gmap string metadata) : Event :=
  with_timestamp latest_timestamp
    (service_event sv who type profile datasource adapter OperationDescribeObjectStatistics decision reason outcome errorKind duration
       resultBytes EmptyString resources [] meta).

Definition maximumIdentifier : string := repeated 128 "i".

Definition statistics_binding (maximum : Z) (key : BindingKey) (identity : queryShapeAuditIdentity) : error :=
  match sn_profiles (sv_policy sv) !! k_profile key with
  | Some profile =>
      if negb (contains (pf_operations profile) OperationDescribeObjectStatistics) then nil_error
      else
        let who := worst_caller identity EmptyString in
        let event := fun type => statistics_event who type (k_profile key) (k_datasource key) (adapter_name key) in
        let resources := [{| re_schema := maximumIdentifier; re_object := maximumIdentifier |}] in
        let completion := event "operation_completion" EmptyString EmptyString in
        check? requireAuditEventBound (event "operation_decision" "deny" ReasonDeniedResource EmptyString EmptyString None 0 [] ∅) maximum then
        check? requireAuditEventBound (completion "error" "upstream" (Some maximumDuration) 0 [] ∅) maximum then
        check? requireAuditEventBound (completion "error" "upstream" (Some maximumDuration) 0 resources ∅) maximum then
        requireAuditEventBound (completion "success" EmptyString (Some maximumDuration) maximum resources
          {[ "partition_count" := MetaInt maxPhysicalPartitionAuditCount; "subpartition_count" := MetaInt maxPhysicalPartitionAuditCount ]}) maximum
  | None => nil_error
  end.

Definition validateTableStatisticsAuditBounds (maximum : Z) : error :=
  let identity := sv_queryShapeAuditIdentity sv in
  check? (if identified identity then
            requireAuditEventBound (statistics_event (worst_caller identity EmptyString) "operation_decision" EmptyString EmptyString EmptyString
              "deny" ReasonDeniedOperation EmptyString EmptyString None 0 [] ∅) maximum
          else nil_error) then
  each (fun _ kv => statistics_binding maximum kv.1 kv.2) (map_to_list (sv_bindingAuditIdentities sv)).

(** The event that combines what the decisions and completions of a keyset selection may hold. *)
Definition keyset_event (key : BindingKey) (identity : queryShapeAuditIdentity) (limits : Limits) (shape : KeysetSelectShape) : Event :=
  let '(resources, fields) := configuredKeysetAuditScope shape in
  service_event sv (worst_caller identity (repeated 64 "q")) "query_completion" (k_profile key) (k_datasource key) (adapter_name key)
    OperationSelectKeyset "allow" "DENIED_QUERY_FEATURE" "not_implemented" "service_unavailable" (Some maximumDuration)
    (MaxResultBytes limits) (repeated 64 "f") resources fields (keysetSuccessAuditMetadata (ks_name shape) true (MaxRows limits)).

Definition keyset_binding (maximum : Z) (key : BindingKey) (identity : queryShapeAuditIdentity) : error :=
  match sn_profiles (sv_policy sv) !! k_profile key with
  | None => Err (ErrorString "keyset audit profile disappeared from the policy snapshot")
  | Some profile =>
      if negb (contains (pf_operations profile) OperationSelectKeyset) then nil_error
      else each (fun _ shape => require_bound (keyset_event key identity (pf_limits profile) shape) maximum)
             (KeysetSelectShapes (pf_query profile))
  end.

Definition validateKeysetAuditBounds (maximum : Z) : error :=
  let identity := sv_queryShapeAuditIdentity sv in
  let bytes := MaxRequestBytes (sn_hardLimits (sv_policy sv)) in
  check? (if identified identity then
            require_bound (keysetOperationDenialEvent sv (worst_caller identity (repeated 64 "q")) (repeated 64 "f") bytes
              (repeated 64 "d") bytes) maximum
          else nil_error) then
  each (fun _ kv => keyset_binding maximum kv.1 kv.2) (map_to_list (sv_bindingAuditIdentities sv)).
End Preflight.

(** ** The discovery snapshots *)

Definition documents : Type := list ((string * IdentifierSemantics) * QueryShapeDocument).

Record discoveries := {
  di_documents : documents;
  di_semantics : gmap string (result IdentifierSemantics);
  di_initialized : gmap BindingKey QueryShapeDiscovery;
  di_problems : list goerr;
}.

Definition key_le (a b : BindingKey) : bool :=
  match String.compare (k_profile a) (k_profile b) with
  | Lt => true | Gt => false | Eq => bytes_le (k_datasource a) (k_datasource b)
  end.

Section Initialize.
Context {W DB : Type} `{Host W} (sha256 : string -> string) (sv : Service W DB).

(** [documents[documentKey]], which is built when it is not there. *)
Definition document_for (docs : documents) (profile : string) (semantics : IdentifierSemantics) : result (QueryShapeDocument * documents) :=
  match List.find (fun d => bool_decide (d.1 = (profile, semantics))) docs with
  | Some d => Ok (d.2, docs)
  | None => let? document := BuildQueryShapeDocument sha256 (sv_policy sv) profile semantics in
            Ok (document, ((profile, semantics), document) :: docs)
  end.

Definition discovery_for (docs : documents) (key : BindingKey) (semantics : IdentifierSemantics)
  : result (QueryShapeDiscovery * documents) :=
  let? (document, docs) := document_for docs (k_profile key) semantics in
  let? discovery := BuildQueryShapeDiscoveryFromDocument sha256 (sv_policy sv) (k_profile key) (k_datasource key)
                      (adapter_name sv key) (Some document) in
  Ok (discovery, docs).

(** Every document is built once under no semantics, before any datasource is asked. *)
Definition validate_static (_ : Z) (key : BindingKey) (docs : documents) : result documents :=
  if negb (supportsConfiguredQueryShapes sv key) then Ok docs
  else let? (_, docs) := discovery_for docs key no_semantics in Ok docs.

(** A datasource is probed once. *)
Definition semantics_of (datasource : string) (d : discoveries) : P W (result IdentifierSemantics * discoveries) :=
  match di_semantics d !! datasource with
  | Some initialization => mret (initialization, d)
  | None =>
      initialization ← probe sv datasource;
      mret (initialization, {| di_documents := di_documents d; di_semantics := <[datasource := initialization]> (di_semantics d);
                               di_initialized := di_initialized d; di_problems := di_problems d |})
  end.

Definition discovery_unavailable : goerr := ErrorString "query-shape discovery is unavailable".

Definition publish_under (key : BindingKey) (initialization : result IdentifierSemantics) (d : discoveries) : result discoveries :=
  match initialization with
  | Err _ => Ok {| di_documents := di_documents d; di_semantics := di_semantics d; di_initialized := di_initialized d;
                   di_problems := (di_problems d ++ [discovery_unavailable])%list |}
  | Ok semantics =>
      let? (discovery, docs) := discovery_for (di_documents d) key semantics in
      check? validateQueryShapeAuditBound sv key discovery maxQueryShapeAuditEventBytes then
      Ok {| di_documents := docs; di_semantics := di_semantics d; di_initialized := <[key := discovery]> (di_initialized d);
            di_problems := di_problems d |}
  end.

Fixpoint publish (bindings : list BindingKey) (d : discoveries) : P W (result discoveries) :=
  match bindings with
  | [] => mret (Ok d)
  | key :: bindings' =>
      if negb (supportsConfiguredQueryShapes sv key) then publish bindings' d
      else
        probed ← semantics_of (k_datasource key) d;
        match publish_under key probed.1 probed.2 with
        | Err e => mret (Err e)
        | Ok d => publish bindings' d
        end
  end.

Definition needed_bindings : list BindingKey := sort_func key_le (map fst (map_to_list (sv_discoveryNeeded sv))).

Definition preflight : result documents :=
  check? validateQueryShapePreTokenAuditBounds sv needed_bindings maxQueryShapeAuditEventBytes then
  check? validateTableStatisticsAuditBounds sv maxQueryShapeAuditEventBytes then
  check? validateKeysetAuditBounds sv maxQueryShapeAuditEventBytes then
  iter validate_static needed_bindings [].

(** [s.queryShapes = initialized; return problems, nil] *)
Definition installed (d : discoveries) : P W (result (list goerr)) := fun s =>
  (inr (Ok (di_problems d)), with_shapes (di_initialized d) s).

(** [discoveryInit] is set by the first call: the problems that leave a snapshot
    unpublished, or the error that stops the start. *)
Definition InitializeQueryShapeDiscovery (discoveryInit : bool) : P W (result (list goerr)) :=
  if discoveryInit then mret (Err (ErrorString "query-shape discovery is already initialized"))
  else
    match preflight with
    | Err e => mret (Err e)
    | Ok docs =>
        built ← publish needed_bindings {| di_documents := docs; di_semantics := ∅; di_initialized := ∅; di_problems := [] |};
        match built return P W (result (list goerr)) with Err e => mret (Err e) | Ok d => installed d end
    end.
End Initialize.

(** ** The identity that an event is counted for *)

Definition identity_bytes (i : queryShapeAuditIdentity) : Z :=
  slen (marshal (JStr (ai_principal i))) + slen (marshal (JStr (ai_clientIdentifier i))).
Definition small (i : queryShapeAuditIdentity) : Prop := identity_bytes i <= max_int.

(** [big] is counted with at least as many bytes, if [x] is counted at all. *)
Definition outweighs (big x : queryShapeAuditIdentity) : Prop :=
  identified x = true -> identified big = true /\ identity_bytes x <= identity_bytes big.

Lemma outweighs_refl x : outweighs x x. Proof. by split. Qed.
Lemma outweighs_trans a b c : outweighs a b -> outweighs b c -> outweighs a c.
Proof. intros Ha Hb Hc. destruct (Hb Hc) as [Hi ?], (Ha (proj1 (Hb Hc))) as [? ?]. split; [done|lia]. Qed.

Lemma identity_size i : small i -> auditIdentityJSONSize i = identity_bytes i.
Proof.
  intros Hs. unfold auditIdentityJSONSize. apply (grew_outcome max_int); [|done].
  unfold identity_bytes. apply grew_counter_string. rewrite <- (Z.add_0_l (slen _)). apply grew_counter_string, grew_refl.
  intros Hm. cbn in *. lia.
Qed.

Lemma conservative_covers current candidate : small current -> small candidate ->
  outweighs (conservative current candidate) current /\ outweighs (conservative current candidate) candidate.
Proof.
  intros Hc Hd. unfold conservative, moreConservativeAuditIdentity. rewrite !identity_size by done.
  destruct (identified candidate) eqn:E; cbn [negb]; [|by split; [apply outweighs_refl|unfold outweighs; rewrite E]].
  destruct (identified current) eqn:E'; cbn [negb]; [|by split; [unfold outweighs; rewrite E'|apply outweighs_refl]].
  destruct (Z.eqb_spec (identity_bytes candidate) (identity_bytes current)) as [Heq|Hne]; cbn [negb].
  - match goal with |- context [if ?b then candidate else _] => destruct b end; split; intros _; (split; [done|lia]).
  - destruct (Z.ltb_spec (identity_bytes current) (identity_bytes candidate)); split; intros _; (split; [done|lia]).
Qed.

Lemma conservative_small current candidate : small current -> small candidate -> small (conservative current candidate).
Proof. unfold conservative. by destruct (moreConservativeAuditIdentity _ _). Qed.

Lemma worst_covers l : forall z, small z -> Forall small l ->
  small (fold_left conservative l z) /\ forall x, x ∈ z :: l -> outweighs (fold_left conservative l z) x.
Proof.
  induction l as [|y l IH]; intros z Hz Hl; cbn [fold_left].
  - split; [done|]. intros x ->%list_elem_of_singleton. apply outweighs_refl.
  - apply Forall_cons in Hl as [Hy Hl]. destruct (conservative_covers z y Hz Hy) as [Hcz Hcy].
    destruct (IH (conservative z y)) as [Hs Hc]; [by apply conservative_small|done|]. split; [done|].
    pose proof (Hc _ (list_elem_of_here _ _)) as Hhead.
    intros x [->|[->|Hx]%elem_of_cons]%elem_of_cons.
    + by eapply outweighs_trans.
    + by eapply outweighs_trans.
    + apply Hc. by apply list_elem_of_further.
Qed.

Section Raised.
Context {K : Type} `{Countable K}.

Definition all_small (m : gmap K queryShapeAuditIdentity) : Prop := map_Forall (fun _ => small) m.
Definition covered (m : gmap K queryShapeAuditIdentity) (key : K) (x : queryShapeAuditIdentity) : Prop :=
  exists big, m !! key = Some big /\ small big /\ outweighs big x.

Lemma no_identity_small : small no_identity. Proof. by vm_compute. Qed.

Lemma raise_small (key : K) i m : all_small m -> small i -> all_small (raise_identity key i m).
Proof. intros Hm Hi. unfold raise_identity. destruct (moreConservativeAuditIdentity _ _); [|done]. by apply map_Forall_insert_2. Qed.

Lemma raise_keeps (key : K) i m k x : all_small m -> small i -> covered m k x -> covered (raise_identity key i m) k x.
Proof.
  intros Hm Hi (big & Hk & Hb & Hc). unfold raise_identity. destruct (moreConservativeAuditIdentity _ _) eqn:E; [|by exists big].
  destruct (decide (key = k)) as [->|Hne]; [|exists big; by rewrite lookup_insert_ne].
  exists i. rewrite lookup_insert_eq. split_and!; [done..|]. eapply outweighs_trans; [|exact Hc].
  destruct (conservative_covers big i Hb Hi) as [Hcov _]. revert Hcov. unfold conservative.
  rewrite Hk in E. change (default no_identity (Some big)) with big in E. by rewrite E.
Qed.

Lemma raise_covers (key : K) i m : all_small m -> small i -> identified i = true -> covered (raise_identity key i m) key i.
Proof.
  intros Hm Hi Hid. unfold raise_identity. destruct (moreConservativeAuditIdentity _ _) eqn:E.
  - exists i. rewrite lookup_insert_eq. split_and!; [done..|]. apply outweighs_refl.
  - destruct (m !! key) as [big|] eqn:Hk;
      [change (default no_identity (Some big)) with big in E|change (default no_identity None) with no_identity in E].
    + exists big. split_and!; [done|by apply (Hm key)|]. destruct (conservative_covers big i (Hm key big Hk) Hi) as [_ Hcov].
      revert Hcov. unfold conservative. by rewrite E.
    + revert E. unfold moreConservativeAuditIdentity. by rewrite Hid.
Qed.

(** A pass over a list that only raises identities outweighs what one of its steps outweighs. *)
Lemma pass_covers {A} (step : gmap K queryShapeAuditIdentity -> A -> gmap K queryShapeAuditIdentity) (l : list A) k x :
  (forall a m, a ∈ l -> all_small m -> all_small (step m a) /\ (covered m k x -> covered (step m a) k x)) ->
  forall m, all_small m ->
  (covered m k x \/ exists a, a ∈ l /\ forall m, all_small m -> covered (step m a) k x) ->
  all_small (fold_left step l m) /\ covered (fold_left step l m) k x.
Proof.
  induction l as [|a l IH]; intros Hstep m Hm Hx; cbn [fold_left].
  - split; [done|]. destruct Hx as [|(a & Ha & _)]; [done|]. by apply elem_of_nil in Ha.
  - destruct (Hstep a m) as [Hs Hk]; [apply list_elem_of_here|done|]. apply IH; [|done|].
    { intros b m' Hb. apply Hstep. by apply list_elem_of_further. }
    destruct Hx as [|(b & [->|Hb]%elem_of_cons & Hcov)]; [by left; apply Hk|by left; apply Hcov|right; by exists b].
Qed.

Lemma pass_small {A} (step : gmap K queryShapeAuditIdentity -> A -> gmap K queryShapeAuditIdentity) (l : list A) :
  (forall a m, a ∈ l -> all_small m -> all_small (step m a)) -> forall m, all_small m -> all_small (fold_left step l m).
Proof.
  induction l as [|a l IH]; intros Hstep m Hm; cbn [fold_left]; [done|]. apply IH.
  - intros b m' Hb. apply Hstep. by apply list_elem_of_further.
  - apply Hstep; [apply list_elem_of_here|done].
Qed.
End Raised.

Section Configured.
Context (cfg : Config).
Context (Hsmall : map_Forall (fun username user => small {| ai_principal := bu_principal user; ai_clientIdentifier := username |}) (ba_users (cfg_basic cfg))).

Lemma user_identities_in x : x ∈ user_identities cfg <->
  exists username user, ba_users (cfg_basic cfg) !! username = Some user /\ x = {| ai_principal := bu_principal user; ai_clientIdentifier := username |}.
Proof.
  unfold user_identities. rewrite list_elem_of_fmap. split.
  - intros ([username user] & -> & Hk%elem_of_map_to_list). by exists username, user.
  - intros (username & user & Hk & ->). exists (username, user). split; [done|]. by apply elem_of_map_to_list.
Qed.

Lemma user_identities_small x : x ∈ user_identities cfg -> small x.
Proof. intros (username & user & Hk & ->)%user_identities_in. by apply (Hsmall username user). Qed.

Lemma worst_identity_covers x : x ∈ user_identities cfg -> small (worst_identity cfg) /\ outweighs (worst_identity cfg) x.
Proof.
  intros Hx. destruct (worst_covers (user_identities cfg) no_identity no_identity_small) as [Hs Hc].
  - apply Forall_forall, user_identities_small.
  - split; [done|]. apply Hc. by apply list_elem_of_further.
Qed.

Lemma principal_covered x : x ∈ user_identities cfg -> identified x = true ->
  all_small (identity_by_principal cfg) /\ covered (identity_by_principal cfg) (ai_principal x) x.
Proof.
  intros Hx Hi. unfold identity_by_principal. apply pass_covers; [|done|].
  - intros y m Hy Hm. split; [apply raise_small; [done|by apply user_identities_small]|].
    intros Hk. apply raise_keeps; [done|by apply user_identities_small|done].
  - right. exists x. split; [done|]. intros m Hm. apply raise_covers; [done|by apply user_identities_small|done].
Qed.

Lemma assigned_key principalConfig profileName datasource profile :
  In profileName (p_profiles principalConfig) -> In datasource (p_datasources principalConfig) ->
  cfg_profiles cfg !! profileName = Some profile -> In datasource (pf_datasources profile) ->
  {| k_profile := profileName; k_datasource := datasource |} ∈ assigned_keys cfg principalConfig.
Proof.
  intros Hp Hd Hc Hin. apply list_elem_of_In, in_flat_map. exists profileName. split; [done|]. rewrite Hc. apply in_map_iff.
  exists datasource. split; [done|]. apply filter_In. split; [done|]. by apply contains_In.
Qed.

(** Whoever is assigned a binding is covered by the identity of that binding. *)
Lemma binding_covered x principalConfig key : x ∈ user_identities cfg -> identified x = true ->
  cfg_principals cfg !! ai_principal x = Some principalConfig -> key ∈ assigned_keys cfg principalConfig ->
  covered (binding_identities cfg) key x.
Proof.
  intros Hx Hi Hp Hk. destruct (principal_covered x Hx Hi) as [Hall (big & Hbig & Hs & Hc)]. unfold binding_identities.
  apply pass_covers; [|done|].
  - intros [name config] m _ Hm. cbn [fst snd]. destruct (identity_by_principal cfg !! name) as [i|] eqn:E; [|done].
    assert (Hsi : small i) by exact (Hall name i E).
    assert (Hinner : forall l m, all_small m -> all_small (fold_left (fun m key => raise_identity key i m) l m) /\
      (covered m key x -> covered (fold_left (fun m key => raise_identity key i m) l m) key x)).
    { induction l as [|k l IH]; intros m' Hm'; cbn [fold_left]; [done|].
      destruct (IH (raise_identity k i m')) as [? Hkeep]; [by apply raise_small|]. split; [done|]. intros Hcov. by apply Hkeep, raise_keeps. }
    by apply Hinner.
  - right. exists (ai_principal x, principalConfig). split; [by apply elem_of_map_to_list|]. cbn [fst snd]. rewrite Hbig. intros m Hm.
    apply pass_covers; [|done|].
    + intros k m' _ Hm'. split; [by apply raise_small|]. by apply raise_keeps.
    + right. exists key. split; [done|]. intros m' Hm'. destruct (Hc Hi) as [Hib _].
      destruct (raise_covers key big m' Hm' Hs Hib) as (top & Ht & Hst & Hct). exists top. split_and!; [done..|].
      by eapply outweighs_trans.
Qed.

Lemma configured_key profileName profile datasource : cfg_profiles cfg !! profileName = Some profile -> In datasource (pf_datasources profile) ->
  ({| k_profile := profileName; k_datasource := datasource |}, profile) ∈ configured_keys cfg.
Proof.
  intros Hp Hd. apply list_elem_of_In, in_flat_map. exists (profileName, profile). split.
  - by apply list_elem_of_In, elem_of_map_to_list.
  - apply in_map_iff. by exists datasource.
Qed.

Lemma needed_key profileName profile datasource : cfg_profiles cfg !! profileName = Some profile -> In datasource (pf_datasources profile) ->
  In OperationListQueryShapes (pf_operations profile) ->
  is_Some (discovery_needed cfg !! {| k_profile := profileName; k_datasource := datasource |}).
Proof.
  intros Hp Hd Ho. apply not_eq_None_Some. unfold discovery_needed. intros Hn%not_elem_of_list_to_map_2. apply Hn. rewrite <- list_fmap_compose.
  apply list_elem_of_fmap. exists ({| k_profile := profileName; k_datasource := datasource |}, profile). split; [done|].
  apply list_elem_of_In, filter_In. split; [by apply list_elem_of_In, configured_key|]. by apply contains_In.
Qed.
End Configured.

(** ** The bytes of an event *)

Notation jlen v := (slen (marshal (JStr v))).

Lemma jlen_empty v : nonempty v = false -> jlen v = 2.
Proof. by destruct v. Qed.
Lemma rune_encoded_bytes_pos r : rune_starts r -> 0 < rune_encoded_bytes r.
Proof.
  destruct r as [code bytes|b]; cbn [rune_encoded_bytes rune_starts]; [|done]. destruct bytes as [|c bytes]; [by intros (? & ? & ? & _)|].
  intros _. cbv zeta. rewrite slen_cons. pose proof (slen_nonneg bytes).
  repeat match goal with |- context [if ?b then _ else _] => destruct b end; lia.
Qed.

Lemma jlen_nonempty v : nonempty v = true -> 2 < jlen v.
Proof.
  intros Hv. destruct (runes_bytes v) as [Hb Hs]. rewrite marshal_string_bytes. destruct (runes v) as [|r l]; [by subst v|].
  apply Forall_cons in Hs as [Hr _]. apply rune_encoded_bytes_pos in Hr. pose proof (sum_of_rune_bytes_nonneg l).
  change (sum_of rune_encoded_bytes (r :: l)) with (rune_encoded_bytes r + sum_of rune_encoded_bytes l). lia.
Qed.

Lemma jlen_least v : 2 <= jlen v.
Proof. destruct (nonempty v) eqn:E; [pose proof (jlen_nonempty v E); lia|by rewrite jlen_empty]. Qed.

(** A member that is no longer than another adds no more bytes. *)
Definition field_le (f g : field_of) : Prop := f.1.2 = g.1.2 /\ (f.1.1 = true -> g.1.1 = true /\ slen (marshal f.2) <= slen (marshal g.2)).

Lemma field_bytes_nonneg f : 0 <= field_bytes f.
Proof. unfold field_bytes. destruct f.1.1; [|done]. pose proof (slen_nonneg (marshal (JStr f.1.2))). pose proof (slen_nonneg (marshal f.2)). lia. Qed.

Lemma field_le_bytes f g : field_le f g -> field_bytes f <= field_bytes g.
Proof.
  intros [Hk Hf]. pose proof (field_bytes_nonneg g). unfold field_bytes in *. rewrite Hk. destruct f.1.1; [|done].
  destruct (Hf eq_refl) as [Hg Hl]. rewrite Hg in *. lia.
Qed.

Lemma text_le k v w : jlen v <= jlen w -> field_le (text_field k v) (text_field k w).
Proof. by split. Qed.

Lemma omit_text_le k v w : jlen v <= jlen w -> field_le (omit_text_field k v) (omit_text_field k w).
Proof.
  intros Hl. split; [done|]. cbn [omit_text_field fst snd]. intros Hv. split; [|done]. destruct (nonempty w) eqn:E; [done|].
  pose proof (jlen_nonempty v Hv). rewrite (jlen_empty w E) in Hl. lia.
Qed.

Lemma itoa_length n : 0 < n -> 10 ^ (slen (itoa n) - 1) <= n < 10 ^ slen (itoa n).
Proof.
  intros Hn. destruct (itoa_canonical n) as [Hc Hv]; [lia|]. pose proof (canonical_length _ Hc) as Hl. rewrite Hv in Hl. split; [by apply Hl|].
  pose proof (digits_value_bounds (itoa n)) as Hd. rewrite Hv in Hd. apply Hd, Hc.
Qed.

Lemma itoa_le n m : 0 < n <= m -> slen (itoa n) <= slen (itoa m).
Proof.
  intros Hn. pose proof (itoa_length n). pose proof (itoa_length m). destruct (Z.le_gt_cases (slen (itoa n)) (slen (itoa m))); [done|].
  assert (10 ^ slen (itoa m) <= 10 ^ (slen (itoa n) - 1)); [|lia]. apply Z.pow_le_mono_r; lia.
Qed.

Lemma omit_int_le k n m : 0 <= n <= m -> field_le (omit_int_field k n) (omit_int_field k m).
Proof.
  intros Hn. split; [done|]. cbn [omit_int_field fst snd]. intros Hz%negb_true_iff%Z.eqb_neq. split; [apply negb_true_iff, Z.eqb_neq; lia|].
  cbn [marshal]. apply itoa_le. lia.
Qed.

(** No duration in milliseconds has more digits than the greatest number. *)
Definition duration_field (d : option Z) : field_of := (bool_decide (is_Some d), "duration_ms", JInt (default 0 d)).

Lemma duration_le z : Z.abs z < 10 ^ 18 -> field_le (duration_field (Some z)) (duration_field (Some maximumDuration)).
Proof.
  intros Hz. split; [done|]. intros _. split; [by apply bool_decide_eq_true_2|]. cbn [duration_field snd default from_option id marshal].
  change (slen (itoa maximumDuration)) with 19. destruct (Z.lt_trichotomy z 0) as [Hneg|[->|Hpos]]; [|by vm_compute|].
  - replace z with (- - z) by lia. rewrite itoa_opp, slen_cons by lia.
    pose proof (itoa_le (- z) (10 ^ 18 - 1) ltac:(lia)) as Hl. change (slen (itoa (10 ^ 18 - 1))) with 18 in Hl. lia.
  - pose proof (itoa_le z (10 ^ 18 - 1) ltac:(lia)) as Hl. change (slen (itoa (10 ^ 18 - 1))) with 18 in Hl. lia.
Qed.

(** The members other than those of the identity. *)
Definition other_fields (e : Event) : list field_of := (take 4 (event_fields e) ++ drop 6 (event_fields e))%list.
Definition identity_fields (e : Event) : list field_of :=
  [omit_text_field "principal" (ev_principal e); omit_text_field "client_identifier" (ev_client_identifier e)].

Lemma event_bytes e : sum_of field_bytes (event_fields e) = sum_of field_bytes (identity_fields e) + sum_of field_bytes (other_fields e).
Proof. unfold other_fields, event_fields, identity_fields, sum_of. cbn [take drop app foldr]. lia. Qed.

Lemma sum_le l k : Forall2 field_le l k -> sum_of field_bytes l <= sum_of field_bytes k.
Proof.
  unfold sum_of. induction 1 as [|f g l k Hf _ IH]; cbn [foldr]; [done|]. apply field_le_bytes in Hf. lia.
Qed.

Lemma identity_fields_le e e' x big : identified x = true -> outweighs big x ->
  ev_principal e = ai_principal x -> ev_client_identifier e = ai_clientIdentifier x ->
  ev_principal e' = ai_principal big -> ev_client_identifier e' = ai_clientIdentifier big ->
  sum_of field_bytes (identity_fields e) <= sum_of field_bytes (identity_fields e').
Proof.
  intros Hx Hc He1 He2 He3 He4. destruct (Hc Hx) as [Hbig Hle]. unfold identity_fields, sum_of, field_bytes, omit_text_field, identity_bytes in *.
  rewrite He1, He2, He3, He4. unfold identified in Hx, Hbig. apply andb_true_iff in Hx as [-> ->], Hbig as [-> ->]. cbn [foldr fst snd] in *.
  generalize dependent (slen (marshal (JStr (ai_principal x)))). generalize dependent (slen (marshal (JStr (ai_clientIdentifier x)))).
  generalize (slen (marshal (JStr (ai_principal big)))) (slen (marshal (JStr (ai_clientIdentifier big)))). intros. lia.
Qed.

(** An event fits when a larger one was found to. *)
Lemma event_fits e e' x big maximum : countable_event e' -> require_bound e' maximum = nil_error ->
  identified x = true -> outweighs big x ->
  ev_principal e = ai_principal x -> ev_client_identifier e = ai_clientIdentifier x ->
  ev_principal e' = ai_principal big -> ev_client_identifier e' = ai_clientIdentifier big ->
  sum_of field_bytes (other_fields e) <= sum_of field_bytes (other_fields (with_timestamp latest_timestamp e')) ->
  slen (marshal (event_json e)) + 1 <= maximum.
Proof.
  intros Hc Hb Hx Hcov He1 He2 He3 He4 Hle. unfold require_bound in Hb. apply rbind_ok in Hb as (within & Hw & Hb).
  destruct within; [|done]. apply within_bound in Hw; [|done]. revert Hw. rewrite !event_len, !event_bytes.
  pose proof (identity_fields_le e (with_timestamp latest_timestamp e') x big Hx Hcov He1 He2 He3 He4). lia.
Qed.

Lemma sum_split n m l : sum_of field_bytes l =
  sum_of field_bytes (take n l) + sum_of field_bytes (take m (drop n l)) + sum_of field_bytes (drop m (drop n l)).
Proof.
  assert (Happ : forall l k, sum_of field_bytes (l ++ k)%list = sum_of field_bytes l + sum_of field_bytes k).
  { intros l' k. unfold sum_of. induction l' as [|f l' IH]; cbn [app foldr]; [done|]. rewrite IH. lia. }
  rewrite <- Z.add_assoc, <- !Happ, !take_drop. done.
Qed.

Ltac same_fields :=
  apply sum_le; unfold other_fields, event_fields; cbn [take drop app];
  repeat (apply Forall2_cons_2; [first
    [ apply omit_text_le; apply Z.le_refl | apply text_le; apply Z.le_refl | apply omit_int_le; done | by split | idtac ]|]);
  try apply Forall2_nil_2.

Lemma each_all {A} (check : A -> error) l : each (fun _ => check) l = nil_error <-> Forall (fun x => check x = nil_error) l.
Proof. by apply each_ok_Forall. Qed.

Section Events.
Context {W DB : Type} (sv : Service W DB).
Context (requestID timestamp : string) (Hrequest : jlen requestID <= 66) (Htime : jlen timestamp <= 32).
Context (x big : queryShapeAuditIdentity) (Hx : identified x = true) (Hcov : outweighs big x) (maximum : Z).

Definition as_caller : caller := lister requestID (ai_principal x) (ai_clientIdentifier x).

Lemma denial_fits profileHash datasourceHash profileBytes datasourceBytes :
  jlen profileHash <= 66 -> jlen datasourceHash <= 66 -> 0 <= profileBytes <= max_int -> 0 <= datasourceBytes <= max_int ->
  require_bound (queryShapeDenialEvent sv (worst_caller big EmptyString) (repeated 64 "f") max_int (repeated 64 "d") max_int) maximum = nil_error ->
  slen (marshal (event_json (with_timestamp timestamp (queryShapeDenialEvent sv as_caller profileHash profileBytes datasourceHash datasourceBytes)))) + 1 <= maximum.
Proof.
  intros Hp Hd Hpb Hdb Hbound. eapply event_fits; [|exact Hbound|exact Hx|exact Hcov|done..|].
  - constructor; [done|..]; cbn; try (unfold in_int64, max_int; lia). by apply map_Forall_empty.
  - same_fields.
Qed.

Lemma pre_token_fits key outcome errorKind z : (outcome, errorKind) ∈ pre_token_outcomes -> Z.abs z < 10 ^ 18 ->
  each (fun _ outcome => require_bound (queryShapeCompletionEvent sv (worst_caller big EmptyString) (k_profile key) (k_datasource key)
    (adapter_name sv key) outcome.1 outcome.2 (Some maximumDuration) None) maximum) pre_token_outcomes = nil_error ->
  slen (marshal (event_json (with_timestamp timestamp (queryShapeCompletionEvent sv as_caller (k_profile key) (k_datasource key)
    (adapter_name sv key) outcome errorKind (Some z) None)))) + 1 <= maximum.
Proof.
  intros Hin Hz Hbound. apply each_all, Forall_forall with (x := (outcome, errorKind)) in Hbound as Hin'; [|done]. clear Hbound Hin.
  rename Hin' into Hin. cbn [fst snd] in Hin.
  eapply event_fits; [|exact Hin|exact Hx|exact Hcov|done..|].
  - constructor; [by intros ? [= <-]|..]; try done; by apply map_Forall_empty.
  - same_fields. by apply duration_le.
Qed.

(** What is written about a published set of shapes, and what it was found to be at most. *)
Lemma allow_fits profile authorized authorized' :
  ql_discovery authorized' = ql_discovery authorized -> in_int64 (ResultBytes authorized) -> in_int64 (ShapeCount authorized) ->
  require_bound (queryShapeAllowEvent sv (worst_caller big EmptyString) profile authorized' (audit_data authorized')) maximum = nil_error ->
  slen (marshal (event_json (with_timestamp timestamp (queryShapeAllowEvent sv as_caller profile authorized (audit_data authorized))))) + 1 <= maximum.
Proof.
  intros Hd Hr Hs Hbound. destruct authorized as [p c o d], authorized' as [p' c' o' d']. cbn in Hd. subst d'.
  eapply event_fits; [|exact Hbound|exact Hx|exact Hcov|done..|].
  - constructor; [done|..]; try done; by apply map_Forall_empty.
  - same_fields.
Qed.

Lemma post_token_fits profile authorized authorized' outcome errorKind z :
  ql_discovery authorized' = ql_discovery authorized -> in_int64 (ResultBytes authorized) -> in_int64 (ShapeCount authorized) ->
  (outcome, errorKind) ∈ [("error", "capacity"); ("error", "internal"); ("success", EmptyString)] -> Z.abs z < 10 ^ 18 ->
  require_bound (queryShapeCompletionEvent sv (worst_caller big EmptyString) profile (ql_datasource authorized') (ql_adapter authorized')
    "error" "internal" (Some maximumDuration) (Some (audit_data authorized'))) maximum = nil_error ->
  slen (marshal (event_json (with_timestamp timestamp (queryShapeCompletionEvent sv as_caller profile (ql_datasource authorized)
    (ql_adapter authorized) outcome errorKind (Some z) (Some (audit_data authorized)))))) + 1 <= maximum.
Proof.
  intros Hd Hr Hs Hin Hz Hbound. destruct authorized as [p c o d], authorized' as [p' c' o' d']. cbn in Hd. subst d'.
  eapply event_fits; [|exact Hbound|exact Hx|exact Hcov|done..|].
  - constructor; [by intros ? [= <-]|..]; try done; by apply map_Forall_empty.
  - rewrite !elem_of_cons in Hin. destruct Hin as [[= -> ->]|[[= -> ->]|[[= -> ->]|[]%elem_of_nil]]].
    1,2: same_fields; first [by apply duration_le | by apply omit_text_le, Z.leb_le].
    rewrite !(sum_split 12 2 (other_fields _)). apply Z.add_le_mono; [apply Z.add_le_mono; [same_fields|by apply Z.leb_le]|].
    same_fields. by apply duration_le.
Qed.
End Events.

(** ** What is published *)

Lemma array_items l : len l <= slen (marshal (JArr l)).
Proof.
  rewrite json_array_len. enough (len l <= slen (join "," (map marshal l)) + 1) by lia.
  induction l as [|j l IH]; [by vm_compute|]. rewrite len_cons. destruct l as [|k l].
  - cbn [map join]. pose proof (slen_nonneg (marshal j)). rewrite len_nil. lia.
  - cbn [map] in *. change (join "," (marshal j :: marshal k :: map marshal l)) with (marshal j +:+ "," +:+ join "," (marshal k :: map marshal l)).
    rewrite !slen_app. change (slen ",") with 1. pose proof (slen_nonneg (marshal j)). lia.
Qed.

Lemma discovery_limits sha256 s profileName datasource adapter semantics d :
  BuildQueryShapeDiscovery sha256 s profileName datasource adapter semantics = Ok d ->
  exists profile, sn_profiles s !! profileName = Some profile /\ dc_limits d = Limits_Min (sn_hardLimits s) (pf_limits profile).
Proof.
  unfold BuildQueryShapeDiscovery, BuildQueryShapeDiscoveryFromDocument. intros (doc & _ & H)%rbind_ok.
  destruct (sn_profiles s !! profileName) as [profile|]; [|done]. exists profile. split; [done|]. do 3 apply if_err_ok in H as [_ H].
  by apply rbind_ok in H as ([prefix bytes] & _ & [= <-]).
Qed.

Section Published.
Context {W DB : Type} `{HW : Host W} (sha256 : string -> string) (sv : Service W DB).

(** The probes [t] asked the datasource, and [r] is all that it answered. *)
Definition answered (t : list action) (datasource : string) (r : result IdentifierSemantics) : Prop :=
  forall r', Probed datasource r' ∈ t <-> r' = r.

(** A published snapshot: that of its binding under the semantics that its datasource
    answered, with its events within the bound. *)
Definition published (t : list action) (key : BindingKey) (d : QueryShapeDiscovery) : Prop :=
  supportsConfiguredQueryShapes sv key = true /\
  (exists semantics, answered t (k_datasource key) (Ok semantics) /\
    BuildQueryShapeDiscovery sha256 (sv_policy sv) (k_profile key) (k_datasource key) (adapter_name sv key) semantics = Ok d) /\
  validateQueryShapeAuditBound sv key d maxQueryShapeAuditEventBytes = nil_error.

Definition cache (docs : documents) : Prop :=
  Forall (fun d => BuildQueryShapeDocument sha256 (sv_policy sv) d.1.1 d.1.2 = Ok d.2) docs.

Lemma document_for_ok docs profile semantics document docs' : cache docs ->
  document_for sha256 sv docs profile semantics = Ok (document, docs') ->
  cache docs' /\ BuildQueryShapeDocument sha256 (sv_policy sv) profile semantics = Ok document.
Proof.
  intros Hc. unfold document_for. destruct (List.find _ docs) as [d|] eqn:E.
  - intros [= <- <-]. split; [done|]. apply List.find_some in E as [Hin Hd%bool_decide_eq_true].
    apply list_elem_of_In in Hin. eapply Forall_forall in Hc; [|exact Hin]. by rewrite Hd in Hc.
  - intros (document' & Hd & [= <- <-])%rbind_ok. split; [|done]. by constructor.
Qed.

Lemma discovery_for_ok docs key semantics d docs' : cache docs -> discovery_for sha256 sv docs key semantics = Ok (d, docs') ->
  cache docs' /\ BuildQueryShapeDiscovery sha256 (sv_policy sv) (k_profile key) (k_datasource key) (adapter_name sv key) semantics = Ok d.
Proof.
  intros Hc ([document docs''] & Hd & (d' & Hf & [= <- <-])%rbind_ok)%rbind_ok. apply document_for_ok in Hd as [? Hd]; [|done].
  split; [done|]. unfold BuildQueryShapeDiscovery. by rewrite Hd.
Qed.

(** The probes [t] are those that [d] remembers. *)
Definition building (t : list action) (d : discoveries) : Prop :=
  cache (di_documents d) /\ (forall datasource r, di_semantics d !! datasource = Some r <-> Probed datasource r ∈ t) /\
  map_Forall (published t) (di_initialized d).

Lemma remembered t d datasource r : building t d -> di_semantics d !! datasource = Some r -> answered t datasource r.
Proof. intros (_ & Hs & _) Hr r'. rewrite <- Hs, Hr. split; [by intros [= <-]|by intros ->]. Qed.

(** A datasource that was not asked before does not change what the others answered. *)
Lemma published_probed t datasource r key d : (forall r', Probed datasource r' ∉ t) -> published t key d ->
  published (t ++ [Probed datasource r]) key d.
Proof.
  intros Hnew (Hsup & (semantics & Hans & Hb) & Hv). split; [done|]. split; [|done]. exists semantics. split; [|done].
  intros r'. rewrite elem_of_app, list_elem_of_singleton. split; [|intros ->; left; by apply Hans].
  intros [Hin|[= Hk Hr]]; [by apply Hans|]. exfalso. apply (Hnew (Ok semantics)). rewrite <- Hk. by apply Hans.
Qed.

(** From [d] to [d'] the bindings of [keys] were handled. *)
Definition built (keys : list BindingKey) (d d' : discoveries) : Prop :=
  (forall k, is_Some (di_initialized d !! k) -> is_Some (di_initialized d' !! k)) /\
  (forall k, is_Some (di_initialized d' !! k) -> is_Some (di_initialized d !! k) \/ k ∈ keys) /\
  exists l, di_problems d' = (di_problems d ++ l)%list /\
    (l = [] -> forall k, k ∈ keys -> supportsConfiguredQueryShapes sv k = true -> is_Some (di_initialized d' !! k)).

Lemma publish_under_ok t key initialization d d' : building t d -> supportsConfiguredQueryShapes sv key = true ->
  answered t (k_datasource key) initialization -> publish_under sha256 sv key initialization d = Ok d' -> building t d' /\ built [key] d d'.
Proof.
  intros (Hc & Hs & Hi) Hsup Hans. destruct initialization as [semantics|e]; cbn [publish_under].
  - intros ([discovery docs] & Hd & Hb)%rbind_ok. apply rbind_ok in Hb as ([] & Hb & [= <-]). apply discovery_for_ok in Hd as [Hc' Hd]; [|done].
    assert (Hnew : published t key discovery) by (split; [exact Hsup|split; [by exists semantics|exact Hb]]).
    split; [split; [exact Hc'|split; [exact Hs|by apply map_Forall_insert_2]]|].
    split_and!; cbn.
    + intros k Hk. destruct (decide (key = k)) as [->|]; [by rewrite lookup_insert_eq|by rewrite lookup_insert_ne].
    + intros k. destruct (decide (key = k)) as [->|]; [right; apply list_elem_of_here|]. rewrite lookup_insert_ne by done. by left.
    + exists []. split; [by rewrite app_nil_r|]. intros _ k ->%list_elem_of_singleton _. by rewrite lookup_insert_eq.
  - intros [= <-]. split; [done|]. split_and!; cbn; [done|by left|]. exists [discovery_unavailable]. done.
Qed.

Lemma semantics_of_ok t0 t datasource d s r d' s' : st_trace s = (t0 ++ t)%list -> building t d ->
  semantics_of sv datasource d s = (inr (r, d'), s') ->
  exists t', st_trace s' = (t0 ++ t')%list /\ building t' d' /\ answered t' datasource r /\ di_initialized d' = di_initialized d /\
    di_problems d' = di_problems d.
Proof.
  intros Ht Hb. unfold semantics_of. destruct (di_semantics d !! datasource) as [initialization|] eqn:E.
  - intros [= <- <- <-]. exists t. split_and!; [done..|by eapply remembered|done|done].
  - unfold mbind, P_bind, probe. destruct (manager_IdentifierSemantics _ _ _) as [initialization w] eqn:Em.
    intros [= <- <- <-]. exists (t ++ [Probed datasource initialization])%list. cbn. rewrite Ht, <- app_assoc.
    assert (Hnew : forall r', Probed datasource r' ∉ t) by (intros r' Hin; destruct Hb as (_ & Hs & _); apply Hs in Hin; congruence).
    assert (Hb' : building (t ++ [Probed datasource initialization])
      {| di_documents := di_documents d; di_semantics := <[datasource := initialization]> (di_semantics d);
         di_initialized := di_initialized d; di_problems := di_problems d |}).
    { destruct Hb as (Hc & Hs & Hi). split; [exact Hc|]. split; cbn.
      - intros k r'. rewrite elem_of_app, list_elem_of_singleton, <- Hs, lookup_insert_Some. split.
        + intros [[<- <-]|[_ ?]]; [by right|by left].
        + intros [Hk|[= -> ->]]; [right; split; [congruence|done]|by left].
      - intros k x Hx. apply published_probed; [done|by apply Hi]. }
    split; [done|]. split; [exact Hb'|]. split; [|done]. eapply remembered; [exact Hb'|]. cbn. by rewrite lookup_insert_eq.
Qed.

Lemma publish_ok t0 keys : forall t d s d' s', st_trace s = (t0 ++ t)%list -> building t d ->
  publish sha256 sv keys d s = (inr (Ok d'), s') ->
  exists t', st_trace s' = (t0 ++ t')%list /\ building t' d' /\ built keys d d'.
Proof.
  induction keys as [|key keys IH]; intros t d s d' s' Ht Hb; cbn [publish].
  { intros [= <- <-]. exists t. split; [done|]. split; [done|]. split_and!; [done|by left|]. exists []. rewrite app_nil_r. split; [done|]. by intros _ k ?%elem_of_nil. }
  destruct (supportsConfiguredQueryShapes sv key) eqn:Hsup; cbn [negb].
  - intros H. unfold mbind, P_bind in H. destruct (semantics_of _ _ _ _) as [[e|[r d1]] s1] eqn:Es; [done|].
    apply (semantics_of_ok t0 t) in Es as (t1 & Ht1 & Hb1 & Hans & Hi1 & Hp1); [|done..]. cbn [fst snd] in H.
    destruct (publish_under _ _ _ _ _) as [d2|e] eqn:Eu; [|done]. apply (publish_under_ok t1) in Eu as [Hb2 (Hk & Hnew & l & Hl & Hall)]; [|done..].
    apply (IH t1) in H as (t' & Ht' & Hb' & Hk' & Hnew' & l' & Hl' & Hall'); [|done..]. exists t'. split; [done|]. split; [done|]. rewrite Hi1, Hp1 in *. split_and!.
    + intros k Hd. by apply Hk', Hk.
    + intros k [Hd|Hd]%Hnew'; [apply Hnew in Hd as [Hd|Hd]; [by left|]|]; right; rewrite elem_of_cons.
      * left. by apply list_elem_of_singleton.
      * by right.
    + exists (l ++ l')%list. split; [by rewrite Hl', Hl, app_assoc|]. intros [-> ->]%app_eq_nil k [->|Hin]%elem_of_cons Hsk.
      * apply Hk', Hall; [done|apply list_elem_of_here|done].
      * by apply Hall'.
  - intros H. apply (IH t) in H as (t' & Ht' & Hb' & Hk' & Hnew' & l' & Hl' & Hall'); [|done..]. exists t'. split; [done|]. split; [done|]. split_and!; [done|..].
    + intros k [Hd|Hd]%Hnew'; [by left|right; by apply list_elem_of_further].
    + exists l'. split; [done|]. intros Hl0 k [->|Hin]%elem_of_cons Hsk; [by rewrite Hsup in Hsk|by apply Hall'].
Qed.

Lemma static_ok keys docs' : iter (validate_static sha256 sv) keys [] = Ok docs' -> cache docs'.
Proof.
  assert (Hgen : forall i docs, cache docs -> iter_from (validate_static sha256 sv) i keys docs = Ok docs' -> cache docs'); [|intros Hr; eapply (Hgen 0 []); [constructor|exact Hr]].
  induction keys as [|key keys IH]; intros i docs Hc; cbn [iter_from]; [by intros [= <-]|].
  intros (docs1 & Hs & Hr)%rbind_ok. eapply IH; [|exact Hr]. unfold validate_static in Hs. destruct (negb _); [by injection Hs as <-|].
  apply rbind_ok in Hs as ([d docs2] & Hd & [= <-]). by apply discovery_for_ok in Hd as [? _].
Qed.

Lemma needed_bindings_in key : key ∈ needed_bindings sv <-> is_Some (sv_discoveryNeeded sv !! key).
Proof.
  unfold needed_bindings. rewrite sort_func_perm, list_elem_of_fmap. split.
  - intros ([k b] & -> & Hk%elem_of_map_to_list). by exists b.
  - intros [b Hb]. exists (key, b). split; [done|]. by apply elem_of_map_to_list.
Qed.

Lemma initialized_ok s problems s' : InitializeQueryShapeDiscovery sha256 sv false s = (inr (Ok problems), s') ->
  (exists docs, preflight sha256 sv = Ok docs) /\
  (exists t, st_trace s' = (st_trace s ++ t)%list /\ map_Forall (published t) (st_queryShapes s')) /\
  (forall key, is_Some (st_queryShapes s' !! key) -> is_Some (sv_discoveryNeeded sv !! key)) /\
  (problems = [] -> forall key, is_Some (sv_discoveryNeeded sv !! key) -> supportsConfiguredQueryShapes sv key = true ->
    is_Some (st_queryShapes s' !! key)).
Proof.
  unfold InitializeQueryShapeDiscovery. destruct (preflight _ _) as [docs|e] eqn:Hp; [|done]. intros H. unfold mbind, P_bind in H.
  destruct (publish _ _ _ _ _) as [[e|[d|e]] s1] eqn:Hpub; [done| |done]. unfold installed in H. injection H as <- <-. cbn [st_queryShapes with_shapes].
  unfold preflight in Hp. pose proof Hp as Hp0. apply rbind_ok in Hp as ([] & _ & Hp). apply rbind_ok in Hp as ([] & _ & Hp). apply rbind_ok in Hp as ([] & _ & Hp).
  apply static_ok in Hp. apply (publish_ok (st_trace s) _ []) in Hpub as (t & Ht & (_ & _ & Hall) & _ & Hnew & l & Hl & Hfull); [|by rewrite app_nil_r|].
  2: { split_and!; [done|by intros k r; cbn; rewrite lookup_empty, elem_of_nil|apply map_Forall_empty]. }
  cbn in Hnew, Hl. split_and!; [by exists docs|by exists t|..].
  - intros key [Hk|Hk]%Hnew; [by apply is_Some_None in Hk|]. by apply needed_bindings_in.
  - intros Hnil key Hk Hsup. apply Hfull; [congruence|by apply needed_bindings_in|done].
Qed.
End Published.

(** ** What a listing writes *)

Section Writes.
Context {W : Type} `{HW : Host W} (shapes : gmap BindingKey QueryShapeDiscovery) (Q : Event -> Prop).

(** With the snapshots [shapes], [m] leaves them alone, writes only events that [Q]
    describes, and its answer is one that [R] describes. *)
Definition writes {A} (m : P W A) (R : A -> Prop) : Prop := forall s, st_queryShapes s = shapes ->
  st_queryShapes (m s).2 = shapes /\
  (exists t, st_trace (m s).2 = (st_trace s ++ t)%list /\ forall detached e ok, Audited detached e ok ∈ t -> Q e) /\
  (forall a, (m s).1 = inr a -> R a).

Lemma writes_ret {A} (a : A) (R : A -> Prop) : R a -> writes (mret a) R.
Proof. intros HR s Hs. split_and!; [done| |by intros ? [= <-]]. exists []. split; [by rewrite app_nil_r|]. by intros ? ? ? ?%elem_of_nil. Qed.

Lemma writes_fail {A} e (R : A -> Prop) : writes (fail e) R.
Proof. intros s Hs. split_and!; [done| |done]. exists []. split; [by rewrite app_nil_r|]. by intros ? ? ? ?%elem_of_nil. Qed.

Lemma writes_bind {A B} (m : P W A) (k : A -> P W B) R R' : writes m R -> (forall a, R a -> writes (k a) R') -> writes (m ≫= k) R'.
Proof.
  intros Hm Hk s Hs. destruct (Hm s Hs) as (Hsh & (t & Ht & HQ) & HR). unfold mbind, P_bind. destruct (m s) as [[e|a] s1]; cbn in *.
  - split_and!; [done| |done]. by exists t.
  - destruct (Hk a (HR a eq_refl) s1 Hsh) as (Hsh' & (t' & Ht' & HQ') & HR'). split_and!; [done| |done].
    exists (t ++ t')%list. split; [by rewrite Ht', Ht, app_assoc|]. intros d e ok [He|He]%elem_of_app; [by eapply HQ|by eapply HQ'].
Qed.

Lemma writes_on_error {A} (r : result A) h (R : A -> Prop) :
  (forall a, r = Ok a -> R a) -> (forall e, writes (h e) R) -> writes (on_error r h) R.
Proof. intros Ho He. destruct r; [by apply writes_ret, Ho|by apply He]. Qed.

Lemma writes_require b h : writes h (fun _ => False) -> writes (require b h) (fun _ => b = true).
Proof. intros He. destruct b; [by apply writes_ret|]. intros s Hs. destruct (He s Hs) as (? & ? & HR). split_and!; [done..|]. by intros a Ha%HR. Qed.

Lemma writes_audited detached e : Q e -> writes (audited detached e) (fun _ => True).
Proof.
  intros He. unfold audited. eapply writes_bind with (R := fun _ => True); [|intros [] _; [by apply writes_ret|apply writes_fail]].
  intros s Hs. unfold writeAudit. destruct (sink_write _ _ _) as [ok w]. split_and!; [done| |done].
  exists [Audited detached e ok]. split; [done|]. by intros ? ? ? [= -> -> ->]%list_elem_of_singleton.
Qed.

Lemma writes_read {A} (f : state W -> A) (R : A -> Prop) : (forall s, st_queryShapes s = shapes -> R (f s)) -> writes (fun s => (inr (f s), s)) R.
Proof. intros HR s Hs. split_and!; [done| |by intros ? [= <-]; apply HR]. exists []. split; [by rewrite app_nil_r|]. by intros ? ? ? ?%elem_of_nil. Qed.

Lemma writes_now : writes time_now (fun started => exists w : W, started = clock w).
Proof. apply writes_read. intros s _. by exists (st_world s). Qed.

Lemma writes_then_fail {A B} (m : P W A) e (R : B -> Prop) : writes m (fun _ => True) -> writes (m ≫= fun _ => fail e) R.
Proof. intros Hm. eapply writes_bind; [exact Hm|]. intros a _. apply writes_fail. Qed.

Lemma writes_acquire key : writes (acquireCapacity key) (fun _ => True).
Proof.
  intros s Hs. unfold acquireCapacity.
  assert (Hgen : forall ok (s' : state W), st_queryShapes s' = shapes -> st_trace s' = st_trace s ->
    st_queryShapes (log_action (Acquired key ok) s') = shapes /\
    exists t, st_trace (log_action (Acquired key ok) s') = (st_trace s ++ t)%list /\ forall d e ok', Audited d e ok' ∈ t -> Q e).
  { intros ok s' Hs' Ht'. split; [done|]. exists [Acquired key ok]. cbn. rewrite Ht'. split; [done|]. by intros ? ? ? ?%list_elem_of_singleton. }
  destruct (send (st_global s)) as [g|]; [destruct (st_bindings s !! key) as [g'|]; [destruct (send g') as [g''|]|]|].
  all: lazymatch goal with |- context [log_action (Acquired _ ?ok) ?s'] => destruct (Hgen ok s') as [? ?]; [done|done|by split] end.
Qed.

Lemma writes_holding {A} key (m : P W A) R : writes m R -> writes (holding key m) R.
Proof.
  intros Hm s Hs. unfold holding. destruct (Hm s Hs) as (Hsh & (t & Ht & HQ) & HR). destruct (m s) as [r s']. cbn in *. split_and!; [done| |done].
  exists (t ++ [Released key])%list. split; [by rewrite Ht, app_assoc|].
  intros d e ok [He|He]%elem_of_app; [by eapply HQ|by apply list_elem_of_singleton in He].
Qed.
End Writes.

Lemma slen_hex s : slen (hex_text s) = 2 * slen s.
Proof. induction s as [|c s IH]; [done|]. cbn [hex_text]. rewrite !slen_cons. lia. Qed.

Lemma hex_plain s : sforall json_plain (hex_text s) = true.
Proof.
  assert (Hall : all_bytes (fun c => json_plain (hex_digit (byte c / 16)) && json_plain (hex_digit (byte c mod 16))) = true) by (vm_compute; reflexivity).
  induction s as [|c s IH]; [done|]. cbn [hex_text sforall]. pose proof (all_bytes_spec _ Hall c) as Hc. cbv beta in Hc.
  apply andb_true_iff in Hc as [-> ->]. exact IH.
Qed.

Lemma jlen_hex s : slen s = 32 -> jlen (hex_text s) = 66.
Proof. intros Hs. cbn [marshal]. rewrite marshal_plain, slen_hex, Hs by apply hex_plain. done. Qed.

Section Listing.
Context {W DB : Type} `{HW : Host W} (sha256 : string -> string) (address : positive) (databases : @Manager W DB) (cfg : Config) (serviceVersion : string).
Context (Hsha : forall text, slen (sha256 text) = 32).
Context (Hclock : forall w w' : W, Z.abs (clock w - clock w') <= 2 ^ 63).
Context (Hsmall : map_Forall (fun username user => small {| ai_principal := bu_principal user; ai_clientIdentifier := username |}) (ba_users (cfg_basic cfg))).
Context (Hlimit : MaxResultBytes (cfg_hardLimits cfg) < 2 ^ 63).

Definition made_service : Service W DB := New (NewSnapshot address cfg) databases cfg serviceVersion.

Context (requestID timestamp : string) (Hrequest : jlen requestID <= 66) (Htime : jlen timestamp <= 32).

Definition line_fits (e : Event) : Prop :=
  slen (marshal (event_json (with_timestamp timestamp e))) + 1 <= maxQueryShapeAuditEventBytes.

Context (x : queryShapeAuditIdentity) (Hx : x ∈ user_identities cfg) (Hid : identified x = true).
Context (Hpreflight : validateQueryShapePreTokenAuditBounds made_service (needed_bindings made_service) maxQueryShapeAuditEventBytes = nil_error).

Lemma writes_denial shapes profile datasource : slen profile <= max_int -> slen datasource <= max_int ->
  writes shapes line_fits (writeQueryShapeDenial sha256 made_service (as_caller requestID x) profile datasource) (fun _ => True).
Proof.
  intros Hp Hd. apply writes_audited. destruct (worst_identity_covers cfg Hsmall x Hx) as [_ Hcov].
  apply rbind_ok in Hpreflight as ([] & Hden & _). change (sv_queryShapeAuditIdentity made_service) with (worst_identity cfg) in Hden.
  rewrite (proj1 (Hcov Hid)) in Hden. cbv beta iota in Hden. unfold line_fits. pose proof (slen_nonneg profile). pose proof (slen_nonneg datasource).
  apply (denial_fits made_service requestID timestamp Hrequest Htime x (worst_identity cfg) Hid Hcov); [| |lia|lia|exact Hden].
  all: unfold auditIdentifierHash; by rewrite jlen_hex.
Qed.

Lemma writes_duration shapes started : (exists w : W, started = clock w) ->
  writes shapes line_fits (durationMilliseconds started) (fun z => Z.abs z < 10 ^ 18).
Proof.
  intros [w ->]. apply writes_read. intros s _. pose proof (Hclock (st_world s) w).
  set (d := clock (st_world s) - clock w) in *. pose proof (Z.quot_abs d 1000000). rewrite <- Z.quot_abs by done.
  rewrite Z.quot_div_nonneg by lia. apply Z.div_lt_upper_bound; lia.
Qed.

Lemma writes_completion shapes profile datasource adapter outcome errorKind started data :
  (exists w : W, started = clock w) ->
  (forall z, Z.abs z < 10 ^ 18 -> line_fits (queryShapeCompletionEvent made_service (as_caller requestID x) profile datasource adapter outcome errorKind (Some z) data)) ->
  writes shapes line_fits (writeQueryShapeCompletion made_service (as_caller requestID x) profile datasource adapter outcome errorKind started data) (fun _ => True).
Proof.
  intros Hs Hz. unfold writeQueryShapeCompletion. eapply writes_bind; [by apply writes_duration|]. intros z Hlt. by apply writes_audited, Hz.
Qed.

(** A binding that the principal is assigned. *)
Lemma binding_identity profile datasource b :
  AuthorizeBinding (sv_policy made_service) (ai_principal x) profile datasource OperationListQueryShapes = Ok b ->
  let key := {| k_profile := profile; k_datasource := datasource |} in
  ab_key b = key /\ is_Some (sv_discoveryNeeded made_service !! key) /\
  exists big, sv_bindingAuditIdentities made_service !! key = Some big /\ outweighs big x.
Proof.
  intros (config & (principalConfig & Hp & Hpr & Hds & Hc & Hd & Ho) & ->)%AuthorizeBinding_iff key. cbn [ab_key minted].
  cbn [sv_policy made_service New sn_principals sn_profiles NewSnapshot] in *. split_and!; [done|by eapply needed_key|].
  destruct (binding_covered cfg Hsmall x principalConfig key Hx Hid Hp) as (big & Hb & _ & Ho'); [by eapply assigned_key|]. by exists big.
Qed.

Lemma pre_token_line profile datasource b outcome errorKind :
  AuthorizeBinding (sv_policy made_service) (ai_principal x) profile datasource OperationListQueryShapes = Ok b ->
  (outcome, errorKind) ∈ pre_token_outcomes -> forall z, Z.abs z < 10 ^ 18 ->
  line_fits (queryShapeCompletionEvent made_service (as_caller requestID x) profile (k_datasource (ab_key b)) (adapter_of made_service b)
    outcome errorKind (Some z) None).
Proof.
  intros Hb Ho z Hz. destruct (binding_identity _ _ _ Hb) as (Hk & Hn & big & Hbig & Hcov). unfold adapter_of. rewrite Hk.
  apply rbind_ok in Hpreflight as ([] & _ & Hall). rewrite each_all, Forall_forall in Hall.
  apply needed_bindings_in in Hn. apply Hall in Hn. rewrite Hbig in Hn.
  by eapply (pre_token_fits made_service requestID timestamp Hrequest Htime x big Hid Hcov _ _ outcome errorKind z) in Hn.
Qed.

Lemma listed_discovery s b credential d a : AuthorizeQueryShapeList s b credential (Some d) = Ok a -> ql_discovery a = Some d.
Proof.
  unfold AuthorizeQueryShapeList. intros [_ H]%if_err_ok. destruct (profileForBinding _ _ _) as [profile|]; [|done].
  apply if_err_ok in H as [_ H]. destruct (dc_document d); [|done]. by apply if_err_ok in H as [_ [= <-]].
Qed.

Lemma published_numbers t key d a : published sha256 made_service t key d -> ql_discovery a = Some d ->
  in_int64 (ResultBytes a) /\ in_int64 (ShapeCount a).
Proof.
  intros (_ & (semantics & _ & Hd) & _) Ha. apply discovery_limits in Hd as Hl. destruct Hl as (profile & _ & Hl).
  apply discovery_built in Hd as (js & doc & _ & Hdoc & _ & Hp & Hc & Hpos & _ & _ & _ & _ & _ & Hb & Hle).
  unfold ShapeCount, ResultBytes, ql_document. rewrite Ha. cbn [from_option mbind option_bind]. rewrite Hdoc. cbn [from_option].
  rewrite Hc. pose proof (array_items js) as Hitems. rewrite <- Hp in Hitems. pose proof (slen_nonneg (dc_envelopePrefix d)).
  rewrite Hl in Hle. cbn [MaxResultBytes Limits_Min sv_policy made_service New sn_hardLimits NewSnapshot] in Hle. unfold in_int64. lia.
Qed.

Lemma post_token_lines t profile datasource b credential d a :
  AuthorizeBinding (sv_policy made_service) (ai_principal x) profile datasource OperationListQueryShapes = Ok b ->
  published sha256 made_service t {| k_profile := profile; k_datasource := datasource |} d ->
  AuthorizeQueryShapeList (sv_policy made_service) b credential (Some d) = Ok a ->
  line_fits (queryShapeAllowEvent made_service (as_caller requestID x) profile a (audit_data a)) /\
  forall outcome errorKind z, (outcome, errorKind) ∈ [("error", "capacity"); ("error", "internal"); ("success", EmptyString)] -> Z.abs z < 10 ^ 18 ->
  line_fits (queryShapeCompletionEvent made_service (as_caller requestID x) profile (ql_datasource a) (ql_adapter a) outcome errorKind
    (Some z) (Some (audit_data a))).
Proof.
  intros Hb Hpub Ha. apply listed_discovery in Ha. destruct (binding_identity _ _ _ Hb) as (_ & _ & big & Hbig & Hcov).
  destruct (published_numbers _ _ _ a Hpub Ha) as [Hr Hs]. destruct Hpub as (_ & _ & Hv). unfold validateQueryShapeAuditBound in Hv. rewrite Hbig in Hv.
  apply if_err_ok in Hv as [_ Hv]. apply rbind_ok in Hv as (b' & _ & Hv). apply rbind_ok in Hv as (a' & Ha' & Hv). apply listed_discovery in Ha'.
  cbv zeta in Hv. rewrite each_all, !Forall_cons in Hv. destruct Hv as (Hallow & Hcompletion & _). cbn [k_profile] in *.
  split; [|intros outcome errorKind z Ho Hz]; unfold line_fits.
  - apply (allow_fits made_service requestID timestamp Hrequest Htime x big Hid Hcov _ profile a a'); [by rewrite Ha'|done|done|exact Hallow].
  - apply (post_token_fits made_service requestID timestamp Hrequest Htime x big Hid Hcov _ profile a a'); [by rewrite Ha'|done..|exact Hcompletion].
Qed.

Ltac listed_outcome := apply (bool_decide_unpack _); vm_compute; exact I.

Lemma writes_listing t shapes profile datasource : slen profile <= max_int -> slen datasource <= max_int ->
  map_Forall (published sha256 made_service t) shapes ->
  writes shapes line_fits (ListQueryShapes sha256 made_service requestID (ai_principal x) (ai_clientIdentifier x) profile datasource) (fun _ => True).
Proof.
  intros Hp Hd Hshapes. unfold ListQueryShapes. cbv zeta. change (lister _ _ _) with (as_caller requestID x).
  set (key := {| k_profile := profile; k_datasource := datasource |}).
  eapply writes_bind; [apply writes_now|]. intros started Hstarted.
  eapply writes_bind; [apply writes_require, writes_fail|]. intros _ _.
  assert (Hdenied : forall B e (R : B -> Prop), writes shapes line_fits
    (writeQueryShapeDenial sha256 made_service (as_caller requestID x) profile datasource ≫= fun _ => fail e) R).
  { intros B e R. apply writes_then_fail, writes_denial; assumption. }
  eapply writes_bind; [apply writes_on_error with (R := fun b => AuthorizeBinding (sv_policy made_service) (ai_principal x) profile datasource OperationListQueryShapes = Ok b); [done|]|].
  { intros e. apply Hdenied. }
  intros b Hb.
  assert (Hpre : forall B e (R : B -> Prop) outcome errorKind, (outcome, errorKind) ∈ pre_token_outcomes -> writes shapes line_fits
    (writeQueryShapeCompletion made_service (as_caller requestID x) profile (k_datasource (ab_key b)) (adapter_of made_service b) outcome errorKind started None ≫= fun _ => fail e) R).
  { intros B e R outcome errorKind Ho. apply writes_then_fail, writes_completion; [exact Hstarted|]. exact (pre_token_line profile datasource b outcome errorKind Hb Ho). }
  eapply writes_bind; [apply writes_require, Hdenied|]. intros _ _.
  eapply writes_bind; [apply writes_require, Hpre; listed_outcome|]. intros _ _.
  eapply writes_bind; [apply writes_read with (R := fun found => found = shapes !! key); by intros s ->|]. intros found ->.
  destruct (shapes !! key) as [d|] eqn:Hfound; [|apply Hpre; listed_outcome].
  eapply writes_bind; [apply writes_on_error with (R := fun a => AuthorizeQueryShapeList (sv_policy made_service) b (ai_clientIdentifier x) (Some d) = Ok a); [done|]|].
  { intros e. apply Hpre. listed_outcome. }
  intros a Ha. destruct (post_token_lines t profile datasource b _ d a Hb (Hshapes key d Hfound) Ha) as [Hallow Hpost].
  assert (Hcomplete : forall outcome errorKind, (outcome, errorKind) ∈ [("error", "capacity"); ("error", "internal"); ("success", EmptyString)] ->
    writes shapes line_fits (writeQueryShapeCompletion made_service (as_caller requestID x) profile (ql_datasource a) (ql_adapter a) outcome errorKind started (Some (audit_data a))) (fun _ => True)).
  { intros outcome errorKind Ho. apply writes_completion; [exact Hstarted|]. intros z. exact (Hpost outcome errorKind z Ho). }
  eapply writes_bind; [apply writes_audited; exact Hallow|]. intros _ _.
  eapply writes_bind; [apply writes_acquire|]. intros ok _.
  eapply writes_bind; [apply writes_require, writes_then_fail, Hcomplete; listed_outcome|]. intros _ _.
  apply writes_holding. eapply writes_bind; [apply writes_on_error with (R := fun _ => True); [done|]|].
  { intros e. apply writes_then_fail, Hcomplete. listed_outcome. }
  intros payload _.
  eapply writes_bind; [apply writes_require, writes_then_fail, Hcomplete; listed_outcome|]. intros _ _.
  eapply writes_bind; [apply Hcomplete; listed_outcome|]. intros _ _. by apply writes_ret.
Qed.
End Listing.

(** ** What a listing answers *)

Lemma bind_succeeds {W A B} (m : P W A) (k : A -> P W B) s b s' : (m ≫= k) s = (inr b, s') ->
  exists a s1, m s = (inr a, s1) /\ k a s1 = (inr b, s').
Proof. unfold mbind, P_bind. destruct (m s) as [[e|a] s1]; [done|]. intros Hk. by exists a, s1. Qed.

(** [m] never succeeds. *)
Definition fails {W A} (m : P W A) : Prop := forall s a s', m s <> (inr a, s').

Lemma fails_then {W A B} (m : P W A) e : fails (m ≫= fun _ => @fail W B e).
Proof. intros s b s' (a & s1 & _ & [=])%bind_succeeds. Qed.

Lemma on_error_succeeds {W A} (r : result A) (h : goerr -> P W A) s a s' : (forall e, fails (h e)) ->
  on_error r h s = (inr a, s') -> r = Ok a /\ s' = s.
Proof. intros Hh. destruct r as [a'|e]; [by intros [= -> ->]|]. by intros ?%Hh. Qed.

Lemma require_succeeds {W} (b : bool) (h : P W unit) s s' : fails h -> require b h s = (inr tt, s') -> b = true /\ s' = s.
Proof. intros Hh. destruct b; [by intros [= ->]|]. by intros ?%Hh. Qed.

Lemma audited_succeeds {W} `{HW : Host W} detached e s s' : audited detached e s = (inr tt, s') ->
  st_trace s' = (st_trace s ++ [Audited detached e true])%list /\ st_queryShapes s' = st_queryShapes s.
Proof.
  intros (ok & s1 & Hw & Hk)%bind_succeeds. unfold writeAudit in Hw. destruct (sink_write _ _ _) as [ok' w]. injection Hw as <- <-.
  destruct ok'; [|done]. by injection Hk as <-.
Qed.

Lemma completion_succeeds {W DB} `{HW : Host W} (sv : Service W DB) who profile datasource adapter outcome errorKind started data s s' :
  writeQueryShapeCompletion sv who profile datasource adapter outcome errorKind started data s = (inr tt, s') ->
  exists duration, st_trace s' =
    (st_trace s ++ [Audited true (queryShapeCompletionEvent sv who profile datasource adapter outcome errorKind (Some duration) data) true])%list.
Proof. intros (duration & s1 & [= <- <-] & Ha)%bind_succeeds. apply audited_succeeds in Ha as [Ha _]. eexists. exact Ha. Qed.

Lemma acquire_trace {W} key (s s' : state W) ok : acquireCapacity key s = (inr ok, s') -> st_trace s' = (st_trace s ++ [Acquired key ok])%list.
Proof.
  unfold acquireCapacity.
  destruct (send (st_global s)) as [g|]; [destruct (st_bindings s !! key) as [g'|]; [destruct (send g') as [g''|]|]|]; by intros [= <- <-].
Qed.

Lemma holding_succeeds {W A} key (m : P W A) s a s' : holding key m s = (inr a, s') -> exists s1, m s = (inr a, s1) /\ s' = releaseCapacity key s1.
Proof. unfold holding. destruct (m s) as [r s1]. intros [= -> <-]. by exists s1. Qed.

Lemma listing_succeeds {W DB} `{HW : Host W} sha256 (sv : Service W DB) requestID principal clientIdentifier profile datasource s payload s' :
  ListQueryShapes sha256 sv requestID principal clientIdentifier profile datasource s = (inr payload, s') ->
  let key := {| k_profile := profile; k_datasource := datasource |} in
  let who := lister requestID principal clientIdentifier in
  exists b d a duration,
    AuthorizeBinding (sv_policy sv) principal profile datasource OperationListQueryShapes = Ok b /\
    st_queryShapes s !! key = Some d /\ AuthorizeQueryShapeList (sv_policy sv) b clientIdentifier (Some d) = Ok a /\
    ResponsePayload a = Ok payload /\ slen payload = ResultBytes a /\
    st_trace s' = (st_trace s ++
      [Audited false (queryShapeAllowEvent sv who profile a (audit_data a)) true; Acquired (ab_key b) true;
       Audited true (queryShapeCompletionEvent sv who profile (ql_datasource a) (ql_adapter a) "success" EmptyString (Some duration) (Some (audit_data a))) true;
       Released (ab_key b)])%list.
Proof.
  unfold ListQueryShapes. cbv zeta. intros H. set (key := {| k_profile := profile; k_datasource := datasource |}) in *.
  apply bind_succeeds in H as (started & s1 & [= <- <-] & H). apply bind_succeeds in H as ([] & s2 & Hr & H).
  apply require_succeeds in Hr as [_ ->]; [|by intros ???].
  apply bind_succeeds in H as (b & s3 & Hb & H). apply on_error_succeeds in Hb as [Hb ->]; [|intros e; apply fails_then].
  apply bind_succeeds in H as ([] & s4 & Hr & H). apply require_succeeds in Hr as [_ ->]; [|apply fails_then].
  apply bind_succeeds in H as ([] & s5 & Hr & H). apply require_succeeds in Hr as [_ ->]; [|apply fails_then].
  apply bind_succeeds in H as (found & s6 & [= <- <-] & H). destruct (st_queryShapes s !! key) as [d|] eqn:Hd; [|by apply fails_then in H].
  apply bind_succeeds in H as (a & s7 & Ha & H). apply on_error_succeeds in Ha as [Ha ->]; [|intros e; apply fails_then].
  apply bind_succeeds in H as ([] & s8 & Hallow & H). apply audited_succeeds in Hallow as [Hallow _].
  apply bind_succeeds in H as (ok & s9 & Hok & H). apply acquire_trace in Hok.
  apply bind_succeeds in H as ([] & s10 & Hr & H). apply require_succeeds in Hr as [-> ->]; [|apply fails_then].
  apply holding_succeeds in H as (s11 & Hrest & ->).
  apply bind_succeeds in Hrest as (payload' & s12 & Hp & H). apply on_error_succeeds in Hp as [Hp ->]; [|intros e; apply fails_then].
  apply bind_succeeds in H as ([] & s13 & Hr & H). apply require_succeeds in Hr as [Hlen%Z.eqb_eq ->]; [|apply fails_then].
  apply bind_succeeds in H as ([] & s14 & Hc & [= <- <-]). apply completion_succeeds in Hc as [duration Hc].
  exists b, d, a, duration. split_and!; [done..|]. cbn. by rewrite Hc, Hok, Hallow, <- !app_assoc.
Qed.

(** *** The promises *)

(** Discovery is published as it was validated. When the initialization succeeds,
    every published snapshot is the one the policy builds for its binding under the
    identifier semantics that the binding's datasource answered, and its audit events were
    found within the bound; only bindings whose profile may list its shapes have one; and
    when no problem was reported, every binding that supports its configured shapes has one. *)
Theorem discovery_published {W DB : Type} sha256 (sv : Service W DB) s problems s' :
  InitializeQueryShapeDiscovery sha256 sv false s = (inr (Ok problems), s') ->
  (exists t, st_trace s' = (st_trace s ++ t)%list /\ map_Forall (published sha256 sv t) (st_queryShapes s')) /\
  (forall key, is_Some (st_queryShapes s' !! key) -> is_Some (sv_discoveryNeeded sv !! key)) /\
  (problems = [] -> forall key, is_Some (sv_discoveryNeeded sv !! key) -> supportsConfiguredQueryShapes sv key = true ->
    is_Some (st_queryShapes s' !! key)).
Proof. intros Hrun. by apply (initialized_ok sha256 sv s) in Hrun as (_ & ?). Qed.

(** C5: No listing of query shapes writes an audit line that is longer than the bound. When
    the service made from a configuration was initialized, then whatever a configured user
    asks to list, under whatever snapshots are still published, every event that the listing
    writes is, as a line of JSON with any timestamp, at most as long as the bound that was
    checked before the start, although the user, the identifiers and the duration are not
    those of the check. *)
Theorem listing_audit_bounded {W DB : Type} `{HW : Host W} sha256 address (databases : @Manager W DB) cfg serviceVersion problems s0 s1 s
    requestID timestamp username user profile datasource :
  (forall text, slen (sha256 text) = 32) ->
  (forall w w' : W, Z.abs (clock w - clock w') <= 2 ^ 63) ->
  map_Forall (fun username user => slen (marshal (JStr (bu_principal user))) + slen (marshal (JStr username)) <= max_int) (ba_users (cfg_basic cfg)) ->
  MaxResultBytes (cfg_hardLimits cfg) < 2 ^ 63 ->
  let sv := New (NewSnapshot address cfg) databases cfg serviceVersion in
  InitializeQueryShapeDiscovery sha256 sv false s0 = (inr (Ok problems), s1) ->
  st_queryShapes s ⊆ st_queryShapes s1 ->
  ba_users (cfg_basic cfg) !! username = Some user -> bu_principal user <> EmptyString -> username <> EmptyString ->
  slen (marshal (JStr requestID)) <= 66 -> slen (marshal (JStr timestamp)) <= 32 -> slen profile <= max_int -> slen datasource <= max_int ->
  exists t, st_trace (ListQueryShapes sha256 sv requestID (bu_principal user) username profile datasource s).2 = (st_trace s ++ t)%list /\
    forall detached e ok, Audited detached e ok ∈ t ->
      slen (marshal (event_json (with_timestamp timestamp e))) + 1 <= maxQueryShapeAuditEventBytes.
Proof.
  intros Hsha Hclock Hsmall Hlimit sv Hinit Hsub Huser Hprincipal Hname Hrequest Htime Hp Hd.
  apply initialized_ok in Hinit as ([docs Hpre] & (t & _ & Hpub) & _). apply rbind_ok in Hpre as ([] & Hpre & _).
  assert (Hshapes : map_Forall (published sha256 sv t) (st_queryShapes s)) by (intros k d Hk; apply Hpub; by eapply lookup_weaken).
  set (x := {| ai_principal := bu_principal user; ai_clientIdentifier := username |}).
  assert (Hx : x ∈ user_identities cfg) by (apply user_identities_in; by exists username, user).
  assert (Hid : identified x = true) by (unfold identified; cbn; by destruct (bu_principal user), username).
  destruct (writes_listing sha256 address databases cfg serviceVersion Hsha Hclock Hsmall Hlimit requestID timestamp Hrequest Htime x Hx Hid Hpre
    t (st_queryShapes s) profile datasource Hp Hd Hshapes s eq_refl) as (_ & Ht & _).
  exact Ht.
Qed.

(** C4: A listing answers what was published, under the audit. When the service was
    initialized and a listing succeeds, the principal holds the binding, the start probed the
    binding's datasource, and the payload is the JSON of the envelope of the document that the
    policy builds for the profile under the very semantics that the datasource answered then,
    within the effective result limit. What happened is: the allow decision was recorded, both
    capacity tokens were taken, the success was recorded, and the tokens were given back; both
    records state the request, and the hash, the number, the bytes, the resources and the
    fields of that document. *)
Theorem listing_serves_publication {W DB : Type} `{HW : Host W} sha256 (sv : Service W DB) s0 problems s1 s
    requestID principal clientIdentifier profile datasource payload s' :
  InitializeQueryShapeDiscovery sha256 sv false s0 = (inr (Ok problems), s1) -> st_queryShapes s ⊆ st_queryShapes s1 ->
  ListQueryShapes sha256 sv requestID principal clientIdentifier profile datasource s = (inr payload, s') ->
  let key := {| k_profile := profile; k_datasource := datasource |} in
  exists b probes semantics document documents allow success,
    AuthorizeBinding (sv_policy sv) principal profile datasource OperationListQueryShapes = Ok b /\
    st_trace s1 = (st_trace s0 ++ probes)%list /\ (forall r, Probed datasource r ∈ probes <-> r = Ok semantics) /\
    BuildQueryShapeDocument sha256 (sv_policy sv) profile semantics = Ok document /\
    qd_shapesPayload document = marshal (JArr documents) /\
    payload = marshal (envelope_json profile (sn_version (sv_policy sv)) datasource (adapter_name sv key) (JArr documents)) /\
    slen payload <= MaxResultBytes (ab_limits b) /\
    st_trace s' = (st_trace s ++ [Audited false allow true; Acquired key true; Audited true success true; Released key])%list /\
    ev_decision allow = "allow" /\ ev_outcome success = "success" /\
    Forall (fun e => ev_request_id e = requestID /\ ev_principal e = principal /\ ev_client_identifier e = clientIdentifier /\
      ev_policy_profile e = profile /\ ev_datasource e = datasource /\ ev_operation e = OperationListQueryShapes /\
      ev_result_bytes e = slen payload /\ ev_shape_count e = len documents /\
      ev_public_shape_set_hash e = qd_shapeSetHash document /\ ev_fields e = qd_fields document /\
      ev_resources e = map (fun r => {| re_schema := qr_schema r; re_object := qr_object r |}) (qd_resources document)) [allow; success].
Proof.
  intros Hinit Hsub Hrun key. apply initialized_ok in Hinit as (_ & (probes & Htrace & Hpub) & _).
  apply listing_succeeds in Hrun as (b & d & a & duration & Hb & Hd & Ha & Hp & Hlen & Ht). fold key in Hd.
  destruct (Hpub key d) as (_ & (semantics & Hans & Hbuild) & _); [by eapply lookup_weaken|]. cbn [k_profile k_datasource key] in Hans, Hbuild.
  destruct (listing_is_published _ _ _ _ _ _ _ _ _ _ Hbuild Ha) as (_ & _ & document & documents & Hdocument & Hqd & Htext & Hpay & _ & Hmax & Hcount).
  apply AuthorizeBinding_iff in Hb as Hmint. destruct Hmint as (config & (pc & _ & _ & _ & Hconfig & _) & ->).
  apply discovery_limits in Hbuild as Hl. destruct Hl as (config' & Hconfig' & Hl).
  assert (config' = config) as -> by congruence. apply listed_discovery in Ha as Hda.
  apply discovery_built in Hbuild as (_ & _ & _ & _ & _ & _ & _ & _ & Hds & _).
  unfold ql_limits in Hmax. rewrite Hda in Hmax. cbn [from_option] in Hmax. rewrite Hl, <- Hlen in Hmax.
  eexists _, probes, semantics, document, documents, _, _.
  split_and!; [exact Hb|exact Htrace|exact Hans|exact Hdocument|exact Htext|congruence|exact Hmax|exact Ht|done|done|].
  assert (Hqs : ql_datasource a = datasource) by (unfold ql_datasource; by rewrite Hda).
  unfold audit_data, queryShapeAuditScope, ShapeSetHash, ql_resources, ql_fields in *. rewrite Hqd in *. repeat constructor; cbn; done.
Qed.

(** *** An example *)

Definition shaping_adapter : @Adapter Z string := {|
  ad_Name := AdapterMySQL8; ad_Capabilities := [OperationExplainSelect; OperationAggregate; OperationSelectKeyset];
  ad_Validate := fun _ w => (Ok tt, w + 1); ad_IdentifierSemantics := fun _ w => (Ok insensitive, w + 1);
  ad_Open := fun dsn _ => Ok dsn; ad_Explain := fun _ _ w => (Err upstream_error, w);
  ad_features := Some ["time_bucket_utc"; "numeric_bucket_exact"]; ad_schema := None; ad_select := None;
  ad_keyset := Some (fun _ _ _ w => (Err upstream_error, w)); ad_aggregate := Some (fun _ _ _ w => (Err upstream_error, w)); ad_statistics := None |}.

Definition shaping_profile : Profile := {|
  pf_datasources := ["main"]; pf_operations := pf_operations published_profile;
  pf_resources := {| Schemas := {| Allow := ["shop"; "Shop"]; Deny := [] |}; Objects := zero_patterns; Fields := zero_patterns |};
  pf_query := pf_query published_profile; pf_limits := some_limits |}.

Definition shaping_config : Config := {|
  cfg_version := 1; cfg_listen := EmptyString; cfg_hardLimits := some_limits; cfg_basic := cfg_basic (small_config AdapterMySQL8);
  cfg_principals := cfg_principals (small_config AdapterMySQL8); cfg_datasources := cfg_datasources (small_config AdapterMySQL8);
  cfg_profiles := {[ "reader" := shaping_profile ]}; cfg_policyHash := "h1" |}.

Definition shaping_manager : @Manager Z string := (NewManager shaping_config resolved [shaping_adapter]).1.

(** A clock that stands still within a second, and a digest of the right length. *)
Definition day_host : Host Z := {| sink_write := fun _ _ w => (true, w); sink_ready := fun _ => true; clock := fun w => w mod 1000000000 |}.
Definition example_digest (text : string) : string := String (ascii_of_N (Z.to_N (slen text mod 256))) (repeated 31 "h").

Definition shaping_service : Service Z string := New (NewSnapshot 1 shaping_config) shaping_manager shaping_config "1.0".
Definition shaping_start : (service_error + result (list goerr)) * state Z :=
  InitializeQueryShapeDiscovery example_digest shaping_service false (new_state shaping_config 0).
Example shaping_started : shaping_start.1 = inr (Ok []) /\ size (st_queryShapes shaping_start.2) = 1%nat.
Proof. split; vm_compute; reflexivity. Qed.

Lemma discovery_published_witness :
  (exists t, st_trace shaping_start.2 = (st_trace (new_state shaping_config 0) ++ t)%list /\
    map_Forall (published example_digest shaping_service t) (st_queryShapes shaping_start.2)) /\
  (forall key, is_Some (st_queryShapes shaping_start.2 !! key) -> is_Some (sv_discoveryNeeded shaping_service !! key)) /\
  (([] : list goerr) = [] -> forall key, is_Some (sv_discoveryNeeded shaping_service !! key) -> supportsConfiguredQueryShapes shaping_service key = true ->
    is_Some (st_queryShapes shaping_start.2 !! key)).
Proof. apply (discovery_published example_digest shaping_service (new_state shaping_config 0) [] shaping_start.2). vm_compute. reflexivity. Defined.

Definition shaping_listing : (service_error + string) * state Z :=
  ListQueryShapes (H := day_host) example_digest shaping_service "req-1" "alice" "laptop" "reader" "main" shaping_start.2.

Example shaping_listed : match shaping_listing.1 with inr payload => 500 <? slen payload | inl _ => false end = true /\ len (st_trace shaping_listing.2) = 5.
Proof. split; vm_compute; reflexivity. Qed.

Lemma listing_audit_bounded_witness :
  exists t, st_trace shaping_listing.2 = (st_trace shaping_start.2 ++ t)%list /\
    forall detached e ok, Audited detached e ok ∈ t ->
      slen (marshal (event_json (with_timestamp "2026-01-02T03:04:05.678901234Z" e))) + 1 <= maxQueryShapeAuditEventBytes.
Proof.
  apply (listing_audit_bounded (HW := day_host) example_digest 1 shaping_manager shaping_config "1.0" [] (new_state shaping_config 0) shaping_start.2
    shaping_start.2 "req-1" "2026-01-02T03:04:05.678901234Z" "laptop" {| bu_principal := "alice"; bu_passwordHash := "x"; bu_passwordHashSecretRef := EmptyString |}
    "reader" "main").
  - intros text. unfold example_digest. rewrite slen_cons. reflexivity.
  - intros w w'. cbn [clock day_host]. pose proof (Z.mod_pos_bound w 1000000000). pose proof (Z.mod_pos_bound w' 1000000000). lia.
  - apply map_Forall_singleton. vm_compute. discriminate.
  - vm_compute. reflexivity.
  - vm_compute. reflexivity.
  - done.
  - vm_compute. reflexivity.
  - discriminate.
  - discriminate.
  - vm_compute. discriminate.
  - vm_compute. discriminate.
  - vm_compute. discriminate.
  - vm_compute. discriminate.
Defined.

Definition shaping_payload : string :=
  value_of EmptyString (match shaping_listing.1 with inr payload => Ok payload | inl _ => Err not_published end).

Lemma listing_serves_publication_witness :
  let key := {| k_profile := "reader"; k_datasource := "main" |} in
  exists b probes semantics document documents allow success,
    AuthorizeBinding (sv_policy shaping_service) "alice" "reader" "main" OperationListQueryShapes = Ok b /\
    st_trace shaping_start.2 = (st_trace (new_state shaping_config 0) ++ probes)%list /\
    (forall r, Probed "main" r ∈ probes <-> r = Ok semantics) /\
    BuildQueryShapeDocument example_digest (sv_policy shaping_service) "reader" semantics = Ok document /\
    qd_shapesPayload document = marshal (JArr documents) /\
    shaping_payload = marshal (envelope_json "reader" "1" "main" (adapter_name shaping_service key) (JArr documents)) /\
    slen shaping_payload <= MaxResultBytes (ab_limits b) /\
    st_trace shaping_listing.2 = (st_trace shaping_start.2 ++
      [Audited false allow true; Acquired key true; Audited true success true; Released key])%list /\
    ev_decision allow = "allow" /\ ev_outcome success = "success" /\
    Forall (fun e => ev_request_id e = "req-1" /\ ev_principal e = "alice" /\ ev_client_identifier e = "laptop" /\
      ev_policy_profile e = "reader" /\ ev_datasource e = "main" /\ ev_operation e = OperationListQueryShapes /\
      ev_result_bytes e = slen shaping_payload /\ ev_shape_count e = len documents /\
      ev_public_shape_set_hash e = qd_shapeSetHash document /\ ev_fields e = qd_fields document /\
      ev_resources e = map (fun r => {| re_schema := qr_schema r; re_object := qr_object r |}) (qd_resources document)) [allow; success].
Proof.
  apply (listing_serves_publication (HW := day_host) example_digest shaping_service (new_state shaping_config 0) [] shaping_start.2 shaping_start.2
    "req-1" "alice" "laptop" "reader" "main").
  - vm_compute. reflexivity.
  - done.
  - vm_compute. reflexivity.
Defined.
