(* ===== verification/ServiceCourse.v ===== *)
(** What the operations of the query service may do, in which order: the courses that
    one operation can take, and the proof that every operation keeps to them. The
    database is called only under an allow decision that the audit log accepted, with a
    token of both capacity gates, and its answer is given only after its completion was
    recorded; the tokens are returned on every path. *)
From S2P Require Import Prelude Domain GoJson Number Portable Values QuerySpec Config Policy Sql Rows Aggregate AggregateNormal NumericBucket SqlAggregate PolicyAggregate Keyset KeysetBinds PolicyKeyset SqlKeyset KeysetRows PublicShapes Discovery AuditEvents ShapeHash Driver Session KeysetSession Manager ServiceCore Service ServiceKeyset ServiceStatistics.
Local Open Scope string_scope.
Local Open Scope Z_scope.

(** ** What a grant covers *)

Definition grant_operation (g : grant) : string :=
  match g with
  | GrantExplain q | GrantSelect q => aq_operation q
  | GrantAggregate q _ => aa_operation q
  | GrantKeyset q _ => ak_operation q
  | GrantObjects a | GrantObject a => sc_operation a
  | GrantStatistics a _ => os_operation a
  end.
Definition grant_principal (g : grant) : string :=
  match g with
  | GrantExplain q | GrantSelect q => aq_principal q
  | GrantAggregate q _ => aa_principal q
  | GrantKeyset q _ => ak_principal q
  | GrantObjects a | GrantObject a => sc_principal a
  | GrantStatistics a _ => os_principal a
  end.
Definition grant_key (g : grant) : BindingKey :=
  match g with
  | GrantExplain q | GrantSelect q => {| k_profile := aq_profile q; k_datasource := aq_datasource q |}
  | GrantAggregate q _ => {| k_profile := aa_profile q; k_datasource := aa_datasource q |}
  | GrantKeyset q _ => {| k_profile := ak_profile q; k_datasource := ak_datasource q |}
  | GrantObjects a | GrantObject a => {| k_profile := sc_profile a; k_datasource := sc_datasource a |}
  | GrantStatistics a _ => {| k_profile := os_profile a; k_datasource := os_datasource a |}
  end.
Definition grant_resources (g : grant) : list Resource :=
  match g with
  | GrantExplain q | GrantSelect q => resource_of (n_source (v_spec (aq_query q)))
  | GrantAggregate q _ => resource_of (a_source (va_spec (aa_query q)))
  | GrantKeyset q _ => resource_of (k_source (nk_query (vk_request (ak_query q))))
  | GrantObjects a | GrantObject a => [{| re_schema := sc_schema a; re_object := sc_object a |}]
  | GrantStatistics a _ => [{| re_schema := os_schema a; re_object := os_object a |}]
  end.
Definition grant_fields (g : grant) : list string :=
  match g with
  | GrantExplain q | GrantSelect q => referencedFields (v_spec (aq_query q))
  | GrantAggregate q _ => AggregateReferencedFields (va_spec (aa_query q))
  | GrantKeyset q _ => KeysetReferencedFields (vk_request (ak_query q))
  | GrantObjects _ | GrantObject _ | GrantStatistics _ _ => []
  end.

Definition is_probe (a : action) : Prop := match a with Probed _ _ => True | _ => False end.

Section Course.
Context {W DB : Type} `{Host W} (sha256 : string -> string) (sv : Service W DB) (who : caller).

(** The event is about this request, and about what the grant gives access to. *)
Definition concerns (e : Event) (g : grant) : Prop :=
  ev_request_id e = cl_requestID who /\ ev_query_id e = cl_queryID who /\
  ev_principal e = cl_principal who /\ ev_principal e = grant_principal g /\
  ev_policy_profile e = k_profile (grant_key g) /\ ev_datasource e = k_datasource (grant_key g) /\
  ev_operation e = grant_operation g /\ ev_resources e = grant_resources g /\
  ev_policy_version e = sn_version (sv_policy sv) /\ ev_policy_hash e = sn_hash (sv_policy sv).

Definition allows (e : Event) (g : grant) : Prop :=
  concerns e g /\ ev_decision e = "allow" /\ ev_outcome e = EmptyString /\ ev_fields e = grant_fields g.

(** An event that reports neither an allow decision nor a success. *)
Definition failure (e : Event) : Prop := ev_decision e <> "allow" /\ ev_outcome e <> "success".
Definition completes (e : Event) (g : grant) : Prop := concerns e g /\ ev_decision e = EmptyString /\ ev_outcome e <> EmptyString.

(** What may follow an allow decision when the database is not called. *)
Inductive aftermath (g : grant) (e : service_error) : action -> Prop :=
| aftermath_full : aftermath g e (Acquired (grant_key g) false)
| aftermath_report c (ok : bool) : completes c g -> failure c -> (ok = false -> e = audit_unavailable) -> aftermath g e (Audited true c ok).

Definition concluded {A} (c : Event) (ok : bool) (r : service_error + A) : Prop :=
  match r with
  | inr _ => ok = true /\ ev_outcome c = "success"
  | inl e => if ok then ev_outcome c = "error" else e = audit_unavailable
  end.

(** The courses of one operation; [G p] are the grants that the policy gives for the request after the probes [p]. *)
Inductive course {A} (G : list action -> grant -> Prop) : service_error + A -> list action -> Prop :=
| course_silent p e : Forall is_probe p -> course G (inl e) p
| course_refused p ev (ok : bool) e : Forall is_probe p -> failure ev -> (ok = false -> e = audit_unavailable) ->
    course G (inl e) (p ++ [Audited true ev ok])
| course_unrecorded p g a : Forall is_probe p -> G p g -> allows a g -> course G (inl audit_unavailable) (p ++ [Audited false a false])
| course_turned_away p g a t e : Forall is_probe p -> G p g -> allows a g -> Forall (aftermath g e) t ->
    course G (inl e) (p ++ Audited false a true :: t)
| course_executed p g a c ok r : Forall is_probe p -> G p g -> allows a g -> completes c g -> concluded c ok r ->
    course G r (p ++ [Audited false a true; Acquired (grant_key g) true; Called g; Audited true c ok; Released (grant_key g)]).

(** ** Runs *)

Definition take (g : gate) : gate := {| gt_capacity := gt_capacity g; gt_held := gt_held g + 1 |}.
Definition gates : Type := gate * gmap BindingKey gate.
Definition gate_step (gs : gates) (a : action) : gates :=
  match a with
  | Acquired key true => (take gs.1, alter take key gs.2)
  | Released key => (receive gs.1, alter receive key gs.2)
  | _ => gs
  end.

Definition advanced (s0 s : state W) (t : list action) : Prop :=
  st_trace s = (st_trace s0 ++ t)%list /\ (st_global s, st_bindings s) = fold_left gate_step t (st_global s0, st_bindings s0).

(** From any state that [t] led to, [m] continues to one that [Q] describes. *)
Definition runs {A} (m : P W A) (t : list action) (Q : service_error + A -> list action -> Prop) : Prop :=
  forall s0 s, advanced s0 s t -> exists t', advanced s0 (m s).2 t' /\ Q (m s).1 t'.

(** What a rule asks of the rest of a function. *)
Definition after {A B} (k : A -> P W B) (Q : service_error + B -> list action -> Prop) (r : service_error + A) (t : list action) : Prop :=
  match r with inl e => Q (inl e) t | inr a => runs (k a) t Q end.

Lemma runs_bind {A B} (m : P W A) (k : A -> P W B) t Q : runs m t (after k Q) -> runs (m ≫= k) t Q.
Proof.
  intros Hm s0 s Hs. destruct (Hm _ _ Hs) as (t' & Ht & HQ). unfold mbind, P_bind. destruct (m s) as [[e|a] s']; cbn in *; [by exists t'|].
  by apply HQ.
Qed.

Lemma runs_ret {A} (a : A) t Q : Q (inr a) t -> runs (mret a) t Q.
Proof. intros HQ s0 s Hs. by exists t. Qed.
Lemma runs_fail {A} e t (Q : service_error + A -> list action -> Prop) : Q (inl e) t -> runs (fail e) t Q.
Proof. intros HQ s0 s Hs. by exists t. Qed.

Lemma runs_on_error {A} (r : result A) h t Q :
  (forall a, r = Ok a -> Q (inr a) t) -> (forall e, r = Err e -> runs (h e) t Q) -> runs (on_error r h) t Q.
Proof. intros Ho He. destruct r; [by apply runs_ret, Ho|by apply He]. Qed.

Lemma runs_require (b : bool) (h : P W unit) t Q :
  (b = true -> Q (inr tt) t) -> (b = false -> runs h t Q) -> runs (require b h) t Q.
Proof. intros Ho He. destruct b; [by apply runs_ret, Ho|by apply He]. Qed.

Lemma advanced_log s0 s t a gs : advanced s0 s t -> gs = gate_step (st_global s, st_bindings s) a ->
  forall s', (st_global s', st_bindings s') = gs -> st_trace s' = (st_trace s ++ [a])%list -> advanced s0 s' (t ++ [a]).
Proof. intros [Ht Hg] -> s' Hs' Ht'. split; [by rewrite Ht', Ht, app_assoc|]. rewrite fold_left_app. cbn. by rewrite <- Hg, Hs'. Qed.

Lemma runs_writeAudit detached e t Q :
  (forall ok, Q (inr ok) (t ++ [Audited detached e ok])%list) -> runs (writeAudit detached e) t Q.
Proof.
  intros HQ s0 s Hs. unfold writeAudit. destruct (sink_write _ _ _) as [ok w]. exists (t ++ [Audited detached e ok])%list. split; [|apply HQ].
  by eapply advanced_log.
Qed.

Lemma runs_audited detached e t Q :
  Q (inr tt) (t ++ [Audited detached e true])%list -> Q (inl audit_unavailable) (t ++ [Audited detached e false])%list ->
  runs (audited detached e) t Q.
Proof. intros Ht Hf. apply runs_bind, runs_writeAudit. intros []; cbn; [by apply runs_ret|by apply runs_fail]. Qed.

Lemma runs_time_now t Q : (forall n, Q (inr n) t) -> runs time_now t Q.
Proof. intros HQ s0 s Hs. exists t. split; [done|apply HQ]. Qed.
Lemma runs_duration started t Q : (forall n, Q (inr n) t) -> runs (durationMilliseconds started) t Q.
Proof. intros HQ s0 s Hs. exists t. split; [done|apply HQ]. Qed.

Lemma runs_observe key semantics t Q : Q (inr tt) t -> runs (observeIdentifierSemantics key semantics) t Q.
Proof. intros HQ s0 s Hs. exists t. split; [done|apply HQ]. Qed.

Lemma runs_probe datasource t Q : (forall r, Q (inr r) (t ++ [Probed datasource r])%list) -> runs (probe sv datasource) t Q.
Proof.
  intros HQ s0 s Hs. unfold probe. destruct (manager_IdentifierSemantics _ _ _) as [r w]. eexists. split; [|apply HQ].
  by eapply advanced_log.
Qed.

Lemma runs_call g t Q : (forall r, Q (inr r) (t ++ [Called g])%list) -> runs (call sv g) t Q.
Proof. intros HQ s0 s Hs. unfold call. destruct (method_of _ _ _) as [r w]. eexists. split; [|apply HQ]. by eapply advanced_log. Qed.

Lemma alter_at (f : gate -> gate) key g (m : gmap BindingKey gate) : m !! key = Some g -> <[key := f g]> m = alter f key m.
Proof.
  intros Hg. apply map_eq. intros i. destruct (decide (i = key)) as [->|Hne].
  - by rewrite lookup_insert_eq, lookup_alter_eq, Hg.
  - by rewrite lookup_insert_ne, lookup_alter_ne.
Qed.
Lemma alter_absent (f : gate -> gate) key (m : gmap BindingKey gate) : m !! key = None -> m = alter f key m.
Proof.
  intros Hg. apply map_eq. intros i. destruct (decide (i = key)) as [->|Hne].
  - by rewrite lookup_alter_eq, Hg.
  - by rewrite lookup_alter_ne.
Qed.

Lemma receive_take g : receive (take g) = g.
Proof. destruct g. unfold receive, take. cbn. f_equal. lia. Qed.
Lemma send_take g g' : send g = Some g' -> g' = take g.
Proof. unfold send. case_match; naive_solver. Qed.

Lemma runs_acquire key t Q : (forall ok, Q (inr ok) (t ++ [Acquired key ok])%list) -> runs (acquireCapacity key) t Q.
Proof.
  intros HQ s0 s Hs. unfold acquireCapacity.
  destruct (send (st_global s)) as [global|] eqn:Eg; [|by eexists; split; [eapply advanced_log|apply HQ]].
  apply send_take in Eg as ->. destruct (st_bindings s !! key) as [g|] eqn:Ek.
  - destruct (send g) as [g'|] eqn:Es.
    + apply send_take in Es as ->. eexists. split; [eapply advanced_log; [done..| |done]|apply HQ]. cbn. f_equal.
      by apply alter_at.
    + eexists. split; [eapply advanced_log; [done..| |done]|apply HQ]. cbn. by rewrite receive_take.
  - eexists. split; [eapply advanced_log; [done..| |done]|apply HQ]. cbn. by rewrite receive_take.
Qed.

Lemma runs_holding {A} key (m : P W A) t Q : runs m t (fun r t' => Q r (t' ++ [Released key])%list) -> runs (holding key m) t Q.
Proof.
  intros Hm s0 s Hs. destruct (Hm _ _ Hs) as (t' & Ht & HQ). unfold holding. destruct (m s) as [r s']. cbn in *.
  eexists. split; [|exact HQ]. eapply advanced_log; [done..| |done]. cbn. f_equal.
  destruct (st_bindings s' !! key) eqn:E; [by apply alter_at|by apply alter_absent].
Qed.

(** One step of a function: [course] runs it to its ends. *)
Ltac run_step :=
  lazymatch goal with
  | |- after ?k ?Q (inr ?a) ?t => change (runs (k a) t Q); cbv beta
  | |- after ?k ?Q (inl ?e) ?t => change (Q (inl e) t); cbv beta
  | |- runs (let _ := _ in _) _ _ => cbv zeta
  | |- runs (match ?r with pair _ _ => _ end) _ _ => destruct r as [? ?]
  | |- runs (mbind _ _) _ _ => apply runs_bind
  | |- runs (mret _) _ _ => apply runs_ret
  | |- runs (fail _) _ _ => apply runs_fail
  | |- runs (fail_with _) _ _ => apply runs_bind
  | |- runs (on_error _ _) _ _ => apply runs_on_error; intros ? ?; subst
  | |- runs (require _ _) _ _ => apply runs_require; intros ?; try discriminate
  | |- runs (audited _ _) _ _ => apply runs_audited
  | |- runs (writeAudit _ _) _ _ => apply runs_writeAudit; intros []
  | |- runs time_now _ _ => apply runs_time_now; intros ?
  | |- runs (durationMilliseconds _) _ _ => apply runs_duration; intros ?
  | |- runs (observeIdentifierSemantics _ _) _ _ => apply runs_observe
  | |- runs (probe _ _) _ _ => apply runs_probe; intros ?
  | |- runs (acquireCapacity _) _ _ => apply runs_acquire; intros []
  | |- runs (holding _ _) _ _ => apply runs_holding
  | |- runs (if ?b then _ else _) _ _ => destruct b eqn:?
  | |- runs (assignedBinding _ _ _ _ _ _) _ _ => unfold assignedBinding
  | |- runs (precheckSourceText _ _ _ _ _ _ _) _ _ => unfold precheckSourceText
  | |- runs (not_offered _ _ _ _ _ _ _) _ _ => unfold not_offered
  | |- runs (refused_by_policy _ _ _ _ _ _ _ _) _ _ => unfold refused_by_policy
  | |- runs (writeDenial _ _ _ _ _ _ _ _) _ _ => unfold writeDenial
  | |- runs (writeAllowDecision _ _ _ _ _ _ _ _ _) _ _ => unfold writeAllowDecision
  | |- runs (writeAllowDecisionWithMetadata _ _ _ _ _ _ _ _ _ _) _ _ => unfold writeAllowDecisionWithMetadata
  | |- runs (complete_error _ _ _ _ _ _ _ _ _ _ _ _ _) _ _ => unfold complete_error
  | |- runs (completeQueryError _ _ _ _ _ _ _ _ _ _ _ _) _ _ => unfold completeQueryError
  | |- runs (prepareSchemaOperation _ _ _ _ _ _ _ _) _ _ => unfold prepareSchemaOperation
  | |- runs (writeKeysetOperationDenial _ _ _ _ _) _ _ => unfold writeKeysetOperationDenial
  | |- runs (keyset_completion _ _ _ _ _ _ _ _ _ _ _ _ _) _ _ => unfold keyset_completion
  | |- runs (completeObjectStatistics _ _ _ _ _ _ _ _ _ _ _ _) _ _ => unfold completeObjectStatistics
  | |- runs (writeObjectStatisticsDenial _ _ _ _ _ _) _ _ => unfold writeObjectStatisticsDenial
  | |- runs (match ?o with Some _ => _ | None => _ end) _ _ => destruct o eqn:?
  | |- runs (authorized_schema _ _ _ _ _ _ _) _ _ => unfold authorized_schema
  | |- runs (completeSchemaError _ _ _ _ _ _ _ _ _ _) _ _ => unfold completeSchemaError
  | |- runs ?m _ _ => lazymatch m with call _ ?g => refine (runs_call g _ _ _); cbn [method_answer]; intros ? end
  end.


(** The grant is of this caller, binding and operation. *)
Definition bound_to (profile datasource operation : string) (g : grant) : Prop :=
  grant_principal g = cl_principal who /\ profile = k_profile (grant_key g) /\ datasource = k_datasource (grant_key g) /\
  operation = grant_operation g.

Lemma AuthorizeBinding_bound profile datasource operation b :
  AuthorizeBinding (sv_policy sv) (cl_principal who) profile datasource operation = Ok b ->
  ab_principal b = cl_principal who /\ ab_key b = {| k_profile := profile; k_datasource := datasource |}.
Proof. by intros (q & _ & -> & _)%AuthorizeBinding_exact. Qed.

Lemma concerns_event profile datasource operation g type adapter decision reason outcome errorKind duration bytes hash resources fields meta :
  bound_to profile datasource operation g -> resources = grant_resources g ->
  concerns (service_event sv who type profile datasource adapter operation decision reason outcome errorKind duration bytes hash resources fields meta) g.
Proof. intros (Hp & -> & -> & ->) ->. unfold concerns. rewrite Hp. by split_and!. Qed.

Lemma allows_event type profile datasource operation g adapter resources fields hash meta :
  bound_to profile datasource operation g -> resources = grant_resources g -> fields = grant_fields g ->
  allows (allow_event sv who type profile datasource adapter operation resources fields hash meta) g.
Proof. intros Hb Hr Hf. split; [by apply concerns_event|done]. Qed.

Lemma completes_event profile datasource operation g type adapter outcome errorKind duration bytes hash resources fields meta :
  bound_to profile datasource operation g -> resources = grant_resources g -> outcome <> EmptyString ->
  completes (completion_event sv who type profile datasource adapter operation outcome errorKind duration bytes hash resources fields meta) g.
Proof. intros Hb Hr Hf. split; [by apply concerns_event|done]. Qed.

Lemma failure_denial profile datasource operation reason hash : failure (denial_event sha256 sv who profile datasource operation reason hash).
Proof. unfold denial_event. by destruct (AuthorizeBinding _ _ _ _ _). Qed.

Lemma failure_completion type profile datasource adapter operation outcome errorKind duration bytes hash resources fields meta :
  outcome <> "success" ->
  failure (completion_event sv who type profile datasource adapter operation outcome errorKind duration bytes hash resources fields meta).
Proof. done. Qed.

Ltac fails := first [apply failure_denial | by apply failure_completion | by split].
Ltac probes := repeat constructor.

(** Ends at which no grant was made. *)
Ltac conclude_refused :=
  first [ apply course_silent; by probes
        | apply (course_refused _ []); [by probes|fails|done]
        | apply (course_refused _ [Probed _ _]); [by probes|fails|done] ].

(** Ends at which the policy had granted [g]. *)
Ltac conclude_granted Hg Hb :=
  lazymatch type of Hg with ?G ?p ?g =>
    let allowing := apply allows_event; [exact Hb|first [reflexivity|eassumption]|reflexivity] in
    let completing := apply completes_event; [exact Hb|first [reflexivity|eassumption]|done] in
    first [ apply (course_unrecorded G p g); [by probes|exact Hg|allowing]
          | apply (course_turned_away G p g); [by probes|exact Hg|allowing|];
            repeat constructor; first [done|completing|fails]
          | apply (course_executed G p g); [by probes|exact Hg|allowing|completing|done] ]
  end.

Definition query_grants (request : Request) (operation : string) (mk : AuthorizedQuery -> grant) (p : list action) (g : grant) : Prop :=
  exists binding query semantics q,
    p = [Probed (rq_datasource request) (Ok semantics)] /\
    AuthorizeBinding (sv_policy sv) (cl_principal who) (rq_profile request) (rq_datasource request) operation = Ok binding /\
    Validate (rq_query request) (select_limits (ab_limits binding)) = Ok query /\
    authorizeQuery (sv_policy sv) binding operation query semantics = Ok q /\ g = mk q.

Lemma query_granted request operation mk binding query semantics q : mk = GrantExplain \/ mk = GrantSelect ->
  AuthorizeBinding (sv_policy sv) (cl_principal who) (rq_profile request) (rq_datasource request) operation = Ok binding ->
  Validate (rq_query request) (select_limits (ab_limits binding)) = Ok query ->
  authorizeQuery (sv_policy sv) binding operation query semantics = Ok q ->
  query_grants request operation mk [Probed (k_datasource (ab_key binding)) (Ok semantics)] (mk q) /\ ab_key binding = grant_key (mk q) /\
  bound_to (rq_profile request) (k_datasource (grant_key (mk q))) operation (mk q).
Proof.
  intros Hmk Hb Hv Ha. pose proof Ha as H1. destruct (AuthorizeBinding_bound _ _ _ _ Hb) as [Hp Hk].
  unfold authorizeQuery in H1. destruct (profileForBinding _ _ _); [|done].
  apply rbind_ok in H1 as (v & _ & H1). rewrite !check_ok' in H1. destruct H1 as (_ & _ & _ & _ & [= Hq]).
  assert (ab_key binding = grant_key (mk q) /\ bound_to (rq_profile request) (k_datasource (grant_key (mk q))) operation (mk q)).
  { unfold bound_to. rewrite <- Hp. destruct Hmk; subst mk q; cbn; by rewrite Hk. }
  split; [|done]. exists binding, query, semantics, q. by rewrite Hk.
Qed.

Ltac conclude_with granted :=
  lazymatch goal with Hb : AuthorizeBinding _ _ _ _ _ = Ok _ |- _ =>
    let Hg := fresh in let Hk := fresh in let Hbound := fresh in
    destruct (granted Hb) as (Hg & Hk & Hbound); rewrite Hk in Hg |- *; conclude_granted Hg Hbound end.

Lemma Select_course bodyBytes request : runs (Select sha256 sv who bodyBytes request) [] (course (query_grants request OperationSelect GrantSelect)).
Proof.
  unfold Select. repeat run_step. all: cbn [app]; try conclude_refused.
  all: match goal with Hv : Validate _ _ = Ok _, Ha : AuthorizeSelect _ _ _ _ = Ok _ |- _ =>
    conclude_with (fun Hb => query_granted _ _ GrantSelect _ _ _ _ (or_intror eq_refl) Hb Hv Ha) end.
Qed.

Lemma Explain_course bodyBytes request : runs (Explain sha256 sv who bodyBytes request) [] (course (query_grants request OperationExplainSelect GrantExplain)).
Proof.
  unfold Explain. repeat run_step. all: cbn [app]; try conclude_refused.
  all: match goal with Hv : Validate _ _ = Ok _, Ha : AuthorizeExplain _ _ _ _ = Ok _ |- _ =>
    repeat match goal with r : result ExplainResult |- _ => destruct r end; simplify_eq;
    conclude_with (fun Hb => query_granted _ _ GrantExplain _ _ _ _ (or_introl eq_refl) Hb Hv Ha) end.
Qed.

(** *** Schema operations *)

Definition schema_grants (profile datasource operation : string) (resource : ResourceRef) (mk : AuthorizedSchema -> grant) (p : list action) (g : grant) : Prop :=
  exists binding semantics a,
    p = [Probed datasource (Ok semantics)] /\
    AuthorizeBinding (sv_policy sv) (cl_principal who) profile datasource operation = Ok binding /\
    authorizeSchema (sv_policy sv) binding operation resource semantics = Ok a /\ g = mk a.

Lemma schema_granted profile datasource operation resource mk binding semantics a : mk = GrantObjects \/ mk = GrantObject ->
  authorizeSchema (sv_policy sv) binding operation resource semantics = Ok a ->
  AuthorizeBinding (sv_policy sv) (cl_principal who) profile datasource operation = Ok binding ->
  schema_grants profile datasource operation resource mk [Probed (k_datasource (ab_key binding)) (Ok semantics)] (mk a) /\ ab_key binding = grant_key (mk a) /\
  bound_to profile (k_datasource (grant_key (mk a))) operation (mk a).
Proof.
  intros Hmk Ha Hb. pose proof Ha as H1. destruct (AuthorizeBinding_bound _ _ _ _ Hb) as [Hp Hk].
  apply grant_schema in H1 as (p & _ & _ & _ & Hq).
  assert (ab_key binding = grant_key (mk a) /\ bound_to profile (k_datasource (grant_key (mk a))) operation (mk a)).
  { unfold bound_to. rewrite <- Hp. destruct Hmk; subst mk a; cbn; by rewrite Hk. }
  split; [|done]. exists binding, semantics, a. by rewrite Hk.
Qed.

Lemma schema_resources binding operation resource semantics a : authorizeSchema (sv_policy sv) binding operation resource semantics = Ok a ->
  [{| re_schema := r_schema resource; re_object := r_name resource |}] = [{| re_schema := sc_schema a; re_object := sc_object a |}].
Proof. by intros (p & _ & _ & _ & ->)%grant_schema. Qed.

Lemma ListObjects_course profile datasource schema :
  runs (ListObjects sha256 sv who profile datasource schema) []
    (course (schema_grants profile datasource OperationListObjects {| r_schema := schema; r_name := EmptyString |} GrantObjects)).
Proof.
  unfold ListObjects. repeat run_step. all: cbn [app]; try conclude_refused.
  all: match goal with Ha : AuthorizeListObjects _ _ _ _ = Ok _ |- _ =>
    pose proof (schema_resources _ _ _ _ _ Ha);
    conclude_with (schema_granted profile datasource OperationListObjects _ GrantObjects _ _ _ (or_introl eq_refl) Ha) end.
Qed.

Lemma describe_unavailable e : describe_error e audit_unavailable = audit_unavailable.
Proof. unfold describe_error. by destruct (IsKind _ _). Qed.

Lemma DescribeObject_course profile datasource object :
  runs (DescribeObject sha256 sv who profile datasource object) []
    (course (schema_grants profile datasource OperationDescribeObject object GrantObject)).
Proof.
  unfold DescribeObject. repeat run_step. all: cbn [app]; rewrite ?describe_unavailable; try conclude_refused.
  all: match goal with Ha : AuthorizeDescribeObject _ _ _ _ = Ok _ |- _ =>
    pose proof (schema_resources _ _ _ _ _ Ha);
    conclude_with (schema_granted profile datasource OperationDescribeObject _ GrantObject _ _ _ (or_intror eq_refl) Ha) end.
Qed.

(** *** Aggregates *)

Definition aggregate_grants (request : AggregateRequest) (p : list action) (g : grant) : Prop :=
  exists binding hard query normalized semantics q baseBytes,
    p = [Probed (gq_datasource request) (Ok semantics)] /\
    ValidateAggregate (gq_query request) (aggregate_limits_of (sn_hardLimits (sv_policy sv))) = Ok hard /\
    AuthorizeBinding (sv_policy sv) (cl_principal who) (gq_profile request) (gq_datasource request) OperationAggregate = Ok binding /\
    RevalidateAggregate hard (aggregate_limits_of (ab_limits binding)) = Ok query /\
    NormalizeAggregateIdentifiers sha256 query semantics = Ok normalized /\
    AuthorizeAggregate sha256 (sv_policy sv) binding normalized semantics = Ok q /\ g = GrantAggregate q baseBytes.

Lemma aggregate_granted request binding hard query normalized semantics q baseBytes :
  ValidateAggregate (gq_query request) (aggregate_limits_of (sn_hardLimits (sv_policy sv))) = Ok hard ->
  RevalidateAggregate hard (aggregate_limits_of (ab_limits binding)) = Ok query ->
  NormalizeAggregateIdentifiers sha256 query semantics = Ok normalized ->
  AuthorizeAggregate sha256 (sv_policy sv) binding normalized semantics = Ok q ->
  AuthorizeBinding (sv_policy sv) (cl_principal who) (gq_profile request) (gq_datasource request) OperationAggregate = Ok binding ->
  let g := GrantAggregate q baseBytes in
  aggregate_grants request [Probed (k_datasource (ab_key binding)) (Ok semantics)] g /\ ab_key binding = grant_key g /\ bound_to (gq_profile request) (k_datasource (grant_key g)) OperationAggregate g.
Proof.
  intros Hh Hv Hn Ha Hb g. pose proof Ha as H1. destruct (AuthorizeBinding_bound _ _ _ _ Hb) as [Hp Hk].
  unfold AuthorizeAggregate in H1. destruct (profileForBinding _ _ _); [|done].
  apply rbind_ok in H1 as (v & _ & H1). apply rbind_ok in H1 as (v' & _ & H1). rewrite !check_ok' in H1. destruct H1 as (_ & _ & _ & H1).
  destruct (matchAggregateShape _ _ _); [|done]. rewrite if_err_ok in H1. destruct H1 as [_ H1].
  apply rbind_ok in H1 as (? & _ & H1). apply rbind_ok in H1 as (? & _ & H1). injection H1 as Hq.
  split; [exists binding, hard, query, normalized, semantics, q, baseBytes; by rewrite Hk|]. unfold bound_to. rewrite <- Hp. subst q g; cbn. by rewrite Hk.
Qed.

Lemma Aggregate_course bodyBytes request : runs (Aggregate sha256 sv who bodyBytes request) [] (course (aggregate_grants request)).
Proof.
  unfold Aggregate. repeat run_step. all: cbn [app]; try conclude_refused.
  all: match goal with Hh : ValidateAggregate _ _ = Ok _, Hv : RevalidateAggregate _ _ = Ok _, Hn : NormalizeAggregateIdentifiers _ _ _ = Ok _, Ha : AuthorizeAggregate _ _ _ _ _ = Ok _ |- _ =>
    first
      [ lazymatch goal with |- context [GrantAggregate _ ?b] =>
          generalize b; intros base; conclude_with (aggregate_granted request _ _ _ _ _ _ base Hh Hv Hn Ha) end
      | conclude_with (aggregate_granted request _ _ _ _ _ _ 0 Hh Hv Hn Ha) ] end.
Qed.

(** *** Keyset selections *)

Definition keyset_grants (request : KeysetRequest) (p : list action) (g : grant) : Prop :=
  exists binding hard query semantics q budget,
    p = [Probed (kr_datasource request) (Ok semantics)] /\
    ValidateKeyset sha256 request (keyset_limits_of (sn_hardLimits (sv_policy sv))) = Ok hard /\
    AuthorizeBinding (sv_policy sv) (cl_principal who) (kr_profile request) (kr_datasource request) OperationSelectKeyset = Ok binding /\
    RevalidateKeyset hard (keyset_limits_of (ab_limits binding)) = Ok query /\
    AuthorizeKeysetSelect sha256 (sv_policy sv) binding (cl_clientIdentifier who) (adapter_of sv binding) query semantics = Ok q /\ g = GrantKeyset q budget.

Lemma keyset_granted request binding hard query semantics q budget :
  ValidateKeyset sha256 request (keyset_limits_of (sn_hardLimits (sv_policy sv))) = Ok hard ->
  RevalidateKeyset hard (keyset_limits_of (ab_limits binding)) = Ok query ->
  AuthorizeKeysetSelect sha256 (sv_policy sv) binding (cl_clientIdentifier who) (adapter_of sv binding) query semantics = Ok q ->
  AuthorizeBinding (sv_policy sv) (cl_principal who) (kr_profile request) (kr_datasource request) OperationSelectKeyset = Ok binding ->
  let g := GrantKeyset q budget in
  keyset_grants request [Probed (k_datasource (ab_key binding)) (Ok semantics)] g /\ ab_key binding = grant_key g /\ bound_to (kr_profile request) (k_datasource (grant_key g)) OperationSelectKeyset g.
Proof.
  intros Hh Hv Ha Hb g. pose proof Ha as H1. destruct (AuthorizeBinding_bound _ _ _ _ Hb) as [Hp Hk].
  unfold AuthorizeKeysetSelect in H1. apply if_err_ok in H1 as [_ H1]. apply check_ok' in H1 as [_ H1].
  apply rbind_ok in H1 as (v & _ & H1). apply rbind_ok in H1 as (v' & _ & H1).
  destruct (matchKeysetShape _ _ _ _); [|done]. apply if_err_ok in H1 as [_ H1]. rewrite !check_ok' in H1. destruct H1 as (_ & _ & _ & [= Hq]).
  split; [exists binding, hard, query, semantics, q, budget; by rewrite Hk|]. unfold bound_to. rewrite <- Hp. subst q g; cbn. by rewrite Hk.
Qed.

Lemma SelectKeyset_course raw_json bodyBytes request :
  runs (SelectKeyset sha256 raw_json sv who bodyBytes request) [] (course (keyset_grants request)).
Proof.
  unfold SelectKeyset. repeat run_step. all: cbn [app]; try conclude_refused.
  all: match goal with Hh : ValidateKeyset _ _ _ = Ok _, Hv : RevalidateKeyset _ _ = Ok _, Ha : AuthorizeKeysetSelect _ _ _ _ _ _ _ = Ok _ |- _ =>
    first
      [ lazymatch goal with |- context [GrantKeyset _ ?b] =>
          generalize b; intros budget; conclude_with (keyset_granted request _ _ _ _ _ budget Hh Hv Ha) end
      | conclude_with (keyset_granted request _ _ _ _ _ {| FinalBaseBytes := 0; MoreBaseBytes := 0 |} Hh Hv Ha) ] end.
Qed.

(** *** Table statistics *)

Definition statistics_grants (sha256_hex : string -> string) (profile datasource : string) (object : ResourceRef) (p : list action) (g : grant) : Prop :=
  exists binding semantics a envelopeBaseBytes,
    p = [Probed datasource (Ok semantics)] /\
    AuthorizeBinding (sv_policy sv) (cl_principal who) profile datasource OperationDescribeObjectStatistics = Ok binding /\
    AuthorizeObjectStatistics sha256_hex (sv_policy sv) binding (cl_clientIdentifier who) (adapter_of sv binding) object semantics = Ok a /\
    g = GrantStatistics a envelopeBaseBytes.

Lemma statistics_granted sha256_hex profile datasource object binding semantics a envelopeBaseBytes :
  AuthorizeObjectStatistics sha256_hex (sv_policy sv) binding (cl_clientIdentifier who) (adapter_of sv binding) object semantics = Ok a ->
  AuthorizeBinding (sv_policy sv) (cl_principal who) profile datasource OperationDescribeObjectStatistics = Ok binding ->
  let g := GrantStatistics a envelopeBaseBytes in
  statistics_grants sha256_hex profile datasource object [Probed (k_datasource (ab_key binding)) (Ok semantics)] g /\ ab_key binding = grant_key g /\
  bound_to profile (k_datasource (grant_key g)) OperationDescribeObjectStatistics g.
Proof.
  intros Ha Hb g. pose proof Ha as H1. destruct (AuthorizeBinding_bound _ _ _ _ Hb) as [Hp Hk].
  unfold AuthorizeObjectStatistics in H1. rewrite !if_err_ok in H1. destruct H1 as (_ & _ & H1).
  destruct (profileForBinding _ _ _); [|done]. apply check_ok' in H1 as [_ [= Hq]].
  split; [exists binding, semantics, a, envelopeBaseBytes; by rewrite Hk|]. unfold bound_to. rewrite <- Hp. subst a g; cbn. by rewrite Hk.
Qed.

Lemma DescribeObjectStatistics_course sha256_hex SimpleFold profile datasource object :
  runs (DescribeObjectStatistics sha256 sha256_hex SimpleFold sv who profile datasource object) []
    (course (statistics_grants sha256_hex profile datasource object)).
Proof.
  unfold DescribeObjectStatistics. repeat run_step. all: cbn [app]; try conclude_refused.
  all: match goal with Ha : AuthorizeObjectStatistics _ _ _ _ _ _ _ = Ok _ |- _ =>
    first
      [ lazymatch goal with |- context [GrantStatistics _ ?b] => conclude_with (statistics_granted sha256_hex profile datasource object _ _ _ b Ha) end
      | conclude_with (statistics_granted sha256_hex profile datasource object _ _ _ 0 Ha) ] end.
Qed.

(** ** Every operation keeps to a course *)

Lemma alter_receive_take key (m : gmap BindingKey gate) : alter receive key (alter take key m) = m.
Proof.
  apply map_eq. intros i. destruct (decide (i = key)) as [->|Hne]; [|by rewrite !lookup_alter_ne].
  rewrite !lookup_alter_eq. destruct (m !! key) as [g|]; [|done]. cbn. by rewrite receive_take.
Qed.

Lemma course_restores {A} G (r : service_error + A) t gs : course G r t -> fold_left gate_step t gs = gs.
Proof.
  assert (Hprobes : forall p gs, Forall is_probe p -> fold_left gate_step p gs = gs).
  { intros p. induction p as [|a p IH]; intros gs' Hp; [done|]. apply Forall_cons in Hp as [Ha Hp]. cbn. destruct a; try done. by apply IH. }
  intros [p e Hp|p ev ok e Hp _ _|p g a Hp _ _|p g a l e Hp _ _ Hl|p g a c ok r' Hp _ _ _ _]; [by apply Hprobes|..]; rewrite fold_left_app, (Hprobes p) by done.
  - done.
  - done.
  - cbn. induction Hl as [|x l Hx _ IH]; [done|]. cbn. by destruct Hx.
  - destruct gs as [g0 m]. cbn [fold_left gate_step fst snd]. by rewrite receive_take, alter_receive_take.
Qed.

(** From every state, the operation appends one course to the trace and leaves the gates as it found them. *)
Definition keeps_course {A} (G : list action -> grant -> Prop) (m : P W A) : Prop := forall s, exists t,
  st_trace (m s).2 = (st_trace s ++ t)%list /\ course G (m s).1 t /\ st_global (m s).2 = st_global s /\ st_bindings (m s).2 = st_bindings s.

Lemma runs_keeps {A} G (m : P W A) : runs m [] (course G) -> keeps_course G m.
Proof.
  intros Hm s. destruct (Hm s s) as (t & [Ht Hg] & Hc); [by split; [rewrite app_nil_r|]|]. exists t.
  rewrite (course_restores _ _ _ _ Hc) in Hg. by injection Hg as ? ?.
Qed.

(** C1: No database call without a recorded permission. Every operation of the service, from every state, for every
    request and whatever the database and the audit log answer, takes one of the courses: it may ask
    the datasource for its identifier semantics; it then ends with an error, after at
    most one event that reports neither an allow decision nor a success; or the policy
    grants the very call under the semantics that the datasource has just answered, an allow decision that names the
    caller, the binding, the resources and the fields of the grant is written, and an unwritten one ends it. Only after that
    event was written, and with a token of both gates, is the database called, once and with exactly that grant; then a completion is written,
    the tokens are given back, and the answer is given exactly when the completion reports success and was written. No
    course changes what the gates hold. *)
Theorem operations_keep_course raw_json sha256_hex SimpleFold bodyBytes :
  (forall request, keeps_course (query_grants request OperationExplainSelect GrantExplain) (Explain sha256 sv who bodyBytes request)) /\
  (forall request, keeps_course (query_grants request OperationSelect GrantSelect) (Select sha256 sv who bodyBytes request)) /\
  (forall profile datasource schema,
     keeps_course (schema_grants profile datasource OperationListObjects {| r_schema := schema; r_name := EmptyString |} GrantObjects)
       (ListObjects sha256 sv who profile datasource schema)) /\
  (forall profile datasource object,
     keeps_course (schema_grants profile datasource OperationDescribeObject object GrantObject)
       (DescribeObject sha256 sv who profile datasource object)) /\
  (forall request, keeps_course (aggregate_grants request) (Aggregate sha256 sv who bodyBytes request)) /\
  (forall request, keeps_course (keyset_grants request) (SelectKeyset sha256 raw_json sv who bodyBytes request)) /\
  (forall profile datasource object,
     keeps_course (statistics_grants sha256_hex profile datasource object)
       (DescribeObjectStatistics sha256 sha256_hex SimpleFold sv who profile datasource object)).
Proof.
  split_and!; intros; apply runs_keeps.
  - apply Explain_course.
  - apply Select_course.
  - apply ListObjects_course.
  - apply DescribeObject_course.
  - apply Aggregate_course.
  - apply SelectKeyset_course.
  - apply DescribeObjectStatistics_course.
Qed.
End Course.

(** ** A small service *)

(** A log that accepts everything, and one that accepts nothing that the request's context outlives. *)
#[export] Instance open_host : Host Z := {| sink_write := fun _ _ w => (true, w); sink_ready := fun _ => true; clock := fun w => w * 1000000 |}.
Definition deaf_host : Host Z := {| sink_write := fun detached _ w => (detached, w); sink_ready := fun _ => true; clock := fun w => w * 1000000 |}.

Definition small_service : Service Z string := {|
  sv_policy := example_snapshot; sv_databases := small_manager; sv_serviceVersion := "1"; sv_discoveryNeeded := ∅;
  sv_queryShapeSupport := ∅; sv_queryShapeAuditIdentity := {| ai_principal := EmptyString; ai_clientIdentifier := EmptyString |};
  sv_bindingAuditIdentities := ∅ |}.

Definition reader_key : BindingKey := {| k_profile := "reader"; k_datasource := "main" |}.
Definition small_state : state Z := {|
  st_world := 0; st_global := {| gt_capacity := 2; gt_held := 0 |}; st_bindings := {[ reader_key := {| gt_capacity := 1; gt_held := 0 |} ]};
  st_queryShapes := ∅; st_trace := [] |}.
Definition alice : caller := {| cl_requestID := "r1"; cl_queryID := EmptyString; cl_principal := "alice"; cl_clientIdentifier := "laptop" |}.

Definition sketch (a : action) : string :=
  match a with
  | Audited _ e ok => ev_type e +:+ " " +:+ ev_decision e +:+ ev_outcome e +:+ (if ok : bool then EmptyString else " lost")
  | Probed _ _ => "probe" | Acquired _ ok => if ok : bool then "acquire" else "full" | Called _ => "call" | Released _ => "release"
  end.

Definition seen {A} (r : (service_error + A) * state Z) : string * list string :=
  (match r.1 with inl e => se_kind e | inr _ => "answer" end, map sketch (st_trace r.2)).

(** A description that is served, one by a principal without the profile, and one whose allow decision is lost. *)
Example small_courses :
  (seen (DescribeObject id small_service alice "reader" "main" {| r_schema := "shop"; r_name := "users" |} small_state),
   seen (DescribeObject id small_service alice "writer" "main" {| r_schema := "shop"; r_name := "users" |} small_state),
   seen (@DescribeObject _ _ deaf_host id small_service alice "reader" "main" {| r_schema := "shop"; r_name := "users" |} small_state)) =
  (("answer", ["probe"; "operation_decision allow"; "acquire"; "call"; "operation_completion success"; "release"]),
   ("denied", ["operation_decision deny"]),
   ("service_unavailable", ["probe"; "operation_decision allow lost"])).
Proof. vm_compute. reflexivity. Qed.
