(* ===== verification/Gates.v ===== *)
(** The capacity gates under concurrent requests (internal/queryservice/service.go:
    [acquireCapacity] and the function it returns): every operation on a channel is one
    step of one request, and the steps of all requests interleave in any order. *)
From S2P Require Import Prelude Domain GoJson Number Portable Values QuerySpec Config Policy Discovery AuditEvents Manager ServiceCore Service ServiceKeyset ServiceStatistics ServiceCourse.
Local Open Scope Z_scope.

(** Where a request stands: before the first send, with the global token, with the
    global token to give back, with both tokens, with the global token after the
    operation, refused, or done. *)
Inductive stage := Arriving | Entered | TurningBack | Running | Leaving | Refused | Finished.
#[export] Instance stage_eq_decision : EqDecision stage.
Proof. solve_decision. Defined.

Record request_state := { rs_key : BindingKey; rs_stage : stage }.

(** A receive from an empty channel waits. *)
Definition try_receive (g : gate) : option gate := if 0 <? gt_held g then Some (receive g) else None.

(** The next step of one request; [None] when it waits or has none left. *)
Definition advance (key : BindingKey) (at_ : stage) (gs : gates) : option (stage * gates) :=
  let '(global, bindings) := gs in
  match at_ with
  | Arriving =>
      match send global with
      | Some global => Some (Entered, (global, bindings))
      | None => Some (Refused, gs)
      end
  | Entered =>
      match bindings !! key with
      | None => Some (TurningBack, gs)
      | Some profileGate =>
          match send profileGate with
          | Some profileGate => Some (Running, (global, <[key := profileGate]> bindings))
          | None => Some (TurningBack, gs)
          end
      end
  | TurningBack => global ← try_receive global; Some (Refused, (global, bindings))
  | Running =>
      profileGate ← bindings !! key; profileGate ← try_receive profileGate;
      Some (Leaving, (global, <[key := profileGate]> bindings))
  | Leaving => global ← try_receive global; Some (Finished, (global, bindings))
  | Refused | Finished => None
  end.

Record crowd := { cr_gates : gates; cr_requests : list request_state }.

(** One request makes its next step. *)
Inductive crowd_step : crowd -> crowd -> Prop :=
| one_advances i r next gs c : cr_requests c !! i = Some r -> advance (rs_key r) (rs_stage r) (cr_gates c) = Some (next, gs) ->
    crowd_step c {| cr_gates := gs; cr_requests := <[i := {| rs_key := rs_key r; rs_stage := next |}]> (cr_requests c) |}.

Inductive crowd_steps : nat -> crowd -> crowd -> Prop :=
| no_steps c : crowd_steps 0 c c
| more_steps n c c' c'' : crowd_steps n c c' -> crowd_step c' c'' -> crowd_steps (S n) c c''.

Definition holds_global (r : request_state) : bool :=
  match rs_stage r with Entered | TurningBack | Running | Leaving => true | _ => false end.
Definition holds_binding (key : BindingKey) (r : request_state) : bool :=
  bool_decide (rs_key r = key) && bool_decide (rs_stage r = Running).
Definition settled (r : request_state) : bool := match rs_stage r with Refused | Finished => true | _ => false end.

Definition count (f : request_state -> bool) (l : list request_state) : Z := len (List.filter f l).

(** How many steps a request can still make. *)
Definition steps_left (r : request_state) : nat :=
  match rs_stage r with Arriving => 4 | Entered => 3 | Running => 2 | TurningBack | Leaving => 1 | Refused | Finished => 0 end.
Definition work_left (c : crowd) : nat := list_sum (map steps_left (cr_requests c)).

(** No gate holds a token at first, and every request has still to arrive. *)
Definition starts (c : crowd) : Prop :=
  gt_held (cr_gates c).1 = 0 /\ 0 <= gt_capacity (cr_gates c).1 /\
  (forall key g, (cr_gates c).2 !! key = Some g -> gt_held g = 0 /\ 0 <= gt_capacity g) /\
  Forall (fun r => rs_stage r = Arriving) (cr_requests c).

(** The tokens are those of the requests, and no gate holds more than its capacity. *)
Record balanced (c : crowd) : Prop := {
  bl_global : gt_held (cr_gates c).1 = count holds_global (cr_requests c);
  bl_global_bound : gt_held (cr_gates c).1 <= gt_capacity (cr_gates c).1;
  bl_binding : forall key g, (cr_gates c).2 !! key = Some g -> gt_held g = count (holds_binding key) (cr_requests c) /\ gt_held g <= gt_capacity g;
  bl_gated : forall r, In r (cr_requests c) -> rs_stage r = Running -> is_Some ((cr_gates c).2 !! rs_key r);
}.

(** ** Counting *)

Lemma count_cons f r l : count f (r :: l) = (if f r then 1 else 0) + count f l.
Proof. unfold count. cbn. destruct (f r); [rewrite len_cons|]; lia. Qed.
Lemma count_nonneg f l : 0 <= count f l. Proof. apply len_nonneg. Qed.

Lemma count_update f l : forall i r r', l !! i = Some r ->
  count f (<[i := r']> l) = count f l - (if f r then 1 else 0) + (if f r' then 1 else 0).
Proof.
  induction l as [|x l IH]; intros [|i] r r' H; try done.
  - injection H as ->. change (<[0%nat := r']> (r :: l)) with (r' :: l). rewrite !count_cons. lia.
  - change (<[S i := r']> (x :: l)) with (x :: <[i := r']> l). rewrite !count_cons, (IH _ r) by done. lia.
Qed.

Lemma count_member f l r : In r l -> f r = true -> 0 < count f l.
Proof.
  induction l as [|x l IH]; [done|]. intros [->|H] Hf; rewrite count_cons.
  - rewrite Hf. pose proof (count_nonneg f l). lia.
  - specialize (IH H Hf). destruct (f x); lia.
Qed.

Lemma work_cons r l : list_sum (map steps_left (r :: l)) = (steps_left r + list_sum (map steps_left l))%nat.
Proof. done. Qed.

Lemma work_update l : forall i r r', l !! i = Some r ->
  (list_sum (map steps_left (<[i := r']> l)) + steps_left r = list_sum (map steps_left l) + steps_left r')%nat.
Proof.
  induction l as [|x l IH]; intros [|i] r r' H; try done.
  - injection H as ->. change (<[0%nat := r']> (r :: l)) with (r' :: l). rewrite !work_cons. lia.
  - change (<[S i := r']> (x :: l)) with (x :: <[i := r']> l). rewrite !work_cons. specialize (IH i r r' H). lia.
Qed.

Lemma send_Some g g' : send g = Some g' <-> gt_held g < gt_capacity g /\ g' = take g.
Proof. unfold send. destruct (Z.ltb_spec (gt_held g) (gt_capacity g)); [naive_solver|]. split; [done|]. intros [? _]; lia. Qed.
Lemma try_receive_Some g g' : try_receive g = Some g' <-> 0 < gt_held g /\ g' = receive g.
Proof. unfold try_receive. destruct (Z.ltb_spec 0 (gt_held g)); [naive_solver|]. split; [done|]. intros [? _]; lia. Qed.

Lemma in_update (l : list request_state) i r x : In x (<[i := r]> l) -> x = r \/ In x l.
Proof.
  revert i. induction l as [|y l IH]; intros [|i]; [done|done| |].
  - intros [->|H]; [by left|by right; right].
  - intros [->|H]; [by right; left|]. destruct (IH _ H) as [->|?]; [by left|by right; right].
Qed.

(** ** One step *)

(** What a step does to the global gate and to the gate of its key. *)
Inductive moved (key : BindingKey) (gs gs' : gates) : stage -> stage -> Prop :=
| moved_in : gt_held gs.1 < gt_capacity gs.1 -> gs' = (take gs.1, gs.2) -> moved key gs gs' Arriving Entered
| moved_refused : gs' = gs -> moved key gs gs' Arriving Refused
| moved_back : gs' = gs -> moved key gs gs' Entered TurningBack
| moved_on g : gs.2 !! key = Some g -> gt_held g < gt_capacity g -> gs' = (gs.1, <[key := take g]> gs.2) -> moved key gs gs' Entered Running
| moved_out : gs' = (receive gs.1, gs.2) -> moved key gs gs' TurningBack Refused
| moved_off g : gs.2 !! key = Some g -> gs' = (gs.1, <[key := receive g]> gs.2) -> moved key gs gs' Running Leaving
| moved_away : gs' = (receive gs.1, gs.2) -> moved key gs gs' Leaving Finished.

Lemma advance_moved key at_ gs next gs' : advance key at_ gs = Some (next, gs') -> moved key gs gs' at_ next.
Proof.
  destruct gs as [global bindings]. unfold advance. destruct at_; try done; intros H.
  - destruct (send global) as [g|] eqn:E; injection H as <- <-; [|by constructor]. apply send_Some in E as [? ->]. by constructor.
  - destruct (bindings !! key) as [g|] eqn:Ek; [|injection H as <- <-; by constructor].
    destruct (send g) as [g'|] eqn:E; injection H as <- <-; [|by constructor]. apply send_Some in E as [? ->]. by econstructor.
  - apply bind_Some in H as (g & [_ ->]%try_receive_Some & [= <- <-]). by constructor.
  - apply bind_Some in H as (g & Hg & H). apply bind_Some in H as (g' & [_ ->]%try_receive_Some & [= <- <-]). by econstructor.
  - apply bind_Some in H as (g & [_ ->]%try_receive_Some & [= <- <-]). by constructor.
Qed.

Lemma moved_work key gs gs' at_ next : moved key gs gs' at_ next ->
  (steps_left {| rs_key := key; rs_stage := next |} < steps_left {| rs_key := key; rs_stage := at_ |})%nat.
Proof. intros []; cbn; lia. Qed.

Lemma moved_gated key gs gs' at_ next k : moved key gs gs' at_ next -> is_Some (gs.2 !! k) -> is_Some (gs'.2 !! k).
Proof.
  intros [] Hk; subst; cbn; try done; (destruct (decide (k = key)) as [->|]; [by rewrite lookup_insert_eq|by rewrite lookup_insert_ne]).
Qed.

Ltac split_stage :=
  repeat match goal with |- context [bool_decide (?a = Running)] => let b := eval vm_compute in (bool_decide (a = Running)) in change (bool_decide (a = Running)) with b end;
  cbn.

Lemma step_balanced c c' : balanced c -> crowd_step c c' -> balanced c' /\ (work_left c' < work_left c)%nat.
Proof.
  intros Hbal Hstep. destruct Hstep as [i r next gs c0 Hr Ha]. destruct Hbal as [Hg Hgb Hb Hgated]. pose proof (advance_moved _ _ _ _ _ Ha) as Hm. clear Ha.
  destruct r as [key at_]. cbn [rs_key rs_stage] in *. set (r' := {| rs_key := key; rs_stage := next |}).
  assert (Hin : In {| rs_key := key; rs_stage := at_ |} (cr_requests c0)) by (by apply list_elem_of_In; eapply list_elem_of_lookup_2).
  split.
  2: { unfold work_left. cbn [cr_requests]. pose proof (work_update _ _ _ r' Hr). pose proof (moved_work _ _ _ _ _ Hm). subst r'. lia. }
  pose proof (count_update holds_global _ _ _ r' Hr) as Hcg.
  assert (Hcb := fun k => count_update (holds_binding k) _ _ _ r' Hr).
  split; cbn [cr_gates cr_requests].
  - rewrite Hcg. unfold r'. clear -Hm Hg. destruct Hm; subst; cbn in *; lia.
  - clear -Hm Hgb. destruct Hm; subst; cbn in *; lia.
  - intros k g Hk. rewrite Hcb. clear Hcb Hcg. subst r'. unfold holds_binding in *. cbn [rs_key rs_stage].
    destruct Hm as [? Heq|Heq|Heq|g0 Hg0 Hlt Heq|Heq|g0 Hg0 Heq|Heq]; subst gs; cbn [fst snd] in *;
      try (destruct (Hb k g Hk) as [E ?]; rewrite E; rewrite !andb_false_r; lia).
    + destruct (decide (key = k)) as [<-|Hne].
      * rewrite lookup_insert_eq in Hk. injection Hk as <-. destruct (Hb _ _ Hg0) as [E ?]. cbn. rewrite (bool_decide_true (key = key)) by done. split_stage; lia.
      * rewrite lookup_insert_ne in Hk by done. destruct (Hb _ _ Hk) as [E ?]. rewrite (bool_decide_false (key = k)) by done. cbn. lia.
    + destruct (decide (key = k)) as [<-|Hne].
      * rewrite lookup_insert_eq in Hk. injection Hk as <-. destruct (Hb _ _ Hg0) as [E ?]. cbn. rewrite (bool_decide_true (key = key)) by done. split_stage; lia.
      * rewrite lookup_insert_ne in Hk by done. destruct (Hb _ _ Hk) as [E ?]. rewrite (bool_decide_false (key = k)) by done. cbn. lia.
  - intros x [->|Hx]%in_update Hrun.
    + unfold r' in *. cbn in Hrun. subst next. inversion Hm; subst. cbn. by rewrite lookup_insert_eq.
    + eapply moved_gated; [exact Hm|by apply Hgated].
Qed.

(** ** All steps *)

Definition capacities (gs : gates) (key : BindingKey) : option Z := gt_capacity <$> gs.2 !! key.

Lemma moved_capacity key gs gs' at_ next : moved key gs gs' at_ next ->
  gt_capacity gs'.1 = gt_capacity gs.1 /\ forall k, capacities gs' k = capacities gs k.
Proof.
  unfold capacities. intros []; subst; cbn [fst snd]; (split; [done|]); intros k; try done;
    (destruct (decide (k = key)) as [->|]; [by rewrite lookup_insert_eq, H|by rewrite lookup_insert_ne]).
Qed.

Lemma starts_balanced c : starts c -> balanced c.
Proof.
  intros (Hg & Hc & Hb & Hr).
  assert (H0 : forall f, (forall r, rs_stage r = Arriving -> f r = false) -> count f (cr_requests c) = 0).
  { intros f Hf. induction Hr as [|r l Hx _ IH]; [done|]. rewrite count_cons, IH, (Hf _ Hx). done. }
  split; [| |intros key g Hk; destruct (Hb _ _ Hk)|].
  - rewrite H0, Hg; [done|]. intros r E. unfold holds_global. by rewrite E.
  - lia.
  - split; [|lia]. rewrite H0; [done|]. intros r E. unfold holds_binding. rewrite E. apply andb_false_r.
  - intros r Hin E. rewrite Forall_forall in Hr. rewrite (Hr r) in E; [done|by apply list_elem_of_In].
Qed.

Lemma steps_invariant n c0 c : starts c0 -> crowd_steps n c0 c ->
  balanced c /\ (n + work_left c <= 4 * List.length (cr_requests c0))%nat /\
  gt_capacity (cr_gates c).1 = gt_capacity (cr_gates c0).1 /\ forall key, capacities (cr_gates c) key = capacities (cr_gates c0) key.
Proof.
  intros Hs Hn. induction Hn as [c|n c0 c1 c2 _ IH Hstep].
  - split_and!; [by apply starts_balanced| |done..]. destruct Hs as (_ & _ & _ & Hr). unfold work_left.
    induction Hr as [|r l Hx _ IH]; [done|]. rewrite work_cons. unfold steps_left at 1. rewrite Hx. cbn [List.length]. lia.
  - destruct (IH Hs) as (Hb & Hw & Hc & Hk). destruct (step_balanced _ _ Hb Hstep) as [Hb' Hw'].
    split; [done|]. split; [lia|]. destruct Hstep as [i r next gs c Hr Ha]. cbn [cr_gates].
    destruct (moved_capacity _ _ _ _ _ (advance_moved _ _ _ _ _ Ha)) as [E1 E2].
    split; [congruence|]. intros key. rewrite E2. apply Hk.
Qed.

(** A request that is not settled never waits. *)
Lemma never_waits c r : balanced c -> In r (cr_requests c) -> settled r = false -> is_Some (advance (rs_key r) (rs_stage r) (cr_gates c)).
Proof.
  intros [Hg _ Hb Hgated] Hin Hr. destruct r as [key []], (cr_gates c) as [global bindings] eqn:E; try done; cbn [rs_key rs_stage advance fst snd] in *.
  - by destruct (send global).
  - destruct (bindings !! key) as [g|]; [|done]. by destruct (send g).
  - pose proof (count_member holds_global _ _ Hin eq_refl). assert (H1 : try_receive global = Some (receive global)) by (apply try_receive_Some; split; [lia|done]).
    by rewrite H1.
  - destruct (Hgated _ Hin eq_refl) as [g Hk]. cbn in Hk. rewrite Hk. destruct (Hb _ _ Hk) as [Hc _].
    assert (H1 : 0 < count (holds_binding key) (cr_requests c)).
    { apply (count_member _ _ _ Hin). unfold holds_binding. cbn. rewrite bool_decide_true by done. done. }
    assert (H2 : try_receive g = Some (receive g)) by (apply try_receive_Some; split; [lia|done]). cbn. by rewrite H2.
  - pose proof (count_member holds_global _ _ Hin eq_refl). assert (H1 : try_receive global = Some (receive global)) by (apply try_receive_Some; split; [lia|done]).
    by rewrite H1.
Qed.

Lemma all_settled_count f l : forallb settled l = true -> (forall r, settled r = true -> f r = false) -> count f l = 0.
Proof.
  intros Hl Hf. induction l as [|r l IH]; [done|]. cbn in Hl. apply andb_true_iff in Hl as [Hr Hl]. by rewrite count_cons, Hf, IH.
Qed.

(** C3: The gates bound what runs at once. However the requests interleave, a gate holds exactly one token
    for each request that has sent to it and not yet received, the global gate for every admitted request and the gate of a binding
    for every operation of the binding that runs; so there are never more of them than the
    capacities that the gates were made with. *)
Theorem capacity_respected c0 n c : starts c0 -> crowd_steps n c0 c ->
  gt_held (cr_gates c).1 = count holds_global (cr_requests c) /\
  count holds_global (cr_requests c) <= gt_capacity (cr_gates c0).1 /\
  forall key g, (cr_gates c0).2 !! key = Some g ->
    count (holds_binding key) (cr_requests c) <= gt_capacity g /\
    exists g', (cr_gates c).2 !! key = Some g' /\ gt_held g' = count (holds_binding key) (cr_requests c).
Proof.
  intros Hs Hn. destruct (steps_invariant _ _ _ Hs Hn) as ([Hg Hgb Hb _] & _ & Hc & Hk). split_and!; [done|lia|].
  intros key g E. specialize (Hk key). unfold capacities in Hk. rewrite E in Hk.
  destruct ((cr_gates c).2 !! key) as [g'|] eqn:E'; [|done]. injection Hk as Hk. destruct (Hb _ _ E') as [H1 H2]. split; [lia|]. by exists g'.
Qed.

(** C2: Every request gets through. However the requests interleave, no request waits for
    another: each one that is neither refused nor finished can make its next step. All of them together
    make at most four steps each, so every schedule ends; and when no step is left, all are refused or
    finished and every gate is as it was before the first request, no token lost and none left over. *)
Theorem requests_settle c0 n c : starts c0 -> crowd_steps n c0 c ->
  (n + work_left c <= 4 * List.length (cr_requests c0))%nat /\
  (forall i r, cr_requests c !! i = Some r -> settled r = false -> exists next gs,
     advance (rs_key r) (rs_stage r) (cr_gates c) = Some (next, gs) /\
     crowd_step c {| cr_gates := gs; cr_requests := <[i := {| rs_key := rs_key r; rs_stage := next |}]> (cr_requests c) |}) /\
  ((forall c', ~ crowd_step c c') -> forallb settled (cr_requests c) = true /\ cr_gates c = cr_gates c0).
Proof.
  intros Hs Hn. destruct (steps_invariant _ _ _ Hs Hn) as (Hbal & Hw & Hc & Hk). split; [done|].
  assert (Hnext : forall i r, cr_requests c !! i = Some r -> settled r = false -> exists next gs,
     advance (rs_key r) (rs_stage r) (cr_gates c) = Some (next, gs) /\
     crowd_step c {| cr_gates := gs; cr_requests := <[i := {| rs_key := rs_key r; rs_stage := next |}]> (cr_requests c) |}).
  { intros i r Hr Hset. destruct (never_waits c r Hbal) as [[next gs] Ha]; [by apply list_elem_of_In; eapply list_elem_of_lookup_2|done|].
    exists next, gs. split; [done|]. by econstructor. }
  split; [done|]. intros Hstuck.
  assert (Hall : forallb settled (cr_requests c) = true).
  { apply forallb_forall. intros r Hin. destruct (settled r) eqn:E; [done|]. apply list_elem_of_In, list_elem_of_lookup_1 in Hin as [i Hi].
    destruct (Hnext i r Hi E) as (next & gs & _ & Hstep). by destruct (Hstuck _ Hstep). }
  split; [done|]. destruct Hbal as [Hg _ Hb _]. destruct Hs as (Hg0 & _ & Hb0 & _).
  rewrite all_settled_count in Hg; [|done|by intros [? []]].
  destruct (cr_gates c) as [[cap held] bindings], (cr_gates c0) as [[cap0 held0] bindings0]. cbn in *. subst. f_equal.
  apply map_eq. intros key. specialize (Hk key). unfold capacities in Hk. cbn in Hk.
  destruct (bindings !! key) as [[c1 h1]|] eqn:E1, (bindings0 !! key) as [[c2 h2]|] eqn:E2; try done. cbn in Hk.
  destruct (Hb _ _ E1) as [Hh1 _], (Hb0 _ _ E2) as [Hh2 _]. cbn in *.
  rewrite all_settled_count in Hh1; [congruence|done|]. intros [k []]; try done; intros _; unfold holds_binding; cbn; apply andb_false_r.
Qed.

(** ** One request by itself *)

(** The steps of a request until it runs or is refused. *)
Fixpoint alone (fuel : nat) (key : BindingKey) (at_ : stage) (gs : gates) : stage * gates :=
  match fuel with
  | O => (at_, gs)
  | S fuel' =>
      if bool_decide (at_ = Running) then (at_, gs)
      else match advance key at_ gs with Some (next, gs') => alone fuel' key next gs' | None => (at_, gs) end
  end.

(** [acquireCapacity] in one go is what these steps come to when no other request steps between them. *)
Lemma acquireCapacity_alone {W} key (s : state W) : 0 <= gt_held (st_global s) ->
  exists ok, (acquireCapacity key s).1 = inr ok /\
    alone 3 key Arriving (st_global s, st_bindings s) =
      (if ok : bool then Running else Refused, (st_global (acquireCapacity key s).2, st_bindings (acquireCapacity key s).2)).
Proof.
  intros Hh. unfold acquireCapacity. cbn [alone]. rewrite bool_decide_false by done. cbn [advance].
  assert (Hback : forall g, send (st_global s) = Some g -> try_receive g = Some (receive g)).
  { intros g [_ ->]%send_Some. apply try_receive_Some. cbn. split; [lia|done]. }
  destruct (send (st_global s)) as [global|] eqn:Eg; [|by exists false]. specialize (Hback _ eq_refl).
  rewrite bool_decide_false by done. cbn [advance].
  destruct (st_bindings s !! key) as [g|] eqn:Ek; [destruct (send g) as [g'|] eqn:Es; [by exists true|]|];
    exists false; (split; [done|]); rewrite bool_decide_false by done; cbn [advance]; by rewrite Hback.
Qed.

(** ** Three requests of one binding *)

(** The requests whose turn it is, one after the other. *)
Fixpoint run_schedule (turns : list nat) (c : crowd) : option crowd :=
  match turns with
  | [] => Some c
  | i :: turns' =>
      r ← cr_requests c !! i;
      '(next, gs) ← advance (rs_key r) (rs_stage r) (cr_gates c);
      run_schedule turns' {| cr_gates := gs; cr_requests := <[i := {| rs_key := rs_key r; rs_stage := next |}]> (cr_requests c) |}
  end.

Lemma run_schedule_steps turns : forall n c0 c c', crowd_steps n c0 c -> run_schedule turns c = Some c' -> crowd_steps (List.length turns + n) c0 c'.
Proof.
  induction turns as [|i turns IH]; intros n c0 c c' Hn H; cbn in H; [by injection H as <-|].
  apply bind_Some in H as (r & Hr & H). apply bind_Some in H as ([next gs] & Ha & H).
  replace (List.length (i :: turns) + n)%nat with (List.length turns + S n)%nat by (cbn; lia).
  eapply IH; [|exact H]. eapply more_steps; [exact Hn|by econstructor].
Qed.

Definition three_requests : crowd := {|
  cr_gates := ({| gt_capacity := 2; gt_held := 0 |}, {[ reader_key := {| gt_capacity := 1; gt_held := 0 |} ]});
  cr_requests := [{| rs_key := reader_key; rs_stage := Arriving |}; {| rs_key := reader_key; rs_stage := Arriving |};
                  {| rs_key := reader_key; rs_stage := Arriving |}] |}.

(** The first runs; the second is turned back at the gate of the binding and the third, meanwhile, at the global gate. *)
Definition crossing : list nat := [0; 1; 2; 0; 1]%nat.
Definition crossed : crowd := default three_requests (run_schedule crossing three_requests).

Example crossing_stages : (map rs_stage (cr_requests crossed), gt_held (cr_gates crossed).1) = ([Running; TurningBack; Refused], 2).
Proof. vm_compute. reflexivity. Qed.

Lemma three_start : starts three_requests.
Proof.
  split_and!; [done|done| |repeat constructor]. intros key g H. cbn in H. apply lookup_singleton_Some in H as [_ <-]. done.
Qed.

Lemma crossing_steps : crowd_steps 5 three_requests crossed.
Proof. apply (run_schedule_steps crossing 0 three_requests three_requests); [constructor|vm_compute; reflexivity]. Qed.

Lemma capacity_respected_witness :
  gt_held (cr_gates crossed).1 = count holds_global (cr_requests crossed) /\
  count holds_global (cr_requests crossed) <= 2 /\
  forall key g, (cr_gates three_requests).2 !! key = Some g ->
    count (holds_binding key) (cr_requests crossed) <= gt_capacity g /\
    exists g', (cr_gates crossed).2 !! key = Some g' /\ gt_held g' = count (holds_binding key) (cr_requests crossed).
Proof. apply (capacity_respected three_requests 5 crossed); [apply three_start|apply crossing_steps]. Defined.

Lemma requests_settle_witness :
  (5 + work_left crossed <= 12)%nat /\
  (forall i r, cr_requests crossed !! i = Some r -> settled r = false -> exists next gs,
     advance (rs_key r) (rs_stage r) (cr_gates crossed) = Some (next, gs) /\
     crowd_step crossed {| cr_gates := gs; cr_requests := <[i := {| rs_key := rs_key r; rs_stage := next |}]> (cr_requests crossed) |}) /\
  ((forall c', ~ crowd_step crossed c') -> forallb settled (cr_requests crossed) = true /\ cr_gates crossed = cr_gates three_requests).
Proof. apply (requests_settle three_requests 5 crossed); [apply three_start|apply crossing_steps]. Defined.
